(* ===== verification/_CoqProject ===== *)
-Q . S2P
Prelude.v
Maps.v
BitHelper.v
Serialization.v
Message.v
Crc.v
E2e.v
E2eFacts.v
E2eProvider.v
Tp.v
TpFacts.v
Protocol.v
ProtocolFacts.v
ProtocolSafety.v
Sd.v
SdSafety.v
SdOutcome.v
SdWire.v
SdBuild.v
SdSession.v
Event.v
EventFacts.v
Subscription.v
SubscriptionFacts.v
SubscriptionLimit.v
SubscriptionRenewal.v
TcpStream.v
TcpStreamFacts.v
ClientIds.v
LocalStream.v
LocalStreamFacts.v
ClientEndpoint.v
ClientEndpointFacts.v
SdPhases.v
SdPhasesFacts.v
Dispatcher.v
DispatcherFacts.v
DispatcherLive.v
DispatcherProgress.v
Application.v
ApplicationFacts.v
ApplicationSubscriptions.v
Pings.v
PingsFacts.v
Registry.v
RegistryFacts.v
RegistryQueue.v
Offers.v
OffersFacts.v
Tunnel.v
