(* ===== verification/Prelude.v ===== *)
(** * Verification of vsomeip and the SOME/IP tunnel

    The repository holds vsomeip, an implementation of the automotive middleware
    SOME/IP in C++ ([src/vsomeip/implementation]), and a tunnel that bridges it to
    a gateway process over shared memory ([src/vsomeip/examples/tunnel]).

    ** The program

    An application links the runtime library and talks to a routing manager, in
    the same process or, through the commands of the local routing protocol, in
    another one.  The routing manager serializes messages, protects them end to
    end, splits long ones into segments, sends and receives them through
    endpoints, and keeps the events, the eventgroups and their subscribers.  The
    service discovery announces services and negotiates subscriptions with the
    other hosts.  The tunnel is an application: what it receives from vsomeip it
    publishes to the gateway, and the samples of the gateway become calls of the
    vsomeip application.

    ** Files and sources

    Paths are below [src/vsomeip/implementation] unless they say otherwise.  A
    C++ class is a [Module] of its name with a [Record] of its members and one
    definition for each method.

    - [Prelude]: outcomes of C++ code, machine integers, buffers, loops; the
      tactics and hints of the development.
    - [BitHelper]: [utility/include/bithelper.hpp].
    - [Serialization]: [message/src/serializer.cpp] and [deserializer.cpp].
    - [Message]: headers, payloads and messages ([message/src]) and the message
      factories of [runtime/src/runtime_impl.cpp].
    - [Crc], [E2e], [E2eFacts], [E2eProvider]: checksums, the profiles 1, 4, 5, 7
      and custom, and the provider ([e2e_protection]).
    - [Tp], [TpFacts]: segmentation and reassembly ([endpoints/src/tp.cpp],
      [tp_message.cpp], [tp_reassembler.cpp]).
    - [Protocol], [ProtocolFacts], [ProtocolSafety]: the commands of the local
      routing protocol ([protocol]).
    - [Sd], [SdSafety], [SdWire], [SdBuild]: service discovery messages, entries
      and options ([service_discovery/src]).
    - [SdSession]: sessions, reboot detection and the checks of received messages
      ([service_discovery_impl.cpp]).
    - [Event], [EventFacts]: events, fields and debounce filters
      ([routing/src/event.cpp]).
    - [Subscription], [SubscriptionFacts], [SubscriptionLimit],
      [SubscriptionRenewal]: remote subscriptions, endpoint definitions and
      eventgroups with the handlers of the routing manager
      ([routing/src/remote_subscription.cpp], [eventgroupinfo.cpp],
      [routing_manager_impl.cpp], [endpoints/src/endpoint_definition.cpp]).
    - [TcpStream], [TcpStreamFacts]: the receive path of TCP connections
      ([endpoints/src/tcp_client_endpoint_impl.cpp],
      [tcp_server_endpoint_impl.cpp], [endpoint_impl.cpp],
      [utility/src/utility.cpp]).
    - [ClientIds]: the identifiers of the local clients
      ([utility/src/utility.cpp]).
    - [LocalStream], [LocalStreamFacts]: the receive path of the sockets between
      local processes and the assignment of client identifiers
      ([endpoints/src/local_tcp_server_endpoint_impl.cpp],
      [local_uds_server_endpoint_impl.cpp], [local_tcp_client_endpoint_impl.cpp]).
    - [ClientEndpoint], [ClientEndpointFacts]: sending at client endpoints: trains of
      messages, the dispatch timer, the queue and the handlers of the socket
      ([endpoints/src/client_endpoint_impl.cpp], [endpoints/include/buffer.hpp]).
    - [SdPhases], [SdPhasesFacts]: the phases of offers and searches of the service
      discovery ([service_discovery/src/service_discovery_impl.cpp],
      [routing/src/serviceinfo.cpp], [service_discovery/src/request.cpp]).
    - [Dispatcher], [DispatcherFacts], [DispatcherLive], [DispatcherProgress]: the
      dispatcher threads of an application and their queue of handlers
      ([runtime/src/application_impl.cpp]).
    - [Application], [ApplicationFacts], [ApplicationSubscriptions]: the services,
      handlers and subscriptions that an application knows
      ([runtime/src/application_impl.cpp]).
    - [Maps]: ordered maps and maps of maps, shared by the components.
    - [Pings], [PingsFacts]: pings of local applications and their timer
      ([routing/src/routing_manager_stub.cpp]).
    - [Registry], [RegistryFacts], [RegistryQueue]: the registered applications with
      their offers, requests and connections, the queue of registrations, and the
      services that applications know ([routing/src/routing_manager_stub.cpp],
      [routing_manager_client.cpp]).
    - [Offers], [OffersFacts]: who offers a service instance: the queue of commands,
      pending offers and withdrawals ([routing/src/routing_manager_impl.cpp]).
    - [Tunnel]: [src/vsomeip/examples/tunnel], the bridge and the supervisor.

    ** Conventions

    Fallible code is in the monad [result]: [Ok] is a return, [Exn] an exception
    that leaves the function, [Abort] the end of the process and [Ub] a step that
    C++ does not define.  Buffers are lists of bytes, and every access of the code
    that no check of the code excludes is a checked read or write ([rd], [wr]) that
    is [Ub] outside the buffer.  Integers are [Z]; arithmetic of a machine type is
    followed by [u8], [u16], [u32] or [u64] where the code computes in that type.
    The byte order of the host is an argument.  Objects that the code shares
    through pointers and changes are in stores indexed by locations; weak pointers
    are locations whose object may be gone.  Threads are modelled at the
    granularity of the handlers that hold the lock: a run is a sequence of
    handlers in any order, and the theorems about runs quantify over the
    sequences.  Calls into parts that are not modelled are recorded in order as
    outputs; what those parts answer is an argument.

    ** What the theorems show

    - Encodings: what one host serializes another one deserializes, for messages,
      protocol commands, service discovery messages and end-to-end headers of each
      profile, with the exact exceptions; the table driven checksums are those of
      the documented polynomials and detect every change of a byte.
    - Arbitrary input: deserializers end and stay inside their buffers, or the
      inputs on which they do not are characterised exactly.
    - Segmentation: a message that is split is reassembled byte for byte for any
      order, repetition and timing of its segments.
    - Service discovery: announcements are distributed over messages of limited
      size from which receivers read exactly what was announced; restarts of a
      sender are detected, and losses are not taken for restarts.
    - Events: a field refines a register that tells its changes; initial values
      reach everyone who waits, once; filters and reference counters refine their
      specifications.
    - Subscriptions: no handler touches an object that is gone, nobody is
      acknowledged without the consent of the offering client, renewals refresh the
      entry in place, and the limit of subscribers holds up to one.
    - TCP: a stream of messages is delivered message by message however it is cut
      into reads, with and without magic cookies; arbitrary bytes are handled inside
      the buffer.
    - Local sockets: a connection refines a machine that handles one command at a
      time; an application gets the identifier that is registered for its
      connection, and identifiers are exclusive until they are released.
    - Trains: every accepted message is in exactly one buffer, whatever the socket
      does; trains depart within the configured times and are written in order.
    - Phases: listeners believe only in services that are offered and forget them
      when they are withdrawn; the times of all offers of a service.
    - Dispatchers: handlers of a service are taken in order and once, availability
      handlers of a service never run side by side, and dispatching neither deadlocks
      nor loops while handlers are queued.
    - Applications: availability handlers are told exactly the changes of their
      services, subscriptions are requested once, notifications are delivered exactly
      when they are subscribed.
    - Registry: every application knows exactly the offered services it requested;
      registrations are processed in order and one at a time.
    - Pings: who is reported did not answer in time, and who does not answer is
      reported within twice the time while nothing else happens.
    - Offers: commands of an instance are processed one at a time in order, and an
      application that can be pinged keeps its services.
    - Tunnel: an answer of the gateway becomes the response to the request it
      belongs to, whatever happens in between; the supervisor keeps at most one
      tunnel running.

    Several theorems state a flaw of the code as it is (an access behind a buffer, a
    message without end, a limit that is off by one); the doc comment of each says
    what the code does.

    ** Loops and fuel

    Loops over a container are folds ([foldM]) or structural recursions.  The loops
    of the deserializers and of the segmentation that advance an offset take a
    fuel that their callers set from the length of the buffer; that it suffices is
    proved ([ProtocolSafety.protocol_loops_end], [SdSafety.sd_deserialize_outcome],
    [TpFacts.tp_split_correct], which also names the one case without end).
    The receive loops of the connections take one more than the number of
    buffered bytes, which is part of the statements about them.
    Concrete bounds of the code are kept: 1380 bytes of a service discovery
    message, 1500 and 15000 bytes of a tunnel payload, 16 bit sessions and identifiers, 8 bit subscriber counters.

    ** Not modelled

    Sockets, timers and threads (Boost.Asio) are arguments or steps of the
    environment.  The configuration ([configuration_impl.cpp]) is the translation of
    JSON trees of Boost.PropertyTree into tables; the code that is modelled gets
    the values as arguments.  Logging, tracing, plugins, the credentials of the
    operating system and the compatibility layer have no part in the behaviour that
    is stated.  Third-party headers ([src/rootfs], iceoryx2) and tests are not code
    of the program.  The manifest lists every part with its state.

    ** What is left

    Not modelled yet are received offers and the acknowledgement of subscriptions of the
    service discovery, remote services and the delivery of messages in the routing
    manager, and the state machine by which an application registers. *)

From stdpp Require Import base list gmap.
From Stdlib Require Import ZArith Lia.

#[global] Open Scope Z_scope.

(** ** Outcomes of C++ code

    [Ok] is a normal return, [Exn] an exception that leaves the function,
    [Abort] the end of the process (a failed [assert] or [expect]), and [Ub] a
    step whose behaviour C++ does not define (an access outside an array or a
    vector, a null pointer, a comparator that is not an order, the use of an
    uninitialised variable, a static cast to a class the object does not have, a
    data race, a loop without end). *)

Inductive exn : Set :=
| out_of_range
| bad_alloc
| length_error
| bad_cast.

Inductive ub : Set :=
| oob_read
| oob_write
| null_deref
| bad_order
| indeterminate
| bad_downcast
| data_race
| endless.

Inductive result (A : Type) : Type :=
| Ok (a : A)
| Exn (e : exn)
| Abort
| Ub (u : ub).
Arguments Ok {A} a.
Arguments Exn {A} e.
Arguments Abort {A}.
Arguments Ub {A} u.

#[export] Instance result_ret : MRet result := λ A a, Ok a.
#[export] Instance result_bind : MBind result := λ A B k m,
  match m with
  | Ok a => k a
  | Exn e => Exn e
  | Abort => Abort
  | Ub u => Ub u
  end.

#[export] Instance result_fmap : FMap result := λ A B f m,
  match m with
  | Ok a => Ok (f a)
  | Exn e => Exn e
  | Abort => Abort
  | Ub u => Ub u
  end.

Definition is_ok {A} (m : result A) : bool :=
  match m with Ok _ => true | _ => false end.

(** A loop whose body may fail: [for (x : l) s = f x s]. *)
Fixpoint foldM {A S} (f : A → S → result S) (l : list A) (s : S) : result S :=
  match l with
  | [] => Ok s
  | x :: l => s ← f x s; foldM f l s
  end.

Lemma foldM_app {A S} (f : A → S → result S) l k s :
  foldM f (l ++ k) s = (s ← foldM f l s; foldM f k s).
Proof. revert s; induction l as [|x l IH]; intros s; cbn; [done|]. destruct (f x s); cbn; auto. Qed.

(** A loop that cannot fail. *)
Lemma foldM_pure {A S} (f : A → S → result S) (g : A → S → S) l s :
  (∀ x s, x ∈ l → f x s = Ok (g x s)) → foldM f l s = Ok (foldl (λ s x, g x s) s l).
Proof.
  revert s; induction l as [|x l IH]; intros s Hf; cbn; [done|].
  rewrite Hf by set_solver. cbn. apply IH. intros; apply Hf; set_solver.
Qed.

(** A loop that keeps an invariant returns. *)
Lemma foldM_inv {A S} (P : S → Prop) (f : A → S → result S) l :
  (∀ x s, x ∈ l → P s → ∃ s', f x s = Ok s' ∧ P s') →
  ∀ s, P s → ∃ s', foldM f l s = Ok s' ∧ P s'.
Proof.
  induction l as [|x l IH]; intros Hf s Hs; cbn [foldM]; [by exists s|].
  destruct (Hf x s) as (s1 & E1 & H1); [apply elem_of_cons; by left|done|].
  destruct (IH (λ y s Hy, Hf y s ltac:(apply elem_of_cons; by right)) s1 H1) as (s' & E & H').
  exists s'. split; [|done]. by rewrite E1.
Qed.


(** [v[i]] on an array or vector of any element type. *)
Definition at_idx {A} (l : list A) (i : nat) : result A :=
  match l !! i with Some x => Ok x | None => Ub oob_read end.

(** An index loop over a part of an array is a fold over its elements. *)
Lemma foldM_seq {A S} (f : nat → S → result S) (g : A → S → S) (l : list A) k n s :
  (∀ i x s, (k ≤ i < k + n)%nat → l !! i = Some x → f i s = Ok (g x s)) →
  (k + n ≤ length l)%nat →
  foldM f (seq k n) s = Ok (foldl (λ s x, g x s) s (take n (drop k l))).
Proof.
  revert k s. induction n as [|n IH]; intros k s Hf Hl; cbn [seq foldM take foldl]; [done|].
  destruct (lookup_lt_is_Some_2 l k) as [x Hx]; [lia|].
  rewrite (Hf k x) by (done || lia). cbn [mbind result_bind].
  rewrite IH; [|intros; apply Hf; [lia|done]|lia].
  by rewrite (drop_S _ _ _ Hx).
Qed.

(** ... and undefined when it runs over the end. *)
Lemma foldM_seq_oob {A S} (f : nat → S → result S) (g : A → S → S) (l : list A) n s :
  (∀ i s, f i s = match l !! i with Some x => Ok (g x s) | None => Ub oob_read end) →
  (length l < n)%nat → foldM f (seq 0 n) s = Ub oob_read.
Proof.
  intros Hf Hn. replace n with (length l + (n - length l))%nat by lia.
  rewrite seq_app, foldM_app.
  rewrite (foldM_seq f g l); [|intros i x s' _ Hx; by rewrite Hf, Hx|lia].
  cbn [mbind result_bind]. destruct (n - length l)%nat as [|m] eqn:E; [lia|].
  cbn [seq foldM Nat.add]. rewrite Hf, lookup_ge_None_2 by lia. done.
Qed.

(** A [std::set] of integers: a strictly increasing list. *)
Fixpoint set_insert (x : Z) (l : list Z) : list Z :=
  match l with
  | [] => [x]
  | y :: l' => if x <? y then x :: l else if x =? y then l else y :: set_insert x l'
  end.

Definition set_of_list (l : list Z) : list Z := foldl (λ s x, set_insert x s) [] l.

Lemma set_insert_elem x y l : y ∈ set_insert x l ↔ y = x ∨ y ∈ l.
Proof.
  induction l as [|z l IH]; cbn.
  { rewrite list_elem_of_singleton, elem_of_nil. tauto. }
  destruct (Z.ltb_spec x z); [by rewrite elem_of_cons|].
  destruct (Z.eqb_spec x z) as [->|]; rewrite !elem_of_cons, ?IH; tauto.
Qed.

Lemma set_of_list_elem_acc l s y : y ∈ foldl (λ s x, set_insert x s) s l ↔ y ∈ l ∨ y ∈ s.
Proof.
  revert s; induction l as [|x l IH]; intros s; cbn.
  { rewrite elem_of_nil. tauto. }
  rewrite IH, set_insert_elem, elem_of_cons. tauto.
Qed.

Lemma set_of_list_elem l y : y ∈ set_of_list l ↔ y ∈ l.
Proof. unfold set_of_list. rewrite set_of_list_elem_acc, elem_of_nil. tauto. Qed.

(** ** Machine integers: a [w]-bit unsigned integer is a [Z] reduced modulo
    [2 ^ w]; the reduction is written where the code has it. *)

Definition wrap (w : Z) (z : Z) : Z := z mod 2 ^ w.

Abbreviation u8 := (wrap 8).
Abbreviation u16 := (wrap 16).
Abbreviation u32 := (wrap 32).
Abbreviation u64 := (wrap 64).

Definition in_width (w z : Z) : Prop := 0 ≤ z < 2 ^ w.
Abbreviation is_u8 := (in_width 8).
Abbreviation is_u16 := (in_width 16).
Abbreviation is_u32 := (in_width 32).
Abbreviation is_u64 := (in_width 64).

#[export] Instance in_width_dec w z : Decision (in_width w z).
Proof. unfold in_width. apply _. Defined.

Lemma testbit_high w z i : in_width w z → 0 ≤ w ≤ i → Z.testbit z i = false.
Proof.
  unfold in_width. intros Hz Hi. rewrite <- (Z.mod_small z (2 ^ w)) by done.
  apply Z.mod_pow2_bits_high. lia.
Qed.

(** Joining two disjoint groups of bits is an addition. *)
Lemma lor_shiftl_add a b n : 0 ≤ n → in_width n b → Z.lor (Z.shiftl a n) b = a * 2 ^ n + b.
Proof.
  intros Hn Hb. rewrite <- Z.shiftl_mul_pow2 by done.
  assert (Z.land (Z.shiftl a n) b = 0) as E.
  { apply Z.bits_inj'. intros i Hi. rewrite Z.land_spec, Z.bits_0.
    destruct (Z.lt_ge_cases i n).
    - rewrite Z.shiftl_spec_low by done. done.
    - rewrite (testbit_high n b i) by (done || lia). apply andb_false_r. }
  rewrite <- Z.lxor_lor by done. symmetry. by apply Z.add_nocarry_lxor.
Qed.

Abbreviation bytes := (list Z).
Abbreviation bytes_ok := (Forall (in_width 8)).

(** ** Buffers

    A [std::vector<byte_t>] and a pointer into one are a list of bytes and an
    offset.  [rd] and [wr] are the block reads and writes ([std::memcpy], an
    iterator range, [v[i]]); outside the buffer they are undefined. *)

Definition rd (buf : bytes) (off n : nat) : result bytes :=
  if decide (off + n ≤ length buf)%nat then Ok (take n (drop off buf)) else Ub oob_read.

Definition wr (buf : bytes) (off : nat) (bs : bytes) : result bytes :=
  if decide (off + length bs ≤ length buf)%nat
  then Ok (take off buf ++ bs ++ drop (off + length bs) buf)
  else Ub oob_write.

Definition rd1 (buf : bytes) (i : nat) : result Z :=
  match buf !! i with Some b => Ok b | None => Ub oob_read end.

Definition wr1 (buf : bytes) (i : nat) (b : Z) : result bytes :=
  if decide (i < length buf)%nat then Ok (<[i := b]> buf) else Ub oob_write.

(** ** Boolean operations on a state

    The source chains calls that return [bool] with [&&]: the chain stops at
    the first [false] and keeps the changes made so far. *)

Definition bop (S : Type) : Type := S → result (bool * S).

Definition bop_and {S} (m1 m2 : bop S) : bop S := λ s,
  r ← m1 s;
  if (r.1 : bool) then m2 r.2 else Ok (false, r.2).

Definition bop_ret {S} (b : bool) : bop S := λ s, Ok (b, s).

Declare Scope bop_scope.
Delimit Scope bop_scope with bop.
Notation "m1 ;&& m2" := (bop_and m1 m2)
  (at level 62, right associativity) : bop_scope.
#[global] Open Scope bop_scope.

(** ** Hint databases and tactics of the development *)

Create HintDb word discriminated.
Create HintDb buf discriminated.
Create Rewrite HintDb buf.

Lemma wrap_range w z : 0 ≤ w → in_width w (wrap w z).
Proof. intros; unfold in_width, wrap; apply Z.mod_pos_bound; lia. Qed.

Lemma wrap_small w z : in_width w z → wrap w z = z.
Proof. unfold in_width, wrap; intros; by apply Z.mod_small. Qed.

Lemma wrap_wrap w z : 0 ≤ w → wrap w (wrap w z) = wrap w z.
Proof. intros; apply wrap_small, wrap_range; lia. Qed.

Lemma in_width_mono w w' z : 0 ≤ w ≤ w' → in_width w z → in_width w' z.
Proof.
  unfold in_width. intros Hw [? ?]. split; [lia|].
  eapply Z.lt_le_trans; [done|]. apply Z.pow_le_mono_r; lia.
Qed.

(** [wrap_bounds] adds the range of a wrapped or bounded integer to the
    context in the form [lia] reads. *)
Ltac wrap_bounds :=
  unfold in_width, wrap in *;
  change (2 ^ 8) with 256 in *; change (2 ^ 16) with 65536 in *;
  change (2 ^ 32) with 4294967296 in *;
  change (2 ^ 64) with 18446744073709551616 in *.

Ltac word := wrap_bounds; Z.div_mod_to_equations; lia.

(** Evaluates a decidable closed goal. *)
Ltac by_eval := apply (bool_decide_unpack _); vm_compute; exact I.

(** Lengths of the list operations the models use. *)
Ltac len :=
  rewrite ?length_app, ?length_take, ?length_drop, ?length_insert,
    ?length_replicate, ?length_reverse in *; cbn [length] in *; try lia.

#[export] Hint Extern 5 (in_width _ (wrap _ _)) => apply wrap_range; lia : word.
#[export] Hint Resolve in_width_mono : word.

Lemma bind_Ok {A B} (a : A) (k : A → result B) : (mbind k (Ok a)) = k a.
Proof. done. Qed.

Lemma bind_Ok_inv {A B} (m : result A) (k : A → result B) b :
  mbind k m = Ok b → ∃ a, m = Ok a ∧ k a = Ok b.
Proof. destruct m; cbn; intros; try done; eauto. Qed.

(** Peels the binds of a hypothesis [m ≫= k = Ok b]. *)
Ltac res_inv :=
  repeat match goal with
  | H : mbind _ _ = Ok _ |- _ => apply bind_Ok_inv in H as (? & ? & H)
  | H : Ok _ = Ok _ |- _ => injection H as H; subst
  | H : Ub _ = Ok _ |- _ => discriminate H
  | H : Exn _ = Ok _ |- _ => discriminate H
  | H : Abort = Ok _ |- _ => discriminate H
  end.

(** Also splits on what the hypothesis matches on. *)
Ltac peel :=
  repeat (res_inv; simplify_eq;
    match goal with
    | H : match ?x with _ => _ end = Ok _ |- _ => destruct x eqn:?
    end); res_inv; simplify_eq.

Lemma bop_and_true {S} (m1 m2 : bop S) s s1 :
  m1 s = Ok (true, s1) → (m1 ;&& m2) s = m2 s1.
Proof. unfold bop_and. by intros ->. Qed.

Lemma bop_and_false {S} (m1 m2 : bop S) s s1 :
  m1 s = Ok (false, s1) → (m1 ;&& m2) s = Ok (false, s1).
Proof. unfold bop_and. by intros ->. Qed.

Lemma bop_and_inv_true {S} (m1 m2 : bop S) s s2 :
  (m1 ;&& m2) s = Ok (true, s2) → ∃ s1, m1 s = Ok (true, s1) ∧ m2 s1 = Ok (true, s2).
Proof.
  unfold bop_and. intros (r & H1 & H2)%bind_Ok_inv.
  destruct r as [[] s1]; cbn in *; eauto. done.
Qed.

(** *** Reading and writing blocks *)

Section buffers.
Implicit Types (buf bs : bytes) (off n i : nat).

Lemma rd_ok buf off n :
  (off + n ≤ length buf)%nat → rd buf off n = Ok (take n (drop off buf)).
Proof. intros. unfold rd. by rewrite decide_True. Qed.

Lemma wr_ok buf off bs :
  (off + length bs ≤ length buf)%nat →
  wr buf off bs = Ok (take off buf ++ bs ++ drop (off + length bs) buf).
Proof. intros. unfold wr. by rewrite decide_True. Qed.

Lemma rd_is_ok buf off n : is_ok (rd buf off n) = bool_decide (off + n ≤ length buf)%nat.
Proof. unfold rd. case_decide; [by rewrite bool_decide_true|by rewrite bool_decide_false]. Qed.

Lemma rd_length buf off n bs : rd buf off n = Ok bs → length bs = n.
Proof. unfold rd. case_decide; intros; simplify_eq. len. Qed.

Lemma wr_length buf off bs buf' : wr buf off bs = Ok buf' → length buf' = length buf.
Proof. unfold wr. case_decide; intros; simplify_eq. len. Qed.

Lemma wr_inv buf off bs buf' :
  wr buf off bs = Ok buf' →
  (off + length bs ≤ length buf)%nat ∧
  buf' = take off buf ++ bs ++ drop (off + length bs) buf.
Proof. unfold wr. case_decide; intros; by simplify_eq. Qed.

(** Reading back a block that was just written. *)
Lemma rd_wr_same buf off bs buf' :
  wr buf off bs = Ok buf' → rd buf' off (length bs) = Ok bs.
Proof.
  intros H. pose proof (wr_length _ _ _ _ H). apply wr_inv in H as [Hl ->].
  rewrite rd_ok by len. f_equal.
  rewrite drop_app_length' by len. by rewrite take_app_length.
Qed.

(** The element at any index of a buffer after a block write. *)
Lemma wr_lookup buf off bs buf' i :
  wr buf off bs = Ok buf' →
  buf' !! i = if decide (off ≤ i < off + length bs)%nat then bs !! (i - off)%nat else buf !! i.
Proof.
  intros [Hl ->]%wr_inv. case_decide.
  - rewrite lookup_app_r by len. len. rewrite Nat.min_l by lia.
    by rewrite lookup_app_l by lia.
  - destruct (decide (i < off)%nat).
    + rewrite lookup_app_l by len. by rewrite lookup_take_lt by lia.
    + rewrite lookup_app_r by len. len. rewrite Nat.min_l by lia.
      rewrite lookup_app_r by lia. rewrite lookup_drop. f_equal; lia.
Qed.

Lemma rd_lookup buf off n bs i :
  rd buf off n = Ok bs → (i < n)%nat → bs !! i = buf !! (off + i)%nat.
Proof.
  unfold rd. case_decide; intros; simplify_eq.
  rewrite lookup_take_lt by lia. by rewrite lookup_drop.
Qed.

(** A write outside the block that is read does not change what is read. *)
Lemma rd_wr_other buf off bs buf' off' n :
  wr buf off bs = Ok buf' →
  (off' + n ≤ off ∨ off + length bs ≤ off')%nat →
  rd buf' off' n = rd buf off' n.
Proof.
  intros H Hd. pose proof (wr_length _ _ _ _ H) as Hlen.
  unfold rd. rewrite Hlen. case_decide; [|done]. f_equal.
  apply list_eq. intros i. destruct (decide (i < n)%nat).
  - rewrite !lookup_take_lt by lia. rewrite !lookup_drop.
    rewrite (wr_lookup _ _ _ _ _ H). rewrite decide_False; [done|lia].
  - rewrite !lookup_take_ge by lia. done.
Qed.

Lemma wr_take_before buf off bs buf' n :
  wr buf off bs = Ok buf' → (n ≤ off)%nat → take n buf' = take n buf.
Proof.
  intros H Hn. apply list_eq. intros i. destruct (decide (i < n)%nat).
  - rewrite !lookup_take_lt by lia. rewrite (wr_lookup _ _ _ _ _ H).
    rewrite decide_False; [done|lia].
  - rewrite !lookup_take_ge by lia. done.
Qed.

Lemma wr_drop_after buf off bs buf' n :
  wr buf off bs = Ok buf' → (off + length bs ≤ n)%nat → drop n buf' = drop n buf.
Proof.
  intros H Hn. apply list_eq. intros i. rewrite !lookup_drop, (wr_lookup _ _ _ _ _ H).
  rewrite decide_False; [done|lia].
Qed.

Lemma wr_bytes_ok buf off bs buf' :
  wr buf off bs = Ok buf' → bytes_ok buf → bytes_ok bs → bytes_ok buf'.
Proof.
  intros [_ ->]%wr_inv Hb Hs. repeat apply Forall_app_2; auto using Forall_take, Forall_drop.
Qed.

Lemma rd_bytes_ok buf off n bs : rd buf off n = Ok bs → bytes_ok buf → bytes_ok bs.
Proof. unfold rd. case_decide; intros; simplify_eq. auto using Forall_take, Forall_drop. Qed.

Lemma wr1_inv buf i b buf' : wr1 buf i b = Ok buf' → (i < length buf)%nat ∧ buf' = <[i:=b]> buf.
Proof. unfold wr1. case_decide; intros; by simplify_eq. Qed.
End buffers.

#[export] Hint Resolve wr_bytes_ok rd_bytes_ok : buf.
