(* ===== verification/Maps.v ===== *)
(** * Ordered maps

    A [std::map] with keys that are numbers is a finite map; where the code iterates,
    [sorted] gives its elements in the order of the keys.  [m[k]] on a map of maps
    creates what is missing ([sub]). *)

From stdpp Require Import base list gmap sorting.
From Stdlib Require Import ZArith Lia.
From S2P Require Import Prelude.

Open Scope Z_scope.

Definition key_le {A} (a b : Z * A) : Prop := a.1 ≤ b.1.
#[export] Instance key_le_dec {A} (a b : Z * A) : Decision (key_le a b) := Z.le_dec a.1 b.1.
Definition sorted {A} (m : gmap Z A) : list (Z * A) := merge_sort key_le (map_to_list m).

Definition has {A} (k : Z) (m : gmap Z A) : bool := bool_decide (is_Some (m !! k)).
Definition sub {A} (k : Z) (m : gmap Z (gmap Z A)) : gmap Z A := default ∅ (m !! k).

(** [m.find(k)->second] of maps of maps, [m[a][b] = v] and so on, and the erasure of a
    key together with maps that become empty. *)
Definition get2 {A} (a b : Z) (m : gmap Z (gmap Z A)) : option A := m !! a ≫= λ x, x !! b.
Definition get3 {A} (a b c : Z) (m : gmap Z (gmap Z (gmap Z A))) : option A := m !! a ≫= λ x, x !! b ≫= λ y, y !! c.
Definition get4 {A} (a b c d : Z) (m : gmap Z (gmap Z (gmap Z (gmap Z A)))) : option A := m !! a ≫= λ x, x !! b ≫= λ y, y !! c ≫= λ z, z !! d.
Definition set2 {A} (a b : Z) (v : A) (m : gmap Z (gmap Z A)) := <[a := <[b := v]> (sub a m)]> m.
Definition set3 {A} (a b c : Z) (v : A) (m : gmap Z (gmap Z (gmap Z A))) := <[a := set2 b c v (sub a m)]> m.
Definition set4 {A} (a b c d : Z) (v : A) (m : gmap Z (gmap Z (gmap Z (gmap Z A)))) := <[a := set3 b c d v (sub a m)]> m.

Definition prune {A} `{Empty A, EqDecision A} (k : Z) (v : A) (m : gmap Z A) : gmap Z A := if decide (v = ∅) then delete k m else <[k := v]> m.
Definition erase2 {A} `{EqDecision A} (a b : Z) (m : gmap Z (gmap Z A)) := match m !! a with Some x => prune a (delete b x) m | None => m end.
Definition erase3 {A} `{EqDecision A} (a b c : Z) (m : gmap Z (gmap Z (gmap Z A))) := match m !! a with Some x => prune a (erase2 b c x) m | None => m end.
Definition erase4 {A} `{EqDecision A} (a b c d : Z) (m : gmap Z (gmap Z (gmap Z (gmap Z A)))) := match m !! a with Some x => prune a (erase3 b c d x) m | None => m end.

(** ** Lookups *)

Lemma get2_set2 {A} a b a' b' (v : A) m : get2 a' b' (set2 a b v m) = if decide (a' = a ∧ b' = b) then Some v else get2 a' b' m.
Proof.
  unfold get2, set2, sub. destruct (decide (a' = a)) as [->|Ha]; [rewrite lookup_insert_eq|rewrite lookup_insert_ne by done; rewrite decide_False by tauto; done]. cbn.
  destruct (decide (b' = b)) as [->|Hb]; [rewrite lookup_insert_eq, decide_True by done; done|]. rewrite lookup_insert_ne by done. rewrite decide_False by tauto. by destruct (m !! a).
Qed.

Lemma get3_set3 {A} a b c a' b' c' (v : A) m : get3 a' b' c' (set3 a b c v m) = if decide (a' = a ∧ b' = b ∧ c' = c) then Some v else get3 a' b' c' m.
Proof.
  unfold get3, set3. destruct (decide (a' = a)) as [->|Ha]; [rewrite lookup_insert_eq|rewrite lookup_insert_ne by done; rewrite decide_False by tauto; done].
  assert (E : ∀ m : gmap Z (gmap Z A), (m !! b' ≫= λ y, y !! c') = get2 b' c' m) by done. change (Some ?x ≫= ?f) with (f x). cbv beta. rewrite E, get2_set2.
  destruct (decide (b' = b ∧ c' = c)), (decide (a = a ∧ b' = b ∧ c' = c)); try tauto. unfold sub. by destruct (m !! a).
Qed.

Lemma get4_set4 {A} a b c d a' b' c' d' (v : A) m : get4 a' b' c' d' (set4 a b c d v m) = if decide (a' = a ∧ b' = b ∧ c' = c ∧ d' = d) then Some v else get4 a' b' c' d' m.
Proof.
  unfold get4, set4. destruct (decide (a' = a)) as [->|Ha]; [rewrite lookup_insert_eq|rewrite lookup_insert_ne by done; rewrite decide_False by tauto; done].
  assert (E : ∀ m : gmap Z (gmap Z (gmap Z A)), (m !! b' ≫= λ y, y !! c' ≫= λ z, z !! d') = get3 b' c' d' m) by done. change (Some ?x ≫= ?f) with (f x). cbv beta. rewrite E, get3_set3.
  destruct (decide (b' = b ∧ c' = c ∧ d' = d)), (decide (a = a ∧ b' = b ∧ c' = c ∧ d' = d)); try tauto. unfold sub. by destruct (m !! a).
Qed.

Lemma lookup_prune {A} `{Empty A, EqDecision A} k (v : A) m k' : prune k v m !! k' = if decide (k' = k) then (if decide (v = ∅) then None else Some v) else m !! k'.
Proof.
  unfold prune. destruct (decide (v = ∅)), (decide (k' = k)) as [->|]; rewrite ?lookup_delete_eq, ?lookup_insert_eq, ?lookup_delete_ne, ?lookup_insert_ne by done; done.
Qed.

Lemma get2_erase2 {A} `{EqDecision A} a b a' b' (m : gmap Z (gmap Z A)) : get2 a' b' (erase2 a b m) = if decide (a' = a ∧ b' = b) then None else get2 a' b' m.
Proof.
  unfold erase2. destruct (m !! a) as [x|] eqn:E; [|destruct (decide _) as [[-> ->]|]; [unfold get2; by rewrite E|done]]. unfold get2. rewrite lookup_prune.
  destruct (decide (a' = a)) as [->|]; [|rewrite decide_False by tauto; done]. rewrite E. cbn.
  destruct (decide (b' = b)) as [->|].
  - rewrite (decide_True (P := a = a ∧ b = b)) by done. destruct (decide (delete b x = ∅)); [done|cbn; apply lookup_delete_eq].
  - rewrite (decide_False (P := a = a ∧ b' = b)) by tauto. destruct (decide (delete b x = ∅)) as [Hd|]; cbn; [|by rewrite lookup_delete_ne]. symmetry. rewrite <- (lookup_delete_ne x b b') by done. by rewrite Hd.
Qed.

Lemma get3_erase3 {A} `{EqDecision A} a b c a' b' c' (m : gmap Z (gmap Z (gmap Z A))) : get3 a' b' c' (erase3 a b c m) = if decide (a' = a ∧ b' = b ∧ c' = c) then None else get3 a' b' c' m.
Proof.
  unfold erase3. destruct (m !! a) as [x|] eqn:E; [|destruct (decide _) as [(-> & _)|]; [unfold get3; by rewrite E|done]]. unfold get3. rewrite lookup_prune.
  destruct (decide (a' = a)) as [->|]; [|rewrite decide_False by tauto; done]. rewrite E. change (Some ?x ≫= ?f) with (f x). cbv beta. assert (G := get2_erase2 b c b' c' x). unfold get2 in G.
  destruct (decide (erase2 b c x = ∅)) as [Hd|]; change (None ≫= ?f) with (@None A); change (Some ?x ≫= ?f) with (f x); cbv beta.
  - rewrite Hd in G. rewrite lookup_empty in G. cbn in G. destruct (decide (b' = b ∧ c' = c)), (decide (a = a ∧ b' = b ∧ c' = c)); tauto.
  - rewrite G. destruct (decide (b' = b ∧ c' = c)), (decide (a = a ∧ b' = b ∧ c' = c)); tauto.
Qed.

Lemma get4_erase4 {A} `{EqDecision A} a b c d a' b' c' d' (m : gmap Z (gmap Z (gmap Z (gmap Z A)))) :
  get4 a' b' c' d' (erase4 a b c d m) = if decide (a' = a ∧ b' = b ∧ c' = c ∧ d' = d) then None else get4 a' b' c' d' m.
Proof.
  unfold erase4. destruct (m !! a) as [x|] eqn:E; [|destruct (decide _) as [(-> & _)|]; [unfold get4; by rewrite E|done]]. unfold get4. rewrite lookup_prune.
  destruct (decide (a' = a)) as [->|]; [|rewrite decide_False by tauto; done]. rewrite E. change (Some ?x ≫= ?f) with (f x). cbv beta. assert (G := get3_erase3 b c d b' c' d' x). unfold get3 in G.
  destruct (decide (erase3 b c d x = ∅)) as [Hd|]; change (None ≫= ?f) with (@None A); change (Some ?x ≫= ?f) with (f x); cbv beta.
  - rewrite Hd in G. rewrite lookup_empty in G. cbn in G. destruct (decide (b' = b ∧ c' = c ∧ d' = d)), (decide (a = a ∧ b' = b ∧ c' = c ∧ d' = d)); tauto.
  - rewrite G. destruct (decide (b' = b ∧ c' = c ∧ d' = d)), (decide (a = a ∧ b' = b ∧ c' = c ∧ d' = d)); tauto.
Qed.

(** ** Iteration *)

Lemma elem_of_sorted {A} (m : gmap Z A) k a : (k, a) ∈ sorted m ↔ m !! k = Some a.
Proof. unfold sorted. by rewrite merge_sort_Permutation, elem_of_map_to_list. Qed.

Lemma elem_of_sorted_values {B} (m : gmap Z B) x : x ∈ (sorted m).*2 ↔ ∃ k, m !! k = Some x.
Proof.
  unfold sorted. rewrite list_elem_of_fmap. setoid_rewrite merge_sort_Permutation. split.
  - intros ([k y] & -> & Hk). exists k. by apply elem_of_map_to_list.
  - intros (k & Hk). exists (k, x). split; [done|by apply elem_of_map_to_list].
Qed.

(** The elements of a map of maps that satisfy a condition, and their erasure. *)
Lemma elem_of_matching {A B} (P : Z * A → Prop) `{∀ x, Decision (P x)} (g : Z → Z * A → B) (m : gmap Z (gmap Z A)) b :
  b ∈ mjoin ((λ x : Z * gmap Z A, g x.1 <$> filter P (sorted x.2)) <$> sorted m) ↔ ∃ s i v, get2 s i m = Some v ∧ P (i, v) ∧ b = g s (i, v).
Proof.
  rewrite list_elem_of_join. split.
  - intros (l & Hin & ([s x] & -> & Hs%elem_of_sorted)%list_elem_of_fmap). apply list_elem_of_fmap in Hin as ([i v] & -> & [Hv Hi%elem_of_sorted]%list_elem_of_filter).
    exists s, i, v. split_and!; [|done|done]. unfold get2. by rewrite Hs.
  - intros (s & i & v & (x & Hs & Hi)%bind_Some & Hv & ->). eexists. split; [|apply list_elem_of_fmap; exists (s, x); split; [done|by apply elem_of_sorted]].
    apply list_elem_of_fmap. exists (i, v). split; [done|]. apply list_elem_of_filter. split; [done|by apply elem_of_sorted].
Qed.

Lemma get2_erase_each {A B} `{EqDecision A} (f : B → Z * Z) s i l :
  ∀ m : gmap Z (gmap Z A), get2 s i (foldl (λ m x, erase2 (f x).1 (f x).2 m) m l) = if decide ((s, i) ∈ f <$> l) then None else get2 s i m.
Proof.
  induction l as [|x l IH]; intros m; [done|]. cbn [foldl]. rewrite IH, get2_erase2, fmap_cons. destruct (f x) as [s' i']. cbn [fst snd].
  destruct (decide ((s, i) ∈ f <$> l)), (decide ((s, i) ∈ (s', i') :: (f <$> l))) as [Hin|Hin], (decide (s = s' ∧ i = i')) as [[-> ->]|Hne]; rewrite elem_of_cons in Hin; try done; try tauto.
  destruct Hin as [[= -> ->]|]; tauto.
Qed.
