(* ===== verification/BitHelper.v ===== *)
(** * Byte order helpers ([utility/include/bithelper.hpp])

    Reads and writes of 16, 32 and 64 bit integers in a fixed byte order.  The
    source picks the byte order of the host at run time, swaps when it differs
    from the wanted one and copies the object representation with
    [std::memcpy].  The host's byte order is the argument [host] of every
    definition; [mem_of] and [val_of] are the object representation of an
    integer on such a host.  The theorems show that the result does not depend
    on the host: every routine is the big (or little) endian encoding. *)

From stdpp Require Import base list.
From Stdlib Require Import ZArith Lia.
From S2P Require Import Prelude.

Inductive endianess_e : Set := be | le.

#[export] Instance endianess_eq_dec : EqDecision endianess_e.
Proof. solve_decision. Defined.

(** ** The reference encodings *)

Fixpoint le_bytes (n : nat) (v : Z) : bytes :=
  match n with
  | O => []
  | S n => v mod 256 :: le_bytes n (v / 256)
  end.

Fixpoint le_val (bs : bytes) : Z :=
  match bs with
  | [] => 0
  | b :: bs => b + 256 * le_val bs
  end.

Definition be_bytes (n : nat) (v : Z) : bytes := reverse (le_bytes n v).
Definition be_val (bs : bytes) : Z := le_val (reverse bs).

Module bithelper.
Section host.
Variable host : endianess_e.

(** The object representation of a [sizeof] = [n] integer on the host. *)
Definition mem_of (n : nat) (v : Z) : bytes :=
  match host with be => be_bytes n v | le => le_bytes n v end.
Definition val_of (bs : bytes) : Z :=
  match host with be => be_val bs | le => le_val bs end.

(** The run-time check: is the first byte of 0x0102 a one? *)
Definition get_endianness : endianess_e :=
  match head (mem_of 2 0x0102) with
  | Some b => if b =? 1 then be else le
  | None => le
  end.

(** [std::reverse_copy] of the object representation. *)
Definition swap_endianness (n : nat) (v : Z) : Z := val_of (reverse (mem_of n v)).

Definition write_be (n : nat) (v : Z) : bytes :=
  mem_of n (if decide (get_endianness ≠ be) then swap_endianness n v else v).
Definition write_le (n : nat) (v : Z) : bytes :=
  mem_of n (if decide (get_endianness ≠ le) then swap_endianness n v else v).
Definition read_be (n : nat) (bs : bytes) : Z :=
  let value := val_of bs in
  if decide (get_endianness = be) then value else swap_endianness n value.
Definition read_le (n : nat) (bs : bytes) : Z :=
  let value := val_of bs in
  if decide (get_endianness = le) then value else swap_endianness n value.

Definition write_uint16_be (v : Z) : bytes := write_be 2 v.
Definition write_uint16_le (v : Z) : bytes := write_le 2 v.
Definition write_uint32_be (v : Z) : bytes := write_be 4 v.
Definition write_uint32_le (v : Z) : bytes := write_le 4 v.
Definition write_uint64_be (v : Z) : bytes := write_be 8 v.
Definition write_uint64_le (v : Z) : bytes := write_le 8 v.
Definition read_uint16_be (bs : bytes) : Z := read_be 2 bs.
Definition read_uint16_le (bs : bytes) : Z := read_le 2 bs.
Definition read_uint32_be (bs : bytes) : Z := read_be 4 bs.
Definition read_uint32_le (bs : bytes) : Z := read_le 4 bs.
Definition read_uint64_be (bs : bytes) : Z := read_be 8 bs.
Definition read_uint64_le (bs : bytes) : Z := read_le 8 bs.
End host.

Definition read_high_word (input : Z) : Z := u16 (Z.land (Z.shiftr input 16) 0xFFFF).
Definition read_low_word (input : Z) : Z := u16 (Z.land input 0xFFFF).
End bithelper.

(** ** Facts about the reference encodings *)

Lemma le_bytes_length n v : length (le_bytes n v) = n.
Proof. revert v; induction n; intros; cbn; auto. Qed.

Lemma be_bytes_length n v : length (be_bytes n v) = n.
Proof. unfold be_bytes. by rewrite length_reverse, le_bytes_length. Qed.

Lemma le_bytes_ok n v : bytes_ok (le_bytes n v).
Proof.
  revert v; induction n; intros; cbn; constructor; auto.
  unfold in_width. change (2 ^ 8) with 256. apply Z.mod_pos_bound. lia.
Qed.

Lemma be_bytes_ok n v : bytes_ok (be_bytes n v).
Proof. unfold be_bytes. apply Forall_reverse, le_bytes_ok. Qed.

#[export] Hint Resolve le_bytes_ok be_bytes_ok : buf.
#[export] Hint Rewrite le_bytes_length be_bytes_length : buf.

Lemma le_val_bytes n v : le_val (le_bytes n v) = v mod 256 ^ Z.of_nat n.
Proof.
  revert v; induction n as [|n IH]; intros v; cbn [le_bytes le_val].
  - by rewrite Z.mod_1_r.
  - rewrite IH, Nat2Z.inj_succ, Z.pow_succ_r by lia.
    rewrite (Z.rem_mul_r v 256 (256 ^ Z.of_nat n)) by lia. lia.
Qed.

Lemma be_val_bytes n v : be_val (be_bytes n v) = v mod 256 ^ Z.of_nat n.
Proof. unfold be_val, be_bytes. by rewrite reverse_involutive, le_val_bytes. Qed.

Lemma le_bytes_val bs : bytes_ok bs → le_bytes (length bs) (le_val bs) = bs.
Proof.
  induction 1 as [|b bs Hb _ IH]; [done|]. cbn [length le_bytes le_val].
  unfold in_width in Hb. change (2 ^ 8) with 256 in Hb.
  replace (b + 256 * le_val bs) with (le_val bs * 256 + b) by lia.
  rewrite Z.add_comm, Z.mod_add, Z.mod_small, Z.add_comm by lia.
  rewrite Z.div_add_l, Z.div_small by lia. by rewrite Z.add_0_r, IH.
Qed.

Lemma be_bytes_val bs : bytes_ok bs → be_bytes (length bs) (be_val bs) = bs.
Proof.
  intros. unfold be_bytes, be_val.
  rewrite <- (length_reverse bs), le_bytes_val by (by apply Forall_reverse).
  apply reverse_involutive.
Qed.

Lemma le_val_bound bs : bytes_ok bs → 0 ≤ le_val bs < 256 ^ Z.of_nat (length bs).
Proof.
  induction 1 as [|b bs Hb _ IH]; cbn [le_val length]; [lia|].
  unfold in_width in Hb. change (2 ^ 8) with 256 in Hb.
  rewrite Nat2Z.inj_succ, Z.pow_succ_r by lia. lia.
Qed.

Lemma be_val_bound bs : bytes_ok bs → 0 ≤ be_val bs < 256 ^ Z.of_nat (length bs).
Proof.
  intros. unfold be_val. rewrite <- (length_reverse bs).
  by apply le_val_bound, Forall_reverse.
Qed.

Lemma pow256 n : 256 ^ Z.of_nat n = 2 ^ (8 * Z.of_nat n).
Proof. change 256 with (2 ^ 8). by rewrite <- Z.pow_mul_r by lia. Qed.

(** ** Host independence *)

Section host_facts.
Import bithelper.
Implicit Types (host : endianess_e).

Lemma get_endianness_host host : get_endianness host = host.
Proof. by destruct host. Qed.

Lemma val_of_mem_of host n v : val_of host (mem_of host n v) = v mod 256 ^ Z.of_nat n.
Proof. destruct host; [apply be_val_bytes|apply le_val_bytes]. Qed.

Lemma mem_of_val_of host bs : bytes_ok bs → mem_of host (length bs) (val_of host bs) = bs.
Proof. destruct host; [apply be_bytes_val|apply le_bytes_val]. Qed.

Lemma mem_of_swap host n v : mem_of host n (swap_endianness host n v) = reverse (mem_of host n v).
Proof.
  unfold swap_endianness.
  assert (length (reverse (mem_of host n v)) = n) as Hl.
  { rewrite length_reverse. destruct host; [apply be_bytes_length|apply le_bytes_length]. }
  rewrite <- Hl at 1. apply mem_of_val_of, Forall_reverse.
  destruct host; [apply be_bytes_ok|apply le_bytes_ok].
Qed.

Lemma write_be_spec host n v : write_be host n v = be_bytes n v.
Proof.
  unfold write_be. rewrite get_endianness_host.
  destruct host; case_decide; try done. by rewrite mem_of_swap.
Qed.

Lemma write_le_spec host n v : write_le host n v = le_bytes n v.
Proof.
  unfold write_le. rewrite get_endianness_host.
  destruct host; case_decide; try done. rewrite mem_of_swap.
  apply reverse_involutive.
Qed.

Lemma read_be_spec host bs : bytes_ok bs → read_be host (length bs) bs = be_val bs.
Proof.
  intros Hb. unfold read_be. rewrite get_endianness_host.
  destruct host; case_decide; try done.
  unfold swap_endianness, mem_of, val_of. by rewrite le_bytes_val by done.
Qed.

Lemma read_le_spec host bs : bytes_ok bs → read_le host (length bs) bs = le_val bs.
Proof.
  intros Hb. unfold read_le. rewrite get_endianness_host.
  destruct host; case_decide; try done.
  unfold swap_endianness, mem_of, val_of. rewrite be_bytes_val by done.
  unfold be_val. by rewrite reverse_involutive.
Qed.
End host_facts.

(** [read_be]/[read_le] on a block of the right size. *)
Lemma read_be_bytes host n v : bithelper.read_be host n (be_bytes n v) = v mod 256 ^ Z.of_nat n.
Proof.
  rewrite <- (be_bytes_length n v) at 1. rewrite read_be_spec by apply be_bytes_ok.
  apply be_val_bytes.
Qed.

Lemma read_be_small host n v :
  in_width (8 * Z.of_nat n) v → bithelper.read_be host n (be_bytes n v) = v.
Proof. intros. rewrite read_be_bytes, pow256. by apply Z.mod_small. Qed.

Lemma read_le_bytes host n v : bithelper.read_le host n (le_bytes n v) = v mod 256 ^ Z.of_nat n.
Proof.
  rewrite <- (le_bytes_length n v) at 1. rewrite read_le_spec by apply le_bytes_ok.
  apply le_val_bytes.
Qed.

(** Byte order is a property of the routines and not of the machines: for
    every pair of hosts, what one writes with a [write_uintN_be] (or [_le])
    routine is the big (little) endian encoding of the value, and the other
    reads it back, reduced to the width of the integer. *)
Theorem bithelper_hosts_agree (h1 h2 : endianess_e) (v : Z) :
  (bithelper.write_uint16_be h1 v = be_bytes 2 v
   ∧ bithelper.write_uint32_be h1 v = be_bytes 4 v
   ∧ bithelper.write_uint64_be h1 v = be_bytes 8 v
   ∧ bithelper.write_uint16_le h1 v = le_bytes 2 v
   ∧ bithelper.write_uint32_le h1 v = le_bytes 4 v
   ∧ bithelper.write_uint64_le h1 v = le_bytes 8 v)
  ∧ (bithelper.read_uint16_be h2 (bithelper.write_uint16_be h1 v) = u16 v
   ∧ bithelper.read_uint32_be h2 (bithelper.write_uint32_be h1 v) = u32 v
   ∧ bithelper.read_uint64_be h2 (bithelper.write_uint64_be h1 v) = u64 v
   ∧ bithelper.read_uint16_le h2 (bithelper.write_uint16_le h1 v) = u16 v
   ∧ bithelper.read_uint32_le h2 (bithelper.write_uint32_le h1 v) = u32 v
   ∧ bithelper.read_uint64_le h2 (bithelper.write_uint64_le h1 v) = u64 v).
Proof.
  unfold bithelper.write_uint16_be, bithelper.write_uint32_be, bithelper.write_uint64_be,
    bithelper.write_uint16_le, bithelper.write_uint32_le, bithelper.write_uint64_le,
    bithelper.read_uint16_be, bithelper.read_uint32_be, bithelper.read_uint64_be,
    bithelper.read_uint16_le, bithelper.read_uint32_le, bithelper.read_uint64_le.
  rewrite !write_be_spec, !write_le_spec.
  repeat split; rewrite ?read_be_bytes, ?read_le_bytes; done.
Qed.
