(* ===== verification/Serialization.v ===== *)
(** * The serializer and the deserializer
    ([message/src/serializer.cpp], [message/src/deserializer.cpp])

    The serializer appends to a vector; the deserializer is a cursor
    ([position_]) into a vector with a separate count of the bytes that may
    still be read ([remaining_]).  Reads below [remaining_] that are beyond the
    vector are undefined, so the deserializer's invariant
    ([deserializer_wf]: [remaining_] is at most what lies behind the cursor) is what
    makes it safe.  [alloc n] says whether the vector can grow to [n] bytes:
    the block appends catch [std::bad_alloc], the element appends do not. *)

From stdpp Require Import base list.
From Stdlib Require Import ZArith Lia.
From S2P Require Import Prelude BitHelper.

(** ** Serializer *)

Module serializer.
Record t : Type := mk {
  data_ : bytes;
  shrink_count_ : Z;
  buffer_shrink_threshold_ : Z
}.

Definition create (threshold : Z) : t := mk [] 0 threshold.

Definition with_data (s : t) (d : bytes) : t :=
  mk d (shrink_count_ s) (buffer_shrink_threshold_ s).

Section ops.
Context (host : endianess_e) (alloc : nat → bool).

(** [data_.push_back(b)] *)
Definition push_back (b : Z) (s : t) : result t :=
  if alloc (S (length (data_ s))) then Ok (with_data s (data_ s ++ [b])) else Exn bad_alloc.

Fixpoint push_all (bs : bytes) (s : t) : result t :=
  match bs with
  | [] => Ok s
  | b :: bs => s ← push_back b s; push_all bs s
  end.

Definition serialize_u8 (v : Z) : bop t := λ s,
  s ← push_back v s; Ok (true, s).

Definition serialize_u16 (v : Z) : bop t := λ s,
  let nvalue := bithelper.write_uint16_le host v in
  b1 ← rd1 nvalue 1; b0 ← rd1 nvalue 0;
  s ← push_back b1 s; s ← push_back b0 s; Ok (true, s).

Definition serialize_u32 (v : Z) (omit_last_byte : bool) : bop t := λ s,
  let nvalue := bithelper.write_uint32_le host v in
  b3 ← rd1 nvalue 3; b2 ← rd1 nvalue 2; b1 ← rd1 nvalue 1; b0 ← rd1 nvalue 0;
  s ← (if negb omit_last_byte then push_back b3 s else Ok s);
  s ← push_back b2 s; s ← push_back b1 s; s ← push_back b0 s; Ok (true, s).

(** [serialize(const uint8_t*, uint32_t)] and [serialize(const vector&)]:
    a failed allocation leaves [data_] as it was and returns false. *)
Definition serialize_bytes (d : bytes) : bop t := λ s,
  if alloc (length (data_ s) + length d)%nat
  then Ok (true, with_data s (data_ s ++ d))
  else Ok (false, s).

Definition get_size (s : t) : Z := u32 (Z.of_nat (length (data_ s))).

Definition set_data (d : bytes) (s : t) : t :=
  if alloc (length d) then with_data s d else with_data s [].

(** [capacity] is what [data_.capacity()] returns. *)
Definition reset (capacity : nat) (s : t) : t :=
  let th := buffer_shrink_threshold_ s in
  let sc :=
    if negb (th =? 0)
    then if decide (length (data_ s) < Nat.div2 capacity)%nat then u32 (shrink_count_ s + 1) else 0
    else shrink_count_ s in
  if negb (th =? 0) && (th <? sc) then mk [] 0 th else mk [] sc th.
End ops.
End serializer.

(** ** Deserializer *)

Module deserializer.
Record t : Type := mk {
  data_ : bytes;
  position_ : nat;
  remaining_ : nat;
  buffer_shrink_threshold_ : Z;
  shrink_count_ : Z
}.

Definition create (threshold : Z) : t := mk [] 0 0 threshold 0.
Definition of_data (d : bytes) (threshold : Z) : t := mk d 0 (length d) threshold 0.

(** The cursor moves [n] bytes on and [n] bytes fewer remain. *)
Definition advance (n : nat) (d : t) : t :=
  mk (data_ d) (position_ d + n) (remaining_ d - n) (buffer_shrink_threshold_ d) (shrink_count_ d).

Definition get_available (d : t) : nat := length (data_ d).
Definition get_remaining (d : t) : nat := remaining_ d.
Definition set_remaining (n : nat) (d : t) : t :=
  mk (data_ d) (position_ d) n (buffer_shrink_threshold_ d) (shrink_count_ d).

Section ops.
Context (host : endianess_e).

(** Each operation returns [None] where the source returns false (the
    referenced variable keeps its value) and [Some v] where it assigns [v]. *)
Definition deserialize_u8 (d : t) : result (option Z * t) :=
  if decide (remaining_ d = 0%nat) then Ok (None, d)
  else v ← rd1 (data_ d) (position_ d); Ok (Some v, advance 1 d).

Definition deserialize_u16 (d : t) : result (option Z * t) :=
  if decide (remaining_ d < 2)%nat then Ok (None, d)
  else
    byte0 ← rd1 (data_ d) (position_ d);
    byte1 ← rd1 (data_ d) (S (position_ d));
    Ok (Some (bithelper.read_uint16_be host [byte0; byte1]), advance 2 d).

Definition deserialize_u32 (omit_last_byte : bool) (d : t) : result (option Z * t) :=
  if decide (remaining_ d < 3 ∨ (omit_last_byte = false ∧ remaining_ d < 4))%nat then Ok (None, d)
  else
    '(byte0, d) ← (if negb omit_last_byte
                   then b ← rd1 (data_ d) (position_ d); Ok (b, advance 1 d)
                   else Ok (0, d));
    byte1 ← rd1 (data_ d) (position_ d);
    byte2 ← rd1 (data_ d) (S (position_ d));
    byte3 ← rd1 (data_ d) (S (S (position_ d)));
    Ok (Some (bithelper.read_uint32_be host [byte0; byte1; byte2; byte3]), advance 3 d).

Definition deserialize_block (len : nat) (d : t) : result (option bytes * t) :=
  if decide (remaining_ d < len)%nat then Ok (None, d)
  else bs ← rd (data_ d) (position_ d) len; Ok (Some bs, advance len d).

(** [capacity] is [_target.capacity()]. *)
Definition deserialize_string (capacity len : nat) (d : t) : result (option bytes * t) :=
  if decide (remaining_ d < len ∨ capacity < len)%nat then Ok (None, d)
  else bs ← rd (data_ d) (position_ d) len; Ok (Some bs, advance len d).

(** The vector is filled up to its [capacity()]. *)
Definition deserialize_vector (capacity : nat) (d : t) : result (option bytes * t) :=
  if decide (remaining_ d < capacity)%nat then Ok (None, d)
  else bs ← rd (data_ d) (position_ d) capacity; Ok (Some bs, advance capacity d).

Definition look_ahead_u8 (index : nat) (d : t) : result (option Z) :=
  if decide (remaining_ d < index)%nat then Ok None
  else v ← rd1 (data_ d) (position_ d + index); Ok (Some v).

Definition look_ahead_u16 (index : nat) (d : t) : result (option Z) :=
  if decide (remaining_ d < index + 1)%nat then Ok None
  else bs ← rd (data_ d) (position_ d + index) 2; Ok (Some (bithelper.read_uint16_be host bs)).

Definition look_ahead_u32 (index : nat) (d : t) : result (option Z) :=
  if decide (remaining_ d < index + 3)%nat then Ok None
  else bs ← rd (data_ d) (position_ d + index) 4; Ok (Some (bithelper.read_uint32_be host bs)).
End ops.

(** [None] is the null pointer. *)
Definition set_data (src : option bytes) (d : t) : t :=
  match src with
  | Some bs => mk bs 0 (length bs) (buffer_shrink_threshold_ d) (shrink_count_ d)
  | None => mk [] 0 0 (buffer_shrink_threshold_ d) (shrink_count_ d)
  end.

Definition append_data (bs : bytes) (d : t) : t :=
  mk (data_ d ++ bs) (position_ d) (remaining_ d + length bs)
     (buffer_shrink_threshold_ d) (shrink_count_ d).

(** The cursor moves; [remaining_] does not. *)
Definition drop_data (len : nat) (d : t) : t :=
  mk (data_ d)
     (if decide (position_ d + len < length (data_ d))%nat
      then position_ d + len else length (data_ d))%nat
     (remaining_ d) (buffer_shrink_threshold_ d) (shrink_count_ d).

Definition reset (capacity : nat) (d : t) : t :=
  let th := buffer_shrink_threshold_ d in
  let sc :=
    if negb (th =? 0)
    then if decide (length (data_ d) < Nat.div2 capacity)%nat then u32 (shrink_count_ d + 1) else 0
    else shrink_count_ d in
  if negb (th =? 0) && (th <? sc) then mk [] 0 0 th 0 else mk [] 0 0 th sc.

(** An object under construction next to the deserializer: a read assigns a
    member of the object. *)
Definition into {T V} (set : V → T → T) (op : t → result (option V * t)) : bop (T * t) :=
  λ '(x, d),
    '(v, d) ← op d;
    match v with
    | Some v => Ok (true, (set v x, d))
    | None => Ok (false, (x, d))
    end.
End deserializer.

(** ** What the serializer appends *)

Section serializer_facts.
Import serializer.
Context (host : endianess_e) (alloc : nat → bool).
Context (Halloc : ∀ n, alloc n = true).

Lemma with_data_data s d : data_ (with_data s d) = d.
Proof. done. Qed.

Lemma push_back_ok b s : push_back alloc b s = Ok (with_data s (data_ s ++ [b])).
Proof. unfold push_back. by rewrite Halloc. Qed.

Lemma serialize_u8_ok v s :
  serialize_u8 alloc v s = Ok (true, with_data s (data_ s ++ [v])).
Proof. unfold serialize_u8. by rewrite push_back_ok. Qed.

Lemma serialize_u16_ok v s :
  serialize_u16 host alloc v s = Ok (true, with_data s (data_ s ++ be_bytes 2 v)).
Proof.
  unfold serialize_u16, bithelper.write_uint16_le. rewrite write_le_spec.
  cbn. rewrite push_back_ok. cbn. rewrite push_back_ok. cbn.
  unfold with_data. cbn. by rewrite <- app_assoc.
Qed.

Lemma serialize_u32_ok v s :
  serialize_u32 host alloc v false s = Ok (true, with_data s (data_ s ++ be_bytes 4 v)).
Proof.
  unfold serialize_u32, bithelper.write_uint32_le. rewrite write_le_spec.
  cbn. do 4 (rewrite push_back_ok; cbn).
  unfold with_data. cbn. by rewrite <- !app_assoc.
Qed.

Lemma serialize_u24_ok v s :
  serialize_u32 host alloc v true s = Ok (true, with_data s (data_ s ++ be_bytes 3 v)).
Proof.
  unfold serialize_u32, bithelper.write_uint32_le. rewrite write_le_spec.
  cbn. do 3 (rewrite push_back_ok; cbn).
  unfold with_data. cbn. by rewrite <- !app_assoc.
Qed.

Lemma serialize_bytes_ok d s :
  serialize_bytes alloc d s = Ok (true, with_data s (data_ s ++ d)).
Proof. unfold serialize_bytes. by rewrite Halloc. Qed.

Lemma with_data_app s d1 d2 :
  with_data (with_data s d1) d2 = with_data s d2.
Proof. done. Qed.
End serializer_facts.

(** Runs a chain of serializer calls: each call appends its encoding. *)
Ltac serializer_step :=
  first [ by apply serialize_u16_ok | by apply serialize_u8_ok | by apply serialize_u32_ok
        | by apply serialize_u24_ok | by apply serialize_bytes_ok ].
Ltac run_serializer :=
  repeat (erewrite bop_and_true; [|serializer_step]);
  first [ etransitivity; [serializer_step|] | idtac ];
  cbn [serializer.data_ serializer.with_data]; rewrite ?with_data_app.

(** ** What the deserializer reads *)

Section deserializer_facts.
Import deserializer.
Context (host : endianess_e).
Implicit Types (d : t) (bs tl : bytes).

(** The bytes that may still be read lie in the buffer. *)
Definition deserializer_wf d : Prop :=
  (position_ d + remaining_ d ≤ length (data_ d))%nat.

(** [reads_at d bs]: exactly the bytes [bs] are left to read.  ([set_remaining]
    may have hidden bytes that lie behind them.) *)
Definition reads_at d bs : Prop :=
  deserializer_wf d ∧ take (remaining_ d) (drop (position_ d) (data_ d)) = bs
  ∧ remaining_ d = length bs.

Lemma reads_at_wf d bs : reads_at d bs → deserializer_wf d.
Proof. by intros [? _]. Qed.

Lemma wf_reads_at d :
  deserializer_wf d → reads_at d (take (remaining_ d) (drop (position_ d) (data_ d))).
Proof.
  unfold reads_at. intros Hd. split_and!; [done|done|]. unfold deserializer_wf in Hd. len.
Qed.

Lemma reads_at_of_data bs th : reads_at (of_data bs th) bs.
Proof.
  unfold reads_at, deserializer_wf, of_data. cbn. split_and!; [lia| |done]. by rewrite take_ge.
Qed.

Lemma reads_at_advance n d bs tl :
  reads_at d (bs ++ tl) → length bs = n → reads_at (advance n d) tl.
Proof.
  intros (Hp & Hd & Hr) <-. unfold reads_at, deserializer_wf, advance in *. cbn.
  rewrite length_app in Hr. repeat split; [lia| |lia].
  rewrite <- drop_drop, Hr.
  replace (length bs + length tl - length bs)%nat with (length tl) by lia.
  rewrite take_drop_commute, <- Hr, Hd. by rewrite drop_app_length.
Qed.

Lemma reads_at_lookup d bs i b :
  reads_at d bs → bs !! i = Some b → data_ d !! (position_ d + i)%nat = Some b.
Proof. intros (_ & <- & Hr) [Hb _]%lookup_take_Some. by rewrite <- lookup_drop. Qed.

Lemma reads_at_rd d bs n :
  reads_at d bs → (n ≤ length bs)%nat → rd (data_ d) (position_ d) n = Ok (take n bs).
Proof.
  intros (Hp & <- & Hr) Hn. unfold deserializer_wf in Hp.
  rewrite rd_ok by lia. rewrite take_take. by rewrite Nat.min_l by lia.
Qed.

Lemma deserialize_u8_ok d b tl :
  reads_at d (b :: tl) → deserialize_u8 d = Ok (Some b, advance 1 d).
Proof.
  intros H. pose proof H as (Hp & Hd & Hr). cbn in Hr.
  unfold deserialize_u8, rd1. rewrite decide_False by lia.
  pose proof (reads_at_lookup d _ 0 _ H eq_refl) as Hb. rewrite Nat.add_0_r in Hb. by rewrite Hb.
Qed.

Lemma deserialize_u16_ok d v tl :
  is_u16 v → reads_at d (be_bytes 2 v ++ tl) →
  deserialize_u16 host d = Ok (Some v, advance 2 d).
Proof.
  intros Hv H. pose proof H as (Hp & Hd & Hr). cbn in Hr.
  unfold deserialize_u16, rd1. rewrite decide_False by lia.
  pose proof (reads_at_lookup d _ 0 _ H eq_refl) as H0. pose proof (reads_at_lookup d _ 1 _ H eq_refl) as H1.
  rewrite Nat.add_0_r in H0. rewrite Nat.add_1_r in H1. rewrite H0, H1. cbn -[Z.pow].
  change ([(v / 256) mod 256; v mod 256]) with (be_bytes 2 v).
  unfold bithelper.read_uint16_be. by rewrite read_be_small.
Qed.

Lemma deserialize_u32_ok d v tl :
  is_u32 v → reads_at d (be_bytes 4 v ++ tl) →
  deserialize_u32 host false d = Ok (Some v, advance 4 d).
Proof.
  intros Hv H. pose proof H as (Hp & Hd & Hr). cbn in Hr.
  unfold deserialize_u32, rd1. rewrite decide_False by (destruct 1 as [|[]]; lia).
  pose proof (reads_at_lookup d _ 0 _ H eq_refl) as H0. pose proof (reads_at_lookup d _ 1 _ H eq_refl) as H1.
  pose proof (reads_at_lookup d _ 2 _ H eq_refl) as H2. pose proof (reads_at_lookup d _ 3 _ H eq_refl) as H3.
  rewrite Nat.add_0_r in H0. cbn -[Z.div Z.modulo Nat.add] in H0, H1, H2, H3.
  cbn [negb]. rewrite H0. cbn -[bithelper.read_uint32_be Z.div Z.modulo].
  replace (S (position_ d + 1)) with (position_ d + 2)%nat by lia.
  replace (S (position_ d + 2)) with (position_ d + 3)%nat by lia.
  rewrite H1, H2, H3. cbn -[bithelper.read_uint32_be Z.div Z.modulo].
  change ([v / 256 / 256 / 256 mod 256; v / 256 / 256 mod 256; v / 256 mod 256; v mod 256])
    with (be_bytes 4 v).
  unfold bithelper.read_uint32_be. rewrite read_be_small by done.
  unfold advance. cbn. do 3 f_equal; lia.
Qed.

Lemma deserialize_u24_ok d v tl :
  in_width 24 v → reads_at d (be_bytes 3 v ++ tl) →
  deserialize_u32 host true d = Ok (Some v, advance 3 d).
Proof.
  intros Hv H. pose proof H as (Hp & Hd & Hr). cbn in Hr.
  unfold deserialize_u32, rd1. rewrite decide_False by (destruct 1 as [|[]]; [lia|done]).
  pose proof (reads_at_lookup d _ 0 _ H eq_refl) as H0. pose proof (reads_at_lookup d _ 1 _ H eq_refl) as H1.
  pose proof (reads_at_lookup d _ 2 _ H eq_refl) as H2.
  rewrite Nat.add_0_r in H0. rewrite Nat.add_1_r in H1. cbn -[Z.div Z.modulo Nat.add] in H0, H1, H2.
  cbn [negb]. cbn -[bithelper.read_uint32_be Z.div Z.modulo].
  replace (S (S (position_ d))) with (position_ d + 2)%nat by lia.
  rewrite H0, H1, H2. cbn -[bithelper.read_uint32_be Z.div Z.modulo].
  unfold in_width in Hv. change (2 ^ 24) with 16777216 in Hv.
  replace 0 with (v / 256 / 256 / 256 mod 256) at 1 by (Z.div_mod_to_equations; lia).
  change ([v / 256 / 256 / 256 mod 256; v / 256 / 256 mod 256; v / 256 mod 256; v mod 256])
    with (be_bytes 4 v).
  unfold bithelper.read_uint32_be. by rewrite read_be_small by word.
Qed.

Lemma deserialize_block_ok d n bs tl :
  reads_at d (bs ++ tl) → length bs = n →
  deserialize_block n d = Ok (Some bs, advance n d).
Proof.
  intros H <-. pose proof H as (Hp & Hd & Hr). rewrite length_app in Hr.
  unfold deserialize_block. rewrite decide_False by lia.
  rewrite (reads_at_rd _ _ _ H) by len. cbn. by rewrite take_app_length.
Qed.

Lemma deserialize_vector_ok d n bs tl :
  reads_at d (bs ++ tl) → length bs = n →
  deserialize_vector n d = Ok (Some bs, advance n d).
Proof.
  intros H <-. pose proof H as (Hp & Hd & Hr). rewrite length_app in Hr.
  unfold deserialize_vector. rewrite decide_False by lia.
  rewrite (reads_at_rd _ _ _ H) by len. cbn. by rewrite take_app_length.
Qed.

Lemma into_some {T V} (set : V → T → T) op x d v d' :
  op d = Ok (Some v, d') → into set op (x, d) = Ok (true, (set v x, d')).
Proof. unfold into. by intros ->. Qed.

Lemma into_none {T V} (set : V → T → T) op x d d' :
  op d = Ok (None, d') → into set op (x, d) = Ok (false, (x, d')).
Proof. unfold into. by intros ->. Qed.
End deserializer_facts.

(** [read_field] runs the first read of a chain when [reads_at] says which
    encoding lies at the cursor; side conditions are the widths of the values. *)
Ltac read_into :=
  match goal with
  | H : reads_at _ (be_bytes 2 _ ++ _) |- _ => eapply into_some, deserialize_u16_ok; [|exact H]
  | H : reads_at _ (be_bytes 4 _ ++ _) |- _ => eapply into_some, deserialize_u32_ok; [|exact H]
  | H : reads_at _ (be_bytes 3 _ ++ _) |- _ => eapply into_some, deserialize_u24_ok; [|exact H]
  | H : reads_at _ (_ :: _) |- _ => eapply into_some, deserialize_u8_ok, H
  end.
Ltac next_field :=
  match goal with
  | H : reads_at _ (be_bytes ?n _ ++ _) |- _ =>
      apply (reads_at_advance n) in H; [|apply be_bytes_length]
  | H : reads_at _ (?v :: ?tl) |- _ => apply (reads_at_advance 1 _ [v] tl) in H; [|reflexivity]
  end.
Ltac read_field :=
  first [ erewrite bop_and_true; [|read_into; eauto with word]
        | etransitivity; [read_into; eauto with word|] ]; next_field.

(** ** Safety of every sequence of deserializer calls *)

Module deserializer_calls.
Import deserializer.

(** The calls a client makes.  ([drop_data], [set_remaining] and the
    [look_ahead]s are treated separately below.) *)
Inductive call : Type :=
| call_u8
| call_u16
| call_u32 (omit_last_byte : bool)
| call_block (len : nat)
| call_string (capacity len : nat)
| call_vector (capacity : nat)
| call_set_data (src : option bytes)
| call_append_data (bs : bytes)
| call_reset (capacity : nat).

Definition exec (host : endianess_e) (c : call) (d : t) : result t :=
  match c with
  | call_u8 => snd <$> deserialize_u8 d
  | call_u16 => snd <$> deserialize_u16 host d
  | call_u32 omit => snd <$> deserialize_u32 host omit d
  | call_block n => snd <$> deserialize_block n d
  | call_string cap n => snd <$> deserialize_string cap n d
  | call_vector cap => snd <$> deserialize_vector cap d
  | call_set_data src => Ok (set_data src d)
  | call_append_data bs => Ok (append_data bs d)
  | call_reset cap => Ok (reset cap d)
  end.

Fixpoint exec_all (host : endianess_e) (cs : list call) (d : t) : result t :=
  match cs with
  | [] => Ok d
  | c :: cs => d ← exec host c d; exec_all host cs d
  end.
End deserializer_calls.

Section deserializer_safety.
Import deserializer deserializer_calls.
Context (host : endianess_e).
Implicit Types (d : t).

Lemma wf_rd1 d i :
  deserializer_wf d → (i < remaining_ d)%nat → ∃ b, rd1 (data_ d) (position_ d + i) = Ok b.
Proof.
  unfold deserializer_wf, rd1. intros Hwf Hi.
  destruct (lookup_lt_is_Some_2 (data_ d) (position_ d + i)) as [b ->]; [lia|eauto].
Qed.

Lemma wf_advance d n : deserializer_wf d → (n ≤ remaining_ d)%nat → deserializer_wf (advance n d).
Proof. unfold deserializer_wf, advance. cbn. lia. Qed.

Lemma wf_block d n :
  deserializer_wf d → (n ≤ remaining_ d)%nat →
  rd (data_ d) (position_ d) n = Ok (take n (drop (position_ d) (data_ d))).
Proof. intros. apply rd_ok. unfold deserializer_wf in *. lia. Qed.

Lemma wf_u8 d : deserializer_wf d → ∃ r, deserialize_u8 d = Ok r ∧ deserializer_wf r.2.
Proof.
  intros Hwf. unfold deserialize_u8. case_decide; [by eauto|].
  destruct (wf_rd1 d 0) as [b Hb]; [done|lia|]. rewrite Nat.add_0_r in Hb. rewrite Hb.
  eexists; split; [done|]. apply wf_advance; [done|lia].
Qed.

Lemma wf_u16 d : deserializer_wf d → ∃ r, deserialize_u16 host d = Ok r ∧ deserializer_wf r.2.
Proof.
  intros Hwf. unfold deserialize_u16. case_decide; [by eauto|].
  destruct (wf_rd1 d 0) as [b Hb]; [done|lia|]. rewrite Nat.add_0_r in Hb. rewrite Hb.
  destruct (wf_rd1 d 1) as [c Hc]; [done|lia|]. rewrite Nat.add_1_r in Hc. rewrite bind_Ok, Hc.
  eexists; split; [done|]. apply wf_advance; [done|lia].
Qed.

Lemma wf_three d :
  deserializer_wf d → (3 ≤ remaining_ d)%nat →
  ∃ a b c, rd1 (data_ d) (position_ d) = Ok a ∧ rd1 (data_ d) (S (position_ d)) = Ok b
    ∧ rd1 (data_ d) (S (S (position_ d))) = Ok c.
Proof.
  intros Hwf H3.
  destruct (wf_rd1 d 0) as [a Ha]; [done|lia|]. destruct (wf_rd1 d 1) as [b Hb]; [done|lia|].
  destruct (wf_rd1 d 2) as [c Hc]; [done|lia|].
  rewrite Nat.add_0_r in Ha. rewrite Nat.add_1_r in Hb.
  replace (position_ d + 2)%nat with (S (S (position_ d))) in Hc by lia. eauto 7.
Qed.

Lemma wf_u32 omit d :
  deserializer_wf d → ∃ r, deserialize_u32 host omit d = Ok r ∧ deserializer_wf r.2.
Proof.
  intros Hwf. unfold deserialize_u32. case_decide as Hg; [by eauto|].
  destruct omit; cbn [negb].
  - rewrite bind_Ok. destruct (wf_three d) as (a & b & c & -> & -> & ->); [done|lia|].
    eexists; split; [done|]. apply wf_advance; [done|lia].
  - destruct (wf_rd1 d 0) as [b0 Hb0]; [done|lia|]. rewrite Nat.add_0_r in Hb0. rewrite Hb0.
    rewrite !bind_Ok.
    assert (4 ≤ remaining_ d)%nat by (destruct (decide (remaining_ d < 4)%nat); [tauto|lia]).
    assert (deserializer_wf (advance 1 d)) by (apply wf_advance; [done|lia]).
    destruct (wf_three (advance 1 d)) as (a & b & c & -> & -> & ->); [done|cbn; lia|].
    eexists; split; [done|]. apply wf_advance; [done|cbn; lia].
Qed.

Lemma wf_vector n d :
  deserializer_wf d → ∃ r, deserialize_vector n d = Ok r ∧ deserializer_wf r.2.
Proof.
  intros Hwf. unfold deserialize_vector. case_decide; [by eauto|].
  rewrite wf_block by (done || lia). eexists; split; [done|]. apply wf_advance; [done|lia].
Qed.

Lemma wf_string cap n d :
  deserializer_wf d → ∃ r, deserialize_string cap n d = Ok r ∧ deserializer_wf r.2.
Proof.
  intros Hwf. unfold deserialize_string. case_decide; [by eauto|].
  rewrite wf_block by (done || lia). eexists; split; [done|]. apply wf_advance; [done|lia].
Qed.

Lemma wf_exec c d : deserializer_wf d → ∃ d', exec host c d = Ok d' ∧ deserializer_wf d'.
Proof.
  intros Hwf. destruct c; cbn [exec].
  - destruct (wf_u8 d Hwf) as (r & -> & ?). by eexists.
  - destruct (wf_u16 d Hwf) as (r & -> & ?). by eexists.
  - destruct (wf_u32 omit_last_byte d Hwf) as (r & -> & ?). by eexists.
  - destruct (wf_vector len d Hwf) as (r & Hr & ?). unfold deserialize_block.
    unfold deserialize_vector in Hr. rewrite Hr. by eexists.
  - destruct (wf_string capacity len d Hwf) as (r & -> & ?). by eexists.
  - destruct (wf_vector capacity d Hwf) as (r & -> & ?). by eexists.
  - eexists; split; [done|]. destruct src; unfold deserializer_wf; cbn; lia.
  - eexists; split; [done|]. unfold deserializer_wf, append_data in *. cbn. len.
  - eexists; split; [done|]. unfold reset, deserializer_wf. by case_match; cbn; lia.
Qed.
End deserializer_safety.

(** A chain of reads is safe when each of its reads is. *)
Section bop_safety.
Import deserializer.

Definition bop_safe {T} (m : bop (T * t)) : Prop :=
  ∀ s, deserializer_wf s.2 → ∃ r, m s = Ok r ∧ deserializer_wf r.2.2.

Lemma bop_safe_and {T} (m1 m2 : bop (T * t)) :
  bop_safe m1 → bop_safe m2 → bop_safe (m1 ;&& m2).
Proof.
  intros H1 H2 s Hs. destruct (H1 s Hs) as ([[] s1] & E & Hs1); cbn in Hs1.
  - rewrite (bop_and_true _ _ _ _ E). by apply H2.
  - rewrite (bop_and_false _ _ _ _ E). eauto.
Qed.

Lemma bop_safe_into {T V} (set : V → T → T) op :
  (∀ d, deserializer_wf d → ∃ r, op d = Ok r ∧ deserializer_wf r.2) → bop_safe (into set op).
Proof.
  intros Hop [x d] Hd. destruct (Hop d Hd) as ([[v|] d'] & E & Hd'); unfold into; rewrite E; cbn;
    eauto.
Qed.
End bop_safety.

#[export] Hint Resolve bop_safe_and bop_safe_into wf_u8 wf_u16 wf_u32 wf_vector wf_string : buf.

(** The deserializer never reads outside its buffer: starting from any
    state whose [remaining_] is at most what lies behind the cursor, every sequence of
    calls (successful or rejected) is defined and ends in such a state. *)
Theorem deserializer_calls_safe (host : endianess_e) (cs : list deserializer_calls.call)
    (d : deserializer.t) (Hwf : deserializer_wf d) :
  ∃ d', deserializer_calls.exec_all host cs d = Ok d' ∧ deserializer_wf d'.
Proof.
  revert d Hwf. induction cs as [|c cs IH]; intros d Hwf; cbn [deserializer_calls.exec_all].
  - eauto.
  - destruct (wf_exec host c d Hwf) as (d1 & -> & Hwf1). rewrite bind_Ok. by apply IH.
Qed.

Lemma deserializer_calls_safe_witness :
  ∃ d', deserializer_calls.exec_all le
          [deserializer_calls.call_u16; deserializer_calls.call_u32 true;
           deserializer_calls.call_vector 9] (deserializer.of_data [1; 2; 3; 4; 5; 6] 0) = Ok d'
        ∧ deserializer_wf d'.
Proof.
  apply (deserializer_calls_safe le _ (deserializer.of_data [1; 2; 3; 4; 5; 6] 0)).
  unfold deserializer_wf; cbn; lia.
Defined.

(** The three [look_ahead] guards admit one index (three for 32 bits) too
    many: on a deserializer that may read to the end of its buffer the call is
    undefined exactly when the value would end behind the last byte although
    the guard passed. *)
Theorem look_ahead_bounds (host : endianess_e) (d : deserializer.t) (index : nat)
    (Hwf : (deserializer.position_ d + deserializer.remaining_ d)%nat
           = length (deserializer.data_ d)) :
  (deserializer.look_ahead_u8 index d = Ub oob_read ↔ index = deserializer.remaining_ d)
  ∧ (deserializer.look_ahead_u16 host index d = Ub oob_read
     ↔ (index + 1)%nat = deserializer.remaining_ d)
  ∧ (deserializer.look_ahead_u32 host index d = Ub oob_read
     ↔ (index + 3)%nat = deserializer.remaining_ d).
Proof.
  unfold deserializer.look_ahead_u8, deserializer.look_ahead_u16, deserializer.look_ahead_u32, rd, rd1.
  repeat split; intros H; repeat case_decide; try done; try lia.
  - destruct (_ !! _) eqn:E; [done|]. apply lookup_ge_None in E. lia.
  - destruct (_ !! _) eqn:E; [|done]. apply lookup_lt_Some in E. lia.
Qed.

Lemma look_ahead_bounds_witness :
  deserializer.look_ahead_u8 3 (deserializer.of_data [1; 2; 3] 0) = Ub oob_read.
Proof.
  apply (look_ahead_bounds le (deserializer.of_data [1; 2; 3] 0) 3); reflexivity.
Defined.
