(* ===== verification/Message.v ===== *)
(** * SOME/IP messages
    ([message/src/message_header_impl.cpp], [message_base_impl.cpp],
    [message_impl.cpp], [payload_impl.cpp], [runtime/src/runtime_impl.cpp])

    A message is a header, a payload and local attributes that are not
    transmitted.  The enumerations [message_type_e] and [return_code_e] have an
    8 bit underlying type and are cast from received bytes, so a header holds
    any 8 bit value; the named values are constants.  The payload vector
    carries its [capacity()], which [deserialize] uses as the number of bytes to
    read; [reserve n] is the capacity that [std::vector::reserve(n)] gives an
    empty vector (at least [n] by the standard, exactly [n] in libstdc++). *)

From stdpp Require Import base list.
From Stdlib Require Import ZArith Lia.
From S2P Require Import Prelude BitHelper Serialization.

(** ** Constants ([vsomeip/defines.hpp], [vsomeip/enumeration_types.hpp]) *)

Definition VSOMEIP_PROTOCOL_VERSION : Z := 1.
Definition VSOMEIP_MAX_UDP_MESSAGE_SIZE : nat := 1416.
Definition VSOMEIP_SOMEIP_HEADER_SIZE : nat := 8.
Definition VSOMEIP_FULL_HEADER_SIZE : nat := 16.
Definition VSOMEIP_SERVICE_POS_MIN : nat := 0.
Definition VSOMEIP_METHOD_POS_MIN : nat := 2.
Definition VSOMEIP_LENGTH_POS_MIN : nat := 4.
Definition VSOMEIP_CLIENT_POS_MIN : nat := 8.
Definition VSOMEIP_SESSION_POS_MIN : nat := 10.
Definition VSOMEIP_PROTOCOL_VERSION_POS : nat := 12.
Definition VSOMEIP_INTERFACE_VERSION_POS : nat := 13.
Definition VSOMEIP_MESSAGE_TYPE_POS : nat := 14.
Definition VSOMEIP_RETURN_CODE_POS : nat := 15.

Module message_type_e.
Definition MT_REQUEST : Z := 0x00.
Definition MT_REQUEST_NO_RETURN : Z := 0x01.
Definition MT_NOTIFICATION : Z := 0x02.
Definition MT_RESPONSE : Z := 0x80.
Definition MT_ERROR : Z := 0x81.
Definition MT_UNKNOWN : Z := 0xFF.
End message_type_e.

Module return_code_e.
Definition E_OK : Z := 0x00.
Definition E_NOT_OK : Z := 0x01.
Definition E_MALFORMED_MESSAGE : Z := 0x09.
Definition E_UNKNOWN : Z := 0xFF.
End return_code_e.

Definition DEFAULT_MAJOR : Z := 0.

(** ** The header *)

Module message_header_impl.
Record t : Type := mk {
  service_ : Z;
  method_ : Z;
  length_ : Z;
  client_ : Z;
  session_ : Z;
  protocol_version_ : Z;
  interface_version_ : Z;
  type_ : Z;
  code_ : Z;
  instance_ : Z
}.

Definition create : t :=
  mk 0 0 0 0 0 1 0 message_type_e.MT_UNKNOWN return_code_e.E_UNKNOWN 0.

Definition set_service v h := mk v (method_ h) (length_ h) (client_ h) (session_ h)
  (protocol_version_ h) (interface_version_ h) (type_ h) (code_ h) (instance_ h).
Definition set_method v h := mk (service_ h) v (length_ h) (client_ h) (session_ h)
  (protocol_version_ h) (interface_version_ h) (type_ h) (code_ h) (instance_ h).
Definition set_length v h := mk (service_ h) (method_ h) v (client_ h) (session_ h)
  (protocol_version_ h) (interface_version_ h) (type_ h) (code_ h) (instance_ h).
Definition set_client v h := mk (service_ h) (method_ h) (length_ h) v (session_ h)
  (protocol_version_ h) (interface_version_ h) (type_ h) (code_ h) (instance_ h).
Definition set_session v h := mk (service_ h) (method_ h) (length_ h) (client_ h) v
  (protocol_version_ h) (interface_version_ h) (type_ h) (code_ h) (instance_ h).
Definition set_protocol_version v h := mk (service_ h) (method_ h) (length_ h) (client_ h)
  (session_ h) v (interface_version_ h) (type_ h) (code_ h) (instance_ h).
Definition set_interface_version v h := mk (service_ h) (method_ h) (length_ h) (client_ h)
  (session_ h) (protocol_version_ h) v (type_ h) (code_ h) (instance_ h).
Definition set_type v h := mk (service_ h) (method_ h) (length_ h) (client_ h)
  (session_ h) (protocol_version_ h) (interface_version_ h) v (code_ h) (instance_ h).
Definition set_code v h := mk (service_ h) (method_ h) (length_ h) (client_ h)
  (session_ h) (protocol_version_ h) (interface_version_ h) (type_ h) v (instance_ h).
Definition set_instance v h := mk (service_ h) (method_ h) (length_ h) (client_ h)
  (session_ h) (protocol_version_ h) (interface_version_ h) (type_ h) (code_ h) v.

Section ops.
Context (host : endianess_e) (alloc : nat → bool).

(** [owner_length] is [owner_->get_length()]. *)
Definition serialize (owner_length : Z) (h : t) : bop serializer.t :=
  serializer.serialize_u16 host alloc (service_ h)
  ;&& serializer.serialize_u16 host alloc (method_ h)
  ;&& serializer.serialize_u32 host alloc owner_length false
  ;&& serializer.serialize_u16 host alloc (client_ h)
  ;&& serializer.serialize_u16 host alloc (session_ h)
  ;&& serializer.serialize_u8 alloc (protocol_version_ h)
  ;&& serializer.serialize_u8 alloc (interface_version_ h)
  ;&& serializer.serialize_u8 alloc (type_ h)
  ;&& serializer.serialize_u8 alloc (code_ h).

(** The two local variables [tmp_message_type] and [tmp_return_code] are the
    second component of the object that is read into. *)
Definition read_fields : bop ((t * (Z * Z)) * deserializer.t) :=
  let field set op := deserializer.into (λ v '(h, tmp), (set v h, tmp)) op in
  let u16_ := deserializer.deserialize_u16 host in
  let u8_ := deserializer.deserialize_u8 in
  field set_service u16_
  ;&& field set_method u16_
  ;&& field set_length (deserializer.deserialize_u32 host false)
  ;&& field set_client u16_
  ;&& field set_session u16_
  ;&& field set_protocol_version u8_
  ;&& field set_interface_version u8_
  ;&& deserializer.into (λ v '(h, tmp), (h, (v, tmp.2))) u8_
  ;&& deserializer.into (λ v '(h, tmp), (h, (tmp.1, v))) u8_.

Definition deserialize : bop (t * deserializer.t) := λ '(h, d),
  '(is_successful, ((h, (tmp_message_type, tmp_return_code)), d)) ← read_fields ((h, (0, 0)), d);
  if (is_successful : bool)
  then Ok (true, (set_code tmp_return_code (set_type tmp_message_type h), d))
  else Ok (false, (h, d)).
End ops.
End message_header_impl.

(** ** The payload *)

Module payload_impl.
Record t : Type := mk { data_ : bytes; capacity : nat }.

Definition create : t := mk [] 0.
Definition get_length (p : t) : Z := u32 (Z.of_nat (length (data_ p))).

(** [operator==] : the lengths and then the bytes. *)
Definition eqb (p q : t) : bool :=
  (get_length p =? get_length q)
  && bool_decide (take (Z.to_nat (get_length p)) (data_ p)
                  = take (Z.to_nat (get_length p)) (data_ q)).

Definition set_data (bs : bytes) (p : t) : t := mk bs (length bs `max` capacity p).

Section ops.
Context (alloc : nat → bool) (reserve : nat → nat).

Definition set_capacity (n : Z) (p : t) : result t :=
  let n := Z.to_nat n in
  if decide (n ≤ capacity p)%nat then Ok p
  else if alloc n then Ok (mk (data_ p) (reserve n)) else Exn bad_alloc.

Definition serialize (p : t) : bop serializer.t := serializer.serialize_bytes alloc (data_ p).

Definition deserialize : bop (t * deserializer.t) := λ '(p, d),
  deserializer.into (λ bs q, mk bs (capacity q))
    (deserializer.deserialize_vector (capacity p)) (p, d).
End ops.
End payload_impl.

(** ** The message *)

Module message_impl.
Record t : Type := mk {
  header_ : message_header_impl.t;
  is_reliable_ : bool;
  is_initial_ : bool;
  payload_ : option payload_impl.t;
  check_result_ : Z
}.

Definition create : t :=
  mk message_header_impl.create false false (Some payload_impl.create) 0.

Definition get_length (m : t) : Z :=
  u32 (Z.of_nat VSOMEIP_SOMEIP_HEADER_SIZE
       + match payload_ m with Some p => payload_impl.get_length p | None => 0 end).

Definition on_header (f : message_header_impl.t → message_header_impl.t) (m : t) : t :=
  mk (f (header_ m)) (is_reliable_ m) (is_initial_ m) (payload_ m) (check_result_ m).
Definition set_reliable b (m : t) : t :=
  mk (header_ m) b (is_initial_ m) (payload_ m) (check_result_ m).
Definition set_initial b (m : t) : t :=
  mk (header_ m) (is_reliable_ m) b (payload_ m) (check_result_ m).
Definition set_payload p (m : t) : t :=
  mk (header_ m) (is_reliable_ m) (is_initial_ m) p (check_result_ m).
Definition set_check_result r (m : t) : t :=
  mk (header_ m) (is_reliable_ m) (is_initial_ m) (payload_ m) r.
Definition is_valid_crc (m : t) : bool := check_result_ m =? 0.

Section ids.
Context (host : endianess_e).

Definition get_message (m : t) : Z :=
  let h := header_ m in
  bithelper.read_uint32_be host
    [ u8 (Z.shiftr (Z.land (message_header_impl.service_ h) 0xFF00) 8);
      u8 (Z.land (message_header_impl.service_ h) 0x00FF);
      u8 (Z.shiftr (Z.land (message_header_impl.method_ h) 0xFF00) 8);
      u8 (Z.land (message_header_impl.method_ h) 0x00FF) ].

Definition set_message (v : Z) : t → t :=
  on_header (λ h, message_header_impl.set_method (bithelper.read_low_word v)
                    (message_header_impl.set_service (bithelper.read_high_word v) h)).

Definition get_request (m : t) : Z :=
  let h := header_ m in
  bithelper.read_uint32_be host
    [ u8 (Z.shiftr (Z.land (message_header_impl.client_ h) 0xFF00) 8);
      u8 (Z.land (message_header_impl.client_ h) 0x00FF);
      u8 (Z.shiftr (Z.land (message_header_impl.session_ h) 0xFF00) 8);
      u8 (Z.land (message_header_impl.session_ h) 0x00FF) ].
End ids.

Section ops.
Context (host : endianess_e) (alloc : nat → bool) (reserve : nat → nat).

Definition serialize (m : t) : bop serializer.t :=
  message_header_impl.serialize host alloc (get_length m) (header_ m)
  ;&& match payload_ m with
      | Some p => payload_impl.serialize alloc p
      | None => bop_ret true
      end.

Definition deserialize : bop (t * deserializer.t) := λ '(m, d),
  let m := set_payload (Some payload_impl.create) m in
  '(ok, (h, d)) ← message_header_impl.deserialize host (header_ m, d);
  let m := on_header (λ _, h) m in
  if (ok : bool) then
    p ← payload_impl.set_capacity alloc reserve
          (u32 (message_header_impl.length_ h - Z.of_nat VSOMEIP_SOMEIP_HEADER_SIZE))
          payload_impl.create;
    '(ok, (p, d)) ← payload_impl.deserialize (p, d);
    Ok (ok, (set_payload (Some p) m, d))
  else Ok (false, (m, d)).

(** [deserializer::deserialize_message]: a null pointer ([None]) when the
    message is rejected or an exception is caught. *)
Definition deserialize_message (d : deserializer.t) : result (option t) :=
  match deserialize (create, d) with
  | Ok (true, (m, _)) => Ok (Some m)
  | Ok (false, _) => Ok None
  | Exn _ => Ok None
  | Abort => Abort
  | Ub u => Ub u
  end.
End ops.
End message_impl.

(** ** Message factories of the runtime *)

Module runtime_impl.
Import message_impl.

Definition create_message (reliable : bool) : t :=
  on_header (message_header_impl.set_interface_version DEFAULT_MAJOR)
   (set_reliable reliable
    (on_header (message_header_impl.set_code return_code_e.E_OK)
     (on_header (message_header_impl.set_protocol_version VSOMEIP_PROTOCOL_VERSION) create))).

Definition create_request (reliable : bool) : t :=
  on_header (message_header_impl.set_interface_version DEFAULT_MAJOR)
   (set_reliable reliable
    (on_header (message_header_impl.set_code return_code_e.E_OK)
     (on_header (message_header_impl.set_type message_type_e.MT_REQUEST)
      (on_header (message_header_impl.set_protocol_version VSOMEIP_PROTOCOL_VERSION) create)))).

Definition create_response (request : t) : t :=
  let r := header_ request in
  set_reliable (is_reliable_ request)
   (on_header (λ h,
      message_header_impl.set_code return_code_e.E_OK
      (message_header_impl.set_type message_type_e.MT_RESPONSE
      (message_header_impl.set_interface_version (message_header_impl.interface_version_ r)
      (message_header_impl.set_session (message_header_impl.session_ r)
      (message_header_impl.set_client (message_header_impl.client_ r)
      (message_header_impl.set_method (message_header_impl.method_ r)
      (message_header_impl.set_instance (message_header_impl.instance_ r)
      (message_header_impl.set_service (message_header_impl.service_ r) h)))))))) create).

Definition create_notification (reliable : bool) : t :=
  on_header (message_header_impl.set_interface_version DEFAULT_MAJOR)
   (set_reliable reliable
    (on_header (message_header_impl.set_code return_code_e.E_OK)
     (on_header (message_header_impl.set_type message_type_e.MT_NOTIFICATION)
      (on_header (message_header_impl.set_protocol_version VSOMEIP_PROTOCOL_VERSION) create)))).
End runtime_impl.

(** ** The wire format and what a receiver reconstructs *)

Definition header_bytes (len : Z) (h : message_header_impl.t) : bytes :=
  be_bytes 2 (message_header_impl.service_ h) ++ be_bytes 2 (message_header_impl.method_ h)
  ++ be_bytes 4 len
  ++ be_bytes 2 (message_header_impl.client_ h) ++ be_bytes 2 (message_header_impl.session_ h)
  ++ [message_header_impl.protocol_version_ h; message_header_impl.interface_version_ h;
      message_header_impl.type_ h; message_header_impl.code_ h].

Definition payload_bytes (m : message_impl.t) : bytes :=
  match message_impl.payload_ m with Some p => payload_impl.data_ p | None => [] end.

Definition message_bytes (m : message_impl.t) : bytes :=
  header_bytes (message_impl.get_length m) (message_impl.header_ m) ++ payload_bytes m.

Record header_wf (h : message_header_impl.t) : Prop := {
  wf_service : is_u16 (message_header_impl.service_ h);
  wf_method : is_u16 (message_header_impl.method_ h);
  wf_client : is_u16 (message_header_impl.client_ h);
  wf_session : is_u16 (message_header_impl.session_ h)
}.

(** The payload is below 4 GiB, so that the length field does not wrap. *)
Definition message_wf (m : message_impl.t) : Prop :=
  header_wf (message_impl.header_ m)
  ∧ Z.of_nat (length (payload_bytes m)) + 8 < 2 ^ 32.

(** The message a receiver builds: the transmitted fields, the computed
    length, and the local attributes of a fresh object. *)
Definition received (m : message_impl.t) : message_impl.t :=
  let h := message_impl.header_ m in
  message_impl.mk
    (message_header_impl.mk (message_header_impl.service_ h) (message_header_impl.method_ h)
       (message_impl.get_length m) (message_header_impl.client_ h) (message_header_impl.session_ h)
       (message_header_impl.protocol_version_ h) (message_header_impl.interface_version_ h)
       (message_header_impl.type_ h) (message_header_impl.code_ h) 0)
    false false
    (Some (payload_impl.mk (payload_bytes m) (length (payload_bytes m)))) 0.

Lemma header_bytes_length len h : length (header_bytes len h) = 16%nat.
Proof. unfold header_bytes. by rewrite !length_app, !be_bytes_length. Qed.

Lemma get_length_wf m :
  message_wf m →
  message_impl.get_length m = 8 + Z.of_nat (length (payload_bytes m)).
Proof.
  intros [_ Hl]. unfold message_impl.get_length, payload_impl.get_length, payload_bytes in *.
  change (Z.of_nat VSOMEIP_SOMEIP_HEADER_SIZE) with 8.
  destruct (message_impl.payload_ m); cbn [length] in *; word.
Qed.

Section serialize_facts.
Context (host : endianess_e) (alloc : nat → bool) (Halloc : ∀ n, alloc n = true).

Lemma header_serialize_ok len h s :
  message_header_impl.serialize host alloc len h s
  = Ok (true, serializer.with_data s (serializer.data_ s ++ header_bytes len h)).
Proof.
  unfold message_header_impl.serialize, header_bytes. run_serializer.
  by rewrite <- !app_assoc.
Qed.

Lemma message_serialize_ok m s :
  message_impl.serialize host alloc m s
  = Ok (true, serializer.with_data s (serializer.data_ s ++ message_bytes m)).
Proof.
  unfold message_impl.serialize, message_bytes, payload_bytes.
  rewrite bop_and_true with (s1 := serializer.with_data s
    (serializer.data_ s ++ header_bytes (message_impl.get_length m) (message_impl.header_ m)))
    by apply header_serialize_ok.
  destruct (message_impl.payload_ m) as [p|].
  - unfold payload_impl.serialize. rewrite serialize_bytes_ok by done.
    cbn. by rewrite <- app_assoc.
  - unfold bop_ret. by rewrite app_nil_r.
Qed.
End serialize_facts.

Section deserialize_facts.
Import deserializer.
Context (host : endianess_e) (alloc : nat → bool) (reserve : nat → nat).

Lemma header_deserialize_ok h0 len h d tl :
  header_wf h → is_u32 len → reads_at d (header_bytes len h ++ tl) →
  ∃ d', message_header_impl.deserialize host (h0, d)
    = Ok (true, (message_header_impl.mk (message_header_impl.service_ h)
        (message_header_impl.method_ h) len (message_header_impl.client_ h)
        (message_header_impl.session_ h) (message_header_impl.protocol_version_ h)
        (message_header_impl.interface_version_ h) (message_header_impl.type_ h)
        (message_header_impl.code_ h) (message_header_impl.instance_ h0), d'))
    ∧ reads_at d' tl.
Proof.
  intros [] Hlen H. unfold header_bytes in H. rewrite <- !app_assoc in H.
  cbn [app] in H. set (d' := advance 1 (advance 1 (advance 1 (advance 1 (advance 2 (advance 2
    (advance 4 (advance 2 (advance 2 d))))))))). exists d'.
  assert (message_header_impl.read_fields host ((h0, (0, 0)), d) =
    Ok (true, (message_header_impl.mk (message_header_impl.service_ h)
        (message_header_impl.method_ h) len (message_header_impl.client_ h)
        (message_header_impl.session_ h) (message_header_impl.protocol_version_ h)
        (message_header_impl.interface_version_ h) (message_header_impl.type_ h0)
        (message_header_impl.code_ h0) (message_header_impl.instance_ h0),
        (message_header_impl.type_ h, message_header_impl.code_ h), d'))
    ∧ reads_at d' tl) as [E ?].
  { unfold message_header_impl.read_fields. cbn zeta.
    do 8 read_field.
    split; [|by apply (reads_at_advance 1 _ [message_header_impl.code_ h])].
    etransitivity; [read_into|]. done. }
  split; [|done]. unfold message_header_impl.deserialize. by rewrite E.
Qed.

(** The payload part: as many bytes as the header announces, if they are there. *)
Lemma payload_deserialize_ok (Halloc : ∀ n, alloc n = true) (Hreserve : ∀ n, reserve n = n)
    (n : nat) d bs :
  reads_at d bs →
  ∃ p, payload_impl.set_capacity alloc reserve (Z.of_nat n) payload_impl.create = Ok p
  ∧ payload_impl.capacity p = n
  ∧ (n ≤ length bs →
     payload_impl.deserialize (p, d) = Ok (true, (payload_impl.mk (take n bs) n, advance n d)))%nat
  ∧ (length bs < n → payload_impl.deserialize (p, d) = Ok (false, (p, d)))%nat.
Proof.
  intros H. exists (payload_impl.mk [] n). unfold payload_impl.set_capacity.
  rewrite Nat2Z.id. cbn [payload_impl.capacity payload_impl.create payload_impl.data_].
  split; [|split; [done|]].
  { case_decide; [|by rewrite Halloc, Hreserve]. by replace n with 0%nat by lia. }
  split; intros Hn; unfold payload_impl.deserialize; cbn [payload_impl.capacity].
  - rewrite (into_some _ _ _ _ (take n bs) (advance n d)); [done|].
    eapply deserialize_vector_ok; [|by len]. by erewrite take_drop.
  - eapply into_none. unfold deserialize_vector. destruct H as (_ & _ & Hr).
    by rewrite decide_True by lia.
Qed.

Lemma message_deserialize_ok (Halloc : ∀ n, alloc n = true) (Hreserve : ∀ n, reserve n = n)
    m d tl :
  message_wf m → reads_at d (message_bytes m ++ tl) →
  message_impl.deserialize_message host alloc reserve d = Ok (Some (received m)).
Proof.
  intros Hwf H. pose proof (get_length_wf m Hwf) as Hlen. destruct Hwf as [Hh Hl].
  unfold message_bytes in H. rewrite <- app_assoc in H.
  eapply (header_deserialize_ok message_header_impl.create) in H as (d' & E & H);
    [|done|rewrite Hlen; word].
  unfold message_impl.deserialize_message, message_impl.deserialize.
  cbn [message_impl.header_ message_impl.set_payload message_impl.create].
  rewrite E, bind_Ok. cbn [message_header_impl.length_].
  rewrite Hlen. change (Z.of_nat VSOMEIP_SOMEIP_HEADER_SIZE) with 8.
  replace (u32 (8 + Z.of_nat (length (payload_bytes m)) - 8))
    with (Z.of_nat (length (payload_bytes m))) by word.
  destruct (payload_deserialize_ok Halloc Hreserve (length (payload_bytes m)) _ _ H)
    as (p & -> & _ & Hok & _).
  rewrite bind_Ok, Hok by len. rewrite bind_Ok, take_app_length. unfold received.
  by rewrite Hlen.
Qed.

(** Reading never gives back bytes. *)
Lemma into_remaining {T V} (set : V → T → T) op (k : nat) s s' :
  (∀ d v d', op d = Ok (Some v, d') → (remaining_ d = remaining_ d' + k)%nat) →
  into set op s = Ok (true, s') → (remaining_ s.2 = remaining_ s'.2 + k)%nat.
Proof.
  intros Hop. destruct s as [x d]. unfold into. intros ([[v|] d'] & Hd & E)%bind_Ok_inv; [|done].
  injection E as <-. cbn. eauto.
Qed.

Lemma u8_remaining d v d' :
  deserialize_u8 d = Ok (Some v, d') → (remaining_ d = remaining_ d' + 1)%nat.
Proof. unfold deserialize_u8. case_decide; intros; res_inv; simplify_eq. cbn. lia. Qed.

Lemma u16_remaining d v d' :
  deserialize_u16 host d = Ok (Some v, d') → (remaining_ d = remaining_ d' + 2)%nat.
Proof. unfold deserialize_u16. case_decide; intros; res_inv; simplify_eq. cbn. lia. Qed.

Lemma u32_remaining d v d' :
  deserialize_u32 host false d = Ok (Some v, d') → (remaining_ d = remaining_ d' + 4)%nat.
Proof.
  unfold deserialize_u32. case_decide as Hg; intros; [done|]. cbn [negb] in *.
  assert (4 ≤ remaining_ d)%nat by (destruct (decide (remaining_ d < 4)%nat); [tauto|lia]).
  repeat (res_inv; case_match); res_inv; simplify_eq. cbn. lia.
Qed.
End deserialize_facts.

Section deserialize_safety.
Import deserializer.
Context (host : endianess_e) (alloc : nat → bool) (reserve : nat → nat).

Lemma read_fields_safe : bop_safe (message_header_impl.read_fields host).
Proof. unfold message_header_impl.read_fields. cbn zeta. auto 20 with buf. Qed.

Lemma header_deserialize_safe : bop_safe (message_header_impl.deserialize host).
Proof.
  intros [h d] Hd. destruct (read_fields_safe ((h, (0, 0)), d) Hd) as ([b [[h' [ty co]] d']] & E & Hd').
  unfold message_header_impl.deserialize. rewrite E, bind_Ok. destruct b; cbn in *; eauto.
Qed.

Lemma payload_deserialize_safe : bop_safe payload_impl.deserialize.
Proof. intros [p d] Hd. unfold payload_impl.deserialize. by apply bop_safe_into; eauto with buf. Qed.

Lemma set_capacity_cases n p :
  (∃ q, payload_impl.set_capacity alloc reserve n p = Ok q)
  ∨ payload_impl.set_capacity alloc reserve n p = Exn bad_alloc.
Proof. unfold payload_impl.set_capacity. repeat case_match; eauto. Qed.

Lemma deserialize_message_total d :
  deserializer_wf d → ∃ o, message_impl.deserialize_message host alloc reserve d = Ok o.
Proof.
  intros Hd. unfold message_impl.deserialize_message, message_impl.deserialize.
  cbn [message_impl.header_ message_impl.set_payload message_impl.create].
  destruct (header_deserialize_safe (message_header_impl.create, d) Hd) as ([b [h d1]] & -> & Hd1).
  rewrite bind_Ok. destruct b; [|by eexists].
  edestruct set_capacity_cases as [[q ->]| ->]; [|by eexists]. rewrite bind_Ok.
  destruct (payload_deserialize_safe (q, d1) Hd1) as ([b [p d2]] & -> & _).
  destruct b; by eexists.
Qed.

(** An accepted header took 16 bytes. *)
Lemma read_fields_remaining s s' :
  message_header_impl.read_fields host s = Ok (true, s') →
  (remaining_ s.2 = remaining_ s'.2 + 16)%nat.
Proof.
  unfold message_header_impl.read_fields. cbn zeta. intros H.
  repeat match goal with
  | H : (_ ;&& _) _ = Ok (true, _) |- _ => apply bop_and_inv_true in H as (? & ? & H)
  end.
  repeat match goal with
  | H : into _ (deserialize_u16 _) _ = Ok (true, _) |- _ =>
      apply (into_remaining _ _ 2) in H; [|apply u16_remaining]
  | H : into _ (deserialize_u32 _ _) _ = Ok (true, _) |- _ =>
      apply (into_remaining _ _ 4) in H; [|apply u32_remaining]
  | H : into _ deserialize_u8 _ = Ok (true, _) |- _ =>
      apply (into_remaining _ _ 1) in H; [|apply u8_remaining]
  end. lia.
Qed.

Lemma header_deserialize_short h d :
  deserializer_wf d → (remaining_ d < 16)%nat →
  ∃ s, message_header_impl.deserialize host (h, d) = Ok (false, s).
Proof.
  intros Hd Hr.
  destruct (read_fields_safe ((h, (0, 0)), d) Hd) as ([b [[h' [ty co]] d']] & E & Hd').
  unfold message_header_impl.deserialize. rewrite E, bind_Ok.
  destruct b; [|by eexists]. apply read_fields_remaining in E. cbn in E. lia.
Qed.

Lemma message_truncated (Halloc : ∀ n, alloc n = true) (Hreserve : ∀ n, reserve n = n)
    m n th :
  message_wf m → (n < length (message_bytes m))%nat →
  message_impl.deserialize_message host alloc reserve (of_data (take n (message_bytes m)) th)
  = Ok None.
Proof.
  intros Hwf Hn. pose proof (get_length_wf m Hwf) as Hlen. destruct Hwf as [Hh Hl].
  unfold message_bytes in *. rewrite length_app, header_bytes_length in Hn.
  set (d := of_data _ th).
  assert (reads_at d (take n (header_bytes (message_impl.get_length m) (message_impl.header_ m)
    ++ payload_bytes m))) as H by apply reads_at_of_data.
  unfold message_impl.deserialize_message, message_impl.deserialize.
  cbn [message_impl.header_ message_impl.set_payload message_impl.create].
  destruct (decide (n < 16)%nat) as [Hs|Hs].
  - destruct (header_deserialize_short message_header_impl.create d) as [[h' d'] ->];
      [by eapply reads_at_wf| |done].
    destruct H as (_ & _ & ->). rewrite length_take. lia.
  - rewrite take_app_ge in H by (rewrite header_bytes_length; lia).
    rewrite header_bytes_length in H.
    eapply (header_deserialize_ok host message_header_impl.create) in H as (d' & E & H);
      [|done|rewrite Hlen; word].
    rewrite E, bind_Ok. cbn [message_header_impl.length_].
    rewrite Hlen. change (Z.of_nat VSOMEIP_SOMEIP_HEADER_SIZE) with 8.
    replace (u32 (8 + Z.of_nat (length (payload_bytes m)) - 8))
      with (Z.of_nat (length (payload_bytes m))) by word.
    destruct (payload_deserialize_ok alloc reserve Halloc Hreserve
      (length (payload_bytes m)) _ _ H) as (p & -> & _ & _ & Hbad).
    rewrite bind_Ok, Hbad by len. done.
Qed.
End deserialize_safety.

(** (C28) Round trip: what [message_impl::serialize] writes (header with the
    computed length, then the payload), [deserialize_message] reads back, also
    on a host of the other byte order and with bytes of the next message
    behind it: all transmitted fields and the payload are those of the sender. *)
Theorem message_roundtrip (h1 h2 : endianess_e) (alloc : nat → bool) (reserve : nat → nat)
    (Halloc : ∀ n, alloc n = true) (Hreserve : ∀ n, reserve n = n)
    (m : message_impl.t) (Hwf : message_wf m) (th : Z) (tl : bytes) :
  ∃ s, message_impl.serialize h1 alloc m (serializer.create th) = Ok (true, s)
  ∧ message_impl.deserialize_message h2 alloc reserve
      (deserializer.of_data (serializer.data_ s ++ tl) th) = Ok (Some (received m)).
Proof.
  eexists. split; [by apply message_serialize_ok|]. cbn.
  eapply message_deserialize_ok; [done..|]. apply reads_at_of_data.
Qed.

Definition example_message : message_impl.t :=
  message_impl.set_payload (Some (payload_impl.mk [0xCA; 0xFE; 0x01] 3))
    (message_impl.on_header (λ h, message_header_impl.set_session 0x0102
      (message_header_impl.set_service 0x1234 h)) (runtime_impl.create_request true)).

Lemma example_message_wf : message_wf example_message.
Proof. repeat split; vm_compute; intuition congruence. Qed.

Lemma message_roundtrip_witness :
  ∃ s, message_impl.serialize be (λ _, true) example_message (serializer.create 0) = Ok (true, s)
  ∧ message_impl.deserialize_message le (λ _, true) (λ n, n)
      (deserializer.of_data (serializer.data_ s ++ [7; 7]) 0) = Ok (Some (received example_message)).
Proof.
  apply (message_roundtrip be le (λ _, true) (λ n, n));
    [reflexivity|reflexivity|apply example_message_wf].
Defined.

(** Malformed input is rejected without undefined behaviour: whatever the
    bytes, the allocator and the growth policy, [deserialize_message] returns
    (a message or a null pointer). *)
Theorem deserialize_message_safe (host : endianess_e) (alloc : nat → bool) (reserve : nat → nat)
    (data : bytes) (th : Z) :
  ∃ o, message_impl.deserialize_message host alloc reserve (deserializer.of_data data th) = Ok o.
Proof. eapply deserialize_message_total, reads_at_wf, reads_at_of_data. Qed.

(** Every proper prefix of a serialized message is rejected. *)
Theorem message_prefix_rejected (h1 h2 : endianess_e) (alloc : nat → bool) (reserve : nat → nat)
    (Halloc : ∀ n, alloc n = true) (Hreserve : ∀ n, reserve n = n)
    (m : message_impl.t) (Hwf : message_wf m) (th : Z) (s : serializer.t)
    (Hs : message_impl.serialize h1 alloc m (serializer.create th) = Ok (true, s))
    (n : nat) (Hn : (n < length (serializer.data_ s))%nat) :
  message_impl.deserialize_message h2 alloc reserve
    (deserializer.of_data (take n (serializer.data_ s)) th) = Ok None.
Proof.
  rewrite message_serialize_ok in Hs by done. injection Hs as <-. cbn in *.
  by apply message_truncated.
Qed.

Lemma message_prefix_rejected_witness :
  message_impl.deserialize_message le (λ _, true) (λ n, n)
    (deserializer.of_data (take 18 (message_bytes example_message)) 0) = Ok None.
Proof.
  apply (message_prefix_rejected be le (λ _, true) (λ n, n)) with
    (m := example_message) (s := serializer.mk (message_bytes example_message) 0 0);
    [reflexivity|reflexivity|apply example_message_wf|reflexivity|vm_compute; lia].
Defined.

(** The request/response identifiers are the concatenations the protocol
    defines, and [set_message] is the inverse of [get_message]. *)
Lemma message_ids (host : endianess_e) (m : message_impl.t) (v : Z)
    (Hwf : header_wf (message_impl.header_ m)) (Hv : is_u32 v) :
  let h := message_impl.header_ m in
  message_impl.get_message host m
    = message_header_impl.service_ h * 65536 + message_header_impl.method_ h
  ∧ message_impl.get_request host m
    = message_header_impl.client_ h * 65536 + message_header_impl.session_ h
  ∧ message_impl.get_message host (message_impl.set_message v m) = v.
Proof.
  assert (∀ a b, is_u16 a → is_u16 b → bithelper.read_uint32_be host
    [u8 (Z.shiftr (Z.land a 0xFF00) 8); u8 (Z.land a 0x00FF);
     u8 (Z.shiftr (Z.land b 0xFF00) 8); u8 (Z.land b 0x00FF)] = a * 65536 + b) as Hid.
  { intros a b Ha Hb. unfold bithelper.read_uint32_be.
    assert (∀ c, is_u16 c → u8 (Z.shiftr (Z.land c 0xFF00) 8) = c / 256
      ∧ u8 (Z.land c 0x00FF) = c mod 256) as Hc.
    { intros c Hc. change 0x00FF with (Z.ones 8). rewrite Z.land_ones by lia.
      change 0xFF00 with (Z.shiftl (Z.ones 8) 8).
      rewrite Z.shiftr_land, Z.shiftr_shiftl_l by lia. rewrite Z.sub_diag, Z.shiftl_0_r.
      rewrite Z.shiftr_div_pow2, Z.land_ones by lia. word. }
    destruct (Hc a Ha) as [-> ->], (Hc b Hb) as [-> ->].
    change 4%nat with (length [a / 256; a mod 256; b / 256; b mod 256]).
    rewrite read_be_spec; [|repeat constructor; word].
    unfold be_val. cbn. word. }
  destruct Hwf. cbn zeta. unfold message_impl.get_message, message_impl.get_request.
  split; [by apply Hid|]. split; [by apply Hid|].
  etransitivity; [apply Hid; apply wrap_range; lia|].
  cbn [message_impl.header_ message_impl.set_message message_impl.on_header
    message_header_impl.set_method message_header_impl.set_service
    message_header_impl.service_ message_header_impl.method_].
  unfold bithelper.read_low_word, bithelper.read_high_word.
  change 0xFFFF with (Z.ones 16). rewrite !Z.land_ones, Z.shiftr_div_pow2 by lia. word.
Qed.

Lemma message_ids_witness :
  message_impl.get_message le (message_impl.set_message 0x11112222 example_message) = 0x11112222.
Proof.
  apply (message_ids le example_message 0x11112222); [apply example_message_wf|vm_compute; intuition congruence].
Defined.
