(* ===== verification/E2e.v ===== *)
(** * The end-to-end protection profiles
    ([e2e_protection/src/e2e/profile])

    A protector writes a length, a counter, an identifier and a checksum into a
    buffer, a checker verifies them.  Each profile is a module with its
    configuration, the checksum over the buffer without the checksum field, and
    the [protect] and [check] operations on the state the source keeps (the
    counters).  Buffer accesses that the length checks do not exclude can leave
    the buffer: they are [Ub].  The provider ([e2e_provider_impl]) dispatches to
    the profile configured for a data identifier. *)

From stdpp Require Import base list gmap strings.
From Stdlib Require Import ZArith Lia.
From S2P Require Import Prelude BitHelper Crc.

Inductive check_status : Set := E2E_OK | E2E_WRONG_CRC | E2E_ERROR.

#[export] Instance check_status_eq_dec : EqDecision check_status.
Proof. solve_decision. Defined.

(** ** Message counters, one per instance

    The three profiles with a counter per instance have the same code at
    different widths. *)

Module counters.
Definition t : Type := gmap Z Z.

Definition get_counter (inst : Z) (c : gmap Z Z) : Z := default 0 (c !! inst).

Definition increment_counter (w inst : Z) (c : gmap Z Z) : gmap Z Z :=
  match c !! inst with
  | Some v => <[inst := wrap w (v + 1)]> c
  | None => <[inst := 1]> c
  end.

(** The distance the checker computes between the stored and the received
    counter; without a stored counter it is 0. *)
Definition delta (w stored received : Z) : Z :=
  if stored <? received then wrap w (received - stored)
  else wrap w ((2 ^ w - 1) - stored + received).

Definition verify_counter (w max_delta inst received : Z) (c : gmap Z Z) : bool * gmap Z Z :=
  match c !! inst with
  | Some stored => (delta w stored received <=? max_delta, c)
  | None => (0 <=? max_delta, <[inst := received]> c)
  end.
End counters.

(** ** Profile 1 *)

Module profile01.
Inductive p01_data_id_mode : Type :=
| E2E_P01_DATAID_BOTH | E2E_P01_DATAID_ALT | E2E_P01_DATAID_LOW | E2E_P01_DATAID_NIBBLE
| E2E_P01_DATAID_other (v : Z).

Record profile_config : Type := {
  crc_offset_ : nat;
  data_id_ : Z;
  data_id_mode_ : p01_data_id_mode;
  data_length_ : Z;
  counter_offset_ : nat;
  data_id_nibble_offset_ : nat
}.

Definition is_buffer_length_valid (cfg : profile_config) (buf : bytes) : bool :=
  (data_length_ cfg / 8 + 1 <=? Z.of_nat (length buf))
  && bool_decide (crc_offset_ cfg ≤ length buf)%nat
  && bool_decide (counter_offset_ cfg / 8 ≤ length buf)%nat
  && bool_decide (data_id_nibble_offset_ cfg / 8 ≤ length buf)%nat.

Definition compute_crc (cfg : profile_config) (buf : bytes) : result Z :=
  let calc := e2e_crc.calculate_profile_01 in
  let data_id_buffer := [u8 (Z.shiftr (data_id_ cfg) 8); u8 (data_id_ cfg)] in
  let lsb := take 1 (drop 1 data_id_buffer) in
  let msb := take 1 data_id_buffer in
  let crc :=
    match data_id_mode_ cfg with
    | E2E_P01_DATAID_BOTH => calc msb (calc lsb 0xFF)
    | E2E_P01_DATAID_LOW => calc lsb 0xFF
    | E2E_P01_DATAID_ALT => 0xFF
    | E2E_P01_DATAID_NIBBLE => calc [0x00] (calc lsb 0xFF)
    | E2E_P01_DATAID_other _ => 0xFF
    end in
  crc ← (if decide (1 ≤ crc_offset_ cfg)%nat
         then view ← rd buf 0 (crc_offset_ cfg); Ok (calc view crc)
         else Ok crc);
  crc ← (if Z.of_nat (crc_offset_ cfg) <? data_length_ cfg / 8 - 1
         then view ← rd buf (crc_offset_ cfg + 1) (length buf - (crc_offset_ cfg + 1));
              Ok (calc view crc)
         else Ok crc);
  Ok (Z.lxor crc 0xFF).

Definition write_counter (cfg : profile_config) (counter : Z) (buf : bytes) : result bytes :=
  let i := (counter_offset_ cfg / 8)%nat in
  b ← rd1 buf i;
  if decide (counter_offset_ cfg `mod` 8 = 0)%nat
  then wr1 buf i (u8 (Z.lor (Z.land b 0xF0) (Z.land counter 0x0F)))
  else wr1 buf i (u8 (Z.lor (Z.land b 0x0F) (Z.land (Z.shiftl counter 4) 0xF0))).

Definition write_data_id (cfg : profile_config) (buf : bytes) : result bytes :=
  match data_id_mode_ cfg with
  | E2E_P01_DATAID_NIBBLE =>
      let i := (data_id_nibble_offset_ cfg / 8)%nat in
      b ← rd1 buf i;
      if decide (data_id_nibble_offset_ cfg `mod` 8 = 0)%nat
      then wr1 buf i (u8 (Z.lor (Z.land b 0xF0) (Z.land (Z.shiftr (data_id_ cfg) 8) 0x0F)))
      else wr1 buf i (u8 (Z.lor (Z.land b 0x0F) (Z.land (Z.shiftr (data_id_ cfg) 4) 0xF0)))
  | _ => Ok buf
  end.

Definition write_crc (cfg : profile_config) (computed_crc : Z) (buf : bytes) : result bytes :=
  wr1 buf (crc_offset_ cfg) computed_crc.

Definition increment_counter (counter : Z) : Z := u8 ((counter + 1) mod 15).

(** The state is [counter_]. *)
Definition protect (cfg : profile_config) (counter : Z) (buf : bytes) : result (Z * bytes) :=
  if is_buffer_length_valid cfg buf then
    buf ← write_counter cfg counter buf;
    buf ← write_data_id cfg buf;
    crc ← compute_crc cfg buf;
    buf ← write_crc cfg crc buf;
    Ok (increment_counter counter, buf)
  else Ok (counter, buf).

Definition check (cfg : profile_config) (buf : bytes) : result check_status :=
  if is_buffer_length_valid cfg buf then
    received_crc ← rd1 buf (crc_offset_ cfg);
    calculated_crc ← compute_crc cfg buf;
    if received_crc =? calculated_crc then Ok E2E_OK else Ok E2E_WRONG_CRC
  else Ok E2E_ERROR.
End profile01.

(** ** Profile 4 *)

Module profile04.
Definition MAX_INSTANCE : Z := 0x00ff.

Record profile_config : Type := {
  data_id_ : Z;
  offset_ : nat;
  min_data_length_ : Z;
  max_data_length_ : Z;
  max_delta_counter_ : Z
}.

Section ops.
Context (host : endianess_e).

Definition compute_crc (cfg : profile_config) (buf : bytes) : result Z :=
  its_before ← rd buf 0 (offset_ cfg + 8);
  let computed_crc := e2e_crc.calculate_profile_04 its_before 0 in
  if decide (offset_ cfg + 12 < length buf)%nat then
    its_after ← rd buf (offset_ cfg + 12) (length buf - (offset_ cfg + 12));
    Ok (e2e_crc.calculate_profile_04 its_after computed_crc)
  else Ok computed_crc.

Definition verify_inputs (cfg : profile_config) (buf : bytes) : bool :=
  (min_data_length_ cfg <=? Z.of_nat (length buf)) && (Z.of_nat (length buf) <=? max_data_length_ cfg).

Definition its_data_id (cfg : profile_config) (inst : Z) : Z :=
  Z.lor (u32 (Z.shiftl inst 24)) (data_id_ cfg).

Definition get_counter : Z → gmap Z Z → Z := counters.get_counter.
Definition increment_counter : Z → gmap Z Z → gmap Z Z := counters.increment_counter 16.

Definition protect (cfg : profile_config) (inst : Z) (c : gmap Z Z) (buf : bytes)
  : result (gmap Z Z * bytes) :=
  if MAX_INSTANCE <? inst then Ok (c, buf)
  else if verify_inputs cfg buf then
    buf ← wr buf (offset_ cfg) (bithelper.write_uint16_be host (u16 (Z.of_nat (length buf))));
    buf ← wr buf (offset_ cfg + 2) (bithelper.write_uint16_be host (get_counter inst c));
    buf ← wr buf (offset_ cfg + 4) (bithelper.write_uint32_be host (its_data_id cfg inst));
    its_crc ← compute_crc cfg buf;
    buf ← wr buf (offset_ cfg + 8) (bithelper.write_uint32_be host its_crc);
    Ok (increment_counter inst c, buf)
  else Ok (c, buf).

Definition verify_counter (cfg : profile_config) : Z → Z → gmap Z Z → bool * gmap Z Z :=
  counters.verify_counter 16 (max_delta_counter_ cfg).

Definition read_16 (cfg : profile_config) (buf : bytes) (index : nat) : result Z :=
  bs ← rd buf (offset_ cfg + index) 2; Ok (bithelper.read_uint16_be host bs).
Definition read_32 (cfg : profile_config) (buf : bytes) (index : nat) : result Z :=
  bs ← rd buf (offset_ cfg + index) 4; Ok (bithelper.read_uint32_be host bs).

Definition check (cfg : profile_config) (inst : Z) (c : gmap Z Z) (buf : bytes)
  : result (gmap Z Z * check_status) :=
  if MAX_INSTANCE <? inst then Ok (c, E2E_ERROR)
  else if verify_inputs cfg buf then
    its_received_length ← read_16 cfg buf 0;
    its_received_counter ← read_16 cfg buf 2;
    its_received_data_id ← read_32 cfg buf 4;
    its_received_crc ← read_32 cfg buf 8;
    its_crc ← compute_crc cfg buf;
    if negb (its_received_crc =? its_crc) then Ok (c, E2E_WRONG_CRC)
    else if (its_received_data_id =? its_data_id cfg inst)
            && (its_received_length =? Z.of_nat (length buf)) then
      let '(ok, c) := verify_counter cfg inst its_received_counter c in
      Ok (c, if (ok : bool) then E2E_OK else E2E_ERROR)
    else Ok (c, E2E_ERROR)
  else Ok (c, E2E_ERROR).
End ops.
End profile04.

(** ** Profile 5 *)

Module profile05.
Definition MAX_INSTANCE : Z := 0x00ff.

Record profile_config : Type := {
  data_id_ : Z;
  data_length_ : Z;
  offset_ : nat;
  max_delta_counter_ : Z
}.

Section ops.
Context (host : endianess_e).

Definition compute_crc (cfg : profile_config) (buf : bytes) : result Z :=
  its_before ← rd buf 0 (offset_ cfg);
  let computed_crc := e2e_crc.calculate_profile_05 its_before 0xFFFF in
  computed_crc ←
    (if decide (offset_ cfg + 2 < length buf)%nat then
       its_after ← rd buf (offset_ cfg + 2) (length buf - (offset_ cfg + 2));
       Ok (e2e_crc.calculate_profile_05 its_after computed_crc)
     else Ok computed_crc);
  let dataId := [Z.land (data_id_ cfg) 0xFF; Z.land (Z.shiftr (data_id_ cfg) 8) 0xFF] in
  Ok (e2e_crc.calculate_profile_05 dataId computed_crc).

Definition is_buffer_length_valid (cfg : profile_config) (buf : bytes) : bool :=
  data_length_ cfg / 8 + 1 <=? Z.of_nat (length buf).

Definition write_counter (cfg : profile_config) (data : Z) (index : nat) (buf : bytes)
  : result bytes := wr1 buf (offset_ cfg + index) data.

Definition get_counter : Z → gmap Z Z → Z := counters.get_counter.
Definition increment_counter : Z → gmap Z Z → gmap Z Z := counters.increment_counter 8.

Definition protect (cfg : profile_config) (inst : Z) (c : gmap Z Z) (buf : bytes)
  : result (gmap Z Z * bytes) :=
  if MAX_INSTANCE <? inst then Ok (c, buf)
  else if is_buffer_length_valid cfg buf then
    buf ← write_counter cfg (get_counter inst c) 2 buf;
    its_crc ← compute_crc cfg buf;
    buf ← wr buf (offset_ cfg) (bithelper.write_uint16_be host its_crc);
    Ok (increment_counter inst c, buf)
  else Ok (c, buf).

Definition verify_counter (cfg : profile_config) : Z → Z → gmap Z Z → bool * gmap Z Z :=
  counters.verify_counter 8 (max_delta_counter_ cfg).

Definition read_8 (cfg : profile_config) (buf : bytes) (index : nat) : result Z :=
  rd1 buf (offset_ cfg + index).
Definition read_16 (cfg : profile_config) (buf : bytes) (index : nat) : result Z :=
  bs ← rd buf (offset_ cfg + index) 2; Ok (bithelper.read_uint16_be host bs).

Definition check (cfg : profile_config) (inst : Z) (c : gmap Z Z) (buf : bytes)
  : result (gmap Z Z * check_status) :=
  if MAX_INSTANCE <? inst then Ok (c, E2E_ERROR)
  else if is_buffer_length_valid cfg buf then
    its_received_counter ← read_8 cfg buf 2;
    its_received_crc ← read_16 cfg buf 0;
    its_crc ← compute_crc cfg buf;
    if negb (its_received_crc =? its_crc) then Ok (c, E2E_WRONG_CRC)
    else
      let '(ok, c) := verify_counter cfg inst its_received_counter c in
      Ok (c, if (ok : bool) then E2E_OK else E2E_ERROR)
  else Ok (c, E2E_ERROR).
End ops.
End profile05.

(** ** Profile 7 *)

Module profile07.
Definition PROFILE_07_SIZE_OFFSET : nat := 8.
Definition PROFILE_07_COUNTER_OFFSET : nat := 12.
Definition PROFILE_07_DATAID_OFFSET : nat := 16.
Definition PROFILE_07_CRC_OFFSET : nat := 0.

Record profile_config : Type := {
  data_id_ : Z;
  offset_ : nat;
  min_data_length_ : Z;
  max_data_length_ : Z;
  max_delta_counter_ : Z
}.

Section ops.
Context (host : endianess_e).

Definition compute_crc (cfg : profile_config) (buf : bytes) : result Z :=
  its_before ← rd buf 0 (offset_ cfg);
  let computed_crc := e2e_crc.calculate_profile_07 its_before 0 in
  if decide (offset_ cfg + 8 < length buf)%nat then
    its_after ← rd buf (offset_ cfg + 8) (length buf - (offset_ cfg + 8));
    Ok (e2e_crc.calculate_profile_07 its_after computed_crc)
  else Ok computed_crc.

Definition verify_inputs (cfg : profile_config) (buf : bytes) : bool :=
  (min_data_length_ cfg <=? Z.of_nat (length buf)) && (Z.of_nat (length buf) <=? max_data_length_ cfg).

Definition get_counter : Z → gmap Z Z → Z := counters.get_counter.
Definition increment_counter : Z → gmap Z Z → gmap Z Z := counters.increment_counter 32.

(** The length goes through [static_cast<uint16_t>]. *)
Definition protect (cfg : profile_config) (inst : Z) (c : gmap Z Z) (buf : bytes)
  : result (gmap Z Z * bytes) :=
  if verify_inputs cfg buf then
    buf ← wr buf (offset_ cfg + PROFILE_07_SIZE_OFFSET)
            (bithelper.write_uint32_be host (u16 (Z.of_nat (length buf))));
    buf ← wr buf (offset_ cfg + PROFILE_07_COUNTER_OFFSET)
            (bithelper.write_uint32_be host (get_counter inst c));
    buf ← wr buf (offset_ cfg + PROFILE_07_DATAID_OFFSET)
            (bithelper.write_uint32_be host (data_id_ cfg));
    its_crc ← compute_crc cfg buf;
    buf ← wr buf (offset_ cfg + PROFILE_07_CRC_OFFSET) (bithelper.write_uint64_be host its_crc);
    Ok (increment_counter inst c, buf)
  else Ok (c, buf).

Definition verify_counter (cfg : profile_config) : Z → Z → gmap Z Z → bool * gmap Z Z :=
  counters.verify_counter 32 (max_delta_counter_ cfg).

Definition read_32 (cfg : profile_config) (buf : bytes) (index : nat) : result Z :=
  bs ← rd buf (offset_ cfg + index) 4; Ok (bithelper.read_uint32_be host bs).
Definition read_64 (cfg : profile_config) (buf : bytes) (index : nat) : result Z :=
  bs ← rd buf (offset_ cfg + index) 8; Ok (bithelper.read_uint64_be host bs).

Definition check (cfg : profile_config) (inst : Z) (c : gmap Z Z) (buf : bytes)
  : result (gmap Z Z * check_status) :=
  if verify_inputs cfg buf then
    its_received_length ← read_32 cfg buf PROFILE_07_SIZE_OFFSET;
    its_received_counter ← read_32 cfg buf PROFILE_07_COUNTER_OFFSET;
    its_received_data_id ← read_32 cfg buf PROFILE_07_DATAID_OFFSET;
    its_received_crc ← read_64 cfg buf PROFILE_07_CRC_OFFSET;
    its_crc ← compute_crc cfg buf;
    if negb (its_received_crc =? its_crc) then Ok (c, E2E_WRONG_CRC)
    else if (its_received_data_id =? data_id_ cfg)
            && (its_received_length =? Z.of_nat (length buf)) then
      let '(ok, c) := verify_counter cfg inst its_received_counter c in
      Ok (c, if (ok : bool) then E2E_OK else E2E_ERROR)
    else Ok (c, E2E_ERROR)
  else Ok (c, E2E_ERROR).
End ops.
End profile07.

(** ** The custom profile *)

Module profile_custom.
Record profile_config : Type := { crc_offset_ : nat }.

Definition is_buffer_length_valid (cfg : profile_config) (buf : bytes) : bool :=
  bool_decide (crc_offset_ cfg + 4 ≤ length buf)%nat.

Definition compute_crc (cfg : profile_config) (buf : bytes) : result Z :=
  view ← rd buf (crc_offset_ cfg + 4) (length buf - (crc_offset_ cfg + 4));
  Ok (e2e_crc.calculate_profile_custom view).

Definition write_crc (cfg : profile_config) (computed_crc : Z) (buf : bytes) : result bytes :=
  buf ← wr1 buf (crc_offset_ cfg) (u8 (Z.shiftr computed_crc 24));
  buf ← wr1 buf (crc_offset_ cfg + 1) (u8 (Z.shiftr computed_crc 16));
  buf ← wr1 buf (crc_offset_ cfg + 2) (u8 (Z.shiftr computed_crc 8));
  wr1 buf (crc_offset_ cfg + 3) (u8 computed_crc).

Definition protect (cfg : profile_config) (buf : bytes) : result bytes :=
  if is_buffer_length_valid cfg buf then
    computed_crc ← compute_crc cfg buf;
    write_crc cfg computed_crc buf
  else Ok buf.

Definition read_crc (cfg : profile_config) (buf : bytes) : result Z :=
  b0 ← rd1 buf (crc_offset_ cfg);
  b1 ← rd1 buf (crc_offset_ cfg + 1);
  b2 ← rd1 buf (crc_offset_ cfg + 2);
  b3 ← rd1 buf (crc_offset_ cfg + 3);
  Ok (Z.lor (Z.lor (Z.lor (u32 (Z.shiftl b0 24)) (u32 (Z.shiftl b1 16))) (u32 (Z.shiftl b2 8))) b3).

Definition check (cfg : profile_config) (buf : bytes) : result check_status :=
  if is_buffer_length_valid cfg buf then
    received_crc ← read_crc cfg buf;
    calculated_crc ← compute_crc cfg buf;
    if received_crc =? calculated_crc then Ok E2E_OK else Ok E2E_WRONG_CRC
  else Ok E2E_ERROR.
End profile_custom.
