(* ===== verification/E2eFacts.v ===== *)
(** * Properties of the end-to-end profiles

    What a protector of each profile leaves in a buffer, what a checker decides
    on it, and which changes to it a checker detects.  The profiles share one
    shape, a checksum in a field over what surrounds the field ([field],
    [around]); the lemmas about that shape are proved once against the
    [CrcAlgorithm] interface and used by every profile. *)

From stdpp Require Import base list gmap strings.
From Stdlib Require Import ZArith Lia.
From S2P Require Import Prelude BitHelper Crc E2e.

(** ** A field inside a buffer *)

(** The buffer without the [k] bytes from [a]. *)
Definition around (a k : nat) (buf : bytes) : bytes := take a buf ++ drop (a + k) buf.

Definition field (a k : nat) (buf : bytes) : bytes := take k (drop a buf).

Section fields.
Implicit Types (buf bs : bytes) (a k i : nat).

Lemma around_bytes_ok a k buf : bytes_ok buf → bytes_ok (around a k buf).
Proof. intros. apply Forall_app_2; auto using Forall_take, Forall_drop. Qed.

Lemma field_bytes_ok a k buf : bytes_ok buf → bytes_ok (field a k buf).
Proof. intros. unfold field. auto using Forall_take, Forall_drop. Qed.

Lemma field_length a k buf : (a + k ≤ length buf)%nat → length (field a k buf) = k.
Proof. intros. unfold field. len. Qed.

Lemma around_wr a k buf bs buf' :
  wr buf a bs = Ok buf' → length bs = k → around a k buf' = around a k buf.
Proof.
  intros H <-. unfold around.
  by rewrite (wr_take_before _ _ _ _ _ H), (wr_drop_after _ _ _ _ _ H) by lia.
Qed.

Lemma field_wr a k buf bs buf' :
  wr buf a bs = Ok buf' → length bs = k → field a k buf' = bs.
Proof.
  intros H <-. pose proof (wr_length _ _ _ _ H). apply rd_wr_same in H as H'.
  apply wr_inv in H as [? _]. rewrite rd_ok in H' by lia. by simplify_eq.
Qed.

Lemma field_wr_other a k off buf bs buf' :
  wr buf off bs = Ok buf' → (a + k ≤ off ∨ off + length bs ≤ a)%nat → (a + k ≤ length buf)%nat →
  field a k buf' = field a k buf.
Proof.
  intros H Hd Ha. pose proof (wr_length _ _ _ _ H).
  pose proof (rd_wr_other _ _ _ _ a k H Hd) as E. rewrite !rd_ok in E by lia. by simplify_eq.
Qed.

Lemma rd_field buf a k : (a + k ≤ length buf)%nat → rd buf a k = Ok (field a k buf).
Proof. apply rd_ok. Qed.

Lemma rd1_field buf a : (a < length buf)%nat → ∃ x, rd1 buf a = Ok x ∧ field a 1 buf = [x].
Proof.
  intros Ha. destruct (lookup_lt_is_Some_2 buf a Ha) as [x Hx]. exists x. unfold rd1, field.
  rewrite Hx. split; [done|]. by rewrite (drop_S _ _ _ Hx).
Qed.

Lemma wr1_wr buf a b : wr1 buf a b = wr buf a [b].
Proof.
  unfold wr1, wr. cbn [length]. destruct (decide (a < length buf)%nat).
  - rewrite decide_True by lia. rewrite insert_take_drop by lia. cbn. do 3 f_equal. 
    by rewrite Nat.add_1_r.
  - rewrite decide_False by lia. done.
Qed.

(** A changed byte is either in the field or in the part around it. *)
Lemma field_insert a k buf i y :
  (a + k ≤ length buf)%nat → (i < length buf)%nat →
  field a k (<[i:=y]> buf) =
    if decide (a ≤ i < a + k)%nat then <[(i - a)%nat := y]> (field a k buf) else field a k buf.
Proof.
  intros Ha Hi. unfold field. case_decide.
  - rewrite drop_insert_ge by lia. rewrite take_insert_lt by lia. done.
  - destruct (decide (i < a)%nat).
    + by rewrite drop_insert_lt by lia.
    + rewrite drop_insert_ge by lia. by rewrite take_insert_ge by lia.
Qed.

Lemma around_insert a k buf i y :
  (a + k ≤ length buf)%nat → (i < length buf)%nat →
  around a k (<[i:=y]> buf) =
    if decide (a ≤ i < a + k)%nat then around a k buf
    else <[(if decide (i < a)%nat then i else i - k)%nat := y]> (around a k buf).
Proof.
  intros Ha Hi. unfold around. case_decide as Hf.
  - rewrite take_insert_ge by lia. by rewrite drop_insert_lt by lia.
  - case_decide.
    + rewrite take_insert_lt, drop_insert_lt by lia. rewrite insert_app_l by len. done.
    + rewrite take_insert_ge, drop_insert_ge by lia. rewrite insert_app_r_alt by len.
      do 2 f_equal. len.
Qed.

Lemma around_lookup a k buf i :
  (a + k ≤ length buf)%nat → (i < a ∨ a + k ≤ i)%nat → 
  around a k buf !! (if decide (i < a)%nat then i else i - k)%nat = buf !! i.
Proof.
  intros Ha Hi. unfold around. case_decide.
  - rewrite lookup_app_l by len. by rewrite lookup_take_lt by lia.
  - rewrite lookup_app_r by len. rewrite lookup_drop. f_equal. len.
Qed.

Lemma around_length a k buf : (a + k ≤ length buf)%nat → length (around a k buf) = (length buf - k)%nat.
Proof. intros. unfold around. len. Qed.

End fields.

Lemma be_val_inj a b : bytes_ok a → bytes_ok b → length a = length b → be_val a = be_val b → a = b.
Proof. intros Ha Hb Hl E. rewrite <- (be_bytes_val a), <- (be_bytes_val b) by done. congruence. Qed.

(** ** A checksum over what surrounds its own field *)

Section protected_field.
Context {w : Z} {calc : bytes → Z → Z} `{Hcrc : !CrcAlgorithm w calc}.

(** The two step computation of the sources is the checksum over the
    surrounding bytes. *)
Lemma split_crc a k buf v :
  (a + k ≤ length buf)%nat →
  (its_before ← rd buf 0 a;
   if decide (a + k < length buf)%nat
   then its_after ← rd buf (a + k) (length buf - (a + k)); Ok (calc its_after (calc its_before v))
   else Ok (calc its_before v)) = Ok (calc (around a k buf) v).
Proof using Hcrc.
  intros Ha. rewrite (rd_ok buf 0) by lia. cbn [mbind result_bind]. rewrite ?drop_0. unfold around.
  rewrite crc_app. case_decide.
  - rewrite rd_ok by lia. cbn [mbind result_bind]. rewrite take_ge by len. done.
  - rewrite (drop_ge buf) by lia. by rewrite crc_nil.
Qed.

(** One changed byte, in the field or around it, makes the two differ. *)
Lemma field_crc_detects (fin : Z → Z) pre post a k buf i y v :
  Inj eq eq fin → bytes_ok buf → bytes_ok pre → bytes_ok post → is_u8 y → in_width w v →
  (a + k ≤ length buf)%nat → (i < length buf)%nat → buf !! i ≠ Some y →
  be_val (field a k buf) = fin (calc (pre ++ around a k buf ++ post) v) →
  be_val (field a k (<[i:=y]> buf)) ≠ fin (calc (pre ++ around a k (<[i:=y]> buf) ++ post) v).
Proof using Hcrc.
  intros Hfin Hb Hpre Hpost Hy Hv Ha Hi Hne E. rewrite field_insert, around_insert by done.
  case_decide as Hf.
  - rewrite <- E. intros Eq. apply be_val_inj in Eq; [|apply Forall_insert; auto using field_bytes_ok
      |auto using field_bytes_ok|len].
    apply Hne. apply (f_equal (lookup (i - a)%nat)) in Eq.
    rewrite list_lookup_insert_eq in Eq by (rewrite field_length; lia).
    unfold field in Eq. rewrite lookup_take_lt, lookup_drop in Eq by lia.
    rewrite Eq. f_equal. lia.
  - rewrite E. intros Eq%Hfin. symmetry in Eq.
    set (j := if decide (i < a)%nat then i else (i - k)%nat) in *.
    assert (j < length (around a k buf))%nat as Hj
      by (rewrite around_length by lia; unfold j; case_decide; lia).
    rewrite <- insert_app_l, <- insert_app_r in Eq by done.
    revert Eq. apply crc_detects_insert; auto using around_bytes_ok, Forall_app_2.
    + len.
    + rewrite lookup_app_r by lia. rewrite lookup_app_l by (rewrite Nat.add_comm, Nat.add_sub; done || lia).
      replace (length pre + j - length pre)%nat with j by lia.
      unfold j. rewrite around_lookup by lia. done.
Qed.

Lemma field_crc_detects_plain a k buf i y v :
  bytes_ok buf → is_u8 y → in_width w v →
  (a + k ≤ length buf)%nat → (i < length buf)%nat → buf !! i ≠ Some y →
  be_val (field a k buf) = calc (around a k buf) v →
  be_val (field a k (<[i:=y]> buf)) ≠ calc (around a k (<[i:=y]> buf)) v.
Proof using Hcrc.
  intros. pose proof (field_crc_detects id [] [] a k buf i y v) as X.
  unfold id in X. rewrite !app_nil_l, !app_nil_r in X. apply X; auto. by intros ???.
Qed.
End protected_field.

Lemma wr_some buf off bs :
  (off + length bs ≤ length buf)%nat → ∃ buf', wr buf off bs = Ok buf' ∧ length buf' = length buf.
Proof. intros. rewrite wr_ok by done. eexists; split; [done|]. len. Qed.

(** A block written byte by byte. *)
Lemma wr_cons buf off b bs :
  (off + S (length bs) ≤ length buf)%nat →
  wr buf off (b :: bs) = (buf ← wr1 buf off b; wr buf (off + 1) bs).
Proof.
  intros Hl. rewrite wr1_wr.
  destruct (wr_some buf off (b :: bs)) as (x & E & _); [cbn [length]; lia|].
  destruct (wr_some buf off [b]) as (b1 & E1 & L1); [cbn [length]; lia|].
  destruct (wr_some b1 (off + 1) bs) as (y & E2 & _); [lia|].
  rewrite E, E1. cbn [mbind result_bind]. rewrite E2. f_equal. apply list_eq. intros i.
  rewrite (wr_lookup _ _ _ _ _ E), (wr_lookup _ _ _ _ _ E2), (wr_lookup _ _ _ _ _ E1). cbn [length].
  repeat case_decide; try lia; try done.
  - by replace (i - off)%nat with (S (i - (off + 1))) by lia.
  - by replace (i - off)%nat with 0%nat by lia.
Qed.
(** ** Shared steps of the proofs about profiles *)

Lemma read_be_field host a k buf :
  bytes_ok buf → (a + k ≤ length buf)%nat →
  bithelper.read_be host k (field a k buf) = be_val (field a k buf).
Proof.
  intros. rewrite <- (field_length a k buf) at 1 by done.
  rewrite read_be_spec by auto using field_bytes_ok. done.
Qed.

(** Performs the next block write of the goal. *)
Ltac write_block buf' E :=
  rewrite ?write_be_spec;
  match goal with |- context [wr ?b ?o ?bs] =>
    let L := fresh "L" in
    destruct (wr_some b o bs) as (buf' & E & L);
      [rewrite ?be_bytes_length; cbn [length]; lia|rewrite E; cbn [mbind result_bind]]
  end.

(** Describes a part of a buffer that a sequence of block writes left: the
    last write to it, or what it was before. *)
Ltac written :=
  let side := rewrite ?be_bytes_length; cbn [length]; lia in
  repeat match goal with
  | E : wr ?b ?o ?bs = Ok ?b' |- context [take ?n ?b'] => rewrite (wr_take_before b o bs b' n E) by side
  | E : wr ?b ?o ?bs = Ok ?b' |- context [drop ?n ?b'] => rewrite (wr_drop_after b o bs b' n E) by side
  | E : wr ?b ?o ?bs = Ok ?b' |- context [field ?a ?k ?b'] =>
      first [rewrite (field_wr_other a k o b bs b' E) by side
            |rewrite (field_wr a k b bs b' E) by (rewrite ?be_bytes_length; done)]
  end; try done.

Lemma lor_width w a b : 0 ≤ w → in_width w a → in_width w b → in_width w (Z.lor a b).
Proof.
  intros Hw Ha Hb. apply in_width_bits; [done| |].
  - apply Z.lor_nonneg. unfold in_width in *. lia.
  - intros i Hi. rewrite Z.lor_spec, !(testbit_high w) by (done || lia). done.
Qed.

Lemma be_val_width n v : in_width (8 * Z.of_nat n) v → be_val (be_bytes n v) = v.
Proof. intros. rewrite be_val_bytes, pow256. by apply Z.mod_small. Qed.

(** ** Profile 4 *)

Section profile04_facts.
Import profile04.
Context (cfg : profile_config) (inst : Z).

Definition crc_04_of (buf : bytes) : Z :=
  e2e_crc.calculate_profile_04 (around (offset_ cfg + 8) 4 buf) 0.

Lemma crc_04_of_width buf : bytes_ok buf → is_u32 (crc_04_of buf).
Proof. intros. apply (crc_width (w := 32)); [by apply around_bytes_ok|done]. Qed.

Lemma compute_crc_04 buf :
  (offset_ cfg + 12 ≤ length buf)%nat → compute_crc cfg buf = Ok (crc_04_of buf).
Proof.
  intros. unfold compute_crc, crc_04_of. replace (offset_ cfg + 12)%nat with (offset_ cfg + 8 + 4)%nat by lia.
  apply (split_crc (w := 32)). lia.
Qed.

Lemma its_data_id_width : is_u32 (data_id_ cfg) → is_u32 (its_data_id cfg inst).
Proof. intros. apply lor_width; [lia|apply wrap_range; lia|done]. Qed.

(** What a checker decides on a buffer that holds the twelve byte header. *)
Lemma check_04 host c buf :
  bytes_ok buf → (offset_ cfg + 12 ≤ length buf)%nat → verify_inputs cfg buf = true → inst ≤ 255 →
  check host cfg inst c buf =
    if be_val (field (offset_ cfg + 8) 4 buf) =? crc_04_of buf then
      if (be_val (field (offset_ cfg + 4) 4 buf) =? its_data_id cfg inst)
         && (be_val (field (offset_ cfg) 2 buf) =? Z.of_nat (length buf))
      then let r := verify_counter cfg inst (be_val (field (offset_ cfg + 2) 2 buf)) c in
           Ok (r.2, if (r.1 : bool) then E2E_OK else E2E_ERROR)
      else Ok (c, E2E_ERROR)
    else Ok (c, E2E_WRONG_CRC).
Proof.
  intros Hb Hl Hv Hi. unfold check, MAX_INSTANCE, read_16, read_32.
  destruct (Z.ltb_spec 255 inst); [lia|]. rewrite Hv.
  rewrite compute_crc_04 by done. rewrite !rd_field by lia. cbn [mbind result_bind].
  unfold bithelper.read_uint16_be, bithelper.read_uint32_be. rewrite !read_be_field by (done || lia).
  rewrite !Nat.add_0_r.
  destruct (_ =? crc_04_of _); cbn [negb]; [|done].
  destruct (_ && _); [|done]. by destruct (verify_counter _ _ _ _).
Qed.

(** The buffer a protector leaves. *)
Lemma protect_04 host c buf :
  bytes_ok buf → (offset_ cfg + 12 ≤ length buf)%nat → verify_inputs cfg buf = true → inst ≤ 255 →
  ∃ buf', protect host cfg inst c buf = Ok (increment_counter inst c, buf')
    ∧ length buf' = length buf ∧ bytes_ok buf'
    ∧ take (offset_ cfg) buf' = take (offset_ cfg) buf
    ∧ drop (offset_ cfg + 12) buf' = drop (offset_ cfg + 12) buf
    ∧ field (offset_ cfg) 2 buf' = be_bytes 2 (u16 (Z.of_nat (length buf)))
    ∧ field (offset_ cfg + 2) 2 buf' = be_bytes 2 (get_counter inst c)
    ∧ field (offset_ cfg + 4) 4 buf' = be_bytes 4 (its_data_id cfg inst)
    ∧ field (offset_ cfg + 8) 4 buf' = be_bytes 4 (crc_04_of buf').
Proof.
  intros Hb Hl Hv Hi. unfold protect, MAX_INSTANCE.
  destruct (Z.ltb_spec 255 inst); [lia|]. rewrite Hv.
  unfold bithelper.write_uint16_be, bithelper.write_uint32_be.
  write_block b1 E1. write_block b2 E2. write_block b3 E3.
  rewrite compute_crc_04 by lia. cbn [mbind result_bind]. write_block b4 E4.
  exists b4. split; [done|]. split; [lia|].
  split; [repeat (eapply wr_bytes_ok; [eassumption| |apply be_bytes_ok]); done|].
  assert (crc_04_of b4 = crc_04_of b3) as ->
    by (unfold crc_04_of; f_equal; eapply around_wr; [done|apply be_bytes_length]).
  split_and!; written.
Qed.

(** A checker on what a protector left. *)
Lemma check_04_sent host c cs buf buf' :
  bytes_ok buf' → (offset_ cfg + 12 ≤ length buf)%nat → Z.of_nat (length buf) < 65536 →
  verify_inputs cfg buf = true → inst ≤ 255 → is_u32 (data_id_ cfg) → is_u16 (get_counter inst cs) →
  length buf' = length buf →
  field (offset_ cfg) 2 buf' = be_bytes 2 (u16 (Z.of_nat (length buf))) →
  field (offset_ cfg + 2) 2 buf' = be_bytes 2 (get_counter inst cs) →
  field (offset_ cfg + 4) 4 buf' = be_bytes 4 (its_data_id cfg inst) →
  field (offset_ cfg + 8) 4 buf' = be_bytes 4 (crc_04_of buf') →
  let r := verify_counter cfg inst (get_counter inst cs) c in
  check host cfg inst c buf' = Ok (r.2, if (r.1 : bool) then E2E_OK else E2E_ERROR).
Proof.
  intros B Hl Hl16 Hv Hi Hid Hc L F0 F2 F4 F8 r. rewrite check_04; [|done|lia| |lia].
  - rewrite F0, F2, F4, F8, !be_val_width, L, wrap_small, !Z.eqb_refl; [done|..].
    all: first [by apply crc_04_of_width|by apply its_data_id_width|done|by apply wrap_range|by wrap_bounds; lia].
  - revert Hv. unfold verify_inputs. by rewrite L.
Qed.
End profile04_facts.

(** Profile 4 end to end, between hosts of any byte order: on a buffer
    with room for the twelve byte header, [protect] succeeds, changes nothing
    outside the header and advances the counter of the instance; [check] of the
    result accepts it exactly when the receiver's counter test does. *)
Theorem e2e_p04_roundtrip (h1 h2 : endianess_e) (cfg : profile04.profile_config)
    (inst : Z) (cs cr : gmap Z Z) (buf : bytes)
    (Hb : bytes_ok buf) (Hi : 0 ≤ inst ≤ 255) (Hid : is_u32 (profile04.data_id_ cfg))
    (Hl : (profile04.offset_ cfg + 12 ≤ length buf)%nat) (Hl16 : Z.of_nat (length buf) < 65536)
    (Hv : profile04.verify_inputs cfg buf = true)
    (Hc : is_u16 (profile04.get_counter inst cs)) :
  ∃ buf', profile04.protect h1 cfg inst cs buf = Ok (profile04.increment_counter inst cs, buf')
    ∧ length buf' = length buf
    ∧ take (profile04.offset_ cfg) buf' = take (profile04.offset_ cfg) buf
    ∧ drop (profile04.offset_ cfg + 12) buf' = drop (profile04.offset_ cfg + 12) buf
    ∧ let r := profile04.verify_counter cfg inst (profile04.get_counter inst cs) cr in
      profile04.check h2 cfg inst cr buf' = Ok (r.2, if (r.1 : bool) then E2E_OK else E2E_ERROR).
Proof.
  destruct (protect_04 cfg inst h1 cs buf) as (buf' & E & L & B & T & D & F0 & F2 & F4 & F8); [done..|lia|].
  exists buf'. split_and!; [done..|].
  apply (check_04_sent cfg inst h2 cr cs buf buf'); done || lia.
Qed.

Definition p04_example : profile04.profile_config :=
  {| profile04.data_id_ := 0x2d; profile04.offset_ := 0; profile04.min_data_length_ := 12;
     profile04.max_data_length_ := 4096; profile04.max_delta_counter_ := 2 |}.

Lemma e2e_p04_roundtrip_witness :
  ∃ buf', profile04.protect be p04_example 1 ∅ (replicate 16 7) = Ok ({[1 := 1]}, buf')
    ∧ profile04.check le p04_example 1 ∅ buf' = Ok ({[1 := 0]}, E2E_OK).
Proof.
  destruct (e2e_p04_roundtrip be le p04_example 1 ∅ ∅ (replicate 16 7))
    as (buf' & E & _ & _ & _ & C).
  - by_eval.
  - lia.
  - done.
  - by_eval.
  - by_eval.
  - reflexivity.
  - done.
  - exists buf'. split; [exact E|exact C].
Defined.

(** Profile 4 detects every single byte error: if a buffer passes the
    checksum test, the same buffer with any one byte changed (header, checksum
    field and data alike) is reported as [E2E_WRONG_CRC] and leaves the
    counters alone. *)
Theorem e2e_p04_detects (host : endianess_e) (cfg : profile04.profile_config)
    (inst : Z) (c c1 : gmap Z Z) (buf : bytes) (st : check_status) (i : nat) (y : Z)
    (Hb : bytes_ok buf) (Hi : 0 ≤ inst ≤ 255)
    (Hl : (profile04.offset_ cfg + 12 ≤ length buf)%nat)
    (Hv : profile04.verify_inputs cfg buf = true)
    (Hok : profile04.check host cfg inst c buf = Ok (c1, st)) (Hst : st ≠ E2E_WRONG_CRC)
    (Hin : (i < length buf)%nat) (Hy : is_u8 y) (Hne : buf !! i ≠ Some y) (c2 : gmap Z Z) :
  profile04.check host cfg inst c2 (<[i := y]> buf) = Ok (c2, E2E_WRONG_CRC).
Proof.
  rewrite check_04 in Hok by (done || lia).
  destruct (Z.eqb_spec (be_val (field (profile04.offset_ cfg + 8) 4 buf)) (crc_04_of cfg buf)) as [E|];
    [clear Hok|simplify_eq].
  rewrite check_04; [|by apply Forall_insert|by rewrite length_insert| |lia].
  - destruct (Z.eqb_spec (be_val (field (profile04.offset_ cfg + 8) 4 (<[i:=y]> buf)))
                (crc_04_of cfg (<[i:=y]> buf))) as [E'|]; [|done].
    exfalso. unfold crc_04_of in *.
    revert E'. apply (field_crc_detects_plain (w := 32) (calc := e2e_crc.calculate_profile_04)); done || lia.
  - revert Hv. unfold profile04.verify_inputs. by rewrite length_insert.
Qed.

(** The buffer of [p04_example] as the protector leaves it. *)
Definition p04_sent : bytes :=
  match profile04.protect be p04_example 1 ∅ (replicate 16 7) with Ok (_, b) => b | _ => [] end.

Lemma e2e_p04_detects_witness :
  profile04.check le p04_example 1 ∅ (<[14%nat := 8]> p04_sent) = Ok (∅, E2E_WRONG_CRC).
Proof.
  apply (e2e_p04_detects le p04_example 1 ∅ {[1 := 0]} p04_sent E2E_OK 14 8).
  - by_eval.
  - lia.
  - by_eval.
  - vm_compute. reflexivity.
  - vm_compute. reflexivity.
  - done.
  - by_eval.
  - done.
  - vm_compute. done.
Defined.

(** ** Profile 4 sessions: what a receiver says of a stream of buffers *)

Fixpoint p04_session (h1 h2 : endianess_e) (cfg : profile04.profile_config) (inst : Z)
    (cs cr : gmap Z Z) (bufs : list bytes) : result (list check_status) :=
  match bufs with
  | [] => Ok []
  | buf :: bufs =>
      '(cs, buf) ← profile04.protect h1 cfg inst cs buf;
      '(cr, st) ← profile04.check h2 cfg inst cr buf;
      sts ← p04_session h1 h2 cfg inst cs cr bufs;
      Ok (st :: sts)
  end.

Definition p04_fits (cfg : profile04.profile_config) (buf : bytes) : Prop :=
  bytes_ok buf ∧ (profile04.offset_ cfg + 12 ≤ length buf)%nat
  ∧ Z.of_nat (length buf) < 65536 ∧ profile04.verify_inputs cfg buf = true.

Lemma p04_step h1 h2 cfg inst cs cr buf bufs :
  p04_fits cfg buf → 0 ≤ inst ≤ 255 → is_u32 (profile04.data_id_ cfg) →
  is_u16 (profile04.get_counter inst cs) →
  let r := profile04.verify_counter cfg inst (profile04.get_counter inst cs) cr in
  p04_session h1 h2 cfg inst cs cr (buf :: bufs)
  = (sts ← p04_session h1 h2 cfg inst (profile04.increment_counter inst cs) r.2 bufs;
     Ok ((if (r.1 : bool) then E2E_OK else E2E_ERROR) :: sts)).
Proof.
  intros (Hb & Hl & Hl16 & Hv) Hi Hid Hc r. cbn [p04_session].
  destruct (protect_04 cfg inst h1 cs buf) as (buf' & E & L & B & _ & _ & F0 & F2 & F4 & F8); [done..|lia|].
  rewrite E. cbn [mbind result_bind].
  rewrite (check_04_sent cfg inst h2 cr cs buf buf'); done || lia.
Qed.

Lemma p04_later h1 h2 cfg inst bufs k cs cr :
  Forall (p04_fits cfg) bufs → 0 ≤ inst ≤ 255 → is_u32 (profile04.data_id_ cfg) →
  0 < k → k + Z.of_nat (length bufs) ≤ 65536 → cs !! inst = Some k → cr !! inst = Some 0 →
  p04_session h1 h2 cfg inst cs cr bufs
  = Ok ((λ k, if k <=? profile04.max_delta_counter_ cfg then E2E_OK else E2E_ERROR)
          <$> seqZ k (Z.of_nat (length bufs))).
Proof.
  intros Hf Hi Hid. revert k cs cr.
  induction Hf as [|buf bufs Hb _ IH]; intros k cs cr Hk Hn Hcs Hcr; [done|].
  cbn [length] in Hn. rewrite Nat2Z.inj_succ in Hn.
  assert (profile04.get_counter inst cs = k) as Ek
    by (unfold profile04.get_counter, counters.get_counter; by rewrite Hcs).
  rewrite p04_step; [|done..|rewrite Ek; wrap_bounds; lia].
  rewrite Ek. unfold profile04.verify_counter, counters.verify_counter. rewrite Hcr.
  unfold counters.delta. destruct (Z.ltb_spec 0 k); [|lia].
  rewrite Z.sub_0_r, wrap_small by (wrap_bounds; lia). cbn [fst snd].
  destruct bufs as [|b2 bufs'].
  { cbn [length p04_session mbind result_bind]. by rewrite seqZ_cons by lia. }
  rewrite (IH (k + 1)); [|lia|lia| |done].
  - cbn [mbind result_bind]. rewrite (seqZ_cons k) by (cbn [length]; lia). 
    cbn [fmap list_fmap]. do 3 f_equal; cbn [length]; f_equal; lia.
  - unfold profile04.increment_counter, counters.increment_counter. rewrite Hcs.
    rewrite lookup_insert_eq, wrap_small; [done|]. cbn [length] in Hn. wrap_bounds; lia.
Qed.

(** A loss free profile 4 session, both sides new: the first buffer is
    accepted, and the [k]-th after it is accepted exactly while [k] is at most
    [max_delta_counter], because the receiver measures every counter against the
    first one it saw and never moves on.  With the default limit of 65535 a
    whole counter cycle passes; with the limit 1 the third buffer is already
    refused although nothing was lost. *)
Theorem e2e_p04_session_status (h1 h2 : endianess_e) (cfg : profile04.profile_config) (inst : Z)
    (bufs : list bytes)
    (Hb : Forall (p04_fits cfg) bufs) (Hi : 0 ≤ inst ≤ 255) (Hid : is_u32 (profile04.data_id_ cfg))
    (Hd : 0 ≤ profile04.max_delta_counter_ cfg) (Hn : Z.of_nat (length bufs) ≤ 65536) :
  p04_session h1 h2 cfg inst ∅ ∅ bufs
  = Ok ((λ k, if k <=? profile04.max_delta_counter_ cfg then E2E_OK else E2E_ERROR)
          <$> seqZ 0 (Z.of_nat (length bufs))).
Proof.
  destruct Hb as [|buf bufs Hb Hbs]; [done|]. cbn [length] in Hn.
  rewrite p04_step by done. unfold profile04.verify_counter, counters.verify_counter,
    profile04.get_counter, counters.get_counter, profile04.increment_counter, counters.increment_counter.
  rewrite lookup_empty. cbn [default fst snd].
  rewrite (p04_later _ _ _ _ _ 1) by first [done|lia|by rewrite lookup_insert_eq].
  cbn [mbind result_bind]. rewrite (seqZ_cons 0) by (cbn [length]; lia).
  cbn [fmap list_fmap]. do 3 f_equal. cbn [length]. f_equal. lia.
Qed.

Lemma e2e_p04_session_status_witness :
  p04_session be le p04_example 1 ∅ ∅ (replicate 5 (replicate 16 7))
  = Ok [E2E_OK; E2E_OK; E2E_OK; E2E_ERROR; E2E_ERROR].
Proof.
  rewrite (e2e_p04_session_status be le p04_example 1 (replicate 5 (replicate 16 7))).
  - vm_compute. reflexivity.
  - apply Forall_replicate. split_and!; by_eval.
  - lia.
  - by_eval.
  - by_eval.
  - by_eval.
Defined.

(** ** Profile 5 *)

Section profile05_facts.
Import profile05.
Context (cfg : profile_config) (inst : Z).

Definition data_id_05 : bytes := [Z.land (data_id_ cfg) 0xFF; Z.land (Z.shiftr (data_id_ cfg) 8) 0xFF].

Definition crc_05_of (buf : bytes) : Z :=
  e2e_crc.calculate_profile_05 (around (offset_ cfg) 2 buf ++ data_id_05) 0xFFFF.

Lemma data_id_05_ok : bytes_ok data_id_05.
Proof.
  change 0xFF with (Z.ones 8). unfold data_id_05. change 0xFF with (Z.ones 8).
  rewrite !Z.land_ones by lia. repeat constructor; word.
Qed.

Lemma crc_05_of_width buf : bytes_ok buf → is_u16 (crc_05_of buf).
Proof.
  intros. apply (crc_width (w := 16)); [|done].
  apply Forall_app_2; [by apply around_bytes_ok|apply data_id_05_ok].
Qed.

Lemma compute_crc_05 buf :
  (offset_ cfg + 2 ≤ length buf)%nat → compute_crc cfg buf = Ok (crc_05_of buf).
Proof.
  intros Hl. unfold compute_crc, crc_05_of.
  pose proof (split_crc (w := 16) (calc := e2e_crc.calculate_profile_05) (offset_ cfg) 2 buf 0xFFFF Hl) as E.
  rewrite (rd_ok buf 0) in E |- * by lia. cbn [mbind result_bind] in E |- *.
  rewrite E. cbn [mbind result_bind]. by rewrite (crc_app (w := 16) (around _ _ _)).
Qed.

Lemma check_05 host c buf :
  bytes_ok buf → (offset_ cfg + 3 ≤ length buf)%nat → is_buffer_length_valid cfg buf = true → inst ≤ 255 →
  check host cfg inst c buf =
    if be_val (field (offset_ cfg) 2 buf) =? crc_05_of buf then
      let r := verify_counter cfg inst (be_val (field (offset_ cfg + 2) 1 buf)) c in
      Ok (r.2, if (r.1 : bool) then E2E_OK else E2E_ERROR)
    else Ok (c, E2E_WRONG_CRC).
Proof.
  intros Hb Hl Hv Hi. unfold check, MAX_INSTANCE, read_8, read_16.
  destruct (Z.ltb_spec 255 inst); [lia|]. rewrite Hv.
  destruct (rd1_field buf (offset_ cfg + 2)) as (x & -> & ->); [lia|].
  rewrite compute_crc_05 by lia. rewrite rd_field by lia. cbn [mbind result_bind].
  unfold bithelper.read_uint16_be. rewrite !read_be_field by (done || lia). rewrite Nat.add_0_r.
  destruct (_ =? crc_05_of _); cbn [negb]; [|done].
  replace (be_val [x]) with x by (unfold be_val; cbn; lia).
  by destruct (verify_counter _ _ _ _).
Qed.

Lemma protect_05 host c buf :
  bytes_ok buf → (offset_ cfg + 3 ≤ length buf)%nat → is_buffer_length_valid cfg buf = true → inst ≤ 255 →
  is_u8 (get_counter inst c) →
  ∃ buf', protect host cfg inst c buf = Ok (increment_counter inst c, buf')
    ∧ length buf' = length buf ∧ bytes_ok buf'
    ∧ take (offset_ cfg) buf' = take (offset_ cfg) buf
    ∧ drop (offset_ cfg + 3) buf' = drop (offset_ cfg + 3) buf
    ∧ field (offset_ cfg + 2) 1 buf' = [get_counter inst c]
    ∧ field (offset_ cfg) 2 buf' = be_bytes 2 (crc_05_of buf').
Proof.
  intros Hb Hl Hv Hi Hc. unfold protect, MAX_INSTANCE, write_counter.
  destruct (Z.ltb_spec 255 inst); [lia|]. rewrite Hv, wr1_wr.
  unfold bithelper.write_uint16_be.
  write_block b1 E1. rewrite compute_crc_05 by lia. cbn [mbind result_bind]. write_block b2 E2.
  exists b2. split; [done|]. split; [lia|].
  split; [eapply wr_bytes_ok; [done|eapply wr_bytes_ok; [done..|]|apply be_bytes_ok]; by constructor|].
  assert (crc_05_of b2 = crc_05_of b1) as ->
    by (unfold crc_05_of; do 2 f_equal; eapply around_wr; [done|apply be_bytes_length]).
  split_and!; written.
Qed.
End profile05_facts.

(** Profile 5 end to end, between hosts of any byte order: with room for
    the three byte header, [protect] changes nothing outside the header and
    [check] accepts the result exactly when the receiver's counter test does;
    and whatever passes the checksum is refused with [E2E_WRONG_CRC] once any
    one byte of it is changed. *)
Theorem e2e_p05_roundtrip (h1 h2 : endianess_e) (cfg : profile05.profile_config)
    (inst : Z) (cs cr : gmap Z Z) (buf : bytes)
    (Hb : bytes_ok buf) (Hi : 0 ≤ inst ≤ 255)
    (Hl : (profile05.offset_ cfg + 3 ≤ length buf)%nat)
    (Hv : profile05.is_buffer_length_valid cfg buf = true)
    (Hc : is_u8 (profile05.get_counter inst cs)) :
  ∃ buf', profile05.protect h1 cfg inst cs buf = Ok (profile05.increment_counter inst cs, buf')
    ∧ length buf' = length buf
    ∧ take (profile05.offset_ cfg) buf' = take (profile05.offset_ cfg) buf
    ∧ drop (profile05.offset_ cfg + 3) buf' = drop (profile05.offset_ cfg + 3) buf
    ∧ (let r := profile05.verify_counter cfg inst (profile05.get_counter inst cs) cr in
       profile05.check h2 cfg inst cr buf' = Ok (r.2, if (r.1 : bool) then E2E_OK else E2E_ERROR))
    ∧ ∀ i y, (i < length buf)%nat → is_u8 y → buf' !! i ≠ Some y →
        profile05.check h2 cfg inst cr (<[i := y]> buf') = Ok (cr, E2E_WRONG_CRC).
Proof.
  destruct (protect_05 cfg inst h1 cs buf) as (buf' & E & L & B & T & D & F2 & F0); [done..|lia|done|].
  assert (∀ b, length b = length buf → profile05.is_buffer_length_valid cfg b = true) as Hv'
    by (intros b Hlb; revert Hv; unfold profile05.is_buffer_length_valid; by rewrite Hlb).
  assert (be_val (field (profile05.offset_ cfg) 2 buf') = crc_05_of cfg buf') as Ecrc
    by (rewrite F0; by apply be_val_width, crc_05_of_width).
  exists buf'. split_and!; [done..| |].
  - rewrite check_05; [|done|lia|by apply Hv'|lia].
    rewrite Ecrc, F2, Z.eqb_refl.
    replace (be_val [_]) with (profile05.get_counter inst cs) by (unfold be_val; cbn; lia). done.
  - intros i y Hin Hy Hne.
    rewrite check_05; [|by apply Forall_insert|rewrite length_insert; lia|apply Hv'; by rewrite length_insert|lia].
    destruct (Z.eqb_spec (be_val (field (profile05.offset_ cfg) 2 (<[i:=y]> buf')))
                (crc_05_of cfg (<[i:=y]> buf'))) as [E'|]; [|done].
    exfalso. revert E'.
    apply (field_crc_detects (w := 16) (calc := e2e_crc.calculate_profile_05) id []);
      first [done|lia|by intros ???|apply data_id_05_ok|by constructor].
Qed.

Definition p05_example : profile05.profile_config :=
  {| profile05.data_id_ := 0x1234; profile05.data_length_ := 64; profile05.offset_ := 0;
     profile05.max_delta_counter_ := 0xFFFF |}.

Lemma e2e_p05_roundtrip_witness :
  ∃ buf', profile05.protect le p05_example 3 ∅ (replicate 10 1) = Ok ({[3 := 1]}, buf')
    ∧ profile05.check be p05_example 3 ∅ buf' = Ok ({[3 := 0]}, E2E_OK).
Proof.
  destruct (e2e_p05_roundtrip le be p05_example 3 ∅ ∅ (replicate 10 1))
    as (buf' & E & _ & _ & _ & C & _).
  - by_eval.
  - lia.
  - by_eval.
  - reflexivity.
  - by_eval.
  - exists buf'. split; [exact E|exact C].
Defined.

(** ** Profile 7 *)

Section profile07_facts.
Import profile07.
Context (cfg : profile_config) (inst : Z).

Definition crc_07_of (buf : bytes) : Z :=
  e2e_crc.calculate_profile_07 (around (offset_ cfg) 8 buf) 0.

Lemma crc_07_of_width buf : bytes_ok buf → is_u64 (crc_07_of buf).
Proof. intros. apply (crc_width (w := 64)); [by apply around_bytes_ok|done]. Qed.

Lemma compute_crc_07 buf :
  (offset_ cfg + 8 ≤ length buf)%nat → compute_crc cfg buf = Ok (crc_07_of buf).
Proof. intros. apply (split_crc (w := 64)). lia. Qed.

Lemma check_07 host c buf :
  bytes_ok buf → (offset_ cfg + 20 ≤ length buf)%nat → verify_inputs cfg buf = true →
  check host cfg inst c buf =
    if be_val (field (offset_ cfg) 8 buf) =? crc_07_of buf then
      if (be_val (field (offset_ cfg + 16) 4 buf) =? data_id_ cfg)
         && (be_val (field (offset_ cfg + 8) 4 buf) =? Z.of_nat (length buf))
      then let r := verify_counter cfg inst (be_val (field (offset_ cfg + 12) 4 buf)) c in
           Ok (r.2, if (r.1 : bool) then E2E_OK else E2E_ERROR)
      else Ok (c, E2E_ERROR)
    else Ok (c, E2E_WRONG_CRC).
Proof.
  intros Hb Hl Hv. unfold check, read_32, read_64, PROFILE_07_SIZE_OFFSET, PROFILE_07_COUNTER_OFFSET,
    PROFILE_07_DATAID_OFFSET, PROFILE_07_CRC_OFFSET. rewrite Hv.
  rewrite compute_crc_07 by lia. rewrite !rd_field by lia. cbn [mbind result_bind].
  unfold bithelper.read_uint64_be, bithelper.read_uint32_be. rewrite !read_be_field by (done || lia).
  rewrite !Nat.add_0_r.
  destruct (_ =? crc_07_of _); cbn [negb]; [|done].
  destruct (_ && _); [|done]. by destruct (verify_counter _ _ _ _).
Qed.

Lemma protect_07 host c buf :
  bytes_ok buf → (offset_ cfg + 20 ≤ length buf)%nat → verify_inputs cfg buf = true →
  ∃ buf', protect host cfg inst c buf = Ok (increment_counter inst c, buf')
    ∧ length buf' = length buf ∧ bytes_ok buf'
    ∧ take (offset_ cfg) buf' = take (offset_ cfg) buf
    ∧ drop (offset_ cfg + 20) buf' = drop (offset_ cfg + 20) buf
    ∧ field (offset_ cfg + 8) 4 buf' = be_bytes 4 (u16 (Z.of_nat (length buf)))
    ∧ field (offset_ cfg + 12) 4 buf' = be_bytes 4 (get_counter inst c)
    ∧ field (offset_ cfg + 16) 4 buf' = be_bytes 4 (data_id_ cfg)
    ∧ field (offset_ cfg) 8 buf' = be_bytes 8 (crc_07_of buf').
Proof.
  intros Hb Hl Hv. unfold protect, PROFILE_07_SIZE_OFFSET, PROFILE_07_COUNTER_OFFSET,
    PROFILE_07_DATAID_OFFSET, PROFILE_07_CRC_OFFSET. rewrite Hv.
  unfold bithelper.write_uint64_be, bithelper.write_uint32_be.
  write_block b1 E1. write_block b2 E2. write_block b3 E3.
  rewrite compute_crc_07 by lia. cbn [mbind result_bind]. rewrite Nat.add_0_r. write_block b4 E4.
  exists b4. split; [done|]. split; [lia|].
  split; [repeat (eapply wr_bytes_ok; [eassumption| |apply be_bytes_ok]); done|].
  assert (crc_07_of b4 = crc_07_of b3) as ->
    by (unfold crc_07_of; f_equal; eapply around_wr; [done|apply be_bytes_length]).
  split_and!; written.
Qed.
End profile07_facts.

(** Profile 7 end to end, between hosts of any byte order: with room for
    the twenty byte header [protect] changes nothing outside it.  A buffer of
    fewer than 65536 bytes is then accepted exactly when the receiver's counter
    test accepts it; a longer one is always refused with [E2E_ERROR], because
    the protector writes the length through [static_cast<uint16_t>].  One
    changed byte is always reported as [E2E_WRONG_CRC]. *)
Theorem e2e_p07_roundtrip (h1 h2 : endianess_e) (cfg : profile07.profile_config)
    (inst : Z) (cs cr : gmap Z Z) (buf : bytes)
    (Hb : bytes_ok buf) (Hid : is_u32 (profile07.data_id_ cfg))
    (Hl : (profile07.offset_ cfg + 20 ≤ length buf)%nat)
    (Hv : profile07.verify_inputs cfg buf = true)
    (Hc : is_u32 (profile07.get_counter inst cs)) :
  ∃ buf', profile07.protect h1 cfg inst cs buf = Ok (profile07.increment_counter inst cs, buf')
    ∧ length buf' = length buf
    ∧ take (profile07.offset_ cfg) buf' = take (profile07.offset_ cfg) buf
    ∧ drop (profile07.offset_ cfg + 20) buf' = drop (profile07.offset_ cfg + 20) buf
    ∧ (let r := profile07.verify_counter cfg inst (profile07.get_counter inst cs) cr in
       profile07.check h2 cfg inst cr buf' =
         if Z.of_nat (length buf) <? 65536
         then Ok (r.2, if (r.1 : bool) then E2E_OK else E2E_ERROR)
         else Ok (cr, E2E_ERROR))
    ∧ ∀ i y, (i < length buf)%nat → is_u8 y → buf' !! i ≠ Some y →
        profile07.check h2 cfg inst cr (<[i := y]> buf') = Ok (cr, E2E_WRONG_CRC).
Proof.
  destruct (protect_07 cfg inst h1 cs buf) as (buf' & E & L & B & T & D & F8 & F12 & F16 & F0); [done..|].
  assert (∀ b, length b = length buf → profile07.verify_inputs cfg b = true) as Hv'
    by (intros b Hlb; revert Hv; unfold profile07.verify_inputs; by rewrite Hlb).
  assert (be_val (field (profile07.offset_ cfg) 8 buf') = crc_07_of cfg buf') as Ecrc
    by (rewrite F0; by apply be_val_width, crc_07_of_width).
  exists buf'. split_and!; [done..| |].
  - rewrite check_07; [|done|lia|by apply Hv'].
    rewrite Ecrc, F8, F12, F16, !be_val_width, L, !Z.eqb_refl by first [done|word].
    destruct (Z.ltb_spec (Z.of_nat (length buf)) 65536).
    + rewrite wrap_small by (wrap_bounds; lia). by rewrite Z.eqb_refl.
    + destruct (Z.eqb_spec (u16 (Z.of_nat (length buf))) (Z.of_nat (length buf))); [|done].
      exfalso. revert e. word.
  - intros i y Hin Hy Hne.
    rewrite check_07; [|by apply Forall_insert|rewrite length_insert; lia|apply Hv'; by rewrite length_insert].
    destruct (Z.eqb_spec (be_val (field (profile07.offset_ cfg) 8 (<[i:=y]> buf')))
                (crc_07_of cfg (<[i:=y]> buf'))) as [E'|]; [|done].
    exfalso. revert E'.
    apply (field_crc_detects_plain (w := 64) (calc := e2e_crc.calculate_profile_07)); done || lia.
Qed.

Definition p07_example : profile07.profile_config :=
  {| profile07.data_id_ := 0x0a0b0c0d; profile07.offset_ := 2; profile07.min_data_length_ := 22;
     profile07.max_data_length_ := 100; profile07.max_delta_counter_ := 5 |}.

Lemma e2e_p07_roundtrip_witness :
  ∃ buf', profile07.protect le p07_example 300 ∅ (replicate 24 9) = Ok ({[300 := 1]}, buf')
    ∧ profile07.check be p07_example 300 ∅ buf' = Ok ({[300 := 0]}, E2E_OK).
Proof.
  destruct (e2e_p07_roundtrip le be p07_example 300 ∅ ∅ (replicate 24 9))
    as (buf' & E & _ & _ & _ & C & _).
  - by_eval.
  - by_eval.
  - by_eval.
  - reflexivity.
  - by_eval.
  - exists buf'. split; [exact E|exact C].
Defined.

(** ** The custom profile *)

Lemma four_bytes_val b0 b1 b2 b3 :
  is_u8 b0 → is_u8 b1 → is_u8 b2 → is_u8 b3 →
  Z.lor (Z.lor (Z.lor (u32 (Z.shiftl b0 24)) (u32 (Z.shiftl b1 16))) (u32 (Z.shiftl b2 8))) b3
  = be_val [b0; b1; b2; b3].
Proof.
  intros H0 H1 H2 H3.
  assert (u32 (Z.shiftl b0 24) = Z.shiftl (Z.shiftl (Z.shiftl b0 8) 8) 8) as ->
    by (rewrite !Z.shiftl_mul_pow2 by lia; rewrite wrap_small; [|wrap_bounds]; lia).
  assert (u32 (Z.shiftl b1 16) = Z.shiftl (Z.shiftl b1 8) 8) as ->
    by (rewrite !Z.shiftl_mul_pow2 by lia; rewrite wrap_small; [|wrap_bounds]; lia).
  assert (u32 (Z.shiftl b2 8) = Z.shiftl b2 8) as ->
    by (rewrite !Z.shiftl_mul_pow2 by lia; rewrite wrap_small; [|wrap_bounds]; lia).
  rewrite <- !Z.shiftl_lor. rewrite !lor_shiftl_add by (done || lia).
  unfold be_val. cbn. lia.
Qed.

Lemma four_bytes_of v : [u8 (Z.shiftr v 24); u8 (Z.shiftr v 16); u8 (Z.shiftr v 8); u8 v] = be_bytes 4 v.
Proof.
  unfold be_bytes. cbn [le_bytes]. rewrite !Z.shiftr_div_pow2 by lia.
  cbn [reverse rev_append]. unfold reverse. cbn [rev_append]. unfold wrap.
  rewrite !Z.div_div by lia. reflexivity.
Qed.

Section profile_custom_facts.
Import profile_custom.
Context (cfg : profile_config).

Definition crc_custom_of (buf : bytes) : Z :=
  crc_custom_from (drop (crc_offset_ cfg + 4) buf) 0.

Lemma check_custom buf :
  bytes_ok buf → (crc_offset_ cfg + 4 ≤ length buf)%nat →
  check cfg buf = Ok (if be_val (field (crc_offset_ cfg) 4 buf) =? crc_custom_of buf
                      then E2E_OK else E2E_WRONG_CRC).
Proof.
  intros Hb Hl. unfold check, is_buffer_length_valid, read_crc, compute_crc.
  rewrite bool_decide_true by done.
  destruct (lookup_lt_is_Some_2 buf (crc_offset_ cfg)) as [b0 E0]; [lia|].
  destruct (lookup_lt_is_Some_2 buf (crc_offset_ cfg + 1)) as [b1 E1]; [lia|].
  destruct (lookup_lt_is_Some_2 buf (crc_offset_ cfg + 2)) as [b2 E2]; [lia|].
  destruct (lookup_lt_is_Some_2 buf (crc_offset_ cfg + 3)) as [b3 E3]; [lia|].
  unfold rd1. rewrite E0, E1, E2, E3, rd_ok by lia. cbn [mbind result_bind].
  rewrite four_bytes_val by (eapply Forall_lookup_1; eassumption).
  assert (field (crc_offset_ cfg) 4 buf = [b0; b1; b2; b3]) as ->.
  { unfold field. rewrite (drop_S _ _ _ E0).
    replace (S (crc_offset_ cfg)) with (crc_offset_ cfg + 1)%nat by lia. rewrite (drop_S _ _ _ E1).
    replace (S (crc_offset_ cfg + 1)) with (crc_offset_ cfg + 2)%nat by lia. rewrite (drop_S _ _ _ E2).
    replace (S (crc_offset_ cfg + 2)) with (crc_offset_ cfg + 3)%nat by lia. rewrite (drop_S _ _ _ E3).
    done. }
  rewrite take_ge by len. rewrite calculate_profile_custom_from. unfold crc_custom_of.
  by destruct (_ =? _).
Qed.

Lemma write_crc_custom v buf :
  (crc_offset_ cfg + 4 ≤ length buf)%nat → write_crc cfg v buf = wr buf (crc_offset_ cfg) (be_bytes 4 v).
Proof.
  intros Hl. rewrite <- four_bytes_of. unfold write_crc.
  rewrite wr_cons by (cbn [length]; lia). rewrite wr1_wr.
  destruct (wr_some buf (crc_offset_ cfg) [u8 (Z.shiftr v 24)]) as (b1 & -> & L1); [cbn [length]; lia|].
  cbn [mbind result_bind]. rewrite wr_cons by (cbn [length]; lia). rewrite wr1_wr.
  destruct (wr_some b1 (crc_offset_ cfg + 1) [u8 (Z.shiftr v 16)]) as (b2 & -> & L2); [cbn [length]; lia|].
  cbn [mbind result_bind]. rewrite wr_cons by (cbn [length]; lia).
  rewrite <- !Nat.add_assoc. cbn [Nat.add].
  destruct (wr1 b2 (crc_offset_ cfg + 2) (u8 (Z.shiftr v 8))) as [b3| | |]; [|done..].
  cbn [mbind result_bind]. by rewrite wr1_wr.
Qed.
End profile_custom_facts.

(** The custom profile: a protected buffer differs from the original only
    in the four checksum bytes and is accepted; afterwards a change of one byte
    from the checksum on is reported as [E2E_WRONG_CRC], and a change of a byte
    before the checksum, which it does not cover, goes unnoticed. *)
Theorem e2e_custom_roundtrip (cfg : profile_custom.profile_config) (buf : bytes)
    (Hb : bytes_ok buf) (Hl : (profile_custom.crc_offset_ cfg + 4 ≤ length buf)%nat) :
  ∃ buf', profile_custom.protect cfg buf = Ok buf'
    ∧ length buf' = length buf
    ∧ around (profile_custom.crc_offset_ cfg) 4 buf' = around (profile_custom.crc_offset_ cfg) 4 buf
    ∧ profile_custom.check cfg buf' = Ok E2E_OK
    ∧ ∀ i y, (i < length buf)%nat → is_u8 y → buf' !! i ≠ Some y →
        profile_custom.check cfg (<[i := y]> buf')
        = Ok (if decide (i < profile_custom.crc_offset_ cfg)%nat then E2E_OK else E2E_WRONG_CRC).
Proof.
  set (o := profile_custom.crc_offset_ cfg) in *.
  unfold profile_custom.protect, profile_custom.is_buffer_length_valid, profile_custom.compute_crc.
  fold o. rewrite bool_decide_true, rd_ok by lia. cbn [mbind result_bind].
  rewrite take_ge by len. rewrite calculate_profile_custom_from, write_crc_custom by done.
  destruct (wr_some buf o (be_bytes 4 (crc_custom_of cfg buf))) as (buf' & E & L);
    [rewrite be_bytes_length; lia|].
  assert (bytes_ok buf') as B by (eapply wr_bytes_ok; [done..|apply be_bytes_ok]).
  assert (crc_custom_of cfg buf' = crc_custom_of cfg buf) as Ecrc
    by (unfold crc_custom_of; fold o; f_equal; eapply wr_drop_after; [done|rewrite be_bytes_length; lia]).
  assert (be_val (field o 4 buf') = crc_custom_of cfg buf') as Ef.
  { rewrite (field_wr _ _ _ _ _ E) by apply be_bytes_length. rewrite Ecrc. apply be_val_width.
    unfold crc_custom_of. apply (crc_width (w := 32)); [by apply Forall_drop|done]. }
  exists buf'. split_and!; [done|done| | |].
  - eapply around_wr; [done|apply be_bytes_length].
  - rewrite check_custom by (done || rewrite L; done). fold o. by rewrite Ef, Z.eqb_refl.
  - intros i y Hi Hy Hne.
    rewrite check_custom by (by apply Forall_insert || rewrite length_insert, L; done). fold o.
    assert (o + 4 ≤ length buf')%nat by lia. assert (i < length buf')%nat by lia.
    case_decide.
    + rewrite field_insert, decide_False by lia. unfold crc_custom_of in *. fold o in Ef |- *.
      by rewrite drop_insert_lt, Ef, Z.eqb_refl by lia.
    + destruct (Z.eqb_spec (be_val (field o 4 (<[i:=y]> buf'))) (crc_custom_of cfg (<[i:=y]> buf'))) as [E'|];
        [|done]. exfalso. 
      pose proof (field_crc_detects_plain (w := 32) (calc := crc_custom_from) 0 4 (drop o buf') (i - o) y 0) as X.
      assert (∀ b : bytes, field 0 4 (drop o b) = field o 4 b) as X1 by (intros; unfold field; by rewrite drop_0).
      assert (∀ b : bytes, around 0 4 (drop o b) = drop (o + 4) b) as X2
        by (intros; unfold around; by rewrite take_0, drop_drop).
      rewrite <- drop_insert_ge, !X1, !X2 in X by lia. revert E'.
      apply X; [by apply Forall_drop|done|done|len|len| |done].
      rewrite lookup_drop. by replace (o + (i - o))%nat with i by lia.
Qed.

Lemma e2e_custom_roundtrip_witness :
  ∃ buf', profile_custom.protect {| profile_custom.crc_offset_ := 2 |} [1; 2; 3; 4; 5; 6; 7; 8] = Ok buf'
    ∧ profile_custom.check {| profile_custom.crc_offset_ := 2 |} (<[0%nat := 9]> buf') = Ok E2E_OK
    ∧ profile_custom.check {| profile_custom.crc_offset_ := 2 |} (<[7%nat := 9]> buf') = Ok E2E_WRONG_CRC.
Proof.
  destruct (e2e_custom_roundtrip {| profile_custom.crc_offset_ := 2 |} [1; 2; 3; 4; 5; 6; 7; 8])
    as (buf' & E & _ & _ & _ & C).
  - by_eval.
  - by_eval.
  - exists buf'. split; [exact E|]. vm_compute in E. injection E as <-.
    split; [apply (C 0%nat 9)|apply (C 7%nat 9)]; by_eval.
Defined.

(** ** Profile 1 *)

Section profile01_facts.
Import profile01.
Context (cfg : profile_config).

(** The bytes of the data identifier that enter the checksum. *)
Definition id_bytes_01 : bytes :=
  match data_id_mode_ cfg with
  | E2E_P01_DATAID_BOTH => [u8 (data_id_ cfg); u8 (Z.shiftr (data_id_ cfg) 8)]
  | E2E_P01_DATAID_LOW => [u8 (data_id_ cfg)]
  | E2E_P01_DATAID_NIBBLE => [u8 (data_id_ cfg); 0]
  | E2E_P01_DATAID_ALT | E2E_P01_DATAID_other _ => []
  end.

(** Whether the bytes behind the checksum enter it. *)
Definition tail_covered_01 : bool := Z.of_nat (crc_offset_ cfg) <? data_length_ cfg / 8 - 1.

Definition crc_01_of (buf : bytes) : Z :=
  Z.lxor
    (e2e_crc.calculate_profile_01
       (id_bytes_01 ++ take (crc_offset_ cfg) buf
          ++ (if tail_covered_01 then drop (crc_offset_ cfg + 1) buf else [])) 0xFF) 0xFF.

Lemma id_bytes_01_ok : bytes_ok id_bytes_01.
Proof. unfold id_bytes_01. destruct (data_id_mode_ cfg); repeat constructor; done || word. Qed.

Lemma crc_01_of_width buf : bytes_ok buf → is_u8 (crc_01_of buf).
Proof.
  intros. apply lxor_width; [lia| |done]. apply (crc_width (w := 8)); [|done].
  apply Forall_app_2; [apply id_bytes_01_ok|]. apply Forall_app_2; [by apply Forall_take|].
  destruct tail_covered_01; [by apply Forall_drop|constructor].
Qed.

Lemma compute_crc_01 buf :
  (crc_offset_ cfg < length buf)%nat → compute_crc cfg buf = Ok (crc_01_of buf).
Proof.
  intros Hl. unfold compute_crc, crc_01_of.
  set (crc0 := match data_id_mode_ cfg with E2E_P01_DATAID_BOTH => _ | _ => _ end).
  assert (crc0 = e2e_crc.calculate_profile_01 id_bytes_01 0xFF) as ->.
  { unfold crc0, id_bytes_01. cbn [take drop].
    destruct (data_id_mode_ cfg); rewrite <- ?(crc_app (w := 8)), ?(crc_nil (w := 8)); done. }
  rewrite !(crc_app (w := 8)). fold tail_covered_01.
  rewrite (rd_ok buf 0), (rd_ok buf (_ + 1)) by lia. rewrite ?drop_0, (take_ge (drop _ _)) by len.
  cbn [mbind result_bind].
  destruct (decide (1 ≤ crc_offset_ cfg)%nat) as [|Hz]; cbn [mbind result_bind].
  - destruct tail_covered_01; cbn [mbind result_bind]; by rewrite ?(crc_nil (w := 8)).
  - replace (crc_offset_ cfg) with 0%nat by lia. rewrite take_0, (crc_nil (w := 8)).
    destruct tail_covered_01; cbn [mbind result_bind]; by rewrite ?(crc_nil (w := 8)).
Qed.

Lemma check_01 buf :
  (crc_offset_ cfg < length buf)%nat → is_buffer_length_valid cfg buf = true →
  check cfg buf = Ok (if be_val (field (crc_offset_ cfg) 1 buf) =? crc_01_of buf
                      then E2E_OK else E2E_WRONG_CRC).
Proof.
  intros Hl Hv. unfold check. rewrite Hv, compute_crc_01 by done.
  destruct (rd1_field buf (crc_offset_ cfg)) as (x & -> & ->); [done|]. cbn [mbind result_bind].
  replace (be_val [x]) with x by (unfold be_val; cbn; lia). by destruct (x =? _).
Qed.

(** The three writes before the checksum replace one byte each. *)
Lemma write_counter_01 counter buf :
  (counter_offset_ cfg / 8 < length buf)%nat →
  ∃ b, is_u8 b ∧ write_counter cfg counter buf = Ok (<[(counter_offset_ cfg / 8)%nat := b]> buf).
Proof.
  intros Hl. unfold write_counter, rd1, wr1. destruct (lookup_lt_is_Some_2 _ _ Hl) as [x ->].
  cbn [mbind result_bind]. rewrite !(decide_True (P := (_ < _)%nat)) by done.
  case_decide; eexists; (split; [|reflexivity]); apply wrap_range; lia.
Qed.

Lemma write_data_id_01 buf :
  (data_id_nibble_offset_ cfg / 8 < length buf)%nat →
  write_data_id cfg buf = Ok buf
  ∨ data_id_mode_ cfg = E2E_P01_DATAID_NIBBLE
    ∧ ∃ b, is_u8 b ∧ write_data_id cfg buf = Ok (<[(data_id_nibble_offset_ cfg / 8)%nat := b]> buf).
Proof.
  intros Hl. unfold write_data_id. destruct (data_id_mode_ cfg); auto. right. split; [done|].
  unfold rd1, wr1. destruct (lookup_lt_is_Some_2 _ _ Hl) as [x ->].
  cbn [mbind result_bind]. rewrite !(decide_True (P := (_ < _)%nat)) by done.
  case_decide; eexists; (split; [|reflexivity]); apply wrap_range; lia.
Qed.

Lemma valid_01_length buf buf' :
  length buf' = length buf → is_buffer_length_valid cfg buf' = is_buffer_length_valid cfg buf.
Proof. intros E. unfold is_buffer_length_valid. by rewrite E. Qed.

(** The part of a buffer that the checksum and its field lie in. *)
Definition covered_01 (buf : bytes) : bytes :=
  if tail_covered_01 then buf else take (crc_offset_ cfg + 1) buf.

Lemma crc_01_of_covered buf :
  (crc_offset_ cfg < length buf)%nat →
  crc_01_of buf = Z.lxor (e2e_crc.calculate_profile_01
    (id_bytes_01 ++ around (crc_offset_ cfg) 1 (covered_01 buf)) 0xFF) 0xFF
  ∧ field (crc_offset_ cfg) 1 buf = field (crc_offset_ cfg) 1 (covered_01 buf).
Proof.
  intros Hl. unfold crc_01_of, covered_01, around, field. destruct tail_covered_01; [done|].
  rewrite take_take, Nat.min_l, (drop_ge (take _ _)) by len. split; [done|].
  by rewrite !take_drop_commute, take_take, Nat.min_id.
Qed.

Lemma crc_01_change buf i y :
  bytes_ok buf → (crc_offset_ cfg < length buf)%nat → (i < length buf)%nat → is_u8 y → buf !! i ≠ Some y →
  be_val (field (crc_offset_ cfg) 1 buf) = crc_01_of buf →
  (be_val (field (crc_offset_ cfg) 1 (<[i:=y]> buf)) =? crc_01_of (<[i:=y]> buf))
  = negb (tail_covered_01 || bool_decide (i ≤ crc_offset_ cfg)%nat).
Proof.
  intros Hb Hl Hi Hy Hne. destruct (crc_01_of_covered buf Hl) as [-> ->].
  destruct (crc_01_of_covered (<[i:=y]> buf)) as [-> ->]; [by rewrite length_insert|].
  intros E. destruct (tail_covered_01 || bool_decide _) eqn:Hcov; cbn [negb].
  - apply Z.eqb_neq.
    assert (covered_01 (<[i:=y]> buf) = <[i:=y]> (covered_01 buf)
      ∧ (crc_offset_ cfg + 1 ≤ length (covered_01 buf))%nat ∧ (i < length (covered_01 buf))%nat
      ∧ covered_01 buf !! i ≠ Some y ∧ bytes_ok (covered_01 buf)) as (-> & H1 & H2 & H3 & H4).
    { unfold covered_01 in *. destruct tail_covered_01; [split_and!; done || lia|].
      cbn [orb] in Hcov. apply bool_decide_eq_true in Hcov.
      rewrite take_insert_lt, lookup_take_lt by lia. split_and!; try done; [len..|by apply Forall_take]. }
    pose proof (field_crc_detects (w := 8) (calc := e2e_crc.calculate_profile_01) (λ z, Z.lxor z 0xFF)
      id_bytes_01 [] (crc_offset_ cfg) 1 (covered_01 buf) i y 0xFF) as X.
    rewrite !app_nil_r in X.
    apply X; first [done|apply id_bytes_01_ok|by constructor|intros ???; by eapply lxor_cancel_r].
  - apply Z.eqb_eq. apply orb_false_iff in Hcov as [Ht Hn%bool_decide_eq_false].
    assert (covered_01 (<[i:=y]> buf) = covered_01 buf) as ->; [|done].
    unfold covered_01. rewrite Ht. by rewrite take_insert_ge by lia.
Qed.
End profile01_facts.

(** Profile 1 end to end: when the three offsets lie inside the buffer,
    [protect] changes at most the bytes of the counter, of the identifier nibble
    (in nibble mode) and of the checksum, advances the counter modulo 15, and
    [check] accepts the result.  Afterwards one changed byte is reported as
    [E2E_WRONG_CRC], unless it lies behind a checksum that does not cover the
    tail (an offset of [data_length / 8 - 1] or more), where it is accepted. *)
Theorem e2e_p01_roundtrip (cfg : profile01.profile_config) (counter : Z) (buf : bytes)
    (Hb : bytes_ok buf) (Hv : profile01.is_buffer_length_valid cfg buf = true)
    (Hcrc : (profile01.crc_offset_ cfg < length buf)%nat)
    (Hcnt : (profile01.counter_offset_ cfg / 8 < length buf)%nat)
    (Hnib : (profile01.data_id_nibble_offset_ cfg / 8 < length buf)%nat) :
  ∃ buf', profile01.protect cfg counter buf = Ok (u8 ((counter + 1) mod 15), buf')
    ∧ length buf' = length buf
    ∧ (∀ j, j ≠ profile01.crc_offset_ cfg → j ≠ (profile01.counter_offset_ cfg / 8)%nat →
         (profile01.data_id_mode_ cfg = profile01.E2E_P01_DATAID_NIBBLE →
          j ≠ (profile01.data_id_nibble_offset_ cfg / 8)%nat) →
         buf' !! j = buf !! j)
    ∧ profile01.check cfg buf' = Ok E2E_OK
    ∧ ∀ i y, (i < length buf)%nat → is_u8 y → buf' !! i ≠ Some y →
        profile01.check cfg (<[i := y]> buf')
        = Ok (if tail_covered_01 cfg || bool_decide (i ≤ profile01.crc_offset_ cfg)%nat
              then E2E_WRONG_CRC else E2E_OK).
Proof.
  set (o := profile01.crc_offset_ cfg) in *.
  assert (∃ b2, (b ← profile01.write_counter cfg counter buf; profile01.write_data_id cfg b) = Ok b2
    ∧ length b2 = length buf ∧ bytes_ok b2
    ∧ ∀ j, j ≠ (profile01.counter_offset_ cfg / 8)%nat →
         (profile01.data_id_mode_ cfg = profile01.E2E_P01_DATAID_NIBBLE →
          j ≠ (profile01.data_id_nibble_offset_ cfg / 8)%nat) → b2 !! j = buf !! j) as (b2 & E & L & B & U).
  { destruct (write_counter_01 cfg counter buf Hcnt) as (x & Hx & ->). cbn [mbind result_bind].
    destruct (write_data_id_01 cfg (<[(profile01.counter_offset_ cfg / 8)%nat:=x]> buf)) as [->|(Em & z & Hz & ->)];
      [by rewrite length_insert|..]; eexists; (split; [reflexivity|]); rewrite ?length_insert;
      (split; [done|]); (split; [by repeat apply Forall_insert|]); intros j H1 H2;
      rewrite ?list_lookup_insert_ne by (congruence || (symmetry; auto)); done. }
  unfold profile01.protect. rewrite Hv.
  destruct (profile01.write_counter cfg counter buf) as [b1| | |]; [|done..]. cbn [mbind result_bind] in E |- *.
  rewrite E. cbn [mbind result_bind]. rewrite compute_crc_01 by (fold o; lia). cbn [mbind result_bind].
  unfold profile01.write_crc. fold o. rewrite wr1_wr.
  destruct (wr_some b2 o [crc_01_of cfg b2]) as (b3 & E3 & L3); [cbn [length]; lia|]. rewrite E3.
  cbn [mbind result_bind].
  assert (crc_01_of cfg b3 = crc_01_of cfg b2) as Ec.
  { unfold crc_01_of. fold o. by rewrite (wr_take_before _ _ _ _ _ E3), (wr_drop_after _ _ _ _ _ E3) by (cbn [length]; lia). }
  assert (bytes_ok b3) as B3.
  { eapply wr_bytes_ok; [done..|]. constructor; [by apply crc_01_of_width|constructor]. }
  assert (be_val (field o 1 b3) = crc_01_of cfg b3) as Ef
    by (rewrite (field_wr _ _ _ _ _ E3) by done; rewrite Ec; unfold be_val; cbn; lia).
  exists b3. split; [done|]. split; [lia|]. split; [|split].
  - intros j H1 H2 H3. rewrite (wr_lookup _ _ _ _ _ E3), decide_False by (cbn [length]; lia). auto.
  - rewrite check_01 by (fold o; first [lia|by rewrite (valid_01_length cfg buf) by lia]).
    fold o. by rewrite Ef, Z.eqb_refl.
  - intros i y Hi Hy Hne.
    rewrite check_01 by (fold o; first [rewrite length_insert; lia|rewrite (valid_01_length cfg buf); [done|rewrite length_insert; lia]]).
    rewrite crc_01_change by (fold o; done || lia). by destruct (_ || _).
Qed.

Definition p01_example : profile01.profile_config :=
  {| profile01.crc_offset_ := 0; profile01.data_id_ := 0x123;
     profile01.data_id_mode_ := profile01.E2E_P01_DATAID_NIBBLE; profile01.data_length_ := 56;
     profile01.counter_offset_ := 8; profile01.data_id_nibble_offset_ := 12 |}.

Lemma e2e_p01_roundtrip_witness :
  ∃ buf', profile01.protect p01_example 14 (replicate 8 0xFF) = Ok (0, buf')
    ∧ profile01.check p01_example buf' = Ok E2E_OK
    ∧ profile01.check p01_example (<[5%nat := 3]> buf') = Ok E2E_WRONG_CRC.
Proof.
  destruct (e2e_p01_roundtrip p01_example 14 (replicate 8 0xFF)) as (buf' & E & _ & _ & C & D).
  - by_eval.
  - reflexivity.
  - by_eval.
  - by_eval.
  - by_eval.
  - exists buf'. split; [exact E|]. split; [exact C|]. vm_compute in E. injection E as <-.
    apply (D 5%nat 3); by_eval.
Defined.

(** ** Buffers the length checks let through although they are too short *)

Lemma rd_oob buf off n : (length buf < off + n)%nat → rd buf off n = Ub oob_read.
Proof. intros. unfold rd. by rewrite decide_False by lia. Qed.

(** Runs a sequence of reads until one leaves the buffer. *)
Ltac read_until_oob :=
  repeat match goal with
  | |- Ub _ = Ub _ => reflexivity
  | |- context [rd ?b ?o ?n] =>
      let H := fresh in
      destruct (decide (o + n ≤ length b)%nat) as [H|H];
        [rewrite (rd_ok b o n H)|rewrite (rd_oob b o n) by lia]; cbn [mbind result_bind]
  end.

(** The length checks of profiles 1, 4 and 7 do not keep accesses inside
    the buffer.  Whenever the configured minimum admits a buffer shorter than
    the header behind the offset (the default minimum is 0), [check] of profile
    4 and 7 reads behind its end; a profile 1 checksum offset equal to the
    length passes the check and is read behind the end as well. *)
Theorem e2e_short_buffers (host : endianess_e) (inst : Z) (c : gmap Z Z) (buf : bytes)
    (Hi : inst ≤ 255) :
  (∀ cfg, profile04.verify_inputs cfg buf = true → (length buf < profile04.offset_ cfg + 12)%nat →
     profile04.check host cfg inst c buf = Ub oob_read)
  ∧ (∀ cfg, profile07.verify_inputs cfg buf = true → (length buf < profile07.offset_ cfg + 20)%nat →
     profile07.check host cfg inst c buf = Ub oob_read)
  ∧ (∀ cfg, profile01.is_buffer_length_valid cfg buf = true → profile01.crc_offset_ cfg = length buf →
     profile01.check cfg buf = Ub oob_read).
Proof.
  split_and!; intros cfg Hv Hl.
  - unfold profile04.check, profile04.MAX_INSTANCE, profile04.read_16, profile04.read_32.
    destruct (Z.ltb_spec 255 inst); [lia|]. rewrite Hv. read_until_oob; lia.
  - unfold profile07.check, profile07.read_32, profile07.read_64, profile07.PROFILE_07_SIZE_OFFSET,
      profile07.PROFILE_07_COUNTER_OFFSET, profile07.PROFILE_07_DATAID_OFFSET. rewrite Hv.
    read_until_oob; lia.
  - unfold profile01.check, rd1. rewrite Hv, lookup_ge_None_2 by lia. done.
Qed.

Lemma e2e_short_buffers_witness :
  profile04.check le {| profile04.data_id_ := 1; profile04.offset_ := 0; profile04.min_data_length_ := 0;
    profile04.max_data_length_ := 4096; profile04.max_delta_counter_ := 0xffff |} 1 ∅ [1; 2; 3]
  = Ub oob_read.
Proof.
  apply (e2e_short_buffers le 1 ∅ [1; 2; 3]).
  - lia.
  - reflexivity.
  - by_eval.
Defined.
