(* ===== verification/E2eProvider.v ===== *)
(** * The end-to-end provider ([e2e_provider_impl.cpp], [e2e_provider_impl.hpp])

    The provider keeps a protector, a checker and a header offset per data
    identifier (service, event) and dispatches to the profile a configuration
    names.  The numbers of a configuration are strings; [extract_unsigned] is
    the stream extraction the source converts them with. *)

From stdpp Require Import base list gmap strings.
From Stdlib Require Import ZArith Lia Ascii.
From S2P Require Import Prelude BitHelper Crc E2e E2eFacts.

(** ** Reading a number from a stream ([std::stringstream >> unsigned]) *)

Module stream.
Definition is_space (a : ascii) : bool :=
  let n := nat_of_ascii a in bool_decide (n = 32 ∨ 9 ≤ n ≤ 13)%nat.

Definition digit_of (base : Z) (a : ascii) : option Z :=
  let n := Z.of_nat (nat_of_ascii a) in
  let v := if (48 <=? n) && (n <=? 57) then n - 48
           else if (97 <=? n) && (n <=? 102) then n - 87
           else if (65 <=? n) && (n <=? 70) then n - 55
           else 16 in
  if v <? base then Some v else None.

Fixpoint skip_spaces (s : list ascii) : list ascii :=
  match s with
  | a :: s' => if is_space a then skip_spaces s' else s
  | [] => []
  end.

(** The value of the leading digits. *)
Fixpoint digits (base acc : Z) (s : list ascii) : Z :=
  match s with
  | a :: s' => match digit_of base a with Some d => digits base (acc * base + d) s' | None => acc end
  | [] => acc
  end.

Definition skip_hex_prefix (base : Z) (s : list ascii) : list ascii :=
  match s with
  | "0"%char :: x :: s' => if (base =? 16) && (bool_decide (x = "x"%char ∨ x = "X"%char)) then s' else s
  | _ => s
  end.

(** Extraction into a [w]-bit unsigned: 0 without digits, the largest value on
    overflow, and the modular negative after a minus sign. *)
Definition extract_unsigned (w base : Z) (s : list ascii) : Z :=
  let s := skip_spaces s in
  let '(neg, s) := match s with
                   | "-"%char :: s' => (true, s')
                   | "+"%char :: s' => (false, s')
                   | _ => (false, s)
                   end in
  let v := digits base 0 (skip_hex_prefix base s) in
  if 2 ^ w <=? v then 2 ^ w - 1 else if (neg : bool) then wrap w (- v) else v.
End stream.

(** ** Configuration *)

Module cfg.
Record e2e : Type := {
  variant : string;
  profile : string;
  service_id : Z;
  event_id : Z;
  custom_parameters : gmap string string
}.
End cfg.

(** The variable that is extracted into is not initialised; an empty or blank value
    ends the stream before the extraction assigns it. *)
Definition read_value_from_config (w : Z) (config : cfg.e2e) (name : string) (default_value : Z) : result Z :=
  match cfg.custom_parameters config !! name with
  | Some its_value =>
      let s := String.list_ascii_of_string its_value in
      if decide (stream.skip_spaces s = []) then Ub indeterminate
      else
        match s with
        | "0"%char :: "x"%char :: _ => Ok (stream.extract_unsigned w 16 s)
        | _ => Ok (stream.extract_unsigned w 10 s)
        end
  | None => Ok default_value
  end.

Definition VSOMEIP_SOMEIP_HEADER_SIZE : Z := 8.
Definition VSOMEIP_FULL_HEADER_SIZE : Z := 16.

(** ** The provider *)

Module e2e_provider_impl.
Inductive profile_config : Type :=
| config_01 (c : profile01.profile_config)
| config_04 (c : profile04.profile_config)
| config_05 (c : profile05.profile_config)
| config_07 (c : profile07.profile_config)
| config_custom (c : profile_custom.profile_config).

(** [base_] of the configurations, set by their constructors. *)
Definition base_ (c : profile_config) : Z :=
  match c with
  | config_01 _ | config_custom _ => VSOMEIP_FULL_HEADER_SIZE
  | config_04 _ | config_05 _ | config_07 _ => VSOMEIP_SOMEIP_HEADER_SIZE
  end.

(** A protector with the counter it keeps; a checker with its counters. *)
Inductive protector : Type :=
| protector_01 (c : profile01.profile_config) (counter : Z)
| protector_04 (c : profile04.profile_config) (counter : gmap Z Z)
| protector_05 (c : profile05.profile_config) (counter : gmap Z Z)
| protector_07 (c : profile07.profile_config) (counter : gmap Z Z)
| protector_custom (c : profile_custom.profile_config).

Inductive checker : Type :=
| checker_01 (c : profile01.profile_config)
| checker_04 (c : profile04.profile_config) (counter : gmap Z Z)
| checker_05 (c : profile05.profile_config) (counter : gmap Z Z)
| checker_07 (c : profile07.profile_config) (counter : gmap Z Z)
| checker_custom (c : profile_custom.profile_config).

Definition make_protector (c : profile_config) : protector :=
  match c with
  | config_01 c => protector_01 c 0
  | config_04 c => protector_04 c ∅
  | config_05 c => protector_05 c ∅
  | config_07 c => protector_07 c ∅
  | config_custom c => protector_custom c
  end.

Definition make_checker (c : profile_config) : checker :=
  match c with
  | config_01 c => checker_01 c
  | config_04 c => checker_04 c ∅
  | config_05 c => checker_05 c ∅
  | config_07 c => checker_07 c ∅
  | config_custom c => checker_custom c
  end.

Record t : Type := {
  custom_protectors_ : gmap (Z * Z) protector;
  custom_checkers_ : gmap (Z * Z) checker;
  custom_bases_ : gmap (Z * Z) Z
}.

Definition create : t :=
  {| custom_protectors_ := ∅; custom_checkers_ := ∅; custom_bases_ := ∅ |}.

(** A mode the enumeration does not name takes the default branch. *)
Definition to_data_id_mode (v : Z) : profile01.p01_data_id_mode :=
  match u8 v with
  | 0 => profile01.E2E_P01_DATAID_BOTH
  | 1 => profile01.E2E_P01_DATAID_ALT
  | 2 => profile01.E2E_P01_DATAID_LOW
  | 3 => profile01.E2E_P01_DATAID_NIBBLE
  | v => profile01.E2E_P01_DATAID_other v
  end.

Definition make_config_01 (config : cfg.e2e) : result profile01.profile_config :=
  crc_offset ← read_value_from_config 16 config "crc_offset" 0;
  data_id ← read_value_from_config 16 config "data_id" 0;
  data_id_mode ← read_value_from_config 16 config "data_id_mode" 0;
  data_length ← read_value_from_config 16 config "data_length" 0;
  counter_offset ← read_value_from_config 16 config "counter_offset" 8;
  data_id_nibble_offset ← read_value_from_config 16 config "data_id_nibble_offset" 12;
  Ok {| profile01.crc_offset_ := Z.to_nat crc_offset;
        profile01.data_id_ := data_id;
        profile01.data_id_mode_ := to_data_id_mode data_id_mode;
        profile01.data_length_ := data_length;
        profile01.counter_offset_ := Z.to_nat counter_offset;
        profile01.data_id_nibble_offset_ := Z.to_nat data_id_nibble_offset |}.

Definition make_config_04 (config : cfg.e2e) : result profile04.profile_config :=
  data_id ← read_value_from_config 32 config "data_id" 0;
  crc_offset ← read_value_from_config 64 config "crc_offset" 0;
  min_data_length ← read_value_from_config 64 config "min_data_length" 0;
  max_data_length ← read_value_from_config 64 config "max_data_length" 0xffff;
  max_delta_counter ← read_value_from_config 16 config "max_delta_counter" 0xffff;
  Ok {| profile04.data_id_ := data_id;
        profile04.offset_ := Z.to_nat (crc_offset / 8);
        profile04.min_data_length_ := min_data_length;
        profile04.max_data_length_ := max_data_length;
        profile04.max_delta_counter_ := max_delta_counter |}.

Definition make_config_05 (config : cfg.e2e) : result profile05.profile_config :=
  data_id ← read_value_from_config 32 config "data_id" 0;
  data_length ← read_value_from_config 16 config "data_length" 0;
  crc_offset ← read_value_from_config 64 config "crc_offset" 0;
  max_delta_counter ← read_value_from_config 16 config "max_delta_counter" 0xffff;
  Ok {| profile05.data_id_ := data_id;
        profile05.data_length_ := data_length;
        profile05.offset_ := Z.to_nat (crc_offset / 8);
        profile05.max_delta_counter_ := max_delta_counter |}.

Definition make_config_custom (config : cfg.e2e) : result profile_custom.profile_config :=
  crc_offset ← read_value_from_config 16 config "crc_offset" 0;
  Ok {| profile_custom.crc_offset_ := Z.to_nat crc_offset |}.

Definition make_config_07 (config : cfg.e2e) : result profile07.profile_config :=
  data_id ← read_value_from_config 32 config "data_id" 0;
  crc_offset ← read_value_from_config 64 config "crc_offset" 0;
  min_data_length ← read_value_from_config 64 config "min_data_length" 0;
  max_data_length ← read_value_from_config 64 config "max_data_length" 0xffffffff;
  max_delta_counter ← read_value_from_config 32 config "max_delta_counter" 0xffffffff;
  Ok {| profile07.data_id_ := data_id;
        profile07.offset_ := Z.to_nat (crc_offset / 8);
        profile07.min_data_length_ := min_data_length;
        profile07.max_data_length_ := max_data_length;
        profile07.max_delta_counter_ := max_delta_counter |}.

Definition process_e2e_profile (config : cfg.e2e) (pc : profile_config) (s : t) : t :=
  let data_identifier := (cfg.service_id config, cfg.event_id config) in
  let variant_is v := bool_decide (cfg.variant config = v) in
  {| custom_checkers_ := if variant_is "checker"%string || variant_is "both"%string
       then <[data_identifier := make_checker pc]> (custom_checkers_ s) else custom_checkers_ s;
     custom_protectors_ := if variant_is "protector"%string || variant_is "both"%string
       then <[data_identifier := make_protector pc]> (custom_protectors_ s) else custom_protectors_ s;
     custom_bases_ := <[data_identifier := base_ pc]> (custom_bases_ s) |}.

(** The profile a name selects. *)
Definition select_profile (config : cfg.e2e) : result (option profile_config) :=
  let profile_is p := bool_decide (cfg.profile config = p) in
  if profile_is "CRC8"%string || profile_is "P01"%string then c ← make_config_01 config; Ok (Some (config_01 c))
  else if profile_is "CRC32"%string || profile_is "CSTM"%string
  then c ← make_config_custom config; Ok (Some (config_custom c))
  else if profile_is "P04"%string then c ← make_config_04 config; Ok (Some (config_04 c))
  else if profile_is "P05"%string then c ← make_config_05 config; Ok (Some (config_05 c))
  else if profile_is "P07"%string then c ← make_config_07 config; Ok (Some (config_07 c))
  else Ok None.

Definition add_configuration (config : cfg.e2e) (s : t) : result (bool * t) :=
  pc ← select_profile config;
  Ok (match pc with Some pc => (true, process_e2e_profile config pc s) | None => (false, s) end).

Definition is_protected (id : Z * Z) (s : t) : bool := bool_decide (is_Some (custom_protectors_ s !! id)).
Definition is_checked (id : Z * Z) (s : t) : bool := bool_decide (is_Some (custom_checkers_ s !! id)).
Definition get_protection_base (id : Z * Z) (s : t) : Z := default 0 (custom_bases_ s !! id).

Section ops.
Context (host : endianess_e).

(** [protector->protect(_buffer, _instance)], by profile. *)
Definition run_protector (p : protector) (inst : Z) (buf : bytes) : result (protector * bytes) :=
  match p with
  | protector_01 c n => '(n, buf) ← profile01.protect c n buf; Ok (protector_01 c n, buf)
  | protector_04 c n => '(n, buf) ← profile04.protect host c inst n buf; Ok (protector_04 c n, buf)
  | protector_05 c n => '(n, buf) ← profile05.protect host c inst n buf; Ok (protector_05 c n, buf)
  | protector_07 c n => '(n, buf) ← profile07.protect host c inst n buf; Ok (protector_07 c n, buf)
  | protector_custom c => buf ← profile_custom.protect c buf; Ok (protector_custom c, buf)
  end.

(** [checker->check(_buffer, _instance, status)], by profile. *)
Definition run_checker (p : checker) (inst : Z) (buf : bytes) : result (checker * check_status) :=
  match p with
  | checker_01 c => st ← profile01.check c buf; Ok (checker_01 c, st)
  | checker_04 c n => '(n, st) ← profile04.check host c inst n buf; Ok (checker_04 c n, st)
  | checker_05 c n => '(n, st) ← profile05.check host c inst n buf; Ok (checker_05 c n, st)
  | checker_07 c n => '(n, st) ← profile07.check host c inst n buf; Ok (checker_07 c n, st)
  | checker_custom c => st ← profile_custom.check c buf; Ok (checker_custom c, st)
  end.

Definition protect (id : Z * Z) (buf : bytes) (inst : Z) (s : t) : result (t * bytes) :=
  match custom_protectors_ s !! id with
  | Some p =>
      '(p, buf) ← run_protector p inst buf;
      Ok ({| custom_protectors_ := <[id := p]> (custom_protectors_ s);
             custom_checkers_ := custom_checkers_ s; custom_bases_ := custom_bases_ s |}, buf)
  | None => Ok (s, buf)
  end.

(** The status is an out parameter: without a checker it keeps its value. *)
Definition check (id : Z * Z) (buf : bytes) (inst : Z) (st : check_status) (s : t)
  : result (t * check_status) :=
  match custom_checkers_ s !! id with
  | Some p =>
      '(p, st) ← run_checker p inst buf;
      Ok ({| custom_protectors_ := custom_protectors_ s;
             custom_checkers_ := <[id := p]> (custom_checkers_ s); custom_bases_ := custom_bases_ s |}, st)
  | None => Ok (s, st)
  end.
End ops.
End e2e_provider_impl.

(** ** Properties *)

Section provider_facts.
Import e2e_provider_impl.

Lemma read_value_width w config name d v :
  0 < w → in_width w d → read_value_from_config w config name d = Ok v → in_width w v.
Proof.
  intros Hw Hd. unfold read_value_from_config. destruct (_ !! _) as [its_value|]; [|by intros [= <-]].
  destruct (decide _); [done|].
  assert (∀ base acc s, 0 ≤ base → 0 ≤ acc → 0 ≤ stream.digits base acc s) as Hdig.
  { intros base acc l Hb. revert acc. induction l as [|a l IH]; intros acc Ha; cbn; [done|].
    destruct (stream.digit_of base a) as [d'|] eqn:E; [|done]. apply IH.
    assert (0 ≤ d'); [|nia]. revert E. unfold stream.digit_of.
    repeat case_match; intros; simplify_eq; lia. }
  assert (∀ base s, 0 ≤ base → in_width w (stream.extract_unsigned w base s)) as Hex.
  { intros base s0 Hb. unfold stream.extract_unsigned.
    destruct (match stream.skip_spaces s0 with "-"%char :: s' => _ | _ => _ end) as [neg s1].
    destruct (Z.leb_spec (2 ^ w) (stream.digits base 0 (stream.skip_hex_prefix base s1))).
    - unfold in_width. lia.
    - destruct neg; [apply wrap_range; lia|]. split; [apply Hdig; lia|lia]. }
  repeat case_match; intros [= <-]; apply Hex; lia.
Qed.

Lemma process_lookup config pc s id :
  let s' := process_e2e_profile config pc s in
  let own := bool_decide (id = (cfg.service_id config, cfg.event_id config)) in
  let variant v := bool_decide (cfg.variant config = v) in
  custom_protectors_ s' !! id =
    (if own && (variant "protector"%string || variant "both"%string) then Some (make_protector pc)
     else custom_protectors_ s !! id)
  ∧ custom_checkers_ s' !! id =
    (if own && (variant "checker"%string || variant "both"%string) then Some (make_checker pc)
     else custom_checkers_ s !! id)
  ∧ custom_bases_ s' !! id = (if own then Some (base_ pc) else custom_bases_ s !! id).
Proof.
  intros s' own variant. subst s' own variant.
  destruct (bool_decide_reflect (id = (cfg.service_id config, cfg.event_id config))) as [->|Hne];
    cbn [process_e2e_profile custom_protectors_ custom_checkers_ custom_bases_ andb];
    repeat split; try destruct (_ || _); by rewrite ?lookup_insert_eq, ?lookup_insert_ne.
Qed.

(** The names [select_profile] knows, and the header offset that goes with each. *)
Lemma select_profile_spec config :
  let profile_is p := bool_decide (cfg.profile config = p) in
  let known := profile_is "CRC8"%string || (profile_is "P01"%string || (profile_is "CRC32"%string
    || (profile_is "CSTM"%string || (profile_is "P04"%string || (profile_is "P05"%string
    || profile_is "P07"%string))))) in
  match select_profile config with
  | Ok (Some pc) => known = true ∧
      base_ pc = (if profile_is "P04"%string || (profile_is "P05"%string || profile_is "P07"%string)
                  then 8 else 16)
  | Ok None => known = false
  | _ => known = true
  end.
Proof.
  intros profile_is known. subst profile_is known. unfold select_profile.
  repeat match goal with |- context [bool_decide (cfg.profile config = ?p)] =>
    destruct (bool_decide_reflect (cfg.profile config = p)) as [E|]; rewrite ?E; cbn [orb] end;
    lazymatch goal with
    | |- context [mbind _ ?m] => destruct m; cbn [mbind result_bind]
    | _ => idtac
    end; first [reflexivity|split; reflexivity].
Qed.
End provider_facts.

Lemma bool_decide_elem_cons (x y : string) l :
  bool_decide (x ∈ y :: l) = bool_decide (x = y) || bool_decide (x ∈ l).
Proof.
  rewrite <- bool_decide_or. apply bool_decide_ext. apply elem_of_cons.
Qed.

Lemma bool_decide_elem_nil (x : string) : bool_decide (x ∈ []) = false.
Proof. apply bool_decide_false, not_elem_of_nil. Qed.

(** Configuration of the provider, where no parameter is empty or blank:
    [add_configuration] accepts exactly the seven profile names, and an accepted one replaces the protector and the
    checker of its own data identifier as its variant says, with fresh
    counters, sets the header offset of that identifier, and leaves every other
    identifier as it was; a refused one changes nothing. *)
Theorem provider_add_configuration (config : cfg.e2e) (s s' : e2e_provider_impl.t) (id : Z * Z) (ok : bool)
    (Hadd : e2e_provider_impl.add_configuration config s = Ok (ok, s')) :
  let own := (cfg.service_id config, cfg.event_id config) in
  ok = bool_decide (cfg.profile config ∈ ["CRC8"; "P01"; "CRC32"; "CSTM"; "P04"; "P05"; "P07"]%string)
  ∧ (ok = false → s' = s)
  ∧ (id ≠ own →
       e2e_provider_impl.custom_protectors_ s' !! id = e2e_provider_impl.custom_protectors_ s !! id
       ∧ e2e_provider_impl.custom_checkers_ s' !! id = e2e_provider_impl.custom_checkers_ s !! id
       ∧ e2e_provider_impl.custom_bases_ s' !! id = e2e_provider_impl.custom_bases_ s !! id)
  ∧ (ok = true →
       e2e_provider_impl.is_protected own s'
         = bool_decide (cfg.variant config ∈ ["protector"; "both"]%string)
           || e2e_provider_impl.is_protected own s
       ∧ e2e_provider_impl.is_checked own s'
         = bool_decide (cfg.variant config ∈ ["checker"; "both"]%string)
           || e2e_provider_impl.is_checked own s
       ∧ e2e_provider_impl.get_protection_base own s'
         = (if bool_decide (cfg.profile config ∈ ["P04"; "P05"; "P07"]%string) then 8 else 16)).
Proof.
  cbv zeta. unfold e2e_provider_impl.add_configuration in Hadd. rewrite !bool_decide_elem_cons, !bool_decide_elem_nil, !orb_false_r.
  pose proof (select_profile_spec config) as Hsel.
  destruct (e2e_provider_impl.select_profile config) as [[pc|]| | |]; try done; cbn [mbind result_bind] in Hadd;
    injection Hadd as <- <-; [|rewrite Hsel; by split_and!].
  destruct Hsel as [-> Hbase]. split; [done|]. split; [done|]. split.
  { intros Hne. destruct (process_lookup config pc s id) as (-> & -> & ->).
    by rewrite bool_decide_false. }
  intros _. unfold e2e_provider_impl.is_protected, e2e_provider_impl.is_checked,
    e2e_provider_impl.get_protection_base.
  destruct (process_lookup config pc s (cfg.service_id config, cfg.event_id config)) as (-> & -> & ->).
  rewrite (bool_decide_true (_ = (_, _))) by done. cbn [andb default]. rewrite <- Hbase.
  clear Hbase. split_and!; [..|done]; destruct (bool_decide (cfg.variant config = _) || _); cbn [orb];
    try done; apply bool_decide_true; by eexists.
Qed.

(** Two processes that load the same profile 4 configuration. *)
Definition p04_provider_config (variant : string) (params : gmap string string) (id : Z * Z) : cfg.e2e :=
  {| cfg.variant := variant; cfg.profile := "P04"; cfg.service_id := id.1; cfg.event_id := id.2;
     cfg.custom_parameters := params |}.



(** An empty value is read as an uninitialised variable. *)
Example empty_value_indeterminate :
  e2e_provider_impl.add_configuration (p04_provider_config "both" {[ "data_id" := "" ]}%string (0x1111, 0x8001))
    e2e_provider_impl.create = Ub indeterminate.
Proof. vm_compute. reflexivity. Qed.
