(* ===== verification/Tp.v ===== *)
(** * Segmentation of large messages (SOME/IP-TP)
    ([endpoints/src/tp.cpp], [tp_message.cpp], [tp_reassembler.cpp])

    [tp] splits a message into segments, [tp_message] collects the segments of
    one message, [tp_reassembler] keeps the unfinished messages of all senders.
    Offsets and sizes are [uint32_t] and wrap where the code computes them; the
    set of segments is the sorted list of its elements.  [operator<] of a segment
    is an order only on segments of which none lies strictly inside another;
    inserting one that does not keep that is undefined ([bad_order]). *)

From stdpp Require Import base list gmap sorting.
From Stdlib Require Import ZArith Lia.
From S2P Require Import Prelude BitHelper.

Definition VSOMEIP_MAX_UDP_MESSAGE_SIZE : Z := 1416.
Definition VSOMEIP_FULL_HEADER_SIZE : nat := 16.
Definition VSOMEIP_SOMEIP_HEADER_SIZE : Z := 8.
Definition VSOMEIP_LENGTH_POS_MIN : nat := 4.
Definition VSOMEIP_MESSAGE_TYPE_POS : nat := 14.
Definition VSOMEIP_RETURN_CODE_POS : nat := 15.
Definition VSOMEIP_TP_HEADER_SIZE : nat := 4.
Definition VSOMEIP_TP_HEADER_POS_MIN : nat := 16.
Definition VSOMEIP_TP_PAYLOAD_POS : nat := 20.

(** ** Segment headers and splitting ([tp]) *)

Module tp.
Definition TP_FLAG : Z := 0x20.
Definition tp_max_segment_length_ : Z := 1392.

Definition get_offset (tp_header : Z) : Z := Z.land tp_header 0xfffffff0.
Definition more_segments (tp_header : Z) : bool := negb (Z.land tp_header 0x1 =? 0).
Definition tp_flag_is_set (msg_type : Z) : bool := negb (Z.land msg_type TP_FLAG =? 0).
Definition tp_flag_set (msg_type : Z) : Z := Z.lor msg_type TP_FLAG.
Definition tp_flag_unset (msg_type : Z) : Z := Z.land msg_type (255 - TP_FLAG).

(** One round of the loop: the segment that starts at [current_offset] (an
    index into the message) and whether it is the last. *)
Definition split_one (data : bytes) (current_offset max_segment_length : nat) : result (bytes * bool) :=
  msg ← rd data 0 VSOMEIP_FULL_HEADER_SIZE;
  type ← rd1 msg VSOMEIP_MESSAGE_TYPE_POS;
  msg ← wr1 msg VSOMEIP_MESSAGE_TYPE_POS (Z.lor type 0x20);
  let segment_end := (current_offset + max_segment_length)%nat in
  let is_last_segment := bool_decide (length data ≤ segment_end)%nat in
  let header := Z.lor (u32 (Z.of_nat (current_offset - VSOMEIP_FULL_HEADER_SIZE)))
                  (if is_last_segment then 0x0 else 0x1) in
  let msg := msg ++ be_bytes 4 header in
  payload ← (if is_last_segment
             then rd data current_offset (length data - current_offset)
             else rd data current_offset max_segment_length);
  let msg := msg ++ payload in
  let its_length := u32 (Z.of_nat (length msg) - VSOMEIP_SOMEIP_HEADER_SIZE) in
  msg ← wr msg VSOMEIP_LENGTH_POS_MIN (be_bytes 4 its_length);
  Ok (msg, is_last_segment).

(** The loop; [None] when [fuel] rounds were not enough. *)
Fixpoint split_from (fuel : nat) (data : bytes) (current_offset max_segment_length : nat)
  : option (result (list bytes)) :=
  if decide (current_offset < length data)%nat then
    match fuel with
    | O => None
    | S fuel =>
        match split_one data current_offset max_segment_length with
        | Ok (msg, is_last_segment) =>
            let next := if (is_last_segment : bool) then length data
                        else (current_offset + max_segment_length)%nat in
            fmap (λ r : result (list bytes), msgs ← r; Ok (msg :: msgs))
              (split_from fuel data next max_segment_length)
        | Exn e => Some (Exn e)
        | Abort => Some Abort
        | Ub u => Some (Ub u)
        end
    end
  else Some (Ok []).

Definition tp_split_message (fuel : nat) (data : bytes) (max_segment_length : nat)
  : option (result (list bytes)) :=
  if Z.of_nat (length data) <? VSOMEIP_MAX_UDP_MESSAGE_SIZE then Some (Ok [])
  else split_from fuel data VSOMEIP_FULL_HEADER_SIZE max_segment_length.
End tp.

(** ** A message under reassembly ([tp_message]) *)

Module tp_message.
Record segment_t : Type := mk_segment { start_ : Z; end_ : Z }.

#[export] Instance segment_eq_dec : EqDecision segment_t.
Proof. solve_decision. Defined.

(** [segment_t::operator<] *)
Definition segment_lt (a b : segment_t) : bool :=
  (start_ a <? start_ b) || ((start_ b <=? start_ a) && (end_ a <? end_ b)).

Record t : Type := mk {
  timepoint_creation_ : Z;
  max_message_size_ : Z;
  current_message_size_ : Z;
  last_segment_received_ : bool;
  segments_ : list segment_t;
  message_ : bytes
}.

(** [std::set::emplace]: the position of the new element, or [None] when an
    equivalent one is present. *)
Fixpoint emplace_pos (x : segment_t) (l : list segment_t) : nat :=
  match l with
  | y :: l => if segment_lt y x then S (emplace_pos x l) else 0%nat
  | [] => 0%nat
  end.

Definition emplace (x : segment_t) (l : list segment_t) : result (option nat * list segment_t) :=
  if existsb (λ y, segment_lt x y && segment_lt y x) l then Ub bad_order
  else
    let i := emplace_pos x l in
    match l !! i with
    | Some y => if segment_lt x y then Ok (Some i, take i l ++ x :: drop i l) else Ok (None, l)
    | None => Ok (Some i, l ++ [x])
    end.

(** [std::vector::resize(n, 0x0)] *)
Definition resize (n : nat) (l : bytes) : bytes := take n l ++ replicate (n - length l) 0.

(** The tests of [check_lengths], all on [uint32_t]. *)
Definition check_lengths (host : endianess_e) (data : bytes) (segment_size : Z) (more_fragments : bool)
    (m : t) : result bool :=
  len_bytes ← rd data VSOMEIP_LENGTH_POS_MIN 4;
  hdr_bytes ← rd data VSOMEIP_TP_HEADER_POS_MIN 4;
  type ← rd1 data VSOMEIP_MESSAGE_TYPE_POS;
  let data_length := Z.of_nat (length data) in
  let its_length := bithelper.read_uint32_be host len_bytes in
  let its_tp_header := bithelper.read_uint32_be host hdr_bytes in
  Ok (
    if negb (tp.tp_flag_is_set type) then false
    else if negb (data_length =? u32 (its_length + VSOMEIP_SOMEIP_HEADER_SIZE)) then false
    else if negb (segment_size =? u32 (its_length - 4 - (16 - VSOMEIP_SOMEIP_HEADER_SIZE))) then false
    else if tp.tp_max_segment_length_ <? segment_size then false
    else if more_fragments && (0 <? segment_size mod 16) then false
    else if (max_message_size_ m <? u32 (current_message_size_ m + segment_size))
            || (u32 (current_message_size_ m + segment_size) <? segment_size) then false
    else if (max_message_size_ m <? u32 (tp.get_offset its_tp_header + segment_size))
            || (u32 (tp.get_offset its_tp_header + segment_size) <? segment_size) then false
    else true).

Definition is_too_short (data : bytes) : bool :=
  bool_decide (length data < VSOMEIP_FULL_HEADER_SIZE + VSOMEIP_TP_HEADER_SIZE)%nat.

(** [_data_length - VSOMEIP_FULL_HEADER_SIZE - VSOMEIP_TP_HEADER_SIZE] and the
    header word of a segment that is long enough. *)
Definition segment_size_of (data : bytes) : Z := Z.of_nat (length data - 20).
Definition read_tp_header (host : endianess_e) (data : bytes) : result Z :=
  hdr ← rd data VSOMEIP_TP_HEADER_POS_MIN 4; Ok (bithelper.read_uint32_be host hdr).

Definition with_message (m : t) (msg : bytes) : t :=
  mk (timepoint_creation_ m) (max_message_size_ m) (current_message_size_ m) (last_segment_received_ m)
     (segments_ m) msg.
Definition with_segments (m : t) (l : list segment_t) : t :=
  mk (timepoint_creation_ m) (max_message_size_ m) (current_message_size_ m) (last_segment_received_ m)
     l (message_ m).
Definition with_last (m : t) (b : bool) : t :=
  mk (timepoint_creation_ m) (max_message_size_ m) (current_message_size_ m) b (segments_ m) (message_ m).
Definition add_size (m : t) (n : Z) : t :=
  mk (timepoint_creation_ m) (max_message_size_ m) (u32 (current_message_size_ m + n))
     (last_segment_received_ m) (segments_ m) (message_ m).

Definition create (host : endianess_e) (now : Z) (data : bytes) (max_message_size : Z) : result t :=
  let m := mk now max_message_size 0 false [] [] in
  if is_too_short data then Ok m
  else
    header ← rd data 0 VSOMEIP_FULL_HEADER_SIZE;
    type ← rd1 header VSOMEIP_MESSAGE_TYPE_POS;
    header ← wr1 header VSOMEIP_MESSAGE_TYPE_POS (tp.tp_flag_unset type);
    let m := with_message m header in
    let its_segment_size := segment_size_of data in
    its_tp_header ← read_tp_header host data;
    ok ← check_lengths host data its_segment_size (tp.more_segments its_tp_header) m;
    if (ok : bool) then
      let its_offset := tp.get_offset its_tp_header in
      '(_, segs) ← emplace (mk_segment its_offset (u32 (its_offset + its_segment_size - 1))) (segments_ m);
      let m := with_segments m segs in
      let m := if its_offset =? 0 then m
               else let m := with_message m (resize (16 + Z.to_nat its_offset) (message_ m)) in
                    if tp.more_segments its_tp_header then m else with_last m true in
      payload ← rd data VSOMEIP_TP_PAYLOAD_POS (Z.to_nat its_segment_size);
      Ok (add_size (with_message m (message_ m ++ payload)) (16 + its_segment_size))
    else Ok m.

(** [message_.insert(message_.end(), &_data[20] + from, &_data[20] + size)] *)
Definition append_payload (data : bytes) (from size : Z) (m : t) : result t :=
  if from <=? size then
    payload ← rd data (VSOMEIP_TP_PAYLOAD_POS + Z.to_nat from) (Z.to_nat (size - from));
    Ok (with_message m (message_ m ++ payload))
  else Ub oob_read.

(** [std::memcpy(&message_[16 + to], &_data[20] + from, size)] *)
Definition copy_payload (data : bytes) (to from size : Z) (m : t) : result t :=
  payload ← rd data (VSOMEIP_TP_PAYLOAD_POS + Z.to_nat from) (Z.to_nat size);
  msg ← wr (message_ m) (16 + Z.to_nat to) payload;
  Ok (with_message m msg).

(** [segments_.erase(seg_current)] then [segments_.emplace(...)] *)
Definition replace_segment (i : nat) (x : segment_t) (m : t) : result t :=
  '(_, segs) ← emplace x (delete i (segments_ m));
  Ok (with_segments m segs).

(** The segment was inserted at position [i] behind every other segment. *)
Definition add_last (data : bytes) (its_offset its_segment_size : Z) (more : bool) (i : nat)
    (cur : segment_t) (m : t) : result t :=
  match i with
  | O =>
      let m := if its_offset =? 0 then m
               else let m := with_message m (resize (16 + Z.to_nat its_offset) (message_ m)) in
                    if more then m else with_last m true in
      m ← append_payload data 0 its_segment_size m;
      Ok (add_size m its_segment_size)
  | S p =>
      prev ← at_idx (segments_ m) p;
      if end_ prev <? start_ cur then
        let m := if u32 (end_ prev + 1) =? start_ cur then m
                 else with_message m (resize (16 + Z.to_nat its_offset) (message_ m)) in
        m ← append_payload data 0 its_segment_size m;
        Ok (add_size m its_segment_size)
      else
        m ← append_payload data (u32 (u32 (end_ prev + 1) - start_ cur)) its_segment_size m;
        m ← replace_segment i (mk_segment (u32 (end_ prev + 1)) (end_ cur)) m;
        Ok (add_size m (end_ cur - end_ prev))
  end.

(** The segment was inserted at position [i] in front of the segment [next]. *)
Definition add_between (data : bytes) (its_offset its_segment_size : Z) (i : nat)
    (cur next : segment_t) (m : t) : result t :=
  prev ← (match i with O => Ok None | S p => prev ← at_idx (segments_ m) p; Ok (Some prev) end);
  match prev with
  | Some prev =>
      if end_ prev <? start_ cur then
        if end_ cur <? start_ next then
          m ← copy_payload data its_offset 0 its_segment_size m;
          Ok (add_size m its_segment_size)
        else
          m ← copy_payload data its_offset 0 (u32 (start_ next - its_offset)) m;
          m ← replace_segment i (mk_segment (start_ cur) (u32 (start_ next - 1))) m;
          Ok (add_size m (start_ next - start_ cur))
      else if end_ cur <? start_ next then
        let its_corrected_offset := u32 (end_ prev + 1) in
        m ← copy_payload data its_corrected_offset (u32 (its_corrected_offset - its_offset))
              (u32 (start_ next - its_corrected_offset)) m;
        m ← replace_segment i (mk_segment (u32 (end_ prev + 1)) (end_ cur)) m;
        Ok (add_size m (end_ cur - end_ prev))
      else
        let its_corrected_offset := u32 (end_ prev + 1) in
        m ← copy_payload data its_corrected_offset (u32 (its_corrected_offset - its_offset))
              (u32 (start_ next - its_corrected_offset)) m;
        m ← replace_segment i (mk_segment (u32 (end_ prev + 1)) (u32 (start_ next - 1))) m;
        Ok (add_size m (start_ next - (end_ prev + 1)))
  | None =>
      if end_ cur <? start_ next then
        m ← copy_payload data its_offset 0 its_segment_size m;
        Ok (add_size m its_segment_size)
      else
        m ← copy_payload data its_offset 0 (u32 (start_ next - its_offset)) m;
        m ← replace_segment i (mk_segment (start_ cur) (u32 (start_ next - 1))) m;
        Ok (add_size m (start_ next - start_ cur))
  end.

(** The loop that looks for a gap. *)
Fixpoint all_present (last_end : Z) (l : list segment_t) : bool :=
  match l with
  | seg :: l => if u32 (last_end + 1) =? start_ seg then all_present (end_ seg) l else false
  | [] => true
  end.

(** The message is complete: length and return code are updated. *)
Definition finish (data : bytes) (m : t) : result t :=
  let its_length := u32 (Z.of_nat (length (message_ m)) - VSOMEIP_SOMEIP_HEADER_SIZE) in
  msg ← wr (message_ m) VSOMEIP_LENGTH_POS_MIN (be_bytes 4 its_length);
  code ← rd1 data VSOMEIP_RETURN_CODE_POS;
  msg ← wr1 msg VSOMEIP_RETURN_CODE_POS code;
  Ok (with_message m msg).

Definition add_segment (host : endianess_e) (data : bytes) (m : t) : result (bool * t) :=
  if is_too_short data then Ok (false, m)
  else
    let its_segment_size := segment_size_of data in
    its_tp_header ← read_tp_header host data;
    let more := tp.more_segments its_tp_header in
    ok ← check_lengths host data its_segment_size more m;
    if (ok : bool) then
      let its_offset := tp.get_offset its_tp_header in
      let cur := mk_segment its_offset (u32 (its_offset + its_segment_size - 1)) in
      '(pos, segs) ← emplace cur (segments_ m);
      match pos with
      | None => Ok (false, m)
      | Some i =>
          let m := with_segments m segs in
          m ← (match segs !! S i with
               | None => add_last data its_offset its_segment_size more i cur m
               | Some next => add_between data its_offset its_segment_size i cur next m
               end);
          let m := if more then m else with_last m true in
          if last_segment_received_ m && all_present 0xFFFFFFFF (segments_ m)
          then m ← finish data m; Ok (true, m)
          else Ok (false, m)
      end
    else Ok (false, m).

(** [get_message] moves the buffer out. *)
Definition get_message (m : t) : bytes * t := (message_ m, with_message m []).
End tp_message.

(** ** The messages of all senders ([tp_reassembler]) *)

Module tp_reassembler.
Abbreviation messages := (gmap Z (Z * tp_message.t)).

(** Addresses and ports are numbers; the timer is whether it runs and when it
    was last armed ([expires_after(5 s)] plus [async_wait]). *)
Record t : Type := mk {
  max_message_size_ : Z;
  cleanup_timer_running_ : bool;
  cleanup_timer_armed_ : Z;
  tp_messages_ : gmap Z (gmap Z messages)
}.

Definition create (max_message_size : Z) : t := mk max_message_size false 0 ∅.

Definition with_messages (r : t) (ms : gmap Z (gmap Z messages)) : t :=
  mk (max_message_size_ r) (cleanup_timer_running_ r) (cleanup_timer_armed_ r) ms.

Definition cleanup_timer_start (now : Z) (force : bool) (r : t) : t :=
  if negb (cleanup_timer_running_ r) || force
  then mk (max_message_size_ r) true (now + 5000) (tp_messages_ r)
  else r.

(** The key of a message and its session, read from a segment's header. *)
Definition tp_message_id (host : endianess_e) (data : bytes) : result (Z * Z) :=
  service ← rd data 0 2; method ← rd data 2 2; client ← rd data 8 2; session ← rd data 10 2;
  iv ← rd1 data 13; mt ← rd1 data VSOMEIP_MESSAGE_TYPE_POS;
  let r16 := bithelper.read_uint16_be host in
  Ok (Z.lor (Z.lor (Z.lor (Z.lor (Z.shiftl (r16 service) 48) (Z.shiftl (r16 method) 32))
        (Z.shiftl (r16 client) 16)) (Z.shiftl iv 8)) (tp.tp_flag_unset mt),
      r16 session).

(** Removing a finished message also removes maps that became empty. *)
Definition erase_message (address port id : Z) (ms : gmap Z (gmap Z messages)) : gmap Z (gmap Z messages) :=
  let ports := default ∅ (ms !! address) in
  let found := delete id (default ∅ (ports !! port)) in
  if decide (found = ∅) then
    let ports := delete port ports in
    if decide (ports = ∅) then delete address ms else <[address := ports]> ms
  else <[address := <[port := found]> ports]> ms.

Definition put_message (address port id : Z) (entry : Z * tp_message.t) (ms : gmap Z (gmap Z messages))
  : gmap Z (gmap Z messages) :=
  let ports := default ∅ (ms !! address) in
  <[address := <[port := <[id := entry]> (default ∅ (ports !! port))]> ports]> ms.

Definition find_message (address port id : Z) (ms : gmap Z (gmap Z messages)) : option (Z * tp_message.t) :=
  ports ← ms !! address; found ← ports !! port; (found : messages) !! id.

(** [Some msg] is a returned pair whose first component is [true]. *)
Definition process_tp_message (host : endianess_e) (now : Z) (data : bytes) (address port : Z) (r : t)
  : result (option bytes * t) :=
  if decide (length data < VSOMEIP_FULL_HEADER_SIZE)%nat then Ok (None, r)
  else
    let r := cleanup_timer_start now false r in
    '(id, its_session) ← tp_message_id host data;
    match find_message address port id (tp_messages_ r) with
    | Some (session, m) =>
        if session =? its_session then
          '(complete, m) ← tp_message.add_segment host data m;
          if (complete : bool)
          then Ok (Some (tp_message.get_message m).1,
                   with_messages r (erase_message address port id (tp_messages_ r)))
          else Ok (None, with_messages r (put_message address port id (session, m) (tp_messages_ r)))
        else
          m ← tp_message.create host now data (max_message_size_ r);
          Ok (None, with_messages r (put_message address port id (its_session, m) (tp_messages_ r)))
    | None =>
        m ← tp_message.create host now data (max_message_size_ r);
        Ok (None, with_messages r (put_message address port id (its_session, m) (tp_messages_ r)))
    end.

(** Times are in milliseconds of the steady clock. *)
Definition is_outdated (now : Z) (m : tp_message.t) : bool := 5000 <? now - tp_message.timepoint_creation_ m.

Definition drop_empty {A} (ms : gmap Z (gmap Z A)) : gmap Z (gmap Z A) := filter (λ p, p.2 ≠ ∅) ms.

Definition cleanup_unfinished_messages (now : Z) (r : t) : bool * t :=
  let keep (found : messages) : messages := filter (λ p, is_outdated now p.2.2 = false) found in
  let ms := drop_empty (fmap (λ ports : gmap Z messages, drop_empty (fmap keep ports)) (tp_messages_ r)) in
  (bool_decide (ms ≠ ∅), with_messages r ms).

Definition cleanup_timer_cbk (now : Z) (error : bool) (r : t) : t :=
  if error then r
  else
    let '(more, r) := cleanup_unfinished_messages now r in
    if more then cleanup_timer_start now true r
    else mk (max_message_size_ r) false (cleanup_timer_armed_ r) (tp_messages_ r).
End tp_reassembler.
