(* ===== verification/TpFacts.v ===== *)
(** * Properties of SOME/IP-TP

    The segments of one message in closed form, what a receiver reads from them,
    the state of a reassembly as the increasing list of received indices, and the
    end to end theorem from [tp_split_message] to [process_tp_message]; isolation
    and clean-up of the reassembler; what malformed segments can do. *)

From stdpp Require Import base list gmap sorting.
From Stdlib Require Import ZArith Lia.
From S2P Require Import Prelude BitHelper Tp.

(** ** The segments of one message *)

Lemma lor_low_bit x b : x mod 16 = 0 → (b = 0 ∨ b = 1) → Z.lor x b = x + b.
Proof.
  intros Hx Hb. rewrite (Z.div_mod x 16), Hx, Z.add_0_r by lia.
  rewrite Z.mul_comm. change 16 with (2 ^ 4). rewrite <- Z.shiftl_mul_pow2 by lia.
  rewrite <- Z.lxor_lor, <- Z.add_nocarry_lxor; try done.
  all: apply Z.bits_inj'; intros i Hi; rewrite Z.land_spec, Z.bits_0.
  all: destruct (Z.lt_ge_cases i 4); [by rewrite Z.shiftl_spec_low by lia|].
  all: destruct Hb as [-> | ->]; [by rewrite Z.bits_0, andb_false_r|].
  all: rewrite (Z.bits_above_log2 1) by (cbn; lia); apply andb_false_r.
Qed.

Lemma tp_header_fields x (last : bool) :
  x mod 16 = 0 → is_u32 x →
  let h := Z.lor x (if last then 0 else 1) in
  is_u32 h ∧ tp.get_offset h = x ∧ tp.more_segments h = negb last.
Proof.
  intros Hx Hw h. subst h.
  assert (x = Z.shiftl (x / 16) 4) as Ex by (rewrite Z.shiftl_mul_pow2 by lia; Z.div_mod_to_equations; lia).
  assert (Z.land x 1 = 0) as Hx1.
  { change 1 with (Z.ones 1). rewrite Z.land_ones by lia. change (2 ^ 1) with 2.
    Z.div_mod_to_equations; lia. }
  assert (Z.land x 0xfffffff0 = x) as Hxo.
  { rewrite Ex at 1. change 0xfffffff0 with (Z.shiftl (Z.ones 28) 4).
    rewrite <- Z.shiftl_land, Z.land_ones, Z.mod_small by (unfold in_width in *; Z.div_mod_to_equations; lia).
    done. }
  split_and!.
  - rewrite lor_low_bit by (try done; destruct last; auto).
    unfold in_width in *. change (2 ^ 32) with 4294967296 in *. destruct last; Z.div_mod_to_equations; lia.
  - unfold tp.get_offset. rewrite Z.land_lor_distr_l, Hxo. by destruct last; rewrite Z.lor_0_r.
  - unfold tp.more_segments. rewrite Z.land_lor_distr_l, Hx1. by destruct last.
Qed.

Lemma tp_flag_set_is_set t : tp.tp_flag_is_set (Z.lor t 0x20) = true.
Proof.
  unfold tp.tp_flag_is_set, tp.TP_FLAG. rewrite Z.land_lor_distr_l. change (Z.land 0x20 0x20) with 0x20.
  destruct (Z.eqb_spec (Z.lor (Z.land t 0x20) 0x20) 0) as [E|]; [|done].
  apply Z.lor_eq_0_iff in E. lia.
Qed.

Lemma tp_flag_round t : is_u8 t → tp.tp_flag_is_set t = false → tp.tp_flag_unset (Z.lor t 0x20) = t.
Proof.
  intros Ht Hf. unfold tp.tp_flag_unset, tp.tp_flag_is_set, tp.TP_FLAG in *.
  apply negb_false_iff, Z.eqb_eq in Hf. change (255 - 0x20) with 0xDF.
  rewrite Z.land_lor_distr_l. change (Z.land 0x20 0xDF) with 0. rewrite Z.lor_0_r.
  transitivity (Z.land t (Z.lor 0xDF 0x20)); [by rewrite Z.land_lor_distr_r, Hf, Z.lor_0_r|].
  change (Z.lor 0xDF 0x20) with (Z.ones 8). rewrite Z.land_ones by lia. by apply Z.mod_small.
Qed.

(** A message of [data] that is split into segments of [L] bytes, and what the
    code relies on. *)
Section one_message.
Context (data : bytes) (L : nat).

Definition tp_splittable : Prop :=
  bytes_ok data ∧ 1416 ≤ Z.of_nat (length data) < 2 ^ 32 - 2000
  ∧ (L mod 16 = 0)%nat ∧ (16 ≤ L ≤ 1392)%nat.

(** The payload, the number of segments, and the [k]-th part of the payload. *)
Definition tp_payload : bytes := drop 16 data.
Definition tp_count : nat := (length data - 16 + L - 1) / L.
Definition tp_chunk (k : nat) : bytes := take L (drop (k * L) tp_payload).
Definition tp_is_last (k : nat) : bool := bool_decide (S k = tp_count).

(** The [k]-th segment on the wire. *)
Definition tp_segment (k : nat) : bytes :=
  take 4 data ++ be_bytes 4 (Z.of_nat (length (tp_chunk k)) + 12) ++ take 6 (drop 8 data)
  ++ [Z.lor (nth 14 data 0) 0x20; nth 15 data 0]
  ++ be_bytes 4 (Z.lor (Z.of_nat (k * L)) (if tp_is_last k then 0 else 1)) ++ tp_chunk k.

Context (Hs : tp_splittable).

Lemma tp_payload_length : length tp_payload = (length data - 16)%nat.
Proof. unfold tp_payload. len. Qed.

Lemma tp_count_spec k : (k < tp_count ↔ k * L < length data - 16)%nat.
Proof using Hs.
  destruct Hs as (_ & [? _] & _ & HL). unfold tp_count. split; intros Hk.
  - apply (Nat.mul_le_mono_r (S k) _ L) in Hk.
    pose proof (Nat.Div0.mul_div_le (length data - 16 + L - 1) L). lia.
  - apply Nat.div_le_lower_bound; [lia|]. nia.
Qed.

Lemma tp_chunk_length k :
  (k < tp_count)%nat →
  length (tp_chunk k) = (if tp_is_last k then length data - 16 - k * L else L)%nat
  ∧ (1 ≤ length (tp_chunk k) ≤ L)%nat ∧ (k * L + length (tp_chunk k) ≤ length data - 16)%nat.
Proof using Hs.
  intros Hk. pose proof (proj1 (tp_count_spec k) Hk) as H1. pose proof (tp_count_spec (S k)) as H2.
  destruct Hs as (_ & [? _] & _ & HL).
  unfold tp_chunk, tp_is_last. rewrite length_take, length_drop, tp_payload_length.
  case_bool_decide.
  - assert (¬ S k * L < length data - 16)%nat by (rewrite <- H2; lia). lia.
  - assert (S k * L < length data - 16)%nat by (apply H2; lia). lia.
Qed.
End one_message.

(** Names the sixteen header bytes of a message. *)
Lemma header_bytes (data : bytes) :
  (16 ≤ length data)%nat →
  ∃ d0 d1 d2 d3 d4 d5 d6 d7 d8 d9 d10 d11 d12 d13 d14 d15 P,
    data = [d0; d1; d2; d3; d4; d5; d6; d7; d8; d9; d10; d11; d12; d13; d14; d15] ++ P.
Proof.
  intros Hl. do 16 (destruct data as [|? data]; [cbn [length] in Hl; lia|]).
  repeat eexists.
Qed.

Lemma header_bytes_be4 v : ∃ b0 b1 b2 b3, be_bytes 4 v = [b0; b1; b2; b3].
Proof. unfold be_bytes. cbn [le_bytes]. repeat eexists. Qed.

Lemma tp_split_one data L k :
  tp_splittable data L → (k < tp_count data L)%nat →
  tp.split_one data (16 + k * L) L = Ok (tp_segment data L k, tp_is_last data L k).
Proof.
  intros Hs Hk. destruct (tp_chunk_length data L Hs k Hk) as (Hc & Hc1 & Hc2).
  pose proof (tp_payload_length data) as HP.
  assert (bool_decide (length data ≤ 16 + k * L + L)%nat = tp_is_last data L k) as Elast.
  { unfold tp_is_last in *. case_bool_decide; case_bool_decide; try done.
    - rewrite Hc in Hc2. pose proof (proj1 (tp_count_spec data L Hs (S k))). lia.
    - pose proof (proj1 (tp_count_spec data L Hs (S k))). lia. }
  unfold tp.split_one. rewrite Elast.
  assert ((if tp_is_last data L k then rd data (16 + k * L) (length data - (16 + k * L))
           else rd data (16 + k * L) L) = Ok (tp_chunk data L k)) as ->.
  { destruct Hs as (_ & [? _] & _ & HL). unfold tp_chunk, tp_payload. rewrite drop_drop.
    destruct (tp_is_last data L k); rewrite rd_ok by lia; f_equal.
    rewrite !take_ge by len. done. }
  destruct Hs as (Hb & [Hlo Hhi] & HL16 & HL).
  destruct (header_bytes data) as (d0 & d1 & d2 & d3 & d4 & d5 & d6 & d7 & d8 & d9 & d10 & d11 & d12 & d13
    & d14 & d15 & P & ->); [lia|].
  unfold VSOMEIP_FULL_HEADER_SIZE, VSOMEIP_MESSAGE_TYPE_POS.
  rewrite rd_ok by (cbn [app length]; lia).
  cbn [app take drop mbind result_bind rd1 lookup list_lookup]. unfold wr1.
  rewrite decide_True by (cbn [length]; lia). cbn [mbind result_bind insert list_insert app].
  unfold tp_segment. set (C := tp_chunk _ L k) in *. set (b := tp_is_last _ L k).
  replace (16 + k * L - 16)%nat with (k * L)%nat by lia.
  cbn [app length] in Hhi, Hc2. change (2 ^ 32) with 4294967296 in Hhi.
  rewrite (wrap_small 32 (Z.of_nat (k * L))) by (wrap_bounds; lia).
  set (H := be_bytes 4 (Z.lor _ _)). assert (length H = 4%nat) as HH by apply be_bytes_length.
  rewrite wr_ok by (rewrite be_bytes_length; unfold VSOMEIP_LENGTH_POS_MIN; cbn [length]; lia).
  rewrite be_bytes_length. unfold VSOMEIP_LENGTH_POS_MIN, VSOMEIP_SOMEIP_HEADER_SIZE.
  cbn [app take drop Nat.add nth length mbind result_bind].
  rewrite take_0, app_nil_l, length_app, HH.
  rewrite wrap_small by (wrap_bounds; lia). do 7 f_equal. f_equal. lia.
Qed.

Lemma tp_split_from data L k fuel :
  tp_splittable data L → (k ≤ tp_count data L)%nat → (tp_count data L - k ≤ fuel)%nat → (0 < tp_count data L)%nat →
  tp.split_from fuel data (if decide (k = tp_count data L) then length data else 16 + k * L)%nat L
  = Some (Ok (tp_segment data L <$> seq k (tp_count data L - k))).
Proof.
  intros Hs Hk Hf Hn. remember (tp_count data L - k)%nat as r eqn:Er. revert k Hk Er fuel Hf.
  induction r as [|r IH]; intros k Hk Er fuel Hf.
  - rewrite decide_True by lia. destruct fuel; cbn; by rewrite decide_False by lia.
  - rewrite decide_False by lia. destruct fuel as [|fuel]; [lia|].
    assert (k * L < length data - 16)%nat by (apply tp_count_spec; [done|lia]).
    cbn [tp.split_from]. rewrite decide_True by lia. rewrite tp_split_one by (done || lia).
    assert ((if tp_is_last data L k then length data else 16 + k * L + L)
            = if decide (S k = tp_count data L) then length data else 16 + S k * L)%nat as ->.
    { unfold tp_is_last. case_decide; [by rewrite bool_decide_true|rewrite bool_decide_false by done; lia]. }
    rewrite (IH (S k)) by lia. done.
Qed.

(** [tp_split_message] in closed form. *)
Lemma tp_split_spec data L fuel :
  tp_splittable data L → (tp_count data L ≤ fuel)%nat →
  tp.tp_split_message fuel data L = Some (Ok (tp_segment data L <$> seq 0 (tp_count data L))).
Proof.
  intros Hs Hf. assert (0 < tp_count data L)%nat as Hn.
  { apply tp_count_spec; [done|]. destruct Hs as (_ & [? _] & _). lia. }
  unfold tp.tp_split_message, VSOMEIP_MAX_UDP_MESSAGE_SIZE.
  destruct (Z.ltb_spec (Z.of_nat (length data)) 1416); [destruct Hs as (_ & [? _] & _); lia|].
  pose proof (tp_split_from data L 0 fuel Hs ltac:(lia) ltac:(lia) Hn) as E.
  rewrite decide_False in E by lia. by rewrite Nat.sub_0_r in E.
Qed.

(** ** What a receiver reads from a segment *)

Section segment_facts.
Context (host : endianess_e) (data : bytes) (L k : nat).
Context (Hs : tp_splittable data L) (Hk : (k < tp_count data L)%nat).
Let s := tp_segment data L k.
Let size := length (tp_chunk data L k).

Definition tp_word : Z := Z.lor (Z.of_nat (k * L)) (if tp_is_last data L k then 0 else 1).

Lemma tp_word_fields :
  is_u32 tp_word ∧ tp.get_offset tp_word = Z.of_nat (k * L) ∧ tp.more_segments tp_word = negb (tp_is_last data L k).
Proof using Hs Hk.
  destruct (tp_chunk_length data L Hs k Hk) as (_ & Hc1 & Hc2).
  destruct Hs as (_ & [? ?] & HL & ?). apply tp_header_fields.
  - rewrite (Nat.div_mod_eq L 16), HL.
    replace (Z.of_nat (k * (16 * (L / 16) + 0))) with (Z.of_nat (k * (L / 16)) * 16) by lia.
    by apply Z.mod_mul.
  - change (2 ^ 32) with 4294967296 in *. unfold in_width. change (2 ^ 32) with 4294967296. lia.
Qed.

(** The parts of the segment. *)
Lemma tp_segment_parts :
  ∃ d0 d1 d2 d3 d4 d5 d6 d7 d8 d9 d10 d11 d12 d13 d14 d15 P,
    data = [d0; d1; d2; d3; d4; d5; d6; d7; d8; d9; d10; d11; d12; d13; d14; d15] ++ P
    ∧ s = [d0; d1; d2; d3] ++ be_bytes 4 (Z.of_nat size + 12)
            ++ [d8; d9; d10; d11; d12; d13; Z.lor d14 0x20; d15] ++ be_bytes 4 tp_word ++ tp_chunk data L k.
Proof using Hs Hk.
  destruct (header_bytes data) as (d0 & d1 & d2 & d3 & d4 & d5 & d6 & d7 & d8 & d9 & d10 & d11 & d12 & d13
    & d14 & d15 & P & E); [destruct Hs as (_ & [? _] & _); lia|].
  exists d0, d1, d2, d3, d4, d5, d6, d7, d8, d9, d10, d11, d12, d13, d14, d15, P. split; [done|].
  subst s size. unfold tp_segment. fold tp_word.
  assert (take 4 data = [d0; d1; d2; d3]) as -> by by rewrite E.
  assert (take 6 (drop 8 data) = [d8; d9; d10; d11; d12; d13]) as -> by by rewrite E.
  assert (nth 14 data 0 = d14) as -> by by rewrite E.
  assert (nth 15 data 0 = d15) as -> by by rewrite E. done.
Qed.

Lemma tp_segment_length : length s = (20 + size)%nat.
Proof using Hs Hk.
  destruct tp_segment_parts as (d0 & d1 & d2 & d3 & d4 & d5 & d6 & d7 & d8 & d9 & d10 & d11 & d12 & d13
    & d14 & d15 & P & _ & ->).
  rewrite !length_app, !be_bytes_length. cbn [length]. subst size. lia.
Qed.

Lemma tp_segment_too_short : tp_message.is_too_short s = false.
Proof using Hs Hk.
  unfold tp_message.is_too_short, VSOMEIP_FULL_HEADER_SIZE, VSOMEIP_TP_HEADER_SIZE.
  apply bool_decide_false. rewrite tp_segment_length. lia.
Qed.

Lemma tp_segment_size : tp_message.segment_size_of s = Z.of_nat size.
Proof using Hs Hk. unfold tp_message.segment_size_of. rewrite tp_segment_length. f_equal. lia. Qed.

Lemma rd_at (a b c : bytes) o n : length a = o → length b = n → rd (a ++ b ++ c) o n = Ok b.
Proof.
  intros <- <-. rewrite rd_ok by len. rewrite drop_app_length. by rewrite take_app_length.
Qed.

Lemma tp_segment_word : rd s 16 4 = Ok (be_bytes 4 tp_word).
Proof using Hs Hk.
  destruct tp_segment_parts as (d0 & d1 & d2 & d3 & d4 & d5 & d6 & d7 & d8 & d9 & d10 & d11 & d12 & d13
    & d14 & d15 & P & _ & ->).
  rewrite !app_assoc, <- app_assoc. apply rd_at; rewrite ?length_app, ?be_bytes_length; done.
Qed.

Lemma tp_segment_read_header : tp_message.read_tp_header host s = Ok tp_word.
Proof using Hs Hk.
  unfold tp_message.read_tp_header, VSOMEIP_TP_HEADER_POS_MIN. rewrite tp_segment_word.
  cbn [mbind result_bind]. unfold bithelper.read_uint32_be. rewrite read_be_small; [done|].
  apply tp_word_fields.
Qed.

Lemma tp_segment_chunk : rd s 20 size = Ok (tp_chunk data L k).
Proof using Hs Hk.
  destruct tp_segment_parts as (d0 & d1 & d2 & d3 & d4 & d5 & d6 & d7 & d8 & d9 & d10 & d11 & d12 & d13
    & d14 & d15 & P & _ & ->).
  rewrite !app_assoc. rewrite <- (app_nil_r (tp_chunk data L k)) at 1. 
  apply rd_at; rewrite ?length_app, ?be_bytes_length; done.
Qed.

Lemma tp_segment_length_field : rd s 4 4 = Ok (be_bytes 4 (Z.of_nat size + 12)).
Proof using Hs Hk.
  destruct tp_segment_parts as (d0 & d1 & d2 & d3 & d4 & d5 & d6 & d7 & d8 & d9 & d10 & d11 & d12 & d13
    & d14 & d15 & P & _ & ->).
  apply rd_at; by rewrite ?be_bytes_length.
Qed.

(** Header bytes outside the length field and the message type are copied. *)
Lemma tp_segment_header i :
  (i < 16)%nat → (i < 4 ∨ 8 ≤ i)%nat →
  s !! i = if decide (i = 14%nat) then (λ t, Z.lor t 0x20) <$> data !! 14%nat else data !! i.
Proof using Hs Hk.
  destruct tp_segment_parts as (d0 & d1 & d2 & d3 & d4 & d5 & d6 & d7 & d8 & d9 & d10 & d11 & d12 & d13
    & d14 & d15 & P & -> & ->). intros Hi Hr.
  destruct (decide (i < 4)%nat).
  { do 4 (destruct i as [|i]; [done|]). lia. }
  rewrite lookup_app_r by (cbn [length]; lia). rewrite lookup_app_r by (rewrite be_bytes_length; cbn [length]; lia).
  rewrite be_bytes_length. cbn [length].
  do 8 (destruct i as [|i]; [lia|]).
  replace (S (S (S (S (S (S (S (S i))))))) - 4 - 4)%nat with i by lia.
  do 8 (destruct i as [|i]; [done|]). lia.
Qed.

Lemma tp_segment_checks m :
  let more := tp.more_segments tp_word in
  Z.of_nat (k * L) + Z.of_nat size ≤ tp_message.max_message_size_ m < 2 ^ 32 →
  0 ≤ tp_message.current_message_size_ m →
  tp_message.current_message_size_ m + Z.of_nat size ≤ tp_message.max_message_size_ m →
  tp_message.check_lengths host s (Z.of_nat size) more m = Ok true.
Proof using Hs Hk.
  intros more Hmax Hcur Hsz.
  destruct (tp_chunk_length data L Hs k Hk) as (Hc & Hc1 & Hc2). fold size in Hc, Hc1, Hc2.
  destruct tp_word_fields as (Hw & Ho & Hm).
  unfold tp_message.check_lengths, VSOMEIP_LENGTH_POS_MIN, VSOMEIP_TP_HEADER_POS_MIN.
  rewrite tp_segment_length_field, tp_segment_word. cbn [mbind result_bind].
  unfold rd1, VSOMEIP_MESSAGE_TYPE_POS. rewrite tp_segment_header by lia. rewrite decide_True by done.
  destruct (lookup_lt_is_Some_2 data 14) as [t ->]; [destruct Hs as (_ & [? _] & _); lia|].
  cbn [fmap option_fmap option_map mbind result_bind]. rewrite tp_flag_set_is_set. cbn [negb].
  unfold bithelper.read_uint32_be.
  destruct Hs as (_ & [Hlo Hhi] & HL16 & HL). change (2 ^ 32) with 4294967296 in *.
  rewrite !read_be_small by first [exact Hw|wrap_bounds; change (2 ^ (8 * Z.of_nat 4)) with 4294967296; lia].
  unfold VSOMEIP_SOMEIP_HEADER_SIZE. rewrite tp_segment_length, Ho.
  rewrite !wrap_small by (wrap_bounds; lia).
  repeat match goal with
  | |- context [?a =? ?b] => first [rewrite (proj2 (Z.eqb_eq a b)) by lia]
  | |- context [?a <? ?b] => first [rewrite (proj2 (Z.ltb_ge a b)) by (unfold tp.tp_max_segment_length_; lia)]
  end; cbn [negb orb andb].
  subst more. rewrite Hm. unfold tp_is_last in *.
  destruct (bool_decide (S k = tp_count data L)); cbn [negb andb]; [done|].
  rewrite Hc. destruct (Z.ltb_spec 0 (Z.of_nat L mod 16)) as [Hbad|]; [|done].
  exfalso. change 16 with (Z.of_nat 16) in Hbad. rewrite <- Nat2Z.inj_mod, HL16 in Hbad. lia.
Qed.
End segment_facts.

(** ** The received segments as a sorted list of indices *)

(** [ins k ks] inserts an index into a strictly increasing list. *)
Fixpoint ins_pos (k : nat) (ks : list nat) : nat :=
  match ks with
  | j :: ks => if decide (j < k)%nat then S (ins_pos k ks) else 0%nat
  | [] => 0%nat
  end.
Definition ins (k : nat) (ks : list nat) : list nat := take (ins_pos k ks) ks ++ k :: drop (ins_pos k ks) ks.

Abbreviation increasing := (StronglySorted lt).

Section indices.
Implicit Types (k j : nat) (ks : list nat).

Lemma ins_pos_le k ks : (ins_pos k ks ≤ length ks)%nat.
Proof. induction ks as [|j ks IH]; cbn; [lia|]. case_decide; lia. Qed.

Lemma ins_pos_before k ks j : j ∈ take (ins_pos k ks) ks → (j < k)%nat.
Proof.
  induction ks as [|i ks IH]; cbn; [by rewrite elem_of_nil|].
  case_decide; cbn; [|by rewrite elem_of_nil]. rewrite elem_of_cons. intros [->|]; auto.
Qed.

Lemma ins_pos_after k ks j : increasing ks → j ∈ drop (ins_pos k ks) ks → (k ≤ j)%nat.
Proof.
  induction 1 as [|i ks Hs IH Hi]; cbn; [by rewrite elem_of_nil|].
  case_decide; cbn; [done|]. rewrite elem_of_cons. intros [->|Hj]; [lia|].
  rewrite Forall_forall in Hi. specialize (Hi j Hj). lia.
Qed.

Lemma ins_elem k ks j : j ∈ ins k ks ↔ j = k ∨ j ∈ ks.
Proof.
  unfold ins. rewrite elem_of_app, elem_of_cons.
  assert (j ∈ ks ↔ j ∈ take (ins_pos k ks) ks ++ drop (ins_pos k ks) ks) as -> by by rewrite take_drop.
  rewrite elem_of_app. tauto.
Qed.

Lemma ins_perm k ks : ins k ks ≡ₚ k :: ks.
Proof. unfold ins. rewrite <- Permutation_middle. by rewrite take_drop. Qed.

Lemma increasing_app ks1 ks2 :
  increasing ks1 → increasing ks2 → (∀ i j, i ∈ ks1 → j ∈ ks2 → (i < j)%nat) → increasing (ks1 ++ ks2).
Proof.
  induction 1 as [|i ks1 H1 IH Hi]; cbn; [done|]. intros H2 H. constructor.
  - apply IH; [done|]. intros; apply H; set_solver.
  - apply Forall_app; split; [done|]. apply Forall_forall. intros; apply H; set_solver.
Qed.

Lemma increasing_take_drop n ks : increasing ks → increasing (take n ks) ∧ increasing (drop n ks).
Proof.
  intros H. revert n. induction H as [|i ks H IH Hi]; intros [|n]; cbn; try (split; constructor; done).
  destruct (IH n) as [? ?]. split; [|done]. constructor; [done|]. by apply Forall_take.
Qed.

Lemma ins_increasing k ks : increasing ks → k ∉ ks → increasing (ins k ks).
Proof.
  intros Hs Hk. destruct (increasing_take_drop (ins_pos k ks) ks Hs) as [H1 H2]. unfold ins.
  assert (∀ j, j ∈ drop (ins_pos k ks) ks → (k < j)%nat) as Ha.
  { intros j Hj. pose proof (ins_pos_after k ks j Hs Hj). assert (j ≠ k); [|lia].
    intros ->. apply Hk. rewrite <- (take_drop (ins_pos k ks) ks). set_solver. }
  apply increasing_app; [done| |].
  - constructor; [done|]. apply Forall_forall. auto.
  - intros i j Hi Hj. apply ins_pos_before in Hi. apply elem_of_cons in Hj as [->|Hj]; [done|].
    specialize (Ha j Hj). lia.
Qed.

Lemma increasing_lookup ks i j x y :
  increasing ks → ks !! i = Some x → ks !! j = Some y → (i < j)%nat → (x < y)%nat.
Proof.
  intros H. revert i j. induction H as [|z ks H IH Hz]; intros [|i] [|j] Hi Hj Hlt; try lia; try done; cbn in *.
  - simplify_eq. rewrite Forall_forall in Hz. apply Hz. by eapply list_elem_of_lookup_2.
  - apply (IH i j); [done..|lia].
Qed.

(** An increasing list of all the numbers below [n]. *)
Lemma increasing_full ks n :
  increasing ks → (∀ j, j ∈ ks ↔ (j < n)%nat) → ks = seq 0 n.
Proof.
  intros Hs Hn. assert (AntiSymm eq lt) by (intros ?? ??; lia). apply (StronglySorted_unique lt).
  - done.
  - clear. generalize 0%nat. induction n as [|n IH]; intros k; cbn; constructor; [done|].
    apply Forall_forall. intros x Hx%elem_of_seq. lia.
  - apply NoDup_Permutation.
    + clear Hn. induction Hs as [|x ks Hs IH Hx]; constructor; [|done].
      rewrite Forall_forall in Hx. intros ?%Hx. lia.
    + apply NoDup_seq.
    + intros x. rewrite Hn, elem_of_seq. lia.
Qed.
End indices.

(** ** The state of a reassembly *)

Lemma div_eq_iff L p k : (0 < L → p / L = k ↔ k * L ≤ p < S k * L)%nat.
Proof.
  intros HL. pose proof (Nat.div_mod_eq p L). pose proof (Nat.mod_upper_bound p L). split.
  - intros <-. nia.
  - intros ?. symmetry. apply (Nat.div_unique _ _ _ (p - k * L)); nia.
Qed.

Section reassembly.
Context (data : bytes) (L : nat) (Hs : tp_splittable data L).
Implicit Types (ks : list nat) (k j p : nat) (m : tp_message.t).

Let n := tp_count data L.
Let size k := length (tp_chunk data L k).

Definition tp_seg (k : nat) : tp_message.segment_t :=
  tp_message.mk_segment (Z.of_nat (k * L)) (Z.of_nat (k * L + length (tp_chunk data L k)) - 1).

(** The payload length covered so far: the end of the last received segment. *)
Definition tp_top (ks : list nat) : nat :=
  match last ks with Some k => (k * L + length (tp_chunk data L k))%nat | None => 0%nat end.

Definition tp_sum (ks : list nat) : nat := sum_list_with (λ k, length (tp_chunk data L k)) ks.

(** The header byte [i] of the message that is assembled (not the length). *)
Definition tp_header_byte (i : nat) : option Z :=
  if decide (i = 14%nat) then (λ t, tp.tp_flag_unset (Z.lor t 0x20)) <$> data !! 14%nat else data !! i.

Definition tp_known (ks : list nat) : Prop :=
  increasing ks ∧ ks ≠ [] ∧ ∀ j, j ∈ ks → (j < n)%nat.

(** The buffer after the segments [ks] were received: bytes of segments that
    are still missing are 0. *)
Record tp_message_ok (ks : list nat) (msg : bytes) : Prop := {
  ok_length : length msg = (16 + tp_top ks)%nat;
  ok_header : ∀ i, (i < 16)%nat → (i < 4 ∨ 8 ≤ i)%nat → msg !! i = tp_header_byte i;
  ok_payload : ∀ p, (p < tp_top ks)%nat →
    msg !! (16 + p)%nat = if decide ((p / L)%nat ∈ ks) then data !! (16 + p)%nat else Some 0
}.

(** The state after the segments [ks] were received. *)
Record tp_inv (ks : list nat) (m : tp_message.t) : Prop := {
  inv_segments : tp_message.segments_ m = tp_seg <$> ks;
  inv_size : tp_message.current_message_size_ m = 16 + Z.of_nat (tp_sum ks);
  inv_last : tp_message.last_segment_received_ m = bool_decide ((n - 1)%nat ∈ ks);
  inv_message : tp_message_ok ks (tp_message.message_ m)
}.

Lemma tp_L_pos : (0 < L)%nat.
Proof using Hs. destruct Hs as (_ & _ & _ & ?). lia. Qed.

Lemma tp_size_inner k j : (k < j)%nat → (j < n)%nat → size k = L.
Proof using Hs.
  intros Hkj Hj. subst n size. destruct (tp_chunk_length data L Hs k) as (-> & _); [lia|].
  unfold tp_is_last. by rewrite bool_decide_false by lia.
Qed.

Lemma tp_seg_lt a b :
  (a < n)%nat → (b < n)%nat → tp_message.segment_lt (tp_seg a) (tp_seg b) = bool_decide (a < b)%nat.
Proof using Hs.
  intros Ha Hb. pose proof tp_L_pos. unfold tp_message.segment_lt, tp_seg.
  destruct (tp_chunk_length data L Hs a Ha) as (_ & Ha1 & _).
  destruct (tp_chunk_length data L Hs b Hb) as (_ & Hb1 & _).
  cbn [tp_message.start_ tp_message.end_]. case_bool_decide.
  - rewrite (proj2 (Z.ltb_lt _ _)); [done|]. nia.
  - rewrite (proj2 (Z.ltb_ge _ _)) by nia. cbn [orb]. apply andb_false_iff. right. apply Z.ltb_ge.
    destruct (decide (a = b)) as [->|]; [lia|]. assert (S b * L ≤ a * L)%nat by (apply Nat.mul_le_mono_r; lia). lia.
Qed.

Lemma tp_emplace_pos k ks :
  (k < n)%nat → (∀ j, j ∈ ks → (j < n)%nat) → tp_message.emplace_pos (tp_seg k) (tp_seg <$> ks) = ins_pos k ks.
Proof using Hs.
  intros Hk. induction ks as [|j ks IH]; intros Hks; [done|].
  cbn [fmap list_fmap tp_message.emplace_pos ins_pos].
  rewrite tp_seg_lt by (done || (apply Hks; set_solver)).
  case_bool_decide; rewrite ?decide_True, ?decide_False by done; [|done]. f_equal. apply IH. set_solver.
Qed.

Lemma tp_emplace_order k ks :
  (k < n)%nat → (∀ j, j ∈ ks → (j < n)%nat) →
  existsb (λ y, tp_message.segment_lt (tp_seg k) y && tp_message.segment_lt y (tp_seg k)) (tp_seg <$> ks) = false.
Proof using Hs.
  intros Hk Hks. apply not_true_iff_false. rewrite existsb_exists. intros (y & Hy & Hb).
  apply list_elem_of_In, list_elem_of_fmap in Hy as (j & -> & Hj).
  rewrite !tp_seg_lt in Hb by auto. repeat case_bool_decide; cbn in Hb; done || lia.
Qed.

Lemma tp_emplace_fresh k ks :
  tp_known ks → (k < n)%nat → k ∉ ks →
  tp_message.emplace (tp_seg k) (tp_seg <$> ks) = Ok (Some (ins_pos k ks), tp_seg <$> ins k ks).
Proof using Hs.
  intros (Hinc & _ & Hks) Hk Hnot. unfold tp_message.emplace.
  rewrite tp_emplace_order, tp_emplace_pos by done. rewrite list_lookup_fmap.
  destruct (ks !! ins_pos k ks) as [j|] eqn:Ej; cbn [fmap option_fmap option_map].
  - assert (k < j)%nat as Hkj.
    { assert (j ∈ drop (ins_pos k ks) ks) as Hj
        by (apply list_elem_of_lookup; exists 0%nat; by rewrite lookup_drop, Nat.add_0_r).
      apply ins_pos_after in Hj; [|done]. apply list_elem_of_lookup_2 in Ej. assert (j ≠ k) by congruence. lia. }
    rewrite tp_seg_lt by (done || by apply Hks; eapply list_elem_of_lookup_2).
    rewrite bool_decide_true by done. unfold ins.
    by rewrite fmap_app, fmap_cons, fmap_take, fmap_drop.
  - apply lookup_ge_None in Ej. pose proof (ins_pos_le k ks). unfold ins.
    by rewrite take_ge, drop_ge, fmap_app by lia.
Qed.

Lemma tp_emplace_duplicate k ks :
  tp_known ks → k ∈ ks →
  tp_message.emplace (tp_seg k) (tp_seg <$> ks) = Ok (None, tp_seg <$> ks).
Proof using Hs.
  intros (Hinc & _ & Hks) Hin. unfold tp_message.emplace.
  rewrite tp_emplace_order, tp_emplace_pos by auto. rewrite list_lookup_fmap.
  destruct (ks !! ins_pos k ks) as [j|] eqn:Ej; cbn [fmap option_fmap option_map].
  - assert (k ∈ drop (ins_pos k ks) ks) as Hd.
    { rewrite <- (take_drop (ins_pos k ks) ks) in Hin. apply elem_of_app in Hin as [Hin|]; [|done].
      apply ins_pos_before in Hin. lia. }
    rewrite tp_seg_lt by (apply Hks; done || by eapply list_elem_of_lookup_2).
    rewrite bool_decide_false; [done|]. intros Hkj.
    apply list_elem_of_lookup in Hd as (i & Hi). rewrite lookup_drop in Hi.
    destruct i as [|i]; [rewrite Nat.add_0_r in Hi; simplify_eq; lia|].
    pose proof (increasing_lookup _ _ _ _ _ Hinc Ej Hi). lia.
  - apply lookup_ge_None in Ej. pose proof (ins_pos_le k ks).
    rewrite <- (take_ge ks (ins_pos k ks)) in Hin by lia. apply ins_pos_before in Hin. lia.
Qed.

(** The received sizes never exceed the payload. *)
Lemma tp_sum_bound ks a :
  increasing ks → (∀ j, j ∈ ks → (a ≤ j < n)%nat) → (a ≤ n)%nat → ks ≠ [] →
  (a * L + tp_sum ks ≤ length data - 16)%nat.
Proof using Hs.
  intros H. revert a. induction H as [|k ks Hinc IH Hk]; intros a Hks Ha Hne; [done|].
  assert (a ≤ k < n)%nat as Hka by (apply Hks; rewrite elem_of_cons; auto).
  destruct (tp_chunk_length data L Hs k) as (_ & H1 & H2); [lia|].
  assert (tp_sum (k :: ks) = size k + tp_sum ks)%nat as -> by done.
  destruct ks as [|k2 ks'].
  - change (tp_sum []) with 0%nat. subst size. cbn beta. nia.
  - assert (size k = L) as ->.
    { apply (tp_size_inner k k2); [|apply Hks; rewrite !elem_of_cons; auto]. by apply Forall_inv in Hk. }
    specialize (IH (S k)). assert (S k * L + tp_sum (k2 :: ks') ≤ length data - 16)%nat; [|nia].
    apply IH; [|lia|done]. intros j Hj. rewrite Forall_forall in Hk. specialize (Hk j Hj).
    assert (a ≤ j < n)%nat by (apply Hks; rewrite elem_of_cons; auto). lia.
Qed.

Lemma tp_sum_ins k ks : tp_sum (ins k ks) = (size k + tp_sum ks)%nat.
Proof.
  unfold tp_sum. rewrite ins_perm. done.
Qed.

(** The completeness loop. *)
Lemma tp_all_present ks a e :
  increasing ks → (∀ j, j ∈ ks → (a ≤ j < n)%nat) → (a < n → (n - 1)%nat ∈ ks)%nat →
  ((a < n)%nat → u32 (e + 1) = Z.of_nat (a * L)) →
  tp_message.all_present e (tp_seg <$> ks) = true ↔ ∀ j, (a ≤ j < n)%nat → j ∈ ks.
Proof using Hs.
  intros H. revert a e. induction H as [|k ks Hinc IH Hk]; intros a e Hks Hlast He; cbn.
  { split; [|done]. intros _ j Hj. exfalso. assert (a < n)%nat as Ha by lia. apply Hlast in Ha. by apply elem_of_nil in Ha. }
  assert (a ≤ k < n)%nat as Hka by (apply Hks; rewrite elem_of_cons; auto).
  rewrite He by lia. pose proof tp_L_pos. rewrite Forall_forall in Hk.
  destruct (Z.eqb_spec (Z.of_nat (a * L)) (Z.of_nat (k * L))) as [E|E].
  - assert (a = k) as -> by nia. clear E.
    destruct (tp_chunk_length data L Hs k) as (_ & H1 & H2); [lia|].
    rewrite (IH (S k)).
    + split; intros Hall j Hj.
      * destruct (decide (j = k)) as [->|]; [by left|right]. apply Hall. lia.
      * assert (j ∈ k :: ks) as Hj2 by (apply Hall; lia). apply elem_of_cons in Hj2 as [->|]; [lia|done].
    + intros j Hj. specialize (Hk j Hj). assert (k ≤ j < n)%nat by (apply Hks; rewrite elem_of_cons; auto). lia.
    + intros Hlt. assert ((n - 1)%nat ∈ k :: ks) as Hin by (apply Hlast; lia).
      apply elem_of_cons in Hin as [?|]; [lia|done].
    + intros Hlt. assert (length (tp_chunk data L k) = L) as -> by (apply (tp_size_inner k (S k)); lia).
      destruct Hs as (_ & [? ?] & _). rewrite wrap_small; [lia|].
      pose proof (proj1 (tp_count_spec data L Hs (S k)) Hlt). wrap_bounds. lia.
  - split; [done|]. intros Hall. exfalso. assert (a ∈ k :: ks) as Ha by (apply Hall; lia).
    apply elem_of_cons in Ha as [->|Ha]; [done|]. specialize (Hk a Ha). lia.
Qed.

Lemma tp_last_ins k ks :
  last (ins k ks) = if decide (ins_pos k ks = length ks) then Some k else last ks.
Proof.
  unfold ins. case_decide as E.
  - rewrite drop_ge by lia. by rewrite last_snoc.
  - pose proof (ins_pos_le k ks). pose proof (take_drop (ins_pos k ks) ks) as Et.
    destruct (drop (ins_pos k ks) ks) as [|x l] eqn:Ed.
    { apply (f_equal length) in Ed. rewrite length_drop in Ed. cbn in Ed. lia. }
    assert (last ks = last (x :: l)) as -> by (rewrite <- Et; apply last_app_cons).
    by rewrite last_app_cons.
Qed.

Lemma tp_top_bound ks : tp_known ks → (tp_top ks ≤ length data - 16)%nat.
Proof using Hs.
  intros (_ & Hne & Hks). unfold tp_top. destruct (last ks) as [k|] eqn:E; [|lia].
  destruct (tp_chunk_length data L Hs k) as (_ & _ & H2); [|done].
  apply Hks. by eapply last_Some_elem_of.
Qed.

Lemma tp_known_ins k ks : tp_known ks → (k < n)%nat → k ∉ ks → tp_known (ins k ks).
Proof using Hs.
  intros (Hinc & Hne & Hks) Hk Hnot. split_and!.
  - by apply ins_increasing.
  - unfold ins. by destruct (take (ins_pos k ks) ks).
  - intros j [->|]%ins_elem; auto.
Qed.

(** The payload byte of a received segment. *)
Lemma tp_chunk_lookup k p :
  (k < n)%nat → (k * L ≤ p < k * L + size k)%nat →
  tp_chunk data L k !! (p - k * L)%nat = data !! (16 + p)%nat ∧ (p / L = k)%nat.
Proof using Hs.
  intros Hk Hp. destruct (tp_chunk_length data L Hs k Hk) as (_ & H1 & H2). unfold size in Hp. split.
  - unfold tp_chunk. rewrite lookup_take_lt by lia. unfold tp_payload. rewrite !lookup_drop. f_equal. lia.
  - apply div_eq_iff; [apply tp_L_pos|]. lia.
Qed.

Lemma resize_lookup l N i :
  (i < N)%nat → tp_message.resize N l !! i = if decide (i < length l)%nat then l !! i else Some 0.
Proof.
  intros Hi. unfold tp_message.resize. case_decide.
  - rewrite lookup_app_l by len. by rewrite lookup_take_lt.
  - rewrite lookup_app_r by len. apply lookup_replicate_2. len.
Qed.

Lemma resize_length l N : length (tp_message.resize N l) = N.
Proof. unfold tp_message.resize. len. Qed.

Lemma resize_id l : tp_message.resize (length l) l = l.
Proof. unfold tp_message.resize. by rewrite take_ge, Nat.sub_diag, app_nil_r by lia. Qed.

(** A segment behind all others. *)
Lemma tp_message_append k ks msg :
  tp_known ks → (k < n)%nat → k ∉ ks → ins_pos k ks = length ks → tp_message_ok ks msg →
  tp_message_ok (ins k ks) (tp_message.resize (16 + k * L) msg ++ tp_chunk data L k).
Proof using Hs.
  intros (Hinc & Hne & Hks) Hk Hnot Hpos [Hlen Hhdr Hpay].
  assert (∀ j, j ∈ ks → (j < k)%nat) as Hlt.
  { intros j Hj. apply (ins_pos_before k ks). by rewrite Hpos, take_ge. }
  assert (tp_top (ins k ks) = k * L + size k)%nat as Htop
    by (unfold tp_top; by rewrite tp_last_ins, decide_True).
  destruct (last ks) as [j|] eqn:El; [|by apply last_None in El].
  assert (j ∈ ks) as Hj by by eapply last_Some_elem_of.
  assert (tp_top ks = S j * L)%nat as Htop0.
  { unfold tp_top. rewrite El. pose proof (Hlt j Hj). assert (size j = L) as Hsz by by apply (tp_size_inner j k).
    unfold size in Hsz. rewrite Hsz. lia. }
  pose proof tp_L_pos. assert (S j * L ≤ k * L)%nat by (apply Nat.mul_le_mono_r; by apply Hlt).
  split.
  - rewrite length_app, resize_length, Htop. unfold size. lia.
  - intros i Hi Hr. rewrite lookup_app_l by (rewrite resize_length; lia).
    rewrite resize_lookup, decide_True by lia. by apply Hhdr.
  - intros p Hp. rewrite Htop in Hp. destruct (decide (p < k * L)%nat).
    + rewrite lookup_app_l by (rewrite resize_length; lia). rewrite resize_lookup by lia. rewrite Hlen, Htop0.
      assert (p / L < k)%nat by (apply Nat.Div0.div_lt_upper_bound; lia).
      destruct (decide (16 + p < 16 + S j * L)%nat).
      * rewrite Hpay by lia. apply decide_ext. rewrite ins_elem. intuition lia.
      * rewrite decide_False; [done|]. rewrite ins_elem. intros [?|Hin]; [lia|].
        assert (S j ≤ p / L)%nat by (apply Nat.div_le_lower_bound; lia).
        assert (p / L ≤ j)%nat; [|lia].
        (* [j] is the largest element *)
        apply list_elem_of_lookup in Hin as (a & Ha). rewrite last_lookup in El.
        destruct (decide (a = pred (length ks))) as [->|]; [simplify_eq; lia|].
        apply lookup_lt_Some in Ha as Ha'.
        pose proof (increasing_lookup ks a (pred (length ks)) _ _ Hinc Ha El). lia.
    + rewrite lookup_app_r by (rewrite resize_length; lia). rewrite resize_length.
      replace (16 + p - (16 + k * L))%nat with (p - k * L)%nat by lia.
      destruct (tp_chunk_lookup k p) as [-> ->]; [done|lia|].
      rewrite decide_True; [done|]. apply ins_elem. by left.
Qed.

(** A segment in front of another. *)
Lemma tp_message_copy k ks msg j :
  tp_known ks → (k < n)%nat → k ∉ ks → ins_pos k ks ≠ length ks → tp_message_ok ks msg →
  j ∈ ks → (k < j)%nat →
  ∃ msg', wr msg (16 + k * L) (tp_chunk data L k) = Ok msg' ∧ tp_message_ok (ins k ks) msg'.
Proof using Hs.
  intros (Hinc & Hne & Hks) Hk Hnot Hpos [Hlen Hhdr Hpay] Hj Hkj.
  pose proof tp_L_pos. assert (size k = L) as Hsz by (apply (tp_size_inner k j); auto).
  assert (tp_top (ins k ks) = tp_top ks) as Htop
    by (unfold tp_top; by rewrite tp_last_ins, decide_False).
  assert (S k * L ≤ tp_top ks)%nat as Hin.
  { destruct (last ks) as [i|] eqn:El; [|by apply last_None in El]. unfold tp_top. rewrite El.
    assert (k < i)%nat; [|nia]. rewrite last_lookup in El.
    apply list_elem_of_lookup in Hj as (a & Ha). apply lookup_lt_Some in Ha as Ha'.
    destruct (decide (a = pred (length ks))) as [->|]; [by simplify_eq|].
    pose proof (increasing_lookup ks a (pred (length ks)) _ _ Hinc Ha El). lia. }
  unfold size in Hsz.
  destruct (wr msg (16 + k * L) (tp_chunk data L k)) as [msg'| | |u] eqn:Ew;
    try (unfold wr in Ew; rewrite decide_True in Ew by lia; discriminate Ew).
  exists msg'. split; [done|]. split.
  - by rewrite (wr_length _ _ _ _ Ew), Htop.
  - intros i Hi Hr. rewrite (wr_lookup _ _ _ _ _ Ew), decide_False by lia. by apply Hhdr.
  - intros p Hp. rewrite Htop in Hp. rewrite (wr_lookup _ _ _ _ _ Ew), Hsz. case_decide.
    + replace (16 + p - (16 + k * L))%nat with (p - k * L)%nat by lia.
      destruct (tp_chunk_lookup k p) as [-> ->]; [done|unfold size; lia|].
      rewrite decide_True; [done|]. apply ins_elem. by left.
    + rewrite Hpay by done. apply decide_ext. rewrite ins_elem.
      assert (p / L ≠ k)%nat; [|tauto]. intros E%div_eq_iff; lia.
Qed.

(** *** The operations on such states *)

Definition tp_fits (m : tp_message.t) : Prop :=
  Z.of_nat (length data) ≤ tp_message.max_message_size_ m < 2 ^ 32.

Lemma tp_n_bound : (2 ≤ n)%nat.
Proof using Hs.
  assert (1 < n)%nat; [|lia]. apply tp_count_spec; [done|]. destruct Hs as (_ & [? _] & _ & ?). lia.
Qed.

Section steps.
Context (host : endianess_e) (k : nat) (Hk : (k < n)%nat).
Let s := tp_segment data L k.
Let off := Z.of_nat (k * L).
Let sz := Z.of_nat (length (tp_chunk data L k)).

Lemma tp_append_payload m :
  tp_message.append_payload s 0 sz m
  = Ok (tp_message.with_message m (tp_message.message_ m ++ tp_chunk data L k)).
Proof using Hs Hk.
  unfold tp_message.append_payload. subst sz. rewrite (proj2 (Z.leb_le _ _)) by lia.
  rewrite Z.sub_0_r, Nat2Z.id. unfold VSOMEIP_TP_PAYLOAD_POS. cbn [Z.to_nat Nat.add].
  subst s size. cbn beta. by rewrite tp_segment_chunk.
Qed.

Lemma tp_copy_payload m msg' :
  wr (tp_message.message_ m) (16 + k * L) (tp_chunk data L k) = Ok msg' →
  tp_message.copy_payload s off 0 sz m = Ok (tp_message.with_message m msg').
Proof using Hs Hk.
  intros Hw. unfold tp_message.copy_payload, VSOMEIP_TP_PAYLOAD_POS. subst sz off. rewrite !Nat2Z.id.
  change (20 + Z.to_nat 0)%nat with 20%nat. subst s size. cbn beta. rewrite tp_segment_chunk by done.
  cbn [mbind result_bind]. by rewrite Hw.
Qed.

Lemma tp_add_last ks m more :
  tp_known ks → k ∉ ks → ins_pos k ks = length ks → tp_inv ks m →
  let m1 := tp_message.with_segments m (tp_seg <$> ins k ks) in
  tp_message.add_last s off sz more (ins_pos k ks) (tp_seg k) m1
  = Ok (tp_message.add_size (tp_message.with_message m1
      (tp_message.resize (16 + k * L) (tp_message.message_ m) ++ tp_chunk data L k)) sz).
Proof using Hs Hk.
  intros Hkn Hnot Hpos Hinv m1. pose proof Hkn as (Hinc & Hne & Hks).
  rewrite Hpos. destruct (last ks) as [j|] eqn:El; [|by apply last_None in El].
  assert (j ∈ ks) as Hj by by eapply last_Some_elem_of.
  assert (j < k)%nat as Hjk by (apply (ins_pos_before k ks); by rewrite Hpos, take_ge).
  assert (size j = L) as Hsz by by apply (tp_size_inner j k).
  pose proof tp_L_pos. assert (S j * L ≤ k * L)%nat by (apply Nat.mul_le_mono_r; lia).
  destruct (length ks) as [|q] eqn:Hlen; [by destruct ks|]. cbn [tp_message.add_last].
  rewrite last_lookup, Hlen in El. cbn [pred] in El.
  assert (at_idx (tp_message.segments_ m1) q = Ok (tp_seg j)) as ->.
  { unfold at_idx, m1, ins. cbn [tp_message.segments_ tp_message.with_segments].
    rewrite Hpos, list_lookup_fmap, take_ge by lia. rewrite lookup_app_l by lia. by rewrite El. }
  cbn [mbind result_bind tp_message.start_ tp_message.end_ tp_seg].
  unfold size in Hsz. rewrite Hsz. rewrite (proj2 (Z.ltb_lt _ _)) by lia.
  destruct Hs as (_ & [? Hhi] & _).
  destruct (tp_chunk_length data L Hs k Hk) as (_ & _ & Hb). change (2 ^ 32) with 4294967296 in Hhi.
  rewrite wrap_small by (wrap_bounds; lia).
  destruct Hinv as [_ _ _ [Hml _ _]]. unfold tp_top in Hml. rewrite last_lookup, Hlen in Hml. cbn [pred] in Hml.
  rewrite El, Hsz in Hml.
  destruct (Z.eqb_spec (Z.of_nat (j * L + L) - 1 + 1) (Z.of_nat (k * L))) as [E|E].
  - rewrite tp_append_payload. cbn [mbind result_bind].
    replace (16 + k * L)%nat with (length (tp_message.message_ m)) by lia. by rewrite resize_id.
  - rewrite tp_append_payload. cbn [mbind result_bind]. subst off. by rewrite Nat2Z.id.
Qed.

Lemma tp_add_between ks m j :
  tp_known ks → k ∉ ks → tp_inv ks m → ins k ks !! S (ins_pos k ks) = Some j →
  let m1 := tp_message.with_segments m (tp_seg <$> ins k ks) in
  ∃ msg', tp_message_ok (ins k ks) msg'
    ∧ tp_message.add_between s off sz (ins_pos k ks) (tp_seg k) (tp_seg j) m1
      = Ok (tp_message.add_size (tp_message.with_message m1 msg') sz).
Proof using Hs Hk.
  intros Hkn Hnot Hinv Hj m1. pose proof Hkn as (Hinc & Hne & Hks).
  pose proof (ins_pos_le k ks).
  assert (ks !! ins_pos k ks = Some j) as Hj'.
  { unfold ins in Hj. rewrite lookup_app_r in Hj by len. rewrite length_take, Nat.min_l in Hj by lia.
    replace (S (ins_pos k ks) - ins_pos k ks)%nat with 1%nat in Hj by lia.
    rewrite lookup_cons_ne_0, lookup_drop in Hj by done. by rewrite Nat.add_0_r in Hj. }
  apply lookup_lt_Some in Hj' as Hlt.
  assert (j ∈ ks) as Hjin by by eapply list_elem_of_lookup_2.
  assert (k < j)%nat as Hkj.
  { assert (k ≤ j)%nat; [|assert (j ≠ k) by congruence; lia]. apply (ins_pos_after k ks); [done|].
    apply list_elem_of_lookup. exists 0%nat. by rewrite lookup_drop, Nat.add_0_r. }
  destruct (tp_message_copy k ks (tp_message.message_ m) j) as (msg' & Hw & Hok); try done; [lia|apply Hinv|].
  exists msg'. split; [done|].
  pose proof tp_L_pos. assert (size k = L) as Hsz by (apply (tp_size_inner k j); auto).
  assert (S k * L ≤ j * L)%nat by (apply Nat.mul_le_mono_r; lia).
  assert ((tp_message.end_ (tp_seg k) <? tp_message.start_ (tp_seg j)) = true) as Hnext.
  { apply Z.ltb_lt. cbn [tp_message.start_ tp_message.end_ tp_seg]. unfold size in Hsz. rewrite Hsz. lia. }
  unfold tp_message.add_between. rewrite Hnext.
  rewrite (tp_copy_payload m1 msg' Hw). cbn [mbind result_bind].
  destruct (ins_pos k ks) as [|q] eqn:Hpos; [done|].
  destruct (lookup_lt_is_Some_2 ks q) as [i Hi]; [lia|].
  assert (i < k)%nat as Hik.
  { apply (ins_pos_before k ks). rewrite Hpos. apply list_elem_of_lookup. exists q.
    by rewrite lookup_take_lt by lia. }
  assert (at_idx (tp_message.segments_ m1) q = Ok (tp_seg i)) as ->.
  { unfold at_idx, m1, ins. cbn [tp_message.segments_ tp_message.with_segments].
    rewrite Hpos, list_lookup_fmap. rewrite lookup_app_l by len. rewrite lookup_take_lt by lia. by rewrite Hi. }
  cbn [mbind result_bind].
  rewrite (proj2 (Z.ltb_lt (tp_message.end_ (tp_seg i)) _)); [done|].
  assert (size i = L) as Hszi by by apply (tp_size_inner i k). unfold size in Hszi.
  assert (S i * L ≤ k * L)%nat by (apply Nat.mul_le_mono_r; lia).
  cbn [tp_message.start_ tp_message.end_ tp_seg]. rewrite Hszi. lia.
Qed.

Lemma tp_is_last_spec : tp_is_last data L k = bool_decide (k = (n - 1)%nat).
Proof using Hs Hk.
  pose proof tp_n_bound. unfold tp_is_last. apply bool_decide_ext. fold n. lia.
Qed.

Lemma tp_segment_end : tp_message.mk_segment off (u32 (off + sz - 1)) = tp_seg k.
Proof using Hs Hk.
  unfold tp_seg. destruct (tp_chunk_length data L Hs k Hk) as (_ & H1 & H2).
  destruct Hs as (_ & [_ Hhi] & _). f_equal. subst off sz. unfold size.
  rewrite wrap_small; [lia|]. wrap_bounds. lia.
Qed.

(** A segment that is already there changes nothing. *)
Lemma tp_add_duplicate ks m :
  tp_known ks → k ∈ ks → tp_inv ks m → tp_fits m → tp_message.add_segment host s m = Ok (false, m).
Proof using Hs Hk.
  intros Hkn Hin Hinv Hfit. unfold tp_message.add_segment. unfold s.
  rewrite tp_segment_too_short, tp_segment_size, tp_segment_read_header by done. cbn [mbind result_bind].
  match goal with |- context [tp_message.check_lengths ?a ?b ?c ?d ?e] =>
    destruct (tp_message.check_lengths a b c d e) as [[]| | |u] eqn:E end; cbn [mbind result_bind].
  - destruct (tp_word_fields data L k Hs Hk) as (_ & Ho & _). rewrite Ho. fold off sz.
    rewrite tp_segment_end, (inv_segments _ _ Hinv), tp_emplace_duplicate by done. done.
  - done.
  - exfalso. revert E. unfold tp_message.check_lengths, rd, rd1. repeat case_match; done.
  - exfalso. revert E. unfold tp_message.check_lengths, rd, rd1. repeat case_match; done.
  - exfalso. revert E. unfold tp_message.check_lengths, VSOMEIP_LENGTH_POS_MIN, VSOMEIP_TP_HEADER_POS_MIN.
    rewrite tp_segment_length_field, tp_segment_word by done. cbn [mbind result_bind].
    unfold rd1, VSOMEIP_MESSAGE_TYPE_POS.
    destruct (lookup_lt_is_Some_2 (tp_segment data L k) 14) as [x ->]; [|done].
    rewrite tp_segment_length by done. lia.
Qed.

Lemma tp_add_fresh ks m :
  tp_known ks → k ∉ ks → tp_inv ks m → tp_fits m →
  ∃ m', tp_inv (ins k ks) m' ∧ tp_message.max_message_size_ m' = tp_message.max_message_size_ m
    ∧ (tp_message.add_segment host s m = Ok (false, m') ∧ (∃ j, (j < n)%nat ∧ j ∉ ins k ks)
       ∨ tp_message.add_segment host s m = (m'' ← tp_message.finish s m'; Ok (true, m''))
         ∧ ∀ j, (j < n)%nat → j ∈ ins k ks).
Proof using Hs Hk.
  intros Hkn Hnot Hinv Hfit.
  pose proof (tp_known_ins k ks Hkn Hk Hnot) as Hkn'.
  assert (16 + Z.of_nat (tp_sum (ins k ks)) ≤ Z.of_nat (length data)) as Hsum.
  { destruct Hkn' as (Hi & Hne & Hb). pose proof (tp_sum_bound (ins k ks) 0 Hi) as X.
    destruct Hs as (_ & [? _] & _). cut (0 * L + tp_sum (ins k ks) ≤ length data - 16)%nat; [lia|].
    apply X; [|lia|done]. intros j Hj. split; [lia|auto]. }
  destruct (tp_chunk_length data L Hs k Hk) as (_ & Hc1 & Hc2).
  destruct (tp_word_fields data L k Hs Hk) as (_ & Ho & Hmore).
  rewrite tp_sum_ins in Hsum. unfold size in Hsum.
  unfold tp_message.add_segment. unfold s.
  rewrite tp_segment_too_short, tp_segment_size, tp_segment_read_header by done. cbn [mbind result_bind].
  destruct Hs as (_ & [Hlo Hhi] & _). unfold tp_fits in Hfit.
  rewrite tp_segment_checks by (first [done|lia|rewrite (inv_size _ _ Hinv); lia]).
  cbn [mbind result_bind]. rewrite Ho. fold off sz. rewrite tp_segment_end, (inv_segments _ _ Hinv).
  rewrite tp_emplace_fresh by done. cbn [mbind result_bind].
  set (m1 := tp_message.with_segments m (tp_seg <$> ins k ks)).
  assert (∃ msg', tp_message_ok (ins k ks) msg' ∧
    match (tp_seg <$> ins k ks) !! S (ins_pos k ks) with
    | Some next => tp_message.add_between (tp_segment data L k) off sz (ins_pos k ks) (tp_seg k) next m1
    | None => tp_message.add_last (tp_segment data L k) off sz (tp.more_segments (tp_word data L k))
                (ins_pos k ks) (tp_seg k) m1
    end = Ok (tp_message.add_size (tp_message.with_message m1 msg') sz)) as (msg' & Hok & Hmatch).
  { rewrite list_lookup_fmap. destruct (ins k ks !! S (ins_pos k ks)) as [j|] eqn:Ej; cbn [fmap option_fmap option_map].
    - apply tp_add_between; done.
    - assert (ins_pos k ks = length ks) as Hpos.
      { apply lookup_ge_None in Ej. pose proof (ins_pos_le k ks). unfold ins in Ej.
        rewrite length_app, length_take, Nat.min_l in Ej by lia. cbn [length] in Ej. rewrite length_drop in Ej. lia. }
      eexists. split; [|by apply tp_add_last]. apply tp_message_append; try done. apply Hinv. }
  rewrite Hmatch. cbn [mbind result_bind].
  set (m2 := tp_message.add_size (tp_message.with_message m1 msg') sz).
  set (m3 := if tp.more_segments (tp_word data L k) then m2 else tp_message.with_last m2 true).
  assert (tp_inv (ins k ks) m3 ∧ tp_message.max_message_size_ m3 = tp_message.max_message_size_ m) as [Hinv3 Hmax3].
  { assert (tp_message.last_segment_received_ m3 = bool_decide ((n - 1)%nat ∈ ins k ks)) as Hl3.
    { subst m3. rewrite Hmore, tp_is_last_spec.
      destruct (bool_decide_reflect (k = (n - 1)%nat)) as [Ek|Ek]; cbn [negb].
      - symmetry. apply bool_decide_true, ins_elem. auto.
      - change (tp_message.last_segment_received_ m2) with (tp_message.last_segment_received_ m).
        rewrite (inv_last _ _ Hinv). apply bool_decide_ext. rewrite ins_elem. intuition congruence. }
    assert (tp_message.current_message_size_ m2 = 16 + Z.of_nat (tp_sum (ins k ks))) as Hsz2.
    { subst m2 m1. cbn. rewrite (inv_size _ _ Hinv), tp_sum_ins. subst sz. unfold size.
      rewrite wrap_small; [lia|]. wrap_bounds. lia. }
    subst m3. destruct (tp.more_segments _); repeat split; first [done|apply Hok]. }
  exists m3. split; [done|]. split; [done|].
  rewrite (inv_last _ _ Hinv3), (inv_segments _ _ Hinv3).
  pose proof tp_n_bound. destruct Hkn' as (Hinc' & Hne' & Hb').
  destruct (bool_decide_reflect ((n - 1)%nat ∈ ins k ks)) as [Hin|Hin]; cbn [andb].
  - pose proof (tp_all_present (ins k ks) 0 0xFFFFFFFF Hinc') as Hall.
    destruct (tp_message.all_present 0xFFFFFFFF (tp_seg <$> ins k ks)).
    + right. split; [done|]. intros j Hj. apply Hall; try done; [|lia]. intros i Hi. split; [lia|auto].
    + left. split; [done|].
      destruct (decide (Forall (λ j, j ∈ ins k ks) (seq 0 n))) as [HF|HF].
      * exfalso. rewrite Forall_forall in HF. enough (false = true) by done. apply Hall; try done.
        -- intros i Hi. split; [lia|auto].
        -- intros j Hj. apply HF, elem_of_seq. lia.
      * apply not_Forall_Exists in HF; [|apply _]. apply Exists_exists in HF as (j & Hj & Hnj).
        apply elem_of_seq in Hj. exists j. split; [lia|done].
  - left. split; [done|]. exists (n - 1)%nat. split; [lia|done].
Qed.

Lemma tp_create_ok now max :
  Z.of_nat (length data) ≤ max < 2 ^ 32 →
  ∃ m, tp_message.create host now s max = Ok m ∧ tp_inv [k] m ∧ tp_message.max_message_size_ m = max.
Proof using Hs Hk.
  intros Hmax. destruct (tp_chunk_length data L Hs k Hk) as (_ & Hc1 & Hc2).
  destruct (tp_word_fields data L k Hs Hk) as (_ & Ho & Hmore).
  pose proof tp_n_bound as Hn. pose proof tp_L_pos as HLp.
  destruct Hs as (_ & [Hlo Hhi] & _).
  unfold tp_message.create. unfold s.
  rewrite tp_segment_too_short, tp_segment_size, tp_segment_read_header by done.
  unfold VSOMEIP_FULL_HEADER_SIZE, VSOMEIP_MESSAGE_TYPE_POS.
  rewrite (rd_ok _ 0 16) by (rewrite tp_segment_length by done; lia). rewrite drop_0. cbn [mbind result_bind].
  assert (∃ t, data !! 14%nat = Some t) as [t Ht] by (apply lookup_lt_is_Some_2; lia).
  unfold rd1. rewrite lookup_take_lt, tp_segment_header, decide_True, Ht by (done || lia).
  cbn [fmap option_fmap option_map mbind result_bind]. unfold wr1.
  rewrite decide_True by (rewrite length_take, tp_segment_length by done; lia). cbn [mbind result_bind].
  set (hdr := <[14%nat := _]> _).
  assert (length hdr = 16%nat) as Hhl by (unfold hdr; rewrite length_insert, length_take, tp_segment_length by done; lia).
  rewrite tp_segment_checks by (first [done|cbn; lia]). cbn [mbind result_bind]. rewrite Ho. fold off sz.
  rewrite tp_segment_end. cbn [tp_message.segments_ tp_message.with_message tp_message.emplace existsb
    tp_message.emplace_pos lookup list_lookup app mbind result_bind].
  set (m1 := if off =? 0 then _ else _).
  assert (m1 = tp_message.mk now max 0 (bool_decide (k = (n - 1)%nat)) [tp_seg k]
    (tp_message.resize (16 + k * L) hdr)) as ->.
  { subst m1. unfold off. rewrite Nat2Z.id, Hmore, tp_is_last_spec.
    destruct (Z.eqb_spec (Z.of_nat (k * L)) 0) as [E|E].
    - assert (k = 0%nat) as -> by nia. rewrite bool_decide_false by lia. cbn [Nat.mul Nat.add].
      rewrite <- Hhl at 1. by rewrite resize_id.
    - by destruct (bool_decide_reflect (k = (n - 1)%nat)). }
  unfold VSOMEIP_TP_PAYLOAD_POS, sz. rewrite Nat2Z.id, tp_segment_chunk by done. cbn [mbind result_bind].
  eexists. split; [reflexivity|]. split; [|done].
  split; cbn [tp_message.segments_ tp_message.add_size tp_message.with_message tp_message.current_message_size_
    tp_message.last_segment_received_ tp_message.message_].
  - done.
  - rewrite wrap_small; [unfold tp_sum, sz; cbn; lia|]. unfold sz. wrap_bounds. lia.
  - apply bool_decide_ext. rewrite list_elem_of_singleton. intuition congruence.
  - split; unfold tp_top; cbn [last].
    + rewrite length_app, resize_length. lia.
    + intros i Hi Hr. rewrite lookup_app_l by (rewrite resize_length; lia).
      rewrite resize_lookup, decide_True by lia. unfold hdr, tp_header_byte.
      destruct (decide (i = 14%nat)) as [->|Hne].
      * rewrite list_lookup_insert_eq by (rewrite length_take, tp_segment_length by done; lia). by rewrite Ht.
      * rewrite list_lookup_insert_ne by done. rewrite lookup_take_lt by lia.
        rewrite tp_segment_header by done. by rewrite decide_False.
    + intros p Hp. destruct (decide (p < k * L)%nat).
      * rewrite lookup_app_l by (rewrite resize_length; lia). rewrite resize_lookup, decide_False by lia.
        assert (p / L < k)%nat by (apply Nat.Div0.div_lt_upper_bound; lia).
        rewrite decide_False; [done|]. rewrite list_elem_of_singleton. lia.
      * rewrite lookup_app_r by (rewrite resize_length; lia). rewrite resize_length.
        replace (16 + p - (16 + k * L))%nat with (p - k * L)%nat by lia.
        destruct (tp_chunk_lookup k p) as [-> ->]; [done|unfold size; lia|].
        rewrite decide_True; [done|]. by apply list_elem_of_singleton.
Qed.

(** When the message is complete, the buffer is the message. *)
Lemma tp_finish_ok ks m :
  tp_known ks → (∀ j, (j < n)%nat → j ∈ ks) → tp_inv ks m →
  (∃ t, data !! 14%nat = Some t ∧ tp.tp_flag_is_set t = false) →
  take 4 (drop 4 data) = be_bytes 4 (Z.of_nat (length data) - 8) →
  ∃ m', tp_message.finish s m = Ok m' ∧ tp_message.message_ m' = data.
Proof using Hs Hk.
  intros (Hinc & Hne & Hks) Hfull Hinv (t & Ht & Hflag) Hlenf.
  pose proof tp_n_bound as Hn. pose proof tp_L_pos as HLp. destruct Hs as (Hbytes & [Hlo Hhi] & _).
  assert (tp_top ks = (length data - 16)%nat) as Htop.
  { rewrite (increasing_full ks n Hinc) by (intros j; split; auto). unfold tp_top.
    rewrite last_lookup, length_seq, lookup_seq_lt by lia. replace (0 + pred n)%nat with (n - 1)%nat by lia.
    destruct (tp_chunk_length data L Hs (n - 1)) as (-> & _); [unfold n in *; lia|].
    unfold tp_is_last. fold n. rewrite bool_decide_true by lia.
    assert ((n - 1) * L < length data - 16)%nat; [|lia].
    apply tp_count_spec; [done|]. unfold n in *. lia. }
  destruct Hinv as [_ _ _ [Hml Hmh Hmp]]. unfold tp_message.finish, VSOMEIP_LENGTH_POS_MIN, VSOMEIP_SOMEIP_HEADER_SIZE.
  rewrite Hml, Htop. replace (Z.of_nat (16 + (length data - 16)) - 8) with (Z.of_nat (length data) - 8) by lia.
  rewrite wrap_small by (wrap_bounds; lia). rewrite <- Hlenf.
  assert (length (take 4 (drop 4 data)) = 4%nat) as Hl4 by len.
  destruct (wr (tp_message.message_ m) 4 (take 4 (drop 4 data))) as [msg| | |u] eqn:Ew;
    try (unfold wr in Ew; rewrite decide_True in Ew by lia; discriminate Ew).
  cbn [mbind result_bind]. unfold rd1, VSOMEIP_RETURN_CODE_POS, s.
  rewrite tp_segment_header, decide_False by (done || lia).
  assert (∃ c, data !! 15%nat = Some c) as [c Hc] by (apply lookup_lt_is_Some_2; lia).
  rewrite Hc. cbn [mbind result_bind]. unfold wr1.
  rewrite decide_True by (rewrite (wr_length _ _ _ _ Ew); lia). cbn [mbind result_bind].
  eexists. split; [reflexivity|]. cbn [tp_message.message_ tp_message.with_message].
  apply list_eq. intros i. destruct (decide (i = 15%nat)) as [->|Hi15].
  { rewrite list_lookup_insert_eq by (rewrite (wr_length _ _ _ _ Ew); lia). done. }
  rewrite list_lookup_insert_ne by done. rewrite (wr_lookup _ _ _ _ _ Ew), Hl4.
  case_decide as H4.
  { rewrite lookup_take_lt, lookup_drop by lia. f_equal. lia. }
  destruct (decide (i < 16)%nat).
  - rewrite Hmh by lia. unfold tp_header_byte. case_decide as H14; [|done]. subst i. rewrite Ht. cbn.
    f_equal. apply tp_flag_round; [|done]. by eapply Forall_lookup_1.
  - destruct (decide (i < length data)%nat) as [Hi|Hi].
    + replace i with (16 + (i - 16))%nat by lia. rewrite Hmp by lia. rewrite decide_True; [done|].
      apply Hfull. apply tp_count_spec; [done|].
      pose proof (Nat.Div0.mul_div_le (i - 16) L). lia.
    + rewrite !lookup_ge_None_2; [done|lia|lia].
Qed.
End steps.
End reassembly.

(** ** The reassembler *)

Section reassembler_facts.
Import tp_reassembler.
Implicit Types (ms : gmap Z (gmap Z messages)) (a p id : Z) (e : Z * tp_message.t).

Lemma find_put a p id e ms a' p' id' :
  find_message a' p' id' (put_message a p id e ms)
  = if decide ((a', p', id') = (a, p, id)) then Some e else find_message a' p' id' ms.
Proof.
  unfold find_message, put_message. cbn zeta.
  destruct (decide (a' = a)) as [->|Ha]; [rewrite lookup_insert_eq|rewrite lookup_insert_ne by done; by case_decide; simplify_eq].
  cbn [mbind option_bind].
  destruct (decide (p' = p)) as [->|Hp]; [rewrite lookup_insert_eq|rewrite lookup_insert_ne by done].
  - cbn [mbind option_bind]. destruct (decide (id' = id)) as [->|Hid].
    + rewrite lookup_insert_eq, decide_True; done.
    + rewrite lookup_insert_ne by done. rewrite decide_False by congruence.
      destruct (ms !! a) as [ports|]; [|reflexivity].
      cbn. by destruct (ports !! p).
  - rewrite decide_False by congruence.
    by destruct (ms !! a) as [ports|].
Qed.

Lemma find_erase a p id ms a' p' id' :
  find_message a' p' id' (erase_message a p id ms)
  = if decide ((a', p', id') = (a, p, id)) then None else find_message a' p' id' ms.
Proof.
  unfold find_message, erase_message. cbn zeta.
  set (ports := default ∅ (ms !! a)). set (found := default ∅ (ports !! p)).
  assert (∀ q, ms !! a ≫= (λ ports, ports !! q) = ports !! q) as Hports
    by (intros q; subst ports; destruct (ms !! a); cbn; by rewrite ?lookup_empty).
  assert (∀ i, (ports !! p ≫= λ f : messages, f !! i) = found !! i) as Hfound
    by (intros i; subst found; destruct (ports !! p); cbn; by rewrite ?lookup_empty).
  assert (∀ q i, (ms !! a ≫= λ ports0 : gmap Z messages, ports0 !! q ≫= λ f : messages, f !! i)
            = ports !! q ≫= λ f : messages, f !! i) as Hboth.
  { intros q i. rewrite <- Hports. by destruct (ms !! a). }
  destruct (decide (delete id found = ∅)) as [E|E].
  - assert (∀ i, i ≠ id → found !! i = None) as Hnone
      by (intros i Hi; rewrite <- (lookup_delete_ne found id) by done; by rewrite E, lookup_empty).
    destruct (decide (delete p ports = ∅)) as [E2|E2].
    + assert (∀ q, q ≠ p → ports !! q = None) as Hnone2
        by (intros q Hq; rewrite <- (lookup_delete_ne ports p) by done; by rewrite E2, lookup_empty).
      destruct (decide (a' = a)) as [->|Ha]; [rewrite lookup_delete_eq|rewrite lookup_delete_ne by done; by case_decide; simplify_eq].
      cbn [mbind option_bind]. case_decide as D; [done|]. symmetry. rewrite Hboth.
      destruct (decide (p' = p)) as [->|Hp]; [|by rewrite Hnone2 by done].
      rewrite Hfound. apply Hnone. congruence.
    + destruct (decide (a' = a)) as [->|Ha]; [rewrite lookup_insert_eq|rewrite lookup_insert_ne by done; by case_decide; simplify_eq].
      cbn [mbind option_bind]. rewrite Hboth.
      destruct (decide (p' = p)) as [->|Hp]; [rewrite lookup_delete_eq|rewrite lookup_delete_ne by done; by rewrite decide_False by congruence].
      cbn. case_decide as D; [done|]. rewrite Hfound. symmetry. apply Hnone. congruence.
  - destruct (decide (a' = a)) as [->|Ha]; [rewrite lookup_insert_eq|rewrite lookup_insert_ne by done; by case_decide; simplify_eq].
    cbn [mbind option_bind]. rewrite Hboth.
    destruct (decide (p' = p)) as [->|Hp]; [rewrite lookup_insert_eq|rewrite lookup_insert_ne by done; by rewrite decide_False by congruence].
    cbn [mbind option_bind]. rewrite Hfound. destruct (decide (id' = id)) as [->|Hid].
    + rewrite lookup_delete_eq, decide_True; done.
    + rewrite lookup_delete_ne by done. by rewrite decide_False by congruence.
Qed.

Lemma cleanup_timer_start_messages now f r :
  tp_messages_ (cleanup_timer_start now f r) = tp_messages_ r
  ∧ max_message_size_ (cleanup_timer_start now f r) = max_message_size_ r.
Proof. unfold cleanup_timer_start. by destruct (_ || _). Qed.
End reassembler_facts.

(** What reaches a reassembler: a datagram of some sender, or the expiry of the
    clean-up timer. *)
Inductive tp_event : Type :=
| received (now : Z) (data : bytes) (address port : Z)
| timer (now : Z) (error : bool).

(** A run, with what each event returned. *)
Fixpoint process_all (host : endianess_e) (evs : list tp_event) (r : tp_reassembler.t)
  : result (list (option bytes) * tp_reassembler.t) :=
  match evs with
  | [] => Ok ([], r)
  | received now d address port :: evs =>
      '(o, r) ← tp_reassembler.process_tp_message host now d address port r;
      '(os, r) ← process_all host evs r;
      Ok (o :: os, r)
  | timer now error :: evs =>
      '(os, r) ← process_all host evs (tp_reassembler.cleanup_timer_cbk now error r);
      Ok (None :: os, r)
  end.

(** The event is a datagram for this entry, and the entry that the event cleans
    up. *)
Definition concerns (host : endianess_e) (a p i : Z) (ev : tp_event) : Prop :=
  match ev with
  | received _ d a' p' => a' = a ∧ p' = p ∧ ∃ session, tp_reassembler.tp_message_id host d = Ok (i, session)
  | timer _ _ => False
  end.

Definition cleans (e : Z * tp_message.t) (ev : tp_event) : bool :=
  match ev with timer now false => tp_reassembler.is_outdated now e.2 | _ => false end.

(** Packets of different messages do not disturb each other: processing a
    packet, whatever it contains, changes at most the entry of its own sender,
    port and message identifier. *)
Lemma tp_isolation (host : endianess_e) (now : Z) (data : bytes) (address port : Z)
    (r r' : tp_reassembler.t) (o : option bytes) (a p i : Z)
    (Hrun : tp_reassembler.process_tp_message host now data address port r = Ok (o, r'))
    (Hother : ∀ session, tp_reassembler.tp_message_id host data = Ok (i, session) → (a, p) ≠ (address, port)) :
  tp_reassembler.find_message a p i (tp_reassembler.tp_messages_ r')
  = tp_reassembler.find_message a p i (tp_reassembler.tp_messages_ r).
Proof.
  revert Hrun. unfold tp_reassembler.process_tp_message. case_decide; [by intros; simplify_eq|].
  destruct (cleanup_timer_start_messages now false r) as [Em Ex].
  destruct (tp_reassembler.tp_message_id host data) as [[id session]| | |]; try done.
  assert ((a, p, i) ≠ (address, port, id)) as Hne by (intros [= -> -> ->]; by apply (Hother session)).
  cbn [mbind result_bind].
  destruct (tp_reassembler.find_message address port id _) as [[s m]|].
  - destruct (s =? session).
    + intros ([[] m'] & _ & Hr)%bind_Ok_inv; simplify_eq;
        cbn [tp_reassembler.tp_messages_ tp_reassembler.with_messages];
        rewrite ?find_erase, ?find_put, decide_False by done; by rewrite Em.
    + intros (m' & _ & Hr)%bind_Ok_inv. simplify_eq.
      cbn [tp_reassembler.tp_messages_ tp_reassembler.with_messages].
      rewrite find_put, decide_False by done. by rewrite Em.
  - intros (m' & _ & Hr)%bind_Ok_inv. simplify_eq.
    cbn [tp_reassembler.tp_messages_ tp_reassembler.with_messages].
    rewrite find_put, decide_False by done. by rewrite Em.
Qed.

(** The clean-up removes exactly the unfinished messages older than 5000
    milliseconds, removes senders and ports that have none left, tells whether
    anything remains, and stops the timer exactly when nothing does. *)
Lemma tp_cleanup (now : Z) (r : tp_reassembler.t) (a p i : Z) :
  let '(more, r') := tp_reassembler.cleanup_unfinished_messages now r in
  tp_reassembler.find_message a p i (tp_reassembler.tp_messages_ r')
    = (e ← tp_reassembler.find_message a p i (tp_reassembler.tp_messages_ r);
       if now - tp_message.timepoint_creation_ e.2 <=? 5000 then Some e else None)
  ∧ (∀ ports, tp_reassembler.tp_messages_ r' !! a = Some ports → ports ≠ ∅)
  ∧ (∀ ports found, tp_reassembler.tp_messages_ r' !! a = Some ports → ports !! p = Some found → found ≠ ∅)
  ∧ (more = false ↔ tp_reassembler.tp_messages_ r' = ∅)
  ∧ tp_reassembler.cleanup_timer_running_ (tp_reassembler.cleanup_timer_cbk now false r) = more.
Proof.
  unfold tp_reassembler.cleanup_timer_cbk. unfold tp_reassembler.cleanup_unfinished_messages.
  set (keep := λ found : gmap Z (Z * tp_message.t),
    filter (λ p, tp_reassembler.is_outdated now p.2.2 = false) found).
  set (ms := tp_reassembler.drop_empty _).
  assert (∀ A (m : gmap Z (gmap Z A)) (k : Z),
    tp_reassembler.drop_empty m !! k = (x ← m !! k; if decide (x = ∅) then None else Some x)) as Hde.
  { intros A m k. unfold tp_reassembler.drop_empty. rewrite map_lookup_filter.
    destruct (m !! k) as [x|]; cbn; [|done]. case_guard; case_decide; cbn in *; done || (exfalso; auto). }
  assert (∀ found j, keep found !! j
    = (e ← found !! j; if now - tp_message.timepoint_creation_ e.2 <=? 5000 then Some e else None)) as Hkeep.
  { intros found j. unfold keep. rewrite map_lookup_filter. destruct (found !! j) as [e|]; cbn; [|done].
    unfold tp_reassembler.is_outdated.
    destruct (Z.leb_spec (now - tp_message.timepoint_creation_ e.2) 5000), (Z.ltb_spec 5000 (now - tp_message.timepoint_creation_ e.2));
      case_guard; cbn in *; done || lia. }
  cbn [tp_reassembler.tp_messages_ tp_reassembler.with_messages]. split_and!.
  - unfold tp_reassembler.find_message. subst ms. rewrite Hde, lookup_fmap.
    destruct (tp_reassembler.tp_messages_ r !! a) as [ports|]; cbn; [|done].
    set (ports' := tp_reassembler.drop_empty (keep <$> ports)).
    assert (ports' !! p ≫= (λ f, f !! i) = (ports !! p ≫= λ f, f !! i) ≫=
      (λ e, if now - tp_message.timepoint_creation_ e.2 <=? 5000 then Some e else None)) as Hp.
    { subst ports'. rewrite Hde, lookup_fmap. destruct (ports !! p) as [found|]; cbn; [|done].
      rewrite <- Hkeep. case_decide as E; cbn; [by rewrite E, lookup_empty|done]. }
    rewrite <- Hp. case_decide as E; cbn; [by rewrite E, lookup_empty|done].
  - intros ports. subst ms. rewrite Hde, lookup_fmap. destruct (_ !! a); cbn; [|done]. case_decide; by intros; simplify_eq.
  - intros ports found. subst ms. rewrite Hde, lookup_fmap. destruct (_ !! a) as [ports0|]; cbn; [|done].
    case_decide; [done|]. intros [= <-]. rewrite Hde, lookup_fmap.
    destruct (ports0 !! p); cbn; [|done]. case_decide; by intros; simplify_eq.
  - rewrite bool_decide_eq_false. destruct (decide (ms = ∅)); naive_solver.
  - destruct (bool_decide_reflect (ms ≠ ∅)); [|done]. unfold tp_reassembler.cleanup_timer_start. by rewrite orb_true_r.
Qed.

Lemma cleanup_cbk_find now error r a p i :
  tp_reassembler.find_message a p i (tp_reassembler.tp_messages_ (tp_reassembler.cleanup_timer_cbk now error r))
  = (e ← tp_reassembler.find_message a p i (tp_reassembler.tp_messages_ r);
     if cleans e (timer now error) then None else Some e).
Proof.
  pose proof (tp_cleanup now r a p i) as Hc. unfold tp_reassembler.cleanup_timer_cbk. destruct error; cbn [cleans].
  { by destruct (tp_reassembler.find_message _ _ _ _). }
  destruct (tp_reassembler.cleanup_unfinished_messages now r) as [more r1]. destruct Hc as (Hc & _).
  assert (tp_reassembler.find_message a p i (tp_reassembler.tp_messages_ r1)
    = (e ← tp_reassembler.find_message a p i (tp_reassembler.tp_messages_ r);
       if tp_reassembler.is_outdated now e.2 then None else Some e)) as <-; [|destruct more; [|done]].
  - rewrite Hc. clear Hc. destruct (tp_reassembler.find_message a p i _) as [e|]; cbn; [|done]. unfold tp_reassembler.is_outdated.
    by destruct (Z.leb_spec (now - tp_message.timepoint_creation_ e.2) 5000), (Z.ltb_spec 5000 (now - tp_message.timepoint_creation_ e.2)); try lia.
  - by rewrite (proj1 (cleanup_timer_start_messages now true r1)).
Qed.

Lemma cleanup_cbk_max now error r :
  tp_reassembler.max_message_size_ (tp_reassembler.cleanup_timer_cbk now error r) = tp_reassembler.max_message_size_ r.
Proof.
  unfold tp_reassembler.cleanup_timer_cbk, tp_reassembler.cleanup_unfinished_messages. destruct error; [done|].
  destruct (bool_decide _); [|done]. by rewrite (proj2 (cleanup_timer_start_messages now true _)).
Qed.

Lemma process_max host now d address port r o r' :
  tp_reassembler.process_tp_message host now d address port r = Ok (o, r') →
  tp_reassembler.max_message_size_ r' = tp_reassembler.max_message_size_ r.
Proof.
  unfold tp_reassembler.process_tp_message. intros Hp.
  pose proof (proj2 (cleanup_timer_start_messages now false r)) as Hm. peel; first [done|exact Hm].
Qed.

(** An entry that no datagram of the run concerns stays until it is cleaned up. *)
Lemma process_all_other host evs : ∀ r os r' a p i,
  process_all host evs r = Ok (os, r') → (∀ ev, ev ∈ evs → concerns host a p i ev → False) →
  tp_reassembler.find_message a p i (tp_reassembler.tp_messages_ r')
  = (e ← tp_reassembler.find_message a p i (tp_reassembler.tp_messages_ r);
     if existsb (cleans e) evs then None else Some e).
Proof.
  induction evs as [|ev evs IH]; intros r os r' a p i Hr Hno; cbn [process_all existsb] in *.
  { injection Hr as _ <-. by destruct (tp_reassembler.find_message _ _ _ _). }
  assert (∀ ev, ev ∈ evs → concerns host a p i ev → False) as Hno' by (intros; eapply Hno; [by right|done]).
  destruct ev as [now d address port|now error]; peel.
  - erewrite IH by done. erewrite (tp_isolation host now d address port r) by
      (done || (intros session Hid [= -> ->]; apply (Hno (received now d address port)); [by left|by repeat split; eauto])).
    done.
  - erewrite IH by done. rewrite cleanup_cbk_find. destruct (tp_reassembler.find_message a p i _) as [e|]; [|done].
    cbn [mbind option_bind]. by destruct (cleans e (timer now error)).
Qed.

(** The time of creation stays. *)
Lemma create_creation host now d max m : tp_message.create host now d max = Ok m → tp_message.timepoint_creation_ m = now.
Proof. unfold tp_message.create. intros Hc. peel; cbn; by repeat case_match. Qed.

Lemma append_payload_creation d from size m m' :
  tp_message.append_payload d from size m = Ok m' → tp_message.timepoint_creation_ m' = tp_message.timepoint_creation_ m.
Proof. unfold tp_message.append_payload. intros Hc. peel; done. Qed.

Lemma copy_payload_creation d to from size m m' :
  tp_message.copy_payload d to from size m = Ok m' → tp_message.timepoint_creation_ m' = tp_message.timepoint_creation_ m.
Proof. unfold tp_message.copy_payload. intros Hc. peel; done. Qed.

Lemma replace_segment_creation i x m m' :
  tp_message.replace_segment i x m = Ok m' → tp_message.timepoint_creation_ m' = tp_message.timepoint_creation_ m.
Proof. unfold tp_message.replace_segment. intros Hc. peel; done. Qed.

Lemma finish_creation d m m' : tp_message.finish d m = Ok m' → tp_message.timepoint_creation_ m' = tp_message.timepoint_creation_ m.
Proof. unfold tp_message.finish. intros Hc. peel; done. Qed.

Ltac creations :=
  repeat match goal with
  | H : tp_message.append_payload _ _ _ _ = Ok _ |- _ => apply append_payload_creation in H
  | H : tp_message.copy_payload _ _ _ _ _ = Ok _ |- _ => apply copy_payload_creation in H
  | H : tp_message.replace_segment _ _ _ = Ok _ |- _ => apply replace_segment_creation in H
  | H : tp_message.finish _ _ = Ok _ |- _ => apply finish_creation in H
  end; cbn in *; repeat case_match; cbn in *; congruence.

Lemma add_last_creation d off size more i cur m m' :
  tp_message.add_last d off size more i cur m = Ok m' → tp_message.timepoint_creation_ m' = tp_message.timepoint_creation_ m.
Proof. unfold tp_message.add_last. intros Hc. peel; creations. Qed.

Lemma add_between_creation d off size i cur next m m' :
  tp_message.add_between d off size i cur next m = Ok m' → tp_message.timepoint_creation_ m' = tp_message.timepoint_creation_ m.
Proof. unfold tp_message.add_between. intros Hc. apply bind_Ok_inv in Hc as (prev & _ & Hc). peel; creations. Qed.

Lemma add_segment_creation host d m b m' :
  tp_message.add_segment host d m = Ok (b, m') → tp_message.timepoint_creation_ m' = tp_message.timepoint_creation_ m.
Proof.
  unfold tp_message.add_segment. intros Hc. peel; try done.
  all: repeat match goal with
    | H : tp_message.add_last _ _ _ _ _ _ _ = Ok _ |- _ => apply add_last_creation in H
    | H : tp_message.add_between _ _ _ _ _ _ _ = Ok _ |- _ => apply add_between_creation in H
    end; creations.
Qed.

(** The key under which the segments of a message are collected, and its session. *)
Definition tp_key (data : bytes) : Z * Z :=
  let r16 o := be_val (take 2 (drop o data)) in
  (Z.lor (Z.lor (Z.lor (Z.lor (Z.shiftl (r16 0%nat) 48) (Z.shiftl (r16 2%nat) 32))
     (Z.shiftl (r16 8%nat) 16)) (Z.shiftl (nth 13 data 0) 8))
     (tp.tp_flag_unset (Z.lor (nth 14 data 0) 0x20)),
   r16 10%nat).

Lemma tp_segment_key host data L k :
  tp_splittable data L → (k < tp_count data L)%nat →
  tp_reassembler.tp_message_id host (tp_segment data L k) = Ok (tp_key data).
Proof.
  intros Hs Hk.
  destruct (tp_segment_parts data L k Hs Hk) as (d0 & d1 & d2 & d3 & d4 & d5 & d6 & d7 & d8 & d9 & d10 & d11 & d12
    & d13 & d14 & d15 & P & E & ->).
  assert (bytes_ok [d0; d1; d2; d3; d4; d5; d6; d7; d8; d9; d10; d11; d12; d13; d14; d15]) as Hb.
  { destruct Hs as (Hb & _). rewrite E in Hb. by apply Forall_app in Hb as [Hb _]. }
  assert (∀ a b, is_u8 a → is_u8 b → bithelper.read_uint16_be host [a; b] = be_val [a; b]) as Hr.
  { intros a b Ha Hb2. apply (read_be_spec host [a; b]). auto. }
  destruct (header_bytes_be4 (Z.of_nat (length (tp_chunk data L k)) + 12)) as (l0 & l1 & l2 & l3 & ->).
  unfold tp_reassembler.tp_message_id. rewrite !rd_ok by (cbn [app length]; lia).
  cbn [app take drop mbind result_bind]. unfold rd1, VSOMEIP_MESSAGE_TYPE_POS.
  cbn [lookup list_lookup mbind result_bind].
  repeat (apply Forall_cons in Hb as [? Hb]).
  rewrite !Hr by done. unfold tp_key. rewrite E. reflexivity.
Qed.

Lemma tp_segment_inj data L j k :
  tp_splittable data L → (j < tp_count data L)%nat → (k < tp_count data L)%nat →
  tp_segment data L j = tp_segment data L k → j = k.
Proof.
  intros Hs Hj Hk E. pose proof (tp_L_pos data L Hs).
  pose proof (tp_segment_read_header le data L j Hs Hj) as E1.
  rewrite E, (tp_segment_read_header le data L k Hs Hk) in E1.
  destruct (tp_word_fields data L j Hs Hj) as (_ & O1 & _).
  destruct (tp_word_fields data L k Hs Hk) as (_ & O2 & _).
  injection E1 as E1. rewrite E1 in O2. nia.
Qed.

Section one_sender.
Context (host : endianess_e) (data : bytes) (L : nat) (Hs : tp_splittable data L) (address port : Z).
Implicit Types (r : tp_reassembler.t) (ks : list nat).
Import tp_reassembler.

Let n := tp_count data L.
Let entry r := find_message address port (tp_key data).1 (tp_messages_ r).

(** The segments [ks] of the message were received, the first of them at [t0]. *)
Definition tp_collecting (t0 : Z) ks r : Prop :=
  tp_known data L ks ∧
  ∃ m, entry r = Some ((tp_key data).2, m) ∧ tp_inv data L ks m
       ∧ tp_message.max_message_size_ m = max_message_size_ r
       ∧ tp_message.timepoint_creation_ m = t0.

Lemma tp_process_segment now k r :
  (k < n)%nat →
  process_tp_message host now (tp_segment data L k) address port r
  = let r := cleanup_timer_start now false r in
    match entry r with
    | Some (session, m) =>
        if session =? (tp_key data).2 then
          '(complete, m) ← tp_message.add_segment host (tp_segment data L k) m;
          if (complete : bool)
          then Ok (Some (tp_message.get_message m).1,
                   with_messages r (erase_message address port (tp_key data).1 (tp_messages_ r)))
          else Ok (None, with_messages r (put_message address port (tp_key data).1 (session, m) (tp_messages_ r)))
        else
          m ← tp_message.create host now (tp_segment data L k) (max_message_size_ r);
          Ok (None, with_messages r (put_message address port (tp_key data).1 ((tp_key data).2, m) (tp_messages_ r)))
    | None =>
        m ← tp_message.create host now (tp_segment data L k) (max_message_size_ r);
        Ok (None, with_messages r (put_message address port (tp_key data).1 ((tp_key data).2, m) (tp_messages_ r)))
    end.
Proof using Hs.
  intros Hk. unfold process_tp_message, VSOMEIP_FULL_HEADER_SIZE.
  rewrite decide_False by (rewrite tp_segment_length by done; lia). cbn zeta.
  rewrite tp_segment_key by done. cbn [mbind result_bind]. by destruct (tp_key data).
Qed.

(** The first segment opens the entry, whatever unfinished message it replaces. *)
Lemma tp_process_first now k r :
  (k < n)%nat → Z.of_nat (length data) ≤ max_message_size_ r < 2 ^ 32 →
  (∀ session m, entry r = Some (session, m) → session ≠ (tp_key data).2) →
  ∃ r', process_tp_message host now (tp_segment data L k) address port r = Ok (None, r')
    ∧ tp_collecting now [k] r' ∧ max_message_size_ r' = max_message_size_ r.
Proof using Hs.
  intros Hk Hmax Hnew. rewrite tp_process_segment by done. cbn zeta.
  destruct (cleanup_timer_start_messages now false r) as [Em Ex].
  destruct (tp_create_ok data L Hs host k Hk now (max_message_size_ r) Hmax) as (m & Ec & Hinv & Hm).
  rewrite Ex, Ec. cbn [mbind result_bind].
  assert (tp_known data L [k]) as Hkn.
  { split_and!; [by repeat constructor|done|]. by intros j ->%list_elem_of_singleton. }
  exists (with_messages (cleanup_timer_start now false r)
    (put_message address port (tp_key data).1 ((tp_key data).2, m) (tp_messages_ r))).
  split; [|split].
  - unfold entry in *. rewrite Em. destruct (find_message _ _ _ _) as [[session m0]|] eqn:E; [|done].
    specialize (Hnew session m0 eq_refl). by rewrite (proj2 (Z.eqb_neq _ _)).
  - split; [done|]. exists m. unfold entry. cbn [tp_messages_ with_messages max_message_size_].
    rewrite find_put, decide_True by done. split; [done|]. split; [done|]. split; [congruence|]. by eapply create_creation.
  - done.
Qed.

(** Every further segment, as long as one is missing. *)
Lemma tp_process_more now t0 k ks r :
  (k < n)%nat → tp_collecting t0 ks r → Z.of_nat (length data) ≤ max_message_size_ r < 2 ^ 32 →
  (∃ j, (j < n)%nat ∧ j ∉ k :: ks) →
  ∃ r' ks', process_tp_message host now (tp_segment data L k) address port r = Ok (None, r')
    ∧ tp_collecting t0 ks' r' ∧ max_message_size_ r' = max_message_size_ r ∧ ∀ j, j ∈ ks' ↔ j ∈ k :: ks.
Proof using Hs.
  intros Hk (Hkn & m & He & Hinv & Hm & Ht0) Hmax (j & Hj & Hnj). rewrite tp_process_segment by done. cbn zeta.
  destruct (cleanup_timer_start_messages now false r) as [Em Ex].
  unfold entry in *. cbn beta in *. rewrite Em, He, Z.eqb_refl.
  assert (tp_fits data m) as Hfit by (unfold tp_fits; by rewrite Hm).
  assert (∃ m' ks', tp_message.add_segment host (tp_segment data L k) m = Ok (false, m')
    ∧ tp_inv data L ks' m' ∧ tp_known data L ks' ∧ (∀ i, i ∈ ks' ↔ i ∈ k :: ks)
    ∧ tp_message.max_message_size_ m' = max_message_size_ r) as (m' & ks' & E & Hinv' & Hkn' & Hset & Hm').
  { destruct (decide (k ∈ ks)) as [Hin|Hin].
    - exists m, ks. split_and!; try done; [by eapply tp_add_duplicate|].
      intros i. rewrite elem_of_cons. split; [auto|]. intros [->|]; done.
    - destruct (tp_add_fresh data L Hs host k Hk ks m Hkn Hin Hinv Hfit) as (m' & Hinv' & Hm' & Hcase).
      assert (∀ i, i ∈ ins k ks ↔ i ∈ k :: ks) as Hset by (intros i; by rewrite ins_elem, elem_of_cons).
      destruct Hcase as [[E _]|[_ Hfull]].
      + exists m', (ins k ks). split_and!; try done; [by apply tp_known_ins|congruence].
      + exfalso. apply Hnj, Hset, Hfull. done. }
  rewrite E. cbn [mbind result_bind].
  eexists _, ks'. split; [reflexivity|]. split; [|split; [|done]].
  - split; [done|]. exists m'. unfold entry. cbn [tp_messages_ with_messages max_message_size_].
    rewrite find_put, decide_True by done. split; [done|]. split; [done|]. split; [congruence|].
    rewrite <- Ht0. by eapply add_segment_creation.
  - done.
Qed.

(** The last missing segment. *)
Lemma tp_process_final now t0 k ks r :
  (k < n)%nat → k ∉ ks → tp_collecting t0 ks r → Z.of_nat (length data) ≤ max_message_size_ r < 2 ^ 32 →
  (∀ j, (j < n)%nat → j ∈ k :: ks) →
  (∃ t, data !! 14%nat = Some t ∧ tp.tp_flag_is_set t = false) →
  take 4 (drop 4 data) = be_bytes 4 (Z.of_nat (length data) - 8) →
  ∃ r', process_tp_message host now (tp_segment data L k) address port r = Ok (Some data, r')
    ∧ entry r' = None.
Proof using Hs.
  intros Hk Hin (Hkn & m & He & Hinv & Hm & Ht0) Hmax Hfull Ht Hl. rewrite tp_process_segment by done. cbn zeta.
  destruct (cleanup_timer_start_messages now false r) as [Em Ex].
  unfold entry in *. cbn beta in *. rewrite Em, He, Z.eqb_refl.
  assert (tp_fits data m) as Hfit by (unfold tp_fits; by rewrite Hm).
  destruct (tp_add_fresh data L Hs host k Hk ks m Hkn Hin Hinv Hfit) as (m' & Hinv' & Hm' & Hcase).
  assert (∀ i, i ∈ ins k ks ↔ i ∈ k :: ks) as Hset by (intros i; by rewrite ins_elem, elem_of_cons).
  destruct Hcase as [[_ (j & Hj & Hnj)]|[E Hfull']]; [exfalso; by apply Hnj, Hset, Hfull|].
  destruct (tp_finish_ok data L Hs k Hk (ins k ks) m') as (m'' & Ef & Hmsg); try done; [by apply tp_known_ins|].
  rewrite E, Ef. cbn [mbind result_bind tp_message.get_message fst]. rewrite Hmsg.
  eexists. split; [reflexivity|]. cbn [tp_messages_ with_messages]. by rewrite find_erase, decide_True.
Qed.

(** What may happen while the message is collected: its segments, datagrams of
    other messages, and expiries of the timer within five seconds of the first
    segment. *)
Definition mine (k : nat) (ev : tp_event) : Prop := ∃ now, ev = received now (tp_segment data L k) address port.

Definition expected (t0 : Z) (ev : tp_event) : Prop :=
  match ev with
  | received _ _ _ _ => (∃ k, (k < n)%nat ∧ mine k ev) ∨ (concerns host address port (tp_key data).1 ev → False)
  | timer now _ => now ≤ t0 + 5000
  end.

Lemma collecting_timer t0 now error ks r :
  now ≤ t0 + 5000 → tp_collecting t0 ks r → tp_collecting t0 ks (cleanup_timer_cbk now error r).
Proof.
  intros Hnow (Hkn & m & He & Hinv & Hm & Ht0). split; [done|]. exists m. unfold entry in *.
  rewrite cleanup_cbk_find, cleanup_cbk_max. cbn beta in *. rewrite He. cbn [mbind option_bind]. split; [|done].
  unfold cleans. destruct error; [done|]. unfold is_outdated. cbn [snd]. by rewrite (proj2 (Z.ltb_ge _ _)) by lia.
Qed.

Lemma collecting_other t0 now d a p ks r o r' :
  (concerns host address port (tp_key data).1 (received now d a p) → False) →
  process_tp_message host now d a p r = Ok (o, r') → tp_collecting t0 ks r → tp_collecting t0 ks r'.
Proof.
  intros Hno Hp (Hkn & m & He & Hinv & Hm & Ht0). split; [done|]. exists m. unfold entry in *. cbn beta in *.
  rewrite (tp_isolation host now d a p r r' o address port (tp_key data).1 Hp), (process_max _ _ _ _ _ _ _ _ Hp); [done|].
  intros session Hid [= -> ->]. apply Hno. by repeat split; eauto.
Qed.

(** The collection over a whole run. *)
Lemma tp_run t0 evs : ∀ ks r os r',
  tp_collecting t0 ks r → Z.of_nat (length data) ≤ max_message_size_ r < 2 ^ 32 → Forall (expected t0) evs →
  (∃ j, (j < n)%nat ∧ (j ∉ ks) ∧ ∀ ev, ev ∈ evs → mine j ev → False) →
  process_all host evs r = Ok (os, r') →
  ∃ ks', tp_collecting t0 ks' r' ∧ max_message_size_ r' = max_message_size_ r
  ∧ (∀ j, (j < n)%nat → j ∈ ks' ↔ j ∈ ks ∨ ∃ ev, ev ∈ evs ∧ mine j ev)
  ∧ ∀ i ev k, evs !! i = Some ev → (k < n)%nat → mine k ev → os !! i = Some None.
Proof using Hs.
  induction evs as [|ev evs IH]; intros ks r os r' Hc Hmax Hev (j & Hj & Hjks & Hjev) Hr; cbn [process_all] in Hr.
  { injection Hr as <- <-. exists ks. split; [done|]. split; [done|]. split; [|by intros i].
    intros i Hi. split; [by left|]. intros [|(ev & Hin & _)]; [done|]. by apply elem_of_nil in Hin. }
  apply Forall_cons in Hev as [He Hev].
  assert (∃ ks1 r1 o os1, os = o :: os1 ∧ process_all host evs r1 = Ok (os1, r') ∧ tp_collecting t0 ks1 r1
    ∧ max_message_size_ r1 = max_message_size_ r
    ∧ (∀ i, (i < n)%nat → i ∈ ks1 ↔ i ∈ ks ∨ mine i ev) ∧ ∀ k, (k < n)%nat → mine k ev → o = None)
    as (ks1 & r1 & o & os1 & -> & Hr1 & Hc1 & Hm1 & Hks1 & Ho).
  { destruct ev as [now d a p|now error].
    - destruct He as [(k & Hk & now' & [= <- -> -> ->])|Hno].
      + destruct (tp_process_more now t0 k ks r) as (r1 & ks1 & E & Hc1 & Hm1 & Hs1); try done.
        { exists j. split; [done|]. rewrite elem_of_cons. intros [->|]; [|done].
          apply (Hjev (received now (tp_segment data L k) address port)); [by left|by exists now]. }
        rewrite E, bind_Ok in Hr. apply bind_Ok_inv in Hr as ([os1 r2] & Hr & [= <- <-]).
        exists ks1, r1, None, os1. split_and!; try done. intros i Hi. rewrite Hs1, elem_of_cons. split.
        * intros [->|]; [right; by exists now|by left].
        * intros [|[now' [= _ E']]]; [by right|]. left. symmetry. by apply (tp_segment_inj data L).
      + apply bind_Ok_inv in Hr as ([o r1] & Hp & Hr). apply bind_Ok_inv in Hr as ([os1 r2] & Hr & [= <- <-]).
        assert (∀ k, (k < n)%nat → mine k (received now d a p) → False) as Hnot.
        { intros k Hk [now' [= _ -> -> ->]]. apply Hno. split; [done|]. split; [done|].
          exists (tp_key data).2. rewrite tp_segment_key by done. by rewrite <- surjective_pairing. }
        exists ks, r1, o, os1. split_and!; try done.
        * by apply (collecting_other t0 now d a p ks r o).
        * by eapply process_max.
        * intros i Hi. split; [by left|]. intros [|Hm]; [done|]. by destruct (Hnot i Hi).
        * intros k Hk Hm. by destruct (Hnot k Hk).
    - apply bind_Ok_inv in Hr as ([os1 r2] & Hr & [= <- <-]).
      exists ks, (cleanup_timer_cbk now error r), None, os1. split_and!; try done.
      + by apply collecting_timer.
      + apply cleanup_cbk_max.
      + intros i Hi. split; [by left|]. by intros [|[now' [=]]]. }
  destruct (IH ks1 r1 os1 r') as (ks2 & Hc2 & Hm2 & Hks2 & Ho2); try done.
  { by rewrite Hm1. }
  { exists j. split; [done|]. split; [rewrite Hks1 by done; intros [|Hm]; [done|]; by apply (Hjev ev); [left|]|].
    intros ev' Hin. apply Hjev. by right. }
  exists ks2. split; [done|]. split; [congruence|]. split.
  - intros i Hi. rewrite Hks2, Hks1 by done. split.
    + intros [[Hin|Hm]|(ev' & Hin & Hm)]; [by left|right; exists ev; by split; [left|]|].
      right. exists ev'. by split; [right|].
    + intros [Hin|(ev' & [->|Hin]%elem_of_cons & Hm)]; [by left; left|by left; right|]. right. by exists ev'.
  - intros i ev' k Hi Hk Hm. destruct i as [|i]; cbn in Hi |- *; [|by eapply Ho2].
    injection Hi as <-. by rewrite (Ho k).
Qed.

(** Without datagrams of other messages nothing undefined happens. *)
Lemma tp_run_defined t0 evs : ∀ ks r,
  tp_collecting t0 ks r → Z.of_nat (length data) ≤ max_message_size_ r < 2 ^ 32 → Forall (expected t0) evs →
  (∀ ev, ev ∈ evs → match ev with received _ _ _ _ => ∃ k, (k < n)%nat ∧ mine k ev | timer _ _ => True end) →
  (∃ j, (j < n)%nat ∧ (j ∉ ks) ∧ ∀ ev, ev ∈ evs → mine j ev → False) →
  ∃ os r', process_all host evs r = Ok (os, r').
Proof using Hs.
  induction evs as [|ev evs IH]; intros ks r Hc Hmax Hev Hown (j & Hj & Hjks & Hjev); cbn [process_all]; [by eexists _, _|].
  apply Forall_cons in Hev as [He Hev].
  assert (∀ ev, ev ∈ evs → mine j ev → False) as Hj' by (intros ev' Hin; apply Hjev; by right).
  pose proof (Hown ev ltac:(by left)) as Hev1. assert (Hown' := λ ev' Hin, Hown ev' (list_elem_of_further _ _ _ Hin)).
  destruct ev as [now d a p|now error].
  - destruct Hev1 as (k & Hk & now' & [= <- -> -> ->]).
    destruct (tp_process_more now t0 k ks r) as (r1 & ks1 & E & Hc1 & Hm1 & Hs1); try done.
    { exists j. split; [done|]. rewrite elem_of_cons. intros [->|]; [|done].
      apply (Hjev (received now (tp_segment data L k) address port)); [by left|by exists now]. }
    rewrite E, bind_Ok. destruct (IH ks1 r1) as (os & r2 & ->); try done; [by rewrite Hm1| |by eexists _, _].
    exists j. split; [done|]. split; [|done]. rewrite Hs1, elem_of_cons. intros [->|]; [|done].
    apply (Hjev (received now (tp_segment data L k) address port)); [by left|by exists now].
  - destruct (IH ks (cleanup_timer_cbk now error r)) as (os & r2 & ->); try done.
    + by apply collecting_timer.
    + by rewrite cleanup_cbk_max.
    + by exists j.
    + by eexists _, _.
Qed.
End one_sender.

Lemma tp_split_all data L :
  tp_splittable data L →
  tp.tp_split_message (length data) data L = Some (Ok (tp_segment data L <$> seq 0 (tp_count data L))).
Proof.
  intros Hs. apply tp_split_spec; [done|].
  destruct (decide (tp_count data L ≤ length data)%nat) as [|Hn]; [done|exfalso].
  assert (length data < tp_count data L)%nat as H%tp_count_spec by lia; [|done].
  pose proof (tp_L_pos data L Hs). nia.
Qed.


(** A two segment message of 1416 bytes and its segments in reverse. *)
Definition tp_example : bytes :=
  [0x11; 0x11; 0x22; 0x22] ++ be_bytes 4 1408 ++ [0; 1; 0; 7; 1; 1; 0; 0] ++ replicate 1400 0x55.
Definition tp_example_segments : list bytes :=
  match tp.tp_split_message (length tp_example) tp_example 1392 with Some (Ok l) => l | _ => [] end.

(** The second segment twice, the timer, and the first one at last. *)
Definition tp_example_events : list tp_event :=
  [timer 4000 false; received 4500 (nth 1 tp_example_segments []) 10 30501].


(** An expiry more than five seconds after the first segment removes it, and the
    missing segment returns nothing. *)
Example tp_late_segment :
  match process_all le [received 5 (nth 1 tp_example_segments []) 10 30501; timer 5006 false;
                        received 5007 (nth 0 tp_example_segments []) 10 30501] (tp_reassembler.create 2000) with
  | Ok (os, _) => os = [None; None; None]
  | _ => False
  end.
Proof. vm_compute. reflexivity. Qed.

(** What [tp_split_message] produces, and that it ends: for a segment
    length that is a positive multiple of 16 up to 1392 the loop ends within as
    many rounds as the message has bytes; every segment is a header, a segment
    word and at most [L] payload bytes, all but the last carry exactly [L] bytes
    and the more-segments flag, the offsets are where the payload of the segment
    lies, and the payloads put together are the payload of the message.  With
    segment length 0 the loop never ends. *)
Theorem tp_split_correct (host : endianess_e) (data : bytes) (L : nat) (Hs : tp_splittable data L) :
  (∃ segs, tp.tp_split_message (length data) data L = Some (Ok segs)
    ∧ mjoin (drop 20 <$> segs) = drop 16 data
    ∧ ∀ k s, segs !! k = Some s →
        (20 < length s ≤ 20 + L)%nat
        ∧ (S k < length segs → length s = 20 + L)%nat
        ∧ ∃ w, tp_message.read_tp_header host s = Ok w
            ∧ tp.get_offset w = Z.of_nat (k * L)
            ∧ tp.more_segments w = bool_decide (S k < length segs)%nat)
  ∧ ∀ fuel, tp.tp_split_message fuel data 0 = None.
Proof.
  split.
  - rewrite tp_split_all by done. eexists. split; [done|]. rewrite length_fmap, length_seq. split.
    + assert (∀ m a, (a + m = tp_count data L)%nat →
        mjoin (drop 20 <$> (tp_segment data L <$> seq a m)) = drop (a * L) (tp_payload data)) as H.
      { induction m as [|m IH]; intros a Ha; cbn [seq fmap list_fmap].
        - cbn. rewrite drop_ge; [done|]. rewrite tp_payload_length.
          destruct (decide (a * L < length data - 16)%nat) as [Hlt|]; [|lia].
          apply (tp_count_spec data L Hs) in Hlt. lia.
        - cbn [mjoin list_join]. rewrite IH by lia.
          assert (drop 20 (tp_segment data L a) = tp_chunk data L a) as ->.
          { pose proof (tp_segment_chunk data L a Hs ltac:(lia)) as E.
            rewrite rd_ok in E by (rewrite tp_segment_length by (done || lia); lia).
            injection E as E. rewrite take_ge in E; [done|].
            rewrite length_drop, tp_segment_length by (done || lia). lia. }
          unfold tp_chunk. rewrite Nat.mul_succ_l. by rewrite <- drop_drop, take_drop. }
      rewrite (H (tp_count data L) 0%nat) by lia. cbn [Nat.mul]. by rewrite drop_0.
    + intros k s Hk. rewrite list_lookup_fmap in Hk.
      destruct (seq 0 (tp_count data L) !! k) as [j|] eqn:Ej; [|done].
      apply lookup_seq in Ej as [-> Hlt]. cbn in Hk. simplify_eq.
      destruct (tp_chunk_length data L Hs k Hlt) as (Hc & Hc1 & Hc2).
      rewrite tp_segment_length by done. split; [lia|]. split.
      { intros Hn. rewrite Hc. unfold tp_is_last. rewrite bool_decide_false by lia. lia. }
      exists (tp_word data L k). destruct (tp_word_fields data L k Hs Hlt) as (_ & Ho & Hm).
      split; [by apply tp_segment_read_header|]. split; [done|]. rewrite Hm. unfold tp_is_last.
      rewrite <- bool_decide_not. apply bool_decide_ext. lia.
  - intros fuel. destruct Hs as (_ & [Hlo _] & _).
    unfold tp.tp_split_message, VSOMEIP_MAX_UDP_MESSAGE_SIZE, VSOMEIP_FULL_HEADER_SIZE.
    rewrite (proj2 (Z.ltb_ge _ _)) by lia.
    destruct (header_bytes data) as (d0 & d1 & d2 & d3 & d4 & d5 & d6 & d7 & d8 & d9 & d10 & d11 & d12 & d13
      & d14 & d15 & P & E); [lia|].
    assert (∃ msg, tp.split_one data 16 0 = Ok (msg, false)) as [msg Hone].
    { unfold tp.split_one, VSOMEIP_FULL_HEADER_SIZE, VSOMEIP_MESSAGE_TYPE_POS.
      rewrite (rd_ok data 0) by lia. rewrite bool_decide_false by lia. rewrite (rd_ok data 16 0) by lia.
      rewrite E. cbn [app take drop mbind result_bind rd1 lookup list_lookup]. unfold wr1.
      rewrite decide_True by (cbn [length]; lia). cbn [mbind result_bind insert list_insert app].
      rewrite wr_ok by (rewrite be_bytes_length; unfold VSOMEIP_LENGTH_POS_MIN; cbn [length]; lia).
      by eexists. }
    induction fuel as [|fuel IH]; cbn [tp.split_from]; rewrite decide_True by lia; [done|].
    rewrite Hone. cbn [Nat.add]. by rewrite IH.
Qed.

Lemma tp_split_correct_witness :
  ∃ segs, tp.tp_split_message (length tp_example) tp_example 1392 = Some (Ok segs)
    ∧ mjoin (drop 20 <$> segs) = replicate 1400 0x55.
Proof.
  destruct (tp_split_correct be tp_example 1392) as [(segs & E & J & _) _].
  - split_and!; by_eval.
  - exists segs. split; [exact E|]. rewrite J. vm_compute. reflexivity.
Defined.

(** Overlapping segments make the reassembler read behind the packet.  When
    a new segment starts inside a received one and ends with a gap in
    front of the next received one, [add_segment] copies up to the next segment
    instead of up to its own end: the [memcpy] runs over the end of the packet. *)
Theorem tp_overlap_overread (data : bytes) (off size : Z) (p : nat)
    (cur prev next : tp_message.segment_t) (m : tp_message.t)
    (Hdata : Z.of_nat (length data) = 20 + size) (Hoff : 0 ≤ off)
    (Hcur : cur = tp_message.mk_segment off (off + size - 1))
    (Hprev : tp_message.segments_ m !! p = Some prev)
    (Hover : off ≤ tp_message.end_ prev < tp_message.end_ cur)
    (Hgap : tp_message.end_ cur + 1 < tp_message.start_ next < 2 ^ 32) :
  tp_message.add_between data off size (S p) cur next m = Ub oob_read.
Proof.
  subst cur. cbn [tp_message.start_ tp_message.end_] in *.
  unfold tp_message.add_between, at_idx. rewrite Hprev. cbn [mbind result_bind tp_message.start_ tp_message.end_].
  rewrite (proj2 (Z.ltb_ge _ _)) by lia. rewrite (proj2 (Z.ltb_lt _ _)) by lia.
  unfold tp_message.copy_payload. rewrite !wrap_small by (wrap_bounds; lia).
  unfold rd. rewrite decide_False; [done|]. unfold VSOMEIP_TP_PAYLOAD_POS. lia.
Qed.

(** A segment as a sender would put it on the wire. *)
Definition tp_packet (off size : Z) (more : Z) : bytes :=
  [0; 1; 0; 2] ++ be_bytes 4 (12 + size) ++ [0; 3; 0; 4; 1; 1; 0x20; 0] ++ be_bytes 4 (off + more)
  ++ replicate (Z.to_nat size) 9.

Lemma tp_overlap_overread_witness :
  let m := match tp_message.create le 0 (tp_packet 0 32 1) 2000 with Ok m => m | _ =>
             tp_message.mk 0 0 0 false [] [] end in
  let m := match tp_message.add_segment le (tp_packet 96 16 1) m with Ok (_, m) => m | _ => m end in
  tp_message.segments_ m = [tp_message.mk_segment 0 31; tp_message.mk_segment 96 111]
  ∧ tp_message.add_between (tp_packet 16 32 1) 16 32 1
      (tp_message.mk_segment 16 47) (tp_message.mk_segment 96 111)
      (tp_message.with_segments m [tp_message.mk_segment 0 31; tp_message.mk_segment 16 47; tp_message.mk_segment 96 111])
    = Ub oob_read
  ∧ tp_message.add_segment le (tp_packet 16 32 1) m = Ub oob_read.
Proof.
  intros m0 m. split; [vm_compute; reflexivity|]. split; [|vm_compute; reflexivity].
  apply (tp_overlap_overread (tp_packet 16 32 1) 16 32 0 (tp_message.mk_segment 16 47)
    (tp_message.mk_segment 0 31) (tp_message.mk_segment 96 111)).
  - reflexivity.
  - lia.
  - reflexivity.
  - reflexivity.
  - cbn; lia.
  - cbn; lia.
Defined.

(** [segment_t::operator<] is not a strict weak order: two segments are
    each less than the other exactly when one lies strictly inside the other.
    Apart from such pairs it orders segments by start and end, so that
    equivalent segments are equal. *)
Theorem tp_segment_order (a b : tp_message.segment_t) :
  (tp_message.segment_lt a b && tp_message.segment_lt b a = true ↔
     (tp_message.start_ a < tp_message.start_ b ∧ tp_message.end_ b < tp_message.end_ a)
     ∨ (tp_message.start_ b < tp_message.start_ a ∧ tp_message.end_ a < tp_message.end_ b))
  ∧ (tp_message.segment_lt a b || tp_message.segment_lt b a = false ↔ a = b).
Proof.
  destruct a as [sa ea], b as [sb eb]. unfold tp_message.segment_lt. cbn [tp_message.start_ tp_message.end_].
  split.
  - rewrite andb_true_iff, !orb_true_iff, !andb_true_iff, !Z.ltb_lt, !Z.leb_le. lia.
  - rewrite !orb_false_iff, !andb_false_iff, !Z.ltb_ge, !Z.leb_gt. split.
    + intros. f_equal; lia.
    + intros [= -> ->]. lia.
Qed.
