(* ===== verification/Protocol.v ===== *)
(** * The commands between applications and the routing manager
    ([implementation/protocol])

    Every class of the protocol is a module with its fields, [serialize] and
    [deserialize].  Fields are copied with [std::memcpy] in the byte order of
    the host; a [cursor] is the buffer with the running offset [its_offset].
    [serialize] gets the buffer it writes to, because [resize] keeps what was in
    it; it returns the error, the buffer and the object, whose [size_] is
    mutable.  Accesses outside the buffer are [Ub]; a copy of no bytes at the
    very end of a vector is not. *)

From stdpp Require Import base list gmap.
From Stdlib Require Import ZArith Lia.
From S2P Require Import Prelude BitHelper.

Module id_e.
Definition ASSIGN_CLIENT_ID : Z := 0x00.
Definition ASSIGN_CLIENT_ACK_ID : Z := 0x01.
Definition REGISTER_APPLICATION_ID : Z := 0x02.
Definition DEREGISTER_APPLICATION_ID : Z := 0x03.
Definition ROUTING_INFO_ID : Z := 0x05.
Definition REGISTERED_ACK_ID : Z := 0x06.
Definition PING_ID : Z := 0x07.
Definition PONG_ID : Z := 0x08.
Definition OFFER_SERVICE_ID : Z := 0x10.
Definition STOP_OFFER_SERVICE_ID : Z := 0x11.
Definition SUBSCRIBE_ID : Z := 0x12.
Definition UNSUBSCRIBE_ID : Z := 0x13.
Definition REQUEST_SERVICE_ID : Z := 0x14.
Definition RELEASE_SERVICE_ID : Z := 0x15.
Definition SUBSCRIBE_NACK_ID : Z := 0x16.
Definition SUBSCRIBE_ACK_ID : Z := 0x17.
Definition SEND_ID : Z := 0x18.
Definition NOTIFY_ID : Z := 0x19.
Definition NOTIFY_ONE_ID : Z := 0x1A.
Definition REGISTER_EVENT_ID : Z := 0x1B.
Definition UNREGISTER_EVENT_ID : Z := 0x1C.
Definition OFFERED_SERVICES_REQUEST_ID : Z := 0x1F.
Definition OFFERED_SERVICES_RESPONSE_ID : Z := 0x20.
Definition UNSUBSCRIBE_ACK_ID : Z := 0x21.
Definition RESEND_PROVIDED_EVENTS_ID : Z := 0x22.
Definition UPDATE_SECURITY_POLICY_RESPONSE_ID : Z := 0x24.
Definition REMOVE_SECURITY_POLICY_ID : Z := 0x25.
Definition REMOVE_SECURITY_POLICY_RESPONSE_ID : Z := 0x26.
Definition UPDATE_SECURITY_CREDENTIALS_ID : Z := 0x27.
Definition DISTRIBUTE_SECURITY_POLICIES_ID : Z := 0x28.
Definition EXPIRE_ID : Z := 0x2A.
Definition SUSPEND_ID : Z := 0x30.
Definition CONFIG_ID : Z := 0x31.
Definition UNKNOWN_ID : Z := 0xFF.
End id_e.

Inductive error_e : Set :=
| ERROR_OK
| ERROR_NOT_ENOUGH_BYTES
| ERROR_MAX_COMMAND_SIZE_EXCEEDED
| ERROR_MISMATCH
| ERROR_MALFORMED
| ERROR_NOT_ALLOWED
| ERROR_UNKNOWN.

#[export] Instance error_e_eq_dec : EqDecision error_e.
Proof. solve_decision. Defined.

Definition COMMAND_HEADER_SIZE : nat := 9.
Definition COMMAND_POSITION_VERSION : nat := 1.
Definition COMMAND_POSITION_CLIENT : nat := 3.
Definition COMMAND_POSITION_SIZE : nat := 5.
Definition COMMAND_POSITION_PAYLOAD : nat := 9.
Definition ROUTING_INFO_ENTRY_HEADER_SIZE : nat := 7.
Definition MAX_COMMAND_SIZE : Z := 2 ^ 32 - 1.

Definition ANY_SERVICE : Z := 0xFFFF.
Definition ANY_INSTANCE : Z := 0xFFFF.
Definition ANY_MAJOR : Z := 0xFF.
Definition ANY_MINOR : Z := 0xFFFFFFFF.
Definition ANY_EVENT : Z := 0xFFFF.
Definition ILLEGAL_PORT : Z := 0xFFFF.

(** [get_command] of [protocol.hpp]. *)
Definition get_command (byte : Z) : Z :=
  if byte <=? id_e.SUSPEND_ID then byte else id_e.UNKNOWN_ID.

(** ** Buffers and cursors *)

Definition cursor : Type := bytes * nat.

(** [std::vector::resize(n)] *)
Definition resize (n : nat) (l : bytes) : bytes := take n l ++ replicate (n - length l) 0.

Definition Z_of_bool (b : bool) : Z := if b then 1 else 0.
Definition bool_of_Z (z : Z) : bool := negb (z =? 0).

Section cursors.
Context (host : endianess_e).

(** [std::memcpy(&_buffer[its_offset], p, n); its_offset += n] for a block ... *)
Definition put_bytes (bs : bytes) (c : cursor) : result cursor :=
  buf ← wr c.1 c.2 bs; Ok (buf, (c.2 + length bs)%nat).

(** ... and for an integer of [n] bytes. *)
Definition put (n : nat) (v : Z) (c : cursor) : result cursor := put_bytes (bithelper.mem_of host n v) c.

Definition puts (fields : list (nat * Z)) (c : cursor) : result cursor :=
  foldM (λ f c, put f.1 f.2 c) fields c.

Definition get_bytes (n : nat) (c : cursor) : result (bytes * cursor) :=
  bs ← rd c.1 c.2 n; Ok (bs, (c.1, (c.2 + n)%nat)).

Definition get (n : nat) (c : cursor) : result (Z * cursor) :=
  '(bs, c) ← get_bytes n c; Ok (bithelper.val_of host bs, c).
End cursors.

(** ** The header ([command]) *)

Module command.
Record t : Type := mk { id_ : Z; version_ : Z; client_ : Z; size_ : Z }.

Definition create (id : Z) : t := mk id 0 0 0.
Definition set_client (client : Z) (c : t) : t := mk (id_ c) (version_ c) client (size_ c).
Definition set_size (size : Z) (c : t) : t := mk (id_ c) (version_ c) (client_ c) size.

Section ops.
Context (host : endianess_e).

Definition serialize (c : t) (buf : bytes) : result bytes :=
  buf ← wr1 buf 0 (id_ c);
  buf ← wr buf COMMAND_POSITION_VERSION (bithelper.mem_of host 2 (version_ c));
  buf ← wr buf COMMAND_POSITION_CLIENT (bithelper.mem_of host 2 (client_ c));
  wr buf COMMAND_POSITION_SIZE (bithelper.mem_of host 4 (size_ c)).

Definition read_rest (id : Z) (buf : bytes) : result (error_e * t) :=
  version ← rd buf COMMAND_POSITION_VERSION 2;
  client ← rd buf COMMAND_POSITION_CLIENT 2;
  size ← rd buf COMMAND_POSITION_SIZE 4;
  Ok (ERROR_OK, mk id (bithelper.val_of host version) (bithelper.val_of host client)
                  (bithelper.val_of host size)).

Definition deserialize (c : t) (buf : bytes) : result (error_e * t) :=
  b0 ← rd1 buf 0;
  if id_ c =? id_e.UNKNOWN_ID then read_rest b0 buf
  else if b0 =? id_ c then read_rest (id_ c) buf
  else Ok (ERROR_MISMATCH, c).

(** How every [serialize] starts: size check, [resize], [size_], header. *)
Definition start (its_size : nat) (c : t) (buf : bytes)
    (payload : cursor → result cursor) : result (error_e * bytes * t) :=
  if MAX_COMMAND_SIZE <? Z.of_nat its_size then Ok (ERROR_MAX_COMMAND_SIZE_EXCEEDED, buf, c)
  else
    let buf := resize its_size buf in
    let c := set_size (u32 (Z.of_nat (its_size - COMMAND_HEADER_SIZE))) c in
    buf ← serialize c buf;
    '(buf, _) ← payload (buf, COMMAND_POSITION_PAYLOAD);
    Ok (ERROR_OK, buf, c).

(** How every [deserialize] starts: size check, header. *)
Definition open {A} (its_size : nat) (c : t) (buf : bytes) (obj : t → A)
    (payload : t → cursor → result (error_e * A)) : result (error_e * A) :=
  if decide (length buf < its_size)%nat then Ok (ERROR_NOT_ENOUGH_BYTES, obj c)
  else
    '(err, c) ← deserialize c buf;
    match err with
    | ERROR_OK => payload c (buf, COMMAND_POSITION_PAYLOAD)
    | _ => Ok (err, obj c)
    end.
End ops.
End command.

(** ** Commands with a fixed layout *)

Module simple_command.
Definition t : Type := command.t.
Definition serialize (host : endianess_e) (c : t) (buf : bytes) : result (error_e * bytes * t) :=
  command.start host COMMAND_HEADER_SIZE c buf (λ cur, Ok cur).
Definition deserialize (host : endianess_e) (c : t) (buf : bytes) : result (error_e * t) :=
  command.open host COMMAND_HEADER_SIZE c buf id (λ c _, Ok (ERROR_OK, c)).
End simple_command.

(** One field behind the header: the acknowledged client, the offer type, the
    port, the remote offer, the update identifier. *)
Module one_field.
Record t : Type := mk { head : command.t; field : Z }.
Definition serialize (host : endianess_e) (n : nat) (c : t) (buf : bytes) : result (error_e * bytes * t) :=
  '(err, buf, h) ← command.start host (COMMAND_HEADER_SIZE + n) (head c) buf (put host n (field c));
  Ok (err, buf, mk h (field c)).
Definition deserialize (host : endianess_e) (n : nat) (c : t) (buf : bytes) : result (error_e * t) :=
  command.open host (COMMAND_HEADER_SIZE + n) (head c) buf (λ h, mk h (field c))
    (λ h cur, '(v, _) ← get host n cur; Ok (ERROR_OK, mk h v)).
End one_field.

Module assign_client_ack_command.
Definition t := one_field.t.
Definition serialize host (c : t) buf := one_field.serialize host 2 c buf.
Definition deserialize host (c : t) buf := one_field.deserialize host 2 c buf.
End assign_client_ack_command.

Module offered_services_request_command.
Definition t := one_field.t.
Definition serialize host (c : t) buf := one_field.serialize host 1 c buf.
Definition deserialize host (c : t) buf := one_field.deserialize host 1 c buf.
End offered_services_request_command.

Module register_application_command.
Definition t := one_field.t.
Definition serialize host (c : t) buf := one_field.serialize host 2 c buf.
Definition deserialize host (c : t) buf := one_field.deserialize host 2 c buf.
End register_application_command.

Module resend_provided_events_command.
Definition t := one_field.t.
Definition serialize host (c : t) buf := one_field.serialize host 4 c buf.
Definition deserialize host (c : t) buf := one_field.deserialize host 4 c buf.
End resend_provided_events_command.

Module security_policy_response_command_base.
Definition t := one_field.t.
Definition serialize host (c : t) buf := one_field.serialize host 4 c buf.
Definition deserialize host (c : t) buf := one_field.deserialize host 4 c buf.
End security_policy_response_command_base.

Module remove_security_policy_command.
Record t : Type := mk { head : command.t; update_id_ : Z; uid_ : Z; gid_ : Z }.
Definition serialize (host : endianess_e) (c : t) (buf : bytes) : result (error_e * bytes * t) :=
  '(err, buf, h) ← command.start host (COMMAND_HEADER_SIZE + 4 + 4 + 4) (head c) buf
    (puts host [(4%nat, update_id_ c); (4%nat, uid_ c); (4%nat, gid_ c)]);
  Ok (err, buf, mk h (update_id_ c) (uid_ c) (gid_ c)).
Definition deserialize (host : endianess_e) (c : t) (buf : bytes) : result (error_e * t) :=
  command.open host (COMMAND_HEADER_SIZE + 4 + 4 + 4) (head c) buf
    (λ h, mk h (update_id_ c) (uid_ c) (gid_ c))
    (λ h cur,
      '(update_id, cur) ← get host 4 cur;
      '(uid, cur) ← get host 4 cur;
      '(gid, cur) ← get host 4 cur;
      Ok (ERROR_OK, mk h update_id uid gid)).
End remove_security_policy_command.

(** ** Services *)

Record service : Type := mk_service { service_ : Z; instance_ : Z; major_ : Z; minor_ : Z }.

#[export] Instance service_eq_dec : EqDecision service.
Proof. solve_decision. Defined.

(** [service::operator<] *)
Definition service_lt (a b : service) : bool :=
  (service_ a <? service_ b) || ((service_ a =? service_ b) && (instance_ a <? instance_ b)).

(** [std::set::insert]: an equivalent element stays. *)
Fixpoint oinsert {A} (lt : A → A → bool) (x : A) (l : list A) : list A :=
  match l with
  | [] => [x]
  | y :: l' => if lt x y then x :: l else if lt y x then y :: oinsert lt x l' else l
  end.

Definition service_fields (s : service) : list (nat * Z) :=
  [(2%nat, service_ s); (2%nat, instance_ s); (1%nat, major_ s); (4%nat, minor_ s)].
Definition SERVICE_SIZE : nat := 2 + 2 + 1 + 4.

Definition get_service (host : endianess_e) (cur : cursor) : result (service * cursor) :=
  '(service, cur) ← get host 2 cur;
  '(instance, cur) ← get host 2 cur;
  '(major, cur) ← get host 1 cur;
  '(minor, cur) ← get host 4 cur;
  Ok (mk_service service instance major minor, cur).

Module service_command_base.
Record t : Type := mk { head : command.t; service_ : service }.
Definition serialize (host : endianess_e) (c : t) (buf : bytes) : result (error_e * bytes * t) :=
  '(err, buf, h) ← command.start host (COMMAND_HEADER_SIZE + SERVICE_SIZE) (head c) buf
    (puts host (service_fields (service_ c)));
  Ok (err, buf, mk h (service_ c)).
(** The error of the header is not looked at before the payload is read. *)
Definition deserialize (host : endianess_e) (c : t) (buf : bytes) : result (error_e * t) :=
  if decide (length buf < COMMAND_HEADER_SIZE + SERVICE_SIZE)%nat then Ok (ERROR_NOT_ENOUGH_BYTES, c)
  else
    '(err, h) ← command.deserialize host (head c) buf;
    '(s, _) ← get_service host (buf, COMMAND_POSITION_PAYLOAD);
    Ok (err, mk h s).
End service_command_base.

Module multiple_services_command_base.
Record t : Type := mk { head : command.t; services_ : list service }.
Definition serialize (host : endianess_e) (c : t) (buf : bytes) : result (error_e * bytes * t) :=
  '(err, buf, h) ← command.start host (COMMAND_HEADER_SIZE + length (services_ c) * SERVICE_SIZE) (head c) buf
    (foldM (λ s, puts host (service_fields s)) (services_ c));
  Ok (err, buf, mk h (services_ c)).
Fixpoint read_services (host : endianess_e) (its_count : nat) (services : list service) (cur : cursor)
  : result (list service) :=
  match its_count with
  | O => Ok services
  | S its_count =>
      '(s, cur) ← get_service host cur;
      read_services host its_count (oinsert service_lt s services) cur
  end.
Definition deserialize (host : endianess_e) (c : t) (buf : bytes) : result (error_e * t) :=
  command.open host COMMAND_HEADER_SIZE (head c) buf (λ h, mk h (services_ c))
    (λ h cur,
      let its_count := ((length buf - COMMAND_POSITION_PAYLOAD) / SERVICE_SIZE)%nat in
      services ← read_services host its_count (services_ c) cur;
      Ok (ERROR_OK, mk h services)).
Definition add_service (s : service) (c : t) : t := mk (head c) (oinsert service_lt s (services_ c)).
End multiple_services_command_base.

Module release_service_command.
Record t : Type := mk { head : command.t; service_ : service }.
Definition serialize (host : endianess_e) (c : t) (buf : bytes) : result (error_e * bytes * t) :=
  '(err, buf, h) ← command.start host (COMMAND_HEADER_SIZE + 2 + 2) (head c) buf
    (puts host [(2%nat, Protocol.service_ (service_ c)); (2%nat, instance_ (service_ c))]);
  Ok (err, buf, mk h (service_ c)).
Definition deserialize (host : endianess_e) (c : t) (buf : bytes) : result (error_e * t) :=
  command.open host (COMMAND_HEADER_SIZE + 2 + 2) (head c) buf (λ h, mk h (service_ c))
    (λ h cur,
      '(service, cur) ← get host 2 cur;
      '(instance, cur) ← get host 2 cur;
      Ok (ERROR_OK, mk h (mk_service service instance (major_ (service_ c)) (minor_ (service_ c))))).
End release_service_command.

(** ** Subscriptions *)

Module subscribe_command_base.
Record t : Type := mk {
  head : command.t; service_ : Z; instance_ : Z; eventgroup_ : Z; major_ : Z; event_ : Z; pending_id_ : Z
}.
Definition create (id : Z) : t := mk (command.create id) ANY_SERVICE ANY_INSTANCE 0 ANY_MAJOR ANY_EVENT 0.
Definition with_head (c : t) (h : command.t) : t :=
  mk h (service_ c) (instance_ c) (eventgroup_ c) (major_ c) (event_ c) (pending_id_ c).
Definition fields (c : t) : list (nat * Z) :=
  [(2%nat, service_ c); (2%nat, instance_ c); (2%nat, eventgroup_ c); (1%nat, major_ c); (2%nat, event_ c);
   (2%nat, pending_id_ c)].
Definition PAYLOAD_SIZE : nat := 2 + 2 + 2 + 1 + 2 + 2.
Definition read_payload (host : endianess_e) (h : command.t) (cur : cursor) : result t :=
  '(service, cur) ← get host 2 cur;
  '(instance, cur) ← get host 2 cur;
  '(eventgroup, cur) ← get host 2 cur;
  '(major, cur) ← get host 1 cur;
  '(event, cur) ← get host 2 cur;
  '(pending_id, cur) ← get host 2 cur;
  Ok (mk h service instance eventgroup major event pending_id).

(** [unsubscribe_command] and [expire_command]. *)
Definition serialize (host : endianess_e) (c : t) (buf : bytes) : result (error_e * bytes * t) :=
  '(err, buf, h) ← command.start host (COMMAND_HEADER_SIZE + PAYLOAD_SIZE) (head c) buf
    (puts host (fields c));
  Ok (err, buf, with_head c h).
Definition deserialize (host : endianess_e) (c : t) (buf : bytes) : result (error_e * t) :=
  command.open host (COMMAND_HEADER_SIZE + PAYLOAD_SIZE) (head c) buf (with_head c)
    (λ h cur, c ← read_payload host h cur; Ok (ERROR_OK, c)).
End subscribe_command_base.

(** [debounce_filter_impl_t]; [interval_] is an [int64_t], [ignore_] the
    [std::map<std::size_t, byte_t>] as its sorted entries. *)
Record debounce_filter_impl_t : Type := mk_filter {
  on_change_ : bool;
  on_change_resets_interval_ : bool;
  interval_ : Z;
  ignore_ : list (Z * Z);
  send_current_value_after_ : bool
}.

Definition ignore_lt (a b : Z * Z) : bool := a.1 <? b.1.

Module subscribe_command.
Record t : Type := mk { base : subscribe_command_base.t; filter_ : option debounce_filter_impl_t }.

Definition PAYLOAD_SIZE : nat := subscribe_command_base.PAYLOAD_SIZE.
Definition filter_size (f : option debounce_filter_impl_t) : nat :=
  match f with Some f => (1 + 1 + 8 + length (ignore_ f) * (8 + 1) + 1)%nat | None => 0%nat end.

Definition put_filter (host : endianess_e) (f : option debounce_filter_impl_t) (cur : cursor) : result cursor :=
  match f with
  | Some f =>
      cur ← puts host [(1%nat, Z_of_bool (on_change_ f)); (1%nat, Z_of_bool (on_change_resets_interval_ f));
                       (8%nat, interval_ f)] cur;
      cur ← foldM (λ i, puts host [(8%nat, i.1); (1%nat, i.2)]) (ignore_ f) cur;
      put host 1 (Z_of_bool (send_current_value_after_ f)) cur
  | None => Ok cur
  end.

Definition serialize (host : endianess_e) (c : t) (buf : bytes) : result (error_e * bytes * t) :=
  '(err, buf, h) ← command.start host (COMMAND_HEADER_SIZE + PAYLOAD_SIZE + filter_size (filter_ c))
    (subscribe_command_base.head (base c)) buf
    (λ cur, cur ← puts host (subscribe_command_base.fields (base c)) cur; put_filter host (filter_ c) cur);
  Ok (err, buf, mk (subscribe_command_base.with_head (base c) h) (filter_ c)).

(** The loop over the ignored bytes; a repeated key ends it.  Here and below a
    loop whose rounds are used up is [Ub endless], which is never the case. *)
Fixpoint read_ignore (fuel : nat) (host : endianess_e) (ignore : list (Z * Z)) (cur : cursor)
  : result (error_e * list (Z * Z) * cursor) :=
  if decide (8 + 1 ≤ length cur.1 - cur.2)%nat then
    match fuel with
    | O => Ub endless
    | S fuel =>
        '(its_key, cur1) ← get host 8 cur;
        if existsb (λ p, p.1 =? its_key) ignore then Ok (ERROR_MALFORMED, ignore, cur)
        else
          '(its_value, cur2) ← get host 1 cur1;
          read_ignore fuel host (oinsert ignore_lt (its_key, its_value) ignore) cur2
    end
  else Ok (ERROR_OK, ignore, cur).

(** Signed 64 bit value of eight bytes. *)
Definition int64 (v : Z) : Z := if v <? 2 ^ 63 then v else v - 2 ^ 64.

Definition read_filter (host : endianess_e) (cur : cursor)
  : result (error_e * option debounce_filter_impl_t) :=
  if decide (1 + 1 + 8 ≤ length cur.1 - cur.2)%nat then
    '(on_change, cur) ← get host 1 cur;
    '(resets, cur) ← get host 1 cur;
    '(interval, cur) ← get host 8 cur;
    '(err, ignore, cur) ← read_ignore (length cur.1) host [] cur;
    let filter after := mk_filter (bool_of_Z on_change) (bool_of_Z resets) (int64 interval) ignore after in
    match err with
    | ERROR_OK => '(after, cur) ← get host 1 cur; Ok (ERROR_OK, Some (filter (bool_of_Z after)))
    | _ => Ok (err, Some (filter false))
    end
  else Ok (ERROR_OK, None).

Definition deserialize (host : endianess_e) (c : t) (buf : bytes) : result (error_e * t) :=
  command.open host (COMMAND_HEADER_SIZE + PAYLOAD_SIZE) (subscribe_command_base.head (base c)) buf
    (λ h, mk (subscribe_command_base.with_head (base c) h) (filter_ c))
    (λ h cur,
      b ← subscribe_command_base.read_payload host h cur;
      '(err, f) ← read_filter host (buf, (COMMAND_HEADER_SIZE + PAYLOAD_SIZE)%nat);
      Ok (err, mk b (match f with Some f => Some f | None => filter_ c end))).
End subscribe_command.

Module subscribe_ack_command_base.
Record t : Type := mk {
  head : command.t; service_ : Z; instance_ : Z; eventgroup_ : Z; subscriber_ : Z; event_ : Z; pending_id_ : Z
}.
Definition with_head (c : t) (h : command.t) : t :=
  mk h (service_ c) (instance_ c) (eventgroup_ c) (subscriber_ c) (event_ c) (pending_id_ c).
Definition serialize (host : endianess_e) (c : t) (buf : bytes) : result (error_e * bytes * t) :=
  '(err, buf, h) ← command.start host (COMMAND_HEADER_SIZE + 2 + 2 + 2 + 2 + 2 + 2) (head c) buf
    (puts host [(2%nat, service_ c); (2%nat, instance_ c); (2%nat, eventgroup_ c); (2%nat, subscriber_ c);
                (2%nat, event_ c); (2%nat, pending_id_ c)]);
  Ok (err, buf, with_head c h).
Definition deserialize (host : endianess_e) (c : t) (buf : bytes) : result (error_e * t) :=
  command.open host (COMMAND_HEADER_SIZE + 2 + 2 + 2 + 2 + 2 + 2) (head c) buf (with_head c)
    (λ h cur,
      '(service, cur) ← get host 2 cur;
      '(instance, cur) ← get host 2 cur;
      '(eventgroup, cur) ← get host 2 cur;
      '(subscriber, cur) ← get host 2 cur;
      '(event, cur) ← get host 2 cur;
      '(pending_id, cur) ← get host 2 cur;
      Ok (ERROR_OK, mk h service instance eventgroup subscriber event pending_id)).
End subscribe_ack_command_base.

Module unsubscribe_ack_command.
Record t : Type := mk { head : command.t; service_ : Z; instance_ : Z; eventgroup_ : Z; pending_id_ : Z }.
Definition with_head (c : t) (h : command.t) : t :=
  mk h (service_ c) (instance_ c) (eventgroup_ c) (pending_id_ c).
Definition serialize (host : endianess_e) (c : t) (buf : bytes) : result (error_e * bytes * t) :=
  '(err, buf, h) ← command.start host (COMMAND_HEADER_SIZE + 2 + 2 + 2 + 2) (head c) buf
    (puts host [(2%nat, service_ c); (2%nat, instance_ c); (2%nat, eventgroup_ c); (2%nat, pending_id_ c)]);
  Ok (err, buf, with_head c h).
Definition deserialize (host : endianess_e) (c : t) (buf : bytes) : result (error_e * t) :=
  command.open host (COMMAND_HEADER_SIZE + 2 + 2 + 2 + 2) (head c) buf (with_head c)
    (λ h cur,
      '(service, cur) ← get host 2 cur;
      '(instance, cur) ← get host 2 cur;
      '(eventgroup, cur) ← get host 2 cur;
      '(pending_id, cur) ← get host 2 cur;
      Ok (ERROR_OK, mk h service instance eventgroup pending_id)).
End unsubscribe_ack_command.

(** ** Events and messages *)

Module unregister_event_command.
Record t : Type := mk { head : command.t; service_ : Z; instance_ : Z; event_ : Z; is_provided_ : bool }.
Definition with_head (c : t) (h : command.t) : t := mk h (service_ c) (instance_ c) (event_ c) (is_provided_ c).
Definition serialize (host : endianess_e) (c : t) (buf : bytes) : result (error_e * bytes * t) :=
  '(err, buf, h) ← command.start host (COMMAND_HEADER_SIZE + 2 + 2 + 2 + 1) (head c) buf
    (puts host [(2%nat, service_ c); (2%nat, instance_ c); (2%nat, event_ c); (1%nat, Z_of_bool (is_provided_ c))]);
  Ok (err, buf, with_head c h).
Definition deserialize (host : endianess_e) (c : t) (buf : bytes) : result (error_e * t) :=
  command.open host (COMMAND_HEADER_SIZE + 2 + 2 + 2 + 1) (head c) buf (with_head c)
    (λ h cur,
      '(service, cur) ← get host 2 cur;
      '(instance, cur) ← get host 2 cur;
      '(event, cur) ← get host 2 cur;
      '(is_provided, cur) ← get host 1 cur;
      Ok (ERROR_OK, mk h service instance event (bool_of_Z is_provided))).
End unregister_event_command.

(** [send_command], also for [NOTIFY_ID] and [NOTIFY_ONE_ID]. *)
Module send_command.
Record t : Type := mk {
  head : command.t; instance_ : Z; is_reliable_ : bool; status_ : Z; target_ : Z; message_ : bytes
}.
Definition with_head (c : t) (h : command.t) : t :=
  mk h (instance_ c) (is_reliable_ c) (status_ c) (target_ c) (message_ c).
Definition serialize (host : endianess_e) (c : t) (buf : bytes) : result (error_e * bytes * t) :=
  '(err, buf, h) ← command.start host (COMMAND_HEADER_SIZE + 2 + 1 + 1 + 2 + length (message_ c)) (head c) buf
    (λ cur,
      cur ← puts host [(2%nat, instance_ c); (1%nat, Z_of_bool (is_reliable_ c)); (1%nat, status_ c);
                       (2%nat, target_ c)] cur;
      put_bytes (message_ c) cur);
  Ok (err, buf, with_head c h).
Definition deserialize (host : endianess_e) (c : t) (buf : bytes) : result (error_e * t) :=
  command.open host (COMMAND_HEADER_SIZE + 2 + 1 + 1 + 2) (head c) buf (with_head c)
    (λ h cur,
      '(instance, cur) ← get host 2 cur;
      '(is_reliable, cur) ← get host 1 cur;
      '(status, cur) ← get host 1 cur;
      '(target, cur) ← get host 2 cur;
      '(message, cur) ← get_bytes (length buf - cur.2) cur;
      Ok (ERROR_OK, mk h instance (bool_of_Z is_reliable) status target message)).
End send_command.

Module register_event.
Record t : Type := mk {
  service_ : Z; instance_ : Z; event_ : Z; event_type_ : Z; is_provided_ : bool; reliability_ : Z;
  is_cyclic_ : bool; num_eventg_ : Z; eventgroups_ : list Z
}.
Definition STATIC_SIZE : nat := 2 + 2 + 2 + 1 + 1 + 1 + 1 + 2.

Definition set_eventgroups (groups : list Z) (e : t) : t :=
  mk (service_ e) (instance_ e) (event_ e) (event_type_ e) (is_provided_ e) (reliability_ e) (is_cyclic_ e)
     (u16 (Z.of_nat (length groups))) groups.

Definition serialize (host : endianess_e) (e : t) (cur : cursor) : result (error_e * cursor) :=
  if decide (length cur.1 < cur.2 + STATIC_SIZE)%nat then Ok (ERROR_NOT_ENOUGH_BYTES, cur)
  else
    cur ← puts host [(2%nat, service_ e); (2%nat, instance_ e); (2%nat, event_ e); (1%nat, event_type_ e);
                     (1%nat, Z_of_bool (is_provided_ e)); (1%nat, reliability_ e);
                     (1%nat, Z_of_bool (is_cyclic_ e)); (2%nat, num_eventg_ e)] cur;
    if decide (length cur.1 < cur.2 + Z.to_nat (num_eventg_ e) * 2)%nat then Ok (ERROR_NOT_ENOUGH_BYTES, cur)
    else
      cur ← foldM (λ g, put host 2 g) (eventgroups_ e) cur;
      Ok (ERROR_OK, cur).

Fixpoint read_groups (host : endianess_e) (n : nat) (groups : list Z) (cur : cursor)
  : result (list Z * cursor) :=
  match n with
  | O => Ok (groups, cur)
  | S n => '(g, cur) ← get host 2 cur; read_groups host n (oinsert Z.ltb g groups) cur
  end.

Definition create : t := mk ANY_SERVICE ANY_INSTANCE ANY_EVENT 0xFF false 0xFF false 0 [].

(** On a fresh object. *)
Definition deserialize (host : endianess_e) (cur : cursor) : result (error_e * t * cursor) :=
  if decide (length cur.1 < cur.2 + STATIC_SIZE)%nat then Ok (ERROR_NOT_ENOUGH_BYTES, create, cur)
  else
    '(service, cur) ← get host 2 cur;
    '(instance, cur) ← get host 2 cur;
    '(event, cur) ← get host 2 cur;
    '(event_type, cur) ← get host 1 cur;
    '(is_provided, cur) ← get host 1 cur;
    '(reliability, cur) ← get host 1 cur;
    '(is_cyclic, cur) ← get host 1 cur;
    '(num, cur) ← get host 2 cur;
    let obj := mk service instance event event_type (bool_of_Z is_provided) reliability (bool_of_Z is_cyclic) num in
    if decide (length cur.1 < cur.2 + Z.to_nat num * 2)%nat then Ok (ERROR_NOT_ENOUGH_BYTES, obj [], cur)
    else
      '(groups, cur) ← read_groups host (Z.to_nat num) [] cur;
      Ok (ERROR_OK, obj groups, cur).
End register_event.

Module register_events_command.
Record t : Type := mk { head : command.t; registrations_ : list register_event.t }.

Definition create : t := mk (command.create id_e.REGISTER_EVENT_ID) [].

(** [size_] accumulates the sizes of the registrations. *)
Definition add_registration (e : register_event.t) (c : t) : bool * t :=
  let its_size := command.size_ (head c) + 9 + Z.of_nat register_event.STATIC_SIZE
                  + register_event.num_eventg_ e * 2 in
  if MAX_COMMAND_SIZE <? its_size then (false, c)
  else (true, mk (command.set_size (u32 (its_size - 9)) (head c)) (registrations_ c ++ [e])).

Fixpoint put_registrations (host : endianess_e) (l : list register_event.t) (cur : cursor)
  : result (error_e * cursor) :=
  match l with
  | [] => Ok (ERROR_OK, cur)
  | e :: l =>
      '(err, cur) ← register_event.serialize host e cur;
      match err with ERROR_OK => put_registrations host l cur | _ => Ok (err, cur) end
  end.

Definition serialize (host : endianess_e) (c : t) (buf : bytes) : result (error_e * bytes * t) :=
  if MAX_COMMAND_SIZE <? command.size_ (head c) + 9 then Ok (ERROR_MAX_COMMAND_SIZE_EXCEEDED, buf, c)
  else
    let buf := resize (Z.to_nat (command.size_ (head c)) + COMMAND_HEADER_SIZE) buf in
    buf ← command.serialize host (head c) buf;
    '(err, cur) ← put_registrations host (registrations_ c) (buf, COMMAND_HEADER_SIZE);
    Ok (err, cur.1, c).

(** The loop until the end of the buffer; every round consumes bytes or ends. *)
Fixpoint read_registrations (fuel : nat) (host : endianess_e) (l : list register_event.t) (cur : cursor)
  : result (error_e * list register_event.t) :=
  if decide (cur.2 < length cur.1)%nat then
    match fuel with
    | O => Ub endless
    | S fuel =>
        '(err, e, cur) ← register_event.deserialize host cur;
        match err with
        | ERROR_OK => read_registrations fuel host (l ++ [e]) cur
        | _ => Ok (err, l)
        end
    end
  else Ok (ERROR_OK, l).

Definition deserialize (host : endianess_e) (c : t) (buf : bytes) : result (error_e * t) :=
  command.open host COMMAND_HEADER_SIZE (head c) buf (λ h, mk h [])
    (λ h cur, '(err, l) ← read_registrations (length buf) host [] cur; Ok (err, mk h l)).
End register_events_command.

(** ** Routing information

    [boost::asio::ip::address] is a library type: its operations and what its
    documentation says of them are an interface. *)

Class IpAddress (addr : Type) : Type := {
  unspecified : addr;
  is_unspecified : addr → bool;
  is_v4 : addr → bool;
  to_bytes : addr → bytes;
  address_v4 : bytes → addr;
  address_v6 : bytes → addr
}.

Class IpAddressLaws (addr : Type) `{IpAddress addr} : Prop := {
  to_bytes_length : ∀ a, length (to_bytes a) = if is_v4 a then 4%nat else 16%nat;
  to_bytes_ok : ∀ a, bytes_ok (to_bytes a);
  address_v4_to_bytes : ∀ a, is_v4 a = true → address_v4 (to_bytes a) = a;
  address_v6_to_bytes : ∀ a, is_v4 a = false → address_v6 (to_bytes a) = a;
  unspecified_is : ∀ a, is_v4 a = true → is_unspecified a = true → a = unspecified
}.

Module routing_info_entry_type_e.
Definition RIE_ADD_CLIENT : Z := 0x00.
Definition RIE_DELETE_CLIENT : Z := 0x01.
Definition RIE_ADD_SERVICE_INSTANCE : Z := 0x02.
Definition RIE_DELETE_SERVICE_INSTANCE : Z := 0x04.
Definition RIE_UNKNOWN : Z := 0xff.
End routing_info_entry_type_e.

Module routing_info_entry.
Section address.
Context {addr : Type} `{IpAddress addr}.

Record t : Type := mk {
  type_ : Z; client_ : Z; address_ : addr; port_ : Z; services_ : list service
}.

Definition create : t := mk routing_info_entry_type_e.RIE_UNKNOWN 0 unspecified 0 [].

Definition has_services (type : Z) : bool := routing_info_entry_type_e.RIE_DELETE_CLIENT <? type.

(** Bytes of address and port. *)
Definition address_size (a : addr) : nat :=
  if is_unspecified a then 0%nat else if is_v4 a then (4 + 2)%nat else (16 + 2)%nat.

Definition get_size (e : t) : nat :=
  (ROUTING_INFO_ENTRY_HEADER_SIZE + address_size (address_ e)
   + if has_services (type_ e) then 4 + 4 + length (services_ e) * SERVICE_SIZE else 0)%nat.

Definition serialize (host : endianess_e) (e : t) (cur : cursor) : result (error_e * cursor) :=
  cur ← put host 1 (type_ e) cur;
  let its_size := (get_size e - 4 - 1)%nat in
  if MAX_COMMAND_SIZE <? Z.of_nat its_size then Ok (ERROR_MALFORMED, cur)
  else
    cur ← put host 4 (Z.of_nat its_size) cur;
    let its_client_size := Z.of_nat (2 + address_size (address_ e)) in
    cur ← (if has_services (type_ e) then put host 4 its_client_size cur else Ok cur);
    cur ← put host 2 (client_ e) cur;
    cur ← (if is_unspecified (address_ e) then Ok cur
           else cur ← put_bytes (to_bytes (address_ e)) cur; put host 2 (port_ e) cur);
    if has_services (type_ e) then
      let its_size := Z.of_nat (length (services_ e) * SERVICE_SIZE) in
      if MAX_COMMAND_SIZE <? its_size then Ok (ERROR_MALFORMED, cur)
      else
        cur ← put host 4 its_size cur;
        cur ← foldM (λ s, puts host (service_fields s)) (services_ e) cur;
        Ok (ERROR_OK, cur)
    else Ok (ERROR_OK, cur).

Fixpoint read_services (host : endianess_e) (its_n : nat) (services : list service) (cur : cursor)
  : result (list service * cursor) :=
  match its_n with
  | O => Ok (services, cur)
  | S its_n => '(s, cur) ← get_service host cur; read_services host its_n (services ++ [s]) cur
  end.

(** Address and port, when the client information is longer than the client. *)
Definition read_address (host : endianess_e) (its_client_size : Z) (cur : cursor)
  : result (error_e * addr * Z * cursor) :=
  if 2 <? its_client_size then
    let its_address_size := u32 (its_client_size - 4) in
    if its_address_size =? 4 then
      '(bs, cur) ← get_bytes 4 cur;
      '(port, cur) ← get host 2 cur;
      Ok (ERROR_OK, address_v4 bs, port, cur)
    else if its_address_size =? 16 then
      '(bs, cur) ← get_bytes 16 cur;
      '(port, cur) ← get host 2 cur;
      Ok (ERROR_OK, address_v6 bs, port, cur)
    else Ok (ERROR_MALFORMED, unspecified, 0, cur)
  else Ok (ERROR_OK, unspecified, 0, cur).

(** On a fresh object. *)
Definition deserialize (host : endianess_e) (cur : cursor) : result (error_e * t * cursor) :=
  if decide (length cur.1 < cur.2 + 1 + 4 + 2)%nat then Ok (ERROR_NOT_ENOUGH_BYTES, create, cur)
  else
    '(type, cur) ← get host 1 cur;
    if type =? routing_info_entry_type_e.RIE_UNKNOWN
    then Ok (ERROR_MALFORMED, mk type 0 unspecified 0 [], cur)
    else
      '(its_size, cur) ← get host 4 cur;
      '(its_client_size, cur) ← (if has_services type then get host 4 cur else Ok (its_size, cur));
      '(client, cur) ← get host 2 cur;
      '(err, address, port, cur) ← read_address host its_client_size cur;
      match err with
      | ERROR_OK =>
          if has_services type then
            if decide (length cur.1 < cur.2 + 4)%nat
            then Ok (ERROR_NOT_ENOUGH_BYTES, mk type client address port [], cur)
            else
              '(its_size, cur) ← get host 4 cur;
              if decide (length cur.1 < cur.2 + Z.to_nat its_size)%nat
              then Ok (ERROR_NOT_ENOUGH_BYTES, mk type client address port [], cur)
              else
                '(services, cur) ← read_services host (Z.to_nat its_size / SERVICE_SIZE) [] cur;
                Ok (ERROR_OK, mk type client address port services, cur)
          else Ok (ERROR_OK, mk type client address port [], cur)
      | _ => Ok (err, mk type client address port [], cur)
      end.
End address.
Arguments t addr : clear implicits.
End routing_info_entry.

Module routing_info_command.
Section address.
Context {addr : Type} `{IpAddress addr}.
Record t : Type := mk { head : command.t; entries_ : list (routing_info_entry.t addr) }.

Fixpoint put_entries (host : endianess_e) (l : list (routing_info_entry.t addr)) (cur : cursor)
  : result (error_e * cursor) :=
  match l with
  | [] => Ok (ERROR_OK, cur)
  | e :: l =>
      '(err, cur) ← routing_info_entry.serialize host e cur;
      match err with ERROR_OK => put_entries host l cur | _ => Ok (err, cur) end
  end.

Definition serialize (host : endianess_e) (c : t) (buf : bytes) : result (error_e * bytes * t) :=
  let its_size := (COMMAND_HEADER_SIZE + sum_list_with routing_info_entry.get_size (entries_ c))%nat in
  let buf := resize its_size buf in
  let h := command.set_size (u32 (Z.of_nat (its_size - COMMAND_HEADER_SIZE))) (head c) in
  buf ← command.serialize host h buf;
  '(err, cur) ← put_entries host (entries_ c) (buf, COMMAND_HEADER_SIZE);
  Ok (err, match err with ERROR_OK => cur.1 | _ => [] end, mk h (entries_ c)).

Fixpoint read_entries (fuel : nat) (host : endianess_e) (l : list (routing_info_entry.t addr)) (cur : cursor)
  : result (error_e * list (routing_info_entry.t addr)) :=
  if decide (cur.2 < length cur.1)%nat then
    match fuel with
    | O => Ub endless
    | S fuel =>
        '(err, e, cur) ← routing_info_entry.deserialize host cur;
        match err with ERROR_OK => read_entries fuel host (l ++ [e]) cur | _ => Ok (err, l) end
    end
  else Ok (ERROR_OK, l).

Definition deserialize (host : endianess_e) (c : t) (buf : bytes) : result (error_e * t) :=
  command.open host COMMAND_HEADER_SIZE (head c) buf (λ h, mk h (entries_ c))
    (λ h cur, '(err, l) ← read_entries (length buf) host (entries_ c) cur; Ok (err, mk h l)).
End address.
Arguments t addr : clear implicits.
End routing_info_command.

(** ** Credentials, policies, configuration and names *)

Definition pair_lt (a b : Z * Z) : bool := (a.1 <? b.1) || ((a.1 =? b.1) && (a.2 <? b.2)).

Module update_security_credentials_command.
Record t : Type := mk { head : command.t; credentials_ : list (Z * Z) }.
Definition serialize (host : endianess_e) (c : t) (buf : bytes) : result (error_e * bytes * t) :=
  '(err, buf, h) ← command.start host (COMMAND_HEADER_SIZE + length (credentials_ c) * (4 + 4)) (head c) buf
    (foldM (λ p, puts host [(4%nat, p.1); (4%nat, p.2)]) (credentials_ c));
  Ok (err, buf, mk h (credentials_ c)).
Fixpoint read_credentials (host : endianess_e) (its_count : nat) (l : list (Z * Z)) (cur : cursor)
  : result (list (Z * Z)) :=
  match its_count with
  | O => Ok l
  | S its_count =>
      '(its_uid, cur) ← get host 4 cur;
      '(its_gid, cur) ← get host 4 cur;
      read_credentials host its_count (oinsert pair_lt (its_uid, its_gid) l) cur
  end.
Definition deserialize (host : endianess_e) (c : t) (buf : bytes) : result (error_e * t) :=
  command.open host COMMAND_HEADER_SIZE (head c) buf (λ h, mk h (credentials_ c))
    (λ h cur,
      if Z.of_nat (length buf) <? 9 + command.size_ h then Ok (ERROR_NOT_ENOUGH_BYTES, mk h (credentials_ c))
      else
        l ← read_credentials host (Z.to_nat (command.size_ h / 8)) (credentials_ c) cur;
        Ok (ERROR_OK, mk h l)).
End update_security_credentials_command.

(** The payload of the command is prepared by [set_payloads]; without it the
    code clears four bytes behind the header. *)
Module distribute_security_policies_command.
Record t : Type := mk { head : command.t; payload_ : bytes }.
Definition set_payloads (host : endianess_e) (payloads : list bytes) (c : t) : t :=
  mk (head c)
    (payload_ c ++ bithelper.mem_of host 4 (Z.of_nat (length payloads))
       ++ mjoin ((λ p, bithelper.mem_of host 4 (Z.of_nat (length p)) ++ p) <$> payloads)).
Definition serialize (host : endianess_e) (c : t) (buf : bytes) : result (error_e * bytes * t) :=
  '(err, buf, h) ← command.start host (COMMAND_HEADER_SIZE + length (payload_ c)) (head c) buf
    (match payload_ c with
     | [] => put_bytes [0; 0; 0; 0]
     | _ => put_bytes (payload_ c)
     end);
  Ok (err, buf, mk h (payload_ c)).
End distribute_security_policies_command.

Module config_command.
Record t : Type := mk { head : command.t; configs_ : list (bytes * bytes) }.

(** Lexicographic order of the keys; [insert_or_assign] and [operator[]]. *)
Fixpoint key_lt (a b : bytes) : bool :=
  match a, b with
  | _, [] => false
  | [], _ :: _ => true
  | x :: a, y :: b => (x <? y) || ((x =? y) && key_lt a b)
  end.
Fixpoint assign (k v : bytes) (l : list (bytes * bytes)) : list (bytes * bytes) :=
  match l with
  | [] => [(k, v)]
  | p :: l' => if key_lt k p.1 then (k, v) :: l else if key_lt p.1 k then p :: assign k v l' else (p.1, v) :: l'
  end.
Definition insert (k v : bytes) (c : t) : t := mk (head c) (assign k v (configs_ c)).

Definition pair_size (p : bytes * bytes) : nat := (4 * 2 + length p.1 + length p.2)%nat.

Definition put_string (host : endianess_e) (s : bytes) (cur : cursor) : result cursor :=
  cur ← put host 4 (u32 (Z.of_nat (length s))) cur; put_bytes s cur.

Definition serialize (host : endianess_e) (c : t) (buf : bytes) : result (error_e * bytes * t) :=
  '(err, buf, h) ← command.start host (COMMAND_HEADER_SIZE + sum_list_with pair_size (configs_ c)) (head c) buf
    (foldM (λ p cur, cur ← put_string host p.1 cur; put_string host p.2 cur) (configs_ c));
  Ok (err, buf, mk h (configs_ c)).

(** The lambda [read]: [None] when it failed.  The length is copied into the
    first four bytes of a [size_t] that is 0, so a big endian host reads it
    shifted by 32 bits. *)
Definition read_size (host : endianess_e) (cur : cursor) : result (Z * cursor) :=
  '(v, cur) ← get host 4 cur;
  Ok (match host with le => v | be => Z.shiftl v 32 end, cur).

Definition read_string (host : endianess_e) (remaining : nat) (cur : cursor)
  : result (option (bytes * nat * cursor)) :=
  if decide (remaining < 4)%nat then Ok None
  else
    '(size, cur) ← read_size host cur;
    let remaining := (remaining - 4)%nat in
    if (Z.of_nat remaining <? size) || (Z.of_nat (length cur.1) <? Z.of_nat cur.2 + size) then Ok None
    else
      '(value, cur) ← get_bytes (Z.to_nat size) cur;
      Ok (Some (value, (remaining - Z.to_nat size)%nat, cur)).

Fixpoint read_configs (fuel : nat) (host : endianess_e) (remaining : nat) (l : list (bytes * bytes)) (cur : cursor)
  : result (error_e * list (bytes * bytes)) :=
  if decide (0 < remaining)%nat then
    match fuel with
    | O => Ub endless
    | S fuel =>
        key ← read_string host remaining cur;
        match key with
        | None => Ok (ERROR_NOT_ENOUGH_BYTES, l)
        | Some (key, remaining, cur) =>
            value ← read_string host remaining cur;
            match value with
            | None => Ok (ERROR_NOT_ENOUGH_BYTES, l)
            | Some (value, remaining, cur) => read_configs fuel host remaining (assign key value l) cur
            end
        end
    end
  else Ok (ERROR_OK, l).

Definition deserialize (host : endianess_e) (c : t) (buf : bytes) : result (error_e * t) :=
  command.open host COMMAND_HEADER_SIZE (head c) buf (λ h, mk h (configs_ c))
    (λ h cur,
      if negb (command.version_ h =? 0) then Ok (ERROR_UNKNOWN, mk h (configs_ c))
      else
        let remaining := command.size_ h in
        if Z.of_nat (length buf) <? 9 + remaining then Ok (ERROR_NOT_ENOUGH_BYTES, mk h (configs_ c))
        else
          '(err, l) ← read_configs (length buf) host (Z.to_nat remaining) (configs_ c) cur;
          Ok (err, mk h l)).
End config_command.

Module assign_client_command.
Record t : Type := mk { head : command.t; name_ : bytes }.
Definition serialize (host : endianess_e) (c : t) (buf : bytes) : result (error_e * bytes * t) :=
  '(err, buf, h) ← command.start host (COMMAND_HEADER_SIZE + length (name_ c)) (head c) buf
    (put_bytes (name_ c));
  Ok (err, buf, mk h (name_ c)).
(** [name_.assign(&_buffer[9], &_buffer[_buffer.size() - 1])]: the range ends in
    front of the last byte; it is not a range when the buffer ends with the
    header. *)
Definition deserialize (host : endianess_e) (c : t) (buf : bytes) : result (error_e * t) :=
  command.open host COMMAND_HEADER_SIZE (head c) buf (λ h, mk h (name_ c))
    (λ h cur,
      if 0 <? command.size_ h then
        if decide (length buf - 1 < COMMAND_POSITION_PAYLOAD)%nat then Ub oob_read
        else
          '(name, cur) ← get_bytes (length buf - 1 - COMMAND_POSITION_PAYLOAD) cur;
          Ok (ERROR_OK, mk h name)
      else Ok (ERROR_OK, mk h (name_ c))).
End assign_client_command.

(** ** The concrete classes

    The constructors of the classes that only fix the identifier of a base
    class. *)

Definition mk_service_default : service := mk_service ANY_SERVICE ANY_INSTANCE ANY_MAJOR ANY_MINOR.

Definition deregister_application_command : simple_command.t := command.create id_e.DEREGISTER_APPLICATION_ID.
Definition dummy_command : simple_command.t := command.create id_e.UNKNOWN_ID.
Definition ping_command : simple_command.t := command.create id_e.PING_ID.
Definition pong_command : simple_command.t := command.create id_e.PONG_ID.
Definition registered_ack_command : simple_command.t := command.create id_e.REGISTERED_ACK_ID.
Definition suspend_command : simple_command.t := command.create id_e.SUSPEND_ID.

Definition offer_service_command : service_command_base.t :=
  service_command_base.mk (command.create id_e.OFFER_SERVICE_ID) mk_service_default.
Definition stop_offer_service_command : service_command_base.t :=
  service_command_base.mk (command.create id_e.STOP_OFFER_SERVICE_ID) mk_service_default.

Definition request_service_command : multiple_services_command_base.t :=
  multiple_services_command_base.mk (command.create id_e.REQUEST_SERVICE_ID) [].
Definition offered_services_response_command : multiple_services_command_base.t :=
  multiple_services_command_base.mk (command.create id_e.OFFERED_SERVICES_RESPONSE_ID) [].

Definition unsubscribe_command : subscribe_command_base.t := subscribe_command_base.create id_e.UNSUBSCRIBE_ID.
Definition expire_command : subscribe_command_base.t := subscribe_command_base.create id_e.EXPIRE_ID.

Definition subscribe_ack_command : subscribe_ack_command_base.t :=
  subscribe_ack_command_base.mk (command.create id_e.SUBSCRIBE_ACK_ID) ANY_SERVICE ANY_INSTANCE 0 0 ANY_EVENT 0.
Definition subscribe_nack_command : subscribe_ack_command_base.t :=
  subscribe_ack_command_base.mk (command.create id_e.SUBSCRIBE_NACK_ID) ANY_SERVICE ANY_INSTANCE 0 0 ANY_EVENT 0.

(** ** Virtual calls

    An object of one of the command classes; [serialize] and [deserialize]
    dispatch on it. *)

Module any_command.
Section address.
Context {addr : Type} `{IpAddress addr}.

Inductive t : Type :=
  | simple (c : simple_command.t)
  | assign_client (c : assign_client_command.t)
  | assign_client_ack (c : assign_client_ack_command.t)
  | offered_services_request (c : offered_services_request_command.t)
  | register_application (c : register_application_command.t)
  | resend_provided_events (c : resend_provided_events_command.t)
  | security_policy_response (c : security_policy_response_command_base.t)
  | remove_security_policy (c : remove_security_policy_command.t)
  | offer (c : service_command_base.t)
  | services (c : multiple_services_command_base.t)
  | release_service (c : release_service_command.t)
  | subscribe (c : subscribe_command.t)
  | unsubscribe (c : subscribe_command_base.t)
  | subscribe_ack (c : subscribe_ack_command_base.t)
  | unsubscribe_ack (c : unsubscribe_ack_command.t)
  | unregister_event (c : unregister_event_command.t)
  | send (c : send_command.t)
  | register_events (c : register_events_command.t)
  | routing_info (c : routing_info_command.t addr)
  | update_security_credentials (c : update_security_credentials_command.t)
  | config (c : config_command.t).

Definition head (o : t) : command.t :=
  match o with
  | simple c => c
  | assign_client c => assign_client_command.head c
  | assign_client_ack c | offered_services_request c | register_application c | resend_provided_events c
  | security_policy_response c => one_field.head c
  | remove_security_policy c => remove_security_policy_command.head c
  | offer c => service_command_base.head c
  | services c => multiple_services_command_base.head c
  | release_service c => release_service_command.head c
  | subscribe c => subscribe_command_base.head (subscribe_command.base c)
  | unsubscribe c => subscribe_command_base.head c
  | subscribe_ack c => subscribe_ack_command_base.head c
  | unsubscribe_ack c => unsubscribe_ack_command.head c
  | unregister_event c => unregister_event_command.head c
  | send c => send_command.head c
  | register_events c => register_events_command.head c
  | routing_info c => routing_info_command.head c
  | update_security_credentials c => update_security_credentials_command.head c
  | config c => config_command.head c
  end.

Definition written {A} (f : A → t) (r : result (error_e * bytes * A)) : result (error_e * bytes * t) :=
  '(err, buf, c) ← r; Ok (err, buf, f c).
Definition read {A} (f : A → t) (r : result (error_e * A)) : result (error_e * t) :=
  '(err, c) ← r; Ok (err, f c).

Definition serialize (host : endianess_e) (o : t) (buf : bytes) : result (error_e * bytes * t) :=
  match o with
  | simple c => written simple (simple_command.serialize host c buf)
  | assign_client c => written assign_client (assign_client_command.serialize host c buf)
  | assign_client_ack c => written assign_client_ack (assign_client_ack_command.serialize host c buf)
  | offered_services_request c =>
      written offered_services_request (offered_services_request_command.serialize host c buf)
  | register_application c => written register_application (register_application_command.serialize host c buf)
  | resend_provided_events c =>
      written resend_provided_events (resend_provided_events_command.serialize host c buf)
  | security_policy_response c =>
      written security_policy_response (security_policy_response_command_base.serialize host c buf)
  | remove_security_policy c =>
      written remove_security_policy (remove_security_policy_command.serialize host c buf)
  | offer c => written offer (service_command_base.serialize host c buf)
  | services c => written services (multiple_services_command_base.serialize host c buf)
  | release_service c => written release_service (release_service_command.serialize host c buf)
  | subscribe c => written subscribe (subscribe_command.serialize host c buf)
  | unsubscribe c => written unsubscribe (subscribe_command_base.serialize host c buf)
  | subscribe_ack c => written subscribe_ack (subscribe_ack_command_base.serialize host c buf)
  | unsubscribe_ack c => written unsubscribe_ack (unsubscribe_ack_command.serialize host c buf)
  | unregister_event c => written unregister_event (unregister_event_command.serialize host c buf)
  | send c => written send (send_command.serialize host c buf)
  | register_events c => written register_events (register_events_command.serialize host c buf)
  | routing_info c => written routing_info (routing_info_command.serialize host c buf)
  | update_security_credentials c =>
      written update_security_credentials (update_security_credentials_command.serialize host c buf)
  | config c => written config (config_command.serialize host c buf)
  end.

Definition deserialize (host : endianess_e) (o : t) (buf : bytes) : result (error_e * t) :=
  match o with
  | simple c => read simple (simple_command.deserialize host c buf)
  | assign_client c => read assign_client (assign_client_command.deserialize host c buf)
  | assign_client_ack c => read assign_client_ack (assign_client_ack_command.deserialize host c buf)
  | offered_services_request c =>
      read offered_services_request (offered_services_request_command.deserialize host c buf)
  | register_application c => read register_application (register_application_command.deserialize host c buf)
  | resend_provided_events c =>
      read resend_provided_events (resend_provided_events_command.deserialize host c buf)
  | security_policy_response c =>
      read security_policy_response (security_policy_response_command_base.deserialize host c buf)
  | remove_security_policy c =>
      read remove_security_policy (remove_security_policy_command.deserialize host c buf)
  | offer c => read offer (service_command_base.deserialize host c buf)
  | services c => read services (multiple_services_command_base.deserialize host c buf)
  | release_service c => read release_service (release_service_command.deserialize host c buf)
  | subscribe c => read subscribe (subscribe_command.deserialize host c buf)
  | unsubscribe c => read unsubscribe (subscribe_command_base.deserialize host c buf)
  | subscribe_ack c => read subscribe_ack (subscribe_ack_command_base.deserialize host c buf)
  | unsubscribe_ack c => read unsubscribe_ack (unsubscribe_ack_command.deserialize host c buf)
  | unregister_event c => read unregister_event (unregister_event_command.deserialize host c buf)
  | send c => read send (send_command.deserialize host c buf)
  | register_events c => read register_events (register_events_command.deserialize host c buf)
  | routing_info c => read routing_info (routing_info_command.deserialize host c buf)
  | update_security_credentials c =>
      read update_security_credentials (update_security_credentials_command.deserialize host c buf)
  | config c => read config (config_command.deserialize host c buf)
  end.
End address.
Arguments t addr : clear implicits.
End any_command.
