(* ===== verification/ProtocolFacts.v ===== *)
(** * Properties of the protocol commands

    [at_cursor done rest] is a cursor between the bytes that were written (or
    read) and the rest; every put and get moves it.  With the lemmas about the
    two shared beginnings [start] and [open] the round trip of a class is a run
    of its puts and gets. *)

From stdpp Require Import base list gmap sorting.
From Stdlib Require Import ZArith Lia.
From S2P Require Import Prelude BitHelper Protocol.

(** ** Cursors *)

Definition at_cursor (done rest : bytes) : cursor := (done ++ rest, length done).

(** The bytes of a sequence of fields. *)
Definition enc (host : endianess_e) (fields : list (nat * Z)) : bytes :=
  mjoin ((λ f, bithelper.mem_of host f.1 f.2) <$> fields).

(** The bytes of the fields of every element of a list. *)
Fixpoint encs {A} (host : endianess_e) (f : A → list (nat * Z)) (l : list A) : bytes :=
  match l with [] => [] | x :: l => enc host (f x) ++ encs host f l end.

Section cursor_facts.
Context (host : endianess_e).
Implicit Types (d r bs : bytes) (n : nat) (fs : list (nat * Z)).

Lemma mem_of_length n v : length (bithelper.mem_of host n v) = n.
Proof. unfold bithelper.mem_of. destruct host; rewrite ?le_bytes_length, ?be_bytes_length; done. Qed.

Lemma mem_of_ok n v : bytes_ok (bithelper.mem_of host n v).
Proof. unfold bithelper.mem_of. destruct host; auto using le_bytes_ok, be_bytes_ok. Qed.

Lemma val_mem_small n v : in_width (8 * Z.of_nat n) v → bithelper.val_of host (bithelper.mem_of host n v) = v.
Proof. intros Hv. rewrite val_of_mem_of, pow256. by apply Z.mod_small. Qed.

Lemma put_bytes_at d r bs :
  (length bs ≤ length r)%nat →
  put_bytes bs (at_cursor d r) = Ok (at_cursor (d ++ bs) (drop (length bs) r)).
Proof.
  intros Hl. unfold put_bytes, at_cursor. cbn [fst snd]. rewrite wr_ok by len. cbn [mbind result_bind].
  rewrite take_app_length, drop_app_ge, length_app by lia.
  replace (length d + length bs - length d)%nat with (length bs) by lia. by rewrite app_assoc.
Qed.

Lemma put_at n v d r :
  (n ≤ length r)%nat →
  put host n v (at_cursor d r) = Ok (at_cursor (d ++ bithelper.mem_of host n v) (drop n r)).
Proof. intros. unfold put. rewrite put_bytes_at by by rewrite mem_of_length. by rewrite mem_of_length. Qed.

Lemma enc_cons n v fs : enc host ((n, v) :: fs) = bithelper.mem_of host n v ++ enc host fs.
Proof. done. Qed.

Lemma enc_length fs : length (enc host fs) = sum_list_with fst fs.
Proof.
  induction fs as [|[n v] fs IH]; [done|]. rewrite enc_cons, length_app, mem_of_length, IH. done.
Qed.

Lemma enc_ok fs : bytes_ok (enc host fs).
Proof. induction fs as [|[n v] fs IH]; [constructor|]. rewrite enc_cons. apply Forall_app_2; auto using mem_of_ok. Qed.

Lemma puts_at fs d r :
  (sum_list_with fst fs ≤ length r)%nat →
  puts host fs (at_cursor d r) = Ok (at_cursor (d ++ enc host fs) (drop (sum_list_with fst fs) r)).
Proof.
  unfold puts. revert d r. induction fs as [|[n v] fs IH]; intros d r Hl; cbn [sum_list_with fst] in *.
  { cbn. by rewrite app_nil_r, drop_0. }
  cbn [foldM fst snd]. rewrite put_at by lia. cbn [mbind result_bind].
  rewrite IH by (rewrite length_drop; lia). by rewrite enc_cons, app_assoc, drop_drop.
Qed.

(** A loop that puts the fields of every element of a list. *)
Lemma foldM_puts_at {A} (f : A → list (nat * Z)) l d r :
  (sum_list_with (λ x, sum_list_with fst (f x)) l ≤ length r)%nat →
  foldM (λ x, puts host (f x)) l (at_cursor d r)
  = Ok (at_cursor (d ++ encs host f l) (drop (sum_list_with (λ x, sum_list_with fst (f x)) l) r)).
Proof.
  revert d r. induction l as [|x l IH]; intros d r Hl; cbn [sum_list_with] in *.
  { cbn. by rewrite app_nil_r, drop_0. }
  cbn [foldM]. rewrite puts_at by lia. cbn [mbind result_bind].
  rewrite IH by (rewrite length_drop; lia). cbn [encs]. by rewrite app_assoc, drop_drop.
Qed.

Lemma get_bytes_at n bs d r :
  length bs = n → get_bytes n (at_cursor d (bs ++ r)) = Ok (bs, at_cursor (d ++ bs) r).
Proof.
  intros <-. unfold get_bytes, at_cursor. cbn [fst snd]. rewrite rd_ok by len. cbn [mbind result_bind].
  rewrite drop_app_length, take_app_length. by rewrite <- app_assoc, length_app.
Qed.

Lemma get_at n v d r :
  in_width (8 * Z.of_nat n) v →
  get host n (at_cursor d (bithelper.mem_of host n v ++ r)) = Ok (v, at_cursor (d ++ bithelper.mem_of host n v) r).
Proof.
  intros Hv. unfold get. rewrite get_bytes_at by apply mem_of_length. cbn [mbind result_bind].
  by rewrite val_mem_small.
Qed.

(** What a get reads from any buffer that is long enough. *)
Lemma get_any n buf off :
  (off + n ≤ length buf)%nat → ∃ v, get host n (buf, off) = Ok (v, (buf, (off + n)%nat)).
Proof.
  intros. unfold get, get_bytes. cbn [fst snd]. rewrite rd_ok by done. by eexists.
Qed.
End cursor_facts.

(** ** Headers *)

Definition header_wf (h : command.t) : Prop :=
  is_u8 (command.id_ h) ∧ is_u16 (command.version_ h) ∧ is_u16 (command.client_ h) ∧ is_u32 (command.size_ h).

Definition header_bytes (host : endianess_e) (h : command.t) : bytes :=
  [command.id_ h] ++ bithelper.mem_of host 2 (command.version_ h) ++ bithelper.mem_of host 2 (command.client_ h)
  ++ bithelper.mem_of host 4 (command.size_ h).

Section header_facts.
Context (host : endianess_e).

Lemma command_bytes_length h : length (header_bytes host h) = 9%nat.
Proof. unfold header_bytes. rewrite !length_app, !mem_of_length. done. Qed.

Lemma command_serialize_ok h buf :
  (9 ≤ length buf)%nat → command.serialize host h buf = Ok (header_bytes host h ++ drop 9 buf).
Proof.
  intros Hl. destruct buf as [|b0 buf]; [cbn [length] in *; lia|].
  unfold command.serialize, wr1. rewrite decide_True by (cbn [length]; lia). cbn [mbind result_bind insert list_insert].
  cbn [length] in Hl.
  assert (∀ n v d r, (n ≤ length r)%nat →
    wr (d ++ r) (length d) (bithelper.mem_of host n v) = Ok (d ++ bithelper.mem_of host n v ++ drop n r)) as W.
  { intros n v d r Hr. rewrite wr_ok by (rewrite mem_of_length, length_app; lia).
    rewrite mem_of_length, take_app_length, drop_app_ge by lia. do 3 f_equal. f_equal. lia. }
  change (command.id_ h :: buf) with ([command.id_ h] ++ buf).
  change COMMAND_POSITION_VERSION with (length [command.id_ h]). rewrite W by lia. cbn [mbind result_bind].
  rewrite app_assoc.
  assert (COMMAND_POSITION_CLIENT = length ([command.id_ h] ++ bithelper.mem_of host 2 (command.version_ h))) as ->
    by (rewrite length_app, mem_of_length; done).
  rewrite W by (rewrite length_drop; lia). cbn [mbind result_bind]. rewrite app_assoc.
  assert (COMMAND_POSITION_SIZE = length (([command.id_ h] ++ bithelper.mem_of host 2 (command.version_ h))
    ++ bithelper.mem_of host 2 (command.client_ h))) as -> by (rewrite !length_app, !mem_of_length; done).
  rewrite W by (rewrite !length_drop; lia). rewrite !drop_drop. unfold header_bytes.
  rewrite <- !app_assoc. done.
Qed.

Lemma command_deserialize_ok h h0 rest :
  header_wf h → command.id_ h0 = command.id_ h →
  command.deserialize host h0 (header_bytes host h ++ rest) = Ok (ERROR_OK, h).
Proof.
  intros (Hid & Hv & Hc & Hsz) E. unfold command.deserialize. cbn [header_bytes app rd1 lookup list_lookup].
  unfold rd1. cbn [lookup list_lookup mbind result_bind]. rewrite E.
  assert (command.read_rest host (command.id_ h) (header_bytes host h ++ rest) = Ok (ERROR_OK, h)) as R.
  { unfold command.read_rest, header_bytes, COMMAND_POSITION_VERSION, COMMAND_POSITION_CLIENT, COMMAND_POSITION_SIZE.
    assert (∀ a b c o n, length a = o → length b = n → rd (a ++ b ++ c) o n = Ok (b : bytes)) as RD.
    { intros a b c o n <- <-. rewrite rd_ok by len. by rewrite drop_app_length, take_app_length. }
    rewrite <- !app_assoc. rewrite (RD [command.id_ h] _ _ 1%nat 2%nat) by (done || apply mem_of_length). cbn [mbind result_bind].
    rewrite (app_assoc [command.id_ h]). rewrite (RD _ _ _ 3%nat 2%nat) by (rewrite ?length_app, ?mem_of_length; done).
    cbn [mbind result_bind]. rewrite app_assoc. rewrite (RD _ _ _ 5%nat 4%nat) by (rewrite ?length_app, ?mem_of_length; done).
    cbn [mbind result_bind]. rewrite !val_mem_small by done. by destruct h. }
  destruct (_ =? id_e.UNKNOWN_ID); [exact R|]. rewrite Z.eqb_refl. exact R.
Qed.

(** The shared beginning of [serialize]. *)
Lemma start_ok n h buf payload pl :
  length pl = n → Z.of_nat (9 + n) ≤ MAX_COMMAND_SIZE →
  (∀ d r, length r = n → payload (at_cursor d r) = Ok (at_cursor (d ++ pl) [])) →
  let h' := command.set_size (Z.of_nat n) h in
  command.start host (9 + n) h buf payload = Ok (ERROR_OK, header_bytes host h' ++ pl, h').
Proof.
  intros Hpl Hmax Hp h'. unfold command.start. unfold MAX_COMMAND_SIZE in *.
  rewrite (proj2 (Z.ltb_ge _ _)) by lia. unfold COMMAND_HEADER_SIZE. rewrite (Nat.add_comm 9), Nat.add_sub.
  rewrite wrap_small by (wrap_bounds; lia). fold h'.
  assert (length (resize (n + 9) buf) = (n + 9)%nat) as HR by (unfold resize; len).
  rewrite command_serialize_ok by lia. cbn [mbind result_bind].
  assert ((header_bytes host h' ++ drop 9 (resize (n + 9) buf), COMMAND_POSITION_PAYLOAD)
    = at_cursor (header_bytes host h') (drop 9 (resize (n + 9) buf))) as ->
    by (unfold at_cursor; by rewrite command_bytes_length).
  rewrite Hp by (rewrite length_drop; lia). cbn [mbind result_bind at_cursor]. by rewrite app_nil_r.
Qed.

(** The shared beginning of [deserialize]. *)
Lemma open_ok {A} its_size h h0 pl (obj : command.t → A) payload :
  header_wf h → command.id_ h0 = command.id_ h → (its_size ≤ 9 + length pl)%nat →
  command.open host its_size h0 (header_bytes host h ++ pl) obj payload = payload h (at_cursor (header_bytes host h) pl).
Proof.
  intros Hw Hid Hl. unfold command.open.
  rewrite decide_False by (rewrite length_app, command_bytes_length; lia).
  rewrite command_deserialize_ok by done. cbn [mbind result_bind].
  unfold at_cursor. by rewrite command_bytes_length.
Qed.

Lemma open_short {A} its_size h0 buf (obj : command.t → A) payload :
  (length buf < its_size)%nat → command.open host its_size h0 buf obj payload = Ok (ERROR_NOT_ENOUGH_BYTES, obj h0).
Proof. intros. unfold command.open. by rewrite decide_True. Qed.

Lemma open_mismatch {A} its_size h0 buf (obj : command.t → A) payload b :
  (its_size ≤ length buf)%nat → buf !! 0%nat = Some b → b ≠ command.id_ h0 → command.id_ h0 ≠ id_e.UNKNOWN_ID →
  command.open host its_size h0 buf obj payload = Ok (ERROR_MISMATCH, obj h0).
Proof.
  intros Hl Hb Hne Hk. unfold command.open. rewrite decide_False by lia.
  unfold command.deserialize, rd1. rewrite Hb. cbn [mbind result_bind].
  by rewrite !(proj2 (Z.eqb_neq _ _)) by done.
Qed.
End header_facts.

(** ** Ordered containers *)

Section ordered.
Context {A : Type} (lt : A → A → bool).

Definition ordered : list A → Prop := StronglySorted (λ a b, lt a b = true ∧ lt b a = false).

Lemma oinsert_last x l : ordered (l ++ [x]) → oinsert lt x l = l ++ [x].
Proof.
  induction l as [|y l IH]; cbn; [done|]. intros Ho. apply StronglySorted_inv in Ho as [Ho Hy].
  apply Forall_app in Hy as [_ Hy]. apply Forall_inv in Hy as [H1 H2].
  rewrite H2, H1, IH; done.
Qed.

Lemma ordered_app_l l1 l2 : ordered (l1 ++ l2) → ordered l1.
Proof.
  induction l1 as [|x l1 IH]; cbn; [constructor|]. intros Ho. apply StronglySorted_inv in Ho as [Ho Hx].
  constructor; [by apply IH|]. by apply Forall_app in Hx as [? _].
Qed.
End ordered.

(** Performs the gets of a goal whose buffer is laid out in fields. *)
Ltac run_gets :=
  repeat (rewrite get_at by (assumption || done); cbn [mbind result_bind]).

(** Lays out the fields behind the cursor. *)
Ltac lay_out := rewrite ?enc_cons, <- ?app_assoc; cbn [enc mjoin list_join fmap list_fmap app].

(** ** Services *)

Definition service_wf (s : service) : Prop :=
  is_u16 (service_ s) ∧ is_u16 (instance_ s) ∧ is_u8 (major_ s) ∧ is_u32 (minor_ s).

#[export] Instance service_wf_dec s : Decision (service_wf s).
Proof. unfold service_wf. apply _. Defined.

Lemma get_service_at host s d r :
  service_wf s →
  get_service host (at_cursor d (enc host (service_fields s) ++ r))
  = Ok (s, at_cursor (d ++ enc host (service_fields s)) r).
Proof.
  intros (? & ? & ? & ?). unfold get_service, service_fields. lay_out. run_gets.
  rewrite app_nil_r || idtac. destruct s. by rewrite <- !app_assoc.
Qed.

Lemma services_enc_length host (l : list service) :
  length (encs host service_fields l) = (length l * 9)%nat.
Proof.
  induction l as [|s l IH]; [done|]. cbn [encs length].
  rewrite length_app, IH, enc_length. cbn. lia.
Qed.

Lemma services_sum (l : list service) :
  sum_list_with (λ s, sum_list_with fst (service_fields s)) l = (length l * 9)%nat.
Proof. induction l as [|s l IH]; cbn [sum_list_with length]; [done|]. rewrite IH. cbn. lia. Qed.

Lemma read_services_set host l acc d :
  Forall service_wf l → ordered service_lt (acc ++ l) →
  multiple_services_command_base.read_services host (length l) acc
    (at_cursor d (encs host service_fields l)) = Ok (acc ++ l).
Proof.
  intros Hw. revert acc d. induction Hw as [|s l Hs _ IH]; intros acc d Ho; [by rewrite app_nil_r|].
  cbn [length multiple_services_command_base.read_services encs].
  rewrite get_service_at by done. cbn [mbind result_bind].
  replace (acc ++ s :: l) with ((acc ++ [s]) ++ l) in * by by rewrite <- app_assoc.
  rewrite oinsert_last by by apply (ordered_app_l _ _ l). by apply IH.
Qed.

Lemma read_services_list host l acc d r :
  Forall service_wf l →
  routing_info_entry.read_services host (length l) acc
    (at_cursor d (encs host service_fields l ++ r))
  = Ok (acc ++ l, at_cursor (d ++ encs host service_fields l) r).
Proof.
  intros Hw. revert acc d. induction Hw as [|s l Hs _ IH]; intros acc d.
  { cbn. by rewrite !app_nil_r. }
  cbn [length routing_info_entry.read_services encs].
  rewrite <- app_assoc, get_service_at by done. cbn [mbind result_bind].
  rewrite IH. by rewrite <- !app_assoc.
Qed.

(** ** Round trips, class by class

    Each lemma gives the bytes [serialize] leaves whatever the buffer held, and
    that [deserialize] on an object of the same identifier reads them back. *)

Section round_trips.
Context (host : endianess_e).

Definition fits (n : nat) : Prop := Z.of_nat (9 + n) ≤ MAX_COMMAND_SIZE.

(** The header with the size that [serialize] stores. *)
Definition sized (n : nat) (h : command.t) : command.t := command.set_size (Z.of_nat n) h.

Definition id_version_client_wf (h : command.t) : Prop :=
  is_u8 (command.id_ h) ∧ is_u16 (command.version_ h) ∧ is_u16 (command.client_ h).

Lemma sized_wf n h : id_version_client_wf h → fits n → header_wf (sized n h).
Proof. intros (? & ? & ?) Hf. split_and!; try done. unfold fits, MAX_COMMAND_SIZE in Hf. cbn. wrap_bounds. lia. Qed.

Lemma simple_roundtrip (c c0 : simple_command.t) buf :
  id_version_client_wf c → command.id_ c0 = command.id_ c →
  let c' := sized 0 c in
  simple_command.serialize host c buf = Ok (ERROR_OK, header_bytes host c', c')
  ∧ simple_command.deserialize host c0 (header_bytes host c') = Ok (ERROR_OK, c').
Proof.
  intros Hw Hid c'. split.
  - unfold simple_command.serialize.
    pose proof (start_ok host 0 c buf (λ cur, Ok cur) []) as E. cbn zeta in E. rewrite app_nil_r in E.
    apply E; [done|done|]. intros d r Hr. by rewrite app_nil_r, (nil_length_inv _ Hr).
  - unfold simple_command.deserialize. rewrite <- (app_nil_r (header_bytes host c')).
    rewrite open_ok; [done|by apply sized_wf|done|unfold COMMAND_HEADER_SIZE; lia].
Qed.

Lemma one_field_roundtrip n (c c0 : one_field.t) buf :
  id_version_client_wf (one_field.head c) → command.id_ (one_field.head c0) = command.id_ (one_field.head c) →
  fits n → in_width (8 * Z.of_nat n) (one_field.field c) →
  let h := sized n (one_field.head c) in
  let bs := header_bytes host h ++ bithelper.mem_of host n (one_field.field c) in
  one_field.serialize host n c buf = Ok (ERROR_OK, bs, one_field.mk h (one_field.field c))
  ∧ one_field.deserialize host n c0 bs = Ok (ERROR_OK, one_field.mk h (one_field.field c)).
Proof.
  intros Hw Hid Hf Hv h bs. split.
  - unfold one_field.serialize, COMMAND_HEADER_SIZE.
    rewrite (start_ok host n _ _ _ (bithelper.mem_of host n (one_field.field c))); [done|apply mem_of_length|done|].
    intros d r Hr. rewrite put_at by lia. by rewrite drop_ge by lia.
  - unfold one_field.deserialize. subst bs.
    rewrite open_ok; [|by apply sized_wf|done|rewrite mem_of_length; done].
    rewrite <- (app_nil_r (bithelper.mem_of _ _ _)). run_gets. done.
Qed.

(** The puts of a class that only has integer fields. *)
Lemma fields_start n fs h buf :
  sum_list_with fst fs = n → fits n →
  command.start host (9 + n) h buf (puts host fs)
  = Ok (ERROR_OK, header_bytes host (sized n h) ++ enc host fs, sized n h).
Proof.
  intros Hn Hf. apply start_ok; [by rewrite enc_length|done|].
  intros d r Hr. rewrite puts_at by lia. by rewrite drop_ge by lia.
Qed.

(** Opens a command and lays its fields out. *)
Ltac open_fields :=
  rewrite open_ok by first [done|by apply sized_wf|rewrite enc_length; cbn; lia].

Lemma remove_policy_roundtrip (c c0 : remove_security_policy_command.t) buf :
  let head := remove_security_policy_command.head in
  id_version_client_wf (head c) → command.id_ (head c0) = command.id_ (head c) →
  is_u32 (remove_security_policy_command.update_id_ c) → is_u32 (remove_security_policy_command.uid_ c) →
  is_u32 (remove_security_policy_command.gid_ c) →
  let c' := remove_security_policy_command.mk (sized 12 (head c)) (remove_security_policy_command.update_id_ c)
              (remove_security_policy_command.uid_ c) (remove_security_policy_command.gid_ c) in
  ∃ bs, remove_security_policy_command.serialize host c buf = Ok (ERROR_OK, bs, c')
    ∧ remove_security_policy_command.deserialize host c0 bs = Ok (ERROR_OK, c').
Proof.
  intros head Hw Hid H1 H2 H3 c'. eexists. split.
  - unfold remove_security_policy_command.serialize, COMMAND_HEADER_SIZE.
    rewrite (fields_start 12) by done. reflexivity.
  - unfold remove_security_policy_command.deserialize, COMMAND_HEADER_SIZE. open_fields.
    lay_out. run_gets. done.
Qed.

Lemma service_roundtrip (c c0 : service_command_base.t) buf :
  let head := service_command_base.head in
  id_version_client_wf (head c) → command.id_ (head c0) = command.id_ (head c) →
  service_wf (service_command_base.service_ c) →
  let c' := service_command_base.mk (sized 9 (head c)) (service_command_base.service_ c) in
  ∃ bs, service_command_base.serialize host c buf = Ok (ERROR_OK, bs, c')
    ∧ service_command_base.deserialize host c0 bs = Ok (ERROR_OK, c').
Proof.
  intros head Hw Hid Hs c'. eexists. split.
  - unfold service_command_base.serialize, COMMAND_HEADER_SIZE, SERVICE_SIZE.
    rewrite (fields_start 9) by done. reflexivity.
  - unfold service_command_base.deserialize, COMMAND_HEADER_SIZE, SERVICE_SIZE.
    rewrite decide_False by (rewrite length_app, command_bytes_length, enc_length; cbn; lia).
    rewrite command_deserialize_ok by first [done|by apply sized_wf]. cbn [mbind result_bind].
    match goal with |- context [get_service host ?cur] =>
      assert (cur = at_cursor (header_bytes host (sized 9 (head c)))
        (enc host (service_fields (service_command_base.service_ c)) ++ [])) as ->
      by (unfold at_cursor; by rewrite command_bytes_length, app_nil_r) end.
    rewrite get_service_at by done. done.
Qed.

Lemma services_roundtrip (c c0 : multiple_services_command_base.t) buf :
  let head := multiple_services_command_base.head in
  let l := multiple_services_command_base.services_ c in
  id_version_client_wf (head c) → command.id_ (head c0) = command.id_ (head c) →
  multiple_services_command_base.services_ c0 = [] →
  Forall service_wf l → ordered service_lt l → fits (length l * 9) →
  let c' := multiple_services_command_base.mk (sized (length l * 9) (head c)) l in
  ∃ bs, multiple_services_command_base.serialize host c buf = Ok (ERROR_OK, bs, c')
    ∧ multiple_services_command_base.deserialize host c0 bs = Ok (ERROR_OK, c').
Proof.
  intros head l Hw Hid H0 Hs Ho Hf c'. eexists. split.
  - unfold multiple_services_command_base.serialize, COMMAND_HEADER_SIZE. change SERVICE_SIZE with 9%nat.
    rewrite (start_ok host (length l * 9) _ _ _ (encs host service_fields l));
      [reflexivity|apply services_enc_length|done|].
    intros d r Hr. rewrite foldM_puts_at by (rewrite services_sum; fold l; lia).
    by rewrite drop_ge by (rewrite services_sum; fold l; lia).
  - unfold multiple_services_command_base.deserialize.
    rewrite open_ok by first [done|by apply sized_wf|unfold COMMAND_HEADER_SIZE; lia].
    rewrite length_app, command_bytes_length, services_enc_length, H0.
    change SERVICE_SIZE with 9%nat. unfold COMMAND_POSITION_PAYLOAD.
    replace ((9 + length l * 9 - 9) / 9)%nat with (length l)
      by (rewrite Nat.add_comm, Nat.add_sub, Nat.div_mul; lia).
    by rewrite read_services_set.
Qed.

Lemma release_roundtrip (c c0 : release_service_command.t) buf :
  let head := release_service_command.head in
  id_version_client_wf (head c) → command.id_ (head c0) = command.id_ (head c) →
  service_wf (release_service_command.service_ c) →
  let s := release_service_command.service_ c in
  let s0 := release_service_command.service_ c0 in
  ∃ bs, release_service_command.serialize host c buf
          = Ok (ERROR_OK, bs, release_service_command.mk (sized 4 (head c)) s)
    ∧ release_service_command.deserialize host c0 bs
      = Ok (ERROR_OK, release_service_command.mk (sized 4 (head c))
              (mk_service (service_ s) (instance_ s) (major_ s0) (minor_ s0))).
Proof.
  intros head Hw Hid (? & ? & ? & ?) s s0. eexists. split.
  - unfold release_service_command.serialize, COMMAND_HEADER_SIZE. rewrite (fields_start 4) by done. reflexivity.
  - unfold release_service_command.deserialize, COMMAND_HEADER_SIZE. open_fields. lay_out. run_gets. done.
Qed.

Definition subscription_wf (c : subscribe_command_base.t) : Prop :=
  id_version_client_wf (subscribe_command_base.head c) ∧ is_u16 (subscribe_command_base.service_ c)
  ∧ is_u16 (subscribe_command_base.instance_ c) ∧ is_u16 (subscribe_command_base.eventgroup_ c)
  ∧ is_u8 (subscribe_command_base.major_ c) ∧ is_u16 (subscribe_command_base.event_ c)
  ∧ is_u16 (subscribe_command_base.pending_id_ c).

Lemma read_subscription_at c h d r :
  subscription_wf c →
  subscribe_command_base.read_payload host h (at_cursor d (enc host (subscribe_command_base.fields c) ++ r))
  = Ok (subscribe_command_base.with_head c h).
Proof.
  intros (? & ? & ? & ? & ? & ? & ?).
  unfold subscribe_command_base.read_payload, subscribe_command_base.fields. lay_out. run_gets. done.
Qed.

Lemma subscription_roundtrip (c c0 : subscribe_command_base.t) buf :
  let head := subscribe_command_base.head in
  subscription_wf c → command.id_ (head c0) = command.id_ (head c) →
  let c' := subscribe_command_base.with_head c (sized 11 (head c)) in
  ∃ bs, subscribe_command_base.serialize host c buf = Ok (ERROR_OK, bs, c')
    ∧ subscribe_command_base.deserialize host c0 bs = Ok (ERROR_OK, c').
Proof.
  intros head Hw Hid c'. pose proof Hw as (Hh & _). eexists. split.
  - unfold subscribe_command_base.serialize, COMMAND_HEADER_SIZE, subscribe_command_base.PAYLOAD_SIZE.
    rewrite (fields_start 11) by done. reflexivity.
  - unfold subscribe_command_base.deserialize, COMMAND_HEADER_SIZE, subscribe_command_base.PAYLOAD_SIZE.
    open_fields. rewrite <- (app_nil_r (enc _ _)). rewrite read_subscription_at by done. done.
Qed.

Definition subscribe_ack_wf (c : subscribe_ack_command_base.t) : Prop :=
  id_version_client_wf (subscribe_ack_command_base.head c) ∧ is_u16 (subscribe_ack_command_base.service_ c)
  ∧ is_u16 (subscribe_ack_command_base.instance_ c) ∧ is_u16 (subscribe_ack_command_base.eventgroup_ c)
  ∧ is_u16 (subscribe_ack_command_base.subscriber_ c) ∧ is_u16 (subscribe_ack_command_base.event_ c)
  ∧ is_u16 (subscribe_ack_command_base.pending_id_ c).

Lemma subscribe_ack_roundtrip (c c0 : subscribe_ack_command_base.t) buf :
  let head := subscribe_ack_command_base.head in
  subscribe_ack_wf c → command.id_ (head c0) = command.id_ (head c) →
  let c' := subscribe_ack_command_base.with_head c (sized 12 (head c)) in
  ∃ bs, subscribe_ack_command_base.serialize host c buf = Ok (ERROR_OK, bs, c')
    ∧ subscribe_ack_command_base.deserialize host c0 bs = Ok (ERROR_OK, c').
Proof.
  intros head (Hh & ? & ? & ? & ? & ? & ?) Hid c'. eexists. split.
  - unfold subscribe_ack_command_base.serialize, COMMAND_HEADER_SIZE. rewrite (fields_start 12) by done. reflexivity.
  - unfold subscribe_ack_command_base.deserialize, COMMAND_HEADER_SIZE. open_fields. lay_out. run_gets. done.
Qed.

Definition unsubscribe_ack_wf (c : unsubscribe_ack_command.t) : Prop :=
  id_version_client_wf (unsubscribe_ack_command.head c) ∧ is_u16 (unsubscribe_ack_command.service_ c)
  ∧ is_u16 (unsubscribe_ack_command.instance_ c) ∧ is_u16 (unsubscribe_ack_command.eventgroup_ c)
  ∧ is_u16 (unsubscribe_ack_command.pending_id_ c).

Lemma unsubscribe_ack_roundtrip (c c0 : unsubscribe_ack_command.t) buf :
  let head := unsubscribe_ack_command.head in
  unsubscribe_ack_wf c → command.id_ (head c0) = command.id_ (head c) →
  let c' := unsubscribe_ack_command.with_head c (sized 8 (head c)) in
  ∃ bs, unsubscribe_ack_command.serialize host c buf = Ok (ERROR_OK, bs, c')
    ∧ unsubscribe_ack_command.deserialize host c0 bs = Ok (ERROR_OK, c').
Proof.
  intros head (Hh & ? & ? & ? & ?) Hid c'. eexists. split.
  - unfold unsubscribe_ack_command.serialize, COMMAND_HEADER_SIZE. rewrite (fields_start 8) by done. reflexivity.
  - unfold unsubscribe_ack_command.deserialize, COMMAND_HEADER_SIZE. open_fields. lay_out. run_gets. done.
Qed.

Lemma bool_round b : bool_of_Z (Z_of_bool b) = b.
Proof. by destruct b. Qed.

Lemma bool_u8 b : is_u8 (Z_of_bool b).
Proof. by destruct b. Qed.

Definition unregister_event_wf (c : unregister_event_command.t) : Prop :=
  id_version_client_wf (unregister_event_command.head c) ∧ is_u16 (unregister_event_command.service_ c)
  ∧ is_u16 (unregister_event_command.instance_ c) ∧ is_u16 (unregister_event_command.event_ c).

Lemma unregister_event_roundtrip (c c0 : unregister_event_command.t) buf :
  let head := unregister_event_command.head in
  unregister_event_wf c → command.id_ (head c0) = command.id_ (head c) →
  let c' := unregister_event_command.with_head c (sized 7 (head c)) in
  ∃ bs, unregister_event_command.serialize host c buf = Ok (ERROR_OK, bs, c')
    ∧ unregister_event_command.deserialize host c0 bs = Ok (ERROR_OK, c').
Proof.
  intros head (Hh & ? & ? & ?) Hid c'. pose proof (bool_u8 (unregister_event_command.is_provided_ c)).
  eexists. split.
  - unfold unregister_event_command.serialize, COMMAND_HEADER_SIZE. rewrite (fields_start 7) by done. reflexivity.
  - unfold unregister_event_command.deserialize, COMMAND_HEADER_SIZE. open_fields. lay_out. run_gets.
    by rewrite bool_round.
Qed.

Definition send_wf (c : send_command.t) : Prop :=
  id_version_client_wf (send_command.head c) ∧ is_u16 (send_command.instance_ c)
  ∧ is_u8 (send_command.status_ c) ∧ is_u16 (send_command.target_ c)
  ∧ fits (6 + length (send_command.message_ c)).

Lemma send_roundtrip (c c0 : send_command.t) buf :
  let head := send_command.head in
  send_wf c → command.id_ (head c0) = command.id_ (head c) →
  let c' := send_command.with_head c (sized (6 + length (send_command.message_ c)) (head c)) in
  ∃ bs, send_command.serialize host c buf = Ok (ERROR_OK, bs, c')
    ∧ send_command.deserialize host c0 bs = Ok (ERROR_OK, c').
Proof.
  intros head (Hh & ? & ? & ? & Hf) Hid c'. pose proof (bool_u8 (send_command.is_reliable_ c)).
  set (fs := [(2%nat, send_command.instance_ c); (1%nat, Z_of_bool (send_command.is_reliable_ c));
              (1%nat, send_command.status_ c); (2%nat, send_command.target_ c)]).
  exists (header_bytes host (sized (6 + length (send_command.message_ c)) (head c))
    ++ (enc host fs ++ send_command.message_ c)).
  assert (length (enc host fs) = 6%nat) as Hfs by (rewrite enc_length; done).
  split.
  - unfold send_command.serialize, COMMAND_HEADER_SIZE. fold fs.
    change (9 + 2 + 1 + 1 + 2 + length (send_command.message_ c))%nat with (9 + (6 + length (send_command.message_ c)))%nat.
    rewrite (start_ok host _ _ _ _ (enc host fs ++ send_command.message_ c)); [reflexivity|len|done|].
    intros d r Hr. rewrite puts_at by (change (sum_list_with fst fs) with 6%nat; lia). cbn [mbind result_bind].
    change (sum_list_with fst fs) with 6%nat. rewrite put_bytes_at by len.
    rewrite drop_drop, drop_ge, app_assoc by lia. done.
  - unfold send_command.deserialize, COMMAND_HEADER_SIZE.
    rewrite open_ok by first [done|by apply sized_wf|len]. unfold fs. lay_out. run_gets.
    assert (∀ d, get_bytes (length (d ++ send_command.message_ c) - length d)
      (at_cursor d (send_command.message_ c)) = Ok (send_command.message_ c, at_cursor (d ++ send_command.message_ c) [])) as G.
    { intros d. rewrite <- (app_nil_r (send_command.message_ c)) at 2. apply get_bytes_at. len. }
    match goal with |- context [get_bytes ?k (at_cursor ?d _)] =>
      assert (k = length (d ++ send_command.message_ c) - length d)%nat as -> end.
    { cbn [snd at_cursor]. rewrite !length_app, !mem_of_length, ?command_bytes_length. cbn [length]. lia. }
    rewrite G. cbn [mbind result_bind]. by rewrite bool_round.
Qed.
End round_trips.

(** ** Lists of elements behind the header *)

Section lists.
Context (host : endianess_e).

Definition credential_fields (p : Z * Z) : list (nat * Z) := [(4%nat, p.1); (4%nat, p.2)].

Lemma encs_length {A} (f : A → list (nat * Z)) k (l : list A) :
  (∀ x, sum_list_with fst (f x) = k) → length (encs host f l) = (length l * k)%nat.
Proof.
  intros Hk. induction l as [|x l IH]; [done|]. cbn [encs length]. rewrite length_app, IH, enc_length, Hk. lia.
Qed.

Lemma sum_const {A} (f : A → nat) k (l : list A) :
  (∀ x, f x = k) → sum_list_with f l = (length l * k)%nat.
Proof. intros Hk. induction l as [|x l IH]; cbn [sum_list_with length]; [done|]. rewrite IH, Hk. lia. Qed.

(** The puts of a list whose elements all take [k] bytes, up to the end. *)
Lemma puts_list {A} (f : A → list (nat * Z)) k (l : list A) d r :
  (∀ x, sum_list_with fst (f x) = k) → length r = (length l * k)%nat →
  foldM (λ x, puts host (f x)) l (at_cursor d r) = Ok (at_cursor (d ++ encs host f l) []).
Proof.
  intros Hk Hr. rewrite foldM_puts_at by (rewrite (sum_const _ k); [lia|done]).
  by rewrite drop_ge by (rewrite (sum_const _ k); [lia|done]).
Qed.

Lemma read_credentials_at l acc d :
  Forall (λ p, is_u32 p.1 ∧ is_u32 p.2) l → ordered pair_lt (acc ++ l) →
  update_security_credentials_command.read_credentials host (length l) acc
    (at_cursor d (encs host credential_fields l)) = Ok (acc ++ l).
Proof.
  intros Hw. revert acc d. induction Hw as [|[u g] l [? ?] _ IH]; intros acc d Ho; [by rewrite app_nil_r|].
  cbn [length update_security_credentials_command.read_credentials encs fst snd] in *.
  change (credential_fields (u, g)) with [(4%nat, u); (4%nat, g)]. lay_out. run_gets.
  replace (acc ++ (u, g) :: l) with ((acc ++ [(u, g)]) ++ l) in * by by rewrite <- app_assoc.
  rewrite oinsert_last by by apply (ordered_app_l _ _ l). by apply IH.
Qed.

Definition credentials_wf (c : update_security_credentials_command.t) : Prop :=
  let l := update_security_credentials_command.credentials_ c in
  id_version_client_wf (update_security_credentials_command.head c)
  ∧ Forall (λ p, is_u32 p.1 ∧ is_u32 p.2) l ∧ ordered pair_lt l ∧ fits (length l * 8).

Lemma credentials_roundtrip (c c0 : update_security_credentials_command.t) buf :
  let head := update_security_credentials_command.head in
  credentials_wf c → command.id_ (head c0) = command.id_ (head c) →
  update_security_credentials_command.credentials_ c0 = [] →
  let l := update_security_credentials_command.credentials_ c in
  let c' := update_security_credentials_command.mk (sized (length l * 8) (head c)) l in
  ∃ bs, update_security_credentials_command.serialize host c buf = Ok (ERROR_OK, bs, c')
    ∧ update_security_credentials_command.deserialize host c0 bs = Ok (ERROR_OK, c').
Proof.
  intros head (Hh & Hw & Ho & Hf) Hid H0 l c'. fold l in Hw, Ho, Hf. eexists. split.
  - unfold update_security_credentials_command.serialize, COMMAND_HEADER_SIZE. fold l.
    change (4 + 4)%nat with 8%nat.
    rewrite (start_ok host (length l * 8) _ _ _ (encs host credential_fields l));
      [reflexivity|by apply encs_length|done|].
    intros d r Hr. by apply (puts_list credential_fields 8).
  - unfold update_security_credentials_command.deserialize.
    rewrite open_ok by first [done|by apply sized_wf|unfold COMMAND_HEADER_SIZE; lia].
    rewrite (proj2 (Z.ltb_ge _ _)).
    2:{ rewrite length_app, command_bytes_length, (encs_length _ 8) by done. cbn. lia. }
    cbn [sized command.set_size command.size_].
    replace (Z.to_nat (Z.of_nat (length l * 8) / 8)) with (length l) by (rewrite Nat2Z.inj_mul, Z.div_mul; lia).
    by rewrite H0, read_credentials_at.
Qed.

(** ** Event registrations *)

Definition register_fields (e : register_event.t) : list (nat * Z) :=
  [(2%nat, register_event.service_ e); (2%nat, register_event.instance_ e); (2%nat, register_event.event_ e);
   (1%nat, register_event.event_type_ e); (1%nat, Z_of_bool (register_event.is_provided_ e));
   (1%nat, register_event.reliability_ e); (1%nat, Z_of_bool (register_event.is_cyclic_ e));
   (2%nat, register_event.num_eventg_ e)].

Definition register_wf (e : register_event.t) : Prop :=
  is_u16 (register_event.service_ e) ∧ is_u16 (register_event.instance_ e) ∧ is_u16 (register_event.event_ e)
  ∧ is_u8 (register_event.event_type_ e) ∧ is_u8 (register_event.reliability_ e)
  ∧ register_event.num_eventg_ e = Z.of_nat (length (register_event.eventgroups_ e))
  ∧ is_u16 (register_event.num_eventg_ e)
  ∧ Forall is_u16 (register_event.eventgroups_ e) ∧ ordered Z.ltb (register_event.eventgroups_ e).

Definition group_fields (g : Z) : list (nat * Z) := [(2%nat, g)].

Definition register_bytes (e : register_event.t) : bytes :=
  enc host (register_fields e) ++ encs host group_fields (register_event.eventgroups_ e).

Definition register_size (e : register_event.t) : nat := (12 + 2 * length (register_event.eventgroups_ e))%nat.

Lemma register_bytes_length e : length (register_bytes e) = register_size e.
Proof.
  unfold register_bytes, register_size. rewrite length_app, enc_length, (encs_length _ 2) by done. cbn. lia.
Qed.

Lemma put_groups_at l d r :
  (2 * length l ≤ length r)%nat →
  foldM (λ g, put host 2 g) l (at_cursor d r) = Ok (at_cursor (d ++ encs host group_fields l) (drop (2 * length l) r)).
Proof.
  revert d r. induction l as [|g l IH]; intros d r Hl; cbn [length] in *.
  { cbn. by rewrite app_nil_r, drop_0. }
  cbn [foldM]. rewrite put_at by lia. cbn [mbind result_bind]. rewrite IH by (rewrite length_drop; lia).
  rewrite drop_drop. replace (2 * S (length l))%nat with (2 + 2 * length l)%nat by lia.
  cbn [encs]. change (group_fields g) with [(2%nat, g)]. rewrite enc_cons. cbn [enc mjoin list_join fmap list_fmap]. by rewrite app_nil_r, app_assoc.
Qed.

Lemma read_groups_at l acc d r :
  Forall is_u16 l → ordered Z.ltb (acc ++ l) →
  register_event.read_groups host (length l) acc (at_cursor d (encs host group_fields l ++ r))
  = Ok (acc ++ l, at_cursor (d ++ encs host group_fields l) r).
Proof.
  intros Hw. revert acc d. induction Hw as [|g l ? _ IH]; intros acc d Ho; [by rewrite !app_nil_r|].
  cbn [length register_event.read_groups encs]. change (group_fields g) with [(2%nat, g)]. lay_out. run_gets.
  replace (acc ++ g :: l) with ((acc ++ [g]) ++ l) in * by by rewrite <- app_assoc.
  rewrite oinsert_last by by apply (ordered_app_l _ _ l).
  rewrite IH by done. by rewrite <- !app_assoc.
Qed.

Lemma register_put e d r :
  register_wf e → (register_size e ≤ length r)%nat →
  register_event.serialize host e (at_cursor d r)
  = Ok (ERROR_OK, at_cursor (d ++ register_bytes e) (drop (register_size e) r)).
Proof.
  intros (? & ? & ? & ? & ? & Hn & ? & ? & ?) Hl. unfold register_size in *.
  unfold register_event.serialize. cbn [at_cursor fst snd].
  rewrite decide_False by (unfold register_event.STATIC_SIZE; rewrite length_app; lia).
  change (puts host _) with (puts host (register_fields e)).
  change (d ++ r, length d) with (at_cursor d r).
  rewrite puts_at by (cbn; lia). cbn [mbind result_bind at_cursor fst snd].
  change (sum_list_with fst (register_fields e)) with 12%nat.
  rewrite decide_False.
  2:{ rewrite Hn, Nat2Z.id, !length_app, length_drop. lia. }
  change ((d ++ enc host (register_fields e)) ++ drop 12 r, length (d ++ enc host (register_fields e)))
    with (at_cursor (d ++ enc host (register_fields e)) (drop 12 r)).
  rewrite put_groups_at by (rewrite length_drop; lia). cbn [mbind result_bind].
  unfold register_bytes. by rewrite drop_drop, <- app_assoc.
Qed.

Lemma register_get e d r :
  register_wf e →
  register_event.deserialize host (at_cursor d (register_bytes e ++ r))
  = Ok (ERROR_OK, e, at_cursor (d ++ register_bytes e) r).
Proof.
  intros (? & ? & ? & ? & ? & Hn & ? & ? & ?). unfold register_event.deserialize. cbn [at_cursor fst snd].
  rewrite decide_False.
  2:{ unfold register_event.STATIC_SIZE. rewrite !length_app, register_bytes_length. unfold register_size. lia. }
  change (d ++ register_bytes e ++ r, length d) with (at_cursor d (register_bytes e ++ r)).
  pose proof (bool_u8 (register_event.is_provided_ e)). pose proof (bool_u8 (register_event.is_cyclic_ e)).
  unfold register_bytes, register_fields. lay_out. run_gets.
  rewrite decide_False.
  2:{ cbn [at_cursor fst snd]. rewrite Hn, Nat2Z.id, !length_app, !mem_of_length, (encs_length _ 2) by done. lia. }
  rewrite Hn, Nat2Z.id, read_groups_at by done. cbn [mbind result_bind app]. rewrite !bool_round.
  rewrite <- Hn. destruct e. cbn. by rewrite <- !app_assoc.
Qed.
End lists.

(** ** Commands made of records of variable size *)

(** The bytes of every element of a list. *)
Fixpoint joined {A} (f : A → bytes) (l : list A) : bytes :=
  match l with [] => [] | x :: l => f x ++ joined f l end.

Lemma joined_length {A} (f : A → bytes) (g : A → nat) l :
  (∀ x, length (f x) = g x) → length (joined f l) = sum_list_with g l.
Proof. intros H. induction l as [|x l IH]; cbn; [done|]. by rewrite length_app, H, IH. Qed.

Section records.
Context (host : endianess_e).

Definition registrations_bytes : list register_event.t → bytes := joined (register_bytes host).

Lemma registrations_length l : length (registrations_bytes l) = sum_list_with register_size l.
Proof.
  apply joined_length, register_bytes_length.
Qed.

Lemma put_registrations_at l d r :
  Forall register_wf l → length r = sum_list_with register_size l →
  register_events_command.put_registrations host l (at_cursor d r)
  = Ok (ERROR_OK, at_cursor (d ++ registrations_bytes l) []).
Proof.
  intros Hw. revert d r. induction Hw as [|e l He _ IH]; intros d r Hr; cbn [sum_list_with] in Hr.
  { apply nil_length_inv in Hr as ->. cbn. by rewrite app_nil_r. }
  cbn [register_events_command.put_registrations]. rewrite register_put by (done || lia). cbn [mbind result_bind].
  rewrite IH by (rewrite length_drop; lia). unfold registrations_bytes. cbn [joined].
  by rewrite app_assoc.
Qed.

Lemma read_registrations_at l fuel acc d :
  Forall register_wf l → (length l < fuel)%nat →
  register_events_command.read_registrations fuel host acc (at_cursor d (registrations_bytes l))
  = Ok (ERROR_OK, acc ++ l).
Proof.
  intros Hw. revert fuel acc d. induction Hw as [|e l He _ IH]; intros fuel acc d Hf; cbn [length] in Hf.
  all: destruct fuel as [|fuel]; [lia|]; cbn [register_events_command.read_registrations at_cursor fst snd].
  { rewrite decide_False, app_nil_r by (rewrite length_app; cbn; lia). done. }
  unfold registrations_bytes. cbn [joined].
  rewrite decide_True by (rewrite !length_app, register_bytes_length; unfold register_size; lia).
  change (d ++ ?x, length d) with (at_cursor d x). rewrite register_get by done. cbn [mbind result_bind].
  rewrite IH by lia. by rewrite <- app_assoc.
Qed.

Definition registrations_wf (c : register_events_command.t) : Prop :=
  header_wf (register_events_command.head c)
  ∧ command.size_ (register_events_command.head c)
    = Z.of_nat (sum_list_with register_size (register_events_command.registrations_ c))
  ∧ Forall register_wf (register_events_command.registrations_ c)
  ∧ fits (sum_list_with register_size (register_events_command.registrations_ c)).

Lemma registrations_roundtrip (c c0 : register_events_command.t) buf :
  let head := register_events_command.head in
  registrations_wf c → command.id_ (head c0) = command.id_ (head c) →
  ∃ bs, register_events_command.serialize host c buf = Ok (ERROR_OK, bs, c)
    ∧ register_events_command.deserialize host c0 bs = Ok (ERROR_OK, c).
Proof.
  destruct c as [h l]. intros head (Hh & Hs & Hw & Hf) Hid. cbn [head register_events_command.head register_events_command.registrations_] in *.
  exists (header_bytes host h ++ registrations_bytes l). unfold fits, MAX_COMMAND_SIZE in Hf. split.
  - unfold register_events_command.serialize. cbn [register_events_command.head register_events_command.registrations_].
    rewrite Hs, Nat2Z.id. unfold COMMAND_HEADER_SIZE, MAX_COMMAND_SIZE. rewrite (proj2 (Z.ltb_ge _ _)) by lia.
    assert (length (resize (sum_list_with register_size l + 9) buf) = (sum_list_with register_size l + 9)%nat) as HR
      by (unfold resize; len).
    rewrite command_serialize_ok by lia. cbn [mbind result_bind].
    match goal with |- context [register_events_command.put_registrations _ _ (header_bytes host h ++ ?r, _)] =>
      assert ((header_bytes host h ++ r, 9%nat) = at_cursor (header_bytes host h) r) as ->
      by (unfold at_cursor; by rewrite command_bytes_length) end.
    rewrite put_registrations_at by (done || (rewrite length_drop; lia)). cbn [mbind result_bind at_cursor fst].
    by rewrite app_nil_r.
  - unfold register_events_command.deserialize.
    rewrite open_ok by first [done|unfold COMMAND_HEADER_SIZE; lia].
    rewrite read_registrations_at; [done|done|]. rewrite length_app, command_bytes_length, registrations_length.
    clear. induction l as [|e l IH]; cbn [length sum_list_with]; [lia|]. unfold register_size at 1. lia.
Qed.

(** ** Subscriptions with a filter *)

Definition ignore_fields (p : Z * Z) : list (nat * Z) := [(8%nat, p.1); (1%nat, p.2)].

Definition ignore_wf (l : list (Z * Z)) : Prop :=
  Forall (λ p, is_u64 p.1 ∧ is_u8 p.2) l ∧ ordered ignore_lt l.

Lemma read_ignore_at l fuel acc d (b : Z) :
  Forall (λ p, is_u64 p.1 ∧ is_u8 p.2) l → ordered ignore_lt (acc ++ l) → (length l < fuel)%nat →
  subscribe_command.read_ignore fuel host acc (at_cursor d (encs host ignore_fields l ++ [b]))
  = Ok (ERROR_OK, acc ++ l, at_cursor (d ++ encs host ignore_fields l) [b]).
Proof.
  intros Hw. revert fuel acc d. induction Hw as [|[k v] l [Hk Hv] _ IH]; intros fuel acc d Ho Hf; cbn [length] in Hf.
  all: destruct fuel as [|fuel]; [lia|]; cbn [subscribe_command.read_ignore at_cursor fst snd].
  { cbn [encs app]. rewrite decide_False by (rewrite length_app; cbn; lia). by rewrite !app_nil_r. }
  cbn [encs fst snd] in *. change (ignore_fields (k, v)) with [(8%nat, k); (1%nat, v)].
  rewrite decide_True by (rewrite !length_app, enc_length; cbn; lia).
  change (d ++ ?x, length d) with (at_cursor d x). lay_out. run_gets.
  replace (acc ++ (k, v) :: l) with ((acc ++ [(k, v)]) ++ l) in * by by rewrite <- app_assoc.
  assert (existsb (λ p : Z * Z, p.1 =? k) acc = false) as ->.
  { apply not_true_iff_false. rewrite existsb_exists. intros ([k' v'] & Hin & E%Z.eqb_eq). cbn in E. subst k'.
    apply ordered_app_l in Ho. clear -Hin Ho. induction acc as [|p acc IH]; [done|].
    apply StronglySorted_inv in Ho as [Ho Hp]. destruct Hin as [->|Hin]; [|by apply IH].
    apply Forall_app in Hp as [_ Hp%Forall_inv]. destruct Hp as [Hp _]. unfold ignore_lt in Hp. cbn in Hp. lia. }
  run_gets. rewrite oinsert_last by by apply (ordered_app_l _ _ l).
  rewrite IH by (done || lia). by rewrite <- !app_assoc.
Qed.
End records.

Section filters_and_strings.
Context (host : endianess_e).

Lemma get_wrapped n v d r :
  get host n (at_cursor d (bithelper.mem_of host n v ++ r))
  = Ok (wrap (8 * Z.of_nat n) v, at_cursor (d ++ bithelper.mem_of host n v) r).
Proof.
  unfold get. rewrite get_bytes_at by apply mem_of_length. cbn [mbind result_bind].
  by rewrite val_of_mem_of, pow256.
Qed.

Definition filter_wf (f : debounce_filter_impl_t) : Prop :=
  - 2 ^ 63 ≤ interval_ f < 2 ^ 63 ∧ ignore_wf (ignore_ f).

Definition filter_bytes (f : debounce_filter_impl_t) : bytes :=
  enc host [(1%nat, Z_of_bool (on_change_ f)); (1%nat, Z_of_bool (on_change_resets_interval_ f));
            (8%nat, interval_ f)]
  ++ encs host ignore_fields (ignore_ f) ++ bithelper.mem_of host 1 (Z_of_bool (send_current_value_after_ f)).

Lemma filter_bytes_length f : length (filter_bytes f) = subscribe_command.filter_size (Some f).
Proof.
  unfold filter_bytes, subscribe_command.filter_size.
  rewrite !length_app, enc_length, mem_of_length, (encs_length _ _ 9) by done. cbn. lia.
Qed.

Lemma put_filter_at f d r :
  length r = subscribe_command.filter_size (Some f) →
  subscribe_command.put_filter host (Some f) (at_cursor d r) = Ok (at_cursor (d ++ filter_bytes f) []).
Proof.
  intros Hr. unfold subscribe_command.filter_size in Hr. unfold subscribe_command.put_filter.
  rewrite puts_at by (cbn; lia). cbn [mbind result_bind sum_list_with fst].
  change (λ i : Z * Z, puts host _) with (λ i, puts host (ignore_fields i)).
  rewrite foldM_puts_at by (rewrite (sum_const _ 9), length_drop by done; lia). cbn [mbind result_bind].
  rewrite put_at by (rewrite !length_drop, (sum_const _ 9) by done; lia).
  rewrite drop_ge by (rewrite !length_drop, (sum_const _ 9) by done; lia).
  unfold filter_bytes. by rewrite <- !app_assoc.
Qed.

Lemma int64_wrap v : - 2 ^ 63 ≤ v < 2 ^ 63 → subscribe_command.int64 (wrap 64 v) = v.
Proof.
  intros Hv. unfold subscribe_command.int64, wrap.
  destruct (decide (0 ≤ v)); [rewrite Z.mod_small by lia; by rewrite (proj2 (Z.ltb_lt _ _)) by lia|].
  assert (v mod 2 ^ 64 = v + 2 ^ 64) as -> by (symmetry; apply (Z.mod_unique_pos _ _ (-1)); lia).
  rewrite (proj2 (Z.ltb_ge _ _)) by lia. lia.
Qed.

Lemma byte_of_bool b : bithelper.mem_of host 1 (Z_of_bool b) = [Z_of_bool b].
Proof. destruct host, b; reflexivity. Qed.

Lemma get_bool b d : get host 1 (at_cursor d [Z_of_bool b]) = Ok (Z_of_bool b, at_cursor (d ++ [Z_of_bool b]) []).
Proof.
  pose proof (get_at host 1 (Z_of_bool b) d [] (bool_u8 b)) as E. by rewrite byte_of_bool in E.
Qed.

Lemma read_filter_at f d :
  filter_wf f →
  subscribe_command.read_filter host (at_cursor d (filter_bytes f)) = Ok (ERROR_OK, Some f).
Proof.
  intros [Hi [Hg Ho]]. unfold subscribe_command.read_filter. cbn [at_cursor fst snd].
  rewrite decide_True.
  2:{ rewrite !length_app, filter_bytes_length. unfold subscribe_command.filter_size. lia. }
  change (d ++ ?x, length d) with (at_cursor d x). unfold filter_bytes. lay_out.
  pose proof (bool_u8 (on_change_ f)). pose proof (bool_u8 (on_change_resets_interval_ f)). run_gets.
  rewrite get_wrapped. cbn [mbind result_bind]. change (8 * Z.of_nat 8) with 64.
  rewrite (byte_of_bool (send_current_value_after_ f)), read_ignore_at; [|done|done|].
  2:{ cbn [at_cursor fst]. rewrite !length_app, (encs_length _ _ 9) by done. cbn. lia. }
  cbn [mbind result_bind app].
  rewrite get_bool.
  cbn [mbind result_bind]. rewrite !bool_round, int64_wrap by done. by destruct f.
Qed.

Definition subscribe_wf (c : subscribe_command.t) : Prop :=
  subscription_wf (subscribe_command.base c)
  ∧ fits (11 + subscribe_command.filter_size (subscribe_command.filter_ c))
  ∧ match subscribe_command.filter_ c with Some f => filter_wf f | None => True end.

Lemma subscribe_roundtrip (c c0 : subscribe_command.t) buf :
  let head c := subscribe_command_base.head (subscribe_command.base c) in
  subscribe_wf c → command.id_ (head c0) = command.id_ (head c) → subscribe_command.filter_ c0 = None →
  let c' := subscribe_command.mk
    (subscribe_command_base.with_head (subscribe_command.base c)
       (sized (11 + subscribe_command.filter_size (subscribe_command.filter_ c)) (head c)))
    (subscribe_command.filter_ c) in
  ∃ bs, subscribe_command.serialize host c buf = Ok (ERROR_OK, bs, c')
    ∧ subscribe_command.deserialize host c0 bs = Ok (ERROR_OK, c').
Proof.
  destruct c as [b f]. intros head (Hb & Hf & Hfw) Hid H0. cbn [subscribe_command.base subscribe_command.filter_ head] in *.
  pose proof Hb as (Hh & _).
  set (fb := match f with Some f => filter_bytes f | None => [] end).
  assert (length fb = subscribe_command.filter_size f) as Hfb by (destruct f; [apply filter_bytes_length|done]).
  exists (header_bytes host (sized (11 + subscribe_command.filter_size f) (subscribe_command_base.head b))
    ++ enc host (subscribe_command_base.fields b) ++ fb). split.
  - unfold subscribe_command.serialize. cbn [subscribe_command.base subscribe_command.filter_].
    change (COMMAND_HEADER_SIZE + subscribe_command.PAYLOAD_SIZE + subscribe_command.filter_size f)%nat
      with (9 + (11 + subscribe_command.filter_size f))%nat.
    rewrite (start_ok host _ _ _ _ (enc host (subscribe_command_base.fields b) ++ fb));
      [done|rewrite length_app, enc_length, Hfb; done|done|].
    intros d r Hr. rewrite puts_at by (cbn; lia). cbn [mbind result_bind].
    change (sum_list_with fst (subscribe_command_base.fields b)) with 11%nat.
    unfold fb. destruct f as [f|]; cbn [subscribe_command.filter_size] in *.
    + rewrite put_filter_at by (rewrite length_drop; cbn [subscribe_command.filter_size]; lia). by rewrite <- app_assoc.
    + cbn [subscribe_command.put_filter]. by rewrite drop_ge, app_nil_r by lia.
  - unfold subscribe_command.deserialize. cbn [subscribe_command.base subscribe_command.filter_].
    rewrite open_ok; [|by apply sized_wf|done|].
    2:{ rewrite length_app, enc_length. change (sum_list_with fst (subscribe_command_base.fields b)) with 11%nat.
        unfold COMMAND_HEADER_SIZE, subscribe_command.PAYLOAD_SIZE, subscribe_command_base.PAYLOAD_SIZE. lia. }
    rewrite read_subscription_at by done. cbn [mbind result_bind]. rewrite H0.
    rewrite app_assoc.
    match goal with |- context [subscribe_command.read_filter host (?x ++ fb, _)] =>
      assert ((x ++ fb, (COMMAND_HEADER_SIZE + subscribe_command.PAYLOAD_SIZE)%nat) = at_cursor x fb) as ->
      by (unfold at_cursor; rewrite length_app, command_bytes_length, enc_length; done) end.
    unfold fb. destruct f as [f|]; [by rewrite read_filter_at|].
    unfold subscribe_command.read_filter. cbn [at_cursor fst snd]. rewrite app_nil_r, decide_False by lia. done.
Qed.
End filters_and_strings.

(** ** Configuration

    The host must be little endian: the deserializer copies the 32 bit length
    into the first bytes of a 64 bit variable. *)

Section configuration.

Definition string_bytes (host : endianess_e) (s : bytes) : bytes := bithelper.mem_of host 4 (Z.of_nat (length s)) ++ s.

Definition config_bytes (host : endianess_e) (p : bytes * bytes) : bytes :=
  string_bytes host p.1 ++ string_bytes host p.2.

Definition config_lt (p q : bytes * bytes) : bool := config_command.key_lt p.1 q.1.

Definition short (s : bytes) : Prop := Z.of_nat (length s) < 2 ^ 32.

Lemma string_bytes_length host s : length (string_bytes host s) = (4 + length s)%nat.
Proof. unfold string_bytes. by rewrite length_app, mem_of_length. Qed.

Lemma config_bytes_length host p : length (config_bytes host p) = config_command.pair_size p.
Proof.
  unfold config_bytes, config_command.pair_size. rewrite length_app, !string_bytes_length. lia.
Qed.

Lemma put_string_at host s d r :
  short s → (4 + length s ≤ length r)%nat →
  config_command.put_string host s (at_cursor d r)
  = Ok (at_cursor (d ++ string_bytes host s) (drop (4 + length s) r)).
Proof.
  intros Hs Hl. unfold config_command.put_string. unfold short in Hs.
  rewrite wrap_small by (wrap_bounds; lia). rewrite put_at by lia. cbn [mbind result_bind].
  rewrite put_bytes_at by (rewrite length_drop; lia). unfold string_bytes. by rewrite drop_drop, app_assoc.
Qed.

Lemma put_configs_at host l d r :
  Forall (λ p, short p.1 ∧ short p.2) l → length r = sum_list_with config_command.pair_size l →
  foldM (λ p cur, cur ← config_command.put_string host p.1 cur; config_command.put_string host p.2 cur) l (at_cursor d r)
  = Ok (at_cursor (d ++ joined (config_bytes host) l) []).
Proof.
  intros Hw. revert d r. induction Hw as [|[k v] l [Hk Hv] _ IH]; intros d r Hr; cbn [sum_list_with] in Hr.
  { apply nil_length_inv in Hr as ->. cbn. by rewrite app_nil_r. }
  unfold config_command.pair_size at 1 in Hr. cbn [fst snd] in *.
  cbn [foldM fst snd]. rewrite put_string_at by (done || lia). cbn [mbind result_bind].
  rewrite put_string_at by (done || (rewrite length_drop; lia)). cbn [mbind result_bind].
  rewrite IH by (rewrite !length_drop; lia). cbn [joined]. unfold config_bytes. cbn [fst snd]. by rewrite <- !app_assoc.
Qed.

Lemma read_string_at s rest d r :
  short s →
  config_command.read_string le (4 + length s + rest) (at_cursor d (string_bytes le s ++ r))
  = Ok (Some (s, rest, at_cursor (d ++ string_bytes le s) r)).
Proof.
  intros Hs. unfold short in Hs. unfold config_command.read_string. rewrite decide_False by lia.
  unfold string_bytes. rewrite <- app_assoc. unfold config_command.read_size.
  rewrite get_at by (change (8 * Z.of_nat 4) with 32; unfold in_width; lia). cbn [mbind result_bind at_cursor fst snd].
  rewrite (proj2 (Z.ltb_ge _ _)) by lia.
  rewrite (proj2 (Z.ltb_ge _ _)) by (rewrite !length_app, !mem_of_length; lia). cbn [orb].
  change ((d ++ bithelper.mem_of le 4 (Z.of_nat (length s))) ++ s ++ r, length (d ++ bithelper.mem_of le 4 (Z.of_nat (length s))))
    with (at_cursor (d ++ bithelper.mem_of le 4 (Z.of_nat (length s))) (s ++ r)).
  rewrite get_bytes_at by lia. cbn [mbind result_bind]. rewrite Nat2Z.id, <- app_assoc.
  by replace (4 + length s + rest - 4 - length s)%nat with rest by lia.
Qed.

Lemma assign_last k v l :
  ordered config_lt (l ++ [(k, v)]) → config_command.assign k v l = l ++ [(k, v)].
Proof.
  induction l as [|p l IH]; cbn [app config_command.assign]; [done|]. intros Ho.
  apply StronglySorted_inv in Ho as [Ho Hp]. apply Forall_app in Hp as [_ [H1 H2]%Forall_inv].
  unfold config_lt in H1, H2. cbn [fst] in *. rewrite H2, H1, IH by done. done.
Qed.

Lemma read_configs_at l fuel acc d :
  Forall (λ p, short p.1 ∧ short p.2) l → ordered config_lt (acc ++ l) → (length l < fuel)%nat →
  config_command.read_configs fuel le (sum_list_with config_command.pair_size l) acc
    (at_cursor d (joined (config_bytes le) l)) = Ok (ERROR_OK, acc ++ l).
Proof.
  intros Hw. revert fuel acc d. induction Hw as [|[k v] l [Hk Hv] _ IH]; intros fuel acc d Ho Hf; cbn [length] in Hf.
  all: destruct fuel as [|fuel]; [lia|]; cbn [config_command.read_configs sum_list_with joined].
  { rewrite decide_False by lia. by rewrite app_nil_r. }
  change (config_command.pair_size (k, v)) with (4 * 2 + length k + length v)%nat. cbn [fst snd] in *.
  rewrite decide_True by lia.
  replace (4 * 2 + length k + length v + sum_list_with config_command.pair_size l)%nat
    with (4 + length k + (4 + length v + sum_list_with config_command.pair_size l))%nat by lia.
  unfold config_bytes at 1. cbn [fst snd]. rewrite <- app_assoc, read_string_at by done. cbn [mbind result_bind].
  rewrite read_string_at by done. cbn [mbind result_bind].
  replace (acc ++ (k, v) :: l) with ((acc ++ [(k, v)]) ++ l) in * by by rewrite <- app_assoc.
  rewrite assign_last by by apply (ordered_app_l _ _ l). by rewrite IH by (done || lia).
Qed.

Definition config_wf (c : config_command.t) : Prop :=
  id_version_client_wf (config_command.head c) ∧ command.version_ (config_command.head c) = 0
  ∧ fits (sum_list_with config_command.pair_size (config_command.configs_ c))
  ∧ ordered config_lt (config_command.configs_ c).

Lemma config_short l :
  fits (sum_list_with config_command.pair_size l) → Forall (λ p, short p.1 ∧ short p.2) l.
Proof.
  unfold fits, MAX_COMMAND_SIZE, short. induction l as [|p l IH]; cbn [sum_list_with]; constructor.
  - unfold config_command.pair_size in *. lia.
  - apply IH. lia.
Qed.

Lemma config_roundtrip (c c0 : config_command.t) buf :
  let head := config_command.head in
  config_wf c → command.id_ (head c0) = command.id_ (head c) → config_command.configs_ c0 = [] →
  let l := config_command.configs_ c in
  let c' := config_command.mk (sized (sum_list_with config_command.pair_size l) (head c)) l in
  ∃ bs, config_command.serialize le c buf = Ok (ERROR_OK, bs, c')
    ∧ config_command.deserialize le c0 bs = Ok (ERROR_OK, c').
Proof.
  intros head (Hh & Hv & Hf & Ho) Hid H0 l c'. fold l in Hf, Ho. pose proof (config_short _ Hf) as Hw.
  exists (header_bytes le (sized (sum_list_with config_command.pair_size l) (head c)) ++ joined (config_bytes le) l).
  pose proof (joined_length (config_bytes le) _ l (config_bytes_length le)) as Hlen. split.
  - unfold config_command.serialize, COMMAND_HEADER_SIZE. fold l.
    rewrite (start_ok le _ _ _ _ (joined (config_bytes le) l)); [done|done|done|].
    intros d r Hr. by apply put_configs_at.
  - unfold config_command.deserialize.
    rewrite open_ok by first [done|by apply sized_wf|unfold COMMAND_HEADER_SIZE; lia].
    unfold sized. cbn [command.set_size command.version_ command.size_]. fold head in Hv. rewrite Hv, H0. cbn [Z.eqb negb].
    rewrite length_app, command_bytes_length, Hlen. rewrite (proj2 (Z.ltb_ge _ _)) by lia.
    rewrite Nat2Z.id, read_configs_at; [done|done|done|].
    clear. induction l as [|p l IH]; cbn [length sum_list_with]; [lia|]. unfold config_command.pair_size at 1. lia.
Qed.
End configuration.

(** ** Names: the deserializer leaves the last character out *)

Lemma assign_client_loses_last host (c c0 : assign_client_command.t) buf :
  let head := assign_client_command.head in
  let n := assign_client_command.name_ c in
  id_version_client_wf (head c) → command.id_ (head c0) = command.id_ (head c) →
  n ≠ [] → fits (length n) →
  let h := sized (length n) (head c) in
  ∃ bs, assign_client_command.serialize host c buf = Ok (ERROR_OK, bs, assign_client_command.mk h n)
    ∧ assign_client_command.deserialize host c0 bs
      = Ok (ERROR_OK, assign_client_command.mk h (take (length n - 1) n)).
Proof.
  intros head n Hh Hid Hn Hf h. exists (header_bytes host h ++ n). assert (0 < length n)%nat as Hpos by (destruct n; [done|cbn; lia]).
  split.
  - unfold assign_client_command.serialize, COMMAND_HEADER_SIZE. fold n.
    rewrite (start_ok host _ _ _ _ n); [done|done|done|].
    intros d r Hr. rewrite put_bytes_at by lia. by rewrite drop_ge by lia.
  - unfold assign_client_command.deserialize.
    rewrite open_ok by first [done|by apply sized_wf|unfold COMMAND_HEADER_SIZE; lia].
    unfold h at 1, sized at 1. cbn [command.set_size command.size_]. rewrite (proj2 (Z.ltb_lt _ _)) by lia.
    rewrite length_app, command_bytes_length. unfold COMMAND_POSITION_PAYLOAD.
    rewrite decide_False by lia.
    rewrite <- (take_drop (length n - 1) n) at 2.
    rewrite get_bytes_at by (rewrite length_take; lia). done.
Qed.

(** ** Routing information *)

Section routing.
Context (host : endianess_e) {addr : Type} `{IpAddressLaws addr}.
Implicit Types (e : routing_info_entry.t addr).

Definition entry_wf e : Prop :=
  is_u8 (routing_info_entry.type_ e) ∧ routing_info_entry.type_ e ≠ routing_info_entry_type_e.RIE_UNKNOWN
  ∧ is_u16 (routing_info_entry.client_ e) ∧ is_u16 (routing_info_entry.port_ e)
  ∧ (is_unspecified (routing_info_entry.address_ e) = true →
     is_v4 (routing_info_entry.address_ e) = true ∧ routing_info_entry.port_ e = 0)
  ∧ Forall service_wf (routing_info_entry.services_ e)
  ∧ (routing_info_entry.has_services (routing_info_entry.type_ e) = false → routing_info_entry.services_ e = [])
  ∧ Z.of_nat (routing_info_entry.get_size e) ≤ MAX_COMMAND_SIZE.

#[export] Instance entry_wf_dec e : Decision (entry_wf e).
Proof. unfold entry_wf. apply _. Defined.

Definition address_bytes e : bytes :=
  if is_unspecified (routing_info_entry.address_ e) then []
  else to_bytes (routing_info_entry.address_ e) ++ bithelper.mem_of host 2 (routing_info_entry.port_ e).

Definition client_size e : Z := Z.of_nat (2 + routing_info_entry.address_size (routing_info_entry.address_ e)).

Definition services_bytes e : bytes :=
  if routing_info_entry.has_services (routing_info_entry.type_ e)
  then bithelper.mem_of host 4 (Z.of_nat (length (routing_info_entry.services_ e) * 9))
       ++ encs host service_fields (routing_info_entry.services_ e)
  else [].

Definition client_size_bytes e : bytes :=
  if routing_info_entry.has_services (routing_info_entry.type_ e) then bithelper.mem_of host 4 (client_size e) else [].

Definition entry_bytes e : bytes :=
  bithelper.mem_of host 1 (routing_info_entry.type_ e)
  ++ bithelper.mem_of host 4 (Z.of_nat (routing_info_entry.get_size e - 4 - 1))
  ++ client_size_bytes e ++ bithelper.mem_of host 2 (routing_info_entry.client_ e)
  ++ address_bytes e ++ services_bytes e.

Lemma address_bytes_length e :
  length (address_bytes e) = routing_info_entry.address_size (routing_info_entry.address_ e).
Proof.
  unfold address_bytes, routing_info_entry.address_size. destruct (is_unspecified _); [done|].
  rewrite length_app, mem_of_length, to_bytes_length. by destruct (is_v4 _).
Qed.

Lemma services_bytes_length e :
  length (services_bytes e) = if routing_info_entry.has_services (routing_info_entry.type_ e)
    then (4 + length (routing_info_entry.services_ e) * 9)%nat else 0%nat.
Proof.
  unfold services_bytes. destruct (routing_info_entry.has_services _); [|done].
  by rewrite length_app, mem_of_length, services_enc_length.
Qed.

Lemma client_size_bytes_length e :
  length (client_size_bytes e) = if routing_info_entry.has_services (routing_info_entry.type_ e) then 4%nat else 0%nat.
Proof. unfold client_size_bytes. destruct (routing_info_entry.has_services _); [apply mem_of_length|done]. Qed.

Lemma entry_bytes_length e : length (entry_bytes e) = routing_info_entry.get_size e.
Proof.
  unfold entry_bytes, routing_info_entry.get_size, ROUTING_INFO_ENTRY_HEADER_SIZE.
  rewrite !length_app, !mem_of_length, client_size_bytes_length, address_bytes_length, services_bytes_length.
  change SERVICE_SIZE with 9%nat. destruct (routing_info_entry.has_services _); lia.
Qed.

Lemma put_address_at e d r :
  (length (address_bytes e) ≤ length r)%nat →
  (if is_unspecified (routing_info_entry.address_ e) then Ok (at_cursor d r)
   else cur ← put_bytes (to_bytes (routing_info_entry.address_ e)) (at_cursor d r);
        put host 2 (routing_info_entry.port_ e) cur)
  = Ok (at_cursor (d ++ address_bytes e) (drop (length (address_bytes e)) r)).
Proof.
  unfold address_bytes. destruct (is_unspecified _); intros Hl; [by rewrite app_nil_r, drop_0|].
  rewrite length_app, mem_of_length in Hl.
  rewrite put_bytes_at by lia. cbn [mbind result_bind]. rewrite put_at by (rewrite length_drop; lia).
  by rewrite length_app, mem_of_length, app_assoc, drop_drop.
Qed.

Lemma entry_put e d r :
  entry_wf e → (routing_info_entry.get_size e ≤ length r)%nat →
  routing_info_entry.serialize host e (at_cursor d r)
  = Ok (ERROR_OK, at_cursor (d ++ entry_bytes e) (drop (routing_info_entry.get_size e) r)).
Proof.
  intros (? & ? & ? & ? & ? & ? & ? & Hmax) Hl. unfold routing_info_entry.serialize.
  pose proof (entry_bytes_length e) as Hlen. unfold entry_bytes in Hlen.
  rewrite !length_app, !mem_of_length in Hlen. unfold MAX_COMMAND_SIZE in *.
  rewrite put_at by lia. cbn [mbind result_bind]. rewrite (proj2 (Z.ltb_ge _ _)) by lia.
  rewrite put_at by (rewrite !length_drop; lia). cbn [mbind result_bind].
  set (cs := Z.of_nat (2 + routing_info_entry.address_size (routing_info_entry.address_ e))).
  assert (∀ d r, (length (client_size_bytes e) ≤ length r)%nat →
    (if routing_info_entry.has_services (routing_info_entry.type_ e) then put host 4 cs (at_cursor d r) else Ok (at_cursor d r))
    = Ok (at_cursor (d ++ client_size_bytes e) (drop (length (client_size_bytes e)) r))) as ->.
  { intros d' r'. unfold client_size_bytes. destruct (routing_info_entry.has_services _); intros Hr.
    - rewrite mem_of_length in *. by rewrite put_at.
    - by rewrite app_nil_r, drop_0. }
  2:{ rewrite !length_drop; lia. }
  cbn [mbind result_bind]. rewrite put_at by (rewrite !length_drop; lia). cbn [mbind result_bind].
  rewrite put_address_at by (rewrite !length_drop; lia). cbn [mbind result_bind].
  unfold entry_bytes. rewrite services_bytes_length in Hlen. unfold services_bytes.
  destruct (routing_info_entry.has_services _) eqn:E; [|rewrite !drop_drop, app_nil_r, <- !app_assoc; do 3 f_equal; f_equal; lia].
  change SERVICE_SIZE with 9%nat. rewrite (proj2 (Z.ltb_ge _ _)) by lia.
  rewrite put_at by (rewrite !length_drop; lia). cbn [mbind result_bind].
  rewrite foldM_puts_at by (rewrite services_sum, !length_drop; lia). cbn [mbind result_bind].
  rewrite services_sum, !drop_drop, <- !app_assoc. do 3 f_equal. f_equal. lia.
Qed.

(** Address and port are read back from the size of the client information. *)
Lemma read_address_at e d r :
  entry_wf e →
  routing_info_entry.read_address host (client_size e) (at_cursor d (address_bytes e ++ r))
  = Ok (ERROR_OK, routing_info_entry.address_ e, routing_info_entry.port_ e, at_cursor (d ++ address_bytes e) r).
Proof.
  intros (_ & _ & _ & Hp & Hu & _). unfold routing_info_entry.read_address, client_size, address_bytes,
    routing_info_entry.address_size.
  pose proof (to_bytes_length (routing_info_entry.address_ e)) as Hb.
  pose proof (address_v4_to_bytes (routing_info_entry.address_ e)) as H4.
  pose proof (address_v6_to_bytes (routing_info_entry.address_ e)) as H6.
  destruct (is_unspecified _) eqn:E; [|destruct (is_v4 _) eqn:E4].
  - destruct (Hu eq_refl) as [Hv4 ->]. cbn. rewrite app_nil_r, <- (unspecified_is _ Hv4 E). done.
  - change (2 <? _) with true. change (_ =? 4) with true. cbn iota. rewrite <- app_assoc, get_bytes_at by done.
    cbn [mbind result_bind]. run_gets. by rewrite H4, <- app_assoc.
  - change (2 <? _) with true. change (_ =? 4) with false. change (_ =? 16) with true. cbn iota.
    rewrite <- app_assoc, get_bytes_at by done. cbn [mbind result_bind]. run_gets. by rewrite H6, <- app_assoc.
Qed.

Lemma entry_get e d r :
  entry_wf e →
  routing_info_entry.deserialize host (at_cursor d (entry_bytes e ++ r))
  = Ok (ERROR_OK, e, at_cursor (d ++ entry_bytes e) r).
Proof.
  intros He. pose proof He as (Ht & Hk & Hc & Hp & Hu & Hs & Hns & Hmax). unfold routing_info_entry.deserialize.
  pose proof (entry_bytes_length e) as Hlen.
  assert (7 ≤ routing_info_entry.get_size e)%nat as H7
    by (unfold routing_info_entry.get_size, ROUTING_INFO_ENTRY_HEADER_SIZE; lia).
  cbn [at_cursor fst snd]. rewrite decide_False by (rewrite !length_app; lia).
  change (d ++ entry_bytes e ++ r, length d) with (at_cursor d (entry_bytes e ++ r)).
  unfold entry_bytes. rewrite <- !app_assoc. unfold MAX_COMMAND_SIZE in Hmax.
  rewrite get_at by done. cbn [mbind result_bind]. rewrite (proj2 (Z.eqb_neq _ _)) by done.
  rewrite get_at by (change (8 * Z.of_nat 4) with 32; unfold in_width; lia). cbn [mbind result_bind].
  assert (in_width 32 (client_size e)) as Hcs.
  { unfold client_size, in_width. unfold routing_info_entry.address_size. destruct (is_unspecified _); [lia|]. destruct (is_v4 _); lia. }
  unfold client_size_bytes, services_bytes.
  unfold routing_info_entry.get_size, ROUTING_INFO_ENTRY_HEADER_SIZE in Hmax |- *.
  destruct (routing_info_entry.has_services _) eqn:E.
  - rewrite get_at by done. cbn [mbind result_bind]. rewrite get_at by done. cbn [mbind result_bind].
    rewrite read_address_at by done. cbn [mbind result_bind].
    cbn [at_cursor fst snd].
    rewrite decide_False by (rewrite !length_app, !mem_of_length; lia).
    change (?x ++ bithelper.mem_of host 4 ?v ++ ?y, length ?x) with (at_cursor x (bithelper.mem_of host 4 v ++ y)).
    change SERVICE_SIZE with 9%nat in *. rewrite <- !app_assoc.
    rewrite get_at by (change (8 * Z.of_nat 4) with 32; unfold in_width; lia). cbn [mbind result_bind].
    rewrite Nat2Z.id. cbn [at_cursor fst snd].
    rewrite decide_False by (rewrite !length_app, !mem_of_length, services_enc_length; lia).
    change (?x ++ encs host service_fields ?v ++ ?y, length ?x) with (at_cursor x (encs host service_fields v ++ y)).
    rewrite Nat.div_mul by lia. rewrite read_services_list by done. cbn [mbind result_bind app].
    rewrite <- !app_assoc. by destruct e.
  - rewrite Nat.add_0_r. cbn [mbind result_bind].
    replace (Z.of_nat (7 + routing_info_entry.address_size (routing_info_entry.address_ e) - 4 - 1))
      with (client_size e) by (unfold client_size; lia).
    cbn [app]. rewrite get_at by done. cbn [mbind result_bind].
    rewrite read_address_at by done. cbn [mbind result_bind].
    rewrite !app_nil_r, <- !app_assoc. specialize (Hns eq_refl). destruct e. cbn in Hns. by subst.
Qed.
End routing.

Section routing_command.
Context (host : endianess_e) {addr : Type} `{IpAddressLaws addr}.
Implicit Types (l : list (routing_info_entry.t addr)).

Definition entries_size l : nat := sum_list_with routing_info_entry.get_size l.

Lemma put_entries_at l d r :
  Forall entry_wf l → length r = entries_size l →
  routing_info_command.put_entries host l (at_cursor d r)
  = Ok (ERROR_OK, at_cursor (d ++ joined (entry_bytes host) l) []).
Proof.
  unfold entries_size. intros Hw. revert d r. induction Hw as [|e l He _ IH]; intros d r Hr; cbn [sum_list_with] in Hr.
  { apply nil_length_inv in Hr as ->. cbn. by rewrite app_nil_r. }
  cbn [routing_info_command.put_entries]. rewrite entry_put by (done || lia). cbn [mbind result_bind].
  rewrite IH by (rewrite length_drop; lia). cbn [joined]. by rewrite app_assoc.
Qed.

Lemma entry_size_pos (e : routing_info_entry.t addr) : (7 ≤ routing_info_entry.get_size e)%nat.
Proof. unfold routing_info_entry.get_size, ROUTING_INFO_ENTRY_HEADER_SIZE. lia. Qed.

Lemma read_entries_at l fuel acc d :
  Forall entry_wf l → (length l < fuel)%nat →
  routing_info_command.read_entries fuel host acc (at_cursor d (joined (entry_bytes host) l))
  = Ok (ERROR_OK, acc ++ l).
Proof.
  intros Hw. revert fuel acc d. induction Hw as [|e l He _ IH]; intros fuel acc d Hf; cbn [length] in Hf.
  all: destruct fuel as [|fuel]; [lia|]; cbn [routing_info_command.read_entries at_cursor fst snd joined].
  { rewrite decide_False, app_nil_r by (rewrite length_app; cbn; lia). done. }
  pose proof (entry_size_pos e). pose proof (entry_bytes_length host e).
  rewrite decide_True by (rewrite !length_app; lia).
  change (d ++ ?x, length d) with (at_cursor d x). rewrite entry_get by done. cbn [mbind result_bind].
  rewrite IH by lia. by rewrite <- app_assoc.
Qed.

Definition routing_info_wf (c : routing_info_command.t addr) : Prop :=
  id_version_client_wf (routing_info_command.head c) ∧ Forall entry_wf (routing_info_command.entries_ c)
  ∧ fits (entries_size (routing_info_command.entries_ c)).

Lemma routing_info_roundtrip (c c0 : routing_info_command.t addr) buf :
  let head := routing_info_command.head in
  routing_info_wf c → command.id_ (head c0) = command.id_ (head c) → routing_info_command.entries_ c0 = [] →
  let l := routing_info_command.entries_ c in
  let c' := routing_info_command.mk (sized (entries_size l) (head c)) l in
  ∃ bs, routing_info_command.serialize host c buf = Ok (ERROR_OK, bs, c')
    ∧ routing_info_command.deserialize host c0 bs = Ok (ERROR_OK, c').
Proof.
  intros head (Hh & Hw & Hf) Hid H1 l c'. fold l in Hw, Hf.
  pose proof (joined_length (entry_bytes host) _ l (entry_bytes_length host)) as Hlen.
  exists (header_bytes host (sized (entries_size l) (head c)) ++ joined (entry_bytes host) l). split.
  - unfold routing_info_command.serialize. fold l. unfold COMMAND_HEADER_SIZE. fold (entries_size l).
    rewrite (Nat.add_comm 9), Nat.add_sub. pose proof Hf as Hf'. unfold fits, MAX_COMMAND_SIZE in Hf'.
    rewrite wrap_small by (wrap_bounds; lia).
    assert (length (resize (entries_size l + 9) buf) = (entries_size l + 9)%nat) as HR by (unfold resize; len).
    rewrite command_serialize_ok by lia. cbn [mbind result_bind].
    match goal with |- context [routing_info_command.put_entries _ _ (?x ++ ?r, _)] =>
      assert ((x ++ r, 9%nat) = at_cursor x r) as -> by (unfold at_cursor; by rewrite command_bytes_length) end.
    rewrite put_entries_at by (done || (rewrite length_drop; lia)). cbn [mbind result_bind at_cursor fst].
    by rewrite app_nil_r.
  - unfold routing_info_command.deserialize.
    rewrite open_ok by first [done|by apply sized_wf|unfold COMMAND_HEADER_SIZE; lia].
    rewrite H1, read_entries_at; [done|done|]. rewrite length_app, command_bytes_length, Hlen.
    clear. induction l as [|e l IH]; cbn [length sum_list_with]; [lia|]. pose proof (entry_size_pos e). lia.
Qed.
End routing_command.

(** ** All classes at once *)

Section any.
Context {addr : Type} `{IpAddressLaws addr}.
Notation any := (any_command.t addr).

(** The bytes behind the header. *)
Definition payload_size (o : any) : nat :=
  match o with
  | any_command.simple _ => 0
  | any_command.assign_client c => length (assign_client_command.name_ c)
  | any_command.assign_client_ack _ | any_command.register_application _ => 2
  | any_command.offered_services_request _ => 1
  | any_command.resend_provided_events _ | any_command.security_policy_response _ | any_command.release_service _ => 4
  | any_command.remove_security_policy _ | any_command.subscribe_ack _ => 12
  | any_command.offer _ => 9
  | any_command.services c => length (multiple_services_command_base.services_ c) * 9
  | any_command.subscribe c => 11 + subscribe_command.filter_size (subscribe_command.filter_ c)
  | any_command.unsubscribe _ => 11
  | any_command.unsubscribe_ack _ => 8
  | any_command.unregister_event _ => 7
  | any_command.send c => 6 + length (send_command.message_ c)
  | any_command.register_events c => sum_list_with register_size (register_events_command.registrations_ c)
  | any_command.routing_info c => entries_size (routing_info_command.entries_ c)
  | any_command.update_security_credentials c => length (update_security_credentials_command.credentials_ c) * 8
  | any_command.config c => sum_list_with config_command.pair_size (config_command.configs_ c)
  end.

(** The object after [serialize]: [size_] is set. *)
Definition sent (o : any) : any :=
  let h := sized (payload_size o) (any_command.head o) in
  match o with
  | any_command.simple _ => any_command.simple h
  | any_command.assign_client c => any_command.assign_client (assign_client_command.mk h (assign_client_command.name_ c))
  | any_command.assign_client_ack c => any_command.assign_client_ack (one_field.mk h (one_field.field c))
  | any_command.offered_services_request c => any_command.offered_services_request (one_field.mk h (one_field.field c))
  | any_command.register_application c => any_command.register_application (one_field.mk h (one_field.field c))
  | any_command.resend_provided_events c => any_command.resend_provided_events (one_field.mk h (one_field.field c))
  | any_command.security_policy_response c => any_command.security_policy_response (one_field.mk h (one_field.field c))
  | any_command.remove_security_policy c => any_command.remove_security_policy
      (remove_security_policy_command.mk h (remove_security_policy_command.update_id_ c)
         (remove_security_policy_command.uid_ c) (remove_security_policy_command.gid_ c))
  | any_command.offer c => any_command.offer (service_command_base.mk h (service_command_base.service_ c))
  | any_command.services c => any_command.services
      (multiple_services_command_base.mk h (multiple_services_command_base.services_ c))
  | any_command.release_service c => any_command.release_service
      (release_service_command.mk h (release_service_command.service_ c))
  | any_command.subscribe c => any_command.subscribe
      (subscribe_command.mk (subscribe_command_base.with_head (subscribe_command.base c) h) (subscribe_command.filter_ c))
  | any_command.unsubscribe c => any_command.unsubscribe (subscribe_command_base.with_head c h)
  | any_command.subscribe_ack c => any_command.subscribe_ack (subscribe_ack_command_base.with_head c h)
  | any_command.unsubscribe_ack c => any_command.unsubscribe_ack (unsubscribe_ack_command.with_head c h)
  | any_command.unregister_event c => any_command.unregister_event (unregister_event_command.with_head c h)
  | any_command.send c => any_command.send (send_command.with_head c h)
  | any_command.register_events c => any_command.register_events c
  | any_command.routing_info c => any_command.routing_info
      (routing_info_command.mk h (routing_info_command.entries_ c))
  | any_command.update_security_credentials c => any_command.update_security_credentials
      (update_security_credentials_command.mk h (update_security_credentials_command.credentials_ c))
  | any_command.config c => any_command.config (config_command.mk h (config_command.configs_ c))
  end.

(** Values in the range of their types, ordered containers, and a total size
    that fits; a configuration is only exchanged between little endian hosts. *)
Definition any_wf (host : endianess_e) (o : any) : Prop :=
  let idv := id_version_client_wf (any_command.head o) in
  match o with
  | any_command.simple _ => idv
  | any_command.assign_client c =>
      idv ∧ assign_client_command.name_ c ≠ [] ∧ fits (length (assign_client_command.name_ c))
  | any_command.assign_client_ack c | any_command.register_application c => idv ∧ is_u16 (one_field.field c)
  | any_command.offered_services_request c => idv ∧ is_u8 (one_field.field c)
  | any_command.resend_provided_events c | any_command.security_policy_response c => idv ∧ is_u32 (one_field.field c)
  | any_command.remove_security_policy c =>
      idv ∧ is_u32 (remove_security_policy_command.update_id_ c) ∧ is_u32 (remove_security_policy_command.uid_ c)
      ∧ is_u32 (remove_security_policy_command.gid_ c)
  | any_command.offer c => idv ∧ service_wf (service_command_base.service_ c)
  | any_command.services c =>
      let l := multiple_services_command_base.services_ c in
      idv ∧ Forall service_wf l ∧ ordered service_lt l ∧ fits (length l * 9)
  | any_command.release_service c => idv ∧ service_wf (release_service_command.service_ c)
  | any_command.subscribe c => subscribe_wf c
  | any_command.unsubscribe c => subscription_wf c
  | any_command.subscribe_ack c => subscribe_ack_wf c
  | any_command.unsubscribe_ack c => unsubscribe_ack_wf c
  | any_command.unregister_event c => unregister_event_wf c
  | any_command.send c => send_wf c
  | any_command.register_events c => registrations_wf c
  | any_command.routing_info c => routing_info_wf c
  | any_command.update_security_credentials c => credentials_wf c
  | any_command.config c => host = le ∧ config_wf c
  end.

(** [o0] is an object of the class of [o] with its identifier, whose containers
    are still empty. *)
Definition receives (o0 o : any) : Prop :=
  command.id_ (any_command.head o0) = command.id_ (any_command.head o)
  ∧ match o0, o with
    | any_command.simple _, any_command.simple _ | any_command.assign_client _, any_command.assign_client _
    | any_command.assign_client_ack _, any_command.assign_client_ack _
    | any_command.offered_services_request _, any_command.offered_services_request _
    | any_command.register_application _, any_command.register_application _
    | any_command.resend_provided_events _, any_command.resend_provided_events _
    | any_command.security_policy_response _, any_command.security_policy_response _
    | any_command.remove_security_policy _, any_command.remove_security_policy _
    | any_command.offer _, any_command.offer _ | any_command.release_service _, any_command.release_service _
    | any_command.unsubscribe _, any_command.unsubscribe _ | any_command.subscribe_ack _, any_command.subscribe_ack _
    | any_command.unsubscribe_ack _, any_command.unsubscribe_ack _
    | any_command.unregister_event _, any_command.unregister_event _ | any_command.send _, any_command.send _
    | any_command.register_events _, any_command.register_events _ => True
    | any_command.services c0, any_command.services _ => multiple_services_command_base.services_ c0 = []
    | any_command.subscribe c0, any_command.subscribe _ => subscribe_command.filter_ c0 = None
    | any_command.routing_info c0, any_command.routing_info _ => routing_info_command.entries_ c0 = []
    | any_command.update_security_credentials c0, any_command.update_security_credentials _ =>
        update_security_credentials_command.credentials_ c0 = []
    | any_command.config c0, any_command.config _ => config_command.configs_ c0 = []
    | _, _ => False
    end.

(** What [o0] becomes: the sent object, apart from the versions that a release
    does not carry and the last character of a client name. *)
Definition received (o0 o : any) : any :=
  match o0, sent o with
  | any_command.release_service c0, any_command.release_service c =>
      any_command.release_service (release_service_command.mk (release_service_command.head c)
        (mk_service (service_ (release_service_command.service_ c)) (instance_ (release_service_command.service_ c))
           (major_ (release_service_command.service_ c0)) (minor_ (release_service_command.service_ c0))))
  | _, any_command.assign_client c =>
      any_command.assign_client (assign_client_command.mk (assign_client_command.head c)
        (take (length (assign_client_command.name_ c) - 1) (assign_client_command.name_ c)))
  | _, o' => o'
  end.
End any.

(** Closes a case of the round trip with the lemma of its class. *)
Ltac by_class lem :=
  edestruct lem as (bs & E1 & E2); [first [eassumption|done]..|];
  exists bs; cbv zeta in E1, E2; rewrite E1, E2; split; reflexivity.

Ltac by_pair lem :=
  edestruct lem as [E1 E2]; [first [eassumption|done]..|];
  cbv zeta in E1, E2; eexists; split; [by rewrite E1|by rewrite E2].

(** (C17) Every command class but the two that carry security policies
    ([update_security_policy_command], [distribute_security_policies_command]):
    what [serialize] leaves in the buffer (whatever the buffer held before) is
    read back by [deserialize] of an object of the same class, the header
    included; [size_] is the number of bytes behind the header.  Two classes do
    not give everything back: a release carries no versions, and
    [assign_client_command] drops the last character of the name.  The
    configuration command is covered on little-endian hosts only, since others
    read its lengths shifted ([config_command.read_size]). *)
Theorem protocol_roundtrip {addr : Type} `{HL : IpAddressLaws addr} (host : endianess_e)
    (o o0 : any_command.t addr) (buf : bytes)
    (Hw : any_wf host o) (Hr : receives o0 o) :
  ∃ bs, any_command.serialize host o buf = Ok (ERROR_OK, bs, sent o)
    ∧ any_command.deserialize host o0 bs = Ok (ERROR_OK, received o0 o).
Proof.
  destruct Hr as [Hid Hr].
  destruct o, o0; try done; cbn [any_command.head] in Hid; cbn [any_wf any_command.head] in Hw.
  all: cbn [any_command.serialize any_command.deserialize].
  all: unfold assign_client_ack_command.serialize, assign_client_ack_command.deserialize,
    offered_services_request_command.serialize, offered_services_request_command.deserialize,
    register_application_command.serialize, register_application_command.deserialize,
    resend_provided_events_command.serialize, resend_provided_events_command.deserialize,
    security_policy_response_command_base.serialize, security_policy_response_command_base.deserialize.
  - by_pair (simple_roundtrip host c c0 buf).
  - destruct Hw as (? & ? & ?). by_class (assign_client_loses_last host c c0 buf).
  - destruct Hw. by_pair (one_field_roundtrip host 2 c c0 buf).
  - destruct Hw. by_pair (one_field_roundtrip host 1 c c0 buf).
  - destruct Hw. by_pair (one_field_roundtrip host 2 c c0 buf).
  - destruct Hw. by_pair (one_field_roundtrip host 4 c c0 buf).
  - destruct Hw. by_pair (one_field_roundtrip host 4 c c0 buf).
  - destruct Hw as (? & ? & ? & ?). by_class (remove_policy_roundtrip host c c0 buf).
  - destruct Hw. by_class (service_roundtrip host c c0 buf).
  - destruct Hw as (? & ? & ? & ?). by_class (services_roundtrip host c c0 buf).
  - destruct Hw. by_class (release_roundtrip host c c0 buf).
  - by_class (subscribe_roundtrip host c c0 buf).
  - by_class (subscription_roundtrip host c c0 buf).
  - by_class (subscribe_ack_roundtrip host c c0 buf).
  - by_class (unsubscribe_ack_roundtrip host c c0 buf).
  - by_class (unregister_event_roundtrip host c c0 buf).
  - by_class (send_roundtrip host c c0 buf).
  - by_class (registrations_roundtrip host c c0 buf).
  - by_class (routing_info_roundtrip host c c0 buf).
  - by_class (credentials_roundtrip host c c0 buf).
  - destruct Hw as [-> Hw]. by_class (config_roundtrip c c0 buf).
Qed.

(** An address type that satisfies the laws. *)
Module ip.
Definition octets (n : nat) (l : bytes) : Prop := length l = n ∧ bytes_ok l.

#[global] Instance octets_dec n l : Decision (octets n l).
Proof. unfold octets. apply _. Defined.

Inductive t : Type := v4 (a : dsig (octets 4)) | v6 (a : dsig (octets 16)).

Definition zeros (n : nat) : dsig (octets n).
Proof. refine (dexist (replicate n 0) _). split; [apply length_replicate|]. by apply Forall_replicate. Defined.

Definition of_bytes (n : nat) (l : bytes) : dsig (octets n) :=
  match decide (octets n l) with left H => dexist l H | right _ => zeros n end.

#[global] Instance ip_address : IpAddress t := {
  unspecified := v4 (zeros 4);
  is_unspecified a := match a with v4 a => bool_decide (a = zeros 4) | v6 a => bool_decide (a = zeros 16) end;
  is_v4 a := match a with v4 _ => true | v6 _ => false end;
  to_bytes a := match a with v4 a => `a | v6 a => `a end;
  address_v4 l := v4 (of_bytes 4 l);
  address_v6 l := v6 (of_bytes 16 l)
}.

Lemma of_bytes_to n (a : dsig (octets n)) : of_bytes n (`a) = a.
Proof.
  unfold of_bytes. destruct (decide _) as [Ho|Ho]; [by apply dsig_eq|]. destruct Ho. apply (proj2_dsig a).
Qed.

#[global] Instance ip_laws : IpAddressLaws t.
Proof.
  split.
  - intros [a|a]; apply (proj2_dsig a).
  - intros [a|a]; apply (proj2_dsig a).
  - intros [a|a]; [|done]. intros _. cbn. by rewrite of_bytes_to.
  - intros [a|a]; [done|]. intros _. cbn. by rewrite of_bytes_to.
  - intros [a|a]; [|done]. intros _ E%bool_decide_eq_true. cbn in *. by subst.
Qed.
End ip.

Definition sample_routing : any_command.t ip.t :=
  any_command.routing_info (routing_info_command.mk (command.mk id_e.ROUTING_INFO_ID 0 0x100 0)
    [routing_info_entry.mk routing_info_entry_type_e.RIE_ADD_SERVICE_INSTANCE 0x1277
       (ip.v4 (ip.of_bytes 4 [10; 0; 3; 1])) 30509
       [mk_service 0x1234 0x5678 1 2; mk_service 0x1111 0x2222 0xff 0xffffffff];
     routing_info_entry.mk routing_info_entry_type_e.RIE_DELETE_CLIENT 0x1344 unspecified 0 []]).

Definition fresh_routing : any_command.t ip.t :=
  any_command.routing_info (routing_info_command.mk (command.create id_e.ROUTING_INFO_ID) []).

Lemma protocol_roundtrip_witness :
  ∃ bs, any_command.serialize le sample_routing [] = Ok (ERROR_OK, bs, sent sample_routing)
    ∧ any_command.deserialize le fresh_routing bs = Ok (ERROR_OK, received fresh_routing sample_routing).
Proof.
  apply (protocol_roundtrip le sample_routing fresh_routing []).
  - split_and!; by_eval.
  - split; reflexivity.
Defined.
