(* ===== verification/ProtocolSafety.v ===== *)
(** * The protocol commands on arbitrary buffers

    Which classes read no byte outside the buffer, which accesses are not
    checked, that foreign commands are rejected, and that the loops over the
    rest of a buffer end. *)

From stdpp Require Import base list gmap sorting.
From Stdlib Require Import ZArith Lia.
From S2P Require Import Prelude BitHelper Protocol ProtocolFacts.

(** ** Arbitrary buffers *)

Section any_buffer.
Context (host : endianess_e) (buf : bytes).

(** The call is defined. *)
Definition returns {A} (r : result A) : Prop := ∃ x, r = Ok x.

Lemma header_any h0 : (9 ≤ length buf)%nat → returns (command.deserialize host h0 buf).
Proof.
  intros Hl. unfold command.deserialize, rd1. destruct (lookup_lt_is_Some_2 buf 0) as [b ->]; [lia|].
  cbn [mbind result_bind]. unfold command.read_rest, COMMAND_POSITION_VERSION, COMMAND_POSITION_CLIENT, COMMAND_POSITION_SIZE.
  rewrite !rd_ok by lia. destruct (_ =? _); [by eexists|]. destruct (_ =? _); by eexists.
Qed.

Lemma open_any {A} its_size h0 (obj : command.t → A) payload :
  (9 ≤ its_size)%nat →
  (∀ h, (its_size ≤ length buf)%nat → returns (payload h (buf, 9%nat))) →
  returns (command.open host its_size h0 buf obj payload).
Proof.
  intros H9 Hp. unfold command.open. destruct (decide _) as [|Hl]; [by eexists|].
  destruct (header_any h0) as [[err h] ->]; [lia|]. cbn [mbind result_bind].
  destruct err; try by eexists. apply Hp. lia.
Qed.

(** Reads one field. *)
Ltac get_one :=
  match goal with |- context [get host ?n (buf, ?off)] =>
    let v := fresh "v" in
    destruct (get_any host n buf off) as [v ->]; [cbn; lia|]; cbn [mbind result_bind] end.

Lemma get_service_any off : (off + 9 ≤ length buf)%nat → ∃ s, get_service host (buf, off) = Ok (s, (buf, (off + 9)%nat)).
Proof.
  intros Hl. unfold get_service. repeat get_one. eexists. do 3 f_equal. lia.
Qed.

Lemma read_services_any n acc off :
  (off + n * 9 ≤ length buf)%nat → returns (multiple_services_command_base.read_services host n acc (buf, off)).
Proof.
  revert acc off. induction n as [|n IH]; intros acc off Hl; [by eexists|].
  cbn [multiple_services_command_base.read_services]. destruct (get_service_any off) as [s ->]; [lia|].
  cbn [mbind result_bind]. apply IH. lia.
Qed.

Lemma read_credentials_any n acc off :
  (off + n * 8 ≤ length buf)%nat →
  returns (update_security_credentials_command.read_credentials host n acc (buf, off)).
Proof.
  revert acc off. induction n as [|n IH]; intros acc off Hl; [by eexists|].
  cbn [update_security_credentials_command.read_credentials]. repeat get_one. apply IH. lia.
Qed.

Lemma read_groups_any n acc off :
  (off + n * 2 ≤ length buf)%nat →
  ∃ g, register_event.read_groups host n acc (buf, off) = Ok (g, (buf, (off + n * 2)%nat)).
Proof.
  revert acc off. induction n as [|n IH]; intros acc off Hl; cbn [register_event.read_groups].
  { exists acc. do 3 f_equal. lia. }
  get_one. edestruct IH as [g ->]; [lia|]. eexists. do 3 f_equal. lia.
Qed.

(** A registration is read, or an error is reported; it takes bytes. *)
Lemma register_event_any off :
  ∃ err e off', register_event.deserialize host (buf, off) = Ok (err, e, (buf, off'))
    ∧ (err = ERROR_OK → (off + 12 ≤ off' ≤ length buf)%nat).
Proof.
  unfold register_event.deserialize. cbn [fst snd]. unfold register_event.STATIC_SIZE.
  destruct (decide _) as [|Hl]; [by do 3 eexists|]. repeat get_one. cbn [fst snd].
  destruct (decide _) as [|Hg]; [by do 3 eexists|].
  edestruct read_groups_any as [g ->]; [|cbn [mbind result_bind]; do 3 eexists; split; [done|]]; lia.
Qed.

Lemma read_registrations_any fuel l off :
  (length buf - off ≤ fuel)%nat → returns (register_events_command.read_registrations fuel host l (buf, off)).
Proof.
  revert l off. induction fuel as [|fuel IH]; intros l off Hf;
    cbn [register_events_command.read_registrations fst snd]; destruct (decide _); try (by eexists); [lia|].
  destruct (register_event_any off) as (err & e & off' & -> & Ho). cbn [mbind result_bind].
  destruct err; try by eexists. destruct Ho; [done|]. apply IH. lia.
Qed.

Lemma read_string_any remaining off :
  (off + remaining ≤ length buf)%nat →
  ∃ r, config_command.read_string host remaining (buf, off) = Ok r
    ∧ match r with
      | Some (_, rem', (b, off')) => b = buf ∧ (rem' < remaining)%nat ∧ (off' + rem' ≤ length buf)%nat
      | None => True
      end.
Proof.
  intros Hl. unfold config_command.read_string. destruct (decide _) as [|H4]; [by eexists|].
  unfold config_command.read_size. get_one. cbn [fst snd].
  set (size := match host with le => v | be => Z.shiftl v 32 end).
  destruct ((Z.of_nat (remaining - 4) <? size) || (Z.of_nat (length buf) <? Z.of_nat (off + 4) + size)) eqn:E;
    [by eexists|].
  apply orb_false_iff in E as [E1%Z.ltb_ge E2%Z.ltb_ge].
  unfold get_bytes. cbn [fst snd]. rewrite rd_ok by lia. cbn [mbind result_bind]. eexists. split; [done|]. split_and!; [done|lia|lia].
Qed.

Lemma read_configs_any fuel remaining l off :
  (off + remaining ≤ length buf)%nat → (remaining ≤ fuel)%nat →
  returns (config_command.read_configs fuel host remaining l (buf, off)).
Proof.
  revert remaining l off. induction fuel as [|fuel IH]; intros remaining l off Hl Hf;
    cbn [config_command.read_configs]; destruct (decide _); try (by eexists); [lia|].
  destruct (read_string_any remaining off Hl) as ([[[k r1] [b1 o1]]|] & -> & H1); cbn [mbind result_bind]; [|by eexists].
  destruct H1 as (-> & Hr1 & H1).
  destruct (read_string_any r1 o1 H1) as ([[[v r2] [b2 o2]]|] & -> & H2); cbn [mbind result_bind]; [|by eexists].
  destruct H2 as (-> & Hr2 & H2). apply IH; lia.
Qed.
End any_buffer.

(** The classes that compare the length with everything they read. *)
Definition checks_length {addr} (o : any_command.t addr) : bool :=
  match o with
  | any_command.assign_client _ | any_command.subscribe _ | any_command.routing_info _ => false
  | _ => true
  end.

(** Compares the sizes of a class. *)
Ltac sizes :=
  unfold COMMAND_HEADER_SIZE, SERVICE_SIZE, subscribe_command_base.PAYLOAD_SIZE in *; cbn [fst snd] in *; lia.

Ltac fixed_layout :=
  apply open_any; [sizes|]; intros h Hl; 
  repeat match goal with |- context [get ?host ?n (?buf, ?off)] =>
    destruct (get_any host n buf off) as [? ->]; [sizes|]; cbn [mbind result_bind] end;
  by eexists.

Lemma returns_read {A addr} (f : A → any_command.t addr) r : returns r → returns (any_command.read f r).
Proof. intros [[err c] ->]. by eexists. Qed.

(** (C36) Deserializing an arbitrary buffer into an object of any modelled class
    (all but the two that carry security policies) other than the three that do
    not compare the length with what they read ([checks_length]) reads no byte
    outside the buffer, whatever the header says: the call returns an error or
    the values. *)
Theorem protocol_deserialize_safe {addr : Type} `{HA : IpAddress addr} (host : endianess_e)
    (o : any_command.t addr) (buf : bytes) (Hc : checks_length o = true) :
  ∃ err o', any_command.deserialize host o buf = Ok (err, o').
Proof.
  assert (returns (any_command.deserialize host o buf)) as [[err o'] E]; [|by do 2 eexists].
  destruct o; try done; cbn [any_command.deserialize]; apply returns_read; try fixed_layout.
  - unfold service_command_base.deserialize. destruct (decide _) as [|Hl]; [by eexists|].
    destruct (header_any host buf (service_command_base.head c)) as [[err h] ->]; [sizes|].
    cbn [mbind result_bind]. change COMMAND_POSITION_PAYLOAD with 9%nat.
    destruct (get_service_any host buf 9) as [s ->]; [sizes|]. by eexists.
  - apply open_any; [sizes|]. intros h Hl. cbv beta zeta.
    edestruct (read_services_any host buf) as [l ->]; [|by eexists].
    change SERVICE_SIZE with 9%nat. unfold COMMAND_POSITION_PAYLOAD, COMMAND_HEADER_SIZE in *.
    pose proof (Nat.Div0.mul_div_le (length buf - 9) 9). lia.
  - apply open_any; [sizes|]. intros h Hl. unfold subscribe_command_base.read_payload.
    repeat match goal with |- context [get ?host ?n (?buf, ?off)] =>
      destruct (get_any host n buf off) as [? ->]; [sizes|]; cbn [mbind result_bind] end. by eexists.
  - apply open_any; [sizes|]. intros h Hl.
    do 4 match goal with |- context [get ?host ?n (?buf, ?off)] =>
      destruct (get_any host n buf off) as [? ->]; [sizes|]; cbn [mbind result_bind] end.
    unfold get_bytes. cbn [fst snd]. rewrite rd_ok by sizes. by eexists.
  - apply open_any; [sizes|]. intros h Hl.
    destruct (read_registrations_any host buf (length buf) [] 9) as [[err l] ->]; [lia|by eexists].
  - apply open_any; [sizes|]. intros h Hl. destruct (_ <? _) eqn:E; [by eexists|]. apply Z.ltb_ge in E.
    edestruct (read_credentials_any host buf) as [l ->]; [|by eexists].
    destruct (decide (command.size_ h < 0)) as [Hneg|Hpos].
    + assert (command.size_ h / 8 < 0) by (apply Z.div_lt_upper_bound; lia). unfold COMMAND_HEADER_SIZE in Hl. lia.
    + pose proof (Z.mul_div_le (command.size_ h) 8). lia.
  - apply open_any; [sizes|]. intros h Hl. destruct (negb _); [by eexists|]. cbn zeta.
    destruct (_ <? _) eqn:E; [by eexists|]. apply Z.ltb_ge in E.
    edestruct (read_configs_any host buf) as [[err l] ->]; [unfold COMMAND_HEADER_SIZE in Hl; lia..|by eexists].
Qed.

Lemma protocol_deserialize_safe_witness :
  ∃ err o', any_command.deserialize (addr := ip.t) le (any_command.config (config_command.mk (command.create id_e.CONFIG_ID) []))
              [0x31; 0; 0; 0; 0; 5; 0; 0; 0; 255; 255; 255; 255; 7] = Ok (err, o').
Proof.
  apply (protocol_deserialize_safe le (any_command.config (config_command.mk (command.create id_e.CONFIG_ID) []))).
  reflexivity.
Defined.

(** ** Rejections *)

Section reject.
Context (host : endianess_e) (buf : bytes) (b : Z).

(** The buffer cannot hold the header or starts with another identifier. *)
Definition foreign (h : command.t) : Prop :=
  (length buf < 9)%nat ∨ (buf !! 0%nat = Some b ∧ b ≠ command.id_ h ∧ command.id_ h ≠ id_e.UNKNOWN_ID).

Lemma open_rejects {A} its_size h0 (obj : command.t → A) payload :
  (9 ≤ its_size)%nat → foreign h0 →
  ∃ err, err ≠ ERROR_OK ∧ command.open host its_size h0 buf obj payload = Ok (err, obj h0).
Proof.
  intros H9 Hf. destruct (decide (length buf < its_size)%nat) as [Hl|Hl].
  { exists ERROR_NOT_ENOUGH_BYTES. split; [done|]. by apply open_short. }
  destruct Hf as [?|(Hb & Hne & Hk)]; [lia|]. exists ERROR_MISMATCH. split; [done|].
  apply (open_mismatch _ _ _ _ _ _ b); (done || lia).
Qed.

Lemma service_rejects (c : service_command_base.t) :
  foreign (service_command_base.head c) →
  ∃ err s, err ≠ ERROR_OK
    ∧ service_command_base.deserialize host c buf = Ok (err, service_command_base.mk (service_command_base.head c) s).
Proof.
  intros Hf. unfold service_command_base.deserialize. destruct (decide _) as [Hl|Hl].
  { destruct c as [h s]. by exists ERROR_NOT_ENOUGH_BYTES, s. }
  unfold COMMAND_HEADER_SIZE, SERVICE_SIZE in Hl. destruct Hf as [?|(Hb & Hne & Hk)]; [lia|].
  unfold command.deserialize, rd1. rewrite Hb. cbn [mbind result_bind].
  rewrite !(proj2 (Z.eqb_neq _ _)) by done. cbn [mbind result_bind]. change COMMAND_POSITION_PAYLOAD with 9%nat.
  destruct (get_service_any host buf 9) as [s ->]; [lia|]. by exists ERROR_MISMATCH, s.
Qed.
End reject.

Lemma read_rejects {A addr} (f : A → any_command.t addr) (obj : command.t → A) r h :
  (∃ err, err ≠ ERROR_OK ∧ r = Ok (err, obj h)) → any_command.head (f (obj h)) = h →
  ∃ err o', any_command.read f r = Ok (err, o') ∧ err ≠ ERROR_OK ∧ any_command.head o' = h.
Proof. intros (err & He & ->) Hh. by exists err, (f (obj h)). Qed.

(** No class accepts a command of another: a buffer that is shorter than
    the header, or whose first byte is not the identifier of the object,
    gives an error and leaves the header of the object as it was.  (Only
    [dummy_command], which has the identifier [UNKNOWN_ID], takes any.) *)
Theorem protocol_rejects_foreign {addr : Type} `{HA : IpAddress addr} (host : endianess_e)
    (o : any_command.t addr) (buf : bytes) (b : Z)
    (Hf : (length buf < 9)%nat
          ∨ (buf !! 0%nat = Some b ∧ b ≠ command.id_ (any_command.head o)
             ∧ command.id_ (any_command.head o) ≠ id_e.UNKNOWN_ID)) :
  ∃ err o', any_command.deserialize host o buf = Ok (err, o')
    ∧ err ≠ ERROR_OK ∧ any_command.head o' = any_command.head o.
Proof.
  assert (foreign buf b (any_command.head o)) as Hg by done. clear Hf.
  destruct o; cbn [any_command.deserialize any_command.head] in *.
  all: try (eapply read_rejects; [eapply open_rejects; [|exact Hg]; sizes|done]).
  destruct (service_rejects host buf b c Hg) as (err & s & He & E). rewrite E.
  by exists err, (any_command.offer (service_command_base.mk (service_command_base.head c) s)).
Qed.

Lemma protocol_rejects_foreign_witness :
  ∃ err o', any_command.deserialize (addr := ip.t) le (any_command.offer offer_service_command)
              [0x11; 0; 0; 1; 0; 9; 0; 0; 0; 1; 2; 3; 4; 5; 6; 7; 8; 9] = Ok (err, o')
    ∧ err ≠ ERROR_OK ∧ any_command.head o' = command.create id_e.OFFER_SERVICE_ID.
Proof.
  apply (protocol_rejects_foreign le (any_command.offer offer_service_command) _ 0x11).
  right. split_and!; [reflexivity|done|done].
Defined.

(** ** Reads and writes that are not checked *)

Lemma get_oob host n (buf : bytes) off : (length buf < off + n)%nat → get host n (buf, off) = Ub oob_read.
Proof. intros. unfold get, get_bytes. cbn [fst snd]. unfold rd. by rewrite decide_False by lia. Qed.

Lemma assign_client_overread host h (name : bytes) :
  header_wf h → 0 < command.size_ h →
  assign_client_command.deserialize host (assign_client_command.mk h name) (header_bytes host h) = Ub oob_read.
Proof.
  intros Hh Hs.
  rewrite <- (app_nil_r (header_bytes host h)). unfold assign_client_command.deserialize.
  rewrite open_ok by (done || sizes). rewrite (proj2 (Z.ltb_lt _ _)) by lia.
  by rewrite decide_True by (rewrite length_app, command_bytes_length; unfold COMMAND_POSITION_PAYLOAD; cbn; lia).
Qed.

Lemma subscribe_overread host h (sub : subscribe_command_base.t) (extra : bytes) :
  header_wf h → subscription_wf sub → length extra = 10%nat →
  subscribe_command.deserialize host (subscribe_command.mk (subscribe_command_base.with_head sub h) None)
    (header_bytes host h ++ enc host (subscribe_command_base.fields sub) ++ extra) = Ub oob_read.
Proof.
  intros Hh Hsub Hextra.
  unfold subscribe_command.deserialize. cbn [subscribe_command.base subscribe_command_base.head subscribe_command_base.with_head].
  rewrite open_ok; [|done|done|].
  2:{ rewrite length_app, enc_length. change (sum_list_with fst _) with 11%nat. unfold subscribe_command.PAYLOAD_SIZE. sizes. }
  rewrite read_subscription_at by done. cbn [mbind result_bind].
  unfold subscribe_command.read_filter. set (all := header_bytes host h ++ _).
  assert (length all = 30%nat) as Hall.
  { unfold all. rewrite !length_app, command_bytes_length, enc_length, Hextra. done. }
  cbn [fst snd]. change (COMMAND_HEADER_SIZE + subscribe_command.PAYLOAD_SIZE)%nat with 20%nat.
  rewrite decide_True by lia.
  destruct (get_any host 1 all 20) as [v1 ->]; [lia|]. cbn [mbind result_bind].
  destruct (get_any host 1 all (20 + 1)) as [v2 ->]; [lia|]. cbn [mbind result_bind].
  destruct (get_any host 8 all (20 + 1 + 1)) as [v3 ->]; [lia|]. cbn [mbind result_bind fst].
  rewrite Hall. cbn [subscribe_command.read_ignore fst snd]. rewrite decide_False by lia. cbn [mbind result_bind].
  by rewrite get_oob by lia.
Qed.

Lemma routing_overread {addr} `{IpAddress addr} host h (entry : bytes) (type : Z) :
  header_wf h → length entry = 6%nat → 1 < type < 255 →
  routing_info_command.deserialize host (routing_info_command.mk (addr := addr) h [])
    (header_bytes host h ++ type :: entry) = Ub oob_read.
Proof.
  intros Hh Hentry Htype.
  unfold routing_info_command.deserialize. cbn [routing_info_command.head].
  rewrite open_ok by (done || sizes). set (all := header_bytes host h ++ type :: entry).
  assert (length all = 16%nat) as Hall by (unfold all; rewrite length_app, command_bytes_length; cbn; lia).
  rewrite Hall. change 16%nat with (S 15). generalize 15%nat. intros fuel.
  assert (at_cursor (header_bytes host h) (type :: entry) = (all, 9%nat)) as ->
    by (unfold at_cursor; by rewrite command_bytes_length).
  cbn [routing_info_command.read_entries fst snd]. rewrite decide_True by lia.
  unfold routing_info_entry.deserialize. cbn [fst snd]. rewrite decide_False by lia.
  assert (get host 1 (all, 9%nat) = Ok (type, (all, 10%nat))) as ->.
  { unfold get, get_bytes. cbn [fst snd]. rewrite rd_ok by lia. cbn [mbind result_bind].
    unfold all. rewrite drop_app_ge, command_bytes_length by (rewrite command_bytes_length; lia).
    change (take 1 (drop (9 - 9) (type :: entry))) with [type].
    assert (bithelper.val_of host [type] = type) as -> by (unfold bithelper.val_of, be_val; destruct host; cbn; lia).
    done. }
  cbn [mbind result_bind]. unfold routing_info_entry_type_e.RIE_UNKNOWN. rewrite (proj2 (Z.eqb_neq _ _)) by lia.
  destruct (get_any host 4 all 10) as [v ->]; [lia|]. cbn [mbind result_bind].
  unfold routing_info_entry.has_services, routing_info_entry_type_e.RIE_DELETE_CLIENT.
  rewrite (proj2 (Z.ltb_lt _ _)) by lia. by rewrite get_oob by lia.
Qed.

Lemma distribute_overwrite host h (buf : bytes) :
  distribute_security_policies_command.serialize host (distribute_security_policies_command.mk h []) buf
  = Ub oob_write.
Proof.
  unfold distribute_security_policies_command.serialize, command.start. cbn [distribute_security_policies_command.payload_ length].
  unfold COMMAND_HEADER_SIZE. rewrite (proj2 (Z.ltb_ge _ _)) by (unfold MAX_COMMAND_SIZE; lia).
  assert (length (resize (9 + 0) buf) = 9%nat) as HR by (unfold resize; len).
  rewrite command_serialize_ok by lia. cbn [mbind result_bind]. unfold put_bytes, wr. cbn [fst snd].
  by rewrite decide_False by (rewrite length_app, command_bytes_length, length_drop, HR; unfold COMMAND_POSITION_PAYLOAD; cbn; lia).
Qed.

(** The three classes left out above do read behind the buffer, and one
    class writes behind it: a client name whose announced bytes are missing; a
    subscription followed by exactly the ten bytes of a filter without its last
    member; a routing entry with services that ends after its minimum of seven
    bytes; and the distribution of policies without a payload, which clears
    four bytes behind the header it has just sized the buffer for. *)
Theorem protocol_unchecked_accesses {addr : Type} `{HA : IpAddress addr} (host : endianess_e) (h : command.t)
    (name : bytes) (sub : subscribe_command_base.t) (extra entry buf : bytes) (type : Z)
    (Hh : header_wf h) (Hsub : subscription_wf sub) (Hextra : length extra = 10%nat)
    (Hentry : length entry = 6%nat) (Htype : 1 < type < 255) :
  (0 < command.size_ h →
   assign_client_command.deserialize host (assign_client_command.mk h name) (header_bytes host h) = Ub oob_read)
  ∧ subscribe_command.deserialize host
      (subscribe_command.mk (subscribe_command_base.with_head sub h) None)
      (header_bytes host h ++ enc host (subscribe_command_base.fields sub) ++ extra) = Ub oob_read
  ∧ routing_info_command.deserialize host (routing_info_command.mk (addr := addr) h [])
      (header_bytes host h ++ type :: entry) = Ub oob_read
  ∧ distribute_security_policies_command.serialize host
      (distribute_security_policies_command.mk h []) buf = Ub oob_write.
Proof.
  split_and!; [by apply assign_client_overread|by apply subscribe_overread|by apply routing_overread|].
  apply distribute_overwrite.
Qed.

Lemma protocol_unchecked_accesses_witness :
  let h := command.mk id_e.SUBSCRIBE_ID 0 1 1 in
  (0 < command.size_ h →
   assign_client_command.deserialize le (assign_client_command.mk h []) (header_bytes le h) = Ub oob_read)
  ∧ subscribe_command.deserialize le
      (subscribe_command.mk (subscribe_command_base.with_head (subscribe_command_base.create id_e.SUBSCRIBE_ID) h) None)
      (header_bytes le h ++ enc le (subscribe_command_base.fields (subscribe_command_base.create id_e.SUBSCRIBE_ID))
         ++ replicate 10 0) = Ub oob_read
  ∧ routing_info_command.deserialize le (routing_info_command.mk (addr := ip.t) h [])
      (header_bytes le h ++ 2 :: replicate 6 0) = Ub oob_read
  ∧ distribute_security_policies_command.serialize le
      (distribute_security_policies_command.mk h []) [] = Ub oob_write.
Proof.
  apply (protocol_unchecked_accesses le (command.mk id_e.SUBSCRIBE_ID 0 1 1) []
    (subscribe_command_base.create id_e.SUBSCRIBE_ID) (replicate 10 0) (replicate 6 0) [] 2).
  - split_and!; by_eval.
  - split_and!; by_eval.
  - reflexivity.
  - reflexivity.
  - lia.
Defined.

(** ** The loops end *)

Section loops.
Context (host : endianess_e) (buf : bytes).

Lemma get_inv n off v cur : get host n (buf, off) = Ok (v, cur) → cur = (buf, (off + n)%nat).
Proof.
  unfold get, get_bytes. cbn [fst snd]. destruct (rd buf off n); cbn [mbind result_bind]; [|done..]. by intros [=].
Qed.

Lemma get_bytes_inv n off v cur : get_bytes n (buf, off) = Ok (v, cur) → cur = (buf, (off + n)%nat).
Proof. unfold get_bytes. cbn [fst snd]. destruct (rd buf off n); cbn [mbind result_bind]; [|done..]. by intros [=]. Qed.

(** Splits a run of gets that returned. *)
Ltac invert_gets :=
  repeat match goal with
  | H : mbind _ (get host ?n (buf, ?off)) = Ok _ |- _ =>
      let E := fresh "E" in let v := fresh "v" in let cur := fresh "cur" in
      destruct (get host n (buf, off)) as [[v cur]| | |] eqn:E; cbn [mbind result_bind] in H; [|discriminate H..];
      apply get_inv in E as ->
  | H : mbind _ (get_bytes ?n (buf, ?off)) = Ok _ |- _ =>
      let E := fresh "E" in let v := fresh "v" in let cur := fresh "cur" in
      destruct (get_bytes n (buf, off)) as [[v cur]| | |] eqn:E; cbn [mbind result_bind] in H; [|discriminate H..];
      apply get_bytes_inv in E as ->
  end.

(** [n] rounds are enough: they are never used up, and more change nothing. *)
Definition ends_within {A} (n : nat) (loop : nat → result A) : Prop :=
  loop n ≠ Ub endless ∧ ∀ fuel, (n ≤ fuel)%nat → loop fuel = loop n.

Lemma ends_withinI {A} n (loop : nat → result A) :
  (∀ f, (n ≤ f)%nat → loop f ≠ Ub endless) →
  (∀ f1 f2, (n ≤ f1)%nat → (n ≤ f2)%nat → loop f1 = loop f2) → ends_within n loop.
Proof. intros H1 H2. split; [by apply H1|auto]. Qed.

Lemma returns_ends {A} (r : result A) : returns r → r ≠ Ub endless.
Proof. by intros [a ->]. Qed.

Lemma registrations_fuel f1 f2 l off :
  (length buf - off ≤ f1)%nat → (length buf - off ≤ f2)%nat →
  register_events_command.read_registrations f1 host l (buf, off)
  = register_events_command.read_registrations f2 host l (buf, off).
Proof.
  revert f2 l off. induction f1 as [|f1 IH]; intros [|f2] l off H1 H2; cbn [register_events_command.read_registrations fst snd];
    destruct (decide _); try done; [lia..|].
  destruct (register_event_any host buf off) as (err & e & off' & -> & Ho). cbn [mbind result_bind].
  destruct err; try done. destruct Ho; [done|]. apply IH; lia.
Qed.

Lemma configs_fuel f1 f2 remaining l off :
  (off + remaining ≤ length buf)%nat → (remaining ≤ f1)%nat → (remaining ≤ f2)%nat →
  config_command.read_configs f1 host remaining l (buf, off) = config_command.read_configs f2 host remaining l (buf, off).
Proof.
  revert f2 remaining l off. induction f1 as [|f1 IH]; intros [|f2] remaining l off Hl H1 H2; cbn [config_command.read_configs];
    destruct (decide _); try done; [lia..|].
  destruct (read_string_any host buf remaining off Hl) as ([[[k r1] [b1 o1]]|] & -> & Hk); cbn [mbind result_bind]; [|done].
  destruct Hk as (-> & Hr1 & Hk).
  destruct (read_string_any host buf r1 o1 Hk) as ([[[v r2] [b2 o2]]|] & -> & Hv); cbn [mbind result_bind]; [|done].
  destruct Hv as (-> & Hr2 & Hv). apply IH; lia.
Qed.

Lemma ignore_fuel f1 f2 l off :
  (length buf - off ≤ f1)%nat → (length buf - off ≤ f2)%nat →
  subscribe_command.read_ignore f1 host l (buf, off) = subscribe_command.read_ignore f2 host l (buf, off).
Proof.
  revert f2 l off. induction f1 as [|f1 IH]; intros [|f2] l off H1 H2; cbn [subscribe_command.read_ignore fst snd];
    destruct (decide _); try done; [lia..|].
  destruct (get_any host 8 buf off) as [k ->]; [lia|]. cbn [mbind result_bind]. destruct (existsb _ _); [done|].
  destruct (get_any host 1 buf (off + 8)) as [v ->]; [lia|]. cbn [mbind result_bind]. apply IH; lia.
Qed.

Lemma ignore_any fuel l off :
  (length buf - off ≤ fuel)%nat → returns (subscribe_command.read_ignore fuel host l (buf, off)).
Proof.
  revert l off. induction fuel as [|fuel IH]; intros l off Hf; cbn [subscribe_command.read_ignore fst snd];
    destruct (decide _); try (by eexists); [lia|].
  destruct (get_any host 8 buf off) as [k ->]; [lia|]. cbn [mbind result_bind]. destruct (existsb _ _); [by eexists|].
  destruct (get_any host 1 buf (off + 8)) as [v ->]; [lia|]. cbn [mbind result_bind]. apply IH; lia.
Qed.

Lemma read_services_moves n acc off l cur :
  routing_info_entry.read_services host n acc (buf, off) = Ok (l, cur) →
  ∃ off', cur = (buf, off') ∧ (off ≤ off')%nat.
Proof.
  revert acc off. induction n as [|n IH]; intros acc off; cbn [routing_info_entry.read_services].
  { intros [= <- <-]. by eexists. }
  destruct (get_service host (buf, off)) as [[s cur']| | |] eqn:E; cbn [mbind result_bind]; [|done..].
  unfold get_service in E. invert_gets. injection E as <- <-. intros (off' & -> & Ho)%IH. eexists. split; [done|lia].
Qed.

Lemma read_address_moves {addr} `{IpAddress addr} size off err (a : addr) port cur :
  routing_info_entry.read_address host size (buf, off) = Ok (err, a, port, cur) →
  ∃ off', cur = (buf, off') ∧ (off ≤ off')%nat.
Proof.
  unfold routing_info_entry.read_address. intros E.
  repeat (case_match; invert_gets); simplify_eq; eexists; (split; [done|lia]).
Qed.

Lemma entry_moves {addr} `{IpAddress addr} off (e : routing_info_entry.t addr) cur :
  routing_info_entry.deserialize host (buf, off) = Ok (ERROR_OK, e, cur) →
  ∃ off', cur = (buf, off') ∧ (off < off')%nat.
Proof.
  unfold routing_info_entry.deserialize. cbn [fst snd]. intros E. case_match; [done|]. invert_gets.
  case_match; [done|]. invert_gets.
  destruct (routing_info_entry.has_services _); cbn [mbind result_bind] in E; invert_gets.
  all: destruct (routing_info_entry.read_address _ _ _) as [[[[err a] port] cur']| | |] eqn:Ea;
    cbn [mbind result_bind] in E; [|done..].
  all: apply read_address_moves in Ea as (off' & -> & Ho); destruct err; try done; cbn [fst snd] in E.
  - case_match; [done|]. invert_gets. cbn [fst snd] in E. case_match; [done|].
    destruct (routing_info_entry.read_services _ _ _ _) as [[l cur']| | |] eqn:Es; cbn [mbind result_bind] in E; [|done..].
    apply read_services_moves in Es as (off2 & -> & Ho2). simplify_eq. eexists. split; [done|lia].
  - simplify_eq. eexists. split; [done|lia].
Qed.

Lemma entries_fuel {addr} `{IpAddress addr} f1 f2 (l : list (routing_info_entry.t addr)) off :
  (length buf - off ≤ f1)%nat → (length buf - off ≤ f2)%nat →
  routing_info_command.read_entries f1 host l (buf, off) = routing_info_command.read_entries f2 host l (buf, off).
Proof.
  revert f2 l off. induction f1 as [|f1 IH]; intros [|f2] l off H1 H2; cbn [routing_info_command.read_entries fst snd];
    destruct (decide _); try done; [lia..|].
  destruct (routing_info_entry.deserialize host (buf, off)) as [[[err e] cur]| | |] eqn:E; cbn [mbind result_bind]; [|done..].
  destruct err; try done. apply entry_moves in E as (off' & -> & Ho). apply IH; lia.
Qed.

(** Nothing but a loop is endless. *)
Lemma ends_bind {A B} (r : result A) (k : A → result B) :
  r ≠ Ub endless → (∀ a, k a ≠ Ub endless) → (r ≫= k) ≠ Ub endless.
Proof. intros Hr Hk. destruct r; cbn [mbind result_bind]; [apply Hk|done..|congruence]. Qed.

Lemma get_bytes_ends n cur : get_bytes n cur ≠ Ub endless.
Proof. apply ends_bind; [|done]. unfold rd. by case_decide. Qed.

Lemma get_ends n cur : get host n cur ≠ Ub endless.
Proof. apply ends_bind; [apply get_bytes_ends|]. by intros []. Qed.

Ltac ends :=
  repeat first
    [ done | apply get_ends | apply get_bytes_ends
    | match goal with |- (match ?x with _ => _ end) ≠ _ => destruct x end
    | apply ends_bind; [|intros ?] ].

Lemma entry_ends {addr} `{IpAddress addr} cur :
  routing_info_entry.deserialize (addr := addr) host cur ≠ Ub endless.
Proof.
  assert (∀ n l c, routing_info_entry.read_services host n l c ≠ Ub endless) as Hs.
  { induction n as [|n IH]; intros l c; cbn [routing_info_entry.read_services]; [done|].
    unfold get_service. ends. }
  unfold routing_info_entry.deserialize, routing_info_entry.read_address. ends.
Qed.

Lemma entries_end {addr} `{IpAddress addr} fuel (l : list (routing_info_entry.t addr)) off :
  (length buf - off ≤ fuel)%nat → routing_info_command.read_entries fuel host l (buf, off) ≠ Ub endless.
Proof.
  revert l off. induction fuel as [|fuel IH]; intros l off Hf; cbn [routing_info_command.read_entries fst snd];
    destruct (decide _); try done; [lia|].
  pose proof (entry_ends (addr := addr) (buf, off)) as He.
  destruct (routing_info_entry.deserialize host (buf, off)) as [[[err e] cur]| | |] eqn:E;
    cbn [mbind result_bind]; [|done|done|congruence].
  destruct err; try done. apply entry_moves in E as (off' & -> & Ho). apply IH. lia.
Qed.
End loops.

(** (C38) The four loops over the rest of a buffer (registrations, the ignored
    bytes of a filter, routing entries, configurations) end on every buffer: each
    round consumes bytes or leaves the loop, so as many rounds as there are bytes
    left are never used up ([Ub endless]), and more do not change the result. *)
Theorem protocol_loops_end {addr : Type} `{HA : IpAddress addr} (host : endianess_e) (buf : bytes)
    (off remaining : nat) (regs : list register_event.t) (ignore : list (Z * Z))
    (entries : list (routing_info_entry.t addr)) (configs : list (bytes * bytes))
    (Hrem : (off + remaining ≤ length buf)%nat) :
  ends_within (length buf - off)
    (λ fuel, register_events_command.read_registrations fuel host regs (buf, off))
  ∧ ends_within (length buf - off) (λ fuel, subscribe_command.read_ignore fuel host ignore (buf, off))
  ∧ ends_within (length buf - off) (λ fuel, routing_info_command.read_entries fuel host entries (buf, off))
  ∧ ends_within remaining (λ fuel, config_command.read_configs fuel host remaining configs (buf, off)).
Proof.
  split_and!; apply ends_withinI; intros.
  - by apply returns_ends, read_registrations_any.
  - by apply registrations_fuel.
  - by apply returns_ends, ignore_any.
  - by apply ignore_fuel.
  - by apply entries_end.
  - by apply entries_fuel.
  - by apply returns_ends, read_configs_any.
  - by apply configs_fuel.
Qed.

Lemma protocol_loops_end_witness :
  subscribe_command.read_ignore 3 le [] ([1; 2; 3; 4], 1%nat) ≠ Ub endless
  ∧ config_command.read_configs 100 le 3 [] ([1; 2; 3; 4], 1%nat)
    = config_command.read_configs 3 le 3 [] ([1; 2; 3; 4], 1%nat).
Proof.
  destruct (protocol_loops_end (addr := ip.t) le [1; 2; 3; 4] 1 3 [] [] [] [])
    as (_ & [H1 _] & _ & [_ H2]); [cbn; lia|].
  split; [exact H1|]. apply (H2 100%nat). lia.
Defined.
