(* ===== verification/Sd.v ===== *)
(** * Service discovery messages
    ([service_discovery/src/message_impl.cpp], [entry_impl.cpp],
    [serviceentry_impl.cpp], [eventgroupentry_impl.cpp], [option_impl.cpp] and the
    option classes, [deserializer.cpp])

    A service discovery message is a SOME/IP header, a flags byte, an array of
    16 byte entries and an array of options.  An entry refers to options by two
    runs of indices.  The objects a message consists of are shared pointers:
    options are compared by address when an entry looks up the index of one, and
    the options of a new entry are visited in the order of their addresses, so
    an option here comes with its address.  An entry asks the message that owns
    it for indices; the operations that do so take that message's options.

    The deserializing methods fill an object that its creator deletes when they
    return false; they are readers that give [None] then.  [alloc] and [reserve]
    are those of [Message.v]. *)

From stdpp Require Import base list sorting.
From Stdlib Require Import ZArith Lia.
From S2P Require Import Prelude BitHelper Serialization Message.

(** ** Readers *)

Definition rdr (A : Type) : Type := deserializer.t → result (option A * deserializer.t).

Definition rret {A} (a : A) : rdr A := λ d, Ok (Some a, d).
Definition rfail {A} : rdr A := λ d, Ok (None, d).

(** [is_successful = is_successful && from->deserialize(x)]: the reads that
    follow a failed one are skipped. *)
Definition rbind {A B} (m : rdr A) (k : A → rdr B) : rdr B := λ d,
  '(o, d) ← m d;
  match o with Some a => k a d | None => Ok (None, d) end.

(** [from->deserialize(x)] with the result ignored: [x] keeps its value [v]. *)
Definition rtry {A} (v : A) (m : rdr A) : rdr A := λ d,
  '(o, d) ← m d; Ok (Some (default v o), d).

Declare Scope rdr_scope.
Delimit Scope rdr_scope with rdr.
Notation "x <~ m ; k" := (rbind m (λ x, k%rdr))
  (at level 20, m at level 100, k at level 200, right associativity) : rdr_scope.
#[global] Open Scope rdr_scope.

(** A call whose result does not stop the next one: the results are combined
    with the first one's, as in [ok = a(); b(); return ok;]. *)
Definition bop_then {S} (m1 m2 : bop S) : bop S := λ s,
  '(b, s) ← m1 s; '(_, s) ← m2 s; Ok (b, s).

(** ** Enumerations and sizes ([enumeration_types.hpp], [defines.hpp]) *)

Module option_type_e.
Definition CONFIGURATION : Z := 0x1.
Definition LOAD_BALANCING : Z := 0x2.
Definition PROTECTION : Z := 0x3.
Definition IP4_ENDPOINT : Z := 0x4.
Definition IP6_ENDPOINT : Z := 0x6.
Definition IP4_MULTICAST : Z := 0x14.
Definition IP6_MULTICAST : Z := 0x16.
Definition SELECTIVE : Z := 0x20.
Definition UNKNOWN : Z := 0xFF.
End option_type_e.

Module entry_type_e.
Definition FIND_SERVICE : Z := 0x00.
Definition OFFER_SERVICE : Z := 0x01.
Definition REQUEST_SERVICE : Z := 0x02.
Definition FIND_EVENT_GROUP : Z := 0x04.
Definition PUBLISH_EVENTGROUP : Z := 0x05.
Definition SUBSCRIBE_EVENTGROUP : Z := 0x06.
Definition SUBSCRIBE_EVENTGROUP_ACK : Z := 0x07.
Definition UNKNOWN : Z := 0xFF.
End entry_type_e.

Module layer_four_protocol_e.
Definition TCP : Z := 0x06.
Definition UDP : Z := 0x11.
Definition UNKNOWN : Z := 0xFF.
End layer_four_protocol_e.

Definition VSOMEIP_MAX_UDP_SD_PAYLOAD : Z := 1380.
Definition VSOMEIP_SOMEIP_SD_DATA_SIZE : Z := 12.
Definition VSOMEIP_SOMEIP_SD_ENTRY_LENGTH_SIZE : Z := 4.
Definition VSOMEIP_SOMEIP_SD_ENTRY_SIZE : Z := 16.
Definition VSOMEIP_SOMEIP_SD_OPTION_LENGTH_SIZE : Z := 4.
Definition VSOMEIP_SOMEIP_SD_OPTION_HEADER_SIZE : Z := 3.
Definition VSOMEIP_SOMEIP_SD_EMPTY_MESSAGE_SIZE : Z := 28.
Definition VSOMEIP_SD_IPV4_OPTION_LENGTH : Z := 0x0009.
Definition VSOMEIP_SD_IPV6_OPTION_LENGTH : Z := 0x0015.

(** ** [std::map<std::string, std::string>]

    A list with strictly increasing keys; [std::string] compares the characters
    as unsigned bytes, lexicographically. *)

Module string_map.
Fixpoint ltb (a b : bytes) : bool :=
  match a, b with
  | [], [] => false
  | [], _ :: _ => true
  | _ :: _, [] => false
  | x :: a, y :: b => (x <? y) || ((x =? y) && ltb a b)
  end.

Abbreviation t := (list (bytes * bytes)).

Fixpoint find (k : bytes) (m : t) : option bytes :=
  match m with
  | [] => None
  | (k', v) :: m => if bool_decide (k = k') then Some v else find k m
  end.

(** [m[k] = v] *)
Fixpoint assign (k v : bytes) (m : t) : t :=
  match m with
  | [] => [(k, v)]
  | (k', v') :: m' =>
      if ltb k k' then (k, v) :: m
      else if bool_decide (k = k') then (k, v) :: m'
      else (k', v') :: assign k v m'
  end.

Fixpoint erase (k : bytes) (m : t) : t :=
  match m with
  | [] => []
  | (k', v) :: m => if bool_decide (k = k') then m else (k', v) :: erase k m
  end.
End string_map.

(** ** Options *)

Module option_impl.
(** The members the subclasses add. *)
Inductive body : Type :=
| configuration_option_impl (configuration_ : string_map.t)
| load_balancing_option_impl (priority_ weight_ : Z)
| protection_option_impl (counter_ crc_ : Z)
| ipv4_option_impl (address_ : bytes) (protocol_ port_ : Z)
| ipv6_option_impl (address_ : bytes) (protocol_ port_ : Z)
| selective_option_impl (clients_ : list Z)
| unknown_option_impl (payload_ : bytes).

Record t : Type := mk { length_ : Z; type_ : Z; body_ : body }.

#[global] Instance body_eq_dec : EqDecision body.
Proof. solve_decision. Defined.
#[global] Instance t_eq_dec : EqDecision t.
Proof. solve_decision. Defined.

Definition get_size (o : t) : Z := u32 (length_ o + 3).

(** [option_impl::equals] *)
Definition base_equals (o other : t) : bool :=
  (type_ o =? type_ other) && (length_ o =? length_ other).

(** [ip_option_impl::equals]; the cast of the other option to an IP option
    throws when it is none. *)
Definition ip_equals (protocol_ port_ : Z) (o other : t) : result bool :=
  if base_equals o other then
    match body_ other with
    | ipv4_option_impl _ protocol port | ipv6_option_impl _ protocol port =>
        Ok ((protocol_ =? protocol) && (port_ =? port))
    | _ => Exn bad_cast
    end
  else Ok false.

Definition configuration_equals (configuration_ : string_map.t) (o other : t) : result bool :=
  if base_equals o other then
    match body_ other with
    | configuration_option_impl c => Ok (bool_decide (configuration_ = c))
    | _ => Exn bad_cast
    end
  else Ok false.

Definition load_balancing_equals (priority_ weight_ : Z) (o other : t) : result bool :=
  if base_equals o other then
    match body_ other with
    | load_balancing_option_impl p w => Ok ((priority_ =? p) && (weight_ =? w))
    | _ => Exn bad_cast
    end
  else Ok false.

Definition protection_equals (counter_ crc_ : Z) (o other : t) : result bool :=
  if base_equals o other then
    match body_ other with
    | protection_option_impl c r => Ok ((counter_ =? c) && (crc_ =? r))
    | _ => Exn bad_cast
    end
  else Ok false.

Definition ipv4_equals (address_ : bytes) (protocol_ port_ : Z) (o other : t) : result bool :=
  b ← ip_equals protocol_ port_ o other;
  if (b : bool) then
    match body_ other with
    | ipv4_option_impl a _ _ => Ok (bool_decide (address_ = a))
    | _ => Exn bad_cast
    end
  else Ok false.

Definition ipv6_equals (address_ : bytes) (protocol_ port_ : Z) (o other : t) : result bool :=
  b ← ip_equals protocol_ port_ o other;
  if (b : bool) then
    match body_ other with
    | ipv6_option_impl a _ _ => Ok (bool_decide (address_ = a))
    | _ => Exn bad_cast
    end
  else Ok false.

Definition selective_equals (clients_ : list Z) (o other : t) : result bool :=
  if base_equals o other then
    match body_ other with
    | selective_option_impl cs => Ok (bool_decide (clients_ = cs))
    | _ => Exn bad_cast
    end
  else Ok false.

(** The virtual [equals]; an unknown option has only the inherited one. *)
Definition equals (o other : t) : result bool :=
  match body_ o with
  | configuration_option_impl c => configuration_equals c o other
  | load_balancing_option_impl p w => load_balancing_equals p w o other
  | protection_option_impl c r => protection_equals c r o other
  | ipv4_option_impl a protocol port => ipv4_equals a protocol port o other
  | ipv6_option_impl a protocol port => ipv6_equals a protocol port o other
  | selective_option_impl cs => selective_equals cs o other
  | unknown_option_impl _ => Ok (base_equals o other)
  end.

(** *** The constructors *)

Definition new_configuration : t :=
  mk 2 option_type_e.CONFIGURATION (configuration_option_impl []).
Definition new_load_balancing : t :=
  mk (1 + 2 + 2) option_type_e.LOAD_BALANCING (load_balancing_option_impl 0 0).
Definition new_protection : t :=
  mk (1 + 4 + 4) option_type_e.PROTECTION (protection_option_impl 0 0).
Definition new_selective : t :=
  mk 1 option_type_e.SELECTIVE (selective_option_impl []).
Definition new_unknown : t := mk 0 option_type_e.UNKNOWN (unknown_option_impl []).

Definition protocol_of (is_reliable : bool) : Z :=
  if is_reliable then layer_four_protocol_e.TCP else layer_four_protocol_e.UDP.

(** [is_multicast] is the predicate of Boost's address classes. *)
Definition new_ipv4 (is_multicast : bytes → bool) (address : bytes) (port : Z)
    (is_reliable : bool) : t :=
  mk (1 + 4 + 1 + 1 + 2)
     (if is_multicast address then option_type_e.IP4_MULTICAST else option_type_e.IP4_ENDPOINT)
     (ipv4_option_impl address (protocol_of is_reliable) port).
Definition new_ipv6 (is_multicast : bytes → bool) (address : bytes) (port : Z)
    (is_reliable : bool) : t :=
  mk (1 + 16 + 1 + 1 + 2)
     (if is_multicast address then option_type_e.IP6_MULTICAST else option_type_e.IP6_ENDPOINT)
     (ipv6_option_impl address (protocol_of is_reliable) port).

(** *** The setters of the subclasses

    (each is a method of one class; on another class it is not called). *)

Definition add_item (key value : bytes) (o : t) : t :=
  match body_ o with
  | configuration_option_impl c =>
      mk (u16 (length_ o + Z.of_nat (length key) + Z.of_nat (length value) + 2)) (type_ o)
         (configuration_option_impl (string_map.assign key value c))
  | _ => o
  end.

Definition remove_item (key : bytes) (o : t) : t :=
  match body_ o with
  | configuration_option_impl c =>
      match string_map.find key c with
      | Some value =>
          mk (u16 (length_ o - (Z.of_nat (length key) + Z.of_nat (length value) + 2))) (type_ o)
             (configuration_option_impl (string_map.erase key c))
      | None => o
      end
  | _ => o
  end.

Definition get_keys (o : t) : list bytes :=
  match body_ o with configuration_option_impl c => c.*1 | _ => [] end.
Definition get_values (o : t) : list bytes :=
  match body_ o with configuration_option_impl c => c.*2 | _ => [] end.
Definition get_value (key : bytes) (o : t) : bytes :=
  match body_ o with
  | configuration_option_impl c => default [] (string_map.find key c)
  | _ => []
  end.

Definition set_load (priority weight : Z) (o : t) : t :=
  mk (length_ o) (type_ o) (load_balancing_option_impl priority weight).
Definition set_protection (counter crc : Z) (o : t) : t :=
  mk (length_ o) (type_ o) (protection_option_impl counter crc).

Definition set_ipv4_address (is_multicast : bytes → bool) (address : bytes) (o : t) : t :=
  match body_ o with
  | ipv4_option_impl _ protocol port =>
      mk (length_ o)
         (if is_multicast address then option_type_e.IP4_MULTICAST else option_type_e.IP4_ENDPOINT)
         (ipv4_option_impl address protocol port)
  | _ => o
  end.
Definition set_ipv6_address (is_multicast : bytes → bool) (address : bytes) (o : t) : t :=
  match body_ o with
  | ipv6_option_impl _ protocol port =>
      mk (length_ o)
         (if is_multicast address then option_type_e.IP6_MULTICAST else option_type_e.IP6_ENDPOINT)
         (ipv6_option_impl address protocol port)
  | _ => o
  end.

(** [length_ = uint16_t(1 + clients_.size() * sizeof(client_t))] *)
Definition with_clients (clients : list Z) (o : t) : t :=
  mk (u16 (1 + Z.of_nat (length clients) * 2)) (type_ o) (selective_option_impl clients).

Definition set_clients (clients : list Z) (o : t) : t := with_clients clients o.
Definition add_client (client : Z) (o : t) : bool * t :=
  match body_ o with
  | selective_option_impl cs =>
      (negb (bool_decide (client ∈ cs)), with_clients (set_insert client cs) o)
  | _ => (false, o)
  end.
Definition remove_client (client : Z) (o : t) : bool * t :=
  match body_ o with
  | selective_option_impl cs =>
      let cs' := filter (λ c, c ≠ client) cs in
      (bool_decide (length cs' < length cs)%nat, with_clients cs' o)
  | _ => (false, o)
  end.
Definition has_clients (o : t) : bool :=
  match body_ o with selective_option_impl (_ :: _) => true | _ => false end.
Definition has_client (client : Z) (o : t) : bool :=
  match body_ o with selective_option_impl cs => bool_decide (client ∈ cs) | _ => false end.

Section ops.
Context (host : endianess_e) (alloc : nat → bool) (reserve : nat → nat).

(** *** Serialization *)

(** [option_impl::serialize] *)
Definition serialize_header (o : t) : bop serializer.t :=
  serializer.serialize_u16 host alloc (length_ o)
  ;&& serializer.serialize_u8 alloc (type_ o)
  ;&& serializer.serialize_u8 alloc 0.

(** The string that [configuration_option_impl::serialize] builds: items with a
    length of type [char], and a final zero. *)
Definition configuration_string (c : string_map.t) : bytes :=
  concat ((λ kv, [u8 (1 + Z.of_nat (length kv.1) + Z.of_nat (length kv.2))]
                 ++ kv.1 ++ [61] ++ kv.2) <$> c) ++ [0].

(** The IP options write their members even when the header failed. *)
Definition serialize_ip (address_ : bytes) (protocol_ port_ : Z) (o : t) : bop serializer.t :=
  bop_then (bop_then (bop_then (bop_then (serialize_header o)
    (serializer.serialize_bytes alloc address_))
    (serializer.serialize_u8 alloc 0))
    (serializer.serialize_u8 alloc protocol_))
    (serializer.serialize_u16 host alloc port_).

(** The results of the writes are not looked at. *)
Fixpoint serialize_clients (cs : list Z) : bop serializer.t := λ s,
  match cs with
  | [] => Ok (true, s)
  | c :: cs => '(_, s) ← serializer.serialize_u16 host alloc c s; serialize_clients cs s
  end.

Definition serialize_configuration (c : string_map.t) (o : t) : bop serializer.t :=
  serialize_header o ;&& serializer.serialize_bytes alloc (configuration_string c).

Definition serialize_load_balancing (priority_ weight_ : Z) (o : t) : bop serializer.t :=
  serialize_header o
  ;&& serializer.serialize_u16 host alloc priority_
  ;&& serializer.serialize_u16 host alloc weight_.

Definition serialize_protection (counter_ crc_ : Z) (o : t) : bop serializer.t :=
  serialize_header o
  ;&& serializer.serialize_u32 host alloc counter_ false
  ;&& serializer.serialize_u32 host alloc crc_ false.

Definition serialize_ipv4 := serialize_ip.
Definition serialize_ipv6 := serialize_ip.

Definition serialize_selective (cs : list Z) (o : t) : bop serializer.t :=
  serialize_header o ;&& serialize_clients cs.

(** The virtual [serialize]; an unknown option has only the inherited one. *)
Definition serialize (o : t) : bop serializer.t :=
  match body_ o with
  | configuration_option_impl c => serialize_configuration c o
  | load_balancing_option_impl priority_ weight_ => serialize_load_balancing priority_ weight_ o
  | protection_option_impl counter_ crc_ => serialize_protection counter_ crc_ o
  | ipv4_option_impl address_ protocol_ port_ => serialize_ipv4 address_ protocol_ port_ o
  | ipv6_option_impl address_ protocol_ port_ => serialize_ipv6 address_ protocol_ port_ o
  | selective_option_impl cs => serialize_selective cs o
  | unknown_option_impl _ => serialize_header o
  end.

(** *** Deserialization *)

Definition known_type (v : Z) : bool :=
  bool_decide (v ∈ [option_type_e.CONFIGURATION; option_type_e.LOAD_BALANCING;
    option_type_e.PROTECTION; option_type_e.IP4_ENDPOINT; option_type_e.IP6_ENDPOINT;
    option_type_e.IP4_MULTICAST; option_type_e.IP6_MULTICAST; option_type_e.SELECTIVE]).

(** [option_impl::deserialize]: [length_] and [type_]. *)
Definition deserialize_header : rdr (Z * Z) :=
  len <~ deserializer.deserialize_u16 host;
  its_type <~ deserializer.deserialize_u8;
  _ <~ deserializer.deserialize_u8;
  rret (len, if known_type its_type then its_type else option_type_e.UNKNOWN).

(** [l_item.find('=')] *)
Fixpoint find_eq (item : bytes) : option nat :=
  match item with
  | [] => None
  | b :: item => if b =? 61 then Some 0%nat else S <$> find_eq item
  end.

Definition split_item (item : bytes) : bytes * bytes :=
  match find_eq item with
  | Some p => (take p item, drop (S p) item)
  | None => (item, [])
  end.

(** The loop over the items; it ends at a zero length or when nothing is left.
    An item takes at least two bytes, so the number of bytes that are left
    bounds the loop; [l_item] has a capacity of at least 256. *)
Fixpoint read_items (fuel : nat) (c : string_map.t) : rdr string_map.t := λ d,
  match fuel with
  | O => Abort
  | S fuel =>
    '(l_itemLength, d) ← deserializer.deserialize_u8 d;
    match l_itemLength with
    | None => Ok (None, d)
    | Some n =>
      if 0 <? n then
        '(l_item, d) ← deserializer.deserialize_string 256 (Z.to_nat n) d;
        match l_item with
        | None => Ok (None, d)
        | Some item =>
          let '(l_key, l_value) := split_item item in
          match string_map.find l_key c with
          | Some _ => Ok (None, d)
          | None =>
            let c := string_map.assign l_key l_value c in
            if decide (0 < deserializer.get_remaining d)%nat then read_items fuel c d
            else Ok (Some c, d)
          end
        end
      else Ok (Some c, d)
    end
  end.

(** [while (i < length_)]: a client that cannot be read is inserted
    uninitialised; the result is that of the last read.  [fuel] is the number of
    values that [i] can take. *)
Fixpoint read_clients (fuel : nat) (len i : Z) (cs : list Z) : rdr (list Z) := λ d,
  match fuel with
  | O => Abort
  | S fuel =>
    if i <? len then
      '(its_client, d) ← deserializer.deserialize_u16 host d;
      match its_client with
      | Some its_client => read_clients fuel len (u16 (i + 2)) (set_insert its_client cs) d
      | None => Ub indeterminate
      end
    else Ok (Some cs, d)
  end.

Definition protocol_from (v : Z) : Z :=
  if (v =? layer_four_protocol_e.TCP) || (v =? layer_four_protocol_e.UDP) then v
  else layer_four_protocol_e.UNKNOWN.

(** The members of an IP option are read whatever the header was, and whether
    they could be read is not looked at. *)
Definition deserialize_ip (size : nat) (expected : Z)
    (make : bytes → Z → Z → body) : rdr t := λ d,
  '(h, d) ← deserialize_header d;
  '(address, d) ← rtry (replicate size 0) (deserializer.deserialize_block size) d;
  '(reserved, d) ← rtry layer_four_protocol_e.UNKNOWN deserializer.deserialize_u8 d;
  '(reserved, d) ← rtry (default 0 reserved) deserializer.deserialize_u8 d;
  '(port, d) ← rtry 0 (deserializer.deserialize_u16 host) d;
  match h with
  | Some (len, ty) =>
      if len =? expected
      then Ok (Some (mk len ty (make (default [] address) (protocol_from (default 0 reserved))
                                     (default 0 port))), d)
      else Ok (None, d)
  | None => Ok (None, d)
  end.

Definition deserialize_ipv4 : rdr t :=
  deserialize_ip 4 VSOMEIP_SD_IPV4_OPTION_LENGTH ipv4_option_impl.
Definition deserialize_ipv6 : rdr t :=
  deserialize_ip 16 VSOMEIP_SD_IPV6_OPTION_LENGTH ipv6_option_impl.

Definition deserialize_configuration : rdr t :=
  h <~ deserialize_header;
  c <~ (λ d, read_items (S (deserializer.get_remaining d)) [] d);
  rret (mk h.1 h.2 (configuration_option_impl c)).

Definition deserialize_load_balancing : rdr t :=
  h <~ deserialize_header;
  priority <~ deserializer.deserialize_u16 host;
  weight <~ deserializer.deserialize_u16 host;
  rret (mk h.1 h.2 (load_balancing_option_impl priority weight)).

Definition deserialize_protection : rdr t :=
  h <~ deserialize_header;
  counter <~ deserializer.deserialize_u32 host false;
  crc <~ deserializer.deserialize_u32 host false;
  rret (mk h.1 h.2 (protection_option_impl counter crc)).

Definition deserialize_selective : rdr t :=
  h <~ deserialize_header;
  cs <~ read_clients (S (Z.to_nat h.1)) h.1 1 [];
  rret (mk h.1 h.2 (selective_option_impl cs)).

Definition deserialize_unknown : rdr t :=
  h <~ deserialize_header;
  (λ d, if (h.1 =? 0) || (Z.of_nat (deserializer.get_remaining d) <? h.1) then Ok (None, d)
        else (payload <~ deserializer.deserialize_vector (reserve (Z.to_nat (h.1 - 1)));
              rret (mk h.1 h.2 (unknown_option_impl payload))) d).

(** [message_impl::deserialize_option]: the class follows from the byte two
    bytes behind the cursor. *)
Definition deserialize_option : rdr t := λ d,
  ty ← deserializer.look_ahead_u8 2 d;
  match ty with
  | None => Ok (None, d)
  | Some ty =>
    if ty =? option_type_e.CONFIGURATION then deserialize_configuration d
    else if ty =? option_type_e.LOAD_BALANCING then deserialize_load_balancing d
    else if ty =? option_type_e.PROTECTION then deserialize_protection d
    else if (ty =? option_type_e.IP4_ENDPOINT) || (ty =? option_type_e.IP4_MULTICAST)
    then deserialize_ipv4 d
    else if (ty =? option_type_e.IP6_ENDPOINT) || (ty =? option_type_e.IP6_MULTICAST)
    then deserialize_ipv6 d
    else if ty =? option_type_e.SELECTIVE then deserialize_selective d
    else deserialize_unknown d
  end.
End ops.
End option_impl.

(** ** Entries *)

Module entry_impl.
(** The members the subclasses add. *)
Inductive body : Type :=
| serviceentry_impl (minor_version_ : Z)
| eventgroupentry_impl (eventgroup_ reserved_ counter_ : Z).

(** [run1_] and [run2_] are [options_[0]] and [options_[1]]; [num1_] and
    [num2_] are [num_options_[0]] and [num_options_[1]]. *)
Record t : Type := mk {
  type_ : Z;
  service_ : Z;
  instance_ : Z;
  major_version_ : Z;
  ttl_ : Z;
  run1_ : list Z;
  run2_ : list Z;
  num1_ : Z;
  num2_ : Z;
  index1_ : Z;
  index2_ : Z;
  body_ : body
}.

Definition new_serviceentry : t :=
  mk entry_type_e.UNKNOWN 0 0 0 0 [] [] 0 0 0 0 (serviceentry_impl 0).
Definition new_eventgroupentry : t :=
  mk entry_type_e.UNKNOWN 0 0 0 0 [] [] 0 0 0 0 (eventgroupentry_impl 0xFFFF 0 0).

(** The copy constructor of an eventgroup entry: the option runs are not
    copied. *)
Definition copy_eventgroupentry (e : t) : t :=
  mk (type_ e) (service_ e) (instance_ e) (major_version_ e) (ttl_ e) [] []
     (num1_ e) (num2_ e) (index1_ e) (index2_ e)
     match body_ e with
     | eventgroupentry_impl g _ c => eventgroupentry_impl g 0 c
     | b => b
     end.

Definition set_type v e := mk v (service_ e) (instance_ e) (major_version_ e) (ttl_ e)
  (run1_ e) (run2_ e) (num1_ e) (num2_ e) (index1_ e) (index2_ e) (body_ e).
Definition set_service v e := mk (type_ e) v (instance_ e) (major_version_ e) (ttl_ e)
  (run1_ e) (run2_ e) (num1_ e) (num2_ e) (index1_ e) (index2_ e) (body_ e).
Definition set_instance v e := mk (type_ e) (service_ e) v (major_version_ e) (ttl_ e)
  (run1_ e) (run2_ e) (num1_ e) (num2_ e) (index1_ e) (index2_ e) (body_ e).
Definition set_major_version v e := mk (type_ e) (service_ e) (instance_ e) v (ttl_ e)
  (run1_ e) (run2_ e) (num1_ e) (num2_ e) (index1_ e) (index2_ e) (body_ e).
Definition set_ttl v e := mk (type_ e) (service_ e) (instance_ e) (major_version_ e) v
  (run1_ e) (run2_ e) (num1_ e) (num2_ e) (index1_ e) (index2_ e) (body_ e).
Definition set_minor_version v e := mk (type_ e) (service_ e) (instance_ e) (major_version_ e)
  (ttl_ e) (run1_ e) (run2_ e) (num1_ e) (num2_ e) (index1_ e) (index2_ e)
  match body_ e with serviceentry_impl _ => serviceentry_impl v | b => b end.
Definition set_eventgroup v e := mk (type_ e) (service_ e) (instance_ e) (major_version_ e)
  (ttl_ e) (run1_ e) (run2_ e) (num1_ e) (num2_ e) (index1_ e) (index2_ e)
  match body_ e with eventgroupentry_impl _ r c => eventgroupentry_impl v r c | b => b end.
Definition set_counter v e := mk (type_ e) (service_ e) (instance_ e) (major_version_ e)
  (ttl_ e) (run1_ e) (run2_ e) (num1_ e) (num2_ e) (index1_ e) (index2_ e)
  match body_ e with eventgroupentry_impl g r _ => eventgroupentry_impl g r v | b => b end.

Definition get_options (run : Z) (e : t) : list Z :=
  if run =? 1 then run1_ e else if run =? 2 then run2_ e else [].
Definition get_num_options (run : Z) (e : t) : Z :=
  if run =? 1 then num1_ e else if run =? 2 then num2_ e else 0.
Definition is_service_entry (e : t) : bool := type_ e <=? entry_type_e.REQUEST_SERVICE.
Definition is_eventgroup_entry (e : t) : bool :=
  (entry_type_e.FIND_EVENT_GROUP <=? type_ e)
  && (type_ e <=? entry_type_e.SUBSCRIBE_EVENTGROUP_ACK).

(** *** Assigning an option *)

(** The index may join a run as a new first or last element. *)
Definition joins (run : list Z) (its_index : Z) : bool :=
  match run, last run with
  | first :: _, Some end_ => (first =? its_index + 1) || (end_ + 1 =? its_index)
  | _, _ => true
  end.

Definition join (run : list Z) (its_index : Z) : list Z := merge_sort Z.le (run ++ [its_index]).

(** [assign_option] with [i] the index that the owning message gave. *)
Definition assign_option (i : Z) (e : t) : t :=
  if (-1 <? i) && (i <? 256) then
    if joins (run1_ e) i then
      mk (type_ e) (service_ e) (instance_ e) (major_version_ e) (ttl_ e)
         (join (run1_ e) i) (run2_ e) (u8 (num1_ e + 1)) (num2_ e) (index1_ e) (index2_ e) (body_ e)
    else if joins (run2_ e) i then
      mk (type_ e) (service_ e) (instance_ e) (major_version_ e) (ttl_ e)
         (run1_ e) (join (run2_ e) i) (num1_ e) (u8 (num2_ e + 1)) (index1_ e) (index2_ e) (body_ e)
    else e
  else e.

Section ops.
Context (host : endianess_e) (alloc : nat → bool).

Definition number_of_options (e : t) : Z :=
  u8 (Z.lor (Z.shiftl (u8 (Z.of_nat (length (run1_ e)))) 4)
            (Z.land (u8 (Z.of_nat (length (run2_ e)))) 0x0F)).

(** [entry_impl::serialize] *)
Definition serialize_base (e : t) : bop serializer.t :=
  serializer.serialize_u8 alloc (type_ e)
  ;&& serializer.serialize_u8 alloc (default 0 (head (run1_ e)))
  ;&& serializer.serialize_u8 alloc (default 0 (head (run2_ e)))
  ;&& serializer.serialize_u8 alloc (number_of_options e)
  ;&& serializer.serialize_u16 host alloc (service_ e)
  ;&& serializer.serialize_u16 host alloc (instance_ e).

Definition serialize_serviceentry (minor_version_ : Z) (e : t) : bop serializer.t :=
  serialize_base e
  ;&& serializer.serialize_u8 alloc (major_version_ e)
  ;&& serializer.serialize_u32 host alloc (ttl_ e) true
  ;&& serializer.serialize_u32 host alloc minor_version_ false.

Definition serialize_eventgroupentry (eventgroup_ : Z) (e : t) : bop serializer.t :=
  serialize_base e
  ;&& serializer.serialize_u8 alloc (major_version_ e)
  ;&& serializer.serialize_u32 host alloc (ttl_ e) true
  ;&& serializer.serialize_u16 host alloc 0
  ;&& serializer.serialize_u16 host alloc eventgroup_.

(** The virtual [serialize]. *)
Definition serialize (e : t) : bop serializer.t :=
  match body_ e with
  | serviceentry_impl minor_version_ => serialize_serviceentry minor_version_ e
  | eventgroupentry_impl eventgroup_ _ _ => serialize_eventgroupentry eventgroup_ e
  end.

(** [for (uint16_t i = index; i < index + num; ++i) run.push_back((uint8_t)i)] *)
Definition run_of (index num : Z) : list Z := u8 <$> seqZ index num.

(** [entry_impl::deserialize] *)
Definition deserialize_base (b : body) : rdr t :=
  its_type <~ deserializer.deserialize_u8;
  index1 <~ deserializer.deserialize_u8;
  index2 <~ deserializer.deserialize_u8;
  its_numbers <~ deserializer.deserialize_u8;
  service <~ deserializer.deserialize_u16 host;
  instance <~ deserializer.deserialize_u16 host;
  let num1 := u8 (Z.shiftr its_numbers 4) in
  let num2 := u8 (Z.land its_numbers 0xF) in
  rret (mk its_type service instance 0 0 (run_of index1 num1) (run_of index2 num2)
           num1 num2 index1 index2 b).

Definition with_tail (major ttl : Z) (b : body) (e : t) : t :=
  mk (type_ e) (service_ e) (instance_ e) major ttl (run1_ e) (run2_ e) (num1_ e) (num2_ e)
     (index1_ e) (index2_ e) b.

Definition deserialize_serviceentry : rdr t :=
  e <~ deserialize_base (serviceentry_impl 0);
  major <~ deserializer.deserialize_u8;
  ttl <~ deserializer.deserialize_u32 host true;
  minor <~ deserializer.deserialize_u32 host false;
  rret (with_tail major ttl (serviceentry_impl minor) e).

(** The counter is not transmitted. *)
Definition deserialize_eventgroupentry : rdr t :=
  e <~ deserialize_base (eventgroupentry_impl 0xFFFF 0 0);
  major <~ deserializer.deserialize_u8;
  ttl <~ deserializer.deserialize_u32 host true;
  reserved <~ deserializer.deserialize_u16 host;
  eventgroup <~ deserializer.deserialize_u16 host;
  rret (with_tail major ttl (eventgroupentry_impl eventgroup reserved 0) e).

(** [message_impl::deserialize_entry] *)
Definition deserialize_entry : rdr t := λ d,
  ty ← deserializer.look_ahead_u8 0 d;
  match ty with
  | None => Ok (None, d)
  | Some ty =>
    if bool_decide (ty ∈ [entry_type_e.FIND_SERVICE; entry_type_e.OFFER_SERVICE;
                          entry_type_e.REQUEST_SERVICE])
    then deserialize_serviceentry d
    else if bool_decide (ty ∈ [entry_type_e.FIND_EVENT_GROUP; entry_type_e.PUBLISH_EVENTGROUP;
                               entry_type_e.SUBSCRIBE_EVENTGROUP;
                               entry_type_e.SUBSCRIBE_EVENTGROUP_ACK])
    then deserialize_eventgroupentry d
    else Ok (None, d)
  end.
End ops.

(** *** Comparing subscriptions ([eventgroupentry_impl::matches]) *)

(** The endpoint options among those a list of indices refers to; the casts
    are static. *)
Definition endpoint_at (options : list option_impl.t) (i : Z) : result (list option_impl.t) :=
  match options !! Z.to_nat i with
  | None => Ok []
  | Some o =>
      if option_impl.type_ o =? option_type_e.IP4_ENDPOINT then
        match option_impl.body_ o with
        | option_impl.ipv4_option_impl _ _ _ => Ok [o]
        | _ => Ub bad_downcast
        end
      else if option_impl.type_ o =? option_type_e.IP6_ENDPOINT then
        match option_impl.body_ o with
        | option_impl.ipv6_option_impl _ _ _ => Ok [o]
        | _ => Ub bad_downcast
        end
      else Ok []
  end.

Fixpoint endpoints_of (options : list option_impl.t) (indices : list Z)
    : result (list option_impl.t) :=
  match indices with
  | [] => Ok []
  | i :: indices =>
      os ← endpoint_at options i;
      rest ← endpoints_of options indices;
      Ok (os ++ rest)
  end.

(** The address comparison that follows [c->equals( *o)]. *)
Definition same_address (c o : option_impl.t) : result bool :=
  match option_impl.body_ c, option_impl.body_ o with
  | option_impl.ipv4_option_impl a _ _, option_impl.ipv4_option_impl a' _ _
  | option_impl.ipv6_option_impl a _ _, option_impl.ipv6_option_impl a' _ _ =>
      Ok (bool_decide (a = a'))
  | _, _ => Ub bad_downcast
  end.

Fixpoint found_in (c : option_impl.t) (others : list option_impl.t) : result bool :=
  match others with
  | [] => Ok false
  | o :: others =>
      eq ← option_impl.equals c o;
      found ← (if (eq : bool) then same_address c o else Ok false);
      if (found : bool) then Ok true else found_in c others
  end.

Fixpoint all_found (cs others : list option_impl.t) : result bool :=
  match cs with
  | [] => Ok true
  | c :: cs =>
      found ← found_in c others;
      if (found : bool) then all_found cs others else Ok false
  end.

Definition matches (options : list option_impl.t) (e other : t) : result bool :=
  match body_ e, body_ other with
  | eventgroupentry_impl g _ c, eventgroupentry_impl g' _ c' =>
      if (service_ e =? service_ other) && (instance_ e =? instance_ other) && (g =? g')
         && (major_version_ e =? major_version_ other) && (c =? c') then
        if (index1_ e =? index1_ other) && (index2_ e =? index2_ other)
           && (num1_ e =? num1_ other) && (num2_ e =? num2_ other) then Ok true
        else if negb (num1_ e + num2_ e =? num1_ other + num2_ other)
                || (num1_ e + num2_ e =? 0) then Ok false
        else
          current ← endpoints_of options (run1_ e ++ run2_ e);
          others ← endpoints_of options (run1_ other ++ run2_ other);
          match current, others with
          | [], _ | _, [] => Ok false
          | _, _ => all_found current others
          end
      else Ok false
  | _, _ => Ok false
  end.

(** [get_selective_option]: the first referenced option of that class. *)
Definition get_selective_option (options : list option_impl.t) (e : t) : option option_impl.t :=
  head (omap (λ i,
    match options !! Z.to_nat i with
    | Some o => match option_impl.body_ o with
                | option_impl.selective_option_impl _ => Some o
                | _ => None
                end
    | None => None
    end) (run1_ e ++ run2_ e)).
End entry_impl.

(** ** Messages *)

Module message_sd.
(** A shared pointer to an option: the address and the object. *)
Abbreviation ptr := (Z * option_impl.t)%type.

Record t : Type := mk {
  header_ : message_header_impl.t;
  flags_ : Z;
  options_length_ : Z;
  entries_ : list entry_impl.t;
  options_ : list ptr;
  current_message_size_ : Z
}.

Definition VSOMEIP_REBOOT_FLAG : Z := 0x80.
Definition VSOMEIP_UNICAST_FLAG : Z := 0x40.

Definition with_flags (f : Z) (m : t) : t :=
  mk (header_ m) f (options_length_ m) (entries_ m) (options_ m) (current_message_size_ m).

Definition get_reboot_flag (m : t) : bool := negb (Z.land (flags_ m) VSOMEIP_REBOOT_FLAG =? 0).
Definition set_reboot_flag (is_set : bool) (m : t) : t :=
  with_flags (if is_set then u8 (Z.lor (flags_ m) (u8 VSOMEIP_REBOOT_FLAG))
              else u8 (Z.land (flags_ m) (u8 (Z.lnot VSOMEIP_REBOOT_FLAG)))) m.
Definition get_unicast_flag (m : t) : bool := negb (Z.land (flags_ m) VSOMEIP_UNICAST_FLAG =? 0).
Definition set_unicast_flag (is_set : bool) (m : t) : t :=
  with_flags (if is_set then u8 (Z.lor (flags_ m) (u8 VSOMEIP_UNICAST_FLAG))
              else u8 (Z.land (flags_ m) (u8 (Z.lnot VSOMEIP_UNICAST_FLAG)))) m.

Definition create : t :=
  set_unicast_flag true
    (mk (message_header_impl.mk 0xFFFF 0x8100 0 0x0 0 0x01 0x01
           message_type_e.MT_NOTIFICATION return_code_e.E_OK 0x0000)
        0x0 0x0 [] [] VSOMEIP_SOMEIP_SD_EMPTY_MESSAGE_SIZE).

Definition set_session (v : Z) (m : t) : t :=
  mk (message_header_impl.set_session v (header_ m)) (flags_ m) (options_length_ m) (entries_ m)
     (options_ m) (current_message_size_ m).

Definition has_entry (m : t) : bool := bool_decide (0 < length (entries_ m))%nat.
Definition has_option (m : t) : bool := bool_decide (0 < length (options_ m))%nat.

Definition option_bytes (o : option_impl.t) : Z :=
  u32 (option_impl.length_ o + VSOMEIP_SOMEIP_SD_OPTION_HEADER_SIZE).

Definition get_length (m : t) : Z :=
  let current_length := VSOMEIP_SOMEIP_SD_DATA_SIZE in
  let current_length :=
    if decide (length (entries_ m) = 0)%nat then current_length
    else u32 (u32 (current_length + VSOMEIP_SOMEIP_SD_ENTRY_LENGTH_SIZE)
              + u32 (Z.of_nat (length (entries_ m)) * VSOMEIP_SOMEIP_SD_ENTRY_SIZE)) in
  let current_length := u32 (current_length + VSOMEIP_SOMEIP_SD_OPTION_LENGTH_SIZE) in
  foldl (λ n p, u32 (n + option_bytes p.2)) current_length (options_ m).

(** *** Building a message *)

(** [find_option]: the first option that equals the given one. *)
Fixpoint find_option (o : option_impl.t) (options : list ptr) : result (option ptr) :=
  match options with
  | [] => Ok None
  | p :: options =>
      b ← option_impl.equals p.2 o;
      if (b : bool) then Ok (Some p) else find_option o options
  end.

(** The size of the vector as an [int16_t]. *)
Definition int16 (n : nat) : Z :=
  let v := u16 (Z.of_nat n) in if v <? 0x8000 then v else v - 0x10000.

Fixpoint index_from (i bound addr : Z) (options : list ptr) : Z :=
  match options with
  | [] => -1
  | p :: options =>
      if i <? bound then if p.1 =? addr then i else index_from (i + 1) bound addr options
      else -1
  end.

Definition get_option_index (addr : Z) (options : list ptr) : Z :=
  index_from 0 (int16 (length options)) addr options.

Definition get_option (index : Z) (m : t) : option ptr :=
  if -1 <? index then options_ m !! Z.to_nat index else None.

(** [std::map<const std::shared_ptr<option_impl>, bool>]: ordered by address;
    [its_options[p] = b]. *)
Fixpoint assign (p : ptr) (b : bool) (l : list (ptr * bool)) : list (ptr * bool) :=
  match l with
  | [] => [(p, b)]
  | (q, b') :: l' =>
      if p.1 <? q.1 then (p, b) :: l
      else if p.1 =? q.1 then (q, b) :: l'
      else (q, b') :: assign p b l'
  end.

(** The first loop of [add_entry_data]: which options are new, and their size. *)
Fixpoint collect (existing : list ptr) (options : list ptr) (size : Z) (l : list (ptr * bool))
    : result (Z * list (ptr * bool)) :=
  match options with
  | [] => Ok (size, l)
  | p :: options =>
      found ← find_option p.2 existing;
      match found with
      | None => collect existing options (u32 (size + option_impl.get_size p.2)) (assign p true l)
      | Some q => collect existing options size (assign q false l)
      end
  end.

(** The second loop: new options are appended and every option is assigned. *)
Fixpoint append (l : list (ptr * bool)) (options : list ptr) (e : entry_impl.t)
    : list ptr * entry_impl.t :=
  match l with
  | [] => (options, e)
  | (p, is_new) :: l =>
      let options := if (is_new : bool) then options ++ [p] else options in
      append l options (entry_impl.assign_option (get_option_index p.1 options) e)
  end.

(** [add_entry_data]; the new states of the two entries are those in
    [entries_]. *)
Definition add_entry_data (entry : entry_impl.t) (options : list ptr)
    (other : option entry_impl.t) (m : t) : result (bool * t) :=
  let its_entry_size := VSOMEIP_SOMEIP_SD_ENTRY_SIZE in
  let its_entry_size :=
    match other with
    | Some _ => its_entry_size + VSOMEIP_SOMEIP_SD_ENTRY_SIZE
    | None => its_entry_size
    end in
  '(its_entry_size, its_options) ← collect (options_ m) options its_entry_size [];
  if VSOMEIP_MAX_UDP_SD_PAYLOAD <? u32 (current_message_size_ m + its_entry_size)
  then Ok (false, m)
  else
    let '(os, e) := append its_options (options_ m) entry in
    let es := entries_ m ++ [e] in
    let es :=
      match other with
      | Some o =>
          es ++ [foldl (λ o p, entry_impl.assign_option (get_option_index p.1.1 os) o) o its_options]
      | None => es
      end in
    Ok (true, mk (header_ m) (flags_ m) (options_length_ m) es os
                 (u32 (current_message_size_ m + its_entry_size))).

Section ops.
Context (host : endianess_e) (alloc : nat → bool) (reserve : nat → nat).

(** *** Serialization *)

Fixpoint serialize_entries (es : list entry_impl.t) : bop serializer.t :=
  match es with
  | [] => bop_ret true
  | e :: es => entry_impl.serialize host alloc e ;&& serialize_entries es
  end.

Fixpoint serialize_options (os : list ptr) : bop serializer.t :=
  match os with
  | [] => bop_ret true
  | p :: os => option_impl.serialize host alloc p.2 ;&& serialize_options os
  end.

Definition options_size (os : list ptr) : Z := foldl (λ n p, u32 (n + option_bytes p.2)) 0 os.

Definition serialize (m : t) : bop serializer.t :=
  message_header_impl.serialize host alloc (get_length m) (header_ m)
  ;&& serializer.serialize_u8 alloc (flags_ m)
  ;&& serializer.serialize_u32 host alloc 0 true
  ;&& serializer.serialize_u32 host alloc
        (u32 (Z.of_nat (length (entries_ m)) * VSOMEIP_SOMEIP_SD_ENTRY_SIZE)) false
  ;&& serialize_entries (entries_ m)
  ;&& serializer.serialize_u32 host alloc (options_size (options_ m)) false
  ;&& serialize_options (options_ m).

(** *** Deserialization *)

(** [while (is_successful && _from->get_remaining())]: every entry that is read
    takes 16 bytes. *)
Fixpoint read_entries (fuel : nat) (es : list entry_impl.t) (d : deserializer.t)
    : result ((bool * list entry_impl.t) * deserializer.t) :=
  if decide (deserializer.get_remaining d = 0)%nat then Ok ((true, es), d)
  else
    match fuel with
    | O => Abort
    | S fuel =>
      '(e, d) ← entry_impl.deserialize_entry host d;
      match e with
      | Some e => read_entries fuel (es ++ [e]) d
      | None => Ok ((false, es), d)
      end
    end.

(** [while (option_is_successful && _from->get_remaining())]: an option that
    cannot be read ends the loop; the options before it are kept.  A new option
    gets an address that no option has. *)
Fixpoint read_options (fuel : nat) (os : list ptr) (d : deserializer.t)
    : result (list ptr * deserializer.t) :=
  if decide (deserializer.get_remaining d = 0)%nat then Ok (os, d)
  else
    match fuel with
    | O => Abort
    | S fuel =>
      '(o, d) ← option_impl.deserialize_option host reserve d;
      match o with
      | Some o => read_options fuel (os ++ [(Z.of_nat (length os), o)]) d
      | None => Ok (os, d)
      end
    end.

(** [header_], [flags_], [reserved] and [entries_length]. *)
Definition read_prefix (h : message_header_impl.t) : rdr (message_header_impl.t * Z * Z) :=
  h <~ (λ d, '(ok, (h, d)) ← message_header_impl.deserialize host (h, d);
             Ok (if (ok : bool) then Some h else None, d));
  flags <~ deserializer.deserialize_u8;
  _ <~ deserializer.deserialize_u32 host true;
  entries_length <~ deserializer.deserialize_u32 host false;
  rret (h, flags, entries_length).

(** The part behind the entries; [is_successful] is the result so far.  When it
    is false [options_length_] keeps its value and the options are discarded. *)
Definition read_option_array (is_successful : bool) (m : t) (d : deserializer.t)
    : result (bool * t * deserializer.t) :=
  if decide (deserializer.get_remaining d = 0)%nat then Ok (is_successful, m, d)
  else
    '(len, d) ← (if is_successful then deserializer.deserialize_u32 host false d
                 else Ok (None, d));
    let is_successful := bool_decide (is_Some len) in
    let options_length_ := default (options_length_ m) len in
    let d := if options_length_ <? Z.of_nat (deserializer.get_remaining d)
             then deserializer.set_remaining (Z.to_nat options_length_) d else d in
    '(os, d) ← read_options (deserializer.get_remaining d) (options_ m) d;
    Ok (is_successful, mk (header_ m) (flags_ m) options_length_ (entries_ m) os 0, d).

Definition deserialize (m : t) (d : deserializer.t) : result (bool * t * deserializer.t) :=
  '(prefix, d) ← read_prefix (header_ m) d;
  match prefix with
  | None => Ok (false, m, d)
  | Some (h, flags, entries_length) =>
    let m := mk h flags (options_length_ m) (entries_ m) (options_ m) (current_message_size_ m) in
    let save_remaining := u32 (Z.of_nat (deserializer.get_remaining d)) in
    if save_remaining <? entries_length then Ok (false, m, d)
    else
      let d := deserializer.set_remaining (Z.to_nat entries_length) d in
      '(is_successful, es, d) ← read_entries (deserializer.get_remaining d) (entries_ m) d;
      let m := mk (header_ m) (flags_ m) (options_length_ m) es (options_ m)
                  (current_message_size_ m) in
      let d := deserializer.set_remaining (Z.to_nat (u32 (save_remaining - entries_length))) d in
      read_option_array is_successful m d
  end.

(** [sd::deserializer::deserialize_sd_message] *)
Definition deserialize_sd_message (d : deserializer.t) : result (option t) :=
  '(ok, m, _) ← deserialize create d; Ok (if (ok : bool) then Some m else None).
End ops.
End message_sd.

(** ** Filling messages ([service_discovery_impl::add_entry_data]) *)

Module service_discovery_impl.
Record entry_data_t : Type := mk_data {
  entry_ : entry_impl.t;
  options_ : list message_sd.ptr;
  other_ : option entry_impl.t
}.

(** An entry that does not fit into the last message opens a new one; whether
    it fits into that one is not looked at. *)
Definition add_entry_data (data : entry_data_t) (messages : list message_sd.t)
    : result (list message_sd.t) :=
  match last messages with
  | None => Ub oob_read
  | Some its_current_message =>
      '(is_fitting, m) ← message_sd.add_entry_data (entry_ data) (options_ data) (other_ data)
                           its_current_message;
      if (is_fitting : bool) then Ok (removelast messages ++ [m])
      else
        '(_, m') ← message_sd.add_entry_data (entry_ data) (options_ data) (other_ data)
                     message_sd.create;
        Ok (messages ++ [m'])
  end.
End service_discovery_impl.
