(* ===== verification/SdSafety.v ===== *)
(** * Safety of the service discovery deserializer

    The readers of [sd::message_impl::deserialize] on arbitrary input: what they
    take, that no exception leaves them, that their loops end, and the selective
    option that is shorter than its length field.  [SdOutcome] puts them together
    for a whole datagram. *)

From stdpp Require Import base list sorting.
From Stdlib Require Import ZArith Lia.
From S2P Require Import Prelude BitHelper Serialization Message Sd.

Section reads.
Import deserializer.

(** The cursor moved, and what may be read was reduced by as much. *)
Definition conserves (d d' : deserializer.t) : Prop :=
  data_ d' = data_ d ∧ (position_ d' + remaining_ d' = position_ d + remaining_ d)%nat
  ∧ (remaining_ d' ≤ remaining_ d)%nat.

#[global] Instance conserves_preorder : PreOrder conserves.
Proof.
  split; [intros d; unfold conserves; auto|].
  intros d1 d2 d3 (H1 & ? & ?) (H2 & ? & ?). unfold conserves. split_and!; [congruence|lia|lia].
Qed.

Lemma conserves_wf d d' : conserves d d' → deserializer_wf d → deserializer_wf d'.
Proof. unfold deserializer_wf. intros (-> & ? & _). lia. Qed.

Lemma conserves_advance d n : (n ≤ remaining_ d)%nat → conserves d (advance n d).
Proof. intros. unfold conserves, advance. cbn. split_and!; [done|lia|lia]. Qed.

Lemma advance_advance n1 n2 d : advance n2 (advance n1 d) = advance (n1 + n2) d.
Proof. unfold advance. cbn. f_equal; lia. Qed.

Lemma advance_0 d : advance 0 d = d.
Proof. destruct d. unfold advance. cbn. f_equal; lia. Qed.

(** [reads n P m]: on every well-formed deserializer the reader [m] returns, or
    is undefined in a way that [P] admits; when it succeeds it takes at least [n]
    bytes. *)
Definition reads {A} (n : nat) (P : ub → Prop) (m : rdr A) : Prop :=
  ∀ d, deserializer_wf d →
    match m d with
    | Ok (o, d') => conserves d d' ∧ (is_Some o → remaining_ d' + n ≤ remaining_ d)%nat
    | Ub u => P u
    | _ => False
    end.

Definition no_ub : ub → Prop := λ _, False.

Lemma reads_ret {A} P (a : A) : reads 0 P (rret a).
Proof. intros d _. cbn. split; [reflexivity|lia]. Qed.

Lemma reads_bind {A B} n1 n2 n P (m : rdr A) (k : A → rdr B) :
  reads n1 P m → (∀ a, reads n2 P (k a)) → (n ≤ n1 + n2)%nat → reads n P (rbind m k).
Proof.
  intros Hm Hk Hn d Hd. specialize (Hm d Hd). unfold rbind.
  destruct (m d) as [[o d1]| | |]; cbn; try done. destruct Hm as [Hc Hs].
  destruct o as [a|]; [|split; [done|by intros [? ?]]].
  specialize (Hk a d1 (conserves_wf _ _ Hc Hd)).
  destruct (k a d1) as [[o d2]| | |]; try done. destruct Hk as [Hc2 Hs2].
  split; [by etransitivity|]. intros Ho. specialize (Hs (ltac:(eauto))). specialize (Hs2 Ho). lia.
Qed.

(** A reader whose failure does not end the chain. *)
Lemma reads_seq {A B} n1 n P (m : rdr A) (k : option A → rdr B) :
  reads n1 P m → (∀ a, reads n P (k a)) → reads n P (λ d, '(o, d) ← m d; k o d).
Proof.
  intros Hm Hk d Hd. specialize (Hm d Hd).
  destruct (m d) as [[o d1]| | |]; cbn; try done. destruct Hm as [Hc _].
  specialize (Hk o d1 (conserves_wf _ _ Hc Hd)).
  destruct (k o d1) as [[o2 d2]| | |]; try done. destruct Hk as [Hc2 Hs2].
  split; [by etransitivity|]. intros Ho. specialize (Hs2 Ho). destruct Hc as (_ & _ & ?). lia.
Qed.

Lemma reads_try {A} n P v (m : rdr A) : reads n P m → reads 0 P (rtry v m).
Proof.
  intros Hm d Hd. specialize (Hm d Hd). unfold rtry.
  destruct (m d) as [[o d1]| | |]; cbn; try done. destruct Hm as [Hc _].
  split; [done|]. destruct Hc as (_ & _ & ?). lia.
Qed.

Lemma reads_mono {A} n n' (P P' : ub → Prop) (m : rdr A) :
  reads n P m → (n' ≤ n)%nat → (∀ u, P u → P' u) → reads n' P' m.
Proof.
  intros Hm Hn HP d Hd. specialize (Hm d Hd). destruct (m d) as [[o d1]| | |]; auto.
  destruct Hm as [Hc Hs]. split; [done|]. intros Ho. specialize (Hs Ho). lia.
Qed.

(** A read that is the same as taking [n] bytes when there are as many. *)
Lemma reads_guard {A} n P (m : rdr A) :
  (∀ d, deserializer_wf d → (∃ a, m d = Ok (Some a, advance n d) ∧ (n ≤ remaining_ d)%nat)
                            ∨ m d = Ok (None, d)) → reads n P m.
Proof.
  intros Hm d Hd. destruct (Hm d Hd) as [(a & -> & Hn)| ->].
  - split; [by apply conserves_advance|]. cbn. lia.
  - split; [reflexivity|by intros [? ?]].
Qed.

Context (host : endianess_e) (P : ub → Prop).

Lemma reads_u8 : reads 1 P deserialize_u8.
Proof.
  apply reads_guard. intros d Hd. unfold deserialize_u8. case_decide; [by right|left].
  destruct (wf_rd1 d 0) as [b Hb]; [done|lia|]. rewrite Nat.add_0_r in Hb. rewrite Hb, bind_Ok.
  eexists; split; [done|lia].
Qed.

Lemma reads_u16 : reads 2 P (deserialize_u16 host).
Proof.
  apply reads_guard. intros d Hd. unfold deserialize_u16. case_decide; [by right|left].
  destruct (wf_rd1 d 0) as [b Hb]; [done|lia|]. rewrite Nat.add_0_r in Hb. rewrite Hb, bind_Ok.
  destruct (wf_rd1 d 1) as [c Hc]; [done|lia|]. rewrite Nat.add_1_r in Hc. rewrite Hc, bind_Ok.
  eexists; split; [done|lia].
Qed.

Lemma reads_u24 : reads 3 P (deserialize_u32 host true).
Proof.
  apply reads_guard. intros d Hd. unfold deserialize_u32. case_decide; [by right|left].
  cbn [negb]. rewrite bind_Ok. destruct (wf_three d) as (a & b & c & -> & -> & ->); [done|lia|].
  eexists; split; [done|lia].
Qed.

Lemma reads_u32 : reads 4 P (deserialize_u32 host false).
Proof.
  apply reads_guard. intros d Hd. unfold deserialize_u32. case_decide as Hg; [by right|left].
  assert (4 ≤ remaining_ d)%nat by (destruct (decide (remaining_ d < 4)%nat); [tauto|lia]).
  cbn [negb]. destruct (wf_rd1 d 0) as [b0 Hb0]; [done|lia|].
  rewrite Nat.add_0_r in Hb0. rewrite Hb0, !bind_Ok.
  destruct (wf_three (advance 1 d)) as (a & b & c & -> & -> & ->);
    [apply wf_advance; [done|lia]|cbn; lia|].
  eexists; split; [|lia]. unfold advance. cbn. do 3 f_equal; lia.
Qed.

Lemma reads_block n : reads n P (deserialize_block n).
Proof.
  apply reads_guard. intros d Hd. unfold deserialize_block. case_decide; [by right|left].
  rewrite wf_block by (done || lia). eexists; split; [done|lia].
Qed.

Lemma reads_string cap n : reads n P (deserialize_string cap n).
Proof.
  apply reads_guard. intros d Hd. unfold deserialize_string. case_decide; [by right|left].
  rewrite wf_block by (done || lia). eexists; split; [done|lia].
Qed.

Lemma reads_vector n : reads n P (deserialize_vector n).
Proof.
  apply reads_guard. intros d Hd. unfold deserialize_vector. case_decide; [by right|left].
  rewrite wf_block by (done || lia). eexists; split; [done|lia].
Qed.
End reads.

(** ** Options *)

Create HintDb reads.
#[export] Hint Resolve reads_u8 reads_u16 reads_u24 reads_u32 reads_block reads_string
  reads_vector reads_ret : reads.

(** A chain of readers: the bytes that its reads take add up. *)
Ltac reads_chain :=
  repeat (eapply reads_bind; [solve [eauto with reads]|intros ?|]);
  first [solve [eauto with reads]|lia|idtac].

Section options.
Import deserializer.
Context (host : endianess_e) (reserve : nat → nat).

Lemma reads_header P : reads 4 P (option_impl.deserialize_header host).
Proof. unfold option_impl.deserialize_header. by reads_chain. Qed.

Lemma reads_load_balancing P : reads 8 P (option_impl.deserialize_load_balancing host).
Proof. pose proof reads_header. unfold option_impl.deserialize_load_balancing. by reads_chain. Qed.

Lemma reads_protection P : reads 12 P (option_impl.deserialize_protection host).
Proof. pose proof reads_header. unfold option_impl.deserialize_protection. by reads_chain. Qed.

Lemma reads_ip P size expected make : reads 4 P (option_impl.deserialize_ip host size expected make).
Proof.
  intros d Hd. unfold option_impl.deserialize_ip.
  pose proof (reads_header P d Hd) as Hh.
  destruct (option_impl.deserialize_header host d) as [[h d1]| | |]; try done.
  destruct Hh as [Hc Hs]. rewrite bind_Ok.
  assert (reads (match h with Some _ => 0 | None => 4 end) P (λ d,
    '(address, d) ← rtry (replicate size 0) (deserialize_block size) d;
    '(reserved, d) ← rtry layer_four_protocol_e.UNKNOWN deserialize_u8 d;
    '(reserved, d) ← rtry (default 0 reserved) deserialize_u8 d;
    '(port, d) ← rtry 0 (deserialize_u16 host) d;
    match h with
    | Some (len, ty) =>
        if len =? expected
        then Ok (Some (option_impl.mk len ty (make (default [] address)
                   (option_impl.protocol_from (default 0 reserved)) (default 0 port))), d)
        else Ok (None, d)
    | None => Ok (None, d)
    end)) as H.
  { repeat (eapply reads_seq; [eapply reads_try; solve [eauto with reads]|intros ?]).
    intros d2 _. destruct h as [[len ty]|]; [destruct (len =? expected)|]; (split; [reflexivity|]);
      try lia; by intros [? ?]. }
  specialize (H d1 (conserves_wf _ _ Hc Hd)). cbv beta in H.
  destruct (mbind _ _) as [[o d2]| | |]; try done. destruct H as [Hc2 Hs2].
  split; [by etransitivity|]. intros Ho. specialize (Hs2 Ho).
  destruct h; [specialize (Hs (ltac:(eauto)))|]; destruct Hc as (_ & _ & ?); lia.
Qed.

(** The loop over the items of a configuration option takes two bytes in each
    round, so the bytes that are left are enough fuel. *)
Lemma reads_items P fuel c d :
  deserializer_wf d → (remaining_ d < fuel)%nat →
  match option_impl.read_items fuel c d with
  | Ok (_, d') => conserves d d'
  | Ub u => P u
  | _ => False
  end.
Proof.
  revert c d. induction fuel as [|fuel IH]; intros c d Hd Hf; [lia|].
  cbn [option_impl.read_items]. pose proof (reads_u8 P d Hd) as H1.
  destruct (deserialize_u8 d) as [[[n|] d1]| | |]; try done; destruct H1 as [Hc1 Hs1]; cbn; [|done].
  specialize (Hs1 (ltac:(eauto))). destruct (0 <? n); [|done].
  pose proof (conserves_wf _ _ Hc1 Hd) as Hd1.
  pose proof (reads_string P 256 (Z.to_nat n) d1 Hd1) as H2.
  destruct (deserialize_string 256 (Z.to_nat n) d1) as [[[item|] d2]| | |]; try done;
    destruct H2 as [Hc2 Hs2]; cbn; [|by etransitivity].
  assert (conserves d d2) by by etransitivity.
  destruct (option_impl.split_item item) as [k v].
  destruct (string_map.find k c); [done|]. case_decide; [|done].
  specialize (IH (string_map.assign k v c) d2 (conserves_wf _ _ Hc2 Hd1)).
  destruct (option_impl.read_items _ _ d2) as [[o d3]| | |]; try done;
    try (apply IH; destruct Hc2 as (_ & _ & ?); lia).
  etransitivity; [done|]. apply IH. destruct Hc2 as (_ & _ & ?). lia.
Qed.

Lemma reads_configuration P : reads 4 P (option_impl.deserialize_configuration host).
Proof.
  eapply (reads_bind 4 0); [apply reads_header|intros h|lia].
  eapply (reads_bind 0 0); [|intros; apply reads_ret|lia].
  intros d Hd. pose proof (reads_items P (S (get_remaining d)) [] d Hd) as H.
  destruct (option_impl.read_items _ _ _) as [[o d']| | |]; try (apply H; unfold get_remaining; lia).
  assert (conserves d d') as Hc by (apply H; unfold get_remaining; lia).
  split; [done|]. destruct Hc as (_ & _ & ?). lia.
Qed.

Lemma reads_unknown P : reads 4 P (option_impl.deserialize_unknown host reserve).
Proof.
  eapply (reads_bind 4 0); [apply reads_header|intros h|lia].
  intros d Hd. destruct (_ || _); [split; [reflexivity|by intros [? ?]]|].
  revert d Hd. eapply (reads_bind _ 0); [apply reads_vector|intros; apply reads_ret|lia].
Qed.

(** The loop over the clients of a selective option, after [j] rounds: it
    succeeds exactly when the remaining [len / 2 - j] clients are there. *)
Lemma read_clients_outcome fuel len (j : nat) cs d :
  is_u16 len → (j ≤ Z.to_nat (len / 2))%nat → (Z.to_nat (len / 2) - j < fuel)%nat →
  deserializer_wf d →
  let n := (2 * (Z.to_nat (len / 2) - j))%nat in
  let r := option_impl.read_clients host fuel len (1 + 2 * Z.of_nat j) cs d in
  (n ≤ remaining_ d → ∃ cs', r = Ok (Some cs', advance n d))%nat
  ∧ (remaining_ d < n → r = Ub indeterminate)%nat.
Proof.
  intros Hlen. revert j cs d. induction fuel as [|fuel IH]; intros j cs d Hj Hf Hd; [lia|].
  cbn [option_impl.read_clients]. cbn zeta.
  assert (len = 2 * (len / 2) + len mod 2) as Hdiv by (apply Z.div_mod; lia).
  assert (0 ≤ len mod 2 < 2) by (apply Z.mod_pos_bound; lia).
  assert (0 ≤ len / 2) by (apply Z.div_pos; [destruct Hlen; lia|lia]).
  destruct (Z.ltb_spec (1 + 2 * Z.of_nat j) len).
  2:{ assert (Z.to_nat (len / 2) = j) as -> by lia. rewrite Nat.sub_diag.
      split; [intros _; exists cs; by rewrite Nat.mul_0_r, advance_0|lia]. }
  pose proof (reads_u16 host no_ub d Hd) as Hu.
  destruct (deserialize_u16 host d) as [[o d1]| | |] eqn:E; try done. destruct Hu as [Hc Hs].
  rewrite bind_Ok.
  assert (o = None ↔ remaining_ d < 2)%nat as Ho.
  { revert E. unfold deserialize_u16. case_decide; intros E; res_inv; simplify_eq; split; done || lia. }
  destruct o as [c|].
  2:{ split; [|done]. assert (remaining_ d < 2)%nat by by apply Ho. lia. }
  assert (d1 = advance 2 d ∧ 2 ≤ remaining_ d)%nat as [-> Hr].
  { revert E. unfold deserialize_u16. case_decide; intros E; res_inv; simplify_eq. split; [done|lia]. }
  replace (u16 (1 + 2 * Z.of_nat j + 2)) with (1 + 2 * Z.of_nat (S j)) by word.
  destruct (IH (S j) (set_insert c cs) (advance 2 d)) as [IH1 IH2]; [lia|lia|by eapply conserves_wf|].
  change (remaining_ (advance 2 d)) with (remaining_ d - 2)%nat in IH1, IH2.
  split; intros Hn.
  - destruct IH1 as (cs' & E'); [lia|]. exists cs'. rewrite E', advance_advance. do 3 f_equal. lia.
  - apply IH2. lia.
Qed.

(** A selective option that ends before the clients its length announces. *)
Definition truncated_selective (bs : bytes) : Prop :=
  ∃ len r rest, bs = be_bytes 2 len ++ [option_type_e.SELECTIVE; r] ++ rest
    ∧ is_u16 len ∧ (length rest < 2 * Z.to_nat (len / 2))%nat.

Lemma bytes_split2 (bs : bytes) :
  bytes_ok bs → (2 ≤ length bs)%nat → ∃ v rest, is_u16 v ∧ bs = be_bytes 2 v ++ rest.
Proof.
  intros Hb Hl. exists (be_val (take 2 bs)), (drop 2 bs).
  assert (length (take 2 bs) = 2%nat) as H2 by len.
  split; [|rewrite <- H2 at 1; rewrite be_bytes_val by auto using Forall_take; by rewrite take_drop].
  pose proof (be_val_bound (take 2 bs) (Forall_take _ _ _ Hb)) as Hv. by rewrite H2 in Hv.
Qed.

Lemma header_read d bs :
  reads_at d bs → bytes_ok bs → (4 ≤ length bs)%nat →
  ∃ len ty r rest d', bs = be_bytes 2 len ++ [ty; r] ++ rest ∧ is_u16 len
    ∧ option_impl.deserialize_header host d
      = Ok (Some (len, if option_impl.known_type ty then ty else option_type_e.UNKNOWN), d')
    ∧ reads_at d' rest.
Proof.
  intros H Hb Hl. destruct (bytes_split2 bs) as (len & rest & Hlen & ->); [done|lia|].
  rewrite length_app, be_bytes_length in Hl.
  destruct rest as [|ty [|r rest]]; cbn [length] in Hl; try lia.
  exists len, ty, r, rest. unfold option_impl.deserialize_header, rbind.
  rewrite (deserialize_u16_ok host d len _ Hlen H), bind_Ok.
  apply (reads_at_advance 2) in H; [|apply be_bytes_length].
  rewrite (deserialize_u8_ok _ _ _ H), bind_Ok. apply (reads_at_advance 1 _ [ty]) in H; [|done].
  rewrite (deserialize_u8_ok _ _ _ H), bind_Ok. apply (reads_at_advance 1 _ [r]) in H; [|done].
  eexists. done.
Qed.

Lemma header_short d :
  deserializer_wf d → (remaining_ d < 4)%nat →
  ∃ d', option_impl.deserialize_header host d = Ok (None, d').
Proof.
  intros Hd Hr. pose proof (reads_header no_ub d Hd) as H.
  destruct (option_impl.deserialize_header host d) as [[[h|] d']| | |]; try done; [|eauto].
  destruct H as [_ H]. specialize (H (ltac:(eauto))). lia.
Qed.

Lemma selective_outcome d bs :
  reads_at d bs → bytes_ok bs → (2 < length bs)%nat → bs !! 2%nat = Some option_type_e.SELECTIVE →
  (truncated_selective bs ∧ option_impl.deserialize_selective host d = Ub indeterminate)
  ∨ (¬ truncated_selective bs
     ∧ ∃ o d', option_impl.deserialize_selective host d = Ok (o, d') ∧ conserves d d'
       ∧ (is_Some o → remaining_ d' + 4 ≤ remaining_ d)%nat).
Proof.
  intros H Hb Hl Hty. pose proof H as (Hd & _ & Hr). unfold option_impl.deserialize_selective, rbind.
  pose proof (reads_header no_ub d Hd) as Hh.
  destruct (decide (length bs < 4)%nat) as [Hs|Hs].
  { right. split.
    { intros (len & r & rest & -> & _). rewrite !length_app, be_bytes_length in Hs. cbn in Hs. lia. }
    destruct (header_short d) as [d' E]; [done|lia|]. rewrite E in *. destruct Hh as [Hc _].
    do 2 eexists. split; [done|]. split; [done|by intros [? ?]]. }
  destruct (header_read d bs) as (len & ty & r & rest & d' & -> & Hlen & E & Hd'); [done..|lia|].
  rewrite E in *. destruct Hh as [Hc Hs4]. cbn in Hty. injection Hty as ->.
  rewrite bind_Ok. cbn [fst snd].
  destruct (read_clients_outcome (S (Z.to_nat len)) len 0 [] d') as [Hok Hbad];
    [done|lia| |by eapply conserves_wf|].
  { assert (len / 2 ≤ len) by (apply Z.div_le_upper_bound; destruct Hlen; lia). lia. }
  change (1 + 2 * Z.of_nat 0) with 1 in *.
  destruct Hd' as (_ & _ & Hr'). rewrite Nat.sub_0_r in *.
  destruct (decide (remaining_ d' < 2 * Z.to_nat (len / 2))%nat) as [Ht|Ht].
  - left. split; [|by rewrite Hbad]. exists len, r, rest. split_and!; [done|done|lia].
  - right. split.
    { intros (len' & r' & rest' & Heq & Hlen' & Ht').
      apply (app_inj_1 (be_bytes 2 len)) in Heq as [He [= _ ->]]; [|by rewrite !be_bytes_length].
      assert (len' = len) as ->; [|lia].
      rewrite <- (read_be_small le 2 len), <- (read_be_small le 2 len') by done. by rewrite He. }
    destruct Hok as (cs & ->); [lia|]. do 2 eexists. split; [done|].
    split; [etransitivity; [done|]; apply conserves_advance; lia|].
    specialize (Hs4 (ltac:(eauto))). unfold advance. cbn. lia.
Qed.

(** The look-ahead passes its guard with two bytes left and reads the third. *)
Lemma look_ahead_cases d bs :
  reads_at d bs →
  look_ahead_u8 2 d
  = if decide (length bs < 2)%nat then Ok None
    else match data_ d !! (position_ d + 2)%nat with
         | Some ty => Ok (Some ty)
         | None => Ub oob_read
         end.
Proof.
  intros (_ & _ & Hr). unfold look_ahead_u8, rd1. rewrite Hr. case_decide; [done|].
  by destruct (_ !! _).
Qed.

End options.

(** ** Messages *)

Section messages.
Import deserializer.
Context (host : endianess_e) (reserve : nat → nat).

(** The chains of reads into an object. *)
Definition bop_conserves {T} (m : bop (T * deserializer.t)) : Prop :=
  ∀ s, deserializer_wf s.2 → ∃ r, m s = Ok r ∧ conserves s.2 r.2.2.

Lemma bop_conserves_and {T} (m1 m2 : bop (T * deserializer.t)) :
  bop_conserves m1 → bop_conserves m2 → bop_conserves (m1 ;&& m2).
Proof.
  intros H1 H2 s Hs. destruct (H1 s Hs) as ([[] s1] & E & Hc); cbn in Hc.
  - rewrite (bop_and_true _ _ _ _ E).
    destruct (H2 s1 (conserves_wf _ _ Hc Hs)) as (r & -> & Hc2). eexists; split; [done|].
    by etransitivity.
  - rewrite (bop_and_false _ _ _ _ E). eauto.
Qed.

Lemma bop_conserves_into {T V} n (set : V → T → T) op :
  reads n no_ub op → bop_conserves (into set op).
Proof.
  intros Hop [x d] Hd. specialize (Hop d Hd). unfold into.
  destruct (op d) as [[[v|] d']| | |]; try done; destruct Hop as [Hc _]; cbn; eauto.
Qed.

Lemma reads_message_header P h :
  reads 16 P (λ d, '(ok, (h, d)) ← message_header_impl.deserialize host (h, d);
                   Ok (if (ok : bool) then Some h else None, d)).
Proof.
  intros d Hd.
  assert (bop_conserves (message_header_impl.read_fields host)) as Hc.
  { unfold message_header_impl.read_fields. cbn zeta.
    repeat apply bop_conserves_and; eapply bop_conserves_into; eauto with reads. }
  destruct (Hc ((h, (0, 0)), d) Hd) as ([b [[h' [ty co]] d']] & E & Hcons). cbn in Hcons.
  unfold message_header_impl.deserialize. rewrite E, bind_Ok.
  destruct b; cbn; [|by split; [|intros [? ?]]].
  apply read_fields_remaining in E. cbn in E. split; [done|lia].
Qed.

Lemma reads_prefix P h : reads 24 P (message_sd.read_prefix host h).
Proof. pose proof (reads_message_header P). unfold message_sd.read_prefix. by reads_chain. Qed.

Lemma reads_base P b : reads 8 P (entry_impl.deserialize_base host b).
Proof. unfold entry_impl.deserialize_base. by reads_chain. Qed.

Lemma entry_outcome d :
  deserializer_wf d → (0 < remaining_ d)%nat →
  match entry_impl.deserialize_entry host d with
  | Ok (o, d') => conserves d d' ∧ (is_Some o → remaining_ d' + 16 ≤ remaining_ d)%nat
  | _ => False
  end.
Proof.
  intros Hd Hr. pose proof (reads_base no_ub) as Hb.
  unfold entry_impl.deserialize_entry, look_ahead_u8. rewrite decide_False by lia.
  destruct (wf_rd1 d 0) as [ty ->]; [done|lia|]. rewrite !bind_Ok.
  assert (∀ m : rdr entry_impl.t, reads 16 no_ub m →
    match m d with
    | Ok (o, d') => conserves d d' ∧ (is_Some o → remaining_ d' + 16 ≤ remaining_ d)%nat
    | _ => False
    end) as Hm.
  { intros m Hm. specialize (Hm d Hd). by destruct (m d) as [[o d']| | |]. }
  repeat case_bool_decide; [apply Hm|apply Hm|split; [reflexivity|by intros [? ?]]].
  - unfold entry_impl.deserialize_serviceentry. by reads_chain.
  - unfold entry_impl.deserialize_eventgroupentry. by reads_chain.
Qed.

Lemma read_entries_outcome fuel es d :
  deserializer_wf d → (remaining_ d ≤ fuel)%nat →
  ∃ b es' d', message_sd.read_entries host fuel es d = Ok ((b, es'), d') ∧ conserves d d'.
Proof.
  revert es d. induction fuel as [|fuel IH]; intros es d Hd Hf;
    cbn [message_sd.read_entries]; unfold get_remaining.
  { rewrite decide_True by lia. do 3 eexists. split; [done|reflexivity]. }
  case_decide as Hz; [do 3 eexists; split; [done|reflexivity]|].
  pose proof (entry_outcome d Hd ltac:(lia)) as H.
  destruct (entry_impl.deserialize_entry host d) as [[[e|] d1]| | |]; try done;
    destruct H as [Hc Hs]; rewrite bind_Ok; [|by eauto 6].
  specialize (Hs (ltac:(eauto))).
  destruct (IH (es ++ [e]) d1) as (b & es' & d' & -> & Hc'); [by eapply conserves_wf|lia|].
  do 3 eexists. split; [done|]. by etransitivity.
Qed.

Lemma rd1_u8 (l : bytes) i b : bytes_ok l → rd1 l i = Ok b → is_u8 b.
Proof.
  unfold rd1. destruct (l !! i) eqn:E; [|done]. intros Hl [= ->]. by eapply Forall_lookup_1.
Qed.

Lemma u32_range d v d' :
  bytes_ok (data_ d) → deserialize_u32 host false d = Ok (Some v, d') → is_u32 v.
Proof.
  intros Hb. unfold deserialize_u32. case_decide as Hg; [done|]. cbn [negb].
  intros H. apply bind_Ok_inv in H as ([b0 d0] & H0 & H).
  apply bind_Ok_inv in H0 as (b0' & H0 & [= -> <-]).
  apply bind_Ok_inv in H as (b1 & H1 & H). apply bind_Ok_inv in H as (b2 & H2 & H).
  apply bind_Ok_inv in H as (b3 & H3 & [= <- _]).
  assert (bytes_ok [b0; b1; b2; b3]) as Hbs by (repeat constructor; by eapply rd1_u8).
  pose proof (be_val_bound _ Hbs) as Hv. rewrite <- (read_be_spec host _ Hbs) in Hv. exact Hv.
Qed.

Lemma rbind_inv {A B} (m : rdr A) (k : A → rdr B) d b d' :
  rbind m k d = Ok (Some b, d') → ∃ a d1, m d = Ok (Some a, d1) ∧ k a d1 = Ok (Some b, d').
Proof. unfold rbind. destruct (m d) as [[[a|] d1]| | |]; cbn; intros; eauto; done. Qed.

Lemma prefix_range h d h' flags len d' :
  deserializer_wf d → bytes_ok (data_ d) →
  message_sd.read_prefix host h d = Ok (Some (h', flags, len), d') → is_u32 len.
Proof.
  intros Hd Hb H. unfold message_sd.read_prefix in H.
  apply rbind_inv in H as (h1 & d1 & E1 & H). pose proof (reads_message_header no_ub h d Hd) as R1.
  cbv beta in R1. rewrite E1 in R1. destruct R1 as [C1 _].
  apply rbind_inv in H as (f & d2 & E2 & H).
  pose proof (reads_u8 no_ub d1 (conserves_wf _ _ C1 Hd)) as R2. rewrite E2 in R2.
  destruct R2 as [C2 _]. pose proof (transitivity C1 C2) as C12.
  apply rbind_inv in H as (r & d3 & E3 & H).
  pose proof (reads_u24 host no_ub d2 (conserves_wf _ _ C12 Hd)) as R3. rewrite E3 in R3.
  destruct R3 as [C3 _]. pose proof (transitivity C12 C3) as (Hda & _ & _).
  apply rbind_inv in H as (l & d4 & E4 & H). injection H as <- <- <- <-.
  eapply u32_range; [|exact E4]. by rewrite Hda.
Qed.

Lemma wf_set_remaining d n :
  (position_ d + n ≤ length (data_ d))%nat → deserializer_wf (set_remaining n d).
Proof. done. Qed.
End messages.
