(* ===== verification/SdOutcome.v ===== *)
(** * What becomes of a service discovery datagram

    A reference that only looks at the bytes of a datagram ([datagram_end]) says
    how its deserialization ends: where the entry and the option array lie, how
    many bytes each option takes, and whether the walk along the options meets
    one of the two inputs on which the code is undefined.  The theorem of this
    file: [sd::message_impl::deserialize] ends exactly as the reference says. *)

From stdpp Require Import base list sorting.
From Stdlib Require Import ZArith Lia.
From S2P Require Import Prelude BitHelper Serialization Message Sd SdSafety.

(** ** The reference *)

(** How reading one option from the bytes that are left ends. *)
Inductive option_end : Type :=
| opt_stops                    (* it cannot be read *)
| opt_goes (tl : bytes)        (* it was read and leaves [tl] *)
| opt_behind                   (* its type would lie behind the datagram *)
| opt_short_clients.           (* it ends before its clients *)

(** A field that is skipped when it is there. *)
Definition skip (n : nat) (l : bytes) : bytes := if decide (n ≤ length l)%nat then drop n l else l.

Definition takes_bytes (n : nat) (l : bytes) : option_end :=
  if decide (n ≤ length l)%nat then opt_goes (drop n l) else opt_stops.

(** The items of a configuration option: an empty item ends them, and so does
    the end of the bytes; a key must not come twice. *)
Fixpoint items_end (fuel : nat) (c : string_map.t) (l : bytes) : option_end :=
  match fuel, l with
  | S fuel, n :: l =>
      if 0 <? n then
        if decide (Z.to_nat n ≤ length l)%nat then
          let '(k, v) := option_impl.split_item (take (Z.to_nat n) l) in
          match string_map.find k c, drop (Z.to_nat n) l with
          | Some _, _ => opt_stops
          | None, [] => opt_goes []
          | None, l => items_end fuel (string_map.assign k v c) l
          end
        else opt_stops
      else opt_goes l
  | _, _ => opt_stops
  end.

Section reference.
Context (reserve : nat → nat).

(** The part of an option behind the four bytes of its header. *)
Definition body_end (len ty : Z) (l : bytes) : option_end :=
  if ty =? option_type_e.CONFIGURATION then items_end (S (length l)) [] l
  else if ty =? option_type_e.LOAD_BALANCING then takes_bytes 4 l
  else if ty =? option_type_e.PROTECTION then takes_bytes 8 l
  else if (ty =? option_type_e.IP4_ENDPOINT) || (ty =? option_type_e.IP4_MULTICAST)
  then if len =? VSOMEIP_SD_IPV4_OPTION_LENGTH
       then opt_goes (skip 2 (skip 1 (skip 1 (skip 4 l)))) else opt_stops
  else if (ty =? option_type_e.IP6_ENDPOINT) || (ty =? option_type_e.IP6_MULTICAST)
  then if len =? VSOMEIP_SD_IPV6_OPTION_LENGTH
       then opt_goes (skip 2 (skip 1 (skip 1 (skip 16 l)))) else opt_stops
  else if ty =? option_type_e.SELECTIVE
  then let n := (2 * Z.to_nat (len / 2))%nat in
       if decide (n ≤ length l)%nat then opt_goes (drop n l) else opt_short_clients
  else if (len =? 0) || (Z.of_nat (length l) <? len) then opt_stops
  else takes_bytes (reserve (Z.to_nat (len - 1))) l.

(** [at_end]: the option array ends with the datagram. *)
Definition one_option (at_end : bool) (l : bytes) : option_end :=
  match l with
  | [_; _] => if at_end then opt_behind else opt_stops
  | b0 :: b1 :: ty :: _ :: l => body_end (be_val [b0; b1]) ty l
  | _ => opt_stops
  end.

Inductive datagram_end_t : Type := dg_fine | dg_behind | dg_short_clients.

(** Along the options; each takes four bytes at least, so there are enough
    rounds. *)
Fixpoint options_end (fuel : nat) (at_end : bool) (l : bytes) : datagram_end_t :=
  match fuel, l with
  | S fuel, _ :: _ =>
      match one_option at_end l with
      | opt_stops => dg_fine
      | opt_goes tl => options_end fuel at_end tl
      | opt_behind => dg_behind
      | opt_short_clients => dg_short_clients
      end
  | _, _ => dg_fine
  end.

Definition known_entry (ty : Z) : bool :=
  bool_decide (ty ∈ [entry_type_e.FIND_SERVICE; entry_type_e.OFFER_SERVICE;
                     entry_type_e.REQUEST_SERVICE])
  || bool_decide (ty ∈ [entry_type_e.FIND_EVENT_GROUP; entry_type_e.PUBLISH_EVENTGROUP;
                        entry_type_e.SUBSCRIBE_EVENTGROUP; entry_type_e.SUBSCRIBE_EVENTGROUP_ACK]).

(** Only entries of 16 bytes with known types. *)
Fixpoint entries_good (fuel : nat) (l : bytes) : bool :=
  match fuel, l with
  | S fuel, ty :: _ => known_entry ty && bool_decide (16 ≤ length l)%nat
                       && entries_good fuel (drop 16 l)
  | _, _ => true
  end.

(** The length of the entry array is at offset 20, the array follows; the
    options begin behind another length. *)
Definition datagram_end (bs : bytes) : datagram_end_t :=
  let body := drop 24 bs in
  let size := u32 (Z.of_nat (length body)) in
  let entries_length := be_val (take 4 (drop 20 bs)) in
  let entries := take (Z.to_nat entries_length) body in
  let rest := take (Z.to_nat (size - entries_length)) (drop (Z.to_nat entries_length) body) in
  if bool_decide (24 ≤ length bs)%nat && (entries_length <=? size)
     && entries_good (length entries) entries && bool_decide (4 ≤ length rest)%nat
  then
    let opts := take (Z.to_nat (be_val (take 4 rest))) (drop 4 rest) in
    let at_end := bool_decide (24 + Z.to_nat entries_length + 4 + length opts = length bs)%nat in
    options_end (length opts) at_end opts
  else dg_fine.
End reference.

(** ** Readers of a fixed number of bytes *)

Section takes.
Import deserializer.

(** The bytes a deserializer may still read. *)
Definition left_bytes (d : deserializer.t) : bytes :=
  take (remaining_ d) (drop (position_ d) (data_ d)).

Lemma left_bytes_at d : deserializer_wf d → reads_at d (left_bytes d).
Proof. apply wf_reads_at. Qed.

Lemma left_bytes_length d : deserializer_wf d → length (left_bytes d) = remaining_ d.
Proof. intros Hd. by destruct (left_bytes_at d Hd) as (_ & _ & ?). Qed.

Lemma at_left_bytes d bs : reads_at d bs → left_bytes d = bs.
Proof. by intros (_ & ? & _). Qed.

Lemma left_bytes_ok d : bytes_ok (data_ d) → bytes_ok (left_bytes d).
Proof. intros. by apply Forall_take, Forall_drop. Qed.

Lemma left_bytes_advance n d :
  deserializer_wf d → (n ≤ remaining_ d)%nat → left_bytes (advance n d) = drop n (left_bytes d).
Proof.
  intros Hd Hn. apply at_left_bytes, (reads_at_advance n d (take n (left_bytes d))).
  - rewrite take_drop. by apply left_bytes_at.
  - rewrite length_take, left_bytes_length by done. lia.
Qed.

(** [takes n m]: the reader [m] succeeds exactly when there are [n] bytes, which
    it takes; otherwise it stops somewhere in them. *)
Definition takes {A} (n : nat) (m : rdr A) : Prop :=
  ∀ d, deserializer_wf d →
    if decide (n ≤ remaining_ d)%nat
    then ∃ a, m d = Ok (Some a, advance n d)
    else ∃ d', m d = Ok (None, d') ∧ conserves d d'.

Lemma takes_ret {A} (a : A) : takes 0 (rret a).
Proof. intros d _. rewrite decide_True by lia. exists a. by rewrite advance_0. Qed.

Lemma takes_bind {A B} n1 n2 n (m : rdr A) (k : A → rdr B) :
  takes n1 m → (∀ a, takes n2 (k a)) → n = (n1 + n2)%nat → takes n (rbind m k).
Proof.
  intros Hm Hk -> d Hd. specialize (Hm d Hd). unfold rbind.
  destruct (decide (n1 ≤ remaining_ d)%nat) as [H1|H1].
  - destruct Hm as [a ->]. cbn.
    specialize (Hk a (advance n1 d) (wf_advance _ _ Hd H1)). cbn in Hk.
    rewrite advance_advance in Hk.
    destruct (decide (n1 + n2 ≤ remaining_ d)%nat) as [H2|H2].
    + by rewrite decide_True in Hk by lia.
    + rewrite decide_False in Hk by lia. destruct Hk as (d' & -> & Hc).
      eexists; split; [done|]. etransitivity; [by apply conserves_advance|done].
  - destruct Hm as (d' & -> & Hc). cbn. rewrite decide_False by lia. eauto.
Qed.

(** The elementary readers stay where they are when they fail. *)
Definition reads_or_stays {A} (n : nat) (m : rdr A) : Prop :=
  ∀ d, deserializer_wf d →
    if decide (n ≤ remaining_ d)%nat then ∃ a, m d = Ok (Some a, advance n d) else m d = Ok (None, d).

Lemma reads_or_stays_takes {A} n (m : rdr A) : reads_or_stays n m → takes n m.
Proof.
  intros Hm d Hd. specialize (Hm d Hd). case_decide; [done|]. eexists. split; [done|reflexivity].
Qed.

(** From the readers' bounds and the guard with which they start. *)
Lemma reads_stays {A} n (m : rdr A) :
  reads n no_ub m → (∀ d, (remaining_ d < n)%nat → m d = Ok (None, d)) →
  (∀ d o d', m d = Ok (o, d') → (n ≤ remaining_ d)%nat → ∃ a, o = Some a ∧ d' = advance n d) →
  reads_or_stays n m.
Proof.
  intros Hr Hno Hyes d Hd. specialize (Hr d Hd). case_decide as Hn; [|apply Hno; lia].
  destruct (m d) as [[o d']| | |] eqn:E; try done.
  destruct (Hyes d o d' E Hn) as (a & -> & ->). by exists a.
Qed.

Context (host : endianess_e).

Lemma u8_stays : reads_or_stays 1 deserialize_u8.
Proof.
  apply reads_stays; [apply reads_u8| |]; unfold deserialize_u8; intros d.
  - intros ?. by rewrite decide_True by lia.
  - intros o d' H Hn. rewrite decide_False in H by lia. res_inv. eauto.
Qed.

Lemma u16_stays : reads_or_stays 2 (deserialize_u16 host).
Proof.
  apply reads_stays; [apply reads_u16| |]; unfold deserialize_u16; intros d.
  - intros ?. by rewrite decide_True by lia.
  - intros o d' H Hn. rewrite decide_False in H by lia. res_inv. eauto.
Qed.

Lemma u24_stays : reads_or_stays 3 (deserialize_u32 host true).
Proof.
  apply reads_stays; [apply reads_u24| |]; unfold deserialize_u32; intros d.
  - intros ?. by rewrite decide_True by lia.
  - intros o d' H Hn. rewrite decide_False in H by (intros [|[]]; [lia|done]). cbn in H. res_inv. eauto.
Qed.

Lemma u32_stays : reads_or_stays 4 (deserialize_u32 host false).
Proof.
  apply reads_stays; [apply reads_u32| |]; unfold deserialize_u32; intros d.
  - intros ?. by rewrite decide_True by (right; split; [done|lia]).
  - intros o d' H Hn. rewrite decide_False in H by (intros [|[]]; lia). cbn [negb] in H. res_inv.
    eexists. split; [done|]. apply advance_advance.
Qed.

Lemma block_stays n : reads_or_stays n (deserialize_block n).
Proof.
  apply reads_stays; [apply reads_block| |]; unfold deserialize_block; intros d.
  - intros ?. by rewrite decide_True by lia.
  - intros o d' H Hn. rewrite decide_False in H by lia. res_inv. eauto.
Qed.

Lemma vector_stays n : reads_or_stays n (deserialize_vector n).
Proof.
  apply reads_stays; [apply reads_vector| |]; unfold deserialize_vector; intros d.
  - intros ?. by rewrite decide_True by lia.
  - intros o d' H Hn. rewrite decide_False in H by lia. res_inv. eauto.
Qed.

(** A tolerant read skips its bytes when they are there. *)
Lemma try_skips {A} n v (m : rdr A) d :
  reads_or_stays n m → deserializer_wf d →
  ∃ a d', rtry v m d = Ok (Some a, d') ∧ conserves d d' ∧ left_bytes d' = skip n (left_bytes d).
Proof.
  intros Hm Hd. specialize (Hm d Hd). unfold rtry, skip.
  rewrite left_bytes_length by done. destruct (decide (n ≤ remaining_ d)%nat).
  - destruct Hm as [a ->]. cbn. do 2 eexists. split; [done|].
    split; [by apply conserves_advance|by apply left_bytes_advance].
  - rewrite Hm. cbn. do 2 eexists. split; [done|]. split; [reflexivity|done].
Qed.

(** What a fixed reader leaves, in the words of the reference. *)
Lemma takes_end {A} n (m : rdr A) d :
  takes n m → deserializer_wf d →
  match takes_bytes n (left_bytes d) with
  | opt_goes tl => ∃ a d', m d = Ok (Some a, d') ∧ conserves d d' ∧ left_bytes d' = tl
  | opt_stops => ∃ d', m d = Ok (None, d') ∧ conserves d d'
  | _ => False
  end.
Proof.
  intros Hm Hd. specialize (Hm d Hd). unfold takes_bytes. rewrite left_bytes_length by done.
  destruct (decide (n ≤ remaining_ d)%nat); [|done].
  destruct Hm as [a ->]. do 2 eexists. split; [done|].
  split; [by apply conserves_advance|by apply left_bytes_advance].
Qed.
End takes.

Create HintDb takes.
#[export] Hint Resolve u8_stays u16_stays u24_stays u32_stays block_stays vector_stays
  reads_or_stays_takes takes_ret : takes.

Ltac takes_chain :=
  repeat (eapply takes_bind; [solve [eauto with takes]|intros ?|]);
  first [solve [eauto with takes]|reflexivity|lia|idtac].

(** ** One option *)

Section options.
Import deserializer.
Context (host : endianess_e) (reserve : nat → nat).

(** How a reader of an option ends, said by the reference. *)
Definition ends_as {A} (e : option_end) (d : deserializer.t)
    (r : result (option A * deserializer.t)) : Prop :=
  match e with
  | opt_stops => ∃ d', r = Ok (None, d') ∧ conserves d d'
  | opt_goes tl => ∃ a d', r = Ok (Some a, d') ∧ conserves d d' ∧ left_bytes d' = tl
  | opt_behind => r = Ub oob_read
  | opt_short_clients => r = Ub indeterminate
  end.

Lemma takes_ends {A} n (m : rdr A) d :
  takes n m → deserializer_wf d → ends_as (takes_bytes n (left_bytes d)) d (m d).
Proof.
  intros Hm Hd. pose proof (takes_end n m d Hm Hd) as H. by destruct (takes_bytes _ _).
Qed.

(** A successful reader in front. *)
Lemma ends_after {A B} e d d1 (a : A) (m : rdr A) (k : A → rdr B) :
  m d = Ok (Some a, d1) → conserves d d1 → ends_as e d1 (k a d1) → ends_as e d (rbind m k d).
Proof.
  intros Hm Hc. unfold rbind. rewrite Hm, bind_Ok. destruct e; cbn; try done.
  - intros (d' & -> & ?). eexists. split; [done|]. by etransitivity.
  - intros (b & d' & -> & ? & ?). do 2 eexists. split; [done|]. split; [by etransitivity|done].
Qed.

(** A [rret] behind. *)
Lemma ends_then {A B} e d (m : rdr A) (f : A → B) :
  ends_as e d (m d) → ends_as e d (rbind m (λ a, rret (f a)) d).
Proof.
  unfold rbind. destruct e; cbn; [| |by intros ->|by intros ->].
  - intros (d' & -> & ?). eexists. by split.
  - intros (a & d' & -> & ? & ?). do 2 eexists. by split.
Qed.

Lemma items_exact fuel c d :
  deserializer_wf d → bytes_ok (data_ d) → (remaining_ d < fuel)%nat →
  ends_as (items_end fuel c (left_bytes d)) d (option_impl.read_items fuel c d).
Proof.
  revert c d. induction fuel as [|fuel IH]; intros c d Hd Hb Hf; [lia|].
  cbn [option_impl.read_items items_end].
  destruct (left_bytes d) as [|n l] eqn:El.
  { pose proof (left_bytes_length d Hd) as Hl. rewrite El in Hl. cbn in Hl.
    unfold deserialize_u8. rewrite decide_True by lia. cbn. eexists. split; [done|reflexivity]. }
  pose proof (left_bytes_at d Hd) as Hat. rewrite El in Hat.
  rewrite (deserialize_u8_ok d n l Hat), bind_Ok. apply (reads_at_advance 1 _ [n]) in Hat; [|done].
  pose proof (left_bytes_length d Hd) as Hl. rewrite El in Hl. cbn in Hl.
  assert (conserves d (advance 1 d)) as Hc1 by (apply conserves_advance; lia).
  set (d1 := advance 1 d) in *. pose proof (reads_at_wf _ _ Hat) as Hd1.
  destruct (Z.ltb_spec 0 n).
  2:{ do 2 eexists. split; [done|]. split; [done|]. by apply at_left_bytes. }
  assert (n < 256) as Hn.
  { pose proof (left_bytes_ok d Hb) as Hlb. rewrite El in Hlb. apply Forall_inv in Hlb.
    unfold is_u8, in_width in Hlb. lia. }
  destruct Hat as (_ & Hlb & Hrem).
  destruct (decide (Z.to_nat n ≤ length l)%nat) as [Hfit|Hfit].
  2:{ unfold deserialize_string. rewrite decide_True by lia. cbn.
      eexists. split; [done|done]. }
  unfold deserialize_string. rewrite decide_False by lia. rewrite wf_block by (done || lia).
  rewrite !bind_Ok.
  assert (take (Z.to_nat n) (drop (position_ d1) (data_ d1)) = take (Z.to_nat n) l) as Htk
    by (rewrite <- Hlb, take_take; f_equal; lia).
  rewrite Htk. destruct (option_impl.split_item _) as [k v].
  assert (conserves d1 (advance (Z.to_nat n) d1)) as Hc2 by (apply conserves_advance; lia).
  assert (left_bytes (advance (Z.to_nat n) d1) = drop (Z.to_nat n) l) as Hl2.
  { rewrite left_bytes_advance by (done || lia). unfold left_bytes. by rewrite Hlb. }
  assert (remaining_ (advance (Z.to_nat n) d1) < fuel)%nat as Hf2 by (unfold d1, advance; cbn; lia).
  set (d2 := advance (Z.to_nat n) d1) in *. clearbody d2.
  pose proof (transitivity Hc1 Hc2) as Hc. pose proof (conserves_wf _ _ Hc Hd) as Hd2.
  destruct (string_map.find k c); [eexists; by split|].
  pose proof (left_bytes_length d2 Hd2) as Hlen2. rewrite Hl2 in Hlen2.
  destruct (drop (Z.to_nat n) l) as [|b l2] eqn:Edrop; cbn in Hlen2.
  { unfold get_remaining. rewrite decide_False by lia. do 2 eexists. by split. }
  unfold get_remaining. rewrite decide_True by lia. rewrite <- Hl2.
  assert (data_ d2 = data_ d) as Hda by apply Hc.
  specialize (IH (string_map.assign k v c) d2 Hd2). rewrite Hda in IH. specialize (IH Hb).
  specialize (IH Hf2). destruct (items_end fuel _ (left_bytes d2)); cbn in IH |- *; try done.
  - destruct IH as (d' & -> & ?). eexists. split; [done|]. by etransitivity.
  - destruct IH as (a & d' & -> & ? & ?). do 2 eexists. split; [done|]. split; [by etransitivity|done].
Qed.

Lemma ip_exact size expected make d d1 len ty :
  option_impl.deserialize_header host d = Ok (Some (len, ty), d1) → conserves d d1 →
  deserializer_wf d →
  ends_as (if len =? expected then opt_goes (skip 2 (skip 1 (skip 1 (skip size (left_bytes d1)))))
           else opt_stops) d (option_impl.deserialize_ip host size expected make d).
Proof.
  intros Hh Hc Hd. pose proof (conserves_wf _ _ Hc Hd) as Hd1.
  unfold option_impl.deserialize_ip. rewrite Hh, bind_Ok.
  destruct (try_skips size (replicate size 0) (deserialize_block size) d1) as (a & d2 & -> & C2 & <-);
    [apply block_stays|done|]. rewrite bind_Ok.
  pose proof (conserves_wf _ _ C2 Hd1) as Hd2.
  destruct (try_skips 1 layer_four_protocol_e.UNKNOWN deserialize_u8 d2) as (b & d3 & -> & C3 & <-);
    [apply u8_stays|done|]. rewrite bind_Ok.
  pose proof (conserves_wf _ _ C3 Hd2) as Hd3.
  destruct (try_skips 1 (default 0 (Some b)) deserialize_u8 d3) as (e & d4 & -> & C4 & <-);
    [apply u8_stays|done|]. rewrite bind_Ok.
  pose proof (conserves_wf _ _ C4 Hd3) as Hd4.
  destruct (try_skips 2 0 (deserialize_u16 host) d4) as (f & d5 & -> & C5 & <-);
    [apply u16_stays|done|]. rewrite bind_Ok.
  assert (conserves d d5) by (do 4 (etransitivity; [done|]); done).
  destruct (len =? expected); cbn; eauto.
Qed.

Lemma selective_exact d d1 len ty :
  option_impl.deserialize_header host d = Ok (Some (len, ty), d1) → conserves d d1 →
  deserializer_wf d → is_u16 len →
  let n := (2 * Z.to_nat (len / 2))%nat in
  ends_as (if decide (n ≤ length (left_bytes d1))%nat then opt_goes (drop n (left_bytes d1))
           else opt_short_clients) d (option_impl.deserialize_selective host d).
Proof.
  intros Hh Hc Hd Hlen n. pose proof (conserves_wf _ _ Hc Hd) as Hd1.
  eapply ends_after; [done|done|]. cbn [fst snd]. apply ends_then.
  rewrite left_bytes_length by done.
  destruct (read_clients_outcome host reserve (S (Z.to_nat len)) len 0 [] d1) as [Hok Hbad]; [done|lia| |done|].
  { assert (len / 2 ≤ len) by (apply Z.div_le_upper_bound; destruct Hlen; lia). lia. }
  change (1 + 2 * Z.of_nat 0) with 1 in *. rewrite Nat.sub_0_r in *. fold n in Hok, Hbad.
  destruct (decide (n ≤ remaining_ d1)%nat) as [Hn|Hn]; unfold ends_as.
  - destruct (Hok Hn) as (cs & ->). do 2 eexists. split; [done|].
    split; [by apply conserves_advance|by apply left_bytes_advance].
  - apply Hbad. lia.
Qed.

(** The body of an option whose header was read. *)
Lemma body_exact d d1 len ty0 ty :
  option_impl.deserialize_header host d = Ok (Some (len, ty0), d1) → conserves d d1 →
  deserializer_wf d → bytes_ok (data_ d) → is_u16 len → data_ d !! (position_ d + 2)%nat = Some ty →
  (2 ≤ remaining_ d)%nat →
  ends_as (body_end reserve len ty (left_bytes d1)) d (option_impl.deserialize_option host reserve d).
Proof.
  intros Hh Hc Hd Hb Hlen Hty Hr. pose proof (conserves_wf _ _ Hc Hd) as Hd1.
  unfold option_impl.deserialize_option. rewrite (look_ahead_cases _ _ (left_bytes_at d Hd)).
  rewrite decide_False by (rewrite left_bytes_length by done; lia). rewrite Hty, bind_Ok.
  unfold body_end.
  destruct (ty =? option_type_e.CONFIGURATION).
  { eapply ends_after; [done..|]. apply ends_then. rewrite left_bytes_length by done.
    apply items_exact; [done| |unfold get_remaining; lia]. destruct Hc as (-> & _). done. }
  destruct (ty =? option_type_e.LOAD_BALANCING).
  { eapply ends_after; [done..|]. apply takes_ends; [by takes_chain|done]. }
  destruct (ty =? option_type_e.PROTECTION).
  { eapply ends_after; [done..|]. apply takes_ends; [by takes_chain|done]. }
  destruct (_ || _); [by eapply ip_exact|]. destruct (_ || _); [by eapply ip_exact|].
  destruct (ty =? option_type_e.SELECTIVE); [by eapply selective_exact|].
  eapply ends_after; [done..|]. cbn [fst]. rewrite left_bytes_length by done.
  unfold get_remaining. destruct (_ || _); [eexists; split; [done|reflexivity]|].
  apply takes_ends; [by takes_chain|done].
Qed.

(** Fewer bytes than a header: the option cannot be read. *)
Lemma short_option d ty :
  deserializer_wf d → (2 ≤ remaining_ d < 4)%nat → data_ d !! (position_ d + 2)%nat = Some ty →
  ends_as opt_stops d (option_impl.deserialize_option host reserve d).
Proof.
  intros Hd Hr Hty. unfold option_impl.deserialize_option.
  rewrite (look_ahead_cases _ _ (left_bytes_at d Hd)).
  rewrite decide_False by (rewrite left_bytes_length by done; lia). rewrite Hty, bind_Ok.
  destruct (header_short host d) as [d1 E]; [done|lia|].
  pose proof (reads_header host no_ub d Hd) as Hc. rewrite E in Hc. destruct Hc as [Hc _].
  pose proof (conserves_wf _ _ Hc Hd) as Hd1.
  assert (∀ A (k : Z * Z → rdr A), ends_as opt_stops d
    (rbind (option_impl.deserialize_header host) k d)) as Hbind.
  { intros A k. unfold rbind. rewrite E. cbn. eauto. }
  assert (∀ size expected make, ends_as opt_stops d
    (option_impl.deserialize_ip host size expected make d)) as Hip.
  { intros size expected make. unfold option_impl.deserialize_ip. rewrite E, bind_Ok.
    destruct (try_skips size (replicate size 0) (deserialize_block size) d1) as (a & d2 & -> & C2 & _);
      [apply block_stays|done|]. rewrite bind_Ok. pose proof (conserves_wf _ _ C2 Hd1) as Hd2.
    destruct (try_skips 1 layer_four_protocol_e.UNKNOWN deserialize_u8 d2) as (b & d3 & -> & C3 & _);
      [apply u8_stays|done|]. rewrite bind_Ok. pose proof (conserves_wf _ _ C3 Hd2) as Hd3.
    destruct (try_skips 1 (default 0 (Some b)) deserialize_u8 d3) as (e & d4 & -> & C4 & _);
      [apply u8_stays|done|]. rewrite bind_Ok. pose proof (conserves_wf _ _ C4 Hd3) as Hd4.
    destruct (try_skips 2 0 (deserialize_u16 host) d4) as (f & d5 & -> & C5 & _);
      [apply u16_stays|done|]. rewrite bind_Ok.
    eexists. split; [done|]. do 4 (etransitivity; [done|]). done. }
  repeat match goal with |- ends_as _ _ (if ?c then _ else _) => destruct c end; apply Hbind || apply Hip.
Qed.

(** [deserialize_option] on every input. *)
Lemma option_exact d :
  deserializer_wf d → bytes_ok (data_ d) →
  ends_as (one_option reserve (bool_decide (position_ d + remaining_ d = length (data_ d))%nat)
             (left_bytes d)) d (option_impl.deserialize_option host reserve d).
Proof.
  intros Hd Hb. pose proof (left_bytes_at d Hd) as Hat. pose proof (left_bytes_length d Hd) as Hlen.
  pose proof (left_bytes_ok d Hb) as Hlb.
  assert ((remaining_ d < 2)%nat → ends_as opt_stops d (option_impl.deserialize_option host reserve d))
    as Hless.
  { intros Hr. unfold option_impl.deserialize_option. rewrite (look_ahead_cases _ _ Hat).
    rewrite decide_True by lia. eexists. split; [done|reflexivity]. }
  assert ((2 < remaining_ d)%nat → ∃ ty, data_ d !! (position_ d + 2)%nat = Some ty
            ∧ left_bytes d !! 2%nat = Some ty) as Htype.
  { intros Hr. destruct (lookup_lt_is_Some_2 (left_bytes d) 2) as [ty Hty]; [lia|].
    exists ty. split; [by apply (reads_at_lookup d _ 2 _ Hat)|done]. }
  destruct (left_bytes d) as [|b0 [|b1 [|ty [|r l]]]] eqn:El; cbn [one_option length] in *.
  - apply Hless. lia.
  - apply Hless. lia.
  - case_bool_decide as Hend.
    + unfold option_impl.deserialize_option. rewrite (look_ahead_cases _ _ Hat).
      rewrite decide_False by (cbn; lia). rewrite lookup_ge_None_2 by lia. done.
    + unfold deserializer_wf in Hd.
      destruct (lookup_lt_is_Some_2 (data_ d) (position_ d + 2)) as [ty Hty]; [lia|].
      by apply (short_option d ty); [|lia|].
  - destruct Htype as (? & Hty & _); [lia|]. by eapply short_option; [|lia|].
  - destruct Htype as (ty' & Hty & Hty'); [lia|]. cbn in Hty'. injection Hty' as <-.
    destruct (header_read host d _ Hat Hlb) as (len & ty' & r' & rest & d1 & Heq & Hlen' & Hh & Hat1);
      [cbn; lia|].
    assert (be_val [b0; b1] = len ∧ ty' = ty ∧ rest = l) as (-> & -> & ->).
    { change (b0 :: b1 :: ty :: r :: l) with ([b0; b1] ++ ty :: r :: l) in Heq.
      apply (app_inj_1 [b0; b1]) in Heq as [-> [= -> _ ->]]; [|by rewrite be_bytes_length].
      split; [|done]. rewrite <- (read_be_spec le (be_bytes 2 len)) by apply be_bytes_ok.
      rewrite be_bytes_length. by apply read_be_small. }
    pose proof (reads_header host no_ub d Hd) as Hc. rewrite Hh in Hc. destruct Hc as [Hc _].
    rewrite <- (at_left_bytes _ _ Hat1). eapply body_exact; try done. lia.
Qed.
End options.

(** ** The two arrays *)

Lemma skip_length n l : (length (skip n l) ≤ length l)%nat.
Proof. unfold skip. case_decide; [rewrite length_drop|]; lia. Qed.

Lemma takes_bytes_shrinks n l tl : takes_bytes n l = opt_goes tl → (length tl ≤ length l)%nat.
Proof. unfold takes_bytes. case_decide; [|done]. intros [= <-]. rewrite length_drop. lia. Qed.

Lemma items_end_shrinks fuel c l tl : items_end fuel c l = opt_goes tl → (length tl ≤ length l)%nat.
Proof.
  revert c l. induction fuel as [|fuel IH]; intros c l; [done|]. destruct l as [|n l]; [done|].
  cbn [items_end length]. destruct (0 <? n); [|intros [= <-]; lia]. case_decide; [|done].
  destruct (option_impl.split_item _) as [k v]. destruct (string_map.find k c); [done|].
  assert (length (drop (Z.to_nat n) l) ≤ length l)%nat as Hd by (rewrite length_drop; lia).
  destruct (drop (Z.to_nat n) l) as [|b l2]; [intros [= <-]; cbn; lia|].
  intros Ht%IH. lia.
Qed.

Lemma one_option_shrinks reserve e l tl :
  one_option reserve e l = opt_goes tl → (length tl + 4 ≤ length l)%nat.
Proof.
  destruct l as [|b0 [|b1 [|ty [|r l]]]]; try done; [by destruct e|].
  cbn [one_option length]. unfold body_end.
  repeat match goal with |- (if ?c then _ else _) = _ → _ => destruct c end; try done;
    try (intros Hb; first [apply takes_bytes_shrinks in Hb|apply items_end_shrinks in Hb]; lia).
  - intros [= <-]. pose proof (skip_length 2 (skip 1 (skip 1 (skip 4 l)))).
    pose proof (skip_length 1 (skip 1 (skip 4 l))). pose proof (skip_length 1 (skip 4 l)).
    pose proof (skip_length 4 l). lia.
  - intros [= <-]. pose proof (skip_length 2 (skip 1 (skip 1 (skip 16 l)))).
    pose proof (skip_length 1 (skip 1 (skip 16 l))). pose proof (skip_length 1 (skip 16 l)).
    pose proof (skip_length 16 l). lia.
  - intros [= <-]. rewrite length_drop. lia.
Qed.

Section messages.
Import deserializer.
Context (host : endianess_e) (reserve : nat → nat).

(** How a message is deserialized, said by the reference. *)
Definition ends_message {A} (e : datagram_end_t) (r : result A) : Prop :=
  match e with
  | dg_fine => ∃ a, r = Ok a
  | dg_behind => r = Ub oob_read
  | dg_short_clients => r = Ub indeterminate
  end.

Lemma ends_message_then {A B} e (r : result A) (f : A → result B) :
  ends_message e r → (∀ a, ∃ b, f a = Ok b) → ends_message e (r ≫= f).
Proof. destruct e; cbn; [intros (a & ->) Hf; apply Hf|by intros ->|by intros ->]. Qed.

Lemma options_exact fuel os d :
  deserializer_wf d → bytes_ok (data_ d) → (remaining_ d ≤ fuel)%nat →
  ends_message (options_end reserve fuel
                  (bool_decide (position_ d + remaining_ d = length (data_ d))%nat) (left_bytes d))
    (message_sd.read_options host reserve fuel os d).
Proof.
  revert os d. induction fuel as [|fuel IH]; intros os d Hd Hb Hf;
    cbn [message_sd.read_options options_end]; unfold get_remaining.
  { rewrite decide_True by lia. by eexists. }
  pose proof (left_bytes_length d Hd) as Hlen.
  destruct (left_bytes d) as [|b l] eqn:El; cbn [length] in Hlen.
  { rewrite decide_True by lia. by eexists. }
  rewrite decide_False by lia. pose proof (option_exact host reserve d Hd Hb) as H.
  rewrite El in H. destruct (one_option reserve _ (b :: l)) as [|tl| |] eqn:Eo; cbn [ends_as] in H.
  - destruct H as (d' & -> & _). by eexists.
  - destruct H as (o & d' & -> & Hc & <-). rewrite bind_Ok.
    apply one_option_shrinks in Eo. cbn [length] in Eo.
    pose proof (conserves_wf _ _ Hc Hd) as Hd'. destruct Hc as (Hda & Hpos & _).
    rewrite left_bytes_length in Eo by done. rewrite <- Hda, <- Hpos.
    apply IH; [done|by rewrite Hda|lia].
  - by rewrite H.
  - by rewrite H.
Qed.

Lemma takes_entry_base b : takes 8 (entry_impl.deserialize_base host b).
Proof. unfold entry_impl.deserialize_base. by takes_chain. Qed.

Lemma entry_exact d ty l :
  deserializer_wf d → left_bytes d = ty :: l →
  if known_entry ty && bool_decide (16 ≤ remaining_ d)%nat
  then ∃ e, entry_impl.deserialize_entry host d = Ok (Some e, advance 16 d)
  else ∃ d', entry_impl.deserialize_entry host d = Ok (None, d') ∧ conserves d d'.
Proof.
  intros Hd El. unfold entry_impl.deserialize_entry, look_ahead_u8. rewrite decide_False by lia.
  pose proof (reads_at_lookup d _ 0 ty (left_bytes_at d Hd)) as Hty. rewrite El in Hty.
  specialize (Hty eq_refl). unfold rd1. rewrite Hty, !bind_Ok.
  assert (∀ m : rdr entry_impl.t, takes 16 m →
    if bool_decide (16 ≤ remaining_ d)%nat then ∃ e, m d = Ok (Some e, advance 16 d)
    else ∃ d', m d = Ok (None, d') ∧ conserves d d') as Hm.
  { intros m Hm. specialize (Hm d Hd). case_decide; case_bool_decide; done. }
  pose proof takes_entry_base as Hbase. unfold known_entry.
  destruct (bool_decide (ty ∈ [entry_type_e.FIND_SERVICE; _; _])); cbn [orb andb];
    [|destruct (bool_decide (ty ∈ [entry_type_e.FIND_EVENT_GROUP; _; _; _])); cbn [andb]].
  - apply Hm. unfold entry_impl.deserialize_serviceentry. by takes_chain.
  - apply Hm. unfold entry_impl.deserialize_eventgroupentry. by takes_chain.
  - eexists. split; [done|reflexivity].
Qed.

Lemma entries_exact fuel es d :
  deserializer_wf d → (remaining_ d ≤ fuel)%nat →
  ∃ es' d', message_sd.read_entries host fuel es d
            = Ok ((entries_good fuel (left_bytes d), es'), d')
    ∧ conserves d d' ∧ (entries_good fuel (left_bytes d) = true → remaining_ d' = 0%nat).
Proof.
  revert es d. induction fuel as [|fuel IH]; intros es d Hd Hf;
    cbn [message_sd.read_entries entries_good]; unfold get_remaining.
  { rewrite decide_True by lia. do 2 eexists. split; [done|]. split; [reflexivity|lia]. }
  pose proof (left_bytes_length d Hd) as Hlen.
  destruct (left_bytes d) as [|ty l] eqn:El; cbn [length] in Hlen.
  { rewrite decide_True by lia. do 2 eexists. split; [done|]. split; [reflexivity|lia]. }
  rewrite decide_False by lia. pose proof (entry_exact d ty l Hd El) as H. cbn [length]. rewrite Hlen.
  destruct (known_entry ty && bool_decide (16 ≤ remaining_ d)%nat) eqn:E.
  - destruct H as (e & ->). rewrite bind_Ok. apply andb_true_iff in E as [_ E%bool_decide_eq_true].
    rewrite <- El, <- left_bytes_advance by done. cbn [andb].
    destruct (IH (es ++ [e]) (advance 16 d)) as (es' & d' & -> & Hc & Hz);
      [by apply wf_advance|unfold advance; cbn; lia|].
    do 2 eexists. split; [done|]. split; [|done].
    etransitivity; [by apply conserves_advance|done].
  - destruct H as (d' & -> & Hc). rewrite bind_Ok. do 2 eexists. split; [done|]. split; [done|].
    done.
Qed.

(** *** The header of the message *)

Definition bop_takes {T} (n : nat) (m : bop (T * deserializer.t)) : Prop :=
  ∀ s, deserializer_wf s.2 →
    if decide (n ≤ remaining_ s.2)%nat then ∃ x, m s = Ok (true, (x, advance n s.2))
    else ∃ x d', m s = Ok (false, (x, d')) ∧ conserves s.2 d'.

Lemma bop_takes_and {T} n1 n2 n (m1 m2 : bop (T * deserializer.t)) :
  bop_takes n1 m1 → bop_takes n2 m2 → n = (n1 + n2)%nat → bop_takes n (m1 ;&& m2).
Proof.
  intros H1 H2 -> s Hs. specialize (H1 s Hs). case_decide as Hn1.
  - destruct H1 as (x & E). rewrite (bop_and_true _ _ _ _ E).
    specialize (H2 (x, advance n1 s.2) (wf_advance _ _ Hs Hn1)). cbn in H2.
    destruct (decide (n1 + n2 ≤ remaining_ s.2)%nat) as [Hn|Hn].
    + rewrite decide_True in H2 by lia. by rewrite advance_advance in H2.
    + rewrite decide_False in H2 by lia. destruct H2 as (y & d' & -> & Hc). do 2 eexists.
      split; [done|]. etransitivity; [by apply conserves_advance|done].
  - destruct H1 as (x & d' & E & Hc). rewrite (bop_and_false _ _ _ _ E).
    rewrite decide_False by lia. eauto.
Qed.

Lemma bop_takes_into {T V} n (set : V → T → T) op : takes n op → bop_takes n (into set op).
Proof.
  intros Hop [x d] Hd. specialize (Hop d Hd). cbn [snd]. unfold into.
  case_decide; [destruct Hop as (v & ->)|destruct Hop as (d' & -> & ?)]; cbn; eauto.
Qed.

Lemma takes_message_header h :
  takes 16 (λ d, '(ok, (h, d)) ← message_header_impl.deserialize host (h, d);
                 Ok (if (ok : bool) then Some h else None, d)).
Proof.
  intros d Hd.
  assert (bop_takes 16 (message_header_impl.read_fields host)) as Hc.
  { unfold message_header_impl.read_fields. cbn zeta.
    repeat (eapply bop_takes_and; [eapply bop_takes_into; eauto with takes| |reflexivity]).
    eapply bop_takes_into. eauto with takes. }
  specialize (Hc ((h, (0, 0)), d) Hd). cbn [snd] in Hc. unfold message_header_impl.deserialize.
  case_decide; [destruct Hc as ([h' [ty co]] & ->)|destruct Hc as ([h' [ty co]] & d' & -> & ?)];
    cbn; eauto.
Qed.

Lemma u32_value d v d' :
  deserializer_wf d → bytes_ok (data_ d) → deserialize_u32 host false d = Ok (Some v, d') →
  v = be_val (take 4 (left_bytes d)).
Proof.
  intros Hd Hb E. pose proof (u32_stays host d Hd) as Hs. rewrite E in Hs.
  case_decide as Hn; [|done]. clear Hs.
  pose proof (left_bytes_at d Hd) as Hat. pose proof (left_bytes_ok d Hb) as Hlb.
  assert (length (take 4 (left_bytes d)) = 4%nat) as H4
    by (rewrite length_take, left_bytes_length by done; lia).
  pose proof (be_val_bound _ (Forall_take _ 4 _ Hlb)) as Hv. rewrite H4 in Hv.
  rewrite <- (take_drop 4 (left_bytes d)) in Hat.
  rewrite <- (be_bytes_val (take 4 (left_bytes d))) in Hat by by apply Forall_take.
  rewrite H4 in Hat. rewrite (deserialize_u32_ok host d _ _ Hv Hat) in E. by injection E.
Qed.

Lemma prefix_exact h d :
  deserializer_wf d → bytes_ok (data_ d) →
  if decide (24 ≤ remaining_ d)%nat
  then ∃ h' flags, message_sd.read_prefix host h d
         = Ok (Some (h', flags, be_val (take 4 (drop 20 (left_bytes d)))), advance 24 d)
  else ∃ d', message_sd.read_prefix host h d = Ok (None, d').
Proof.
  intros Hd Hb. pose proof (takes_message_header h) as Hh.
  assert (takes 24 (message_sd.read_prefix host h)) as Ht
    by (unfold message_sd.read_prefix; by takes_chain).
  specialize (Ht d Hd). case_decide as Hn; [|destruct Ht as (d' & -> & _); eauto].
  destruct Ht as ([[h' f] len] & E). rewrite E. exists h', f. do 4 f_equal.
  unfold message_sd.read_prefix in E.
  apply rbind_inv in E as (h1 & d1 & E1 & E). specialize (Hh d Hd). cbv beta in Hh.
  rewrite E1, decide_True in Hh by lia. destruct Hh as (? & [= _ ->]).
  apply rbind_inv in E as (f1 & d2 & E2 & E).
  pose proof (u8_stays (advance 16 d) (wf_advance d 16 Hd ltac:(lia))) as H2.
  rewrite E2, decide_True in H2 by (cbn; lia). destruct H2 as (? & [= _ ->]).
  apply rbind_inv in E as (r & d3 & E3 & E). rewrite advance_advance in E3.
  pose proof (u24_stays host (advance (16 + 1) d) (wf_advance d (16 + 1) Hd ltac:(lia))) as H3.
  rewrite E3, decide_True in H3 by (cbn; lia). destruct H3 as (? & [= _ ->]).
  apply rbind_inv in E as (l & d4 & E4 & [= _ _ <- _]). rewrite advance_advance in E4.
  apply u32_value in E4; [|apply wf_advance; [done|lia]|done].
  rewrite left_bytes_advance in E4 by (done || lia). exact E4.
Qed.

(** *** The option array and the message *)

Lemma left_bytes_set d n :
  (n ≤ remaining_ d)%nat → left_bytes (set_remaining n d) = take n (left_bytes d).
Proof. intros. unfold left_bytes, set_remaining. cbn. rewrite take_take. f_equal. lia. Qed.

Lemma option_array_exact b m d :
  deserializer_wf d → bytes_ok (data_ d) → message_sd.options_length_ m = 0 →
  let rest := left_bytes d in
  let opts := take (Z.to_nat (be_val (take 4 rest))) (drop 4 rest) in
  ends_message (if b && bool_decide (4 ≤ length rest)%nat
    then options_end reserve (length opts)
           (bool_decide (position_ d + 4 + length opts = length (data_ d))%nat) opts
    else dg_fine) (message_sd.read_option_array host reserve b m d).
Proof.
  intros Hd Hb Hz rest opts. unfold message_sd.read_option_array.
  pose proof (left_bytes_length d Hd) as Hlen. fold rest in Hlen. rewrite Hlen.
  unfold get_remaining. case_decide as H0.
  { rewrite H0. rewrite (bool_decide_false (4 ≤ 0)%nat) by lia. rewrite andb_false_r. by eexists. }
  pose proof (u32_stays host d Hd) as Hu.
  destruct b; cbn [andb].
  2:{ rewrite bind_Ok. cbn [default]. rewrite Hz. cbn zeta.
      rewrite (proj2 (Z.ltb_lt _ _)) by lia. cbn. by eexists. }
  case_decide as H4.
  - rewrite bool_decide_true by done. destruct Hu as (len & E). rewrite E, bind_Ok. cbn [default].
    pose proof (u32_value d len _ Hd Hb E) as ->. cbn zeta. fold rest.
    set (ol := be_val (take 4 rest)). set (d1 := advance 4 d). change (id ol) with ol.
    assert (0 ≤ ol) as Hol by (apply be_val_bound, Forall_take, left_bytes_ok, Hb).
    assert (deserializer_wf d1) as Hd1 by by apply wf_advance.
    assert (left_bytes d1 = drop 4 rest) as El by by apply left_bytes_advance.
    assert (∃ n, (if ol <? Z.of_nat (remaining_ d1) then set_remaining (Z.to_nat ol) d1 else d1)
                 = set_remaining n d1 ∧ n = length opts) as (n & -> & Hn).
    { pose proof (left_bytes_length d1 Hd1) as Hl1. rewrite El in Hl1.
      unfold opts. fold ol. rewrite length_take, Hl1. destruct (Z.ltb_spec ol (Z.of_nat (remaining_ d1))).
      - eexists. split; [done|]. lia.
      - exists (remaining_ d1). split; [by destruct d1|]. lia. }
    assert (n ≤ remaining_ d1)%nat as Hle.
    { rewrite Hn. unfold opts. rewrite length_take, <- El, left_bytes_length by done. lia. }
    pose proof (options_exact n (message_sd.options_ m) (set_remaining n d1)) as H.
    assert (left_bytes (set_remaining n d1) = opts) as Ho.
    { rewrite left_bytes_set, El by done. rewrite Hn. unfold opts. rewrite length_take, <- take_take.
      by rewrite (take_ge _ (length _)) by lia. }
    change (remaining_ (set_remaining n d1)) with n in *.
    assert (position_ (set_remaining n d1) + n = position_ d + 4 + length opts)%nat as Hpos
      by (rewrite <- Hn; cbn; lia).
    rewrite Ho, Hpos in H. rewrite <- Hn at 1.
    apply ends_message_then; [|intros [os d']; by eexists].
    apply H; [unfold deserializer_wf in *; cbn in *; lia|done|done].
  - rewrite bool_decide_false by done. rewrite Hu, bind_Ok. cbn [default]. rewrite Hz. cbn zeta.
    rewrite (proj2 (Z.ltb_lt _ _)) by lia. cbn. by eexists.
Qed.

Lemma message_exact bs th :
  bytes_ok bs →
  ends_message (datagram_end reserve bs)
    (message_sd.deserialize host reserve message_sd.create (of_data bs th)).
Proof.
  intros Hb. set (d := of_data bs th).
  assert (deserializer_wf d) as Hd by apply (reads_at_wf _ _ (reads_at_of_data bs th)).
  assert (left_bytes d = bs) as El by (apply at_left_bytes, reads_at_of_data).
  pose proof (prefix_exact (message_sd.header_ message_sd.create) d Hd Hb) as Hp.
  unfold message_sd.deserialize, datagram_end. rewrite El in Hp.
  change (remaining_ d) with (length bs) in Hp.
  case_decide as H24; [rewrite bool_decide_true by done|rewrite bool_decide_false by done].
  2:{ destruct Hp as (d' & ->). cbn. by eexists. }
  destruct Hp as (h & f & ->). rewrite bind_Ok. cbn zeta. unfold get_remaining.
  set (el := be_val (take 4 (drop 20 bs))). set (d1 := advance 24 d).
  assert (deserializer_wf d1) as Hd1 by by apply wf_advance.
  assert (left_bytes d1 = drop 24 bs) as El1 by (by rewrite <- El; apply left_bytes_advance).
  pose proof (left_bytes_length d1 Hd1) as Hl1. rewrite El1 in Hl1. rewrite <- Hl1.
  set (size := u32 (Z.of_nat (length (drop 24 bs)))).
  assert (0 ≤ el) as Hel by (apply be_val_bound, Forall_take, Forall_drop, Hb).
  destruct (Z.ltb_spec size el) as [Hlt|Hge].
  { rewrite (proj2 (Z.leb_gt _ _)) by lia. cbn. by eexists. }
  rewrite (proj2 (Z.leb_le _ _)) by lia. cbn [andb].
  assert (size ≤ Z.of_nat (length (drop 24 bs))) as Hsize
    by (apply Z.mod_le; lia).
  assert (is_u32 size) as Hsize32 by (apply wrap_range; lia).
  set (d2 := set_remaining (Z.to_nat el) d1).
  assert (left_bytes d2 = take (Z.to_nat el) (drop 24 bs)) as El2
    by (rewrite <- El1; apply left_bytes_set; lia).
  assert (deserializer_wf d2) as Hd2
    by (apply wf_set_remaining; unfold deserializer_wf in Hd1; lia).
  assert (remaining_ d2 = length (take (Z.to_nat el) (drop 24 bs))) as Hr2
    by (rewrite <- El2; symmetry; by apply left_bytes_length).
  destruct (entries_exact (remaining_ d2) [] d2 Hd2 (le_n _)) as (es & d3 & E & Hc & Hz).
  rewrite El2, Hr2 in E, Hz. rewrite Hr2. change (message_sd.entries_ message_sd.create) with (@nil entry_impl.t).
  cbn [message_sd.entries_]. change (message_sd.entries_ message_sd.create) with (@nil entry_impl.t).
  rewrite E, bind_Ok.
  set (good := entries_good _ _) in *. clearbody good.
  assert (u32 (size - el) = size - el) as -> by (apply wrap_small; unfold is_u32, in_width in *; lia).
  set (rest := take (Z.to_nat (size - el)) (drop (Z.to_nat el) (drop 24 bs))).
  destruct Hc as (Hda & Hpos & Hrem).
  change (position_ d2 + remaining_ d2)%nat with (24 + Z.to_nat el)%nat in Hpos.
  set (d4 := set_remaining (Z.to_nat (size - el)) d3).
  assert (good = true → left_bytes d4 = rest ∧ position_ d4 = 24 + Z.to_nat el)%nat as Hgood.
  { intros Hg. rewrite (Hz Hg) in Hpos. split; [|cbn; lia]. unfold left_bytes, d4, rest. cbn.
    rewrite Hda. cbn. by rewrite drop_drop, <- Hpos, Nat.add_0_r. }
  assert (deserializer_wf d4) as Hd4.
  { unfold d4. apply wf_set_remaining. rewrite Hda. rewrite length_drop in Hl1, Hsize. cbn. lia. }
  pose proof (option_array_exact good (message_sd.mk h f 0 es []
    (message_sd.current_message_size_ message_sd.create)) d4 Hd4) as H.
  change (data_ d4) with (data_ d3) in H. rewrite Hda in H. specialize (H Hb eq_refl).
  destruct good; [|exact H].
  destruct (Hgood eq_refl) as [El4 Hpos4]. rewrite El4, Hpos4 in H. cbn [andb] in *. exact H.
Qed.
End messages.

(** (C33) Whatever datagram arrives, deserializing it as a service discovery
    message throws nothing, ends its loops and ends exactly as the reference
    says that reads the bytes alone: it is undefined exactly when the walk along
    the options of a well-formed entry array leaves the last two bytes of the
    datagram over (the type of an option is looked up behind the buffer), or
    comes to a selective option with fewer clients than its length announces
    (an uninitialised client is inserted); otherwise it returns. *)
Theorem sd_deserialize_outcome (host : endianess_e) (reserve : nat → nat) (bs : bytes) (th : Z)
    (Hbytes : bytes_ok bs) :
  let r := message_sd.deserialize_sd_message host reserve (deserializer.of_data bs th) in
  match datagram_end reserve bs with
  | dg_fine => ∃ m, r = Ok m
  | dg_behind => r = Ub oob_read
  | dg_short_clients => r = Ub indeterminate
  end.
Proof.
  cbn zeta. unfold message_sd.deserialize_sd_message.
  apply (ends_message_then (datagram_end reserve bs)); [by apply message_exact|].
  intros [[b m] d]. by eexists.
Qed.

(** Two bytes that are left over behind an empty entry array. *)
Definition two_bytes_left : bytes :=
  [255; 255; 129; 0; 0; 0; 0; 22; 0; 0; 0; 1; 1; 1; 2; 0; 64; 0; 0; 0; 0; 0; 0; 0; 0; 0; 0; 2; 0; 9].

(** A load balancing option in front of a selective option that announces two
    clients and has one. *)
Definition one_client_short : bytes :=
  [255; 255; 129; 0; 0; 0; 0; 34; 0; 0; 0; 1; 1; 1; 2; 0; 64; 0; 0; 0; 0; 0; 0; 0; 0; 0; 0; 14;
   0; 5; 2; 0; 0; 1; 0; 2; 0; 5; 32; 0; 18; 52].

Lemma sd_deserialize_outcome_witness :
  message_sd.deserialize_sd_message le id (deserializer.of_data two_bytes_left 0) = Ub oob_read
  ∧ message_sd.deserialize_sd_message le id (deserializer.of_data one_client_short 0)
    = Ub indeterminate
  ∧ ∃ m, message_sd.deserialize_sd_message le id
           (deserializer.of_data (two_bytes_left ++ [1]) 0) = Ok m.
Proof.
  split_and!.
  - exact (sd_deserialize_outcome le id two_bytes_left 0 ltac:(by_eval)).
  - exact (sd_deserialize_outcome le id one_client_short 0 ltac:(by_eval)).
  - exact (sd_deserialize_outcome le id (two_bytes_left ++ [1]) 0 ltac:(by_eval)).
Defined.
