(* ===== verification/SdWire.v ===== *)
(** * The wire format of service discovery messages

    What [sd::message_impl::serialize] appends, what [deserialize] makes of it,
    and the round trip. *)

From stdpp Require Import base list sorting.
From Stdlib Require Import ZArith Lia.
From S2P Require Import Prelude BitHelper Serialization Message Sd SdSafety.

(** ** The format *)

Definition body_bytes (b : option_impl.body) : bytes :=
  match b with
  | option_impl.configuration_option_impl c => option_impl.configuration_string c
  | option_impl.load_balancing_option_impl p w => be_bytes 2 p ++ be_bytes 2 w
  | option_impl.protection_option_impl c r => be_bytes 4 c ++ be_bytes 4 r
  | option_impl.ipv4_option_impl a protocol port
  | option_impl.ipv6_option_impl a protocol port => a ++ [0; protocol] ++ be_bytes 2 port
  | option_impl.selective_option_impl cs => concat (be_bytes 2 <$> cs)
  | option_impl.unknown_option_impl _ => []
  end.

Definition option_bytes (o : option_impl.t) : bytes :=
  be_bytes 2 (option_impl.length_ o) ++ [option_impl.type_ o; 0]
  ++ body_bytes (option_impl.body_ o).

Definition entry_bytes (e : entry_impl.t) : bytes :=
  [entry_impl.type_ e; default 0 (head (entry_impl.run1_ e));
   default 0 (head (entry_impl.run2_ e)); entry_impl.number_of_options e]
  ++ be_bytes 2 (entry_impl.service_ e) ++ be_bytes 2 (entry_impl.instance_ e)
  ++ [entry_impl.major_version_ e] ++ be_bytes 3 (entry_impl.ttl_ e)
  ++ match entry_impl.body_ e with
     | entry_impl.serviceentry_impl minor => be_bytes 4 minor
     | entry_impl.eventgroupentry_impl g _ _ => be_bytes 2 0 ++ be_bytes 2 g
     end.

Definition sd_bytes (m : message_sd.t) : bytes :=
  header_bytes (message_sd.get_length m) (message_sd.header_ m)
  ++ [message_sd.flags_ m] ++ be_bytes 3 0
  ++ be_bytes 4 (u32 (Z.of_nat (length (message_sd.entries_ m)) * 16))
  ++ concat (entry_bytes <$> message_sd.entries_ m)
  ++ be_bytes 4 (message_sd.options_size (message_sd.options_ m))
  ++ concat ((λ p, option_bytes p.2) <$> message_sd.options_ m).

(** ** What serialization appends *)

(** [appends m bs]: the call succeeds and appends [bs]. *)
Definition appends (m : bop serializer.t) (bs : bytes) : Prop :=
  ∀ s, m s = Ok (true, serializer.with_data s (serializer.data_ s ++ bs)).

Lemma appends_and m1 m2 b1 b2 : appends m1 b1 → appends m2 b2 → appends (m1 ;&& m2) (b1 ++ b2).
Proof.
  intros H1 H2 s. rewrite (bop_and_true _ _ _ _ (H1 s)), H2. cbn. by rewrite <- app_assoc.
Qed.

Lemma appends_then m1 m2 b1 b2 :
  appends m1 b1 → appends m2 b2 → appends (bop_then m1 m2) (b1 ++ b2).
Proof.
  intros H1 H2 s. unfold bop_then. rewrite H1, bind_Ok, H2, bind_Ok. cbn. by rewrite <- app_assoc.
Qed.

Lemma appends_true : appends (bop_ret true) [].
Proof. intros []. unfold bop_ret, serializer.with_data. cbn. by rewrite app_nil_r. Qed.

Lemma appends_eq m b1 b2 : appends m b1 → b1 = b2 → appends m b2.
Proof. by intros ? ->. Qed.

Create HintDb wire.

Section serialize.
Context (host : endianess_e) (alloc : nat → bool) (Halloc : ∀ n, alloc n = true).

Lemma appends_u8 v : appends (serializer.serialize_u8 alloc v) [v].
Proof using Halloc. intros s. by apply serialize_u8_ok. Qed.
Lemma appends_u16 v : appends (serializer.serialize_u16 host alloc v) (be_bytes 2 v).
Proof using Halloc. intros s. by apply serialize_u16_ok. Qed.
Lemma appends_u32 v : appends (serializer.serialize_u32 host alloc v false) (be_bytes 4 v).
Proof using Halloc. intros s. by apply serialize_u32_ok. Qed.
Lemma appends_u24 v : appends (serializer.serialize_u32 host alloc v true) (be_bytes 3 v).
Proof using Halloc. intros s. by apply serialize_u24_ok. Qed.
Lemma appends_block bs : appends (serializer.serialize_bytes alloc bs) bs.
Proof using Halloc. intros s. by apply serialize_bytes_ok. Qed.
Lemma appends_header len h :
  appends (message_header_impl.serialize host alloc len h) (header_bytes len h).
Proof using Halloc. intros s. by apply header_serialize_ok. Qed.

Hint Resolve appends_and appends_then appends_true appends_u8 appends_u16 appends_u32
  appends_u24 appends_block appends_header : wire.

Ltac appends := eapply appends_eq; [eauto 20 with wire|rewrite <- ?app_assoc; reflexivity].

Lemma appends_clients cs :
  appends (option_impl.serialize_clients host alloc cs) (concat (be_bytes 2 <$> cs)).
Proof using Halloc.
  induction cs as [|c cs IH]; intros s; cbn [option_impl.serialize_clients].
  - apply appends_true.
  - rewrite (appends_u16 c s), bind_Ok, (IH _). cbn. by rewrite <- app_assoc.
Qed.

Lemma appends_option o : appends (option_impl.serialize host alloc o) (option_bytes o).
Proof using Halloc.
  pose proof appends_clients.
  unfold option_impl.serialize, option_bytes, option_impl.serialize_configuration,
    option_impl.serialize_load_balancing, option_impl.serialize_protection,
    option_impl.serialize_ipv4, option_impl.serialize_ipv6, option_impl.serialize_ip,
    option_impl.serialize_selective, option_impl.serialize_header.
  destruct (option_impl.body_ o); cbn [body_bytes]; appends.
Qed.

Lemma appends_entry e : appends (entry_impl.serialize host alloc e) (entry_bytes e).
Proof using Halloc.
  unfold entry_impl.serialize, entry_impl.serialize_serviceentry,
    entry_impl.serialize_eventgroupentry, entry_impl.serialize_base, entry_bytes.
  destruct (entry_impl.body_ e); appends.
Qed.

Lemma appends_entries es :
  appends (message_sd.serialize_entries host alloc es) (concat (entry_bytes <$> es)).
Proof using Halloc.
  induction es; cbn [message_sd.serialize_entries fmap list_fmap concat];
    eauto using appends_true, appends_and, appends_entry.
Qed.

Lemma appends_options os :
  appends (message_sd.serialize_options host alloc os)
          (concat ((λ p, option_bytes p.2) <$> os)).
Proof using Halloc.
  induction os; cbn [message_sd.serialize_options fmap list_fmap concat];
    eauto using appends_true, appends_and, appends_option.
Qed.

Lemma appends_message m : appends (message_sd.serialize host alloc m) (sd_bytes m).
Proof using Halloc.
  pose proof appends_options. pose proof appends_entries.
  unfold message_sd.serialize, sd_bytes. appends.
Qed.
End serialize.

(** ** Well-formed options, entries and messages *)

(** What a class of options guarantees: its type, its length field and the
    widths of its members. *)
Definition item_wf (kv : bytes * bytes) : Prop :=
  (61 ∉ kv.1) ∧ (length kv.1 + length kv.2 < 255)%nat.

Definition body_wf (ty : Z) (b : option_impl.body) : Prop :=
  match b with
  | option_impl.configuration_option_impl c =>
      ty = option_type_e.CONFIGURATION ∧ Forall item_wf c
      ∧ StronglySorted (λ x y, string_map.ltb x.1 y.1 = true) c
  | option_impl.load_balancing_option_impl p w =>
      ty = option_type_e.LOAD_BALANCING ∧ is_u16 p ∧ is_u16 w
  | option_impl.protection_option_impl c r =>
      ty = option_type_e.PROTECTION ∧ is_u32 c ∧ is_u32 r
  | option_impl.ipv4_option_impl a protocol port =>
      (ty = option_type_e.IP4_ENDPOINT ∨ ty = option_type_e.IP4_MULTICAST)
      ∧ length a = 4%nat ∧ option_impl.protocol_from protocol = protocol ∧ is_u16 port
  | option_impl.ipv6_option_impl a protocol port =>
      (ty = option_type_e.IP6_ENDPOINT ∨ ty = option_type_e.IP6_MULTICAST)
      ∧ length a = 16%nat ∧ option_impl.protocol_from protocol = protocol ∧ is_u16 port
  | option_impl.selective_option_impl cs =>
      ty = option_type_e.SELECTIVE ∧ Forall is_u16 cs ∧ StronglySorted Z.lt cs
  | option_impl.unknown_option_impl _ => False
  end.

Definition option_wf (o : option_impl.t) : Prop :=
  body_wf (option_impl.type_ o) (option_impl.body_ o)
  ∧ option_impl.length_ o = 1 + Z.of_nat (length (body_bytes (option_impl.body_ o)))
  ∧ is_u16 (option_impl.length_ o).

(** A run is a block of at most 15 consecutive 8 bit indices. *)
Definition run_wf (run : list Z) : Prop :=
  (length run ≤ 15)%nat
  ∧ ∃ i, run = seqZ i (Z.of_nat (length run)) ∧ 0 ≤ i ∧ i + Z.of_nat (length run) ≤ 256.

Definition entry_body_wf (ty : Z) (b : entry_impl.body) : Prop :=
  match b with
  | entry_impl.serviceentry_impl minor => ty ∈ [0; 1; 2] ∧ is_u32 minor
  | entry_impl.eventgroupentry_impl g _ _ => ty ∈ [4; 5; 6; 7] ∧ is_u16 g
  end.

Record entry_wf (e : entry_impl.t) : Prop := {
  entry_wf_service : is_u16 (entry_impl.service_ e);
  entry_wf_instance : is_u16 (entry_impl.instance_ e);
  entry_wf_ttl : in_width 24 (entry_impl.ttl_ e);
  entry_wf_run1 : run_wf (entry_impl.run1_ e);
  entry_wf_run2 : run_wf (entry_impl.run2_ e);
  entry_wf_body : entry_body_wf (entry_impl.type_ e) (entry_impl.body_ e)
}.

(** What a receiver makes of an entry: the reserved field and the counter of an
    eventgroup entry are not transmitted. *)
Definition received_entry (e : entry_impl.t) : entry_impl.t :=
  entry_impl.mk (entry_impl.type_ e) (entry_impl.service_ e) (entry_impl.instance_ e)
    (entry_impl.major_version_ e) (entry_impl.ttl_ e) (entry_impl.run1_ e) (entry_impl.run2_ e)
    (Z.of_nat (length (entry_impl.run1_ e))) (Z.of_nat (length (entry_impl.run2_ e)))
    (default 0 (head (entry_impl.run1_ e))) (default 0 (head (entry_impl.run2_ e)))
    match entry_impl.body_ e with
    | entry_impl.eventgroupentry_impl g _ _ => entry_impl.eventgroupentry_impl g 0 0
    | b => b
    end.

Definition sd_wf (m : message_sd.t) : Prop :=
  header_wf (message_sd.header_ m)
  ∧ Forall entry_wf (message_sd.entries_ m)
  ∧ Forall (λ p, option_wf p.2) (message_sd.options_ m)
  ∧ Z.of_nat (length (sd_bytes m)) < 2 ^ 32.

(** The received options are new objects. *)
Definition received_sd (m : message_sd.t) : message_sd.t :=
  message_sd.mk
    (message_header_impl.set_instance 0
      (message_header_impl.set_length (message_sd.get_length m) (message_sd.header_ m)))
    (message_sd.flags_ m) (message_sd.options_size (message_sd.options_ m))
    (received_entry <$> message_sd.entries_ m)
    (imap (λ i p, (Z.of_nat i, p.2)) (message_sd.options_ m)) 0.

(** ** What deserialization reads *)

Lemma rbind_ok {A B} (m : rdr A) (k : A → rdr B) d a d' :
  m d = Ok (Some a, d') → rbind m k d = k a d'.
Proof. unfold rbind. by intros ->. Qed.

Lemma rtry_ok {A} (v : A) (m : rdr A) d a d' :
  m d = Ok (Some a, d') → rtry v m d = Ok (Some a, d').
Proof. unfold rtry. by intros ->. Qed.

Lemma rtry_none {A} (v : A) (m : rdr A) d :
  m d = Ok (None, d) → rtry v m d = Ok (Some v, d).
Proof. unfold rtry. by intros ->. Qed.

#[local] Hint Extern 4 (in_width _ 0) => by_eval : word.

(** [rread] runs the first read of a chain of readers; the side conditions are
    the widths of the values. *)
Ltac read_value :=
  match goal with
  | H : reads_at _ (be_bytes 2 _ ++ _) |- _ => eapply deserialize_u16_ok; [|exact H]
  | H : reads_at _ (be_bytes 4 _ ++ _) |- _ => eapply deserialize_u32_ok; [|exact H]
  | H : reads_at _ (be_bytes 3 _ ++ _) |- _ => eapply deserialize_u24_ok; [|exact H]
  | H : reads_at _ (_ :: _) |- _ => eapply deserialize_u8_ok, H
  end.
Ltac rread :=
  erewrite rbind_ok; [|read_value; eauto with word]; next_field; cbv beta.

(** *** Configuration items *)

Lemma string_ltb_asym a b : string_map.ltb a b = true → string_map.ltb b a = false.
Proof.
  revert b; induction a as [|x a IH]; intros [|y b]; cbn; try done.
  rewrite orb_true_iff, andb_true_iff, Z.ltb_lt, Z.eqb_eq. intros [H|[-> H]].
  - rewrite (proj2 (Z.ltb_ge _ _)), (proj2 (Z.eqb_neq _ _)) by lia. done.
  - rewrite Z.ltb_irrefl, Z.eqb_refl. cbn. auto.
Qed.

Lemma string_ltb_ne a b : string_map.ltb a b = true → b ≠ a.
Proof. intros H ->. pose proof (string_ltb_asym _ _ H). congruence. Qed.

(** An item behind the last one of the map. *)
Lemma string_assign_last k v m :
  Forall (λ kv, string_map.ltb kv.1 k = true) m →
  string_map.find k m = None ∧ string_map.assign k v m = m ++ [(k, v)].
Proof.
  induction 1 as [|[k' v'] m Hk _ [IH1 IH2]]; cbn in *; [done|].
  rewrite (string_ltb_asym _ _ Hk), bool_decide_false by by apply string_ltb_ne.
  by rewrite IH1, IH2.
Qed.

Lemma split_item_ok k v : 61 ∉ k → option_impl.split_item (k ++ [61] ++ v) = (k, v).
Proof.
  intros Hk. unfold option_impl.split_item.
  assert (option_impl.find_eq (k ++ [61] ++ v) = Some (length k)) as ->.
  { induction k as [|b k IH]; cbn; [done|].
    apply not_elem_of_cons in Hk as [Hb Hk].
    rewrite (proj2 (Z.eqb_neq _ _)) by congruence. cbn in IH. by rewrite IH. }
  rewrite take_app_length. f_equal.
  rewrite <- Nat.add_1_r, <- drop_drop, drop_app_length. done.
Qed.

Section deserialize.
Import deserializer.
Context (host : endianess_e) (reserve : nat → nat).
Implicit Types (d : deserializer.t) (tl : bytes).

Lemma deserialize_string_ok cap d n bs tl :
  reads_at d (bs ++ tl) → length bs = n → (n ≤ cap)%nat →
  deserialize_string cap n d = Ok (Some bs, advance n d).
Proof.
  intros H <- Hc. pose proof H as (Hp & Hd & Hr). rewrite length_app in Hr.
  unfold deserialize_string. rewrite decide_False by lia.
  rewrite (reads_at_rd _ _ _ H) by len. cbn. by rewrite take_app_length.
Qed.

Lemma read_items_ok fuel c0 c d tl :
  Forall item_wf c → StronglySorted (λ x y, string_map.ltb x.1 y.1 = true) (c0 ++ c) →
  (length c < fuel)%nat →
  reads_at d (option_impl.configuration_string c ++ tl) →
  ∃ d', option_impl.read_items fuel c0 d = Ok (Some (c0 ++ c), d') ∧ reads_at d' tl.
Proof.
  revert c0 c d. induction fuel as [|fuel IH]; intros c0 c d Hwf Hs Hf H; [lia|].
  cbn [option_impl.read_items]. destruct c as [|[k v] c].
  { rewrite (deserialize_u8_ok d 0 tl H), bind_Ok, app_nil_r. cbn.
    eexists; split; [done|]. by apply (reads_at_advance 1 _ [0]). }
  apply Forall_cons in Hwf as [[Hk Hl] Hwf]. cbn [fst snd] in Hk, Hl.
  unfold option_impl.configuration_string in H.
  cbn [fmap list_fmap concat fst snd] in H. rewrite <- !app_assoc in H.
  set (n := u8 _) in H.
  assert (n = Z.of_nat (length (k ++ [61] ++ v))) as Hn.
  { subst n. rewrite !length_app. cbn [length]. rewrite wrap_small; [lia|word]. }
  clearbody n. cbn [app] in H.
  rewrite (deserialize_u8_ok d n _ H), bind_Ok.
  assert (0 < n) by (rewrite Hn, !length_app; cbn [length]; lia).
  rewrite (proj2 (Z.ltb_lt _ _)) by done.
  apply (reads_at_advance 1 _ [n]) in H; [|done].
  replace (k ++ 61 :: v ++ _) with ((k ++ [61] ++ v) ++ option_impl.configuration_string c ++ tl) in H
    by (unfold option_impl.configuration_string; by rewrite <- !app_assoc).
  rewrite Hn, Nat2Z.id.
  rewrite (deserialize_string_ok 256 _ _ _ _ H) by (rewrite ?length_app; cbn [length]; lia).
  rewrite bind_Ok, (split_item_ok _ _ Hk).
  destruct (string_assign_last k v c0) as [-> ->].
  { apply StronglySorted_app in Hs as (Hs & _ & _). apply Forall_forall. intros x Hx.
    apply (Hs x (k, v)); [done|by left]. }
  apply (reads_at_advance (length (k ++ [61] ++ v))) in H; [|done].
  rewrite decide_True by (destruct H as (_ & _ & H); unfold get_remaining; rewrite H;
    unfold option_impl.configuration_string; rewrite !length_app; cbn [length]; lia).
  cbn in Hf. edestruct (IH (c0 ++ [(k, v)]) c) as (d' & E & H'); [done| |lia|exact H|].
  { by rewrite <- app_assoc. }
  rewrite <- app_assoc in E. eauto.
Qed.

(** *** Options *)

Lemma set_insert_last x l : Forall (λ y, y < x) l → set_insert x l = l ++ [x].
Proof.
  induction 1 as [|y l Hy _ IH]; cbn; [done|].
  by rewrite (proj2 (Z.ltb_ge _ _)), (proj2 (Z.eqb_neq _ _)), IH by lia.
Qed.

Lemma read_clients_ok fuel cs0 cs d tl :
  Forall is_u16 cs → StronglySorted Z.lt (cs0 ++ cs) → (length cs < fuel)%nat →
  let i := 1 + 2 * Z.of_nat (length cs0) in
  let len := 1 + 2 * Z.of_nat (length (cs0 ++ cs)) in
  is_u16 len → reads_at d (concat (be_bytes 2 <$> cs) ++ tl) →
  ∃ d', option_impl.read_clients host fuel len i cs0 d = Ok (Some (cs0 ++ cs), d')
    ∧ reads_at d' tl.
Proof.
  revert cs0 cs d. induction fuel as [|fuel IH]; intros cs0 cs d Hc Hs Hf i len Hlen H; [lia|].
  cbn [option_impl.read_clients]. destruct cs as [|c cs].
  { rewrite (proj2 (Z.ltb_ge _ _)) by (subst i len; rewrite length_app; cbn [length]; lia).
    rewrite app_nil_r. eauto. }
  subst len. rewrite length_app in *. cbn [length] in *.
  apply Forall_cons in Hc as [Hc Hcs]. cbn [fmap list_fmap concat] in H. rewrite <- app_assoc in H.
  rewrite (proj2 (Z.ltb_lt _ _)) by (subst i; lia).
  rewrite (deserialize_u16_ok host d c _ Hc H), bind_Ok.
  apply (reads_at_advance 2) in H; [|apply be_bytes_length].
  rewrite set_insert_last.
  2:{ apply StronglySorted_app in Hs as (Hs & _ & _). apply Forall_forall. intros x Hx.
      apply (Hs x c); [done|by left]. }
  edestruct (IH (cs0 ++ [c]) cs) as (d' & E & H'); [done|by rewrite <- app_assoc|lia| |exact H|].
  { rewrite !length_app. cbn [length]. revert Hlen. by rewrite <- Nat.add_assoc. }
  rewrite <- app_assoc in E. rewrite !length_app in E. cbn [length] in E.
  exists d'. split; [|done]. etransitivity; [|exact E]. f_equal; subst i; word.
Qed.

Lemma known_type_ok ty b : body_wf ty b → option_impl.known_type ty = true.
Proof.
  unfold option_impl.known_type, body_wf. intros H. apply bool_decide_true.
  destruct b; destruct_and?; destruct_or?; subst; try done; by_eval.
Qed.

Lemma deserialize_header_ok len ty r d tl :
  is_u16 len → option_impl.known_type ty = true →
  reads_at d (be_bytes 2 len ++ [ty; r] ++ tl) →
  ∃ d', option_impl.deserialize_header host d = Ok (Some (len, ty), d') ∧ reads_at d' tl.
Proof.
  intros Hlen Hty H. cbn [app] in H. unfold option_impl.deserialize_header.
  do 3 rread. rewrite Hty. by eexists.
Qed.

Lemma deserialize_ip_ok size expected make a protocol port ty d tl :
  length a = size → option_impl.protocol_from protocol = protocol → is_u16 port → is_u16 expected →
  option_impl.known_type ty = true →
  reads_at d (be_bytes 2 expected ++ [ty; 0] ++ (a ++ [0; protocol] ++ be_bytes 2 port) ++ tl) →
  ∃ d', option_impl.deserialize_ip host size expected make d
        = Ok (Some (option_impl.mk expected ty (make a protocol port)), d') ∧ reads_at d' tl.
Proof.
  intros Ha Hpr Hport Hexp Hty H.
  apply deserialize_header_ok in H as (d1 & E & H); [|done..].
  unfold option_impl.deserialize_ip. rewrite E, bind_Ok. rewrite <- app_assoc in H. cbn [app] in H.
  rewrite (rtry_ok _ _ _ a (advance size d1)), bind_Ok by by eapply deserialize_block_ok.
  apply (reads_at_advance size) in H; [|done].
  erewrite rtry_ok by read_value. rewrite bind_Ok. next_field.
  erewrite rtry_ok by read_value. rewrite bind_Ok. next_field.
  erewrite rtry_ok by (read_value; done). rewrite bind_Ok. next_field.
  rewrite Z.eqb_refl. cbn. rewrite Hpr. by eexists.
Qed.

Lemma configuration_length c : (length c < length (option_impl.configuration_string c))%nat.
Proof.
  unfold option_impl.configuration_string. rewrite length_app. cbn [length].
  induction c as [|kv c IH]; cbn [fmap list_fmap concat length] in *; [lia|].
  rewrite !length_app. cbn [length]. lia.
Qed.

Lemma clients_length (cs : list Z) : length (concat (be_bytes 2 <$> cs)) = (2 * length cs)%nat.
Proof.
  induction cs as [|c cs IH]; cbn [fmap list_fmap concat length] in *; [done|].
  rewrite length_app, be_bytes_length. lia.
Qed.

(** The class that [deserialize_option] chooses. *)
Lemma look_ahead_type len ty r d tl :
  reads_at d (be_bytes 2 len ++ [ty; r] ++ tl) → look_ahead_u8 2 d = Ok (Some ty).
Proof.
  intros H. pose proof H as (_ & _ & Hr). rewrite !length_app, be_bytes_length in Hr. cbn in Hr.
  unfold look_ahead_u8, rd1. rewrite decide_False by lia.
  by rewrite (reads_at_lookup d _ 2 ty H eq_refl).
Qed.

Lemma deserialize_configuration_ok len ty c d tl :
  is_u16 len → option_impl.known_type ty = true → Forall item_wf c →
  StronglySorted (λ x y, string_map.ltb x.1 y.1 = true) c →
  reads_at d (be_bytes 2 len ++ [ty; 0] ++ option_impl.configuration_string c ++ tl) →
  ∃ d', option_impl.deserialize_configuration host d
        = Ok (Some (option_impl.mk len ty (option_impl.configuration_option_impl c)), d')
    ∧ reads_at d' tl.
Proof.
  intros Hlen Hty Hi Hs H. apply deserialize_header_ok in H as (d1 & E & H); [|done..].
  unfold option_impl.deserialize_configuration. rewrite (rbind_ok _ _ _ _ _ E).
  edestruct (read_items_ok (S (get_remaining d1)) [] c) as (d2 & E2 & H2); [done|done| |exact H|].
  { destruct H as (_ & _ & H). unfold get_remaining. rewrite H, length_app.
    pose proof (configuration_length c). lia. }
  erewrite rbind_ok by exact E2. by eexists.
Qed.

Lemma deserialize_selective_ok len ty cs d tl :
  is_u16 len → option_impl.known_type ty = true → Forall is_u16 cs → StronglySorted Z.lt cs →
  len = 1 + Z.of_nat (length (concat (be_bytes 2 <$> cs))) →
  reads_at d (be_bytes 2 len ++ [ty; 0] ++ concat (be_bytes 2 <$> cs) ++ tl) →
  ∃ d', option_impl.deserialize_selective host d
        = Ok (Some (option_impl.mk len ty (option_impl.selective_option_impl cs)), d')
    ∧ reads_at d' tl.
Proof.
  intros Hlen Hty Hc Hs Hl H. apply deserialize_header_ok in H as (d1 & E & H); [|done..].
  unfold option_impl.deserialize_selective. rewrite (rbind_ok _ _ _ _ _ E). cbn [fst snd].
  rewrite clients_length in Hl.
  edestruct (read_clients_ok (S (Z.to_nat len)) [] cs) as (d2 & E2 & H2);
    [done|done|lia| |exact H|]; cbn [app length] in *.
  { by replace (1 + 2 * Z.of_nat (length cs)) with len by lia. }
  replace (1 + 2 * Z.of_nat (length cs)) with len in E2 by lia.
  rewrite (rbind_ok _ _ _ _ _ E2). by eexists.
Qed.

Lemma deserialize_option_ok o d tl :
  option_wf o → reads_at d (option_bytes o ++ tl) →
  ∃ d', option_impl.deserialize_option host reserve d = Ok (Some o, d') ∧ reads_at d' tl.
Proof.
  destruct o as [len ty b]. intros (Hb & Hl & Hlen) H.
  cbn [option_impl.type_ option_impl.body_ option_impl.length_] in *.
  pose proof (known_type_ok _ _ Hb) as Hty.
  unfold option_bytes in H. cbn [option_impl.length_ option_impl.type_ option_impl.body_] in H.
  rewrite <- !app_assoc in H. unfold option_impl.deserialize_option.
  rewrite (look_ahead_type _ _ _ _ _ H), bind_Ok.
  destruct b as [c|p w|c r|a pr po|a pr po|cs|]; cbn [body_wf body_bytes] in Hb, Hl, H; [..|done].
  - destruct Hb as (-> & Hi & Hs). cbn.
    by eapply deserialize_configuration_ok.
  - destruct Hb as (-> & Hp & Hw). cbn.
    apply deserialize_header_ok in H as (d1 & E & H); [|done..].
    unfold option_impl.deserialize_load_balancing. rewrite (rbind_ok _ _ _ _ _ E).
    rewrite <- app_assoc in H. do 2 rread. by eexists.
  - destruct Hb as (-> & Hc & Hr). cbn.
    apply deserialize_header_ok in H as (d1 & E & H); [|done..].
    unfold option_impl.deserialize_protection. rewrite (rbind_ok _ _ _ _ _ E).
    rewrite <- app_assoc in H. do 2 rread. by eexists.
  - destruct Hb as (Hty' & Ha & Hpr & Hpo).
    assert (len = VSOMEIP_SD_IPV4_OPTION_LENGTH) as ->
      by (rewrite Hl, !length_app, be_bytes_length, Ha; done).
    destruct Hty' as [-> | ->]; by eapply deserialize_ip_ok.
  - destruct Hb as (Hty' & Ha & Hpr & Hpo).
    assert (len = VSOMEIP_SD_IPV6_OPTION_LENGTH) as ->
      by (rewrite Hl, !length_app, be_bytes_length, Ha; done).
    destruct Hty' as [-> | ->]; by eapply deserialize_ip_ok.
  - destruct Hb as (-> & Hc & Hs). cbn.
    by eapply deserialize_selective_ok.
Qed.

(** *** Entries *)

Lemma numbers_ok (n1 n2 : nat) :
  (n1 ≤ 15)%nat → (n2 ≤ 15)%nat →
  let v := u8 (Z.lor (Z.shiftl (u8 (Z.of_nat n1)) 4) (Z.land (u8 (Z.of_nat n2)) 0x0F)) in
  u8 (Z.shiftr v 4) = Z.of_nat n1 ∧ u8 (Z.land v 0xF) = Z.of_nat n2.
Proof.
  intros H1 H2.
  assert (Forall (λ i, Forall (λ j,
    u8 (Z.shiftr (u8 (Z.lor (Z.shiftl (u8 (Z.of_nat i)) 4) (Z.land (u8 (Z.of_nat j)) 0x0F))) 4)
    = Z.of_nat i
    ∧ u8 (Z.land (u8 (Z.lor (Z.shiftl (u8 (Z.of_nat i)) 4) (Z.land (u8 (Z.of_nat j)) 0x0F))) 0xF)
    = Z.of_nat j) (seq 0 16)) (seq 0 16)) as H by by_eval.
  rewrite Forall_forall in H. specialize (H n1). rewrite Forall_forall in H.
  apply H; apply elem_of_seq; lia.
Qed.

Lemma run_of_ok run :
  run_wf run →
  entry_impl.run_of (default 0 (head run)) (Z.of_nat (length run)) = run.
Proof.
  intros (_ & i & Hr & Hi & Hb). set (n := Z.of_nat (length run)) in *.
  assert (n = 0 ∨ default 0 (head run) = i) as Hh.
  { destruct (decide (n = 0)); [by left|right]. rewrite Hr, seqZ_cons by lia. done. }
  unfold entry_impl.run_of. destruct Hh as [H0 | ->].
  { rewrite H0 in *. rewrite Hr. by rewrite !seqZ_nil by lia. }
  rewrite Hr. rewrite <- (list_fmap_id (seqZ i n)) at 2. apply list_fmap_ext.
  intros k x Hx%list_elem_of_lookup_2%elem_of_seqZ. cbn. apply wrap_small. word.
Qed.

Lemma deserialize_base_ok b e d tl :
  entry_wf e →
  reads_at d ([entry_impl.type_ e; default 0 (head (entry_impl.run1_ e));
    default 0 (head (entry_impl.run2_ e)); entry_impl.number_of_options e]
    ++ be_bytes 2 (entry_impl.service_ e) ++ be_bytes 2 (entry_impl.instance_ e) ++ tl) →
  ∃ d', entry_impl.deserialize_base host b d
    = Ok (Some (entry_impl.with_tail 0 0 b (received_entry e)), d') ∧ reads_at d' tl.
Proof.
  intros [Hs Hi _ Hr1 Hr2 _] H. cbn [app] in H. unfold entry_impl.deserialize_base.
  do 6 rread. unfold entry_impl.number_of_options.
  destruct (numbers_ok (length (entry_impl.run1_ e)) (length (entry_impl.run2_ e)))
    as [-> ->]; [apply Hr1|apply Hr2|].
  rewrite !run_of_ok by done. by eexists.
Qed.

Lemma types_disjoint (ty : Z) : ty ∈ [4; 5; 6; 7] → ty ∉ [0; 1; 2].
Proof. rewrite !elem_of_cons, !elem_of_nil. lia. Qed.

Lemma deserialize_entry_ok e d tl :
  entry_wf e → reads_at d (entry_bytes e ++ tl) →
  ∃ d', entry_impl.deserialize_entry host d = Ok (Some (received_entry e), d') ∧ reads_at d' tl.
Proof.
  intros Hwf H. unfold entry_bytes in H. rewrite <- !app_assoc in H.
  assert (look_ahead_u8 0 d = Ok (Some (entry_impl.type_ e))) as Hla.
  { unfold look_ahead_u8, rd1. rewrite decide_False by lia.
    by rewrite (reads_at_lookup d _ 0 _ H eq_refl). }
  unfold entry_impl.deserialize_entry. rewrite Hla, bind_Ok.
  pose proof (entry_wf_body _ Hwf) as Hb. pose proof (entry_wf_ttl _ Hwf).
  destruct (entry_impl.body_ e) as [minor|g r c] eqn:Eb; cbn [entry_body_wf] in Hb;
    destruct Hb as [Hty Hv].
  - rewrite bool_decide_true by done. unfold entry_impl.deserialize_serviceentry.
    eapply (deserialize_base_ok (entry_impl.serviceentry_impl 0)) in H as (d1 & E & H); [|done].
    rewrite (rbind_ok _ _ _ _ _ E). cbn [app] in H.
    do 3 rread. eexists. split; [|done].
    unfold received_entry, entry_impl.with_tail. cbn. by rewrite Eb.
  - rewrite bool_decide_false, bool_decide_true by (done || by apply types_disjoint).
    unfold entry_impl.deserialize_eventgroupentry.
    eapply (deserialize_base_ok (entry_impl.eventgroupentry_impl 0xFFFF 0 0)) in H
      as (d1 & E & H); [|done].
    rewrite (rbind_ok _ _ _ _ _ E). cbn [app] in H. rewrite <- !app_assoc in H.
    do 4 rread. eexists. split; [|done].
    unfold received_entry, entry_impl.with_tail. cbn. by rewrite Eb.
Qed.

Lemma sd_entry_length e : length (entry_bytes e) = 16%nat.
Proof.
  unfold entry_bytes. rewrite !length_app, !be_bytes_length.
  destruct (entry_impl.body_ e); rewrite ?length_app, !be_bytes_length; done.
Qed.

Lemma entries_length es : length (concat (entry_bytes <$> es)) = (16 * length es)%nat.
Proof.
  induction es as [|e es IH]; cbn [fmap list_fmap concat length] in *; [done|].
  rewrite length_app, sd_entry_length. lia.
Qed.

Lemma read_entries_ok fuel es0 es d :
  Forall entry_wf es → (length es ≤ fuel)%nat → reads_at d (concat (entry_bytes <$> es)) →
  ∃ d', message_sd.read_entries host fuel es0 d
        = Ok ((true, es0 ++ (received_entry <$> es)), d') ∧ reads_at d' [].
Proof.
  intros Hes. revert fuel es0 d. induction Hes as [|e es He _ IH]; intros fuel es0 d Hf H.
  { assert (get_remaining d = 0)%nat as Hz by apply H.
    exists d. split; [|done]. rewrite app_nil_r.
    destruct fuel; cbn [message_sd.read_entries]; by rewrite decide_True. }
  destruct fuel as [|fuel]; cbn [length] in Hf; [lia|]. cbn [fmap list_fmap concat] in H.
  cbn [message_sd.read_entries]. rewrite decide_False.
  2:{ destruct H as (_ & _ & H). unfold get_remaining.
      rewrite H, length_app, sd_entry_length. lia. }
  eapply deserialize_entry_ok in H as (d1 & E & H); [|done]. rewrite E, bind_Ok.
  destruct (IH fuel (es0 ++ [received_entry e]) d1) as (d' & E' & H'); [lia|done|].
  exists d'. split; [|done]. rewrite E'. by rewrite <- app_assoc.
Qed.

Lemma read_options_ok fuel os0 (os : list message_sd.ptr) d :
  Forall (λ p, option_wf p.2) os → (length os ≤ fuel)%nat →
  reads_at d (concat ((λ p, option_bytes p.2) <$> os)) →
  ∃ d', message_sd.read_options host reserve fuel os0 d
        = Ok (os0 ++ imap (λ i p, (Z.of_nat (length os0 + i), p.2)) os, d').
Proof.
  intros Hos. revert fuel os0 d. induction Hos as [|[a o] os Ho _ IH]; intros fuel os0 d Hf H.
  { assert (get_remaining d = 0)%nat as Hz by apply H.
    exists d. cbn [imap]. rewrite app_nil_r.
    destruct fuel; cbn [message_sd.read_options]; by rewrite decide_True. }
  destruct fuel as [|fuel]; cbn [length] in Hf; [lia|]. cbn [fmap list_fmap concat snd] in *.
  cbn [message_sd.read_options]. rewrite decide_False.
  2:{ destruct H as (_ & _ & H). unfold get_remaining, option_bytes in *.
      rewrite H, !length_app, be_bytes_length. cbn. lia. }
  eapply deserialize_option_ok in H as (d1 & E & H); [|done]. rewrite E, bind_Ok.
  destruct (IH fuel (os0 ++ [(Z.of_nat (length os0), o)]) d1) as (d' & E'); [lia|done|].
  exists d'. rewrite E'. rewrite <- app_assoc. do 3 f_equal. cbn [app imap].
  rewrite Nat.add_0_r. f_equal. apply imap_ext. intros i p _. cbn. do 2 f_equal. len.
Qed.

Lemma read_prefix_ok h0 h len flags elen d tl :
  header_wf h → is_u32 len → is_u32 elen →
  reads_at d (header_bytes len h ++ [flags] ++ be_bytes 3 0 ++ be_bytes 4 elen ++ tl) →
  ∃ d', message_sd.read_prefix host h0 d
        = Ok (Some (message_header_impl.set_instance (message_header_impl.instance_ h0)
                      (message_header_impl.set_length len h), flags, elen), d')
    ∧ reads_at d' tl.
Proof.
  intros Hh Hlen Helen H.
  eapply (header_deserialize_ok host h0) in H as (d1 & E & H); [|done..].
  cbn [app] in H. unfold message_sd.read_prefix.
  erewrite rbind_ok; [|cbv beta; rewrite E; reflexivity].
  rread. rread. rread. by eexists.
Qed.
End deserialize.

(** *** The part behind the entries *)

Section windows.
Import deserializer.

Lemma reads_at_take d a b : reads_at d (a ++ b) → reads_at (set_remaining (length a) d) a.
Proof.
  intros (Hd & Hb & Hr). rewrite length_app in Hr. unfold reads_at, deserializer_wf in *. cbn.
  split_and!; [lia| |done].
  rewrite <- (take_app_length a b), <- Hb, take_take. f_equal. len.
Qed.

(** After the entries were read from a window, the rest is behind the cursor. *)
Lemma reads_at_restore d a b d' :
  reads_at d (a ++ b) → conserves (set_remaining (length a) d) d' → reads_at d' [] →
  reads_at (set_remaining (length b) d') b.
Proof.
  intros (Hd & Hb & Hr) (Hda & Hp & _) (_ & _ & Hr'). rewrite length_app in Hr.
  cbn in Hda, Hp, Hr'. unfold reads_at, deserializer_wf in *. cbn.
  rewrite Hda. split_and!; [lia| |done].
  replace (position_ d') with (position_ d + length a)%nat by lia.
  rewrite <- drop_drop, take_drop_commute, <- Hr, Hb. by rewrite drop_app_length.
Qed.
End windows.

Lemma wrap_sum_range (l : list message_sd.ptr) n :
  is_u32 n → is_u32 (foldl (λ n p, u32 (n + message_sd.option_bytes p.2)) n l).
Proof. revert n. induction l; cbn; intros; [done|]. apply IHl. eauto with word. Qed.

Lemma get_length_range m : is_u32 (message_sd.get_length m).
Proof. apply wrap_sum_range. eauto with word. Qed.

(** The length fields of well-formed options add up to the bytes they take. *)
Lemma options_size_ok (os : list message_sd.ptr) n :
  Forall (λ p, option_wf p.2) os → 0 ≤ n →
  n + Z.of_nat (length (concat ((λ p, option_bytes p.2) <$> os))) < 2 ^ 32 →
  foldl (λ n p, u32 (n + message_sd.option_bytes p.2)) n os
  = n + Z.of_nat (length (concat ((λ p, option_bytes p.2) <$> os))).
Proof.
  intros Hos. revert n. induction Hos as [|[a o] os Ho _ IH]; intros n Hn Hl;
    cbn [fmap list_fmap concat foldl length snd] in *; [lia|].
  destruct Ho as (_ & Hlo & Hlen).
  assert (Z.of_nat (length (option_bytes o)) = option_impl.length_ o + 3) as Hob.
  { unfold option_bytes. rewrite !length_app, be_bytes_length. cbn [length]. lia. }
  rewrite length_app in *. assert (message_sd.option_bytes o = option_impl.length_ o + 3) as ->.
  { unfold message_sd.option_bytes, VSOMEIP_SOMEIP_SD_OPTION_HEADER_SIZE. word. }
  assert (u32 (n + (option_impl.length_ o + 3)) = n + (option_impl.length_ o + 3)) as ->
    by (apply wrap_small; split; [destruct Hlen|]; lia).
  rewrite IH by (destruct Hlen; lia). lia.
Qed.

Section roundtrip.
Import deserializer.
Context (host : endianess_e) (reserve : nat → nat).

Lemma options_length (os : list message_sd.ptr) :
  (length os ≤ length (concat ((λ p, option_bytes p.2) <$> os)))%nat.
Proof.
  induction os as [|[a o] os IH]; cbn [fmap list_fmap concat length]; [lia|].
  unfold option_bytes at 1. rewrite !length_app, be_bytes_length. cbn [length]. lia.
Qed.

Lemma option_array_ok m os d :
  message_sd.options_ m = [] → Forall (λ p, option_wf p.2) os →
  let bs := concat ((λ p, option_bytes p.2) <$> os) in
  Z.of_nat (length bs) < 2 ^ 32 →
  reads_at d (be_bytes 4 (message_sd.options_size os) ++ bs) →
  ∃ d', message_sd.read_option_array host reserve true m d
    = Ok (true, message_sd.mk (message_sd.header_ m) (message_sd.flags_ m)
        (message_sd.options_size os) (message_sd.entries_ m)
        (imap (λ i p, (Z.of_nat i, p.2)) os) 0, d').
Proof.
  intros Hm Hos bs Hl H. unfold message_sd.read_option_array, get_remaining.
  rewrite decide_False.
  2:{ destruct H as (_ & _ & H). rewrite H, length_app, be_bytes_length. lia. }
  assert (message_sd.options_size os = Z.of_nat (length bs)) as Hsz.
  { unfold message_sd.options_size. rewrite options_size_ok by (done || lia). subst bs. lia. }
  assert (is_u32 (message_sd.options_size os)) as Hr by (apply wrap_sum_range; by_eval).
  rewrite (deserialize_u32_ok host d _ _ Hr H), bind_Ok. cbn zeta.
  apply (reads_at_advance 4) in H; [|apply be_bytes_length]. cbn [from_option id].
  assert (remaining_ (advance 4 d) = length bs) as Hrem by apply H.
  rewrite Hrem, Hsz, (proj2 (Z.ltb_ge _ _)) by lia. rewrite Hrem, Hm.
  destruct (read_options_ok host reserve (length bs) [] os (advance 4 d)) as (d' & ->);
    [done|apply options_length|done|].
  rewrite bind_Ok. eexists. rewrite <- Hsz. done.
Qed.

Lemma sd_deserialize_ok m th :
  sd_wf m →
  message_sd.deserialize_sd_message host reserve (of_data (sd_bytes m) th)
  = Ok (Some (received_sd m)).
Proof.
  intros (Hh & Hes & Hos & Hl).
  set (eb := concat (entry_bytes <$> message_sd.entries_ m)).
  set (ob := concat ((λ p, option_bytes p.2) <$> message_sd.options_ m)).
  set (rest := be_bytes 4 (message_sd.options_size (message_sd.options_ m)) ++ ob).
  assert (length eb = 16 * length (message_sd.entries_ m))%nat as Heb by apply entries_length.
  assert (Z.of_nat (24 + (length eb + (4 + length ob))) < 2 ^ 32) as Hlen.
  { revert Hl. unfold sd_bytes. fold eb ob.
    rewrite !length_app, header_bytes_length, !be_bytes_length. cbn [length]. lia. }
  assert (length rest = 4 + length ob)%nat as Hrest
    by (unfold rest; by rewrite length_app, be_bytes_length).
  assert (u32 (Z.of_nat (length (message_sd.entries_ m)) * 16) = Z.of_nat (length eb)) as Hel
    by (rewrite wrap_small; [lia|split; lia]).
  generalize (of_data (sd_bytes m) th), (reads_at_of_data (sd_bytes m) th). intros d0 H.
  unfold sd_bytes in H. fold eb ob in H.
  rewrite Hel in H. fold rest in H.
  eapply (read_prefix_ok host (message_sd.header_ message_sd.create)) in H as (d1 & E1 & H);
    [|done|apply get_length_range|split; lia].
  unfold message_sd.deserialize_sd_message, message_sd.deserialize.
  rewrite E1, bind_Ok. cbn zeta. unfold get_remaining.
  assert (remaining_ d1 = length eb + length rest)%nat as Hr1
    by (destruct H as (_ & _ & ->); apply length_app).
  rewrite Hr1. rewrite (wrap_small 32 (Z.of_nat (length eb + length rest))) by (split; lia).
  rewrite (proj2 (Z.ltb_ge _ _)) by lia. rewrite Nat2Z.id.
  cbn [message_sd.entries_ message_sd.create message_sd.with_flags message_sd.set_unicast_flag].
  change (remaining_ (set_remaining (length eb) d1)) with (length eb).
  pose proof (reads_at_take _ _ _ H) as Hwin.
  destruct (read_entries_ok host reserve (length eb) [] (message_sd.entries_ m) _ Hes ltac:(lia) Hwin)
    as (d2 & E2 & H2).
  destruct (read_entries_outcome host (length eb) [] _ (reads_at_wf _ _ Hwin) (le_n _))
    as (b & es & d2' & E2' & Hc).
  rewrite E2 in E2'. injection E2' as <- <- <-. rewrite E2, bind_Ok.
  replace (Z.to_nat (u32 (Z.of_nat (length eb + length rest) - Z.of_nat (length eb))))
    with (length rest) by (rewrite wrap_small by (split; lia); lia).
  pose proof (reads_at_restore _ _ _ _ H Hc H2) as H3.
  match goal with |- context [message_sd.read_option_array _ _ _ ?m' _] =>
    destruct (option_array_ok m' (message_sd.options_ m) _ eq_refl Hos ltac:(fold ob; lia) H3)
      as (d4 & E4) end.
  rewrite E4. reflexivity.
Qed.

(** A message without entries: the options are read from what is left. *)
Definition optionless_prefix (len flags : Z) (h : message_header_impl.t) (ob : bytes) : bytes :=
  header_bytes len h ++ [flags] ++ be_bytes 3 0 ++ be_bytes 4 0
  ++ be_bytes 4 (Z.of_nat (length ob)) ++ ob.

Lemma no_entries_message len flags h ob th :
  header_wf h → is_u32 len → Z.of_nat (length ob) + 4 < 2 ^ 32 →
  ∃ d, reads_at d ob ∧ (position_ d + length ob)%nat = length (data_ d) ∧
    message_sd.deserialize_sd_message host reserve
      (of_data (optionless_prefix len flags h ob) th)
    = ('(os, _) ← message_sd.read_options host reserve (length ob) [] d;
       Ok (Some (message_sd.mk (message_header_impl.set_instance 0
                                  (message_header_impl.set_length len h))
                   flags (Z.of_nat (length ob)) [] os 0))).
Proof.
  intros Hh Hlen Hl. set (d0 := of_data _ th).
  assert (reads_at d0 (optionless_prefix len flags h ob)) as H by apply reads_at_of_data.
  assert (position_ d0 + remaining_ d0 = length (data_ d0))%nat as Hend by done.
  clearbody d0. unfold optionless_prefix in H.
  unfold message_sd.deserialize_sd_message, message_sd.deserialize.
  pose proof (reads_prefix host no_ub (message_sd.header_ message_sd.create) d0
    (reads_at_wf _ _ H)) as Hc.
  eapply (read_prefix_ok host (message_sd.header_ message_sd.create)) in H as (d1 & E1 & H);
    [|done|done|by_eval].
  rewrite E1 in *. destruct Hc as [(Hda & Hp & _) _]. rewrite bind_Ok. cbn zeta.
  unfold get_remaining.
  assert (0 ≤ u32 (Z.of_nat (remaining_ d1))) by (apply (wrap_range 32); lia).
  rewrite (proj2 (Z.ltb_ge _ _)) by done.
  cbn [message_sd.entries_ message_sd.create message_sd.with_flags message_sd.set_unicast_flag].
  change (Z.to_nat 0) with 0%nat. change (remaining_ (set_remaining 0 d1)) with 0%nat.
  cbn [message_sd.read_entries]. unfold get_remaining. rewrite decide_True by done.
  rewrite bind_Ok. pose proof H as (_ & _ & Hr1). rewrite length_app, be_bytes_length in Hr1.
  rewrite Hr1, Z.sub_0_r, (wrap_small 32 (Z.of_nat (4 + length ob))) by (split; lia).
  rewrite (wrap_small 32 (Z.of_nat (4 + length ob))), Nat2Z.id by (split; lia).
  assert (set_remaining (4 + length ob) (set_remaining 0 d1) = d1) as ->
    by (destruct d1; unfold set_remaining; cbn in *; by rewrite Hr1).
  unfold message_sd.read_option_array, get_remaining. rewrite decide_False by lia.
  rewrite (deserialize_u32_ok host d1 (Z.of_nat (length ob)) ob) by (done || split; lia).
  rewrite bind_Ok. cbn zeta. apply (reads_at_advance 4) in H; [|apply be_bytes_length].
  exists (advance 4 d1). split; [done|]. split.
  { cbn. rewrite Hda. lia. }
  assert (remaining_ (advance 4 d1) = length ob) as Hrem by apply H.
  cbn [from_option id]. rewrite Hrem, Z.ltb_irrefl, Hrem.
  by destruct (message_sd.read_options _ _ _ _ _) as [[os d']| | |].
Qed.

(** *** Malformed options *)

Lemma read_options_behind fuel os d a b :
  reads_at d [a; b] → (position_ d + 2)%nat = length (data_ d) →
  (0 < fuel)%nat → message_sd.read_options host reserve fuel os d = Ub oob_read.
Proof.
  intros H Hp Hf. destruct fuel as [|fuel]; [lia|]. pose proof H as (_ & _ & Hr). cbn in Hr. cbn [message_sd.read_options].
  rewrite decide_False by (unfold get_remaining; lia).
  unfold option_impl.deserialize_option. rewrite (look_ahead_cases _ _ H).
  rewrite decide_False by (cbn; lia). by rewrite lookup_ge_None_2 by lia.
Qed.

Lemma read_options_selective fuel os d n r rest :
  reads_at d (be_bytes 2 n ++ [option_type_e.SELECTIVE; r] ++ rest) →
  is_u16 n → (length rest < 2 * Z.to_nat (n / 2))%nat → bytes_ok rest → is_u8 r →
  (0 < fuel)%nat → message_sd.read_options host reserve fuel os d = Ub indeterminate.
Proof.
  intros H Hn Hrest Hb Hr Hf. destruct fuel as [|fuel]; [lia|]. pose proof H as (_ & _ & Hl).
  rewrite !length_app, be_bytes_length in Hl. cbn [length] in Hl. cbn [message_sd.read_options].
  rewrite decide_False by (unfold get_remaining; lia).
  unfold option_impl.deserialize_option. rewrite (look_ahead_type _ _ _ _ _ H), bind_Ok.
  cbn -[option_impl.deserialize_selective].
  edestruct (selective_outcome host reserve d) as [[_ ->]|[Ht _]]; [exact H|..]; [| | |done|].
  - apply Forall_app_2; [apply be_bytes_ok|]. apply Forall_app_2; [|done].
    apply Forall_cons; split; [by_eval|]. by apply Forall_singleton.
  - rewrite !length_app, be_bytes_length. cbn [length]. lia.
  - done.
  - destruct Ht. exists n, r, rest. done.
Qed.

Lemma read_options_short_ip fuel d r :
  (1 < fuel)%nat → reads_at d (be_bytes 2 9 ++ [option_type_e.IP4_ENDPOINT; r]) →
  ∃ d', message_sd.read_options host reserve fuel [] d
  = Ok ([(0, option_impl.mk 9 option_type_e.IP4_ENDPOINT
       (option_impl.ipv4_option_impl [0; 0; 0; 0] layer_four_protocol_e.UNKNOWN 0))], d').
Proof.
  intros Hf H. destruct fuel as [|[|fuel]]; [lia..|].
  pose proof H as (_ & _ & Hl). rewrite !length_app, be_bytes_length in Hl. cbn in Hl.
  set (f := S fuel). cbn [message_sd.read_options]. rewrite decide_False by (unfold get_remaining; lia).
  change [option_type_e.IP4_ENDPOINT; r] with ([option_type_e.IP4_ENDPOINT; r] ++ []) in H.
  unfold option_impl.deserialize_option. rewrite (look_ahead_type _ _ _ _ _ H), bind_Ok.
  cbn -[option_impl.deserialize_ipv4]. unfold option_impl.deserialize_ipv4, option_impl.deserialize_ip.
  eapply deserialize_header_ok in H as (d1 & -> & (_ & _ & Hz)); [|by_eval|done].
  rewrite bind_Ok. cbn [length] in Hz.
  rewrite (rtry_none _ _ d1) by (unfold deserialize_block; by rewrite decide_True by lia).
  rewrite bind_Ok, (rtry_none _ _ d1) by (unfold deserialize_u8; by rewrite decide_True by lia).
  rewrite bind_Ok, (rtry_none _ _ d1) by (unfold deserialize_u8; by rewrite decide_True by lia).
  rewrite bind_Ok, (rtry_none _ _ d1) by (unfold deserialize_u16; by rewrite decide_True by lia).
  rewrite bind_Ok. cbn -[message_sd.read_options].
  subst f. cbn [message_sd.read_options]. unfold get_remaining. rewrite decide_True by done.
  eexists. reflexivity.
Qed.

Lemma read_options_unknown fuel d ty r payload :
  option_impl.known_type ty = false → Z.of_nat (length payload) < 65535 →
  reads_at d (be_bytes 2 (Z.of_nat (S (length payload))) ++ [ty; r] ++ payload) →
  (0 < fuel)%nat → ∃ d', message_sd.read_options host reserve fuel [] d = Ok ([], d').
Proof.
  intros Hty Hl H Hf. destruct fuel as [|fuel]; [lia|]. pose proof H as (_ & _ & Hr). rewrite !length_app, be_bytes_length in Hr.
  cbn [length] in Hr. cbn [message_sd.read_options].
  rewrite decide_False by (unfold get_remaining; lia).
  unfold option_impl.deserialize_option. rewrite (look_ahead_type _ _ _ _ _ H), bind_Ok.
  unfold option_impl.known_type in Hty. apply bool_decide_eq_false in Hty.
  rewrite !not_elem_of_cons in Hty. destruct_and! Hty.
  rewrite !(proj2 (Z.eqb_neq _ _)) by done. cbn [orb].
  unfold option_impl.deserialize_unknown, rbind, option_impl.deserialize_header, rbind.
  rewrite (deserialize_u16_ok host d (Z.of_nat (S (length payload))) ([ty; r] ++ payload))
    by (done || split; lia).
  rewrite bind_Ok. apply (reads_at_advance 2) in H; [|apply be_bytes_length]. cbn [app] in H.
  rewrite (deserialize_u8_ok _ _ _ H), bind_Ok. apply (reads_at_advance 1 _ [ty]) in H; [|done].
  rewrite (deserialize_u8_ok _ _ _ H), bind_Ok. apply (reads_at_advance 1 _ [r]) in H; [|done].
  cbn [rret mbind result_bind fst]. unfold rret. cbn [fst]. unfold get_remaining.
  destruct H as (_ & _ & ->). rewrite (proj2 (Z.ltb_lt _ _)), orb_true_r by lia. by eexists.
Qed.
End roundtrip.

(** (C32) Round trip: a message that [sd::message_impl::serialize] wrote is
    accepted by [sd::deserializer::deserialize_sd_message] on a host of either
    byte order: the entries with their option runs and the options in their
    order are those of the sender, and so are the flags and the session. *)
Theorem sd_roundtrip (h1 h2 : endianess_e) (alloc : nat → bool) (reserve : nat → nat)
    (Halloc : ∀ n, alloc n = true) (m : message_sd.t) (Hwf : sd_wf m) (th : Z) :
  ∃ s, message_sd.serialize h1 alloc m (serializer.create th) = Ok (true, s)
  ∧ message_sd.deserialize_sd_message h2 reserve (deserializer.of_data (serializer.data_ s) th)
    = Ok (Some (received_sd m)).
Proof.
  eexists. split; [by apply appends_message|]. cbn. by apply sd_deserialize_ok.
Qed.

(** An offer with two endpoints, a subscription with a selective option and a
    configuration option. *)
Definition example_sd : message_sd.t :=
  message_sd.mk
    (message_header_impl.set_session 7 (message_sd.header_ message_sd.create)) 0xC0 0
    [ entry_impl.mk 1 0x1111 0x0001 1 3 [0; 1] [3] 2 1 0 3 (entry_impl.serviceentry_impl 5);
      entry_impl.mk 6 0x1111 0x0001 1 0xFFFFFF [1; 2] [] 2 0 1 0
        (entry_impl.eventgroupentry_impl 0x8001 0 0) ]
    [ (100, option_impl.new_ipv4 (λ _, false) [10; 0; 0; 1] 30509 true);
      (104, option_impl.new_ipv6 (λ _, true) (replicate 16 0xFF) 30490 false);
      (108, option_impl.set_clients [1; 3; 0x1234] option_impl.new_selective);
      (112, option_impl.add_item [104; 111] [120; 121; 122] option_impl.new_configuration) ]
    140.

Lemma example_sd_wf : sd_wf example_sd.
Proof.
  split_and!; [split; by_eval| | |by vm_compute].
  - assert (∀ run, (length run ≤ 15)%nat → run = seqZ (default 0 (head run)) (Z.of_nat (length run)) →
      0 ≤ default 0 (head run) → default 0 (head run) + Z.of_nat (length run) ≤ 256 → run_wf run)
      as Hrun by (intros; split; [done|eauto]).
    repeat constructor; cbn; first [by_eval|apply Hrun; by_eval].
  - repeat (apply Forall_cons; split); [..|by apply Forall_nil];
      (split; [|split; [reflexivity|by_eval]]); cbn.
    + split_and!; [by left|done|done|by_eval].
    + split_and!; [by right|done|done|by_eval].
    + split_and!; [done|by_eval|repeat constructor].
    + split_and!; [done| |repeat constructor]. repeat constructor; by_eval.
Qed.

Lemma sd_roundtrip_witness :
  ∃ s, message_sd.serialize be (λ _, true) example_sd (serializer.create 0) = Ok (true, s)
  ∧ message_sd.deserialize_sd_message le id (deserializer.of_data (serializer.data_ s) 0)
    = Ok (Some (received_sd example_sd)).
Proof.
  apply (sd_roundtrip be le (λ _, true) id); [reflexivity|apply example_sd_wf].
Defined.

(** (C39) What malformed options do, for every header and flags, in a message
    without entries: two bytes too many make the deserializer read behind the
    buffer; a selective option with missing clients uses an uninitialised
    variable; an IPv4 endpoint that ends behind its header is accepted as
    0.0.0.0, port 0, unknown protocol; an unknown option that ends with the
    option array is dropped. *)
Theorem sd_malformed_options (host : endianess_e) (reserve : nat → nat) (th len flags : Z)
    (h : message_header_impl.t) (Hh : header_wf h) (Hlen : is_u32 len) :
  let receive ob := message_sd.deserialize_sd_message host reserve
    (deserializer.of_data (optionless_prefix len flags h ob) th) in
  let accepted ob os := receive ob = Ok (Some (message_sd.mk
    (message_header_impl.set_instance 0 (message_header_impl.set_length len h)) flags
    (Z.of_nat (length ob)) [] os 0)) in
  (∀ a b, receive [a; b] = Ub oob_read)
  ∧ (∀ n r rest, is_u16 n → (length rest < 2 * Z.to_nat (n / 2))%nat → bytes_ok rest → is_u8 r →
     receive (be_bytes 2 n ++ [option_type_e.SELECTIVE; r] ++ rest) = Ub indeterminate)
  ∧ (∀ r, accepted (be_bytes 2 9 ++ [option_type_e.IP4_ENDPOINT; r])
       [(0, option_impl.mk 9 option_type_e.IP4_ENDPOINT
              (option_impl.ipv4_option_impl [0; 0; 0; 0] layer_four_protocol_e.UNKNOWN 0))])
  ∧ (∀ ty r payload, option_impl.known_type ty = false → Z.of_nat (length payload) < 65535 →
     accepted (be_bytes 2 (Z.of_nat (S (length payload))) ++ [ty; r] ++ payload) []).
Proof.
  cbn zeta. split_and!.
  - intros a b. destruct (no_entries_message host reserve len flags h [a; b] th)
      as (d & H & Hp & ->); [done..|cbn; lia|].
    by erewrite read_options_behind by (done || cbn; lia).
  - intros n r rest Hn Hrest Hb Hr.
    set (ob := be_bytes 2 n ++ [option_type_e.SELECTIVE; r] ++ rest).
    destruct (no_entries_message host reserve len flags h ob th) as (d & H & _ & ->); [done..| |].
    { subst ob. rewrite !length_app, be_bytes_length. cbn [length].
      assert (n / 2 ≤ n) by (apply Z.div_le_upper_bound; destruct Hn; lia). destruct Hn. lia. }
    by erewrite read_options_selective by (done || subst ob; rewrite length_app, be_bytes_length; lia).
  - intros r. destruct (no_entries_message host reserve len flags h
      (be_bytes 2 9 ++ [option_type_e.IP4_ENDPOINT; r]) th) as (d & H & _ & ->); [done..|cbn; lia|].
    edestruct (read_options_short_ip host reserve) as (d' & E); [|exact H|by rewrite E]. cbn; lia.
  - intros ty r payload Hty Hl.
    set (ob := be_bytes 2 (Z.of_nat (S (length payload))) ++ [ty; r] ++ payload).
    destruct (no_entries_message host reserve len flags h ob th) as (d & H & _ & ->); [done..| |].
    { subst ob. rewrite !length_app, be_bytes_length. cbn [length]. lia. }
    edestruct (read_options_unknown host reserve) as (d' & E); [done|done|exact H| |by rewrite E].
    subst ob. rewrite length_app, be_bytes_length. lia.
Qed.

Lemma sd_malformed_options_witness :
  message_sd.deserialize_sd_message le id
    (deserializer.of_data (optionless_prefix 24 0x40 (message_sd.header_ message_sd.create) [0; 9]) 0)
  = Ub oob_read.
Proof.
  pose proof (sd_malformed_options le id 0 24 0x40 (message_sd.header_ message_sd.create)
    ltac:(split; by_eval) ltac:(by_eval)) as H.
  cbn zeta in H. exact (proj1 H 0 9).
Defined.
