(* ===== verification/SdBuild.v ===== *)
(** * Building service discovery messages

    [sd::message_impl::add_entry_data] and the splitting over several messages:
    the invariant of a message under construction, the options that its entries
    refer to, and the refinement of the announcement contract. *)

From stdpp Require Import base list sorting.
From Stdlib Require Import ZArith Lia.
From S2P Require Import Prelude BitHelper Serialization Message Sd SdSafety SdWire.

(** ** Comparing options *)

(** Two options of the same type and well-formed are objects of the same class,
    so that [equals] compares them member by member and no cast fails. *)
Lemma equals_wf o o' :
  option_wf o → option_wf o' → option_impl.equals o o' = Ok (bool_decide (o = o')).
Proof.
  destruct o as [l ty b], o' as [l' ty' b'].
  intros (Hb & _ & _) (Hb' & _ & _). cbn [option_impl.type_ option_impl.body_] in *.
  unfold option_impl.equals, option_impl.configuration_equals, option_impl.load_balancing_equals,
    option_impl.protection_equals, option_impl.ipv4_equals, option_impl.ipv6_equals,
    option_impl.selective_equals, option_impl.ip_equals, option_impl.base_equals. cbn.
  destruct (Z.eqb_spec ty ty') as [<-|Hty]; cbn.
  2:{ rewrite bool_decide_false by congruence. by destruct b. }
  destruct (Z.eqb_spec l l') as [<-|Hl]; cbn.
  2:{ rewrite bool_decide_false by congruence. by destruct b. }
  destruct b, b'; cbn in Hb, Hb'; destruct_and? Hb; destruct_and? Hb';
    try (by destruct_or?; subst); cbn;
    repeat match goal with
    | |- context [?x =? ?y] => destruct (Z.eqb_spec x y); subst; cbn
    end; try (rewrite bool_decide_false by congruence; done);
    try (f_equal; apply bool_decide_ext; split; congruence).
  all: by rewrite bool_decide_true.
Qed.

Lemma find_option_ok o (os : list message_sd.ptr) :
  option_wf o → Forall (λ p, option_wf p.2) os →
  ∃ r, message_sd.find_option o os = Ok r
    ∧ match r with
      | Some q => q ∈ os ∧ q.2 = o
      | None => ∀ q, q ∈ os → q.2 ≠ o
      end.
Proof.
  intros Ho. induction 1 as [|[a q] os Hq _ IH]; cbn [message_sd.find_option].
  { eexists; split; [done|]. intros q Hq. by apply elem_of_nil in Hq. }
  rewrite equals_wf by done. rewrite bind_Ok. cbn [snd] in *. case_bool_decide as Heq.
  { eexists; split; [done|]. split; [by left|done]. }
  destruct IH as (r & -> & Hr). eexists; split; [done|].
  destruct r as [q'|]; [destruct Hr; split; [by right|done]|].
  intros q' [->|Hq']%elem_of_cons; [done|by apply Hr].
Qed.

(** ** The index of an option *)

Lemma index_from_ok (os : list message_sd.ptr) i k bound p :
  NoDup os.*1 → os !! k = Some p → i + Z.of_nat (length os) ≤ bound →
  message_sd.index_from i bound p.1 os = i + Z.of_nat k.
Proof.
  revert i k. induction os as [|q os IH]; intros i k Hn Hk Hb; [done|].
  cbn [fmap list_fmap length] in *. apply NoDup_cons in Hn as [Hq Hn].
  cbn [message_sd.index_from]. rewrite (proj2 (Z.ltb_lt _ _)) by lia.
  destruct k as [|k]; cbn in Hk.
  { simplify_eq. rewrite Z.eqb_refl. lia. }
  destruct (Z.eqb_spec q.1 p.1) as [Heq|_].
  { destruct Hq. rewrite Heq. apply list_elem_of_fmap_2. by eapply list_elem_of_lookup_2. }
  rewrite (IH (i + 1) k) by (done || lia). lia.
Qed.

Lemma get_option_index_ok (os : list message_sd.ptr) k p :
  NoDup os.*1 → os !! k = Some p → (Z.of_nat (length os) < 32768) →
  message_sd.get_option_index p.1 os = Z.of_nat k.
Proof.
  intros Hn Hk Hl. unfold message_sd.get_option_index.
  assert (message_sd.int16 (length os) = Z.of_nat (length os)) as ->.
  { unfold message_sd.int16. rewrite wrap_small by (split; lia).
    by rewrite (proj2 (Z.ltb_lt _ _)) by lia. }
  by rewrite (index_from_ok _ _ k) by (done || lia).
Qed.

(** ** The map of an entry's options

    [its_options] is ordered by address.  Its elements are the options an entry
    asks for, replaced by an equal option of the message where there is one;
    the flag says that the option is new. *)

Abbreviation flagged := (message_sd.ptr * bool)%type.
Definition by_addr (x y : flagged) : Prop := x.1.1 < y.1.1.
Definition size_of (p : message_sd.ptr) : Z := option_impl.length_ p.2 + 3.
Definition total (ps : list message_sd.ptr) : Z := foldr (λ p n, size_of p + n) 0 ps.
Definition new_ones (l : list flagged) : list message_sd.ptr := (filter (λ x, x.2 = true) l).*1.

Lemma assign_fresh p b (l : list flagged) :
  StronglySorted by_addr l → p.1 ∉ l.*1.*1 →
  StronglySorted by_addr (message_sd.assign p b l) ∧ message_sd.assign p b l ≡ₚ (p, b) :: l.
Proof.
  induction 1 as [|[q c] l Hs IH Hq]; intros Hp; cbn [message_sd.assign].
  { split; [repeat constructor|done]. }
  cbn [fmap list_fmap fst] in Hp. apply not_elem_of_cons in Hp as [Hpq Hp].
  destruct (Z.ltb_spec p.1 q.1).
  { split; [|done]. constructor; [by constructor|]. constructor; [done|].
    eapply Forall_impl; [exact Hq|]. unfold by_addr. cbn. lia. }
  rewrite (proj2 (Z.eqb_neq _ _)) by done. destruct (IH Hp) as [IH1 IH2].
  split; [|rewrite IH2; apply Permutation_swap].
  constructor; [done|]. rewrite IH2. constructor; [unfold by_addr; cbn; lia|done].
Qed.

Lemma assign_same p b (l : list flagged) :
  StronglySorted by_addr l → (p, b) ∈ l → message_sd.assign p b l = l.
Proof.
  induction 1 as [|[q c] l Hs IH Hq]; intros Hp; cbn [message_sd.assign];
    [by apply elem_of_nil in Hp|].
  apply elem_of_cons in Hp as [[= <- <-]|Hp]; [by rewrite Z.ltb_irrefl, Z.eqb_refl|].
  rewrite Forall_forall in Hq. specialize (Hq _ Hp). unfold by_addr in Hq. cbn in Hq.
  rewrite (proj2 (Z.ltb_ge _ _)), (proj2 (Z.eqb_neq _ _)) by lia. by rewrite IH.
Qed.

Lemma size_of_bounds p : option_wf p.2 → 3 ≤ size_of p < 65539 ∧ option_impl.get_size p.2 = size_of p.
Proof.
  intros (_ & _ & Hl). unfold size_of, option_impl.get_size. split; [destruct Hl; lia|]. word.
Qed.

Section building.
(** The objects that the shared pointers refer to. *)
Context (heap : Z → option_impl.t).

Definition ptr_ok (p : message_sd.ptr) : Prop := p.2 = heap p.1 ∧ option_wf p.2.

Lemma ptr_eq p q : ptr_ok p → ptr_ok q → p.1 = q.1 → p = q.
Proof. destruct p, q. unfold ptr_ok. cbn. by intros [-> _] [-> _] ->. Qed.

(** What holds of [its_options] after some of the options were visited. *)
Record collected (existing : list message_sd.ptr) (l : list flagged) : Prop := {
  collected_sorted : StronglySorted by_addr l;
  collected_ok : Forall (λ x, ptr_ok x.1) l;
  collected_old : ∀ p, (p, false) ∈ l → p ∈ existing;
  collected_new : ∀ p, (p, true) ∈ l → p.1 ∉ existing.*1
}.

Lemma collected_perm existing x l l' :
  collected existing l → StronglySorted by_addr l' → l' ≡ₚ x :: l → ptr_ok x.1 →
  (if x.2 then x.1.1 ∉ existing.*1 else x.1 ∈ existing) → collected existing l'.
Proof.
  intros [Hs Hok Hold Hnew] Hs' Hp Hx Hc. split; [done| | |].
  - rewrite Hp. by constructor.
  - intros p. rewrite Hp. intros [<-|Hin]%elem_of_cons; [done|auto].
  - intros p. rewrite Hp. intros [<-|Hin]%elem_of_cons; [done|auto].
Qed.

Lemma total_cons p ps : total (p :: ps) = size_of p + total ps.
Proof. done. Qed.

Lemma total_perm ps qs : ps ≡ₚ qs → total ps = total qs.
Proof. unfold total. induction 1; cbn; lia. Qed.

Lemma total_app ps qs : total (ps ++ qs) = total ps + total qs.
Proof. unfold total. induction ps; cbn; lia. Qed.

Lemma total_nonneg ps : Forall ptr_ok ps → 3 * Z.of_nat (length ps) ≤ total ps.
Proof.
  induction 1 as [|p ps [_ Hp] _ IH]; cbn [total foldr length]; [lia|].
  apply size_of_bounds in Hp. unfold total in IH. lia.
Qed.

Lemma new_ones_perm l l' : l ≡ₚ l' → new_ones l ≡ₚ new_ones l'.
Proof. unfold new_ones. by intros ->. Qed.

Lemma collected_key existing l p b :
  collected existing l → ptr_ok p → p.1 ∈ l.*1.*1 → (p, b) ∈ l ∨ (p, negb b) ∈ l.
Proof.
  intros Hl Hp (x & Hx & Hin)%list_elem_of_fmap.
  apply list_elem_of_fmap in Hin as ([p' c] & -> & Hin).
  pose proof (collected_ok _ _ Hl) as Hok. rewrite Forall_forall in Hok.
  specialize (Hok _ Hin). cbn in Hok, Hx. assert (p' = p) as -> by (by apply ptr_eq).
  destruct b, c; auto.
Qed.

Lemma assign_old existing l q :
  collected existing l → ptr_ok q → q ∈ existing →
  collected existing (message_sd.assign q false l)
  ∧ (message_sd.assign q false l = l ∧ (q, false) ∈ l
     ∨ message_sd.assign q false l ≡ₚ (q, false) :: l).
Proof.
  intros Hl Hq Hin. destruct (decide ((q, false) ∈ l)) as [H|H].
  { rewrite assign_same by (done || apply Hl). auto. }
  destruct (assign_fresh q false l) as [Hs Hperm]; [apply Hl| |].
  { intros [?|Hn]%(collected_key existing l q false); [done| |done..].
    apply (collected_new _ _ Hl) in Hn. apply Hn. by apply list_elem_of_fmap_2. }
  split; [|by right]. by eapply (collected_perm _ (q, false)).
Qed.

Lemma assign_new existing l p :
  collected existing l → Forall ptr_ok existing → ptr_ok p → (∀ q, q ∈ existing → q.2 ≠ p.2) →
  (p, true) ∉ l →
  collected existing (message_sd.assign p true l)
  ∧ message_sd.assign p true l ≡ₚ (p, true) :: l.
Proof.
  intros Hl Hex Hp Hne Hin. destruct (assign_fresh p true l) as [Hs Hperm]; [apply Hl| |].
  { intros [?|Ho]%(collected_key existing l p true); [done| |done..].
    apply (collected_old _ _ Hl) in Ho. by destruct (Hne p). }
  split; [|done]. eapply (collected_perm _ (p, true)); [done..|].
  cbn. intros (q & Hq & Hqin)%list_elem_of_fmap. rewrite Forall_forall in Hex.
  assert (q = p) as -> by (apply ptr_eq; auto). by destruct (Hne p).
Qed.

(** The first loop, for options that are distinct objects. *)
Lemma collect_ok existing options l size :
  Forall ptr_ok existing → Forall ptr_ok options → NoDup options.*1 → collected existing l →
  (∀ p, p ∈ options → (p, true) ∉ l) → 0 ≤ size → size + total options < 2 ^ 32 →
  ∃ size' l', message_sd.collect existing options size l = Ok (size', l')
    ∧ collected existing l'
    ∧ (∀ o, o ∈ l'.*1.*2 ↔ o ∈ l.*1.*2 ∨ o ∈ options.*2)
    ∧ size' - total (new_ones l') = size - total (new_ones l)
    ∧ size' ≤ size + total options
    ∧ (length l' ≤ length l + length options)%nat.
Proof.
  intros Hex Hopt. revert l size. induction Hopt as [|p options [Hheap Hwf] Hopt IH];
    intros l size Hn Hl Hfresh Hsz Hmax; cbn [message_sd.collect].
  { do 2 eexists. split; [done|]. split; [done|]. split_and!; [|lia|cbn; lia|cbn; lia].
    intros o. rewrite elem_of_nil. tauto. }
  cbn [fmap list_fmap] in Hn. apply NoDup_cons in Hn as [Hp Hn].
  assert (total (p :: options) = size_of p + total options) as Ht by done.
  pose proof (size_of_bounds p Hwf) as [Hsp Hgs].
  assert (0 ≤ total options) by (pose proof (total_nonneg options Hopt); lia).
  destruct (find_option_ok p.2 existing Hwf) as (r & -> & Hr).
  { eapply Forall_impl; [exact Hex|]. by intros ? []. }
  rewrite bind_Ok. destruct r as [q|].
  - destruct Hr as [Hq Heq].
    destruct (assign_old existing l q Hl) as [Hcol Hcase]; [rewrite Forall_forall in Hex; auto|done|].
    destruct (IH (message_sd.assign q false l) size) as (size' & l' & E & Hc & Hv & Hs' & Hle & Hlen);
      [done|done| |done|lia|].
    { intros p' Hp' Hin. apply (Hfresh p'); [by right|].
      destruct Hcase as [[He _]|He]; rewrite He in Hin; [done|].
      by apply elem_of_cons in Hin as [?|?]. }
    exists size', l'. split_and!; [done|done| | |rewrite Ht; lia|].
    + intros o. rewrite Hv. cbn [fmap list_fmap]. rewrite elem_of_cons, <- Heq.
      destruct Hcase as [[-> Hin]|He].
      * assert (q.2 ∈ l.*1.*2) by (apply list_elem_of_fmap_2; by apply (list_elem_of_fmap_2 fst) in Hin).
        split; [tauto|]. intros [?|[->|?]]; auto.
      * rewrite He. cbn [fmap list_fmap fst]. rewrite elem_of_cons. tauto.
    + rewrite Hs'. destruct Hcase as [[-> _]| ->%new_ones_perm%total_perm]; [done|].
      unfold new_ones. by rewrite filter_cons_False by done.
    + destruct Hcase as [[He _]|He]; rewrite He in Hlen; cbn [length] in *; lia.
  - destruct (assign_new existing l p) as [Hcol He]; [done..|apply Hfresh; by left|].
    rewrite Hgs, (wrap_small 32) by (split; lia).
    destruct (IH (message_sd.assign p true l) (size + size_of p))
      as (size' & l' & E & Hc & Hv & Hs' & Hle & Hlen); [done|done| |lia|lia|].
    { intros p' Hp' Hin. rewrite He in Hin. apply elem_of_cons in Hin as [[= ->]|Hin].
      - apply Hp. by apply list_elem_of_fmap_2.
      - apply (Hfresh p'); [by right|done]. }
    exists size', l'. split_and!; [done|done| | |rewrite Ht; lia|].
    + intros o. rewrite Hv, He. cbn [fmap list_fmap fst]. rewrite !elem_of_cons. tauto.
    + rewrite Hs', (total_perm _ _ (new_ones_perm _ _ He)). unfold new_ones.
      rewrite filter_cons_True by done. cbn [fmap list_fmap fst]. rewrite total_cons. lia.
    + rewrite He in Hlen. cbn [length] in *. lia.
Qed.
End building.

(** ** Assigning the options to an entry *)

Definition assign_all (ks : list nat) (e : entry_impl.t) : entry_impl.t :=
  foldl (λ e k, entry_impl.assign_option (Z.of_nat k) e) e ks.

Lemma new_ones_true p l : new_ones ((p, true) :: l) = p :: new_ones l.
Proof. unfold new_ones. by rewrite filter_cons_True. Qed.
Lemma new_ones_false p l : new_ones ((p, false) :: l) = new_ones l.
Proof. unfold new_ones. by rewrite filter_cons_False. Qed.

Lemma new_ones_ok (P : message_sd.ptr → Prop) l : Forall (λ x, P x.1) l → Forall P (new_ones l).
Proof.
  induction 1 as [|[p []] l Hp _ IH]; [constructor| |by rewrite new_ones_false].
  rewrite new_ones_true. by constructor.
Qed.

(** The second loop: the new options are appended in the order of the map, and
    the indices that are assigned are those of the options in the result. *)
Lemma append_ok l options e :
  NoDup (options ++ new_ones l).*1 → (∀ p, (p, false) ∈ l → p ∈ options) →
  Z.of_nat (length (options ++ new_ones l)) < 32768 →
  ∃ ks, Forall2 (λ k x, (options ++ new_ones l) !! k = Some x.1) ks l
    ∧ message_sd.append l options e = (options ++ new_ones l, assign_all ks e).
Proof.
  revert options e. induction l as [|[p b] l IH]; intros options e Hn Hold Hl.
  { exists []. split; [constructor|]. cbn. by rewrite app_nil_r. }
  cbn [message_sd.append].
  set (options1 := if b then options ++ [p] else options).
  assert (options ++ new_ones ((p, b) :: l) = options1 ++ new_ones l) as Heq.
  { subst options1. destruct b; [rewrite new_ones_true, <- app_assoc|rewrite new_ones_false]; done. }
  rewrite Heq in *.
  assert (∃ k, options1 !! k = Some p) as [k Hk].
  { apply list_elem_of_lookup. subst options1. destruct b.
    - apply elem_of_app. right. by apply list_elem_of_singleton.
    - apply Hold. by left. }
  assert (NoDup options1.*1) as Hn1 by (rewrite fmap_app in Hn; by apply NoDup_app in Hn as [? _]).
  rewrite (get_option_index_ok _ k p) by (done || rewrite length_app in Hl; lia).
  destruct (IH options1 (entry_impl.assign_option (Z.of_nat k) e) Hn) as (ks & Hks & ->); [|done|].
  { intros q Hq. subst options1.
    assert (q ∈ options) by (apply Hold; by right). destruct b; [by apply elem_of_app; left|done]. }
  exists (k :: ks). split; [constructor; [|done]|done]. cbn. by apply lookup_app_l_Some.
Qed.

Lemma assign_other (l : list flagged) (os : list message_sd.ptr) ks o :
  NoDup os.*1 → Z.of_nat (length os) < 32768 →
  Forall2 (λ k x, os !! k = Some x.1) ks l →
  foldl (λ o x, entry_impl.assign_option (message_sd.get_option_index x.1.1 os) o) o l
  = assign_all ks o.
Proof.
  intros Hn Hl H. revert o. induction H as [|k x ks l Hk _ IH]; intros o; [done|].
  cbn [foldl assign_all]. rewrite (get_option_index_ok _ k x.1) by done. apply IH.
Qed.

(** Assigning an option changes the runs only. *)
Definition fields (e : entry_impl.t) :=
  (entry_impl.type_ e, entry_impl.service_ e, entry_impl.instance_ e,
   entry_impl.major_version_ e, entry_impl.ttl_ e, entry_impl.body_ e).

Lemma assign_all_fields ks e : fields (assign_all ks e) = fields e.
Proof.
  revert e. induction ks as [|k ks IH]; intros e; [done|]. cbn [assign_all foldl].
  unfold assign_all in IH. rewrite IH. unfold entry_impl.assign_option. by repeat case_match.
Qed.

Lemma run_wf_nil : run_wf [].
Proof. split; [cbn; lia|]. exists 0. done. Qed.

Lemma run_wf_one i : 0 ≤ i < 256 → run_wf [i].
Proof. intros. split; [cbn; lia|]. exists i. cbn. split; [done|lia]. Qed.

Lemma run_wf_two i : 0 ≤ i < 255 → run_wf [i; i + 1].
Proof.
  intros. split; [cbn; lia|]. exists i. split; [|cbn; lia].
  change (Z.of_nat (length [i; i + 1])) with 2.
  by rewrite seqZ_cons by lia.
Qed.

(** At most two options always find a run. *)
Lemma assign_few ks e :
  entry_impl.run1_ e = [] → entry_impl.run2_ e = [] →
  NoDup ks → (length ks ≤ 2)%nat → Forall (λ k, k < 256)%nat ks →
  let e' := assign_all ks e in
  run_wf (entry_impl.run1_ e') ∧ run_wf (entry_impl.run2_ e')
  ∧ entry_impl.run1_ e' ++ entry_impl.run2_ e' ≡ₚ Z.of_nat <$> ks.
Proof.
  intros H1 H2 Hn Hlen Hks. destruct ks as [|i [|j [|]]]; cbn [length] in Hlen; [..|lia];
    cbn [assign_all foldl fmap list_fmap].
  { rewrite H1, H2. split_and!; [apply run_wf_nil..|done]. }
  all: apply Forall_cons in Hks as [Hi Hks].
  all: set (e1 := entry_impl.assign_option (Z.of_nat i) e).
  all: assert (entry_impl.run1_ e1 = [Z.of_nat i] ∧ entry_impl.run2_ e1 = []) as [E1 E2]
    by (subst e1; unfold entry_impl.assign_option;
        rewrite (proj2 (Z.ltb_lt _ _)), (proj2 (Z.ltb_lt _ _)) by lia;
        cbn [andb]; rewrite H1; cbn; by rewrite H2).
  { rewrite E1, E2. split_and!; [apply run_wf_one; lia|apply run_wf_nil|done]. }
  apply Forall_cons in Hks as [Hks _]. apply NoDup_cons in Hn as [Hij%not_elem_of_cons _].
  unfold entry_impl.assign_option.
  rewrite (proj2 (Z.ltb_lt (-1) (Z.of_nat j))), (proj2 (Z.ltb_lt (Z.of_nat j) 256)) by lia.
  cbn [andb]. rewrite E1, E2. cbn [entry_impl.joins last].
  assert (entry_impl.join [Z.of_nat i] (Z.of_nat j)
    = if decide (Z.of_nat i ≤ Z.of_nat j) then [Z.of_nat i; Z.of_nat j]
      else [Z.of_nat j; Z.of_nat i]) as Hj.
  { unfold entry_impl.join. cbn. by case_decide. }
  destruct (Z.eqb_spec (Z.of_nat i) (Z.of_nat j + 1)) as [Ei|Ei]; cbn [orb].
  { cbn [entry_impl.run1_ entry_impl.run2_]. rewrite Hj, decide_False, Ei by lia.
    split_and!; [apply run_wf_two; lia|apply run_wf_nil|]. rewrite app_nil_r. apply Permutation_swap. }
  destruct (Z.eqb_spec (Z.of_nat i + 1) (Z.of_nat j)) as [Ej|Ej].
  { cbn [entry_impl.run1_ entry_impl.run2_]. rewrite Hj, decide_True, <- Ej by lia.
    split_and!; [apply run_wf_two; lia|apply run_wf_nil|]. by rewrite app_nil_r. }
  cbn. split_and!; [apply run_wf_one; lia..|done].
Qed.

(** ** The invariant of a message under construction *)

(** The option values that an entry refers to. *)
Definition refs (os : list message_sd.ptr) (e : entry_impl.t) : list option_impl.t :=
  omap (λ i, snd <$> os !! Z.to_nat i) (entry_impl.run1_ e ++ entry_impl.run2_ e).

(** What an announcement says: the members of an entry and its options. *)
Abbreviation announcement :=
  ((Z * Z * Z * Z * Z * entry_impl.body) * list option_impl.t)%type.

Definition announces (os : list message_sd.ptr) (e : entry_impl.t) (a : announcement) : Prop :=
  fields e = a.1 ∧ ∀ o, o ∈ refs os e ↔ o ∈ a.2.

Definition requested (d : service_discovery_impl.entry_data_t) : list announcement :=
  let os := (service_discovery_impl.options_ d).*2 in
  (fields (service_discovery_impl.entry_ d), os)
  :: match service_discovery_impl.other_ d with Some o => [(fields o, os)] | None => [] end.

Definition fresh_entry (e : entry_impl.t) : Prop :=
  entry_impl.run1_ e = [] ∧ entry_impl.run2_ e = [] ∧ entry_wf e.

Section invariant.
Context (heap : Z → option_impl.t).

Record request_ok (d : service_discovery_impl.entry_data_t) : Prop := {
  request_entry : fresh_entry (service_discovery_impl.entry_ d);
  request_other : ∀ o, service_discovery_impl.other_ d = Some o → fresh_entry o;
  request_options : Forall (ptr_ok heap) (service_discovery_impl.options_ d);
  request_distinct : NoDup (service_discovery_impl.options_ d).*1;
  request_few : (length (service_discovery_impl.options_ d) ≤ 2)%nat
}.

Definition entry_ok (n : nat) (e : entry_impl.t) : Prop :=
  entry_wf e ∧ Forall (λ i, 0 ≤ i < Z.of_nat n) (entry_impl.run1_ e ++ entry_impl.run2_ e).

Record built (m : message_sd.t) : Prop := {
  built_header : message_sd.header_ m = message_sd.header_ message_sd.create;
  built_flags : message_sd.flags_ m = message_sd.flags_ message_sd.create;
  built_addr : NoDup (message_sd.options_ m).*1;
  built_ok : Forall (ptr_ok heap) (message_sd.options_ m);
  built_entries : Forall (entry_ok (length (message_sd.options_ m))) (message_sd.entries_ m);
  built_size : message_sd.current_message_size_ m
    = 28 + 16 * Z.of_nat (length (message_sd.entries_ m)) + total (message_sd.options_ m);
  built_max : message_sd.current_message_size_ m ≤ 1380;
  built_few : (length (message_sd.options_ m) ≤ 2 * length (message_sd.entries_ m))%nat
}.

Lemma built_create : built message_sd.create.
Proof. split; cbn; try done; try constructor; lia. Qed.

Lemma entry_ok_mono n n' e : (n ≤ n')%nat → entry_ok n e → entry_ok n' e.
Proof. intros Hn [? H]. split; [done|]. eapply Forall_impl; [exact H|]. cbn. lia. Qed.

(** New options behind the others do not change what an entry refers to. *)
Lemma refs_app os new e : entry_ok (length os) e → refs (os ++ new) e = refs os e.
Proof.
  intros [_ H]. unfold refs. induction H as [|i l Hi _ IH]; cbn; [done|].
  rewrite lookup_app_l by lia. by rewrite IH.
Qed.

(** A fresh entry that gets the options with indices [ks]. *)
Lemma assigned_ok (os : list message_sd.ptr) ks (ps : list message_sd.ptr) e :
  NoDup os.*1 → Forall2 (λ k p, os !! k = Some p) ks ps → NoDup ps.*1 →
  (length ps ≤ 2)%nat → (length os ≤ 256)%nat → fresh_entry e →
  entry_ok (length os) (assign_all ks e)
  ∧ ∀ o, o ∈ refs os (assign_all ks e) ↔ o ∈ ps.*2.
Proof.
  intros Hn Hks Hps Hl H256 (H1 & H2 & Hwf).
  assert (Forall (λ k, k < length os)%nat ks) as Hb.
  { clear -Hks. induction Hks; constructor; [|done]. by eapply lookup_lt_Some. }
  assert (NoDup ks) as Hnk.
  { clear -Hks Hps. induction Hks as [|k p ks ps Hk Hks IH]; [constructor|].
    cbn [fmap list_fmap] in Hps. apply NoDup_cons in Hps as [Hp Hps]. constructor; [|auto].
    intros Hin. apply list_elem_of_lookup in Hin as [j Hj].
    destruct (Forall2_lookup_l _ _ _ _ _ Hks Hj) as (q & Hq & Hkq). cbn in Hkq.
    rewrite Hk in Hkq. injection Hkq as <-. apply Hp, list_elem_of_fmap_2.
    by eapply list_elem_of_lookup_2. }
  destruct (assign_few ks e H1 H2 Hnk) as (Hr1 & Hr2 & Hperm).
  { by rewrite (Forall2_length _ _ _ Hks). }
  { eapply Forall_impl; [exact Hb|]. cbn. lia. }
  pose proof (assign_all_fields ks e) as Hf. unfold fields in Hf. injection Hf as Ht Hs Hi _ Htt Hbo.
  split; [split|].
  - destruct Hwf. split; [by rewrite Hs|by rewrite Hi|by rewrite Htt|done|done|by rewrite Ht, Hbo].
  - rewrite Hperm. apply Forall_fmap. eapply Forall_impl; [exact Hb|]. cbn. lia.
  - intros o. unfold refs. rewrite Hperm. clear -Hks.
    induction Hks as [|k p ks ps Hk Hks IH]; cbn; [by rewrite elem_of_nil|].
    rewrite Nat2Z.id, Hk. cbn. rewrite !elem_of_cons. by rewrite IH.
Qed.

Lemma request_total d :
  request_ok d → 0 ≤ total (service_discovery_impl.options_ d) < 2 ^ 20.
Proof.
  intros [_ _ Ho _ Hf]. pose proof (total_nonneg heap _ Ho). split; [lia|].
  assert (∀ ps, Forall (ptr_ok heap) ps → total ps ≤ 65539 * Z.of_nat (length ps)) as Hb.
  { induction 1 as [|p ps [_ Hp] _ IH]; [done|]. rewrite total_cons. cbn [length].
    apply size_of_bounds in Hp. lia. }
  specialize (Hb _ Ho). lia.
Qed.

Lemma collected_nil (existing : list message_sd.ptr) : collected heap existing [].
Proof. split; [constructor..| |]; intros p Hp; by apply elem_of_nil in Hp. Qed.

(** The message that the options of a request and its entries make. *)
Definition extended (m : message_sd.t) (new : list message_sd.ptr) (es : list entry_impl.t)
    (size : Z) : message_sd.t :=
  message_sd.mk (message_sd.header_ m) (message_sd.flags_ m) (message_sd.options_length_ m)
    (message_sd.entries_ m ++ es) (message_sd.options_ m ++ new) size.

Lemma collected_nodup existing l :
  NoDup existing.*1 → collected heap existing l → NoDup (existing ++ new_ones l).*1.
Proof.
  intros He Hl. rewrite fmap_app. apply NoDup_app. split_and!; [done| |].
  - intros a Ha Hn. unfold new_ones in Hn.
    apply list_elem_of_fmap in Hn as (p & -> & Hp). apply list_elem_of_fmap in Hp as ([p' b] & -> & Hp).
    apply list_elem_of_filter in Hp as [Hb Hp]. cbn in Hb, Ha. subst b.
    by apply (collected_new _ _ _ Hl) in Hp.
  - pose proof (collected_sorted _ _ _ Hl) as Hs. clear -Hs. unfold new_ones.
    induction Hs as [|[p b] l Hs IH Hp]; [constructor|].
    rewrite filter_cons. case_decide; [|done]. cbn [fmap list_fmap fst]. constructor; [|done].
    intros (q & Hq & Hin)%list_elem_of_fmap. apply list_elem_of_fmap in Hin as (x & -> & Hin).
    apply list_elem_of_filter in Hin as [_ Hin]. rewrite Forall_forall in Hp.
    specialize (Hp _ Hin). unfold by_addr in Hp. cbn in Hp, Hq. lia.
Qed.

Lemma add_entry_outcome m d :
  built m → request_ok d →
  ∃ l size,
    let entries := Z.of_nat (length (requested d)) in
    collected heap (message_sd.options_ m) l
    ∧ (∀ o, o ∈ l.*1.*2 ↔ o ∈ (service_discovery_impl.options_ d).*2)
    ∧ (length l ≤ 2)%nat
    ∧ size = 16 * entries + total (new_ones l)
    ∧ size ≤ 16 * entries + total (service_discovery_impl.options_ d)
    ∧ message_sd.add_entry_data (service_discovery_impl.entry_ d)
        (service_discovery_impl.options_ d) (service_discovery_impl.other_ d) m
      = if 1380 <? message_sd.current_message_size_ m + size then Ok (false, m)
        else
          let '(os, e) := message_sd.append l (message_sd.options_ m)
                            (service_discovery_impl.entry_ d) in
          let es := message_sd.entries_ m ++ [e] in
          let es :=
            match service_discovery_impl.other_ d with
            | Some o => es ++ [foldl (λ o p, entry_impl.assign_option
                                  (message_sd.get_option_index p.1.1 os) o) o l]
            | None => es
            end in
          Ok (true, message_sd.mk (message_sd.header_ m) (message_sd.flags_ m)
                      (message_sd.options_length_ m) es os
                      (message_sd.current_message_size_ m + size)).
Proof.
  intros Hm Hd. pose proof (request_total d Hd) as Ht. destruct Hd as [He Ho Hopt Hdist Hfew].
  set (entries := Z.of_nat (length (requested d))).
  assert (1 ≤ entries ≤ 2) as Hen.
  { unfold entries, requested. destruct (service_discovery_impl.other_ d); cbn [length]; lia. }
  destruct (collect_ok heap (message_sd.options_ m) (service_discovery_impl.options_ d) []
    (16 * entries)) as (size & l & E & Hl & Hv & Hs & Hle & Hlen);
    [apply Hm|done|done|apply collected_nil| |lia|lia|].
  { intros p _ Hp. by apply elem_of_nil in Hp. }
  cbn [length] in Hlen. change (new_ones []) with (@nil message_sd.ptr) in Hs. cbn [total foldr] in Hs.
  exists l, size. cbn zeta. split_and!; [done| |lia|lia|lia|].
  { intros o. rewrite Hv. cbn. rewrite elem_of_nil. tauto. }
  assert (0 ≤ total (new_ones l)) as Hnn.
  { pose proof (collected_ok _ _ _ Hl) as Hok. pose proof (total_nonneg heap (new_ones l)) as Hn.
    specialize (Hn (new_ones_ok _ _ Hok)). lia. }
  unfold message_sd.add_entry_data. cbn zeta.
  replace (match service_discovery_impl.other_ d with
    | Some _ => VSOMEIP_SOMEIP_SD_ENTRY_SIZE + VSOMEIP_SOMEIP_SD_ENTRY_SIZE
    | None => VSOMEIP_SOMEIP_SD_ENTRY_SIZE end) with (16 * entries)
    by (unfold entries, requested; by destruct (service_discovery_impl.other_ d)).
  rewrite E, bind_Ok.
  pose proof (built_max _ Hm). pose proof (built_size _ Hm) as Hsz.
  pose proof (total_nonneg heap _ (built_ok _ Hm)).
  rewrite (wrap_small 32) by (split; lia). done.
Qed.

Lemma collected_distinct existing l : collected heap existing l → NoDup l.*1.*1.
Proof.
  intros Hl. pose proof (collected_sorted _ _ _ Hl) as Hs. clear -Hs.
  induction Hs as [|x l Hs IH Hx]; [constructor|]. cbn [fmap list_fmap]. constructor; [|done].
  intros (p & Hp & Hin)%list_elem_of_fmap. apply list_elem_of_fmap in Hin as (y & -> & Hin).
  rewrite Forall_forall in Hx. specialize (Hx _ Hin). unfold by_addr in Hx. lia.
Qed.

Lemma new_ones_length l : (length (new_ones l) ≤ length l)%nat.
Proof. unfold new_ones. rewrite length_fmap. apply length_filter. Qed.

Lemma extend_built m l es size :
  built m → collected heap (message_sd.options_ m) l → (length l ≤ 2)%nat →
  Forall (entry_ok (length (message_sd.options_ m ++ new_ones l))) es → (1 ≤ length es)%nat →
  size = 16 * Z.of_nat (length es) + total (new_ones l) →
  message_sd.current_message_size_ m + size ≤ 1380 →
  built (extended m (new_ones l) es (message_sd.current_message_size_ m + size)).
Proof.
  intros Hm Hl Hlen Hes Hone Hs Hfit.
  pose proof (new_ones_length l). pose proof (built_few _ Hm). pose proof (built_size _ Hm).
  split; cbn.
  - apply Hm.
  - apply Hm.
  - by apply collected_nodup; [apply Hm|].
  - apply Forall_app. split; [apply Hm|]. apply new_ones_ok, (collected_ok _ _ _ Hl).
  - apply Forall_app. split; [|done]. eapply Forall_impl; [apply Hm|]. intros e.
    apply entry_ok_mono. rewrite length_app. lia.
  - rewrite length_app, total_app. lia.
  - done.
  - rewrite !length_app. lia.
Qed.

(** [add_entry_data] keeps the invariant.  When it accepts, the message says
    what it said before and what was requested; when it refuses, the message is
    unchanged and the request would have exceeded the limit. *)
Lemma add_entry_ok m d :
  built m → request_ok d →
  ∃ b m', message_sd.add_entry_data (service_discovery_impl.entry_ d)
            (service_discovery_impl.options_ d) (service_discovery_impl.other_ d) m = Ok (b, m')
    ∧ built m'
    ∧ if (b : bool) then
        ∃ new es, message_sd.options_ m' = message_sd.options_ m ++ new
          ∧ message_sd.entries_ m' = message_sd.entries_ m ++ es
          ∧ Forall2 (announces (message_sd.options_ m')) es (requested d)
      else m' = m ∧ 1380 < message_sd.current_message_size_ m
                           + 16 * Z.of_nat (length (requested d))
                           + total (service_discovery_impl.options_ d).
Proof.
  intros Hm Hd. destruct (add_entry_outcome m d Hm Hd) as (l & size & Hl & Hv & Hlen & Hs & Hle & ->).
  destruct (Z.ltb_spec 1380 (message_sd.current_message_size_ m + size)) as [Hbig|Hfit].
  { exists false, m. split_and!; [done|done|done|lia]. }
  set (os := message_sd.options_ m ++ new_ones l).
  pose proof (collected_nodup _ _ (built_addr _ Hm) Hl) as Hn.
  pose proof (new_ones_ok _ _ (collected_ok _ _ _ Hl)) as Hnew.
  pose proof (new_ones_length l). pose proof (built_few _ Hm). pose proof (built_size _ Hm).
  pose proof (total_nonneg heap _ (built_ok _ Hm)). pose proof (total_nonneg heap _ Hnew).
  assert (length os ≤ 256)%nat as H256 by (subst os; rewrite length_app; lia).
  destruct (append_ok l (message_sd.options_ m) (service_discovery_impl.entry_ d)) as (ks & Hks & ->);
    [done|apply (collected_old _ _ _ Hl)|fold os; lia|]. fold os.
  assert (∀ e, fresh_entry e → entry_ok (length os) (assign_all ks e)
    ∧ announces os (assign_all ks e) (fields e, (service_discovery_impl.options_ d).*2)) as Hass.
  { intros e He. destruct (assigned_ok os ks l.*1 e) as [Hok Hrefs]; [done| | |by rewrite length_fmap|done|done|].
    { by apply Forall2_fmap_r. } { by eapply collected_distinct. }
    split; [done|]. split; [apply assign_all_fields|]. intros o. rewrite Hrefs. apply Hv. }
  destruct (Hass _ (request_entry _ Hd)) as [Hok1 Han1].
  exists true. eexists. split; [reflexivity|].
  set (es := assign_all ks (service_discovery_impl.entry_ d)
    :: match service_discovery_impl.other_ d with Some o => [assign_all ks o] | None => [] end).
  assert (match service_discovery_impl.other_ d with
    | Some o => (message_sd.entries_ m ++ [assign_all ks (service_discovery_impl.entry_ d)])
        ++ [foldl (λ o p, entry_impl.assign_option (message_sd.get_option_index p.1.1 os) o) o l]
    | None => message_sd.entries_ m ++ [assign_all ks (service_discovery_impl.entry_ d)]
    end = message_sd.entries_ m ++ es) as ->.
  { subst es. destruct (service_discovery_impl.other_ d) as [o|]; [|done].
    rewrite (assign_other _ _ ks) by (done || lia). by rewrite <- app_assoc. }
  assert (Forall (entry_ok (length os)) es ∧ Forall2 (announces os) es (requested d)) as [Hes Han].
  { subst es. unfold requested. pose proof (request_other _ Hd) as Ho.
    destruct (service_discovery_impl.other_ d) as [o|].
    - destruct (Hass _ (Ho _ eq_refl)).
      split; [apply Forall_cons; split; [done|by apply Forall_singleton]|].
      by constructor; [|constructor].
    - split; [by apply Forall_singleton|by constructor]. }
  split; [|by exists (new_ones l), es].
  apply (extend_built m l es size); [done..|unfold es; cbn; lia| |lia].
  by rewrite (Forall2_length _ _ _ Han).
Qed.

(** ** From the built message to the receiver *)

(** The session and the reboot flag are set when the message is sent. *)
Definition stamped (session : Z) (reboot : bool) (m : message_sd.t) : message_sd.t :=
  message_sd.set_reboot_flag reboot (message_sd.set_session session m).

Lemma total_bytes (os : list message_sd.ptr) :
  Forall (ptr_ok heap) os →
  total os = Z.of_nat (length (concat ((λ p, option_bytes p.2) <$> os))).
Proof.
  induction 1 as [|p os [_ (_ & Hl & _)] _ IH]; cbn [fmap list_fmap concat]; [done|].
  rewrite total_cons, IH, length_app. unfold size_of, option_bytes.
  rewrite !length_app, be_bytes_length. cbn [length]. lia.
Qed.

(** [current_message_size_] is the number of bytes that are sent. *)
Lemma built_bytes m session reboot :
  built m →
  Z.of_nat (length (sd_bytes (stamped session reboot m))) = message_sd.current_message_size_ m.
Proof.
  intros Hm. rewrite (built_size _ Hm), (total_bytes _ (built_ok _ Hm)).
  unfold sd_bytes, stamped, message_sd.set_reboot_flag, message_sd.with_flags, message_sd.set_session.
  cbn [message_sd.entries_ message_sd.options_ message_sd.header_ message_sd.flags_].
  rewrite !length_app, header_bytes_length, !be_bytes_length, entries_length. cbn [length]. lia.
Qed.

Lemma built_wf m session reboot : built m → is_u16 session → sd_wf (stamped session reboot m).
Proof.
  intros Hm Hs. split_and!.
  - unfold stamped, message_sd.set_reboot_flag, message_sd.with_flags, message_sd.set_session. cbn.
    rewrite (built_header _ Hm). split; [by_eval..|exact Hs].
  - cbn. eapply Forall_impl; [apply Hm|]. by intros e [].
  - cbn. eapply Forall_impl; [apply Hm|]. by intros p [].
  - rewrite built_bytes by done. pose proof (built_max _ Hm). lia.
Qed.

Lemma stamped_reboot m session reboot :
  built m → message_sd.get_reboot_flag (stamped session reboot m) = reboot.
Proof.
  intros Hm. unfold stamped, message_sd.get_reboot_flag, message_sd.set_reboot_flag,
    message_sd.set_session. cbn [message_sd.flags_ message_sd.with_flags].
  rewrite (built_flags _ Hm). by destruct reboot.
Qed.

(** What is transmitted of an announcement: [eventgroupentry_impl::serialize] writes
    a zero word in the place of the reserved bits and the counter.  The service
    discovery sets the counter to zero wherever it makes an entry. *)
Definition sent_body (b : entry_impl.body) : entry_impl.body :=
  match b with
  | entry_impl.eventgroupentry_impl g _ _ => entry_impl.eventgroupentry_impl g 0 0
  | b => b
  end.
Definition sent (a : announcement) : announcement :=
  let '(ty, sv, ins, ma, ttl, b, os) := a in (ty, sv, ins, ma, ttl, sent_body b, os).

Lemma refs_received (os : list message_sd.ptr) e :
  refs (imap (λ i p, (Z.of_nat i, p.2)) os) (received_entry e) = refs os e.
Proof.
  unfold refs. cbn. induction (_ ++ _) as [|i l IH]; cbn; [done|].
  rewrite list_lookup_imap, IH. by destruct (os !! Z.to_nat i) as [[]|].
Qed.

Lemma received_announces m session reboot A :
  Forall2 (announces (message_sd.options_ m)) (message_sd.entries_ m) A →
  let r := received_sd (stamped session reboot m) in
  Forall2 (announces (message_sd.options_ r)) (message_sd.entries_ r) (sent <$> A).
Proof.
  intros H. cbn. apply Forall2_fmap_l, Forall2_fmap_r. eapply Forall2_impl; [exact H|].
  intros e [[[[[[ty sv] ins] ma] ttl] b] os] [Hf Hr]. cbn in Hf, Hr. split.
  - unfold fields in *. injection Hf as <- <- <- <- <- <-. cbn. by destruct (entry_impl.body_ e).
  - intros o. rewrite refs_received. apply Hr.
Qed.

(** *** Splitting over messages *)

Definition represents (m : message_sd.t) (A : list announcement) : Prop :=
  built m ∧ Forall2 (announces (message_sd.options_ m)) (message_sd.entries_ m) A.

Definition fits_alone (d : service_discovery_impl.entry_data_t) : Prop :=
  28 + 16 * Z.of_nat (length (requested d)) + total (service_discovery_impl.options_ d) ≤ 1380.

Lemma add_represents m A d :
  represents m A → request_ok d →
  ∃ b m', message_sd.add_entry_data (service_discovery_impl.entry_ d)
            (service_discovery_impl.options_ d) (service_discovery_impl.other_ d) m = Ok (b, m')
    ∧ (b = true → represents m' (A ++ requested d))
    ∧ (b = false → 1380 < message_sd.current_message_size_ m
                          + 16 * Z.of_nat (length (requested d))
                          + total (service_discovery_impl.options_ d)).
Proof.
  intros [Hm HA] Hd. destruct (add_entry_ok m d Hm Hd) as (b & m' & E & Hm' & Hb).
  exists b, m'. split; [done|]. destruct b; [|by destruct Hb]. split; [intros _|done].
  destruct Hb as (new & es & Ho & He & Han). split; [done|]. rewrite He, Ho. rewrite Ho in Han.
  apply Forall2_app; [|done]. pose proof (built_entries _ Hm) as Hes.
  clear -HA Hes. induction HA as [|e a l A Ha _ IH]; [constructor|].
  apply Forall_cons in Hes as [He Hes]. constructor; [|auto].
  destruct Ha as [Hf Hr]. split; [done|]. by rewrite refs_app.
Qed.

Lemma fill_one ms As d :
  Forall2 represents ms As → ms ≠ [] → request_ok d → fits_alone d →
  ∃ ms' As', service_discovery_impl.add_entry_data d ms = Ok ms'
    ∧ Forall2 represents ms' As' ∧ ms' ≠ [] ∧ concat As' = concat As ++ requested d.
Proof.
  intros H Hne Hd Hfit. destruct (exists_last Hne) as (pre & m & ->).
  apply Forall2_app_inv_l in H as (Bs & Cs & Hpre & Hm & ->).
  apply Forall2_cons_inv_l in Hm as (A & Cs' & Hm & Hnil & ->).
  apply Forall2_nil_inv_l in Hnil as ->.
  unfold service_discovery_impl.add_entry_data. rewrite last_snoc.
  destruct (add_represents m A d Hm Hd) as (b & m' & -> & Ht & _). rewrite bind_Ok.
  destruct b.
  - rewrite removelast_last. exists (pre ++ [m']), (Bs ++ [A ++ requested d]). split_and!.
    + done.
    + apply Forall2_app; [done|]. constructor; [by apply Ht|constructor].
    + by destruct pre.
    + rewrite !concat_app. cbn. by rewrite !app_nil_r, app_assoc.
  - destruct (add_represents message_sd.create [] d) as (b & m2 & -> & Ht2 & Hf2);
      [split; [apply built_create|constructor]|done|]. rewrite bind_Ok.
    change (message_sd.current_message_size_ message_sd.create) with 28 in Hf2.
    destruct b; [|specialize (Hf2 eq_refl); unfold fits_alone in Hfit; lia].
    exists ((pre ++ [m]) ++ [m2]), ((Bs ++ [A]) ++ [requested d]). split_and!.
    + done.
    + apply Forall2_app; [apply Forall2_app; [done|by constructor]|].
      constructor; [by apply Ht2|constructor].
    + by destruct pre.
    + rewrite (concat_app (Bs ++ [A])). cbn. by rewrite app_nil_r.
Qed.
End invariant.

(** ** Theorems *)

(** [add_entry_data] on a message under construction, with at most two
    options per entry: it keeps the invariant (distinct options, the entries'
    runs are blocks of existing indices, [current_message_size_] is the size on
    the wire and at most 1380); if it accepts, the message announces in addition
    exactly the requested entry (and the second one) with exactly the requested
    options; if it refuses, the message is unchanged and the request would have
    exceeded the limit. *)
Theorem sd_add_entry (heap : Z → option_impl.t) (m : message_sd.t) (A : list announcement)
    (d : service_discovery_impl.entry_data_t)
    (Hm : represents heap m A) (Hd : request_ok heap d) :
  ∃ b m', message_sd.add_entry_data (service_discovery_impl.entry_ d)
            (service_discovery_impl.options_ d) (service_discovery_impl.other_ d) m = Ok (b, m')
    ∧ represents heap m' (if (b : bool) then A ++ requested d else A)
    ∧ (b = false → m' = m ∧ 1380 < message_sd.current_message_size_ m
                                   + 16 * Z.of_nat (length (requested d))
                                   + total (service_discovery_impl.options_ d)).
Proof.
  destruct (add_represents heap m A d Hm Hd) as (b & m' & E & Ht & Hf).
  destruct (add_entry_ok heap m d (proj1 Hm) Hd) as (b2 & m2 & E2 & _ & Hb).
  rewrite E in E2. injection E2 as <- <-. exists b, m'. split; [done|].
  destruct b; [by split; [auto|]|]. destruct Hb as [-> Hb]. done.
Qed.

(** The IPv4 endpoint with a given port at the address of the same number. *)
Definition example_heap (a : Z) : option_impl.t :=
  option_impl.new_ipv4 (λ _, false) [10; 0; 0; 1] (a mod 1000) true.
Definition example_entry (service : Z) : entry_impl.t :=
  entry_impl.set_ttl 3 (entry_impl.set_service service
    (entry_impl.set_type entry_type_e.OFFER_SERVICE entry_impl.new_serviceentry)).
Definition example_request (service : Z) (addrs : list Z) : service_discovery_impl.entry_data_t :=
  service_discovery_impl.mk_data (example_entry service)
    ((λ a, (a, example_heap a)) <$> addrs) None.

Lemma example_heap_wf a : option_wf (example_heap a).
Proof.
  split; [|split; [done|by_eval]]. cbn. split_and!; [by left|done|done|].
  pose proof (Z.mod_pos_bound a 1000). split; lia.
Qed.

Lemma example_request_ok service addrs :
  is_u16 service → NoDup addrs → (length addrs ≤ 2)%nat →
  request_ok example_heap (example_request service addrs).
Proof.
  intros Hs Hn Hl. split; cbn.
  - split_and!; [done|done|]. split; cbn; try apply run_wf_nil; try by_eval. done.
  - done.
  - apply Forall_fmap, Forall_forall. intros a _. split; [done|apply example_heap_wf].
  - rewrite <- list_fmap_compose. by rewrite list_fmap_id.
  - by rewrite length_fmap.
Qed.

Lemma sd_add_entry_witness :
  ∃ b m', message_sd.add_entry_data (example_entry 0x1234)
            ((λ a, (a, example_heap a)) <$> [30509; 30510]) None message_sd.create = Ok (b, m')
    ∧ represents example_heap m'
        (if (b : bool) then [] ++ requested (example_request 0x1234 [30509; 30510]) else [])
    ∧ (b = false → m' = message_sd.create
       ∧ 1380 < message_sd.current_message_size_ message_sd.create
          + 16 * Z.of_nat (length (requested (example_request 0x1234 [30509; 30510])))
          + total (service_discovery_impl.options_ (example_request 0x1234 [30509; 30510]))).
Proof.
  apply (sd_add_entry example_heap message_sd.create [] (example_request 0x1234 [30509; 30510])).
  - split; [apply built_create|constructor].
  - apply example_request_ok; [by_eval|by_eval|cbn; lia].
Defined.



(** The size that the message keeps is the number of bytes it is
    serialized to, at most 1380, and the length field of the header counts the
    bytes behind it; only for a message without entries, which is never sent, it
    is four bytes too small. *)
Theorem sd_length_field (heap : Z → option_impl.t) (m : message_sd.t) (Hm : built heap m) :
  Z.of_nat (length (sd_bytes m)) = message_sd.current_message_size_ m
  ∧ message_sd.current_message_size_ m ≤ VSOMEIP_MAX_UDP_SD_PAYLOAD
  ∧ message_sd.get_length m
    = Z.of_nat (length (sd_bytes m)) - 8 - (if message_sd.has_entry m then 0 else 4).
Proof.
  assert (Z.of_nat (length (sd_bytes m)) = message_sd.current_message_size_ m) as Hlen.
  { rewrite <- (built_bytes heap m 0 true Hm). unfold sd_bytes.
    by rewrite !length_app, !header_bytes_length, !be_bytes_length. }
  split; [done|]. pose proof (built_max _ _ Hm) as Hmax. split; [exact Hmax|]. rewrite Hlen.
  pose proof (total_bytes heap _ (built_ok _ _ Hm)) as Ht. pose proof (built_size _ _ Hm) as Hs.
  assert (Forall (λ p, option_wf p.2) (message_sd.options_ m)) as Hwf
    by (eapply Forall_impl; [apply Hm|by intros p []]).
  pose proof (total_nonneg heap _ (built_ok _ _ Hm)).
  unfold message_sd.get_length, message_sd.has_entry, VSOMEIP_SOMEIP_SD_DATA_SIZE,
    VSOMEIP_SOMEIP_SD_ENTRY_LENGTH_SIZE, VSOMEIP_SOMEIP_SD_ENTRY_SIZE,
    VSOMEIP_SOMEIP_SD_OPTION_LENGTH_SIZE. cbn zeta.
  destruct (decide (length (message_sd.entries_ m) = 0)%nat) as [Hz|Hz].
  - rewrite bool_decide_false by lia. replace (u32 (12 + 4)) with 16 by done.
    rewrite options_size_ok; rewrite <- ?Ht; done || lia.
  - rewrite bool_decide_true by lia. set (n := Z.of_nat (length (message_sd.entries_ m))) in *.
    replace (u32 (u32 (u32 (12 + 4) + u32 (n * 16)) + 4)) with (20 + 16 * n) by word.
    rewrite options_size_ok; rewrite <- ?Ht; done || lia.
Qed.

Lemma sd_length_field_witness :
  Z.of_nat (length (sd_bytes message_sd.create)) = 28
  ∧ message_sd.current_message_size_ message_sd.create ≤ 1380
  ∧ message_sd.get_length message_sd.create = 16.
Proof.
  destruct (sd_length_field example_heap message_sd.create (built_create example_heap))
    as (H1 & H2 & H3). rewrite H1, H3, H1. split_and!; [reflexivity|exact H2|reflexivity].
Defined.

(** Three options that lie apart in the message do not fit into two runs: the
    third one is not referred to, although the entry is accepted. *)
Definition five_options : list service_discovery_impl.entry_data_t :=
  [example_request 1 [1; 2]; example_request 2 [3; 4]; example_request 3 [5]].

Definition referred_ports (ms : list message_sd.t) : list (list Z) :=
  m ← ms; (λ e, omap (λ o, match option_impl.body_ o with
                           | option_impl.ipv4_option_impl _ _ port => Some port
                           | _ => None
                           end) (refs (message_sd.options_ m) e)) <$> message_sd.entries_ m.

Example sd_third_option_dropped :
  (referred_ports <$> foldM service_discovery_impl.add_entry_data
     (five_options ++ [example_request 4 [1; 3; 5]]) [message_sd.create])
  = Ok [[1; 2]; [3; 4]; [5]; [1; 3]].
Proof. vm_compute. reflexivity. Qed.

(** Setting the value of a configuration item again adds its size again: the
    length field then exceeds what is serialized. *)
Example sd_configuration_overwrite :
  let o := option_impl.add_item [107] [49] (option_impl.add_item [107] [48]
             option_impl.new_configuration) in
  option_impl.body_ o = option_impl.configuration_option_impl [([107], [49])]
  ∧ option_impl.length_ o = 10
  ∧ 1 + Z.of_nat (length (body_bytes (option_impl.body_ o))) = 6.
Proof. by vm_compute. Qed.
