(* ===== verification/SdSession.v ===== *)
(** * Sending and receiving service discovery messages
    ([service_discovery_impl.cpp]: sessions, reboot detection, the checks of
    [on_message] and the comparison of subscriptions within a message)

    A node keeps for every destination the session number and the reboot flag
    of the next message ([sessions_sent_]), and for every sender the last
    session numbers and flags it received by multicast and by unicast
    ([sessions_received_]).  [addr] is the type of IP addresses.  What the host
    answers to a request to send is a parameter. *)

From stdpp Require Import base list gmap sorting.
From Stdlib Require Import ZArith Lia.
From S2P Require Import Prelude BitHelper Serialization Message Sd SdSafety SdWire SdBuild.

Module sd_node.
Section node.
Context {addr : Type} `{Countable addr}.

(** ** Sending *)

Abbreviation sessions_sent_t := (gmap addr (Z * bool)).

Definition get_session (a : addr) (s : sessions_sent_t) : (Z * bool) * sessions_sent_t :=
  match s !! a with
  | Some v => (v, s)
  | None => ((1, true), <[a := (1, true)]> s)
  end.

Definition increment_session (a : addr) (s : sessions_sent_t) : sessions_sent_t :=
  match s !! a with
  | Some (session, flag) =>
      let session := u16 (session + 1) in
      <[a := if session =? 0 then (1, false) else (session, flag)]> s
  | None => s
  end.

(** [serialize_and_send]: [send_via_sd] is the host's answer for the bytes; the
    second result are the datagrams that were given to the host. *)
Fixpoint send_all (host : endianess_e) (alloc : nat → bool) (send_via_sd : bytes → bool)
    (threshold : Z) (ms : list message_sd.t) (a : addr) (s : sessions_sent_t)
    : result (bool * list bytes * sessions_sent_t) :=
  match ms with
  | [] => Ok (true, [], s)
  | m :: ms =>
      '(ok, out, s) ←
        (if message_sd.has_entry m then
           let '((session, flag), s) := get_session a s in
           let m := message_sd.set_reboot_flag flag (message_sd.set_session session m) in
           '(ok, ser) ← message_sd.serialize host alloc m (serializer.create threshold);
           if (ok : bool) then
             let data := serializer.data_ ser in
             Ok (true, [data], if send_via_sd data then increment_session a s else s)
           else Ok (false, [], s)
         else Ok (false, [], s));
      '(ok', out', s) ← send_all host alloc send_via_sd threshold ms a s;
      Ok ((ok : bool) && ok', out ++ out', s)
  end.

Definition serialize_and_send (host : endianess_e) (alloc : nat → bool)
    (send_via_sd : bytes → bool) (threshold : Z) (is_unspecified : addr → bool)
    (ms : list message_sd.t) (a : addr) (s : sessions_sent_t)
    : result (bool * list bytes * sessions_sent_t) :=
  if is_unspecified a then Ok (true, [], s)
  else send_all host alloc send_via_sd threshold ms a s.

(** ** Receiving *)

(** The multicast and the unicast session, the multicast and the unicast flag. *)
Record received_t : Type := mk_received {
  multicast_session : Z;
  unicast_session : Z;
  multicast_flag : bool;
  unicast_flag : bool
}.

Abbreviation sessions_received_t := (gmap addr received_t).

Definition is_reboot (sender : addr) (is_multicast reboot_flag : bool) (session : Z)
    (s : sessions_received_t) : bool * sessions_received_t :=
  let its_multicast_session := if is_multicast then session else 0 in
  let its_unicast_session := if is_multicast then 0 else session in
  let its_multicast_reboot_flag := if is_multicast then reboot_flag else true in
  let its_unicast_reboot_flag := if is_multicast then true else reboot_flag in
  match s !! sender with
  | None =>
      (false, <[sender := mk_received its_multicast_session its_unicast_session
                            its_multicast_reboot_flag its_unicast_reboot_flag]> s)
  | Some r =>
      let result :=
        if reboot_flag && ((is_multicast && negb (multicast_flag r))
                           || (negb is_multicast && negb (unicast_flag r)))
        then true
        else
          let its_old_session := if is_multicast then multicast_session r else unicast_session r in
          let its_old_reboot_flag := if is_multicast then multicast_flag r else unicast_flag r in
          its_old_reboot_flag && reboot_flag && (session <=? its_old_session) in
      if result then (true, delete sender s)
      else
        (false, <[sender := if is_multicast
                            then mk_received its_multicast_session (unicast_session r)
                                   its_multicast_reboot_flag (unicast_flag r)
                            else mk_received (multicast_session r) its_unicast_session
                                   (multicast_flag r) its_unicast_reboot_flag]> s)
  end.

(** The static map [session_peer]; the first missing session where the result
    is false. *)
Abbreviation session_peer_t := (gmap (addr * bool) Z).

Definition check_session_id_sequence (sender : addr) (is_multicast : bool) (session : Z)
    (s : session_peer_t) : option Z * session_peer_t :=
  let peer_to_peer := (sender, is_multicast) in
  (match s !! peer_to_peer with
   | Some last =>
       if (last <? session) && negb (session =? last + 1) then Some (u16 (last + 1)) else None
   | None => None
   end, <[peer_to_peer := session]> s).

Definition check_static_header_fields (h : message_header_impl.t) : bool :=
  (message_header_impl.protocol_version_ h =? 1)
  && (message_header_impl.interface_version_ h =? 1)
  && (message_header_impl.type_ h =? message_type_e.MT_NOTIFICATION)
  && negb ((return_code_e.E_OK <? message_header_impl.code_ h)
           && (message_header_impl.code_ h <? return_code_e.E_UNKNOWN)).

Record node_t : Type := mk_node {
  is_suspended_ : bool;
  unicast_ : addr;
  sessions_received_ : sessions_received_t;
  session_peer : session_peer_t
}.

(** What [on_message] finds out before it visits the entries.  Of the steps up to
    there, the restart of the timer of the last multicast message, the calls that
    expire the services and subscriptions of a sender with a reboot, and the
    output of the log are left out: none of them writes to these members. *)
Inductive verdict : Type :=
| ignored
| malformed
| processed (m : message_sd.t) (reboot : bool) (missing : option Z).

Definition on_message_checks (host : endianess_e) (reserve : nat → nat) (threshold : Z)
    (data : bytes) (sender : addr) (is_multicast : bool) (n : node_t) : result (verdict * node_t) :=
  if is_suspended_ n then Ok (ignored, n)
  else if decide (unicast_ n = sender) then Ok (ignored, n)
  else
    its_message ← message_sd.deserialize_sd_message host reserve
                    (deserializer.of_data data threshold);
    match its_message with
    | None => Ok (malformed, n)
    | Some m =>
        let h := message_sd.header_ m in
        if negb (check_static_header_fields h) then Ok (ignored, n)
        else
          let '(reboot, rs) := is_reboot sender is_multicast (message_sd.get_reboot_flag m)
                                 (message_header_impl.session_ h) (sessions_received_ n) in
          let '(missing, sp) := check_session_id_sequence sender is_multicast
                                  (message_header_impl.session_ h) (session_peer n) in
          Ok (processed m reboot missing, mk_node (is_suspended_ n) (unicast_ n) rs sp)
    end.
End node.

(** ** Comparing the subscriptions of a message

    The cast of an entry to an eventgroup entry gives a null pointer when it is
    none. *)

Definition is_eventgroup (e : entry_impl.t) : bool :=
  match entry_impl.body_ e with entry_impl.eventgroupentry_impl _ _ _ => true | _ => false end.

Definition null_unless {A} (b : bool) (r : result A) : result A := if b then r else Ub null_deref.

Fixpoint has_opposite (options : list option_impl.t) (its_entry : entry_impl.t)
    (rest : list entry_impl.t) : result bool :=
  match rest with
  | [] => Ok false
  | other :: rest =>
      if entry_impl.type_ other =? entry_type_e.SUBSCRIBE_EVENTGROUP then
        null_unless (is_eventgroup its_entry && is_eventgroup other) (
          if ((entry_impl.ttl_ its_entry =? 0) && (0 <? entry_impl.ttl_ other))
             || ((0 <? entry_impl.ttl_ its_entry) && (entry_impl.ttl_ other =? 0)) then
            b ← entry_impl.matches options its_entry other;
            if (b : bool) then Ok true else has_opposite options its_entry rest
          else has_opposite options its_entry rest)
      else has_opposite options its_entry rest
  end.

Fixpoint has_same (options : list option_impl.t) (its_entry : entry_impl.t)
    (rest : list entry_impl.t) : result bool :=
  match rest with
  | [] => Ok false
  | other :: rest =>
      null_unless (is_eventgroup its_entry) (
        if entry_impl.type_ its_entry =? entry_impl.type_ other then
          null_unless (is_eventgroup other) (
            if entry_impl.ttl_ its_entry =? entry_impl.ttl_ other then
              b ← entry_impl.matches options its_entry other;
              if (b : bool) then Ok true else has_same options its_entry rest
            else has_same options its_entry rest)
        else has_same options its_entry rest)
  end.

Definition check_stop_subscribe_subscribe (options : list option_impl.t) (e : entry_impl.t)
    (rest : list entry_impl.t) : result bool :=
  if (entry_impl.ttl_ e =? 0) && (entry_impl.type_ e =? entry_type_e.SUBSCRIBE_EVENTGROUP)
  then has_opposite options e rest else Ok false.
End sd_node.

(** ** The stream of session numbers *)

(** The session number and reboot flag of the [n]-th message to a destination:
    1 to 65535 with the flag, then 1 to 65535 over and over without it. *)
Definition stamp (n : nat) : Z * bool :=
  let z := Z.of_nat n in
  if z <? 65535 then (z + 1, true) else ((z - 65535) mod 65535 + 1, false).

Lemma stamp_range n : 1 ≤ (stamp n).1 ≤ 65535.
Proof.
  unfold stamp. destruct (Z.ltb_spec (Z.of_nat n) 65535); cbn; [lia|].
  pose proof (Z.mod_pos_bound (Z.of_nat n - 65535) 65535). lia.
Qed.

Lemma stamp_flag n : (stamp n).2 = (Z.of_nat n <? 65535).
Proof. unfold stamp. by destruct (Z.of_nat n <? 65535). Qed.

Lemma stamp_session n : Z.of_nat n < 65535 → (stamp n).1 = Z.of_nat n + 1.
Proof. intros. unfold stamp. by rewrite (proj2 (Z.ltb_lt _ _)). Qed.

Lemma stamp_next n :
  stamp (S n) = let session := u16 ((stamp n).1 + 1) in
                if session =? 0 then (1, false) else (session, (stamp n).2).
Proof.
  pose proof (stamp_range n). cbn zeta. unfold stamp in *.
  destruct (Z.ltb_spec (Z.of_nat n) 65535) as [Hn|Hn]; cbn [fst snd] in *.
  - destruct (Z.ltb_spec (Z.of_nat (S n)) 65535) as [Hs|Hs].
    + rewrite wrap_small by (split; lia). rewrite (proj2 (Z.eqb_neq _ _)) by lia. f_equal. lia.
    + replace (Z.of_nat n) with 65534 by lia. replace (Z.of_nat (S n)) with 65535 by lia. done.
  - rewrite (proj2 (Z.ltb_ge _ _)) by lia. set (z := Z.of_nat n - 65535) in *.
    replace (Z.of_nat (S n) - 65535) with (z + 1) by lia.
    pose proof (Z.mod_pos_bound z 65535 ltac:(lia)).
    destruct (decide (z mod 65535 = 65534)) as [E|E].
    + rewrite E. replace ((z + 1) mod 65535) with 0; [done|].
      rewrite Z.add_mod, E by lia. done.
    + rewrite wrap_small by (split; lia). rewrite (proj2 (Z.eqb_neq _ _)) by lia. do 2 f_equal.
      rewrite Z.add_mod by lia. rewrite (Z.mod_small 1) by lia. rewrite Z.mod_small; lia.
Qed.

(** A delivery: the channel, the index and the message. *)
Abbreviation delivery := (bool * nat * message_sd.t)%type.

Section sessions.
Import sd_node.
Context {addr : Type} `{Countable addr}.
Implicit Types (a sender : addr).

(** [n] messages were sent to [a] since the start. *)
Definition sent_to (a : addr) (n : nat) (s : gmap addr (Z * bool)) : Prop :=
  match s !! a with Some v => v = stamp n | None => n = 0%nat end.

Lemma get_session_ok a n s :
  sent_to a n s → ∃ s', get_session a s = (stamp n, s') ∧ s' !! a = Some (stamp n)
    ∧ ∀ b, b ≠ a → s' !! b = s !! b.
Proof.
  unfold sent_to, get_session. destruct (s !! a) as [v|] eqn:E.
  - intros ->. eauto.
  - intros ->. eexists. split; [done|]. split; [by rewrite lookup_insert_eq|].
    intros b Hb. by rewrite lookup_insert_ne.
Qed.

Lemma increment_session_ok a n s :
  s !! a = Some (stamp n) → sent_to a (S n) (increment_session a s)
    ∧ ∀ b, b ≠ a → increment_session a s !! b = s !! b.
Proof.
  intros E. unfold sent_to, increment_session. rewrite E, stamp_next.
  destruct (stamp n) as [session flag]. cbn zeta. cbn [fst snd].
  split; [by rewrite lookup_insert_eq|]. intros b Hb. by rewrite lookup_insert_ne.
Qed.

(** ** Reboot detection *)

(** The last message received on each channel ([None]: none since the record
    of the sender was made). *)
Definition last_stamp (l : option nat) : Z * bool :=
  match l with Some n => stamp n | None => (0, true) end.

Definition recorded (sender : addr) (lm lu : option nat) (s : gmap addr received_t) : Prop :=
  match s !! sender with
  | None => lm = None ∧ lu = None
  | Some r => (multicast_session r, multicast_flag r) = last_stamp lm
              ∧ (unicast_session r, unicast_flag r) = last_stamp lu
  end.

Definition pick (c : bool) (lm lu : option nat) : option nat := if c then lm else lu.
Definition put (c : bool) (n : nat) (l : option nat * option nat) : option nat * option nat :=
  if c then (Some n, l.2) else (l.1, Some n).

(** A reboot is reported exactly when the flag is set again or the session did
    not grow while it stays set. *)
Lemma is_reboot_outcome sender lm lu (s : gmap addr received_t) c k :
  recorded sender lm lu s →
  let r := is_reboot sender c (stamp k).2 (stamp k).1 s in
  let old := last_stamp (pick c lm lu) in
  r.1 = (stamp k).2 && (negb old.2 || ((stamp k).1 <=? old.1))
  ∧ (r.1 = false → recorded sender (put c k (lm, lu)).1 (put c k (lm, lu)).2 r.2)
  ∧ (r.1 = true → r.2 !! sender = None).
Proof.
  intros Hr. cbn zeta. unfold recorded, is_reboot in *. pose proof (stamp_range k) as Hk.
  destruct (s !! sender) as [r|] eqn:E.
  - destruct Hr as [Hm Hu]. destruct r as [ms us mf uf]. cbn in Hm, Hu.
    destruct c; cbn [pick put fst snd multicast_session unicast_session multicast_flag unicast_flag
      negb andb orb] in *; rewrite ?orb_false_r.
    + rewrite <- Hm. cbn [fst snd].
      destruct (stamp k) as [z []] eqn:Ek; cbn [fst snd andb negb]; destruct mf; cbn [negb andb orb];
        try destruct (z <=? ms); cbn [fst snd]; split_and!; try done; intros _;
        rewrite ?lookup_insert_eq, ?lookup_delete_eq; cbn; rewrite ?Ek; done.
    + rewrite <- Hu. cbn [fst snd].
      destruct (stamp k) as [z []] eqn:Ek; cbn [fst snd andb negb]; destruct uf; cbn [negb andb orb];
        try destruct (z <=? us); cbn [fst snd]; split_and!; try done; intros _;
        rewrite ?lookup_insert_eq, ?lookup_delete_eq; cbn; rewrite ?Ek; done.
  - destruct Hr as [-> ->]. cbn [fst snd]. split_and!; [|intros _|done].
    + destruct c; cbn [pick last_stamp fst snd negb orb];
        rewrite (proj2 (Z.leb_gt _ _)) by lia; by rewrite andb_false_r.
    + rewrite lookup_insert_eq. destruct c; cbn; by destruct (stamp k).
Qed.

(** ** From the sender to the receiver *)

(** The datagram of the [n]-th message to a destination. *)
Definition datagram (n : nat) (m : message_sd.t) : bytes :=
  sd_bytes (stamped (stamp n).1 (stamp n).2 m).

Lemma send_all_ok (host : endianess_e) (alloc : nat → bool) (Halloc : ∀ n, alloc n = true)
    threshold ms a n s :
  Forall (λ m, message_sd.has_entry m = true) ms → sent_to a n s →
  ∃ s', send_all host alloc (λ _, true) threshold ms a s
        = Ok (true, imap (λ i m, datagram (n + i) m) ms, s')
    ∧ sent_to a (n + length ms) s' ∧ ∀ b, b ≠ a → s' !! b = s !! b.
Proof.
  intros Hms. revert n s. induction Hms as [|m ms Hm _ IH]; intros n s Hs; cbn [send_all].
  { exists s. rewrite Nat.add_0_r. done. }
  rewrite Hm. destruct (get_session_ok a n s Hs) as (s1 & -> & Hs1 & Hb1).
  destruct (stamp n) as [session flag] eqn:En. rewrite <- En in Hs1.
  rewrite (appends_message host alloc Halloc), !bind_Ok.
  destruct (increment_session_ok a n s1 Hs1) as [Hs2 Hb2].
  destruct (IH (S n) _ Hs2) as (s' & -> & Hs' & Hb'). rewrite bind_Ok.
  exists s'. split_and!.
  - cbn [imap andb app length]. do 3 f_equal. unfold datagram at 2. rewrite Nat.add_0_r, En. f_equal.
    apply imap_ext. intros i m' _. unfold compose. by rewrite Nat.add_succ_comm.
  - cbn [length]. by rewrite Nat.add_succ_comm in Hs'.
  - intros b Hb. by rewrite Hb', Hb2, Hb1.
Qed.

Abbreviation nodeT := (@node_t addr _ _).

Fixpoint receive (host : endianess_e) (reserve : nat → nat) (threshold : Z) (sender : addr)
    (ds : list delivery) (n : nodeT) : result (list verdict * nodeT) :=
  match ds with
  | [] => Ok ([], n)
  | (c, i, m) :: ds =>
      '(v, n) ← on_message_checks host reserve threshold (datagram i m) sender c n;
      '(vs, n) ← receive host reserve threshold sender ds n;
      Ok (v :: vs, n)
  end.

(** On each channel the indices grow (messages may be lost), from the last ones
    received on. *)
Fixpoint in_order (l : option nat * option nat) (ds : list delivery) : Prop :=
  match ds with
  | [] => True
  | (c, i, _) :: ds => (∀ j, pick c l.1 l.2 = Some j → (j < i)%nat) ∧ in_order (put c i l) ds
  end.

Definition listening (sender : addr) (n : nodeT) : Prop :=
  is_suspended_ n = false ∧ unicast_ n ≠ sender.

Definition reports (reboot : bool) (v : verdict) : Prop :=
  ∃ m missing, v = processed m reboot missing.

Context (heap : Z → option_impl.t) (host : endianess_e) (reserve : nat → nat) (threshold : Z).

(** The checks that a built message passes, and their results. *)
Lemma checks_ok sender (nd : nodeT) c i m :
  built heap m → listening sender nd →
  let r := is_reboot sender c (stamp i).2 (stamp i).1 (sessions_received_ nd) in
  ∃ v nd', on_message_checks host reserve threshold (datagram i m) sender c nd = Ok (v, nd')
    ∧ reports r.1 v ∧ listening sender nd' ∧ sessions_received_ nd' = r.2.
Proof.
  intros Hm [Hs Hu]. cbn zeta. unfold on_message_checks. rewrite Hs, decide_False by done.
  assert (is_u16 (stamp i).1) as Hst by (pose proof (stamp_range i); split; lia).
  unfold datagram. rewrite sd_deserialize_ok by by apply (built_wf heap).
  rewrite bind_Ok. set (r := received_sd _).
  assert (check_static_header_fields (message_sd.header_ r) = true) as ->.
  { subst r. cbn. rewrite (built_header _ _ Hm). done. }
  assert (message_header_impl.session_ (message_sd.header_ r) = (stamp i).1) as -> by done.
  assert (message_sd.get_reboot_flag r = (stamp i).2) as ->
    by apply (stamped_reboot heap m (stamp i).1 (stamp i).2 Hm).
  cbn [negb]. destruct (is_reboot _ _ _ _ _) as [reboot rs].
  destruct (check_session_id_sequence _ _ _ _) as [missing sp].
  do 2 eexists. split; [done|]. split; [by do 2 eexists|]. done.
Qed.

Lemma no_reboot_step lm lu c i (s : gmap addr received_t) sender :
  recorded sender lm lu s → (∀ j, pick c lm lu = Some j → (j < i)%nat) →
  let r := is_reboot sender c (stamp i).2 (stamp i).1 s in
  r.1 = false ∧ recorded sender (put c i (lm, lu)).1 (put c i (lm, lu)).2 r.2.
Proof.
  intros Hr Hlt. destruct (is_reboot_outcome sender lm lu s c i Hr) as (Hres & Hrec & _). cbn zeta.
  assert ((is_reboot sender c (stamp i).2 (stamp i).1 s).1 = false) as Hf; [|auto].
  rewrite Hres. destruct (pick c lm lu) as [j|]; cbn [last_stamp].
  - specialize (Hlt j eq_refl). rewrite !stamp_flag.
    destruct (Z.ltb_spec (Z.of_nat i) 65535); [|done].
    rewrite (proj2 (Z.ltb_lt (Z.of_nat j) _)) by lia. cbn [negb orb andb].
    rewrite !stamp_session by lia. apply Z.leb_gt. lia.
  - pose proof (stamp_range i). cbn. rewrite (proj2 (Z.leb_gt _ _)) by lia. apply andb_false_r.
Qed.

Lemma receive_in_order sender (ds : list delivery) lm lu (nd : nodeT) :
  Forall (λ d, built heap d.2) ds → in_order (lm, lu) ds → listening sender nd →
  recorded sender lm lu (sessions_received_ nd) →
  ∃ vs nd' lm' lu', receive host reserve threshold sender ds nd = Ok (vs, nd')
    ∧ length vs = length ds ∧ Forall (reports false) vs ∧ listening sender nd'
    ∧ recorded sender lm' lu' (sessions_received_ nd')
    ∧ (∀ c i m, (c, i, m) ∈ ds → is_Some (pick c lm' lu')) ∧ (∀ c, is_Some (pick c lm lu) → is_Some (pick c lm' lu')).
Proof.
  intros Hds. revert lm lu nd. induction Hds as [|[[c i] m] ds Hm _ IH];
    intros lm lu nd Hord Hl Hr; cbn [receive].
  { exists [], nd, lm, lu. split_and!; try done. intros c i m Hin. by apply elem_of_nil in Hin. }
  destruct Hord as [Hlt Hord]. cbn in Hm, Hlt.
  destruct (checks_ok sender nd c i m Hm Hl) as (v & nd1 & -> & Hv & Hl1 & Hs1). rewrite bind_Ok.
  destruct (no_reboot_step lm lu c i (sessions_received_ nd) sender Hr Hlt) as [Hf Hrec].
  rewrite Hf in Hv. destruct (put c i (lm, lu)) as [lm1 lu1] eqn:Ep. cbn [fst snd] in Hrec.
  destruct (IH lm1 lu1 nd1) as (vs & nd' & lm' & lu' & -> & Hlen & Hvs & Hl' & Hr' & Hin & Hk);
    [done|done|by rewrite Hs1|]. rewrite bind_Ok.
  assert (∀ c', c' = c ∨ is_Some (pick c' lm lu) → is_Some (pick c' lm1 lu1)) as Hput.
  { intros c' Hc'. unfold put, pick in *. cbn [fst snd] in Ep.
    destruct c, c'; injection Ep as <- <-; try (by eexists); by destruct Hc'. }
  exists (v :: vs), nd', lm', lu'. split_and!; try done; [cbn; lia|by constructor| |].
  - intros c' i' m' [[= -> -> ->]|Hin']%elem_of_cons; [|by eapply Hin]. apply Hk, Hput. by left.
  - intros c' Hc'. apply Hk, Hput. by right.
Qed.

Lemma receive_app sender ds1 ds2 (nd : nodeT) vs1 nd1 :
  receive host reserve threshold sender ds1 nd = Ok (vs1, nd1) →
  receive host reserve threshold sender (ds1 ++ ds2) nd
  = ('(vs2, nd2) ← receive host reserve threshold sender ds2 nd1; Ok (vs1 ++ vs2, nd2)).
Proof.
  revert nd vs1. induction ds1 as [|[[c i] m] ds1 IH]; intros nd vs1; cbn [receive app].
  { intros [= <- <-]. by destruct (receive _ _ _ _ _ _) as [[]| | |]. }
  destruct (on_message_checks _ _ _ _ _ _ _) as [[v nd2]| | |]; try done. rewrite !bind_Ok.
  destruct (receive host reserve threshold sender ds1 nd2) as [[vs nd3]| | |] eqn:E; try done.
  rewrite bind_Ok. intros [= <- <-]. rewrite (IH _ _ E).
  by destruct (receive _ _ _ _ _ _) as [[]| | |].
Qed.

Lemma in_order_weaken l l' ds :
  (∀ c j, pick c l'.1 l'.2 = Some j → pick c l.1 l.2 = Some j) → in_order l ds → in_order l' ds.
Proof.
  revert l l'. induction ds as [|[[c i] m] ds IH]; intros l l' Hw; [done|]. cbn [in_order].
  intros [Hlt Hord]. split; [eauto|]. eapply IH; [|exact Hord].
  intros c' j. unfold put. destruct c, c'; cbn; try done; [apply (Hw false)|apply (Hw true)].
Qed.
End sessions.

(** (C4) Sessions and reboot detection from end to end.  A node stamps the
    messages to a destination with consecutive sessions, the flag set until the
    first overflow.  A peer that receives any of these datagrams, in order on
    each of the two channels but with losses, never reports a reboot; when the
    sender restarts, the peer reports it with the first new message on a channel
    on which it had heard the sender before, and exactly once. *)
Theorem sd_reboot_detection {addr : Type} `{Countable addr} (heap : Z → option_impl.t)
    (h1 h2 : endianess_e) (alloc : nat → bool) (Halloc : ∀ n, alloc n = true)
    (reserve : nat → nat) (th : Z) (sender : addr) (nd : @sd_node.node_t addr _ _)
    (Hnd : listening sender nd) (Hnew : sd_node.sessions_received_ nd !! sender = None)
    (life1 life2 : list delivery) (c : bool) (m : message_sd.t)
    (Hbuilt : Forall (λ d, built heap d.2) (life1 ++ (c, 0%nat, m) :: life2))
    (Horder1 : in_order (None, None) life1) (Horder2 : in_order (put c 0 (None, None)) life2) :
  (∀ (a : addr) ms, Forall (λ m, message_sd.has_entry m = true) ms →
     ∃ s', sd_node.send_all h1 alloc (λ _, true) th ms a ∅ = Ok (true, imap datagram ms, s'))
  ∧ ((∃ i m', (c, i, m') ∈ life1) →
     ∃ vs1 v vs2 nd', receive h2 reserve th sender (life1 ++ (c, 0%nat, m) :: life2) nd
                      = Ok (vs1 ++ v :: vs2, nd')
       ∧ length vs1 = length life1 ∧ Forall (reports false) vs1
       ∧ reports true v
       ∧ length vs2 = length life2 ∧ Forall (reports false) vs2).
Proof.
  split.
  { intros a ms Hms. destruct (send_all_ok h1 alloc Halloc th ms a 0 ∅ Hms) as (s' & -> & _);
      [|by eexists]. unfold sent_to. by rewrite lookup_empty. }
  intros (i & m' & Hin). apply Forall_app in Hbuilt as [Hb1 Hb2].
  apply Forall_cons in Hb2 as [Hbm Hb2].
  destruct (receive_in_order heap h2 reserve th sender life1 None None nd Hb1 Horder1 Hnd)
    as (vs1 & nd1 & lm & lu & E1 & Hl1 & Hv1 & Hn1 & Hr1 & Hk & _);
    [unfold recorded; by rewrite Hnew|].
  rewrite (receive_app _ _ _ _ _ _ _ _ _ E1). cbn [receive].
  destruct (checks_ok heap h2 reserve th sender nd1 c 0 m Hbm Hn1) as (v & nd2 & -> & Hv & Hn2 & Hs2).
  rewrite bind_Ok.
  destruct (is_reboot_outcome sender lm lu _ c 0 Hr1) as (Hres & _ & Herase).
  destruct (Hk c i m' Hin) as [j Hj]. rewrite Hj in Hres. cbn [last_stamp] in Hres.
  assert ((sd_node.is_reboot sender c (stamp 0).2 (stamp 0).1 (sd_node.sessions_received_ nd1)).1
    = true) as Htrue.
  { rewrite Hres, !stamp_flag. destruct (Z.ltb_spec (Z.of_nat j) 65535); [|done].
    pose proof (stamp_range j). change (Z.of_nat 0 <? 65535) with true. cbn [andb negb orb].
    apply Z.leb_le. change (stamp 0).1 with 1. lia. }
  rewrite Htrue in Hv. specialize (Herase Htrue).
  destruct (receive_in_order heap h2 reserve th sender life2 None None nd2 Hb2)
    as (vs2 & nd3 & ? & ? & -> & Hl2 & Hv2 & _);
    [eapply in_order_weaken; [|exact Horder2]; by intros [] ? [=]|done|unfold recorded; by rewrite Hs2, Herase|].
  exists vs1, v, vs2, nd3. done.
Qed.

Lemma sd_reboot_detection_witness :
  ∃ vs1 v vs2 nd', receive le id 0 7
      ([(false, 0%nat, message_sd.create); (true, 3%nat, message_sd.create);
        (false, 5%nat, message_sd.create)]
       ++ (false, 0%nat, message_sd.create) :: [(true, 0%nat, message_sd.create)])
      (sd_node.mk_node false 1 ∅ ∅) = Ok (vs1 ++ v :: vs2, nd')
    ∧ length vs1 = 3%nat ∧ Forall (reports false) vs1 ∧ reports true v
    ∧ length vs2 = 1%nat ∧ Forall (reports false) vs2.
Proof.
  apply (sd_reboot_detection example_heap be le (λ _, true) (λ _, eq_refl) id 0 7
    (sd_node.mk_node false 1 ∅ ∅)).
  - split; [reflexivity|discriminate].
  - reflexivity.
  - cbn [app]. repeat (apply Forall_cons; split; [apply built_create|]). apply Forall_nil. exact I.
  - cbn. split_and!; try done. intros j [= <-]. lia.
  - cbn. split_and!; done.
  - exists 0%nat, message_sd.create. by left.
Defined.

(** The message that reveals a reboot is not recorded: when the sender restarts
    again before its next message, the second reboot is not reported. *)
Example sd_second_reboot_missed :
  let '(r1, s) := sd_node.is_reboot 7 false true 1 (∅ : gmap Z sd_node.received_t) in
  let '(r2, s) := sd_node.is_reboot 7 false true 1 s in
  let '(r3, s) := sd_node.is_reboot 7 false true 1 s in
  (r1, r2, r3) = (false, true, false).
Proof. vm_compute. reflexivity. Qed.

(** ** The classes of received objects *)

(** The type of an option names its class. *)
Definition class_ok (o : option_impl.t) : Prop :=
  let ty := option_impl.type_ o in
  match option_impl.body_ o with
  | option_impl.configuration_option_impl _ => ty = option_type_e.CONFIGURATION
  | option_impl.load_balancing_option_impl _ _ => ty = option_type_e.LOAD_BALANCING
  | option_impl.protection_option_impl _ _ => ty = option_type_e.PROTECTION
  | option_impl.ipv4_option_impl _ _ _ =>
      ty = option_type_e.IP4_ENDPOINT ∨ ty = option_type_e.IP4_MULTICAST
  | option_impl.ipv6_option_impl _ _ _ =>
      ty = option_type_e.IP6_ENDPOINT ∨ ty = option_type_e.IP6_MULTICAST
  | option_impl.selective_option_impl _ => ty = option_type_e.SELECTIVE
  | option_impl.unknown_option_impl _ => ty = option_type_e.UNKNOWN
  end.

Definition entry_class_ok (e : entry_impl.t) : Prop :=
  match entry_impl.body_ e with
  | entry_impl.serviceentry_impl _ => entry_impl.type_ e ∈ [0; 1; 2]
  | entry_impl.eventgroupentry_impl _ _ _ => entry_impl.type_ e ∈ [4; 5; 6; 7]
  end.

(** Options of the same type have the same class, so no cast of [equals] fails. *)
Lemma equals_typed o o' : class_ok o → class_ok o' → ∃ b, option_impl.equals o o' = Ok b.
Proof.
  destruct o as [l ty b], o' as [l' ty' b']. unfold class_ok. cbn. intros Hb Hb'.
  unfold option_impl.equals, option_impl.configuration_equals, option_impl.load_balancing_equals,
    option_impl.protection_equals, option_impl.ipv4_equals, option_impl.ipv6_equals,
    option_impl.selective_equals, option_impl.ip_equals, option_impl.base_equals. cbn.
  destruct (Z.eqb_spec ty ty') as [<-|]; cbn; [|destruct b; cbn; eauto].
  destruct (l =? l'); cbn; [|destruct b; cbn; eauto].
  destruct b, b'; cbn; eauto; try (by destruct_or?; subst);
    repeat (case_match; cbn); eauto.
Qed.

Ltac class_lia :=
  unfold option_type_e.CONFIGURATION, option_type_e.LOAD_BALANCING, option_type_e.PROTECTION,
    option_type_e.IP4_ENDPOINT, option_type_e.IP6_ENDPOINT, option_type_e.IP4_MULTICAST,
    option_type_e.IP6_MULTICAST, option_type_e.SELECTIVE, option_type_e.UNKNOWN in *; lia.

Section matching.
Context (options : list option_impl.t) (Hopt : Forall class_ok options).

Definition endpoint (o : option_impl.t) : Prop :=
  class_ok o ∧ (option_impl.type_ o = option_type_e.IP4_ENDPOINT
                ∨ option_impl.type_ o = option_type_e.IP6_ENDPOINT).

Lemma endpoint_at_ok i :
  ∃ os, entry_impl.endpoint_at options i = Ok os ∧ Forall endpoint os.
Proof using Hopt.
  unfold entry_impl.endpoint_at. destruct (options !! Z.to_nat i) as [o|] eqn:E; [|by eauto].
  apply (Forall_lookup_1 _ _ _ _ Hopt) in E. pose proof E as Hc. unfold class_ok in E.
  destruct (Z.eqb_spec (option_impl.type_ o) option_type_e.IP4_ENDPOINT) as [Ht|].
  { rewrite Ht in E. destruct (option_impl.body_ o); try (by destruct_or?).
    eexists; split; [done|]. apply Forall_singleton. split; [done|by left]. }
  destruct (Z.eqb_spec (option_impl.type_ o) option_type_e.IP6_ENDPOINT) as [Ht|]; [|by eauto].
  rewrite Ht in E. destruct (option_impl.body_ o); try (by destruct_or?).
  eexists; split; [done|]. apply Forall_singleton. split; [done|by right].
Qed.

Lemma endpoints_of_ok ixs : ∃ os, entry_impl.endpoints_of options ixs = Ok os ∧ Forall endpoint os.
Proof using Hopt.
  induction ixs as [|i ixs (os & IH & Hos)]; cbn; [by eauto|].
  destruct (endpoint_at_ok i) as (os1 & -> & H1). rewrite bind_Ok, IH, bind_Ok.
  eexists; split; [done|]. by apply Forall_app.
Qed.

Lemma found_in_ok c os : endpoint c → Forall endpoint os → ∃ b, entry_impl.found_in c os = Ok b.
Proof.
  intros Hc. induction 1 as [|o os Ho _ IH]; cbn; [by eauto|].
  destruct (equals_typed c o) as [b E]; [apply Hc|apply Ho|]. rewrite E, bind_Ok.
  assert (∃ f, (if b then entry_impl.same_address c o else Ok false) = Ok f) as [f ->].
  { destruct b; [|by eauto]. unfold entry_impl.same_address.
    assert (option_impl.type_ c = option_impl.type_ o) as Ht.
    { revert E. unfold option_impl.equals, option_impl.configuration_equals, option_impl.load_balancing_equals,
    option_impl.protection_equals, option_impl.ipv4_equals, option_impl.ipv6_equals,
    option_impl.selective_equals, option_impl.ip_equals, option_impl.base_equals.
      destruct (Z.eqb_spec (option_impl.type_ c) (option_impl.type_ o)); [done|].
      by destruct (option_impl.body_ c). }
    destruct Hc as [Hc Hct], Ho as [Ho _]. unfold class_ok in Hc, Ho. rewrite <- Ht in Ho.
    destruct (option_impl.body_ c), (option_impl.body_ o); try (by eauto); class_lia. }
  rewrite bind_Ok. destruct f; [by eauto|done].
Qed.

Lemma all_found_ok cs os :
  Forall endpoint cs → Forall endpoint os → ∃ b, entry_impl.all_found cs os = Ok b.
Proof.
  intros Hcs Hos. induction Hcs as [|c cs Hc _ IH]; cbn; [by eauto|].
  destruct (found_in_ok c os Hc Hos) as [b ->]. rewrite bind_Ok. destruct b; [done|by eauto].
Qed.

Lemma matches_ok e e' : ∃ b, entry_impl.matches options e e' = Ok b.
Proof using Hopt.
  unfold entry_impl.matches.
  destruct (entry_impl.body_ e), (entry_impl.body_ e'); try by eauto.
  destruct (_ && _); [|by eauto]. destruct (_ && _); [by eauto|]. destruct (_ || _); [by eauto|].
  destruct (endpoints_of_ok (entry_impl.run1_ e ++ entry_impl.run2_ e)) as (os & -> & Hos).
  destruct (endpoints_of_ok (entry_impl.run1_ e' ++ entry_impl.run2_ e')) as (os' & -> & Hos').
  rewrite !bind_Ok. destruct os, os'; try by eauto. by apply all_found_ok.
Qed.

Lemma eventgroup_of_type e :
  entry_class_ok e → entry_impl.is_service_entry e = false → sd_node.is_eventgroup e = true.
Proof.
  unfold entry_class_ok, entry_impl.is_service_entry, sd_node.is_eventgroup.
  destruct (entry_impl.body_ e); [|done]. rewrite !elem_of_cons, elem_of_nil, Z.leb_gt.
  unfold entry_type_e.REQUEST_SERVICE. lia.
Qed.

Lemma has_opposite_ok e rest :
  sd_node.is_eventgroup e = true → Forall entry_class_ok rest →
  ∃ b, sd_node.has_opposite options e rest = Ok b.
Proof using Hopt.
  intros He. induction 1 as [|o rest Ho _ (b & IH)]; cbn; [by eauto|].
  destruct (Z.eqb_spec (entry_impl.type_ o) entry_type_e.SUBSCRIBE_EVENTGROUP) as [Ht|]; [|by eauto].
  rewrite He, eventgroup_of_type by (done || unfold entry_impl.is_service_entry; by rewrite Ht).
  cbn. destruct (_ || _); [|by eauto]. destruct (matches_ok e o) as [[] ->]; cbn; eauto.
Qed.

Lemma has_same_ok e rest :
  sd_node.is_eventgroup e = true → entry_impl.is_service_entry e = false →
  Forall entry_class_ok rest → ∃ b, sd_node.has_same options e rest = Ok b.
Proof using Hopt.
  intros He Hs. induction 1 as [|o rest Ho _ (b & IH)]; cbn; [by eauto|].
  rewrite He. cbn.
  destruct (Z.eqb_spec (entry_impl.type_ e) (entry_impl.type_ o)) as [Ht|]; [|by eauto].
  rewrite eventgroup_of_type.
  2:{ done. } 2:{ unfold entry_impl.is_service_entry in *. by rewrite <- Ht. }
  cbn. destruct (_ =? _); [|by eauto]. destruct (matches_ok e o) as [[] ->]; cbn; eauto.
Qed.
End matching.

Section received_classes.
Import deserializer.
Context (host : endianess_e) (reserve : nat → nat).

Lemma header_type d ty h d' :
  look_ahead_u8 2 d = Ok (Some ty) →
  option_impl.deserialize_header host d = Ok (Some h, d') →
  h.2 = if option_impl.known_type ty then ty else option_type_e.UNKNOWN.
Proof.
  intros Hla E. unfold option_impl.deserialize_header in E.
  apply rbind_inv in E as (len & d1 & E1 & E). apply rbind_inv in E as (t & d2 & E2 & E).
  apply rbind_inv in E as (r & d3 & E3 & E). injection E as <- <-. cbn.
  assert (d1 = advance 2 d) as ->.
  { revert E1. unfold deserialize_u16. case_decide; [done|]. intros E1.
    apply bind_Ok_inv in E1 as (b0 & _ & E1). apply bind_Ok_inv in E1 as (b1 & _ & E1).
    by injection E1. }
  revert Hla E2. unfold look_ahead_u8, deserialize_u8. case_decide; [done|].
  intros Hla. apply bind_Ok_inv in Hla as (b & Hb & [= ->]). case_decide; [done|]. cbn.
  rewrite Hb. by intros [= <- <-].
Qed.

(** A reader of an option that keeps the type of the header and makes one class. *)
Lemma class_reader (m : option_impl.t → Prop) (k : Z * Z → rdr option_impl.t) d ty o d' :
  look_ahead_u8 2 d = Ok (Some ty) →
  (∀ h d o d', k h d = Ok (Some o, d') → option_impl.type_ o = h.2 ∧ m o) →
  rbind (option_impl.deserialize_header host) k d = Ok (Some o, d') →
  option_impl.type_ o = (if option_impl.known_type ty then ty else option_type_e.UNKNOWN) ∧ m o.
Proof.
  intros Hla Hk E. apply rbind_inv in E as (h & d1 & E1 & E). apply Hk in E as [Ht Hm].
  split; [|done]. rewrite Ht. by eapply header_type.
Qed.

Lemma ip_type size expected make d ty o d' :
  look_ahead_u8 2 d = Ok (Some ty) →
  option_impl.deserialize_ip host size expected make d = Ok (Some o, d') →
  option_impl.type_ o = (if option_impl.known_type ty then ty else option_type_e.UNKNOWN)
  ∧ ∃ a p q, option_impl.body_ o = make a p q.
Proof.
  intros Hla E. unfold option_impl.deserialize_ip in E.
  apply bind_Ok_inv in E as ([h d1] & Eh & E).
  apply bind_Ok_inv in E as ([a d2] & _ & E). apply bind_Ok_inv in E as ([r1 d3] & _ & E).
  apply bind_Ok_inv in E as ([r2 d4] & _ & E). apply bind_Ok_inv in E as ([p d5] & _ & E).
  destruct h as [[len t]|]; [|done]. destruct (len =? expected); [|done].
  injection E as <- <-. cbn. split; [|by eauto]. by apply (header_type _ _ _ _ Hla Eh).
Qed.

Lemma deserialize_option_class d o d' :
  option_impl.deserialize_option host reserve d = Ok (Some o, d') → class_ok o.
Proof.
  unfold option_impl.deserialize_option. intros E.
  apply bind_Ok_inv in E as ([ty|] & Hla & E); [|done].
  assert (∀ (m : option_impl.t → Prop) (k : Z * Z → rdr option_impl.t),
    (∀ h d o d', k h d = Ok (Some o, d') → option_impl.type_ o = h.2 ∧ m o) →
    rbind (option_impl.deserialize_header host) k d = Ok (Some o, d') →
    option_impl.type_ o = (if option_impl.known_type ty then ty else option_type_e.UNKNOWN) ∧ m o)
    as Hrd by (intros; eapply class_reader; eauto).
  assert (∀ c, (ty =? c) = true → ty = c) as Heq by (intros; by apply Z.eqb_eq).
  repeat match type of E with (if ?c then _ else _) = _ => destruct c eqn:? end.
  - apply (Hrd (λ o, ∃ c, option_impl.body_ o = option_impl.configuration_option_impl c)) in E
      as [Ht [c Hc]].
    + unfold class_ok. rewrite Hc, Ht. by rewrite (Heq option_type_e.CONFIGURATION) by done.
    + intros h d0 o0 d0' Ek. apply rbind_inv in Ek as (c & d1 & _ & [= <- <-]). eauto.
  - apply (Hrd (λ o, ∃ p w, option_impl.body_ o = option_impl.load_balancing_option_impl p w)) in E
      as (Ht & p & w & Hc).
    + unfold class_ok. rewrite Hc, Ht. by rewrite (Heq option_type_e.LOAD_BALANCING) by done.
    + intros h d0 o0 d0' Ek. apply rbind_inv in Ek as (p & d1 & _ & Ek).
      apply rbind_inv in Ek as (w & d2 & _ & [= <- <-]). eauto.
  - apply (Hrd (λ o, ∃ c r, option_impl.body_ o = option_impl.protection_option_impl c r)) in E
      as (Ht & c & r & Hc).
    + unfold class_ok. rewrite Hc, Ht. by rewrite (Heq option_type_e.PROTECTION) by done.
    + intros h d0 o0 d0' Ek. apply rbind_inv in Ek as (c & d1 & _ & Ek).
      apply rbind_inv in Ek as (r & d2 & _ & [= <- <-]). eauto.
  - apply (ip_type _ _ _ _ ty) in E as (Ht & a & p & q & Hc); [|done].
    unfold class_ok. rewrite Hc, Ht. apply orb_true_iff in Heqb2 as [H| H];
      rewrite (Heq _ H); [by left|by right].
  - apply (ip_type _ _ _ _ ty) in E as (Ht & a & p & q & Hc); [|done].
    unfold class_ok. rewrite Hc, Ht. apply orb_true_iff in Heqb3 as [H| H];
      rewrite (Heq _ H); [by left|by right].
  - apply (Hrd (λ o, ∃ cs, option_impl.body_ o = option_impl.selective_option_impl cs)) in E
      as (Ht & cs & Hc).
    + unfold class_ok. rewrite Hc, Ht. by rewrite (Heq option_type_e.SELECTIVE) by done.
    + intros h d0 o0 d0' Ek. apply rbind_inv in Ek as (c & d1 & _ & [= <- <-]). eauto.
  - apply (Hrd (λ o, ∃ p, option_impl.body_ o = option_impl.unknown_option_impl p)) in E
      as (Ht & p & Hc).
    + unfold class_ok. rewrite Hc, Ht. unfold option_impl.known_type.
      rewrite bool_decide_false; [done|]. clear Hrd Heq Ht Hc Hla.
      rewrite !orb_false_iff, !Z.eqb_neq in *. rewrite !elem_of_cons, elem_of_nil. class_lia.
    + intros h d0 o0 d0' Ek. destruct ((h.1 =? 0) || _); [done|].
      apply rbind_inv in Ek as (c & d1 & _ & [= <- <-]). eauto.
Qed.

Lemma base_type d b e d' ty :
  look_ahead_u8 0 d = Ok (Some ty) →
  entry_impl.deserialize_base host b d = Ok (Some e, d') → entry_impl.type_ e = ty.
Proof.
  intros Hla E. unfold entry_impl.deserialize_base in E.
  apply rbind_inv in E as (t & d1 & E1 & E).
  do 5 apply rbind_inv in E as (? & ? & _ & E). injection E as <- <-. cbn.
  revert Hla E1. unfold look_ahead_u8, deserialize_u8. rewrite decide_False by lia.
  rewrite Nat.add_0_r. case_decide; [done|]. intros Hla.
  apply bind_Ok_inv in Hla as (v & -> & [= ->]). cbn. by intros [= <- _].
Qed.

Lemma deserialize_entry_class d e d' :
  entry_impl.deserialize_entry host d = Ok (Some e, d') → entry_class_ok e.
Proof.
  unfold entry_impl.deserialize_entry. intros E.
  apply bind_Ok_inv in E as ([ty|] & Hla & E); [|done].
  case_bool_decide as H1; [|case_bool_decide as H2; [|done]].
  - unfold entry_impl.deserialize_serviceentry in E.
    apply rbind_inv in E as (e0 & d0 & E0 & E). apply (base_type _ _ _ _ ty) in E0; [|done].
    do 3 apply rbind_inv in E as (? & ? & _ & E). injection E as <- <-.
    unfold entry_class_ok. cbn. by rewrite E0.
  - unfold entry_impl.deserialize_eventgroupentry in E.
    apply rbind_inv in E as (e0 & d0 & E0 & E). apply (base_type _ _ _ _ ty) in E0; [|done].
    do 4 apply rbind_inv in E as (? & ? & _ & E). injection E as <- <-.
    unfold entry_class_ok. cbn. by rewrite E0.
Qed.

Lemma read_entries_class fuel es d b es' d' :
  message_sd.read_entries host fuel es d = Ok ((b, es'), d') →
  Forall entry_class_ok es → Forall entry_class_ok es'.
Proof.
  revert es d. induction fuel as [|fuel IH]; intros es d; cbn [message_sd.read_entries];
    (case_decide; [by intros [= <- <- <-]|]); [done|]. intros E Hes.
  apply bind_Ok_inv in E as ([[e|] d1] & E1 & E); [|by injection E as <- <- <-].
  apply (IH _ _ E). apply Forall_app. split; [done|].
  apply Forall_singleton. by eapply deserialize_entry_class.
Qed.

Lemma read_options_class fuel (os : list message_sd.ptr) d os' d' :
  message_sd.read_options host reserve fuel os d = Ok (os', d') →
  Forall (λ p, class_ok p.2) os → Forall (λ p, class_ok p.2) os'.
Proof.
  revert os d. induction fuel as [|fuel IH]; intros os d; cbn [message_sd.read_options];
    (case_decide; [by intros [= <- <-]|]); [done|]. intros E Hos.
  apply bind_Ok_inv in E as ([[o|] d1] & E1 & E); [|by injection E as <- <-].
  apply (IH _ _ E). apply Forall_app. split; [done|].
  apply Forall_singleton. by eapply deserialize_option_class.
Qed.

Lemma deserialize_class d m :
  message_sd.deserialize_sd_message host reserve d = Ok (Some m) →
  Forall entry_class_ok (message_sd.entries_ m)
  ∧ Forall (λ p, class_ok p.2) (message_sd.options_ m).
Proof.
  unfold message_sd.deserialize_sd_message, message_sd.deserialize. intros E.
  apply bind_Ok_inv in E as ([[b m1] d1] & E & Hm). destruct b; [|done]. injection Hm as ->.
  apply bind_Ok_inv in E as ([[[[h f] len]|] d2] & _ & E); [|done]. cbn zeta in E.
  case_match; [done|]. apply bind_Ok_inv in E as ([[b es] d3] & Ees & E).
  apply read_entries_class in Ees; [|by constructor].
  unfold message_sd.read_option_array in E.
  case_decide; [injection E as _ <- _; cbn; split; [done|constructor]|].
  apply bind_Ok_inv in E as ([l d4] & _ & E). cbn zeta in E.
  apply bind_Ok_inv in E as ([os d5] & Eos & E). apply read_options_class in Eos; [|by constructor].
  injection E as _ <- _. done.
Qed.
End received_classes.

(** (C35) Received messages are well typed: in every message that was accepted
    the type of an entry and of an option names the class of the object, so that
    the comparisons of subscriptions that [on_message] makes ([has_same],
    [check_stop_subscribe_subscribe] with [matches] and [equals]) neither throw
    nor use an object as one of another class. *)
Theorem sd_received_typed (host : endianess_e) (reserve : nat → nat) (bs : bytes) (th : Z)
    (m : message_sd.t)
    (Hm : message_sd.deserialize_sd_message host reserve (deserializer.of_data bs th) = Ok (Some m)) :
  let options := (message_sd.options_ m).*2 in
  Forall entry_class_ok (message_sd.entries_ m) ∧ Forall class_ok options
  ∧ ∀ before e rest, message_sd.entries_ m = before ++ e :: rest →
      entry_impl.is_service_entry e = false →
      ∃ b1 b2, sd_node.has_same options e rest = Ok b1
        ∧ sd_node.check_stop_subscribe_subscribe options e rest = Ok b2.
Proof.
  apply deserialize_class in Hm as [Hes Hos]. cbn zeta.
  assert (Forall class_ok (message_sd.options_ m).*2) as Hcl by by apply Forall_fmap.
  split_and!; [done|done|]. intros before e rest Heq Hse. rewrite Heq in Hes.
  apply Forall_app in Hes as [_ Hes]. apply Forall_cons in Hes as [He Hrest].
  pose proof (eventgroup_of_type e He Hse) as Hev.
  destruct (has_same_ok _ Hcl e rest Hev Hse Hrest) as [b1 ->].
  unfold sd_node.check_stop_subscribe_subscribe.
  destruct (_ && _); [destruct (has_opposite_ok _ Hcl e rest Hev Hrest) as [b2 ->]|]; eauto.
Qed.

(** A stop subscribe and a subscribe of the same eventgroup in one message. *)
Definition stop_subscribe_subscribe : message_sd.t :=
  let e ttl := entry_impl.set_ttl ttl (entry_impl.set_eventgroup 5
    (entry_impl.set_type entry_type_e.SUBSCRIBE_EVENTGROUP entry_impl.new_eventgroupentry)) in
  message_sd.mk (message_sd.header_ message_sd.create) 0x40 0 [e 0; e 3] [] 60.

Lemma sd_received_typed_witness :
  ∃ b1 b2, sd_node.has_same [] (received_entry (entry_impl.set_ttl 0 (entry_impl.set_eventgroup 5
      (entry_impl.set_type entry_type_e.SUBSCRIBE_EVENTGROUP entry_impl.new_eventgroupentry))))
      (drop 1 (message_sd.entries_ (received_sd stop_subscribe_subscribe))) = Ok b1
    ∧ sd_node.check_stop_subscribe_subscribe [] (received_entry (entry_impl.set_ttl 0
        (entry_impl.set_eventgroup 5 (entry_impl.set_type entry_type_e.SUBSCRIBE_EVENTGROUP
           entry_impl.new_eventgroupentry))))
        (drop 1 (message_sd.entries_ (received_sd stop_subscribe_subscribe))) = Ok b2.
Proof.
  destruct (sd_received_typed le id (sd_bytes stop_subscribe_subscribe) 0
    (received_sd stop_subscribe_subscribe)) as (_ & _ & H).
  - vm_compute. reflexivity.
  - apply (H []); reflexivity.
Defined.
