(* ===== verification/Event.v ===== *)
(** * Events and fields ([routing/src/event.cpp])

    An event keeps two notifications: [current_] holds the value that was
    distributed last, [update_] the value that is about to be.  The payloads an
    event receives are fresh copies ([application_impl::notify] and the
    deserializer create them), so a payload is modelled by its value and a null
    pointer by [None].

    What an event does to its surroundings goes through [routing_]: the calls are
    recorded in order in a [router] together with the session counter of
    [application_impl::get_session].  [send] and [send_to] serialize the message
    before they return; the record holds the message at the time of the call.

    The cycle timer is [Some ms] while a wait is pending.  A second
    [expires_after] cancels the pending wait, whose handler then does nothing.

    Filters are shared objects: [routing_manager_base::insert_subscription] hands
    the same [debounce_filter_impl_t] to every event of an eventgroup, and the
    stored function updates [last_forwarded_] through the pointer.  They live in
    a store of their own. *)

From stdpp Require Import base list gmap sorting.
From Stdlib Require Import ZArith Lia.
From S2P Require Import Prelude Message Protocol.

Definition VSOMEIP_ROUTING_CLIENT : Z := 0.
Definition ANY_CLIENT : Z := 0xFFFF.

Inductive event_type : Set := ET_EVENT | ET_SELECTIVE_EVENT | ET_FIELD | ET_UNKNOWN.
Inductive reliability_type_e : Set := RT_RELIABLE | RT_UNRELIABLE | RT_BOTH | RT_UNKNOWN.

#[export] Instance event_type_eq_dec : EqDecision event_type.
Proof. solve_decision. Defined.
#[export] Instance reliability_type_eq_dec : EqDecision reliability_type_e.
Proof. solve_decision. Defined.

(** Iteration over a [std::set] of numbers. *)
Definition in_order (X : gset Z) : list Z := merge_sort Z.le (elements X).

Lemma elem_of_in_order X x : x ∈ in_order X ↔ x ∈ X.
Proof. unfold in_order. by rewrite merge_sort_Permutation, elem_of_elements. Qed.

Lemma in_order_NoDup X : NoDup (in_order X).
Proof. unfold in_order. rewrite merge_sort_Permutation. apply NoDup_elements. Qed.

(** ** The debounce filter *)

Module debounce_filter_impl.
(** [debounce_filter_impl_t]: the fields that are sent, and the time of the last
    notification that was forwarded (nanoseconds of the steady clock). *)
Record t : Type := mk { base : debounce_filter_impl_t; last_forwarded_ : Z }.

Definition time_max : Z := 2 ^ 63 - 1.
Definition create (f : debounce_filter_impl_t) : t := mk f time_max.

(** [ignore_.find(i)] *)
Fixpoint find (i : nat) (l : list (Z * Z)) : option Z :=
  match l with
  | [] => None
  | (k, m) :: l => if k =? Z.of_nat i then Some m else find i l
  end.

(** An additional byte counts as a change unless it is excluded in all its bits. *)
Definition extra_changed (f : debounce_filter_impl_t) (i : nat) : bool :=
  match find i (ignore_ f) with None => true | Some m => negb (m =? 0xFF) end.

(** A byte that both payloads have. *)
Definition byte_changed (f : debounce_filter_impl_t) (its_old its_new : bytes) (i : nat) : result bool :=
  match find i (ignore_ f) with
  | None => o ← rd1 its_old i; n ← rd1 its_new i; Ok (negb (o =? n))
  | Some m =>
      if m =? 0xFF then Ok false
      else
        o ← rd1 its_old i; n ← rd1 its_new i;
        Ok (negb (Z.land o (Z.lnot m) =? Z.land n (Z.lnot m)))
  end.

(** The two loops of the function, each from [i] for [n] rounds. *)
Fixpoint any_extra (f : debounce_filter_impl_t) (i n : nat) : bool :=
  match n with
  | O => false
  | S n => if extra_changed f i then true else any_extra f (S i) n
  end.

Fixpoint any_byte (f : debounce_filter_impl_t) (its_old its_new : bytes) (i n : nat) : result bool :=
  match n with
  | O => Ok false
  | S n =>
      b ← byte_changed f its_old its_new i;
      if (b : bool) then Ok true else any_byte f its_old its_new (S i) n
  end.

Definition is_changed (f : debounce_filter_impl_t) (old new : payload_impl.t) : result bool :=
  if on_change_ f then
    let lo := Z.to_nat (payload_impl.get_length old) in
    let ln := Z.to_nat (payload_impl.get_length new) in
    let '(its_min_length, its_max_length) := if decide (lo < ln)%nat then (lo, ln) else (ln, lo) in
    if any_extra f its_min_length (its_max_length - its_min_length) then Ok true
    else any_byte f (payload_impl.data_ old) (payload_impl.data_ new) 0 its_min_length
  else Ok false.

(** [duration_cast<milliseconds>] *)
Definition milliseconds (ns : Z) : Z := ns ÷ 1000000.

(** The stored function; both payloads are dereferenced when the filter looks at
    changes. *)
Definition forward (old new : option payload_impl.t) (now : Z) (f : t) : result (bool * t) :=
  changed ←
    (if on_change_ (base f) then
       match old, new with
       | Some old, Some new => is_changed (base f) old new
       | _, _ => Ub null_deref
       end
     else Ok false);
  if -1 <? interval_ (base f) then
    let elapsed := milliseconds (now - last_forwarded_ f) in
    let is_elapsed := (last_forwarded_ f =? time_max) || (interval_ (base f) <=? elapsed) in
    let f' := if is_elapsed || (changed && on_change_resets_interval_ (base f))
              then mk (base f) now else f in
    Ok (changed || is_elapsed, f')
  else Ok (changed, f).
End debounce_filter_impl.

(** ** What an event asks of the routing manager *)

Definition loc : Set := nat.

Inductive call : Type :=
| send (client : Z) (m : message_impl.t) (force : bool)
| send_to (client : Z) (target : loc) (m : message_impl.t)
| register_debounce (filter : loc) (client : Z) (event : Z)
| remove_debounce (client : Z) (event : Z)
| update_debounce_clients (clients : gset Z) (event : Z).

Record router : Type := mk_router {
  has_session_handling_ : bool;
  session_ : Z;
  calls : list call
}.

Definition emit (c : call) (r : router) : router :=
  mk_router (has_session_handling_ r) (session_ r) (calls r ++ [c]).

(** [application_impl::get_session] *)
Definition get_session (is_request : bool) (r : router) : Z * router :=
  if negb (has_session_handling_ r) && negb is_request then (0, r)
  else
    let s := u16 (session_ r + 1) in
    let s := if s =? 0 then 1 else s in
    (s, mk_router (has_session_handling_ r) s (calls r)).

(** ** The event *)

Module event.

Abbreviation payload := (option payload_impl.t).

Definition epsilon_change_func_t : Type := payload → payload → bool.

Record t : Type := mk {
  current_ : message_impl.t;
  update_ : message_impl.t;
  type_ : event_type;
  cycle_timer_ : option Z;
  cycle_ : Z;
  change_resets_cycle_ : bool;
  is_updating_on_change_ : bool;
  eventgroups_ : gmap Z (gset Z);
  is_set_ : bool;
  is_provided_ : bool;
  refs_ : gmap Z (gmap bool Z);
  is_shadow_ : bool;
  is_cache_placeholder_ : bool;
  epsilon_change_func_ : epsilon_change_func_t;
  has_default_epsilon_change_func_ : bool;
  reliability_ : reliability_type_e;
  pending_ : gset loc;
  filters_ : gmap Z loc
}.

(** [has_changed]: a null pointer on one side counts as no change, on both sides
    as a change. *)
Definition has_changed (lhs rhs : payload) : bool :=
  match lhs, rhs with
  | Some l, Some r => negb (payload_impl.eqb l r)
  | Some _, None => false
  | None, Some _ => false
  | None, None => true
  end.

Definition create (is_shadow : bool) : t :=
  mk (runtime_impl.create_notification false) (runtime_impl.create_notification false)
     ET_EVENT None 0 false true ∅ false false ∅ is_shadow false has_changed true RT_UNKNOWN ∅ ∅.

(** *** Assignments to the members *)

Definition with_current m e := mk m (update_ e) (type_ e) (cycle_timer_ e) (cycle_ e)
  (change_resets_cycle_ e) (is_updating_on_change_ e) (eventgroups_ e) (is_set_ e) (is_provided_ e)
  (refs_ e) (is_shadow_ e) (is_cache_placeholder_ e) (epsilon_change_func_ e)
  (has_default_epsilon_change_func_ e) (reliability_ e) (pending_ e) (filters_ e).
Definition with_update m e := mk (current_ e) m (type_ e) (cycle_timer_ e) (cycle_ e)
  (change_resets_cycle_ e) (is_updating_on_change_ e) (eventgroups_ e) (is_set_ e) (is_provided_ e)
  (refs_ e) (is_shadow_ e) (is_cache_placeholder_ e) (epsilon_change_func_ e)
  (has_default_epsilon_change_func_ e) (reliability_ e) (pending_ e) (filters_ e).
Definition set_type ty e := mk (current_ e) (update_ e) ty (cycle_timer_ e) (cycle_ e)
  (change_resets_cycle_ e) (is_updating_on_change_ e) (eventgroups_ e) (is_set_ e) (is_provided_ e)
  (refs_ e) (is_shadow_ e) (is_cache_placeholder_ e) (epsilon_change_func_ e)
  (has_default_epsilon_change_func_ e) (reliability_ e) (pending_ e) (filters_ e).
Definition with_timer tm e := mk (current_ e) (update_ e) (type_ e) tm (cycle_ e)
  (change_resets_cycle_ e) (is_updating_on_change_ e) (eventgroups_ e) (is_set_ e) (is_provided_ e)
  (refs_ e) (is_shadow_ e) (is_cache_placeholder_ e) (epsilon_change_func_ e)
  (has_default_epsilon_change_func_ e) (reliability_ e) (pending_ e) (filters_ e).
Definition with_cycle c e := mk (current_ e) (update_ e) (type_ e) (cycle_timer_ e) c
  (change_resets_cycle_ e) (is_updating_on_change_ e) (eventgroups_ e) (is_set_ e) (is_provided_ e)
  (refs_ e) (is_shadow_ e) (is_cache_placeholder_ e) (epsilon_change_func_ e)
  (has_default_epsilon_change_func_ e) (reliability_ e) (pending_ e) (filters_ e).
Definition set_change_resets_cycle b e := mk (current_ e) (update_ e) (type_ e) (cycle_timer_ e)
  (cycle_ e) b (is_updating_on_change_ e) (eventgroups_ e) (is_set_ e) (is_provided_ e)
  (refs_ e) (is_shadow_ e) (is_cache_placeholder_ e) (epsilon_change_func_ e)
  (has_default_epsilon_change_func_ e) (reliability_ e) (pending_ e) (filters_ e).
Definition with_updating b e := mk (current_ e) (update_ e) (type_ e) (cycle_timer_ e)
  (cycle_ e) (change_resets_cycle_ e) b (eventgroups_ e) (is_set_ e) (is_provided_ e)
  (refs_ e) (is_shadow_ e) (is_cache_placeholder_ e) (epsilon_change_func_ e)
  (has_default_epsilon_change_func_ e) (reliability_ e) (pending_ e) (filters_ e).
Definition with_eventgroups g e := mk (current_ e) (update_ e) (type_ e) (cycle_timer_ e)
  (cycle_ e) (change_resets_cycle_ e) (is_updating_on_change_ e) g (is_set_ e) (is_provided_ e)
  (refs_ e) (is_shadow_ e) (is_cache_placeholder_ e) (epsilon_change_func_ e)
  (has_default_epsilon_change_func_ e) (reliability_ e) (pending_ e) (filters_ e).
Definition with_set b e := mk (current_ e) (update_ e) (type_ e) (cycle_timer_ e)
  (cycle_ e) (change_resets_cycle_ e) (is_updating_on_change_ e) (eventgroups_ e) b (is_provided_ e)
  (refs_ e) (is_shadow_ e) (is_cache_placeholder_ e) (epsilon_change_func_ e)
  (has_default_epsilon_change_func_ e) (reliability_ e) (pending_ e) (filters_ e).
Definition set_provided b e := mk (current_ e) (update_ e) (type_ e) (cycle_timer_ e)
  (cycle_ e) (change_resets_cycle_ e) (is_updating_on_change_ e) (eventgroups_ e) (is_set_ e) b
  (refs_ e) (is_shadow_ e) (is_cache_placeholder_ e) (epsilon_change_func_ e)
  (has_default_epsilon_change_func_ e) (reliability_ e) (pending_ e) (filters_ e).
Definition with_refs r e := mk (current_ e) (update_ e) (type_ e) (cycle_timer_ e)
  (cycle_ e) (change_resets_cycle_ e) (is_updating_on_change_ e) (eventgroups_ e) (is_set_ e)
  (is_provided_ e) r (is_shadow_ e) (is_cache_placeholder_ e) (epsilon_change_func_ e)
  (has_default_epsilon_change_func_ e) (reliability_ e) (pending_ e) (filters_ e).
Definition set_shadow b e := mk (current_ e) (update_ e) (type_ e) (cycle_timer_ e)
  (cycle_ e) (change_resets_cycle_ e) (is_updating_on_change_ e) (eventgroups_ e) (is_set_ e)
  (is_provided_ e) (refs_ e) b (is_cache_placeholder_ e) (epsilon_change_func_ e)
  (has_default_epsilon_change_func_ e) (reliability_ e) (pending_ e) (filters_ e).
Definition set_cache_placeholder b e := mk (current_ e) (update_ e) (type_ e) (cycle_timer_ e)
  (cycle_ e) (change_resets_cycle_ e) (is_updating_on_change_ e) (eventgroups_ e) (is_set_ e)
  (is_provided_ e) (refs_ e) (is_shadow_ e) b (epsilon_change_func_ e)
  (has_default_epsilon_change_func_ e) (reliability_ e) (pending_ e) (filters_ e).
Definition with_epsilon f b e := mk (current_ e) (update_ e) (type_ e) (cycle_timer_ e)
  (cycle_ e) (change_resets_cycle_ e) (is_updating_on_change_ e) (eventgroups_ e) (is_set_ e)
  (is_provided_ e) (refs_ e) (is_shadow_ e) (is_cache_placeholder_ e) f b (reliability_ e)
  (pending_ e) (filters_ e).
Definition set_reliability rl e := mk (current_ e) (update_ e) (type_ e) (cycle_timer_ e)
  (cycle_ e) (change_resets_cycle_ e) (is_updating_on_change_ e) (eventgroups_ e) (is_set_ e)
  (is_provided_ e) (refs_ e) (is_shadow_ e) (is_cache_placeholder_ e) (epsilon_change_func_ e)
  (has_default_epsilon_change_func_ e) rl (pending_ e) (filters_ e).
Definition with_pending p e := mk (current_ e) (update_ e) (type_ e) (cycle_timer_ e)
  (cycle_ e) (change_resets_cycle_ e) (is_updating_on_change_ e) (eventgroups_ e) (is_set_ e)
  (is_provided_ e) (refs_ e) (is_shadow_ e) (is_cache_placeholder_ e) (epsilon_change_func_ e)
  (has_default_epsilon_change_func_ e) (reliability_ e) p (filters_ e).
Definition with_filters f e := mk (current_ e) (update_ e) (type_ e) (cycle_timer_ e)
  (cycle_ e) (change_resets_cycle_ e) (is_updating_on_change_ e) (eventgroups_ e) (is_set_ e)
  (is_provided_ e) (refs_ e) (is_shadow_ e) (is_cache_placeholder_ e) (epsilon_change_func_ e)
  (has_default_epsilon_change_func_ e) (reliability_ e) (pending_ e) f.

(** *** Identification *)

Definition on_messages (f : message_header_impl.t → message_header_impl.t) (e : t) : t :=
  with_update (message_impl.on_header f (update_ e)) (with_current (message_impl.on_header f (current_ e)) e).
Definition set_service (s : Z) : t → t := on_messages (message_header_impl.set_service s).
Definition set_instance (i : Z) : t → t := on_messages (message_header_impl.set_instance i).
Definition set_version (v : Z) : t → t := on_messages (message_header_impl.set_interface_version v).
Definition set_event (m : Z) : t → t := on_messages (message_header_impl.set_method m).
Definition get_event (e : t) : Z := message_header_impl.method_ (message_impl.header_ (current_ e)).
Definition is_field (e : t) : bool := bool_decide (type_ e = ET_FIELD).
Definition get_payload (e : t) : payload := message_impl.payload_ (current_ e).
Definition get_update (e : t) : payload := message_impl.payload_ (update_ e).

(** *** The cycle *)

Definition start_cycle (e : t) : t :=
  if negb (is_shadow_ e) && negb (cycle_ e =? 0) then with_timer (Some (cycle_ e)) e else e.
Definition stop_cycle (e : t) : t :=
  if negb (is_shadow_ e) && negb (cycle_ e =? 0) then with_timer None e else e.

(** *** Notifications *)

Definition set_session (e : t) (r : router) : t * router :=
  let '(s, r) := get_session false r in
  (with_update (message_impl.on_header (message_header_impl.set_session s) (update_ e)) e, r).

Definition notify (force : bool) (e : t) (r : router) : t * router :=
  if is_set_ e then
    let '(e, r) := set_session e r in
    (e, emit (send VSOMEIP_ROUTING_CLIENT (update_ e) force) r)
  else (e, r).

(** [notify_one_unlocked] to an endpoint and to a client; [None] is the null
    pointer. *)
Definition notify_one_target (client : Z) (target : option loc) (e : t) (r : router) : t * router :=
  match target with
  | Some tg =>
      if is_set_ e then
        let '(e, r) := set_session e r in (e, emit (send_to client tg (update_ e)) r)
      else (with_pending (pending_ e ∪ {[tg]}) e, r)
  | None => (e, r)
  end.

Definition notify_one_client (client : Z) (force : bool) (e : t) (r : router) : t * router :=
  if is_set_ e then
    let '(e, r) := set_session e r in (e, emit (send client (update_ e) force) r)
  else (e, r).

Definition remove_pending (target : loc) (e : t) : t := with_pending (pending_ e ∖ {[target]}) e.

(** *** The value *)

Definition update_payload (e : t) : t :=
  with_current (message_impl.set_payload (get_update e) (current_ e)) e.

Definition prepare_update_payload (p : payload) (force : bool) (e : t) : bool * t :=
  if negb force && is_field e && (cycle_ e =? 0) && negb (has_changed (get_payload e) p)
     && negb (is_shadow_ e)
  then (false, e)
  else
    let e := with_update (message_impl.set_payload p (update_ e)) e in
    (true, if is_set_ e then e else with_set true (start_cycle e)).

(** The three [set_payload], to all subscribers, to a client and to an endpoint. *)
Definition set_payload (p : payload) (force : bool) (e : t) (r : router) : t * router :=
  if is_provided_ e then
    let '(b, e) := prepare_update_payload p force e in
    if b && is_updating_on_change_ e then
      let e := if change_resets_cycle_ e then stop_cycle e else e in
      let '(e, r) := notify force e r in
      let e := if change_resets_cycle_ e then start_cycle e else e in
      (update_payload e, r)
    else (e, r)
  else (e, r).

Definition set_payload_client (p : payload) (client : Z) (force : bool) (e : t) (r : router) : t * router :=
  if is_provided_ e then
    let '(b, e) := prepare_update_payload p force e in
    if b && is_updating_on_change_ e then
      let '(e, r) := notify_one_client client force e r in (update_payload e, r)
    else (e, r)
  else (e, r).

Definition set_payload_target (p : payload) (client : Z) (target : option loc) (force : bool)
    (e : t) (r : router) : t * router :=
  if is_provided_ e then
    let '(b, e) := prepare_update_payload p force e in
    if b && is_updating_on_change_ e then
      let '(e, r) := notify_one_target client target e r in (update_payload e, r)
    else (e, r)
  else (e, r).

Definition targets (e : t) : list loc := merge_sort le (elements (pending_ e)).

Definition notify_pending (l : list loc) (e : t) (r : router) : t * router :=
  foldl (λ '(e, r) tg,
    let '(e, r) := set_session e r in
    (e, emit (send_to VSOMEIP_ROUTING_CLIENT tg (update_ e)) r)) (e, r) l.

Definition set_payload_notify_pending (p : payload) (e : t) (r : router) : bool * t * router :=
  if is_provided_ e && negb (is_set_ e) then
    let e := with_set true (with_update (message_impl.set_payload p (update_ e)) e) in
    let '(e, r) := notify_pending (targets e) e r in
    (true, update_payload (with_pending ∅ e), r)
  else (false, e, r).

Definition unset_payload (force : bool) (e : t) : t :=
  if force || is_provided_ e then
    let e := stop_cycle (with_set false e) in
    with_current (message_impl.set_payload (Some payload_impl.create) (current_ e)) e
  else e.

Definition set_update_cycle (cycle : Z) (e : t) : t :=
  if is_provided_ e then start_cycle (with_cycle cycle (stop_cycle e)) else e.

Definition set_update_on_change (active : bool) (e : t) : t :=
  if is_provided_ e then with_updating active e else e.

Definition set_epsilon_change_function (f : option epsilon_change_func_t) (e : t) : t :=
  match f with Some f => with_epsilon f false e | None => e end.

Definition update_cbk (error : bool) (e : t) (r : router) : t * router :=
  if error then (e, r)
  else
    let '(e, r) := notify true e r in
    (with_timer (Some (cycle_ e)) e, r).

(** *** References *)

Definition add_ref (client : Z) (provided : bool) (e : t) : t :=
  match refs_ e !! client with
  | None => with_refs (<[client := {[provided := 1]}]> (refs_ e)) e
  | Some m =>
      match m !! provided with
      | None => with_refs (<[client := <[provided := 1]> m]> (refs_ e)) e
      | Some n => with_refs (<[client := <[provided := u32 (n + 1)]> m]> (refs_ e)) e
      end
  end.

Definition remove_ref (client : Z) (provided : bool) (e : t) : t :=
  match refs_ e !! client with
  | None => e
  | Some m =>
      match m !! provided with
      | None => e
      | Some n =>
          let n := u32 (n - 1) in
          if n =? 0 then
            let m := delete provided m in
            if decide (size m = 0%nat) then with_refs (delete client (refs_ e)) e
            else with_refs (<[client := m]> (refs_ e)) e
          else with_refs (<[client := <[provided := n]> m]> (refs_ e)) e
      end
  end.

Definition has_ref (e : t) : bool := bool_decide (size (refs_ e) ≠ 0%nat).

Definition has_ref_of (client : Z) (provided : bool) (e : t) : bool :=
  match refs_ e !! client ≫= (.!! provided) with Some n => 0 <? n | None => false end.

(** *** Subscribers *)

Definition get_eventgroups (e : t) : gset Z := dom (eventgroups_ e).
Definition get_eventgroups_of (client : Z) (e : t) : gset Z :=
  dom (filter (λ g, client ∈ g.2) (eventgroups_ e)).

Definition add_eventgroup (eventgroup : Z) (e : t) : t :=
  match eventgroups_ e !! eventgroup with
  | None => with_eventgroups (<[eventgroup := ∅]> (eventgroups_ e)) e
  | Some _ => e
  end.

(** Every named eventgroup is assigned an empty set. *)
Definition set_eventgroups (l : list Z) (e : t) : t :=
  with_eventgroups (foldl (λ g x, <[x := ∅]> g) (eventgroups_ e) l) e.

Definition add_subscriber (eventgroup : Z) (filter : option loc) (client : Z) (force : bool)
    (e : t) (r : router) : bool * t * router :=
  if force || is_provided_ e || is_shadow_ e || is_cache_placeholder_ e then
    let '(e, r) :=
      match filter with
      | Some f => (with_filters (<[client := f]> (filters_ e)) e,
                   emit (register_debounce f client (get_event e)) r)
      | None => (with_filters (delete client (filters_ e)) e, r)
      end in
    let its_clients := default ∅ (eventgroups_ e !! eventgroup) in
    (bool_decide (client ∉ its_clients),
     with_eventgroups (<[eventgroup := its_clients ∪ {[client]}]> (eventgroups_ e)) e, r)
  else (false, e, r).

Definition remove_subscriber (eventgroup client : Z) (e : t) (r : router) : t * router :=
  match eventgroups_ e !! eventgroup with
  | Some cs => (with_eventgroups (<[eventgroup := cs ∖ {[client]}]> (eventgroups_ e)) e,
                emit (remove_debounce client (get_event e)) r)
  | None => (e, r)
  end.

Definition has_subscriber (eventgroup client : Z) (e : t) : bool :=
  match eventgroups_ e !! eventgroup with
  | Some cs => if client =? ANY_CLIENT then bool_decide (0 < size cs)%nat
               else bool_decide (client ∈ cs)
  | None => false
  end.

Definition get_subscribers (e : t) : gset Z := map_fold (λ _ cs acc, cs ∪ acc) ∅ (eventgroups_ e).
Definition get_subscribers_of (eventgroup : Z) (e : t) : gset Z :=
  default ∅ (eventgroups_ e !! eventgroup).
Definition is_subscribed (client : Z) (e : t) : bool :=
  existsb (λ g : Z * gset Z, bool_decide (client ∈ g.2)) (map_to_list (eventgroups_ e)).
Definition clear_subscribers (e : t) : t := with_eventgroups ((λ _, ∅) <$> eventgroups_ e) e.

(** *** Filtering *)

Abbreviation filter_store := (gmap loc debounce_filter_impl.t).

(** The decision for subscribers without a filter of their own. *)
Definition default_forward (force : bool) (e : t) : bool :=
  (negb (is_field e) && has_default_epsilon_change_func_ e) || force
  || epsilon_change_func_ e (get_payload e) (get_update e).

(** One round of the loop; [is_allowed] is evaluated at its first use. *)
Definition filter_one (force : bool) (now : Z) (e : t) (s : Z)
    (st : option bool * gset Z * filter_store) : result (option bool * gset Z * filter_store) :=
  let '(is_allowed, acc, fs) := st in
  match filters_ e !! s with
  | Some l =>
      match fs !! l with
      | None => Ub null_deref
      | Some f =>
          '(b, f) ← debounce_filter_impl.forward (get_payload e) (get_update e) now f;
          Ok (is_allowed, if (b : bool) then acc ∪ {[s]} else acc, <[l := f]> fs)
      end
  | None =>
      let a := match is_allowed with Some a => a | None => default_forward force e end in
      Ok (Some a, if a then acc ∪ {[s]} else acc, fs)
  end.

Definition get_filtered_subscribers (force : bool) (now : Z) (e : t) (fs : filter_store)
    : result (gset Z * filter_store) :=
  let its_subscribers := get_subscribers e in
  if decide (filters_ e = ∅) then
    Ok (if default_forward force e then its_subscribers else ∅, fs)
  else
    '(_, acc, fs) ← foldM (filter_one force now e) (in_order its_subscribers) (None, ∅, fs);
    Ok (acc, fs).

Definition get_pending_updates (clients : gset Z) (e : t) (r : router) : router :=
  if has_changed (get_payload e) (get_update e)
  then emit (update_debounce_clients clients (get_event e)) r else r.

Definition update_and_get_filtered_subscribers (p : payload) (is_from_remote : bool) (now : Z)
    (e : t) (r : router) (fs : filter_store) : result (gset Z * t * router * filter_store) :=
  let '(_, e) := prepare_update_payload p true e in
  '(its_subscribers, fs) ← get_filtered_subscribers (negb is_from_remote) now e fs;
  let r := get_pending_updates its_subscribers e r in
  Ok (its_subscribers, if is_from_remote then update_payload e else e, r, fs).
End event.
