(* ===== verification/EventFacts.v ===== *)
(** * Events: what subscribers receive

    Theorems about [Event]: the notifications of a field, initial values,
    references, the debounce filters and the choice of the subscribers. *)

From stdpp Require Import base list gmap sorting.
From Stdlib Require Import ZArith Lia.
From S2P Require Import Prelude Message Protocol Event.

(** ** Sessions *)

(** The session of the next notification. *)
Definition next_session (hs : bool) (s : Z) : Z :=
  if hs then (if u16 (s + 1) =? 0 then 1 else u16 (s + 1)) else 0.

(** The counter after it. *)
Definition counter_after (hs : bool) (s : Z) : Z := if hs then next_session true s else s.

Lemma get_session_spec r :
  get_session false r
  = (next_session (has_session_handling_ r) (session_ r),
     mk_router (has_session_handling_ r) (counter_after (has_session_handling_ r) (session_ r)) (calls r)).
Proof. destruct r as [[] s cs]; reflexivity. Qed.

(** A notification with a session and a value. *)
Definition stamped (m : message_impl.t) (s : Z) (p : event.payload) : message_impl.t :=
  message_impl.on_header (message_header_impl.set_session s) (message_impl.set_payload p m).

(** ** The notifications of a field *)

Definition value := (payload_impl.t * bool)%type.

(** The specification: of the values handed to the field, those that are forced
    or differ from the one before. *)
Fixpoint changes (last : bytes) (vs : list value) : list value :=
  match vs with
  | [] => []
  | (p, force) :: vs =>
      if force || negb (bool_decide (payload_impl.data_ p = last))
      then (p, force) :: changes (payload_impl.data_ p) vs
      else changes last vs
  end.

Fixpoint broadcasts (m : message_impl.t) (hs : bool) (s : Z) (vs : list value) : list call :=
  match vs with
  | [] => []
  | (p, force) :: vs =>
      send VSOMEIP_ROUTING_CLIENT (stamped m (next_session hs s) (Some p)) force
      :: broadcasts m hs (counter_after hs s) vs
  end.

Definition publish (vs : list value) (e : event.t) (r : router) : event.t * router :=
  foldl (λ '(e, r) '(p, force), event.set_payload (Some p) force e r) (e, r) vs.

(** A provided field that is sent on change, not cyclically, and whose last
    distributed value is [v]. *)
Record plain_field (v : bytes) (e : event.t) : Prop := {
  pf_provided : event.is_provided_ e = true;
  pf_type : event.type_ e = ET_FIELD;
  pf_cycle : event.cycle_ e = 0;
  pf_shadow : event.is_shadow_ e = false;
  pf_updating : event.is_updating_on_change_ e = true;
  pf_value : ∃ p, event.get_payload e = Some p ∧ payload_impl.data_ p = v;
  pf_width : Z.of_nat (length v) < 2 ^ 32
}.

Definition short (p : payload_impl.t) : Prop := Z.of_nat (length (payload_impl.data_ p)) < 2 ^ 32.

Lemma payload_eqb_spec p q : short p → short q →
  payload_impl.eqb p q = bool_decide (payload_impl.data_ p = payload_impl.data_ q).
Proof.
  unfold short, payload_impl.eqb, payload_impl.get_length. intros Hp Hq.
  rewrite !wrap_small by (unfold in_width; lia).
  destruct (Z.eqb_spec (Z.of_nat (length (payload_impl.data_ p))) (Z.of_nat (length (payload_impl.data_ q)))) as [H|H].
  - rewrite Nat2Z.id. apply Nat2Z.inj in H. rewrite firstn_all, H, firstn_all. reflexivity.
  - symmetry. apply bool_decide_eq_false. intros E. by rewrite E in H.
Qed.

Lemma set_payload_kept v e r p :
  plain_field v e → short p → payload_impl.data_ p = v → event.set_payload (Some p) false e r = (e, r).
Proof.
  intros [] Hs Hv. destruct pf_value0 as (q & Hq & Hd).
  unfold event.set_payload, event.prepare_update_payload, event.is_field, event.has_changed.
  rewrite pf_provided0, pf_type0, pf_cycle0, pf_shadow0, Hq, payload_eqb_spec; [|unfold short; by rewrite Hd|done].
  by rewrite Hd, Hv, !bool_decide_eq_true_2.
Qed.

Lemma set_payload_sent v e r p force :
  plain_field v e → short p → force || negb (bool_decide (payload_impl.data_ p = v)) = true →
  let hs := has_session_handling_ r in
  ∃ e', event.set_payload (Some p) force e r
        = (e', emit (send VSOMEIP_ROUTING_CLIENT (stamped (event.update_ e) (next_session hs (session_ r)) (Some p)) force)
                 (mk_router hs (counter_after hs (session_ r)) (calls r)))
  ∧ plain_field (payload_impl.data_ p) e' ∧ event.is_set_ e' = true
  ∧ event.update_ e' = stamped (event.update_ e) (next_session hs (session_ r)) (Some p).
Proof.
  intros [] Hs Hc. destruct pf_value0 as (q & Hq & Hd). cbv zeta.
  assert (Hch : negb force && negb (event.has_changed (event.get_payload e) (Some p)) = false).
  { unfold event.has_changed. rewrite Hq, payload_eqb_spec; [|unfold short; by rewrite Hd|done].
    rewrite negb_involutive, Hd. destruct force; [done|]. simpl in *.
    apply bool_decide_eq_false. apply negb_true_iff, bool_decide_eq_false in Hc. congruence. }
  destruct e as [cu up ty tm cy rs ud eg st pv rf sh ph ef df rl pd fl]; cbn in *; subst.
  unfold event.set_payload, event.prepare_update_payload, event.notify, event.set_session. cbn [event.is_provided_].
  rewrite get_session_spec.
  assert (Hb : ∀ b, negb force && b && (0 =? 0) && negb (event.has_changed (message_impl.payload_ cu) (Some p)) && negb false = false).
  { intros b. destruct force; [done|]. unfold event.get_payload in Hch. cbn in Hch |- *. destruct b; [|done]. cbn. by rewrite Hch. }
  unfold event.get_payload. cbn [event.current_ event.cycle_ event.is_shadow_]. rewrite Hb.
  destruct st, rs; cbn; (eexists; split; [reflexivity|]; split; [|done]; split; cbn; eauto).
Qed.

Lemma broadcasts_stamped m s0 p0 hs vs : ∀ s,
  broadcasts (stamped m s0 p0) hs s vs = broadcasts m hs s vs.
Proof. induction vs as [|[p f] vs IH]; intros s; cbn; [done|]. by rewrite IH. Qed.

Lemma publish_spec vs : ∀ v e r, plain_field v e → Forall (λ x, short x.1) vs →
  let '(e', r') := publish vs e r in
  calls r' = calls r ++ broadcasts (event.update_ e) (has_session_handling_ r) (session_ r) (changes v vs)
  ∧ plain_field (default v (payload_impl.data_ ∘ fst <$> last (changes v vs))) e'
  ∧ event.is_set_ e' = event.is_set_ e || bool_decide (changes v vs ≠ []).
Proof.
  induction vs as [|[p force] vs IH]; intros v e r Hf Hs; cbn.
  { rewrite app_nil_r, orb_false_r. done. }
  inversion_clear Hs as [|?? Hp Hs']. cbn in Hp.
  destruct (force || negb (bool_decide (payload_impl.data_ p = v))) eqn:Hc.
  - destruct (set_payload_sent v e r p force Hf Hp Hc) as (e1 & -> & Hf1 & Hset & Hup).
    specialize (IH _ e1 (emit (send VSOMEIP_ROUTING_CLIENT
      (stamped (event.update_ e) (next_session (has_session_handling_ r) (session_ r)) (Some p)) force)
      (mk_router (has_session_handling_ r) (counter_after (has_session_handling_ r) (session_ r)) (calls r))) Hf1 Hs').
    unfold publish in IH. destruct (foldl _ _ vs) as [e' r']. destruct IH as (IH1 & IH2 & IH3).
    rewrite IH1, IH3, Hset, Hup, broadcasts_stamped. cbn. split; [|split].
    + by rewrite <- app_assoc.
    + destruct (changes (payload_impl.data_ p) vs) as [|x l] eqn:E; [done|].
      rewrite last_cons_cons. destruct (last (x :: l)) eqn:El; [done|]. by apply last_None in El.
    + by rewrite orb_true_r.
  - apply orb_false_iff in Hc as [-> Hc]. apply negb_false_iff, bool_decide_eq_true in Hc.
    rewrite (set_payload_kept v e r p Hf Hp Hc). by apply IH.
Qed.

(** ** The debounce filter *)

(** The specification of a change: the bytes at [i] differ in a bit that is not
    excluded; a byte that only one payload has counts unless it is excluded as a
    whole. *)
Definition mask (f : debounce_filter_impl_t) (i : nat) : Z :=
  default 0 (debounce_filter_impl.find i (ignore_ f)).

Definition significant (f : debounce_filter_impl_t) (old new : bytes) (i : nat) : bool :=
  match old !! i, new !! i with
  | Some a, Some b => negb (Z.land a (Z.lnot (mask f i)) =? Z.land b (Z.lnot (mask f i)))
  | None, None => false
  | _, _ => negb (mask f i =? 0xFF)
  end.

Lemma any_extra_spec f n : ∀ i,
  debounce_filter_impl.any_extra f i n = existsb (debounce_filter_impl.extra_changed f) (seq i n).
Proof. induction n as [|n IH]; intros i; cbn; [done|]. by rewrite IH. Qed.

Lemma byte_masked a : in_width 8 a → Z.land a (Z.lnot 0xFF) = 0.
Proof.
  intros Ha. apply Z.bits_inj'. intros k Hk. rewrite Z.land_spec, Z.lnot_spec, Z.bits_0 by lia.
  change 0xFF with (Z.ones 8). rewrite Z.testbit_ones_nonneg by lia.
  destruct (Z.ltb_spec k 8); [by rewrite andb_false_r|].
  rewrite (proj2 (Z.testbit_false a k Hk)); [done|].
  unfold in_width in Ha. rewrite Z.div_small; [done|].
  split; [lia|]. apply Z.lt_le_trans with (2 ^ 8); [lia|]. apply Z.pow_le_mono_r; lia.
Qed.

Lemma byte_changed_spec f old new i a b :
  old !! i = Some a → new !! i = Some b → in_width 8 a → in_width 8 b →
  debounce_filter_impl.byte_changed f old new i = Ok (significant f old new i).
Proof.
  intros Ha Hb Wa Wb. unfold debounce_filter_impl.byte_changed, significant, mask, rd1.
  rewrite Ha, Hb. destruct (debounce_filter_impl.find i (ignore_ f)) as [m|]; cbn [default].
  - destruct (Z.eqb_spec m 0xFF) as [->|]; [|done]. rewrite !byte_masked by done. done.
  - cbn. by rewrite !Z.land_m1_r.
Qed.

Lemma any_byte_spec f old new n : ∀ i, bytes_ok old → bytes_ok new →
  (i + n ≤ length old)%nat → (i + n ≤ length new)%nat →
  debounce_filter_impl.any_byte f old new i n = Ok (existsb (significant f old new) (seq i n)).
Proof.
  induction n as [|n IH]; intros i Ho Hn Lo Ln; cbn; [done|].
  destruct (lookup_lt_is_Some_2 old i ltac:(lia)) as [a Ha].
  destruct (lookup_lt_is_Some_2 new i ltac:(lia)) as [b Hb].
  rewrite (byte_changed_spec f old new i a b Ha Hb); cbn.
  - rewrite IH by (done || lia). by destruct (significant f old new i).
  - by apply (Forall_lookup_1 _ _ _ _ Ho Ha).
  - by apply (Forall_lookup_1 _ _ _ _ Hn Hb).
Qed.

Lemma existsb_same {A} (f g : A → bool) l : (∀ x, x ∈ l → f x = g x) → existsb f l = existsb g l.
Proof.
  induction l as [|x l IH]; intros H; cbn; [done|].
  rewrite H by set_solver. f_equal. apply IH. set_solver.
Qed.

Lemma extra_significant f old new i :
  (length old ≤ i ∨ length new ≤ i)%nat → (i < length old `max` length new)%nat →
  debounce_filter_impl.extra_changed f i = significant f old new i.
Proof.
  intros H Hi. unfold debounce_filter_impl.extra_changed, significant, mask.
  assert (Hm : match debounce_filter_impl.find i (ignore_ f) with
               | Some m => negb (m =? 255) | None => true end
          = negb (default 0 (debounce_filter_impl.find i (ignore_ f)) =? 0xFF))
    by (by destruct (debounce_filter_impl.find i (ignore_ f))).
  destruct (decide (i < length old)%nat) as [Ho|Ho], (decide (i < length new)%nat) as [Hn|Hn]; try lia.
  - destruct (lookup_lt_is_Some_2 old i Ho) as [a ->].
    by rewrite (lookup_ge_None_2 new i) by lia.
  - destruct (lookup_lt_is_Some_2 new i Hn) as [a ->].
    by rewrite (lookup_ge_None_2 old i) by lia.
Qed.

Lemma is_changed_spec f old new :
  let o := payload_impl.data_ old in let n := payload_impl.data_ new in
  short old → short new → bytes_ok o → bytes_ok n →
  debounce_filter_impl.is_changed f old new
  = Ok (on_change_ f && existsb (significant f o n) (seq 0 (length o `max` length n))).
Proof.
  cbv zeta. intros So Sn Ho Hn. unfold debounce_filter_impl.is_changed, short, payload_impl.get_length in *.
  destruct (on_change_ f); [|done]. rewrite !wrap_small by (unfold in_width; lia). rewrite !Nat2Z.id.
  set (o := payload_impl.data_ old) in *. set (n := payload_impl.data_ new) in *.
  assert (E : ∃ lo hi, (if decide (length o < length n)%nat then (length o, length n) else (length n, length o)) = (lo, hi)
    ∧ (lo = length o `min` length n)%nat ∧ (hi = length o `max` length n)%nat).
  { destruct (decide _); eexists _, _; (split; [reflexivity|lia]). }
  destruct E as (lo & hi & -> & -> & ->). rewrite any_extra_spec, any_byte_spec by (done || lia).
  replace (seq 0 (length o `max` length n)) with
    (seq 0 (length o `min` length n) ++ seq (length o `min` length n) (length o `max` length n - length o `min` length n))
    by (rewrite <- seq_app; f_equal; lia).
  rewrite existsb_app. erewrite existsb_same.
  2:{ intros i Hi. apply elem_of_seq in Hi. apply (extra_significant f o n); lia. }
  destruct (existsb (significant f o n) (seq (length o `min` length n) _)); cbn; [by rewrite orb_true_r|].
  by rewrite orb_false_r.
Qed.

(** Whether the interval has passed, in nanoseconds. *)
Definition due (f : debounce_filter_impl.t) (now : Z) : bool :=
  let n := interval_ (debounce_filter_impl.base f) in
  let l := debounce_filter_impl.last_forwarded_ f in
  (0 <=? n) && ((l =? debounce_filter_impl.time_max) || (l + n * 1000000 <=? now)).

Definition clean (p : payload_impl.t) : Prop := short p ∧ bytes_ok (payload_impl.data_ p).

(** The times of the clock, and of a filter at [now]. *)
Definition timely (now : Z) (f : debounce_filter_impl.t) : Prop :=
  debounce_filter_impl.last_forwarded_ f = debounce_filter_impl.time_max
  ∨ debounce_filter_impl.last_forwarded_ f ≤ now.

Lemma forward_spec f old new now : clean old → clean new → timely now f →
  let o := payload_impl.data_ old in let n := payload_impl.data_ new in
  let b := debounce_filter_impl.base f in
  let chg := on_change_ b && existsb (significant b o n) (seq 0 (length o `max` length n)) in
  debounce_filter_impl.forward (Some old) (Some new) now f
  = Ok (chg || due f now,
        if due f now || ((0 <=? interval_ b) && (chg && on_change_resets_interval_ b))
        then debounce_filter_impl.mk b now else f).
Proof.
  intros [So Bo] [Sn Bn] Ht. cbv zeta. unfold debounce_filter_impl.forward, due.
  rewrite is_changed_spec by done.
  set (b := debounce_filter_impl.base f). set (x := existsb _ _). set (l := debounce_filter_impl.last_forwarded_ f).
  assert (Hc : (if on_change_ b then Ok (on_change_ b && x) else Ok false) = Ok (on_change_ b && x))
    by (by destruct (on_change_ b)). rewrite Hc. cbn.
  destruct (Z.ltb_spec (-1) (interval_ b)) as [Hi|Hi].
  - rewrite (proj2 (Z.leb_le 0 (interval_ b))) by lia. cbn.
    assert (He : (l =? debounce_filter_impl.time_max) || (interval_ b <=? debounce_filter_impl.milliseconds (now - l))
                 = (l =? debounce_filter_impl.time_max) || (l + interval_ b * 1000000 <=? now)).
    { destruct (Z.eqb_spec l debounce_filter_impl.time_max) as [|Hl]; [done|]. cbn.
      destruct Ht as [|Ht]; [done|]. fold l in Ht. unfold debounce_filter_impl.milliseconds.
      rewrite Z.quot_div_nonneg by lia. apply eq_bool_prop_intro. rewrite !Is_true_true, !Z.leb_le.
      pose proof (Z.div_le_lower_bound (now - l) 1000000 (interval_ b) ltac:(lia)).
      pose proof (Z.mul_div_le (now - l) 1000000 ltac:(lia)). split; lia. }
    rewrite He. done.
  - rewrite (proj2 (Z.leb_gt 0 (interval_ b))) by lia. cbn. by rewrite orb_false_r.
Qed.

(** A sequence of notifications with their times, through one filter. *)
Fixpoint forwards (f : debounce_filter_impl.t) (us : list (Z * payload_impl.t * payload_impl.t))
    : result (list bool) :=
  match us with
  | [] => Ok []
  | (now, old, new) :: us =>
      '(b, f) ← debounce_filter_impl.forward (Some old) (Some new) now f;
      bs ← forwards f us;
      Ok (b :: bs)
  end.

(** The reference: which of the times are at least [n] milliseconds behind the
    last one that was. *)
Fixpoint paced (n : Z) (last : option Z) (ts : list Z) : list bool :=
  match ts with
  | [] => []
  | t :: ts =>
      let b := match last with None => true | Some l => l + n * 1000000 <=? t end in
      b :: paced n (if b then Some t else last) ts
  end.

Lemma forwards_paced us : ∀ f last,
  0 ≤ interval_ (debounce_filter_impl.base f) → on_change_ (debounce_filter_impl.base f) = false →
  debounce_filter_impl.last_forwarded_ f = default debounce_filter_impl.time_max last →
  StronglySorted Z.le (option_list last ++ (fst ∘ fst <$> us)) →
  Forall (λ t, t < debounce_filter_impl.time_max) (option_list last ++ (fst ∘ fst <$> us)) →
  Forall (λ u, clean u.1.2 ∧ clean u.2) us →
  forwards f us = Ok (paced (interval_ (debounce_filter_impl.base f)) last (fst ∘ fst <$> us)).
Proof.
  induction us as [|[[now old] new] us IH]; intros f last Hi Hc Hl Hs Hm Hp; [done|].
  inversion_clear Hp as [|?? [Po Pn] Hp']. cbn in *.

  assert (Ht : timely now f).
  { unfold timely. rewrite Hl. destruct last as [l|]; cbn in *; [right|by left].
    inversion Hs as [|?? _ Hf]; subst. by inversion Hf. }
  rewrite forward_spec by done. cbv zeta. rewrite Hc. cbn.
  assert (Hd : due f now = match last with None => true | Some l => l + interval_ (debounce_filter_impl.base f) * 1000000 <=? now end).
  { unfold due. rewrite (proj2 (Z.leb_le 0 _) Hi), Hl. cbn. destruct last as [l|]; cbn; [|by rewrite Z.eqb_refl].
    destruct (Z.eqb_spec l debounce_filter_impl.time_max) as [->|]; [|done].
    inversion Hm as [|?? Hlt _]; subst. lia. }
  rewrite Hd, andb_false_r, orb_false_r.
  destruct (match last with None => true | Some l => _ end) eqn:E; cbn.
  - erewrite (IH (debounce_filter_impl.mk _ now) (Some now)); try done.
    + destruct last; cbn in Hs; [by inversion Hs|done].
    + destruct last; cbn in Hm; [by inversion Hm|done].
  - destruct last as [l|]; [|done].
    erewrite (IH f (Some l)); try done; cbn in *.
    + inversion Hs as [|?? Hs1 Hf]; subst. inversion Hs1; subst. inversion Hf; subst. by constructor.
    + inversion Hm as [|?? ? Hm1]; subst. inversion Hm1; subst. by constructor.
Qed.

(** What pacing means: forwarded times keep their distance, and a time that is
    not forwarded has a forwarded one shortly before it. *)
Definition keeps_distance (n : Z) (last : option Z) (ts : list Z) (bs : list bool) : Prop :=
  length bs = length ts ∧
  ∀ j t, ts !! j = Some t →
    (bs !! j = Some true → (∀ l, last = Some l → l + n * 1000000 ≤ t) ∧
      ∀ i u, (i < j)%nat → ts !! i = Some u → bs !! i = Some true → u + n * 1000000 ≤ t)
    ∧ (bs !! j = Some false → (∃ l, last = Some l ∧ t < l + n * 1000000) ∨
      ∃ i u, (i < j)%nat ∧ ts !! i = Some u ∧ bs !! i = Some true ∧ t < u + n * 1000000).

Lemma paced_keeps_distance n ts : 0 ≤ n → ∀ last,
  StronglySorted Z.le (option_list last ++ ts) → keeps_distance n last ts (paced n last ts).
Proof.
  intros Hn. induction ts as [|t ts IH]; intros last Hs; cbn; [split; [done|]; by intros|].
  set (b := match last with None => true | Some l => l + n * 1000000 <=? t end).
  assert (Hs' : StronglySorted Z.le (option_list (if b then Some t else last) ++ ts)).
  { destruct b, last as [l|]; cbn in *; try done; inversion Hs as [|?? Hs1 Hf]; subst; try done.
    inversion Hs1; subst. inversion Hf; subst. by constructor. }
  assert (Ht : Forall (Z.le t) ts).
  { destruct last; cbn in Hs; inversion Hs as [|?? Hs1 Hf]; subst; [by inversion Hs1|done]. }
  destruct (IH _ Hs') as [Hlen IH']. split; [cbn; by rewrite Hlen|].
  intros [|j] u Hu; cbn in *.
  - injection Hu as <-. split; intros Hb; injection Hb as Hb.
    + split; [|intros; lia]. intros l ->. unfold b in Hb. by apply Z.leb_le.
    + left. unfold b in Hb. destruct last as [l|]; [|done]. exists l. split; [done|]. by apply Z.leb_gt.
  - assert (Htu : t ≤ u) by (apply (Forall_lookup_1 _ _ _ _ Ht Hu)).
    destruct (IH' j u Hu) as [H1 H2]. split; intros Hb.
    + destruct (H1 Hb) as [Ha Hc]. split.
      * intros l ->. destruct b eqn:Eb; [specialize (Ha t eq_refl); unfold b in Eb; apply Z.leb_le in Eb; lia|].
        by apply Ha.
      * intros [|i] v Hi Hv Hbv; cbn in *; [|apply (Hc i v); by (lia || done)].
        injection Hv as <-. injection Hbv as Hbv. rewrite Hbv in Ha. by apply Ha.
    + destruct (H2 Hb) as [(l & Hl & Hlt)|(i & v & Hi & Hv & Hbv & Hlt)].
      * destruct b eqn:Eb; [|by left; exists l]. injection Hl as <-. right. exists 0%nat, t. repeat split; try done; lia.
      * right. exists (S i), v. repeat split; try done; lia.
Qed.

(** ** Which subscribers receive an update *)

Lemma elem_of_get_subscribers e s :
  s ∈ event.get_subscribers e ↔ ∃ g cs, event.eventgroups_ e !! g = Some cs ∧ s ∈ cs.
Proof.
  unfold event.get_subscribers. generalize (event.eventgroups_ e) as m. intros m.
  induction m as [|g cs m Hg Hfst IH] using map_first_key_ind.
  - rewrite map_fold_empty. split; [set_solver|]. intros (g & cs & H & _). by rewrite lookup_empty in H.
  - rewrite map_fold_insert_first_key by done. rewrite elem_of_union, IH. split.
    + intros [H|(g' & cs' & H & Hs)]; [exists g, cs; by rewrite lookup_insert_eq|].
      exists g', cs'. split; [|done]. by rewrite lookup_insert_ne by (intros ->; congruence).
    + intros (g' & cs' & H & Hs). destruct (decide (g = g')) as [<-|].
      * rewrite lookup_insert_eq in H. injection H as <-. by left.
      * rewrite lookup_insert_ne in H by done. right. by exists g', cs'.
Qed.

Section filtering.
Context (force : bool) (now : Z) (old new : payload_impl.t) (e : event.t).
Hypothesis Hold : event.get_payload e = Some old.
Hypothesis Hnew : event.get_update e = Some new.
Hypothesis Cold : clean old.
Hypothesis Cnew : clean new.

(** The answer and the new state of a filter. *)
Definition passes (f : debounce_filter_impl.t) : bool :=
  let o := payload_impl.data_ old in let n := payload_impl.data_ new in
  let b := debounce_filter_impl.base f in
  (on_change_ b && existsb (significant b o n) (seq 0 (length o `max` length n))) || due f now.

Definition after (f : debounce_filter_impl.t) : debounce_filter_impl.t :=
  let o := payload_impl.data_ old in let n := payload_impl.data_ new in
  let b := debounce_filter_impl.base f in
  let chg := on_change_ b && existsb (significant b o n) (seq 0 (length o `max` length n)) in
  if due f now || ((0 <=? interval_ b) && (chg && on_change_resets_interval_ b))
  then debounce_filter_impl.mk b now else f.

Definition wants (fs : gmap loc debounce_filter_impl.t) (s : Z) : bool :=
  match event.filters_ e !! s with
  | Some k => match fs !! k with Some f => passes f | None => false end
  | None => event.default_forward force e
  end.

(** The filters of the clients are objects of their own, and their times have
    passed. *)
Definition private_filters (fs : gmap loc debounce_filter_impl.t) : Prop :=
  (∀ s1 s2 k, event.filters_ e !! s1 = Some k → event.filters_ e !! s2 = Some k → s1 = s2)
  ∧ ∀ s k, event.filters_ e !! s = Some k → ∃ f, fs !! k = Some f ∧ timely now f.

Lemma filter_one_spec s a acc fs : private_filters fs →
  a = None ∨ a = Some (event.default_forward force e) →
  ∃ a', event.filter_one force now e s (a, acc, fs)
        = Ok (a', if wants fs s then acc ∪ {[s]} else acc,
              match event.filters_ e !! s with Some k => alter after k fs | None => fs end)
  ∧ (a' = None ∨ a' = Some (event.default_forward force e)).
Proof.
  intros [_ Hp] Ha. unfold event.filter_one, wants. destruct (event.filters_ e !! s) as [k|] eqn:Hk.
  - destruct (Hp s k Hk) as (f & Hf & Ht). rewrite Hf, Hold, Hnew.
    rewrite (forward_spec f old new now Cold Cnew Ht). cbv zeta. rewrite bind_Ok.
    eexists. split; [|exact Ha]. fold (passes f). fold (after f). do 2 f_equal.
    apply map_eq. intros j. destruct (decide (k = j)) as [<-|].
    + by rewrite lookup_insert_eq, lookup_alter_eq, Hf.
    + by rewrite lookup_insert_ne, lookup_alter_ne.
  - destruct Ha as [->| ->]; eauto.
Qed.

Lemma filter_loop l : ∀ a acc fs, NoDup l → private_filters fs →
  a = None ∨ a = Some (event.default_forward force e) →
  ∃ a' acc' fs', foldM (event.filter_one force now e) l (a, acc, fs) = Ok (a', acc', fs')
  ∧ (∀ s, s ∈ acc' ↔ s ∈ acc ∨ (s ∈ l ∧ wants fs s = true))
  ∧ (∀ s k, s ∈ l → event.filters_ e !! s = Some k → fs' !! k = after <$> fs !! k)
  ∧ (∀ k, (∀ s, s ∈ l → event.filters_ e !! s ≠ Some k) → fs' !! k = fs !! k).
Proof.
  induction l as [|s l IH]; intros a acc fs Hl Hp Ha; cbn [foldM].
  { exists a, acc, fs. split; [done|]. split; [|split; [|done]].
    - intros x. rewrite elem_of_nil. tauto.
    - intros x k Hx. by apply elem_of_nil in Hx. }
  apply NoDup_cons in Hl as [Hs Hl].
  destruct (filter_one_spec s a acc fs Hp Ha) as (a1 & -> & Ha1). rewrite bind_Ok.
  set (fs1 := match event.filters_ e !! s with Some k => alter after k fs | None => fs end).
  assert (Hfs1 : ∀ k, event.filters_ e !! s ≠ Some k → fs1 !! k = fs !! k).
  { intros k Hk. unfold fs1. destruct (event.filters_ e !! s) as [j|]; [|done].
    apply lookup_alter_ne. congruence. }
  assert (Hw : ∀ x, x ∈ l → wants fs1 x = wants fs x).
  { intros x Hx. unfold wants. destruct (event.filters_ e !! x) as [k|] eqn:Hk; [|done].
    rewrite Hfs1; [done|]. intros Hk'. rewrite (proj1 Hp s x k Hk' Hk) in Hs. done. }
  assert (Hp1 : private_filters fs1).
  { split; [apply Hp|]. intros x k Hk. destruct (proj2 Hp x k Hk) as (f & Hf & Ht).
    unfold fs1. destruct (event.filters_ e !! s) as [j|] eqn:Hj; [|by exists f].
    destruct (decide (j = k)) as [->|]; [|exists f; by rewrite lookup_alter_ne].
    exists (after f). rewrite lookup_alter_eq, Hf. split; [done|]. unfold after, timely. case_match; [right; cbn; lia|done]. }
  destruct (IH a1 (if wants fs s then acc ∪ {[s]} else acc) fs1 Hl Hp1 Ha1) as (a' & acc' & fs' & -> & H1 & H2 & H3).
  exists a', acc', fs'. split; [done|]. split; [|split].
  - intros x. rewrite H1, elem_of_cons. split.
    + intros [Hx|[Hx Hwx]]; [|rewrite Hw in Hwx by done; tauto].
      destruct (wants fs s) eqn:E; [|tauto]. apply elem_of_union in Hx as [Hx|Hx%elem_of_singleton]; [tauto|]. subst. tauto.
    + intros [Hx|[[->|Hx] Hwx]]; [left; destruct (wants fs s); [apply elem_of_union; by left|done]
        |left; rewrite Hwx; apply elem_of_union; right; by apply elem_of_singleton|].
      right. rewrite Hw; done.
  - intros x k Hx Hk. apply elem_of_cons in Hx as [->|Hx].
    + rewrite H3; [unfold fs1; rewrite Hk; by rewrite lookup_alter_eq|].
      intros y Hy Hyk. by rewrite (proj1 Hp s y k Hk Hyk) in Hs.
    + rewrite (H2 x k Hx Hk), Hfs1; [done|]. intros Hk'. by rewrite (proj1 Hp s x k Hk' Hk) in Hs.
  - intros k Hk. rewrite H3 by (intros; apply Hk; apply elem_of_cons; by right).
    apply Hfs1, Hk. apply elem_of_cons. by left.
Qed.

Lemma filtered_spec fs : private_filters fs →
  ∃ S fs', event.get_filtered_subscribers force now e fs = Ok (S, fs')
  ∧ (∀ s, s ∈ S ↔ s ∈ event.get_subscribers e ∧ wants fs s = true)
  ∧ (∀ s k, s ∈ event.get_subscribers e → event.filters_ e !! s = Some k → fs' !! k = after <$> fs !! k)
  ∧ (∀ k, (∀ s, s ∈ event.get_subscribers e → event.filters_ e !! s ≠ Some k) → fs' !! k = fs !! k).
Proof.
  intros Hp. unfold event.get_filtered_subscribers. destruct (decide (event.filters_ e = ∅)) as [He|He].
  - eexists _, fs. split; [done|]. split; [|split; [|done]].
    + intros s. unfold wants. rewrite He, lookup_empty. destruct (event.default_forward force e); [tauto|].
      rewrite elem_of_empty. split; [done|by intros [_ ?]].
    + intros s k _. by rewrite He, lookup_empty.
  - destruct (filter_loop (in_order (event.get_subscribers e)) None ∅ fs (in_order_NoDup _) Hp (or_introl eq_refl))
      as (a' & acc' & fs' & -> & H1 & H2 & H3).
    exists acc', fs'. split; [done|]. setoid_rewrite elem_of_in_order in H1.
    setoid_rewrite elem_of_in_order in H2. setoid_rewrite elem_of_in_order in H3. split; [|done].
    intros s. rewrite H1, elem_of_empty. tauto.
Qed.
End filtering.

(** ** References

    The specification: a count per client and role that is raised by [add_ref]
    and lowered, not below zero, by [remove_ref]. *)

Definition ref_op : Type := bool * Z * bool.

Definition ref_step (o : ref_op) (e : event.t) : event.t :=
  let '(add, c, p) := o in if add then event.add_ref c p e else event.remove_ref c p e.

Definition tally_step (c : Z) (p : bool) (n : nat) (o : ref_op) : nat :=
  let '(add, c', p') := o in
  if bool_decide (c' = c ∧ p' = p) then (if add then S n else pred n) else n.

Definition tally (ops : list ref_op) (c : Z) (p : bool) : nat := foldl (tally_step c p) 0%nat ops.

Definition entry (m : gmap Z (gmap bool Z)) (c : Z) (p : bool) : option Z := m !! c ≫= (.!! p).

Record counts (m : gmap Z (gmap bool Z)) (f : Z → bool → nat) : Prop := {
  counts_entry : ∀ c p, entry m c p = if decide (f c p = 0%nat) then None else Some (Z.of_nat (f c p));
  counts_inner : ∀ c i, m !! c = Some i → i ≠ ∅
}.

Lemma entry_insert m c i c' p :
  entry (<[c := i]> m) c' p = if decide (c = c') then i !! p else entry m c' p.
Proof.
  unfold entry. destruct (decide (c = c')) as [<-|]; [by rewrite lookup_insert_eq|by rewrite lookup_insert_ne].
Qed.

Lemma entry_delete m c c' p :
  entry (delete c m) c' p = if decide (c = c') then None else entry m c' p.
Proof.
  unfold entry. destruct (decide (c = c')) as [<-|]; [by rewrite lookup_delete_eq|by rewrite lookup_delete_ne].
Qed.

Lemma counts_ext m f g : (∀ c p, f c p = g c p) → counts m f → counts m g.
Proof. intros H [He Hi]. split; [|done]. intros c p. by rewrite <- H. Qed.

Lemma counts_insert m f c i :
  counts m f → i ≠ ∅ → ∀ g, (∀ c' p, c' ≠ c → g c' p = f c' p) →
  (∀ p, i !! p = if decide (g c p = 0%nat) then None else Some (Z.of_nat (g c p))) →
  counts (<[c := i]> m) g.
Proof.
  intros [He Hi] Hn g Hg Hc. split.
  - intros c' p. rewrite entry_insert. destruct (decide (c = c')) as [<-|]; [apply Hc|]. by rewrite He, Hg.
  - intros c' j. destruct (decide (c = c')) as [<-|]; [rewrite lookup_insert_eq; congruence|].
    rewrite lookup_insert_ne by done. apply Hi.
Qed.

Lemma inner_entry m f c i : counts m f → m !! c = Some i →
  ∀ p, i !! p = if decide (f c p = 0%nat) then None else Some (Z.of_nat (f c p)).
Proof. intros [He _] Hc p. rewrite <- He. unfold entry. by rewrite Hc. Qed.

Definition bump (f : Z → bool → nat) (o : ref_op) : Z → bool → nat := λ c p, tally_step c p (f c p) o.

Lemma bump_same f add c p : bump f (add, c, p) c p = if add then S (f c p) else pred (f c p).
Proof. unfold bump, tally_step. by rewrite bool_decide_eq_true_2. Qed.

Lemma bump_other f add c p c' p' : (c, p) ≠ (c', p') → bump f (add, c, p) c' p' = f c' p'.
Proof. intros H. unfold bump, tally_step. rewrite bool_decide_eq_false_2; [done|]. intros [-> ->]. done. Qed.

Lemma add_ref_counts c p e f :
  counts (event.refs_ e) f → Z.of_nat (f c p) + 1 < 2 ^ 32 →
  counts (event.refs_ (event.add_ref c p e)) (bump f (true, c, p)).
Proof.
  intros Hc Hb. unfold event.add_ref. destruct (event.refs_ e !! c) as [i|] eqn:Hi.
  - set (j := <[p := Z.of_nat (S (f c p))]> i).
    assert (Hj : counts (<[c := j]> (event.refs_ e)) (bump f (true, c, p))).
    { apply (counts_insert _ f); [done|apply insert_non_empty|intros; apply bump_other; congruence|].
      intros q. unfold j. destruct (decide (p = q)) as [<-|].
      - by rewrite lookup_insert_eq, bump_same.
      - rewrite lookup_insert_ne, bump_other by congruence. by apply inner_entry with (event.refs_ e). }
    pose proof (inner_entry _ _ _ _ Hc Hi p) as Hp. destruct (i !! p) as [n|] eqn:Hn; destruct (decide _); try done; cbn.
    + injection Hp as ->. rewrite wrap_small by (unfold in_width; lia).
      replace (Z.of_nat (f c p) + 1) with (Z.of_nat (S (f c p))) by lia. done.
    + unfold j in Hj. by rewrite e0 in Hj.
  - cbn. apply (counts_insert _ f); [done|apply map_non_empty_singleton|intros; apply bump_other; congruence|].
    assert (H0 : ∀ q, f c q = 0%nat).
    { intros q. pose proof (counts_entry _ _ Hc c q) as H. unfold entry in H. rewrite Hi in H. by destruct (decide _). }
    intros q. destruct (decide (p = q)) as [<-|].
    + by rewrite lookup_singleton_eq, bump_same, H0.
    + rewrite lookup_singleton_ne, bump_other by congruence. by rewrite H0.
Qed.

Lemma remove_ref_counts c p e f :
  counts (event.refs_ e) f → Z.of_nat (f c p) < 2 ^ 32 →
  counts (event.refs_ (event.remove_ref c p e)) (bump f (false, c, p)).
Proof.
  intros Hc Hb. pose proof (counts_entry _ _ Hc c p) as Hp. unfold entry in Hp.
  assert (Hnop : f c p = 0%nat → counts (event.refs_ e) (bump f (false, c, p))).
  { intros H0. apply counts_ext with f; [|done]. intros c' p'. destruct (decide ((c, p) = (c', p'))) as [[= <- <-]|].
    - by rewrite bump_same, H0.
    - by rewrite bump_other. }
  unfold event.remove_ref. destruct (event.refs_ e !! c) as [i|] eqn:Hi; cbn in Hp.
  2:{ apply Hnop. by destruct (decide _). }
  destruct (i !! p) as [n|] eqn:Hn; [|apply Hnop; by destruct (decide _)].
  destruct (decide _) as [|Hf]; [done|]. injection Hp as ->.
  rewrite wrap_small by (unfold in_width; lia).
  assert (Hin := inner_entry _ _ _ _ Hc Hi).
  destruct (Z.eqb_spec (Z.of_nat (f c p) - 1) 0) as [H1|H1].
  - assert (Hdel : ∀ q, delete p i !! q = if decide (bump f (false, c, p) c q = 0%nat) then None
                                          else Some (Z.of_nat (bump f (false, c, p) c q))).
    { intros q. destruct (decide (p = q)) as [<-|].
      - rewrite lookup_delete_eq, bump_same. rewrite decide_True by lia. done.
      - rewrite lookup_delete_ne, bump_other by congruence. apply Hin. }
    destruct (decide (size (delete p i) = 0%nat)) as [Hs|Hs]; cbn.
    + apply map_size_empty_iff in Hs. split.
      * intros c' q. rewrite entry_delete. destruct (decide (c = c')) as [<-|].
        -- by rewrite <- Hdel, Hs.
        -- rewrite bump_other by congruence. apply Hc.
      * intros c' j. destruct (decide (c = c')) as [<-|]; [by rewrite lookup_delete_eq|].
        rewrite lookup_delete_ne by done. apply Hc.
    + apply (counts_insert _ f); [done|by rewrite <- map_size_empty_iff|intros; apply bump_other; congruence|done].
  - cbn. apply (counts_insert _ f); [done|apply insert_non_empty|intros; apply bump_other; congruence|].
    intros q. destruct (decide (p = q)) as [<-|].
    + rewrite lookup_insert_eq, bump_same, decide_False by lia. f_equal. lia.
    + rewrite lookup_insert_ne, bump_other by congruence. apply Hin.
Qed.

Lemma tally_bound f ops : ∀ c p, (foldl (tally_step c p) (f c p) ops ≤ f c p + length ops)%nat.
Proof.
  revert f. induction ops as [|o ops IH]; intros f c p; cbn; [lia|].
  specialize (IH (bump f o) c p). unfold bump in IH. etrans; [exact IH|].
  destruct o as [[[] c'] p']; unfold tally_step; case_bool_decide; lia.
Qed.

Lemma refs_run ops : ∀ e f, counts (event.refs_ e) f →
  (∀ c p, Z.of_nat (f c p + length ops) < 2 ^ 32) →
  counts (event.refs_ (foldl (λ e o, ref_step o e) e ops)) (λ c p, foldl (tally_step c p) (f c p) ops).
Proof.
  induction ops as [|[[[] c] p] ops IH]; intros e f Hc Hb; cbn; [done| |].
  all: assert (Hl : ∀ c' p', Z.of_nat (f c' p') + 1 < 2 ^ 32)
    by (intros c' p'; specialize (Hb c' p'); cbn in Hb; lia).
  1: assert (H1 := add_ref_counts c p e f Hc (Hl c p)).
  2: assert (H1 := remove_ref_counts c p e f Hc ltac:(specialize (Hl c p); lia)).
  all: apply (IH _ _ H1); intros c' p'; specialize (Hb c' p'); cbn in Hb;
    unfold bump, tally_step; case_bool_decide; lia.
Qed.

Lemma counts_has_ref m f : counts m f → (size m ≠ 0%nat ↔ ∃ c p, (0 < f c p)%nat).
Proof.
  intros Hc. rewrite map_size_empty_iff. split.
  - intros (c & i & Hi)%map_choose. destruct (map_choose i (counts_inner _ _ Hc c i Hi)) as (p & n & Hp).
    exists c, p. pose proof (inner_entry _ _ _ _ Hc Hi p) as H. rewrite Hp in H. destruct (decide _); [done|lia].
  - intros (c & p & Hf) ->. pose proof (counts_entry _ _ Hc c p) as H. unfold entry in H. rewrite lookup_empty in H.
    cbn in H. destruct (decide _); [lia|done].
Qed.

(** ** Initial values

    Requests for the value of a field that has none yet ([notify_one] to an
    endpoint) and their cancellation ([remove_pending]). *)

Inductive initial_op : Set := request_initial (target : loc) | cancel_initial (target : loc).

Definition initial_step (o : initial_op) (e : event.t) (r : router) : event.t * router :=
  match o with
  | request_initial tg => event.notify_one_target VSOMEIP_ROUTING_CLIENT (Some tg) e r
  | cancel_initial tg => (event.remove_pending tg e, r)
  end.

Definition initial_run (ops : list initial_op) (e : event.t) (r : router) : event.t * router :=
  foldl (λ '(e, r) o, initial_step o e r) (e, r) ops.

(** The specification: an endpoint waits when its last operation is a request. *)
Fixpoint waits (ops : list initial_op) (w : bool) (tg : loc) : bool :=
  match ops with
  | [] => w
  | request_initial x :: ops => waits ops (w || bool_decide (x = tg)) tg
  | cancel_initial x :: ops => waits ops (w && negb (bool_decide (x = tg))) tg
  end.

Fixpoint initials (m : message_impl.t) (hs : bool) (s : Z) (p : event.payload) (l : list loc) : list call :=
  match l with
  | [] => []
  | tg :: l => send_to VSOMEIP_ROUTING_CLIENT tg (stamped m (next_session hs s) p)
               :: initials m hs (counter_after hs s) p l
  end.

Lemma decide_request (X : gset loc) x tg :
  bool_decide (tg ∈ X ∪ {[x]}) = bool_decide (tg ∈ X) || bool_decide (x = tg).
Proof. apply eq_bool_prop_intro. rewrite orb_True, !bool_decide_spec, elem_of_union, elem_of_singleton. intuition congruence. Qed.

Lemma decide_cancel (X : gset loc) x tg :
  bool_decide (tg ∈ X ∖ {[x]}) = bool_decide (tg ∈ X) && negb (bool_decide (x = tg)).
Proof. apply eq_bool_prop_intro. rewrite andb_True, negb_True, !bool_decide_spec, elem_of_difference, elem_of_singleton. intuition congruence. Qed.

Lemma initial_run_spec ops : ∀ e r, event.is_set_ e = false →
  let '(e', r') := initial_run ops e r in
  r' = r ∧ event.is_set_ e' = false ∧ event.is_provided_ e' = event.is_provided_ e
  ∧ event.update_ e' = event.update_ e
  ∧ ∀ tg, tg ∈ event.pending_ e' ↔ waits ops (bool_decide (tg ∈ event.pending_ e)) tg = true.
Proof.
  induction ops as [|o ops IH]; intros e r Hs; cbn.
  { repeat split; try done; by rewrite bool_decide_eq_true. }
  destruct o as [x|x]; cbn.
  - rewrite Hs. specialize (IH (event.with_pending (event.pending_ e ∪ {[x]}) e) r Hs).
    unfold initial_run in IH. destruct (foldl _ _ ops) as [e' r'].
    destruct IH as (-> & H1 & H2 & H3 & H4). split; [done|]. repeat (split; [done|]).
    intros tg. rewrite H4. cbn. by rewrite decide_request.
  - specialize (IH (event.remove_pending x e) r Hs).
    unfold initial_run in IH. destruct (foldl _ _ ops) as [e' r'].
    destruct IH as (-> & H1 & H2 & H3 & H4). split; [done|]. repeat (split; [done|]).
    intros tg. rewrite H4. cbn. by rewrite decide_cancel.
Qed.

Lemma initials_stamped m s0 p l : ∀ hs s, initials (stamped m s0 p) hs s p l = initials m hs s p l.
Proof. induction l as [|tg l IH]; intros hs s; cbn; [done|]. by rewrite IH. Qed.

Lemma notify_pending_spec l : ∀ e r p, event.get_update e = p →
  let '(e', r') := event.notify_pending l e r in
  calls r' = calls r ++ initials (event.update_ e) (has_session_handling_ r) (session_ r) p l
  ∧ event.get_update e' = p ∧ event.is_set_ e' = event.is_set_ e.
Proof.
  induction l as [|tg l IH]; intros e r p Hp; cbn; [by rewrite app_nil_r|].
  unfold event.set_session. rewrite get_session_spec.
  set (s := next_session _ _). set (u := message_impl.on_header _ _).
  assert (Hu : u = stamped (event.update_ e) s p).
  { unfold u, stamped. rewrite <- Hp. unfold event.get_update. by destruct (event.update_ e). }
  clearbody u.
  specialize (IH (event.with_update u e) (emit (send_to VSOMEIP_ROUTING_CLIENT tg u)
    (mk_router (has_session_handling_ r) (counter_after (has_session_handling_ r) (session_ r)) (calls r))) p).
  unfold event.notify_pending in IH. cbn in IH |- *. destruct (foldl _ _ l) as [e' r'].
  destruct IH as (H1 & H2 & H3); [rewrite Hu; done|]. rewrite H1, Hu, initials_stamped, <- app_assoc. done.
Qed.

Lemma elem_of_targets e tg : tg ∈ event.targets e ↔ tg ∈ event.pending_ e.
Proof. unfold event.targets. by rewrite merge_sort_Permutation, elem_of_elements. Qed.

Lemma targets_NoDup e : NoDup (event.targets e).
Proof. unfold event.targets. rewrite merge_sort_Permutation. apply NoDup_elements. Qed.

(** ** Properties *)

(** (C25) The notifications of a field.  Values are handed to a provided field
    that is sent on change and not cyclically.  The routing manager is asked to
    distribute exactly those that are forced or differ from the value before, in
    order and with consecutive sessions; the value kept is the one distributed
    last, and a field counts as set once something was distributed.  (So a first
    value that equals the initial empty payload is not distributed and leaves the
    field unset.) *)
Theorem event_field_broadcasts (vs : list value) (v : bytes) (e : event.t) (r : router)
    (Hf : plain_field v e) (Hs : Forall (λ x, short x.1) vs) :
  let '(e', r') := publish vs e r in
  calls r' = calls r ++ broadcasts (event.update_ e) (has_session_handling_ r) (session_ r) (changes v vs)
  ∧ plain_field (default v (payload_impl.data_ ∘ fst <$> last (changes v vs))) e'
  ∧ event.is_set_ e' = event.is_set_ e || bool_decide (changes v vs ≠ []).
Proof. by apply publish_spec. Qed.

Definition bytes_payload (bs : bytes) : payload_impl.t := payload_impl.mk bs (length bs).

Definition example_field : event.t :=
  event.set_event 0x8001 (event.set_provided true (event.set_type ET_FIELD (event.create false))).

Definition sent_values (cs : list call) : list (Z * Z * bytes) :=
  omap (λ c, match c with
             | send _ m _ => p ← message_impl.payload_ m;
                             Some (message_header_impl.method_ (message_impl.header_ m),
                                   message_header_impl.session_ (message_impl.header_ m),
                                   payload_impl.data_ p)
             | _ => None
             end) cs.

Lemma event_field_broadcasts_witness :
  let vs := [(bytes_payload [], false); (bytes_payload [1], false); (bytes_payload [1], false);
             (bytes_payload [1], true); (bytes_payload [2; 3], false)] in
  let '(e, r) := publish vs example_field (mk_router true 65534 []) in
  plain_field [2; 3] e ∧ sent_values (calls r) = [(0x8001, 65535, [1]); (0x8001, 1, [1]); (0x8001, 2, [2; 3])].
Proof.
  pose proof (event_field_broadcasts [(bytes_payload [], false); (bytes_payload [1], false);
    (bytes_payload [1], false); (bytes_payload [1], true); (bytes_payload [2; 3], false)] []
    example_field (mk_router true 65534 [])) as H.
  cbv zeta. destruct (publish _ _ _) as [e r]. destruct H as (H1 & H2 & _).
  - split; try done. by exists payload_impl.create.
  - repeat (apply Forall_cons; split; [done|]). apply Forall_nil. done.
  - split; [exact H2|]. rewrite H1. reflexivity.
Defined.

(** Initial values.  While a provided event has no value, requests of
    endpoints for it are remembered and nothing is sent; with the first value,
    [set_payload_notify_pending] sends it exactly once to every endpoint that
    still waits, with consecutive sessions, and to no other, and forgets the
    requests.  Later requests are answered at once. *)
Theorem event_initial_values (ops : list initial_op) (e : event.t) (r : router) (p : event.payload)
    (Hset : event.is_set_ e = false) (Hprovided : event.is_provided_ e = true) :
  let '(e1, r1) := initial_run ops e r in
  let '(b, e2, r2) := event.set_payload_notify_pending p e1 r1 in
  ∃ l, NoDup l
  ∧ (∀ tg, tg ∈ l ↔ waits ops (bool_decide (tg ∈ event.pending_ e)) tg = true)
  ∧ r1 = r ∧ b = true
  ∧ calls r2 = calls r ++ initials (event.update_ e) (has_session_handling_ r) (session_ r) p l
  ∧ event.get_payload e2 = p ∧ event.is_set_ e2 = true ∧ event.pending_ e2 = ∅
  ∧ ∀ tg, ∃ e3 m, event.notify_one_target VSOMEIP_ROUTING_CLIENT (Some tg) e2 r2
                  = (e3, emit (send_to VSOMEIP_ROUTING_CLIENT tg m) (get_session false r2).2)
                  ∧ message_impl.payload_ m = p ∧ event.pending_ e3 = ∅.
Proof.
  pose proof (initial_run_spec ops e r Hset) as H. destruct (initial_run ops e r) as [e1 r1].
  destruct H as (-> & Hs1 & Hp1 & Hu1 & Hw). unfold event.set_payload_notify_pending.
  rewrite Hp1, Hs1, Hprovided. cbn [negb andb].
  set (e0 := event.with_set true _).
  pose proof (notify_pending_spec (event.targets e0) e0 r p eq_refl) as Hn.
  destruct (event.notify_pending _ e0 r) as [e2 r2]. destruct Hn as (Hc & Hg & Hset2).
  exists (event.targets e0). split; [apply targets_NoDup|]. split; [intros tg; rewrite elem_of_targets; apply Hw|].
  split; [done|]. split; [done|]. split.
  { rewrite Hc. f_equal. change (event.update_ e0) with (message_impl.set_payload p (event.update_ e1)).
    rewrite Hu1. generalize (has_session_handling_ r), (session_ r). clear.
    induction (event.targets e0) as [|tg l IH]; intros hs s; cbn; [done|]. by rewrite IH. }
  split; [exact Hg|]. split; [exact Hset2|]. split; [done|]. intros tg.
  unfold event.notify_one_target. cbn [event.is_set_ event.update_payload event.with_current event.with_pending].
  rewrite Hset2. change (event.is_set_ e0) with true. unfold event.set_session.
  destruct (get_session false r2) as [s r3]. eexists _, _. split; [reflexivity|]. split; [exact Hg|done].
Qed.

Lemma event_initial_values_witness :
  let e := event.set_provided true (event.create true) in
  let ops := [request_initial 4; request_initial 9; request_initial 4; cancel_initial 9; request_initial 2]%nat in
  event.is_set_ e = false ∧
  ∃ l : list loc, (∀ tg, tg ∈ l ↔ waits ops (bool_decide (tg ∈ event.pending_ e)) tg = true)
     ∧ waits ops (bool_decide (4%nat ∈ event.pending_ e)) 4%nat = true
     ∧ waits ops (bool_decide (9%nat ∈ event.pending_ e)) 9%nat = false.
Proof.
  cbv zeta. split; [reflexivity|].
  pose proof (event_initial_values [request_initial 4; request_initial 9; request_initial 4; cancel_initial 9; request_initial 2]%nat
    (event.set_provided true (event.create true)) (mk_router true 0 []) (Some (bytes_payload [7])) eq_refl eq_refl) as H.
  destruct (initial_run _ _ _) as [e1 r1]. destruct (event.set_payload_notify_pending _ _ _) as [[b e2] r2].
  destruct H as (l & _ & Hl & _). exists l. split; [exact Hl|]. split; reflexivity.
Defined.

(** References.  For any sequence of fewer than 2^32 [add_ref] and
    [remove_ref], the nested maps behave as one counter per client and role that
    does not fall below zero: [has_ref] of a client and role holds when its
    counter is positive, and [has_ref] without arguments when any is. *)
Theorem event_references (ops : list ref_op) (shadow : bool) (Hlen : Z.of_nat (length ops) < 2 ^ 32) :
  let e := foldl (λ e o, ref_step o e) (event.create shadow) ops in
  (∀ c p, event.has_ref_of c p e = bool_decide (0 < tally ops c p)%nat)
  ∧ (event.has_ref e = true ↔ ∃ c p, (0 < tally ops c p)%nat).
Proof.
  cbv zeta. assert (H0 : counts (event.refs_ (event.create shadow)) (λ _ _, 0%nat)).
  { split; [done|]. intros c i H. change (event.refs_ (event.create shadow)) with (∅ : gmap Z (gmap bool Z)) in H. by rewrite lookup_empty in H. }
  set (e := foldl _ _ ops) in *.
  assert (Hc : counts (event.refs_ e) (tally ops)) by exact (refs_run ops _ _ H0 ltac:(done)). split.
  - intros c p. unfold event.has_ref_of. pose proof (counts_entry _ _ Hc c p) as H. unfold entry in H. rewrite H.
    destruct (decide _) as [->|]; [done|].
    rewrite bool_decide_eq_true_2 by lia. apply Z.ltb_lt. lia.
  - unfold event.has_ref. rewrite bool_decide_eq_true. apply (counts_has_ref _ _ Hc).
Qed.

Lemma event_references_witness :
  let ops := [(true, 5, true); (true, 5, true); (true, 7, false); (false, 5, true); (false, 7, false); (false, 7, false)] in
  let e := foldl (λ e o, ref_step o e) (event.create false) ops in
  event.has_ref_of 5 true e = true ∧ event.has_ref_of 7 false e = false.
Proof.
  cbv zeta. destruct (event_references [(true, 5, true); (true, 5, true); (true, 7, false); (false, 5, true);
    (false, 7, false); (false, 7, false)] false ltac:(cbn; lia)) as [H _]. rewrite !H. split; reflexivity.
Defined.

(** (C26) The debounce filter.  For payloads below 4 GiB the stored function is
    defined; it lets a notification pass when the filter looks at changes and a
    byte differs in a bit that is not excluded (a byte that only one payload has
    counts unless it is excluded as a whole), or when the interval has passed.  A
    filter that only has an interval forwards the first notification, keeps the
    interval between any two that it forwards, and suppresses one only when a
    forwarded one is less than the interval back. *)
Theorem debounce_filter_correct (f : debounce_filter_impl_t) (us : list (Z * payload_impl.t * payload_impl.t))
    (Hclean : Forall (λ u, clean u.1.2 ∧ clean u.2) us)
    (Htimes : Forall (λ t, t < debounce_filter_impl.time_max) (fst ∘ fst <$> us))
    (Hsorted : StronglySorted Z.le (fst ∘ fst <$> us)) :
  (∀ g now old new, (now, old, new) ∈ us → debounce_filter_impl.base g = f → timely now g →
     (fst <$> debounce_filter_impl.forward (Some old) (Some new) now g)
     = Ok (on_change_ f && existsb (significant f (payload_impl.data_ old) (payload_impl.data_ new))
             (seq 0 (length (payload_impl.data_ old) `max` length (payload_impl.data_ new)))
           || due g now))
  ∧ (on_change_ f = false → 0 ≤ interval_ f →
     ∃ bs, forwards (debounce_filter_impl.create f) us = Ok bs
         ∧ keeps_distance (interval_ f) None (fst ∘ fst <$> us) bs).
Proof.
  split.
  - intros g now old new Hu <- Ht. rewrite Forall_forall in Hclean. destruct (Hclean _ Hu) as [Ho Hn].
    by rewrite forward_spec.
  - intros Hc Hi. eexists. split; [|by apply paced_keeps_distance].
    by rewrite (forwards_paced us (debounce_filter_impl.create f) None).
Qed.

Lemma debounce_filter_correct_witness :
  let f := mk_filter false false 10 [] false in
  let p := bytes_payload [1] in
  let us := [(5000000, p, p); (9000000, p, p); (15000000, p, p)] in
  forwards (debounce_filter_impl.create f) us = Ok [true; false; true]
  ∧ ∃ bs, forwards (debounce_filter_impl.create f) us = Ok bs ∧ keeps_distance 10 None (fst ∘ fst <$> us) bs.
Proof.
  cbv zeta. split; [vm_compute; reflexivity|].
  refine (proj2 (debounce_filter_correct (mk_filter false false 10 [] false)
    [(5000000, bytes_payload [1], bytes_payload [1]); (9000000, bytes_payload [1], bytes_payload [1]);
     (15000000, bytes_payload [1], bytes_payload [1])] _ _ _) eq_refl ltac:(cbn; lia)).
  - repeat (apply Forall_cons; split; [by_eval|]). apply Forall_nil. done.
  - by_eval.
  - repeat constructor; cbn; lia.
Defined.

(** The subscribers of an update.  Every payload that reaches an event is
    accepted as its next value, and the subscribers that receive it are exactly
    those of its eventgroups whose own filter lets it pass or, without a filter,
    for whom the event forwards: always for local updates, for events with the
    default comparison, and otherwise when the comparison reports a change.  Each
    filter of a subscriber is consulted once and no other filter changes; the
    distributed value becomes the current one for remote updates only. *)
Theorem event_update_subscribers (now : Z) (old new : payload_impl.t) (remote : bool)
    (e : event.t) (r : router) (fs : gmap loc debounce_filter_impl.t)
    (Hold : event.get_payload e = Some old) (Cold : clean old) (Cnew : clean new)
    (Hfs : private_filters now e fs) :
  ∃ S e' r' fs',
    event.update_and_get_filtered_subscribers (Some new) remote now e r fs = Ok (S, e', r', fs')
  ∧ (∀ s, s ∈ S ↔ (∃ g cs, event.eventgroups_ e !! g = Some cs ∧ s ∈ cs)
                  ∧ match event.filters_ e !! s with
                    | Some k => ∃ f, fs !! k = Some f ∧ passes now old new f = true
                    | None => negb remote || (negb (event.is_field e) && event.has_default_epsilon_change_func_ e)
                              || event.epsilon_change_func_ e (Some old) (Some new) = true
                    end)
  ∧ (∀ s k, s ∈ event.get_subscribers e → event.filters_ e !! s = Some k →
            fs' !! k = after now old new <$> fs !! k)
  ∧ (∀ k, (∀ s, s ∈ event.get_subscribers e → event.filters_ e !! s ≠ Some k) → fs' !! k = fs !! k)
  ∧ event.get_update e' = Some new
  ∧ event.get_payload e' = Some (if remote then new else old)
  ∧ event.is_set_ e' = true
  ∧ calls r' = calls r ++ (if payload_impl.eqb old new then []
                           else [update_debounce_clients S (event.get_event e)]).
Proof.
  unfold event.update_and_get_filtered_subscribers, event.prepare_update_payload. cbn [negb andb].
  set (e0 := if event.is_set_ _ then _ else _).
  assert (He0 : event.get_payload e0 = Some old ∧ event.get_update e0 = Some new
    ∧ event.eventgroups_ e0 = event.eventgroups_ e ∧ event.filters_ e0 = event.filters_ e
    ∧ event.default_forward (negb remote) e0
      = negb remote || (negb (event.is_field e) && event.has_default_epsilon_change_func_ e)
        || event.epsilon_change_func_ e (Some old) (Some new)
    ∧ event.is_set_ e0 = true ∧ event.get_event e0 = event.get_event e).
  { unfold event.default_forward.
    assert (Hcommon : ∀ b c d : bool, (b && c) || negb remote || d = negb remote || (b && c) || d)
      by (intros [] [] []; by destruct remote).
    rewrite Hcommon. unfold e0, event.start_cycle. rewrite <- Hold.
    destruct e as [cu up ty tm cy rs ud eg [] pv rf sh ph ef df rl pd fl]; cbn; [done|].
    by destruct (negb sh && negb (cy =? 0)). }
  clearbody e0. destruct He0 as (H1 & H2 & H3 & H4 & H5 & H6 & H7).
  assert (Hsub : event.get_subscribers e0 = event.get_subscribers e) by (unfold event.get_subscribers; by rewrite H3).
  destruct (filtered_spec (negb remote) now old new e0 H1 H2 Cold Cnew fs) as (S & fs' & -> & HS & HT & HU).
  { unfold private_filters. by rewrite H4. }
  rewrite bind_Ok. eexists _, _, _, _. split; [reflexivity|]. rewrite Hsub, ?H4 in *. split; [|split; [done|]].
  - intros s. rewrite HS, elem_of_get_subscribers. unfold wants. rewrite H4, H5.
    destruct (event.filters_ e !! s) as [k|]; [|done].
    destruct (fs !! k) as [f|]; split; intros [Ha Hb]; (split; [done|]); try done; [by exists f| |].
    + destruct Hb as (f' & [= <-] & Hb). done.
    + by destruct Hb as (f' & ? & _).
  - split; [done|]. split; [by destruct remote|]. split; [by destruct remote|]. split; [by destruct remote|].
    unfold event.get_pending_updates, event.has_changed. rewrite H1, H2, H7.
    destruct (payload_impl.eqb old new); cbn; by rewrite ?app_nil_r.
Qed.

Definition example_subscribed : event.t :=
  (event.add_subscriber 3 None 12 true
    (event.add_subscriber 3 (Some 0%nat) 11 true example_field (mk_router true 0 [])).1.2 (mk_router true 0 [])).1.2.

Lemma event_update_subscribers_witness :
  let f := debounce_filter_impl.create (mk_filter true false (-1) [(0, 0xF0)] false) in
  let fs : gmap loc debounce_filter_impl.t := {[ 0%nat := f ]} in
  ∃ S e' r' fs',
    event.update_and_get_filtered_subscribers (Some (bytes_payload [0x21])) true 5 example_subscribed
      (mk_router true 0 []) fs = Ok (S, e', r', fs')
  ∧ event.get_payload e' = Some (bytes_payload [0x21]) ∧ 11 ∈ S.
Proof.
  cbv zeta.
  destruct (event_update_subscribers 5 payload_impl.create (bytes_payload [0x21]) true example_subscribed
    (mk_router true 0 []) {[ 0%nat := debounce_filter_impl.create (mk_filter true false (-1) [(0, 0xF0)] false) ]})
    as (S & e' & r' & fs' & H1 & H2 & _ & _ & _ & H3 & _).
  - reflexivity.
  - by_eval.
  - by_eval.
  - split.
    + intros s1 s2 k H H'. change (event.filters_ example_subscribed) with ({[ 11 := 0%nat ]} : gmap Z loc) in *.
      apply lookup_singleton_Some in H as [<- _], H' as [<- _]. done.
    + intros s k H. change (event.filters_ example_subscribed) with ({[ 11 := 0%nat ]} : gmap Z loc) in *.
      apply lookup_singleton_Some in H as [<- <-]. eexists. split; [reflexivity|by left].
  - exists S, e', r', fs'. split; [exact H1|]. split; [exact H3|]. apply H2. split.
    + exists 3, {[ 11; 12 ]}. split; [vm_compute; reflexivity|]. set_solver.
    + change (event.filters_ example_subscribed !! 11) with (Some 0%nat). eexists. split; reflexivity.
Defined.

(** A filter object that two events share ([insert_subscription] hands the same
    one to every event of an eventgroup): the first notification of the second
    event is suppressed because the first event was forwarded just before. *)
Example shared_filter_suppresses :
  let f := debounce_filter_impl.create (mk_filter false false 1000 [] false) in
  let e1 := (event.add_subscriber 3 (Some 0%nat) 11 true (event.set_event 0x8001 example_field) (mk_router true 0 [])).1.2 in
  let e2 := (event.add_subscriber 3 (Some 0%nat) 11 true (event.set_event 0x8002 example_field) (mk_router true 0 [])).1.2 in
  match event.update_and_get_filtered_subscribers (Some (bytes_payload [1])) true 1000000000 e1
          (mk_router true 0 []) {[ 0%nat := f ]} with
  | Ok (S1, _, _, fs) =>
      S1 = {[ 11 ]}
      ∧ match event.update_and_get_filtered_subscribers (Some (bytes_payload [2])) true 1001000000 e2
                (mk_router true 0 []) fs with
        | Ok (S2, _, _, _) => S2 = ∅
        | _ => False
        end
  | _ => False
  end.
Proof. vm_compute. split; reflexivity. Qed.
