(* ===== verification/Subscription.v ===== *)
(** * Remote subscriptions
    ([routing/src/remote_subscription.cpp], [routing/src/eventgroupinfo.cpp],
    [endpoints/src/endpoint_definition.cpp] and the handlers of remote
    subscriptions in [routing/src/routing_manager_impl.cpp])

    Subscriptions, endpoint definitions, eventgroups and events are shared
    objects: the same subscription is held by the table of its eventgroup, by the
    service discovery until it is answered, and by child subscriptions as their
    parent.  They live in stores indexed by [loc]; a weak pointer is a [loc]
    whose object may be gone from the store.  The order of the locations is the
    order of the addresses, in which a [std::set] of pointers is visited.

    The type [addr] of addresses ([boost::asio::ip::address]) and the values
    asked of the configuration are parameters.  Times are nanoseconds of the
    steady clock, 0 being the default [time_point]. *)

From stdpp Require Import base list gmap sorting.
From Stdlib Require Import ZArith Lia.
From S2P Require Import Prelude Maps Message Protocol Event.

Definition PENDING_SUBSCRIPTION_ID : Z := 0.
Definition DEFAULT_TTL : Z := 0xFFFFFF.
Definition ILLEGAL_PORT : Z := 0xFFFF.
Definition ANY_PORT : Z := 0.

(** Iteration over a [std::set] of pointers. *)
Definition by_address (X : gset loc) : list loc := merge_sort le (elements X).

(** ** Subscriptions *)

Inductive remote_subscription_state_e : Set :=
| SUBSCRIPTION_PENDING
| SUBSCRIPTION_ACKED
| SUBSCRIPTION_NACKED
| SUBSCRIPTION_ERROR
| SUBSCRIPTION_UNKNOWN.

#[export] Instance subscription_state_eq_dec : EqDecision remote_subscription_state_e.
Proof. solve_decision. Defined.

Module remote_subscription.
Inductive destiny : Set := none | expire | forward.
#[export] Instance destiny_eq_dec : EqDecision destiny.
Proof. solve_decision. Defined.

Record t : Type := mk {
  id_ : Z;
  is_initial_ : bool;
  force_initial_events_ : bool;
  parent_ : option loc;
  eventgroupinfo_ : option loc;
  ttl_ : Z;
  reserved_ : Z;
  counter_ : Z;
  clients_ : gmap Z (remote_subscription_state_e * Z);
  subscriber_ : option loc;
  reliable_ : option loc;
  unreliable_ : option loc;
  answers_ : Z;
  final_destination_ : destiny
}.

Definition create : t :=
  mk PENDING_SUBSCRIPTION_ID true false None None DEFAULT_TTL 0 0 ∅ None None None 1 none.

Definition with_clients c s := mk (id_ s) (is_initial_ s) (force_initial_events_ s) (parent_ s)
  (eventgroupinfo_ s) (ttl_ s) (reserved_ s) (counter_ s) c (subscriber_ s) (reliable_ s) (unreliable_ s)
  (answers_ s) (final_destination_ s).
Definition set_id i s := mk i (is_initial_ s) (force_initial_events_ s) (parent_ s)
  (eventgroupinfo_ s) (ttl_ s) (reserved_ s) (counter_ s) (clients_ s) (subscriber_ s) (reliable_ s)
  (unreliable_ s) (answers_ s) (final_destination_ s).
Definition set_initial b s := mk (id_ s) b (force_initial_events_ s) (parent_ s)
  (eventgroupinfo_ s) (ttl_ s) (reserved_ s) (counter_ s) (clients_ s) (subscriber_ s) (reliable_ s)
  (unreliable_ s) (answers_ s) (final_destination_ s).
Definition set_force_initial_events b s := mk (id_ s) (is_initial_ s) b (parent_ s)
  (eventgroupinfo_ s) (ttl_ s) (reserved_ s) (counter_ s) (clients_ s) (subscriber_ s) (reliable_ s)
  (unreliable_ s) (answers_ s) (final_destination_ s).
Definition set_parent p s := mk (id_ s) (is_initial_ s) (force_initial_events_ s) p
  (eventgroupinfo_ s) (ttl_ s) (reserved_ s) (counter_ s) (clients_ s) (subscriber_ s) (reliable_ s)
  (unreliable_ s) (answers_ s) (final_destination_ s).
Definition set_eventgroupinfo g s := mk (id_ s) (is_initial_ s) (force_initial_events_ s) (parent_ s)
  g (ttl_ s) (reserved_ s) (counter_ s) (clients_ s) (subscriber_ s) (reliable_ s)
  (unreliable_ s) (answers_ s) (final_destination_ s).
Definition set_ttl t s := mk (id_ s) (is_initial_ s) (force_initial_events_ s) (parent_ s)
  (eventgroupinfo_ s) t (reserved_ s) (counter_ s) (clients_ s) (subscriber_ s) (reliable_ s)
  (unreliable_ s) (answers_ s) (final_destination_ s).
Definition set_subscriber x s := mk (id_ s) (is_initial_ s) (force_initial_events_ s) (parent_ s)
  (eventgroupinfo_ s) (ttl_ s) (reserved_ s) (counter_ s) (clients_ s) x (reliable_ s)
  (unreliable_ s) (answers_ s) (final_destination_ s).
Definition set_reliable x s := mk (id_ s) (is_initial_ s) (force_initial_events_ s) (parent_ s)
  (eventgroupinfo_ s) (ttl_ s) (reserved_ s) (counter_ s) (clients_ s) (subscriber_ s) x
  (unreliable_ s) (answers_ s) (final_destination_ s).
Definition set_unreliable x s := mk (id_ s) (is_initial_ s) (force_initial_events_ s) (parent_ s)
  (eventgroupinfo_ s) (ttl_ s) (reserved_ s) (counter_ s) (clients_ s) (subscriber_ s) (reliable_ s)
  x (answers_ s) (final_destination_ s).
Definition set_answers n s := mk (id_ s) (is_initial_ s) (force_initial_events_ s) (parent_ s)
  (eventgroupinfo_ s) (ttl_ s) (reserved_ s) (counter_ s) (clients_ s) (subscriber_ s) (reliable_ s)
  (unreliable_ s) n (final_destination_ s).
Definition with_destiny d s := mk (id_ s) (is_initial_ s) (force_initial_events_ s) (parent_ s)
  (eventgroupinfo_ s) (ttl_ s) (reserved_ s) (counter_ s) (clients_ s) (subscriber_ s) (reliable_ s)
  (unreliable_ s) (answers_ s) d.

Definition set_expired : t → t := with_destiny expire.
Definition set_forwarded : t → t := with_destiny forward.
Definition clear_destiny : t → t := with_destiny none.
Definition is_expired (s : t) : bool := bool_decide (final_destination_ s = expire).
Definition is_forwarded (s : t) : bool := bool_decide (final_destination_ s = forward).

(** A client of the subscription is named; without one the subscription is for
    client 0. *)
Definition reset (clients : list Z) (s : t) : t :=
  let its_client_state := (SUBSCRIPTION_PENDING, 0) in
  match clients with
  | [] => with_clients (<[0 := its_client_state]> (clients_ s)) s
  | _ => with_clients (foldl (λ m c, <[c := its_client_state]> m) (clients_ s) clients) s
  end.

Definition get_clients (s : t) : gset Z := dom (clients_ s).
Definition has_client (s : t) : bool := bool_decide (0 < size (clients_ s))%nat.
Definition has_client_of (c : Z) (s : t) : bool := bool_decide (is_Some (clients_ s !! c)).
Definition remove_client (c : Z) (s : t) : t := with_clients (delete c (clients_ s)) s.

Definition get_client_state (c : Z) (s : t) : remote_subscription_state_e :=
  match clients_ s !! c with Some (st, _) => st | None => SUBSCRIPTION_UNKNOWN end.

(** The expiration is set with the first acknowledgement. *)
Definition set_client_state (now : Z) (c : Z) (state : remote_subscription_state_e) (s : t) : t :=
  match clients_ s !! c with
  | Some (_, time) =>
      let time' := if (time =? 0) && bool_decide (state = SUBSCRIPTION_ACKED ∨ state = SUBSCRIPTION_NACKED)
                   then now + ttl_ s * 1000000000 else time in
      with_clients (<[c := (state, time')]> (clients_ s)) s
  | None => s
  end.

Definition set_all_client_states (state : remote_subscription_state_e) (s : t) : t :=
  with_clients ((λ x : remote_subscription_state_e * Z, (state, x.2)) <$> clients_ s) s.

Definition is_pending (s : t) : bool :=
  existsb (λ x : Z * (remote_subscription_state_e * Z), bool_decide (x.2.1 = SUBSCRIPTION_PENDING))
    (map_to_list (clients_ s)).
Definition is_acknowledged (s : t) : bool :=
  forallb (λ x : Z * (remote_subscription_state_e * Z), bool_decide (x.2.1 = SUBSCRIPTION_ACKED))
    (map_to_list (clients_ s)).

Definition get_expiration (now : Z) (c : Z) (s : t) : Z :=
  match clients_ s !! c with Some (_, time) => time | None => now end.

(** Known clients are refreshed and new ones added, or known ones removed; the
    clients for which something changed are returned. *)
Definition update (clients : gset Z) (time : Z) (is_subscribe : bool) (s : t) : gset Z * t :=
  if is_subscribe then
    let refreshed := map_imap (λ c (x : remote_subscription_state_e * Z),
      Some (if decide (c ∈ clients) then (x.1, time) else x)) (clients_ s) in
    let its_changed := clients ∖ dom (clients_ s) in
    (its_changed, with_clients (foldl (λ m c, <[c := (SUBSCRIPTION_PENDING, time)]> m) refreshed (in_order its_changed)) s)
  else
    let its_changed := clients ∩ dom (clients_ s) in
    (its_changed, with_clients (foldl (λ m c, delete c m) (clients_ s) (in_order its_changed)) s).
End remote_subscription.

(** ** Endpoint definitions *)

Module endpoint_definition.
Record t {addr : Type} : Type := mk {
  address_ : addr;
  port_ : Z;
  remote_port_ : Z;
  is_reliable_ : bool
}.
Arguments t addr : clear implicits.

Definition create {addr} (a : addr) (port : Z) (is_reliable : bool) : t addr := mk _ a port port is_reliable.
Definition set_remote_port {addr} (port : Z) (d : t addr) : t addr :=
  mk _ (address_ d) (port_ d) port (is_reliable_ d).

Section get.
Context {addr : Type} `{EqDecision addr, Countable addr}.

(** The table of definitions: asking twice for the same endpoint of a service
    instance gives the same object. *)
Abbreviation key := (Z * Z * addr * Z * bool)%type.
Definition get (a : addr) (port : Z) (is_reliable : bool) (service instance : Z)
    (definitions : gmap key loc) (store : gmap loc (t addr)) : loc * gmap key loc * gmap loc (t addr) :=
  let k := (service, instance, a, port, is_reliable) in
  match definitions !! k with
  | Some l => (l, definitions, store)
  | None =>
      let l := fresh (dom store) in
      (l, <[k := l]> definitions, <[l := create a port is_reliable]> store)
  end.
End get.
End endpoint_definition.

(** ** Eventgroups *)

Module eventgroupinfo.
Record t {addr : Type} `{Countable addr} : Type := mk {
  service_ : Z;
  instance_ : Z;
  eventgroup_ : Z;
  major_ : Z;
  ttl_ : Z;
  address_ : option addr;
  port_ : Z;
  events_ : gset loc;
  threshold_ : Z;
  subscriptions_ : gmap Z loc;
  id_ : Z;
  remote_subscribers_count_ : gmap addr Z;
  reliability_ : reliability_type_e;
  reliability_auto_mode_ : bool;
  max_remote_subscribers_ : Z
}.
Arguments t addr {_ _}.

Section ops.
Context {addr : Type} `{Countable addr}.
Abbreviation info := (t addr).

Definition create (service instance eventgroup major ttl max_remote_subscribers : Z) : info :=
  mk _ _ _ service instance eventgroup major ttl None ILLEGAL_PORT ∅ 0 ∅ PENDING_SUBSCRIPTION_ID ∅
     RT_UNKNOWN false max_remote_subscribers.

Definition with_table subs id (g : info) : info := mk _ _ _ (service_ g) (instance_ g) (eventgroup_ g)
  (major_ g) (ttl_ g) (address_ g) (port_ g) (events_ g) (threshold_ g) subs id
  (remote_subscribers_count_ g) (reliability_ g) (reliability_auto_mode_ g) (max_remote_subscribers_ g).
Definition with_count cnt (g : info) : info := mk _ _ _ (service_ g) (instance_ g) (eventgroup_ g)
  (major_ g) (ttl_ g) (address_ g) (port_ g) (events_ g) (threshold_ g) (subscriptions_ g) (id_ g)
  cnt (reliability_ g) (reliability_auto_mode_ g) (max_remote_subscribers_ g).
Definition with_events ev (g : info) : info := mk _ _ _ (service_ g) (instance_ g) (eventgroup_ g)
  (major_ g) (ttl_ g) (address_ g) (port_ g) ev (threshold_ g) (subscriptions_ g) (id_ g)
  (remote_subscribers_count_ g) (reliability_ g) (reliability_auto_mode_ g) (max_remote_subscribers_ g).
Definition with_reliability r auto (g : info) : info := mk _ _ _ (service_ g) (instance_ g) (eventgroup_ g)
  (major_ g) (ttl_ g) (address_ g) (port_ g) (events_ g) (threshold_ g) (subscriptions_ g) (id_ g)
  (remote_subscribers_count_ g) r auto (max_remote_subscribers_ g).
Definition set_multicast a port (g : info) : info := mk _ _ _ (service_ g) (instance_ g) (eventgroup_ g)
  (major_ g) (ttl_ g) a port (events_ g) (threshold_ g) (subscriptions_ g) (id_ g)
  (remote_subscribers_count_ g) (reliability_ g) (reliability_auto_mode_ g) (max_remote_subscribers_ g).
Definition set_service_values major ttl threshold (g : info) : info := mk _ _ _ (service_ g) (instance_ g)
  (eventgroup_ g) major ttl (address_ g) (port_ g) (events_ g) threshold (subscriptions_ g) (id_ g)
  (remote_subscribers_count_ g) (reliability_ g) (reliability_auto_mode_ g) (max_remote_subscribers_ g).
Definition set_max_remote_subscribers n (g : info) : info := mk _ _ _ (service_ g) (instance_ g)
  (eventgroup_ g) (major_ g) (ttl_ g) (address_ g) (port_ g) (events_ g) (threshold_ g) (subscriptions_ g)
  (id_ g) (remote_subscribers_count_ g) (reliability_ g) (reliability_auto_mode_ g) n.

(** *** Events *)

(** The reliability of the group is the union of those of its events; the first
    event without a known one switches to automatic mode and ends the call. *)
Definition join_reliability (r : reliability_type_e) (group : reliability_type_e) : reliability_type_e :=
  match r with
  | RT_RELIABLE =>
      match group with RT_UNRELIABLE => RT_BOTH | RT_BOTH => RT_BOTH | _ => RT_RELIABLE end
  | RT_UNRELIABLE =>
      match group with RT_RELIABLE => RT_BOTH | RT_BOTH => RT_BOTH | _ => RT_UNRELIABLE end
  | RT_BOTH => RT_BOTH
  | RT_UNKNOWN => group
  end.

Definition add_event (ev : loc) (r : reliability_type_e) (g : info) : info :=
  let g := with_events (events_ g ∪ {[ev]}) g in
  if negb (reliability_auto_mode_ g) && bool_decide (r = RT_UNKNOWN)
  then with_reliability (reliability_ g) true g
  else with_reliability (join_reliability r (reliability_ g)) (reliability_auto_mode_ g) g.

Definition remove_event (ev : loc) (g : info) : info := with_events (events_ g ∖ {[ev]}) g.

(** *** The table of subscriptions *)

Definition next_id (id : Z) : Z :=
  let id := u16 (id + 1) in if id =? PENDING_SUBSCRIPTION_ID then 1 else id.

Definition insert_subscription (l : loc) (g : info) : Z * info :=
  let id := next_id (id_ g) in (id, with_table (<[id := l]> (subscriptions_ g)) id g).

Definition get_remote_subscription (id : Z) (g : info) : option loc := subscriptions_ g !! id.

Definition get_remote_subscriptions (g : info) : list loc :=
  by_address (list_to_set (map_to_list (subscriptions_ g)).*2).

Definition clear_remote_subscriptions (g : info) : info := with_count ∅ (with_table ∅ (id_ g) g).

(** [remote_subscribers_count_[a]++] on an 8 bit counter, and the guarded
    decrement. *)
Definition count_up (a : addr) (g : info) : info :=
  with_count (<[a := u8 (default 0 (remote_subscribers_count_ g !! a) + 1)]> (remote_subscribers_count_ g)) g.

Definition count_down (a : addr) (g : info) : info :=
  match remote_subscribers_count_ g !! a with
  | Some n => if n =? 0 then g else with_count (<[a := n - 1]> (remote_subscribers_count_ g)) g
  | None => g
  end.
End ops.
End eventgroupinfo.

(** ** The routing manager *)

Module rm.
Section rm.
Context {addr : Type} `{Countable addr}.

Record state : Type := mk {
  eps : gmap loc (endpoint_definition.t addr);
  subs : gmap loc remote_subscription.t;
  events : gmap loc event.t;
  infos : gmap loc (eventgroupinfo.t addr);
  eventgroups_ : gmap (Z * Z * Z) loc;
  remote_subscription_state_ : gset (Z * Z * Z * Z)
}.

(** What the handlers ask of others: the offering client is asked to accept or
    end subscriptions, told of expired ones; the service discovery is told that a
    subscription was updated; local clients are told that they are subscribed. *)
Inductive output : Type :=
| ask_subscribe (info : loc) (clients : gset Z) (id : Z)
| ask_unsubscribe (info : loc) (clients : gset Z) (id : Z)
| tell_expired (info : loc) (clients : gset Z) (id : Z)
| update_remote_subscription (subscription : loc)
| local_status (info : loc) (event : Z)
| local_ack (client : Z) (info : loc) (event : Z).

Definition with_eps x st := mk x (subs st) (events st) (infos st) (eventgroups_ st) (remote_subscription_state_ st).
Definition with_subs x st := mk (eps st) x (events st) (infos st) (eventgroups_ st) (remote_subscription_state_ st).
Definition with_events x st := mk (eps st) (subs st) x (infos st) (eventgroups_ st) (remote_subscription_state_ st).
Definition with_infos x st := mk (eps st) (subs st) (events st) x (eventgroups_ st) (remote_subscription_state_ st).
Definition with_remote_state x st := mk (eps st) (subs st) (events st) (infos st) (eventgroups_ st) x.

(** Dereferencing. *)
Definition deref {A} (m : gmap loc A) (l : loc) : result A :=
  match m !! l with Some x => Ok x | None => Ub null_deref end.

Definition get_sub (l : loc) (st : state) : result remote_subscription.t := deref (subs st) l.
Definition put_sub (l : loc) (s : remote_subscription.t) (st : state) : state := with_subs (<[l := s]> (subs st)) st.
Definition on_sub (l : loc) (f : remote_subscription.t → remote_subscription.t) (st : state) : result state :=
  s ← get_sub l st; Ok (put_sub l (f s) st).
Definition get_info (g : loc) (st : state) : result (eventgroupinfo.t addr) := deref (infos st) g.
Definition put_info (g : loc) (i : eventgroupinfo.t addr) (st : state) : state := with_infos (<[g := i]> (infos st)) st.

(** [std::weak_ptr::lock] *)
Definition lock {A} (m : gmap loc A) (w : option loc) : option loc :=
  match w with Some l => match m !! l with Some _ => Some l | None => None end | None => None end.

Definition get_eventgroupinfo (s : remote_subscription.t) (st : state) : option loc :=
  lock (infos st) (remote_subscription.eventgroupinfo_ s).
Definition get_parent (s : remote_subscription.t) (st : state) : option loc :=
  lock (subs st) (remote_subscription.parent_ s).

(** *** Comparing subscriptions *)

Definition same_if_both (a b : option loc) : bool :=
  match a, b with Some x, Some y => bool_decide (x = y) | _, _ => true end.

Definition equals (s o : remote_subscription.t) (st : state) : bool :=
  match get_eventgroupinfo s st, get_eventgroupinfo o st with
  | Some g, Some g' =>
      bool_decide (g = g')
      && same_if_both (remote_subscription.unreliable_ s) (remote_subscription.unreliable_ o)
      && same_if_both (remote_subscription.reliable_ s) (remote_subscription.reliable_ o)
  | _, _ => false
  end.

Definition same_address (a b : option loc) (st : state) : result bool :=
  match a, b with
  | Some x, Some y =>
      d ← deref (eps st) x; d' ← deref (eps st) y;
      Ok (bool_decide (endpoint_definition.address_ d = endpoint_definition.address_ d'))
  | _, _ => Ok false
  end.

Definition address_equals (s o : remote_subscription.t) (st : state) : result bool :=
  r ← same_address (remote_subscription.reliable_ s) (remote_subscription.reliable_ o) st;
  u ← same_address (remote_subscription.unreliable_ s) (remote_subscription.unreliable_ o) st;
  Ok (r || u).

Definition get_ip_address (s : remote_subscription.t) (st : state) : result (option addr) :=
  match remote_subscription.reliable_ s with
  | Some x => d ← deref (eps st) x; Ok (Some (endpoint_definition.address_ d))
  | None =>
      match remote_subscription.unreliable_ s with
      | Some x => d ← deref (eps st) x; Ok (Some (endpoint_definition.address_ d))
      | None => Ok None
      end
  end.

(** *** Operations of [eventgroupinfo] that look at its subscriptions or events *)

Definition get_unreliable_target_count (i : eventgroupinfo.t addr) (st : state) : result Z :=
  foldM (λ l n,
    s ← get_sub l st;
    Ok (if bool_decide (get_parent s st = None) && bool_decide (is_Some (remote_subscription.unreliable_ s))
        then u32 (n + 1) else n)) (sorted (eventgroupinfo.subscriptions_ i)).*2 0.

Definition is_sending_multicast (is_multicast : addr → bool) (i : eventgroupinfo.t addr) (st : state)
    : result bool :=
  if from_option is_multicast false (eventgroupinfo.address_ i)
     && negb (eventgroupinfo.threshold_ i =? 0)
  then n ← get_unreliable_target_count i st; Ok (eventgroupinfo.threshold_ i <=? n)
  else Ok false.

Definition get_unicast_targets (i : eventgroupinfo.t addr) (st : state) : result (gset loc) :=
  foldM (λ l acc,
    s ← get_sub l st;
    Ok (acc ∪ list_to_set (option_list (remote_subscription.reliable_ s))
            ∪ list_to_set (option_list (remote_subscription.unreliable_ s))))
    (sorted (eventgroupinfo.subscriptions_ i)).*2 ∅.

Definition is_selective (i : eventgroupinfo.t addr) (st : state) : result bool :=
  match elements (eventgroupinfo.events_ i) with
  | [ev] => e ← deref (events st) ev; Ok (bool_decide (event.type_ e = ET_SELECTIVE_EVENT))
  | _ => Ok false
  end.

(** The subscription in the table, in the order of the identifiers, that equals
    the given one. *)
Fixpoint find_equal (o : remote_subscription.t) (l : list loc) (st : state) : result (option loc) :=
  match l with
  | [] => Ok None
  | it :: l =>
      s ← get_sub it st;
      if equals s o st then Ok (Some it) else find_equal o l st
  end.

(** The acknowledgement states are copied; a client the existing subscription
    does not know (it is being unsubscribed) is subscribed again. *)
Definition copy_state (now : Z) (it l : loc) (is_subscribe : bool) (c : Z) (a : gset Z * state)
    : result (gset Z * state) :=
  let '(changed, st) := a in
  s ← get_sub it st;
  let its_state := remote_subscription.get_client_state c s in
  let again := is_subscribe && bool_decide (its_state = SUBSCRIPTION_UNKNOWN) in
  st ← on_sub l (remote_subscription.set_client_state now c
                   (if again then SUBSCRIPTION_PENDING else its_state)) st;
  Ok (if again then changed ∪ {[c]} else changed, st).

Definition remove_pending (target : loc) (ev : loc) (st : state) : result state :=
  e ← deref (events st) ev;
  Ok (with_events (<[ev := event.remove_pending target e]> (events st)) st).

(** [eventgroupinfo::update_remote_subscription].  First the existing
    subscription [it] takes the clients of the new one [l] over or loses them, and
    their states are copied back. *)
Definition merge (now : Z) (it l : loc) (expiration : Z) (is_subscribe : bool) (st : state)
    : result (gset Z * Z * state) :=
  o ← get_sub l st;
  s ← get_sub it st;
  let '(changed, s) := remote_subscription.update (remote_subscription.get_clients o) expiration is_subscribe s in
  let st := put_sub it s st in
  o ← get_sub l st;
  '(changed, st) ← foldM (copy_state now it l is_subscribe) (in_order (remote_subscription.get_clients o)) (changed, st);
  Ok (changed, remote_subscription.id_ s, st).

(** Then, for new clients, [l] is filed as a child of [it]; without new clients it
    is answered with it. *)
Definition join (g it l : loc) (changed : gset Z) (st : state) : result state :=
  o ← get_sub l st;
  if bool_decide (changed ≠ ∅) then
    i ← get_info g st;
    let '(new_id, i) := eventgroupinfo.insert_subscription l i in
    st ← on_sub l (λ o, remote_subscription.set_id new_id (remote_subscription.set_parent (Some it) o)) st;
    Ok (put_info g i st)
  else if negb (remote_subscription.is_pending o) then
    if negb (remote_subscription.force_initial_events_ o)
    then on_sub l (remote_subscription.set_initial false) st else Ok st
  else
    st ← on_sub it (λ s, remote_subscription.set_answers (u32 (remote_subscription.answers_ s + 1)) s) st;
    on_sub l (λ o, remote_subscription.set_answers 0 (remote_subscription.set_parent (Some it) o)) st.

(** Or, when the end of a subscription meets one that is not yet answered, its
    subscriber is no longer owed initial events. *)
Definition leave (g it : loc) (st : state) : result state :=
  i ← get_info g st;
  s ← get_sub it st;
  match (if remote_subscription.is_pending s then remote_subscription.subscriber_ s else None) with
  | Some its_subscriber => foldM (remove_pending its_subscriber) (by_address (eventgroupinfo.events_ i)) st
  | None => Ok st
  end.

(** [changed] and [id] are the arguments passed by reference. *)
Definition update_subscription (now : Z) (g l : loc) (expiration : Z) (changed : gset Z) (id : Z)
    (is_subscribe : bool) (st : state) : result (bool * gset Z * Z * state) :=
  i ← get_info g st;
  o ← get_sub l st;
  found ← find_equal o (sorted (eventgroupinfo.subscriptions_ i)).*2 st;
  match found with
  | None => Ok (false, changed, id, st)
  | Some it =>
      '(changed, id, st) ← merge now it l expiration is_subscribe st;
      st ← (if is_subscribe then join g it l changed st else leave g it st);
      Ok (true, changed, id, st)
  end.

Definition is_remote_subscription_limit_reached (g l : loc) (st : state) : result bool :=
  i ← get_info g st;
  if Z.of_nat (size (eventgroupinfo.subscriptions_ i)) <=? eventgroupinfo.max_remote_subscribers_ i
  then Ok false
  else
    s ← get_sub l st;
    a ← get_ip_address s st;
    Ok (match a ≫= λ a, eventgroupinfo.remote_subscribers_count_ i !! a with
        | Some n => eventgroupinfo.max_remote_subscribers_ i <=? n
        | None => false
        end).

Definition add_remote_subscription (g l : loc) (st : state) : result (Z * state) :=
  i ← get_info g st;
  let '(id, i) := eventgroupinfo.insert_subscription l i in
  st ← on_sub l (remote_subscription.set_id id) st;
  s ← get_sub l st;
  a ← get_ip_address s st;
  Ok (id, put_info g (match a with Some a => eventgroupinfo.count_up a i | None => i end) st).

Definition remove_remote_subscription (g : loc) (id : Z) (st : state) : result state :=
  i ← get_info g st;
  i ← match eventgroupinfo.subscriptions_ i !! id with
      | Some l =>
          s ← get_sub l st;
          a ← get_ip_address s st;
          Ok (match a with Some a => eventgroupinfo.count_down a i | None => i end)
      | None => Ok i
      end;
  Ok (put_info g (eventgroupinfo.with_table (delete id (eventgroupinfo.subscriptions_ i)) (eventgroupinfo.id_ i) i) st).

(** Which events are sent to a new subscriber over which endpoint.  With the
    build option [VSOMEIP_ENABLE_COMPAT] an event of unknown reliability takes
    that of the endpoints of the subscriber. *)
Definition effective_reliability (compat : bool) (reliable unreliable : option loc)
    (r : reliability_type_e) : reliability_type_e :=
  match r, compat, reliable, unreliable with
  | RT_UNKNOWN, true, Some _, Some _ => RT_BOTH
  | RT_UNKNOWN, true, Some _, None => RT_RELIABLE
  | RT_UNKNOWN, true, None, Some _ => RT_UNRELIABLE
  | _, _, _, _ => r
  end.

Definition initial_events (compat : bool) (reliable unreliable : option loc) (i : eventgroupinfo.t addr)
    (st : state) : result (list loc * list loc) :=
  foldM (λ ev '(rel, unrel),
    e ← deref (events st) ev;
    if event.is_field e then
      Ok (match effective_reliability compat reliable unreliable (event.reliability_ e) with
          | RT_RELIABLE => (rel ++ [ev], unrel)
          | RT_UNRELIABLE => (rel, unrel ++ [ev])
          | RT_BOTH => (rel ++ [ev], unrel ++ [ev])
          | RT_UNKNOWN => (rel, unrel)
          end)
    else Ok (rel, unrel)) (by_address (eventgroupinfo.events_ i)) ([], []).

Definition notify_all (target : option loc) (evs : list loc) (a : state * router) : result (state * router) :=
  match target with
  | None => Ok a
  | Some _ =>
      foldM (λ ev '(st, r),
        e ← deref (events st) ev;
        let '(e, r) := event.notify_one_target VSOMEIP_ROUTING_CLIENT target e r in
        Ok (with_events (<[ev := e]> (events st)) st, r)) evs a
  end.

Definition send_initial_events (compat : bool) (g : loc) (reliable unreliable : option loc) (st : state) (r : router)
    : result (state * router) :=
  i ← get_info g st;
  '(rel, unrel) ← initial_events compat reliable unreliable i st;
  a ← notify_all reliable rel (st, r);
  notify_all unreliable unrel a.

(** *** Handlers

    [now] is the clock at the call; where the code reads it several times in one
    handler the same value is used.  The outputs are in the order of the calls. *)

(** What the handlers ask of the configuration and of the table of services. *)
Record environment : Type := mk_environment {
  get_reliable_port : Z → Z → Z;
  get_unreliable_port : Z → Z → Z;
  get_multicast : Z → Z → Z → option (addr * Z);
  get_threshold : Z → Z → Z → Z;
  find_service : Z → Z → option (Z * Z);
  get_client : Z
}.

Context (env : environment).

(** [find_eventgroup] also refreshes the eventgroup with the values of its
    service. *)
Definition find_eventgroup (service instance eventgroup : Z) (st : state) : result (option loc * state) :=
  match eventgroups_ st !! (service, instance, eventgroup) with
  | None => Ok (None, st)
  | Some g =>
      i ← get_info g st;
      match find_service env service instance with
      | None => Ok (Some g, st)
      | Some (major, ttl) =>
          let i := match get_multicast env service instance eventgroup with
                   | Some (a, port) => eventgroupinfo.set_multicast (Some a) port i
                   | None => i
                   end in
          let i := eventgroupinfo.set_service_values major ttl (get_threshold env service instance eventgroup) i in
          Ok (Some g, put_info g i st)
      end
  end.

Definition set_port (port : Z) (ep : option loc) (st : state) : result state :=
  match ep with
  | None => Ok st
  | Some x => d ← deref (eps st) x; Ok (with_eps (<[x := endpoint_definition.set_remote_port port d]> (eps st)) st)
  end.

Definition set_remote_ports (s : remote_subscription.t) (i : eventgroupinfo.t addr) (st : state) : result state :=
  let service := eventgroupinfo.service_ i in let instance := eventgroupinfo.instance_ i in
  st ← set_port (get_reliable_port env service instance) (remote_subscription.reliable_ s) st;
  set_port (get_unreliable_port env service instance) (remote_subscription.unreliable_ s) st.

Definition on_remote_subscribe (now : Z) (l : loc) (st : state) : result (list output * state) :=
  s ← get_sub l st;
  match get_eventgroupinfo s st with
  | None => Ok ([], st)
  | Some g =>
      i ← get_info g st;
      st ← set_remote_ports s i st;
      let its_expiration := now + remote_subscription.ttl_ s * 1000000000 in
      if remote_subscription.is_expired s then Ok ([], st)
      else
        st ← on_sub l remote_subscription.set_forwarded st;
        '(its_result, its_added, _, st) ← update_subscription now g l its_expiration ∅ 0 true st;
        s ← get_sub l st;
        if (its_result : bool) then
          let out :=
            if negb (remote_subscription.is_pending s) then [update_remote_subscription l]
            else if bool_decide (its_added ≠ ∅) then [ask_subscribe g its_added (remote_subscription.id_ s)]
            else [update_remote_subscription l] in
          st ← on_sub l remote_subscription.clear_destiny st; Ok (out, st)
        else
          limit ← is_remote_subscription_limit_reached g l st;
          if (limit : bool) then
            st ← on_sub l (remote_subscription.set_all_client_states SUBSCRIPTION_NACKED) st;
            st ← on_sub l remote_subscription.clear_destiny st;
            Ok ([update_remote_subscription l], st)
          else
            '(its_id, st) ← add_remote_subscription g l st;
            s ← get_sub l st;
            st ← on_sub l remote_subscription.clear_destiny st;
            Ok ([ask_subscribe g (remote_subscription.get_clients s) its_id], st)
  end.

Definition on_remote_unsubscribe (now : Z) (l : loc) (st : state) : result (list output * state) :=
  s ← get_sub l st;
  match get_eventgroupinfo s st with
  | None => Ok ([], st)
  | Some g =>
      i ← get_info g st;
      st ← set_remote_ports s i st;
      '(its_result, its_removed, its_id, st) ← update_subscription now g l now ∅ 0 false st;
      Ok (if (its_result : bool) then [ask_unsubscribe g its_removed its_id] else [], st)
  end.

(** An answer for a subscription is applied to its parent too, and a child that
    is answered completely leaves the table. *)
Definition answer (state : remote_subscription_state_e) (now : Z) (client : Z) (g : loc) (id : Z) (l : loc)
    (st : rm.state) : result rm.state :=
  st ← on_sub l (remote_subscription.set_client_state now client state) st;
  s ← get_sub l st;
  match get_parent s st with
  | None => Ok st
  | Some p =>
      st ← on_sub p (remote_subscription.set_client_state now client state) st;
      s ← get_sub l st;
      if remote_subscription.is_pending s then Ok st else remove_remote_subscription g id st
  end.

(** The log entry dereferences the subscriber. *)
Definition log_subscriber (s : remote_subscription.t) (st : state) : result unit :=
  match remote_subscription.subscriber_ s with
  | Some x => _ ← deref (eps st) x; Ok tt
  | None => Ub null_deref
  end.

Definition subscribers_of (i : eventgroupinfo.t addr) (event_id : Z) (st : state) : result (gset Z) :=
  foldM (λ ev acc,
    e ← deref (events st) ev;
    Ok (if (event_id =? ANY_EVENT) || (event_id =? event.get_event e)
        then acc ∪ event.get_subscribers e else acc)) (by_address (eventgroupinfo.events_ i)) ∅.

(** A local client is told of the acknowledgement of its eventgroup. *)
Definition notify_local (g : loc) (i : eventgroupinfo.t addr) (event_id : Z) (st : state) (c : Z)
    (out : list output) : result (list output) :=
  if c =? get_client env then
    if event_id =? ANY_EVENT then
      foldM (λ ev out, e ← deref (events st) ev; Ok (out ++ [local_status g (event.get_event e)]))
        (by_address (eventgroupinfo.events_ i)) out
    else Ok (out ++ [local_status g event_id])
  else Ok (out ++ [local_ack c g event_id]).

(** With service discovery. *)
Definition on_subscribe_ack (now : Z) (client service instance eventgroup event_id id : Z) (st : state)
    : result (list output * state) :=
  '(found, st) ← find_eventgroup service instance eventgroup st;
  match found with
  | None => Ok ([], st)
  | Some g =>
      i ← get_info g st;
      match eventgroupinfo.get_remote_subscription id i with
      | Some l =>
          st ← answer SUBSCRIPTION_ACKED now client g id l st;
          s ← get_sub l st;
          _ ← log_subscriber s st;
          Ok ([update_remote_subscription l], st)
      | None =>
          let k := (service, instance, eventgroup, client) in
          if decide (k ∈ remote_subscription_state_ st) then Ok ([], st)
          else
            let st := with_remote_state (remote_subscription_state_ st ∪ {[k]}) st in
            subscribed_clients ←
              (if client =? VSOMEIP_ROUTING_CLIENT then subscribers_of i event_id st else Ok {[client]});
            out ← foldM (notify_local g i event_id st) (in_order subscribed_clients) [];
            Ok (out, st)
      end
  end.

Definition on_subscribe_nack (now : Z) (client service instance eventgroup : Z) (remove : bool) (id : Z)
    (st : state) : result (list output * state) :=
  '(found, st) ← find_eventgroup service instance eventgroup st;
  match found with
  | None => Ok ([], st)
  | Some g =>
      i ← get_info g st;
      match eventgroupinfo.get_remote_subscription id i with
      | None => Ok ([], st)
      | Some l =>
          st ← answer SUBSCRIPTION_NACKED now client g id l st;
          s ← get_sub l st;
          _ ← log_subscriber s st;
          st ← (if remove then remove_remote_subscription g id st else Ok st);
          Ok ([update_remote_subscription l], st)
      end
  end.

(** When the last remote subscription of an eventgroup is gone, the values of its
    shadow events that no other eventgroup needs are dropped. *)
Definition has_remote_subscriber (service instance : Z) (e : event.t) (st : state) : result (bool * state) :=
  foldM (λ eg '(b, st),
    '(found, st) ← find_eventgroup service instance eg st;
    match found with
    | None => Ok (b, st)
    | Some g => i ← get_info g st;
                Ok (b || bool_decide (0 < size (eventgroupinfo.subscriptions_ i))%nat, st)
    end) (in_order (event.get_eventgroups e)) (false, st).

Definition unset_event (service instance : Z) (ev : loc) (st : state) : result state :=
  e ← deref (events st) ev;
  '(b, st) ← has_remote_subscriber service instance e st;
  if negb b && event.is_shadow_ e
  then Ok (with_events (<[ev := event.unset_payload false e]> (events st)) st) else Ok st.

Definition unset_events (service instance : Z) (g : loc) (st : state) : result state :=
  i ← get_info g st;
  if decide (eventgroupinfo.subscriptions_ i = ∅)
  then foldM (unset_event service instance) (by_address (eventgroupinfo.events_ i)) st
  else Ok st.

Definition on_unsubscribe_ack (service instance eventgroup id : Z) (st : state) : result (list output * state) :=
  '(found, st) ← find_eventgroup service instance eventgroup st;
  match found with
  | None => Ok ([], st)
  | Some g =>
      i ← get_info g st;
      match eventgroupinfo.get_remote_subscription id i with
      | None => Ok ([], st)
      | Some _ =>
          st ← remove_remote_subscription g id st;
          st ← unset_events service instance g st;
          Ok ([], st)
      end
  end.

(** *** Expiry *)

(** The expired clients of one subscription, and the next expiration. *)
Definition expired_clients (force : bool) (now : Z) (s : remote_subscription.t) (next : Z) : gset Z * Z :=
  foldl (λ '(acc, next) c,
    if force then (acc ∪ {[c]}, next)
    else
      let its_expiration := remote_subscription.get_expiration now c s in
      if its_expiration =? 0 then (acc, next)
      else if its_expiration <? now then (acc ∪ {[c]}, next)
      else if its_expiration <? next then (acc, its_expiration)
      else (acc, next)) (∅, next) (in_order (remote_subscription.get_clients s)).

Definition collect_expired (force : bool) (now : Z) (st : state) : result (list (loc * gset Z) * Z) :=
  foldM (λ l '(acc, next),
    s ← get_sub l st;
    if remote_subscription.is_forwarded s then Ok (acc, next)
    else
      let '(cs, next) := expired_clients force now s next in
      Ok (if decide (cs = ∅) then acc else acc ++ [(l, cs)], next))
    (by_address (list_to_set
       (mjoin ((λ i, (map_to_list (eventgroupinfo.subscriptions_ i)).*2) <$>
               omap (λ g, infos st !! g) (map_to_list (eventgroups_ st)).*2))))
    ([], now + 24 * 3600 * 1000000000).

Definition expire_one (now : Z) (x : loc * gset Z) (a : list output * state) : result (list output * state) :=
  let '(l, cs) := x in let '(out, st) := a in
  st ← on_sub l remote_subscription.set_expired st;
  s ← get_sub l st;
  match get_eventgroupinfo s st with
  | None => Ok (out, st)
  | Some g =>
      i ← get_info g st;
      let service := eventgroupinfo.service_ i in let instance := eventgroupinfo.instance_ i in
      '(its_result, cs, its_id, st) ← update_subscription now g l now cs 0 false st;
      if (its_result : bool) then
        i ← get_info g st;
        st ← match eventgroupinfo.get_remote_subscription its_id i with
             | Some _ => st ← remove_remote_subscription g its_id st; unset_events service instance g st
             | None => Ok st
             end;
        s ← get_sub l st;
        Ok (out ++ [tell_expired g cs (remote_subscription.id_ s)], st)
      else Ok (out, st)
  end.

Definition expire_subscriptions (force : bool) (now : Z) (st : state) : result (Z * list output * state) :=
  '(l, next) ← collect_expired force now st;
  '(out, st) ← foldM (expire_one now) l ([], st);
  Ok (next, out, st).

(** The endpoint by which a subscription of an address is recognised. *)
Definition expiring_endpoint (expire_all reliable : bool) (s : remote_subscription.t) : option loc :=
  let first := if reliable then remote_subscription.reliable_ s else remote_subscription.unreliable_ s in
  let other := if reliable then remote_subscription.unreliable_ s else remote_subscription.reliable_ s in
  match first with Some x => Some x | None => if expire_all then other else None end.

Definition expire_of_address (a : addr) (lo hi : Z) (reliable : bool) (now : Z) (l : loc)
    (x : list output * state) : result (list output * state) :=
  let '(out, st) := x in
  let expire_all := (lo =? ANY_PORT) && (hi =? ANY_PORT) in
  s ← get_sub l st;
  if remote_subscription.is_forwarded s then Ok (out, st)
  else
    match expiring_endpoint expire_all reliable s with
    | None => Ok (out, st)
    | Some x =>
        d ← deref (eps st) x;
        if bool_decide (endpoint_definition.address_ d = a)
           && (expire_all || ((lo <=? endpoint_definition.remote_port_ d) && (endpoint_definition.remote_port_ d <=? hi)))
        then
          st ← on_sub l remote_subscription.set_expired st;
          '(o, st) ← on_remote_unsubscribe now l st;
          Ok (out ++ o, st)
        else Ok (out, st)
    end.

Definition expire_subscriptions_of (a : addr) (lo hi : Z) (reliable : bool) (now : Z) (st : state)
    : result (list output * state) :=
  foldM (λ g x,
    i ← get_info g x.2;
    foldM (expire_of_address a lo hi reliable now) (eventgroupinfo.get_remote_subscriptions i) x)
    (map_to_list (eventgroups_ st)).*2 ([], st).

(** *** Arrival of a subscription

    The last part of [service_discovery_impl::handle_eventgroup_subscription]: the
    object is created at a new location [l] and handed to the routing manager.
    The bookkeeping of the pending answer is the service discovery's. *)
Definition make_subscription (g : loc) (subscriber reliable unreliable : option loc) (clients : list Z)
    (ttl : Z) (force_initial_events : bool) : remote_subscription.t :=
  let s := remote_subscription.reset clients
    (remote_subscription.set_unreliable unreliable (remote_subscription.set_reliable reliable
      (remote_subscription.set_subscriber subscriber
        (remote_subscription.set_eventgroupinfo (Some g) remote_subscription.create)))) in
  remote_subscription.set_ttl ttl
    (if force_initial_events then remote_subscription.set_force_initial_events true s else s).

(** [factor] is the factor of the configuration ([get_ttl_factor]); the lifetime
    is a 32-bit product. *)
Definition handle_subscription (now : Z) (l g : loc) (subscriber reliable unreliable : option loc)
    (clients : list Z) (ttl factor : Z) (force_initial_events is_stop_subscribe_subscribe : bool) (st : state)
    : result (list output * state) :=
  match subscriber with
  | None => Ok ([], st)
  | Some _ =>
      if ttl =? 0 then
        let st := put_sub l (make_subscription g subscriber reliable unreliable clients 0 false) st in
        if is_stop_subscribe_subscribe then Ok ([], st) else on_remote_unsubscribe now l st
      else
        let st := put_sub l (make_subscription g subscriber reliable unreliable clients
                               (u32 (ttl * factor)) force_initial_events) st in
        on_remote_subscribe now l st
  end.
End rm.
End rm.
