(* ===== verification/SubscriptionFacts.v ===== *)
(** * Remote subscriptions: definedness and acknowledgements

    An invariant of the stores of [Subscription] that every handler keeps, on
    which no handler dereferences a missing object, and in which a client is
    acknowledged only after the offering client accepted it. *)

From stdpp Require Import base list gmap sorting relations.
From Stdlib Require Import ZArith Lia.
From S2P Require Import Prelude Maps Message Protocol Event Subscription.

#[local] Set Warnings "-clear-no-such-hyp".

(** ** Clients of a subscription *)

Lemma foldl_insert_lookup {A} (v : A) l : ∀ (m : gmap Z A) k,
  foldl (λ m c, <[c := v]> m) m l !! k = if decide (k ∈ l) then Some v else m !! k.
Proof.
  induction l as [|x l IH]; intros m k; cbn [foldl].
  { rewrite decide_False; [done|apply not_elem_of_nil]. }
  rewrite IH. destruct (decide (x = k)) as [<-|].
  - rewrite lookup_insert_eq, (decide_True (P := x ∈ x :: l)) by (apply elem_of_cons; by left). by case_decide.
  - rewrite lookup_insert_ne by done. do 2 case_decide; try done; exfalso;
      repeat match goal with H : context [_ ∈ _ :: _] |- _ => rewrite elem_of_cons in H end; naive_solver.
Qed.

Lemma foldl_delete_lookup {A} l : ∀ (m : gmap Z A) k,
  foldl (λ m c, delete c m) m l !! k = if decide (k ∈ l) then None else m !! k.
Proof.
  induction l as [|x l IH]; intros m k; cbn [foldl].
  { rewrite decide_False; [done|apply not_elem_of_nil]. }
  rewrite IH. destruct (decide (x = k)) as [<-|].
  - rewrite lookup_delete_eq, (decide_True (P := x ∈ x :: l)) by (apply elem_of_cons; by left). by case_decide.
  - rewrite lookup_delete_ne by done. do 2 case_decide; try done; exfalso;
      repeat match goal with H : context [_ ∈ _ :: _] |- _ => rewrite elem_of_cons in H end; naive_solver.
Qed.

Abbreviation clients s := (remote_subscription.clients_ s).

Lemma update_clients cs t b s c :
  clients (remote_subscription.update cs t b s).2 !! c
  = if decide (c ∈ cs) then
      if b then Some (default SUBSCRIPTION_PENDING (fst <$> clients s !! c), t) else None
    else clients s !! c.
Proof.
  unfold remote_subscription.update. destruct b; cbn [snd fst remote_subscription.clients_ remote_subscription.with_clients].
  - rewrite foldl_insert_lookup, map_lookup_imap.
    destruct (clients s !! c) as [[x u]|] eqn:E; cbn.
    + rewrite decide_False; [by case_decide|]. rewrite elem_of_in_order, elem_of_difference, elem_of_dom, E. naive_solver.
    + destruct (decide (c ∈ cs)) as [Hc|Hc].
      * rewrite decide_True; [done|]. rewrite elem_of_in_order, elem_of_difference, elem_of_dom, E. split; [done|]. by intros [].
      * rewrite decide_False; [done|]. rewrite elem_of_in_order. set_solver.
  - rewrite foldl_delete_lookup. destruct (decide (c ∈ cs)) as [Hc|Hc].
    + destruct (clients s !! c) as [x|] eqn:E; [rewrite decide_True; [done|]|by case_decide].
      rewrite elem_of_in_order, elem_of_intersection, elem_of_dom, E. by split.
    + rewrite decide_False; [done|]. rewrite elem_of_in_order. set_solver.
Qed.

Lemma update_changed cs t b s :
  (remote_subscription.update cs t b s).1 = if b then cs ∖ dom (clients s) else cs ∩ dom (clients s).
Proof. by destruct b. Qed.

Lemma set_client_state_clients now c x s k :
  clients (remote_subscription.set_client_state now c x s) !! k
  = if decide (k = c) then
      (λ y : remote_subscription_state_e * Z,
         (x, if (y.2 =? 0) && bool_decide (x = SUBSCRIPTION_ACKED ∨ x = SUBSCRIPTION_NACKED)
             then now + remote_subscription.ttl_ s * 1000000000 else y.2)) <$> clients s !! c
    else clients s !! k.
Proof.
  unfold remote_subscription.set_client_state. destruct (clients s !! c) as [[y u]|] eqn:E; cbn.
  - destruct (decide (k = c)) as [->|]; [by rewrite lookup_insert_eq|by rewrite lookup_insert_ne].
  - case_decide; [by subst|done].
Qed.

Lemma set_all_clients x s k :
  clients (remote_subscription.set_all_client_states x s) !! k = (λ y, (x, y.2)) <$> clients s !! k.
Proof. cbn. by rewrite lookup_fmap. Qed.

Lemma is_pending_spec s :
  remote_subscription.is_pending s = true ↔ ∃ c t, clients s !! c = Some (SUBSCRIPTION_PENDING, t).
Proof.
  unfold remote_subscription.is_pending. rewrite <- Is_true_true, existb_True, list.Exists_exists. split.
  - intros ([c [x t]] & Hin & Hx). apply elem_of_map_to_list in Hin. cbn in Hx.
    apply bool_decide_spec in Hx as ->. by exists c, t.
  - intros (c & t & Hc). exists (c, (SUBSCRIPTION_PENDING, t)). split; [by apply elem_of_map_to_list|].
    by apply bool_decide_spec.
Qed.

(** An operation on the clients, the answers or the destiny leaves what the
    invariant fixes. *)
Definition core (s : remote_subscription.t) :=
  (remote_subscription.eventgroupinfo_ s, remote_subscription.subscriber_ s,
   remote_subscription.reliable_ s, remote_subscription.unreliable_ s).

Definition rest (s : remote_subscription.t) := (remote_subscription.id_ s, remote_subscription.parent_ s, core s).

Lemma set_client_state_rest now c x s : rest (remote_subscription.set_client_state now c x s) = rest s.
Proof. unfold remote_subscription.set_client_state. by destruct (clients s !! c) as [[]|]. Qed.

Lemma update_rest cs t b s : rest (remote_subscription.update cs t b s).2 = rest s.
Proof. by destruct b. Qed.

(** ** The invariant *)

Section wf.
Context {addr : Type} `{Countable addr}.
Abbreviation state := (rm.state (addr := addr)).
Abbreviation info := (eventgroupinfo.t addr).

(** What happened so far: with which endpoints a subscription of an eventgroup
    arrived ([None]), and for which of them the offering client accepted a
    client. *)
Definition accepted_t : Type := gset (loc * option loc * option loc * option Z).

(** Endpoints that [remote_subscription::operator==] takes for the same. *)
Definition alike (r u r' u' : option loc) : Prop :=
  rm.same_if_both r r' = true ∧ rm.same_if_both u u' = true.

(** A client may be acknowledged for a subscription with these endpoints: it was
    accepted for them, or for those of a subscription that is taken for the
    same. *)
Inductive entitled (A : accepted_t) (g : loc) (c : Z) : option loc → option loc → Prop :=
| entitled_accepted r u : (g, r, u, None) ∈ A → (g, r, u, Some c) ∈ A → entitled A g c r u
| entitled_alike r u r' u' :
    entitled A g c r u → (g, r', u', None) ∈ A → alike r u r' u' → entitled A g c r' u'.

Lemma same_if_both_sym a b : rm.same_if_both a b = rm.same_if_both b a.
Proof.
  destruct a as [x|], b as [y|]; try done. cbn. apply bool_decide_ext. split; congruence.
Qed.

Lemma alike_sym r u r' u' : alike r u r' u' → alike r' u' r u.
Proof. intros [H1 H2]. split; by rewrite same_if_both_sym. Qed.

Lemma entitled_mono A A' g c r u : A ⊆ A' → entitled A g c r u → entitled A' g c r u.
Proof. intros HA. induction 1; [eapply entitled_accepted|eapply entitled_alike]; eauto. Qed.

(** Where all subscriptions of the eventgroup have an unreliable endpoint (or
    all a reliable one), it is this endpoint that was accepted. *)
Lemma entitled_unreliable A g c r u :
  (∀ r u, (g, r, u, None) ∈ A → is_Some u) → entitled A g c r u → ∃ r0, (g, r0, u, Some c) ∈ A.
Proof.
  intros Hu. induction 1 as [r u Hm Ha|r u r' u' He IH Hm [_ Hal]]; [by exists r|].
  assert (is_Some u) as [x ->] by (destruct He; eauto). destruct (Hu _ _ Hm) as [y ->].
  cbn in Hal. by apply bool_decide_eq_true in Hal as ->.
Qed.

Lemma entitled_reliable A g c r u :
  (∀ r u, (g, r, u, None) ∈ A → is_Some r) → entitled A g c r u → ∃ u0, (g, r, u0, Some c) ∈ A.
Proof.
  intros Hr. induction 1 as [r u Hm Ha|r u r' u' He IH Hm [Hal _]]; [by exists u|].
  assert (is_Some r) as [x ->] by (destruct He; eauto). destruct (Hr _ _ Hm) as [y ->].
  cbn in Hal. by apply bool_decide_eq_true in Hal as ->.
Qed.

Definition endpoints (s : remote_subscription.t) : list loc :=
  option_list (remote_subscription.subscriber_ s) ++ option_list (remote_subscription.reliable_ s)
  ++ option_list (remote_subscription.unreliable_ s).

Definition entitled_sub (A : accepted_t) (c : Z) (s : remote_subscription.t) : Prop :=
  ∃ g, remote_subscription.eventgroupinfo_ s = Some g
  ∧ entitled A g c (remote_subscription.reliable_ s) (remote_subscription.unreliable_ s).

Definition acked_ok (A : accepted_t) (s : remote_subscription.t) : Prop :=
  ∀ c t, clients s !! c = Some (SUBSCRIPTION_ACKED, t) → entitled_sub A c s.

Definition made_ok (A : accepted_t) (s : remote_subscription.t) : Prop :=
  ∀ g, remote_subscription.eventgroupinfo_ s = Some g →
  (g, remote_subscription.reliable_ s, remote_subscription.unreliable_ s, None) ∈ A.

(** Subscriptions that are taken for the same. *)
Definition kin (s s' : remote_subscription.t) : Prop :=
  remote_subscription.eventgroupinfo_ s = remote_subscription.eventgroupinfo_ s'
  ∧ alike (remote_subscription.reliable_ s) (remote_subscription.unreliable_ s)
          (remote_subscription.reliable_ s') (remote_subscription.unreliable_ s').

Lemma kin_sym s s' : kin s s' → kin s' s.
Proof. intros [H1 H2]. split; [done|by apply alike_sym]. Qed.

Lemma kin_core s1 s2 s1' s2' : core s1' = core s1 → core s2' = core s2 → kin s1 s2 → kin s1' s2'.
Proof. intros [= H1 _ H2 H3] [= J1 _ J2 J3]. unfold kin. by rewrite H1, H2, H3, J1, J2, J3. Qed.

Lemma entitled_core A c s s' : core s' = core s → entitled_sub A c s → entitled_sub A c s'.
Proof. intros [= H1 _ H2 H3]. unfold entitled_sub. by rewrite H1, H2, H3. Qed.

Lemma made_core A s s' : core s' = core s → made_ok A s → made_ok A s'.
Proof. intros [= H1 _ H2 H3]. unfold made_ok. by rewrite H1, H2, H3. Qed.

Lemma entitled_kin A c s s' : kin s s' → made_ok A s' → entitled_sub A c s → entitled_sub A c s'.
Proof.
  intros [Hg Ha] Hm (g & Hs & He). rewrite Hg in Hs. exists g. split; [done|].
  eapply entitled_alike; [exact He|by apply Hm|done].
Qed.

Record sub_wf (A : accepted_t) (st : state) (s : remote_subscription.t) : Prop := {
  sub_endpoints : ∀ x, x ∈ endpoints s → is_Some (rm.eps st !! x);
  sub_subscriber : is_Some (remote_subscription.subscriber_ s);
  sub_parent : ∀ p s', remote_subscription.parent_ s = Some p → rm.subs st !! p = Some s' → kin s' s;
  sub_acked : acked_ok A s;
  sub_made : made_ok A s
}.

(** An entry of a table: a subscription of this eventgroup that has the
    identifier it is filed under. *)
Definition filed (st : state) (g : loc) (id : Z) (l : loc) : Prop :=
  1 ≤ id < 65536 ∧ ∃ s, rm.subs st !! l = Some s ∧ remote_subscription.id_ s = id
                        ∧ remote_subscription.eventgroupinfo_ s = Some g.

Record info_wf (st : state) (g : loc) (i : info) : Prop := {
  info_filed : ∀ id l, eventgroupinfo.subscriptions_ i !! id = Some l → filed st g id l;
  info_events : ∀ ev, ev ∈ eventgroupinfo.events_ i → is_Some (rm.events st !! ev)
}.

Record wf (A : accepted_t) (st : state) : Prop := {
  wf_sub : ∀ l s, rm.subs st !! l = Some s → sub_wf A st s;
  wf_info : ∀ g i, rm.infos st !! g = Some i → info_wf st g i;
  wf_groups : ∀ k g, rm.eventgroups_ st !! k = Some g → is_Some (rm.infos st !! g)
}.

(** Changes that keep every object and what the invariant fixes of it. *)
Record frame (st st' : state) : Prop := {
  frame_eps : ∀ x, is_Some (rm.eps st !! x) → is_Some (rm.eps st' !! x);
  frame_subs : ∀ l, core <$> rm.subs st' !! l = core <$> rm.subs st !! l;
  frame_events : ∀ x, is_Some (rm.events st !! x) → is_Some (rm.events st' !! x);
  frame_infos : ∀ g, is_Some (rm.infos st !! g) → is_Some (rm.infos st' !! g);
  frame_groups : rm.eventgroups_ st' = rm.eventgroups_ st
}.

#[export] Instance frame_preorder : PreOrder frame.
Proof.
  split; [by split|]. intros a b c [H1 H2 H3 H4 H5] [J1 J2 J3 J4 J5].
  split; [auto| |auto|auto|]; [|congruence]. intros l. by rewrite J2.
Qed.

Lemma frame_get st st' l s : frame st st' → rm.subs st !! l = Some s →
  ∃ s', rm.subs st' !! l = Some s' ∧ core s' = core s.
Proof.
  intros Hf Hl. pose proof (frame_subs _ _ Hf l) as Hc. rewrite Hl in Hc.
  destruct (rm.subs st' !! l) as [s'|]; [|done]. exists s'. split; [done|]. by apply (inj Some) in Hc.
Qed.

Lemma core_group s s' : core s = core s' →
  remote_subscription.eventgroupinfo_ s = remote_subscription.eventgroupinfo_ s'.
Proof. by injection 1. Qed.

Lemma core_endpoints s s' : core s = core s' → endpoints s = endpoints s'.
Proof. intros [= H1 H2 H3 H4]. unfold endpoints. by rewrite H2, H3, H4. Qed.

(** *** Writing a subscription *)

Definition keeps (A : accepted_t) (st : state) (s s' : remote_subscription.t) : Prop :=
  core s' = core s ∧ acked_ok A s' ∧
  (remote_subscription.parent_ s' = remote_subscription.parent_ s ∨
   ∃ p sp, remote_subscription.parent_ s' = Some p ∧ rm.subs st !! p = Some sp ∧ kin sp s).

Lemma put_sub_frame l s s' (st : state) :
  rm.subs st !! l = Some s → core s' = core s → frame st (rm.put_sub l s' st).
Proof.
  intros Hl Hc. split; try done. intros k. cbn. destruct (decide (l = k)) as [<-|].
  - rewrite lookup_insert_eq, Hl. cbn [fmap option_fmap option_map]. by rewrite Hc.
  - by rewrite lookup_insert_ne.
Qed.

(** The identifier may only change for a subscription that is in no table. *)
Lemma put_sub_wf A l s s' (st : state) :
  wf A st → rm.subs st !! l = Some s → keeps A st s s' →
  (remote_subscription.id_ s' = remote_subscription.id_ s ∨
   ∀ g i id, rm.infos st !! g = Some i → eventgroupinfo.subscriptions_ i !! id ≠ Some l) →
  wf A (rm.put_sub l s' st).
Proof.
  intros [Hs Hi Hg] Hl (Hc & Ha & Hp) Hid. split; [| |done].
  - intros k x Hk. cbn in Hk.
    assert (Hgrp : ∀ p sp, rm.subs (rm.put_sub l s' st) !! p = Some sp →
      ∃ sp0, rm.subs st !! p = Some sp0 ∧ core sp = core sp0).
    { intros p sp Hsp. cbn in Hsp. destruct (decide (l = p)) as [<-|].
      - rewrite lookup_insert_eq in Hsp. injection Hsp as <-. by exists s.
      - rewrite lookup_insert_ne in Hsp by done. by exists sp. }
    destruct (decide (l = k)) as [<-|].
    + rewrite lookup_insert_eq in Hk. injection Hk as <-. destruct (Hs _ _ Hl) as [E1 E2 E3 E4 E5]. split.
      * intros y. rewrite (core_endpoints _ _ Hc). apply E1.
      * injection Hc as _ Hsub _ _. by rewrite Hsub.
      * intros p sp Hpp Hsp. destruct (Hgrp p sp Hsp) as (sp0 & Hsp0 & Hcp).
        apply (kin_core sp0 s); [done..|].
        destruct Hp as [Hp|(q & sq & Hq & Hsq & Heq)].
        -- apply (E3 p); [congruence|done].
        -- rewrite Hpp in Hq. injection Hq as <-. rewrite Hsp0 in Hsq. by injection Hsq as <-.
      * done.
      * by apply (made_core A s).
    + rewrite lookup_insert_ne in Hk by done. destruct (Hs _ _ Hk) as [E1 E2 E3 E4 E5]. split; try done.
      intros p sp Hpp Hsp. destruct (Hgrp p sp Hsp) as (sp0 & Hsp0 & Hcp).
      apply (kin_core sp0 x); [done..|]. by apply (E3 p).
  - intros g i Hgi. destruct (Hi g i Hgi) as [F1 F2]. split; [|done].
    intros id k Hk. destruct (F1 id k Hk) as (Hr & x & Hx & Hxi & Hxg). split; [done|]. cbn.
    destruct (decide (l = k)) as [<-|].
    + exists s'. rewrite lookup_insert_eq. split; [done|]. rewrite Hl in Hx. injection Hx as <-.
      split; [|rewrite (core_group _ _ Hc); done]. destruct Hid as [->|Hid]; [done|]. by destruct (Hid g i id).
    + exists x. by rewrite lookup_insert_ne.
Qed.

Lemma on_sub_ok A l f s (st : state) :
  wf A st → rm.subs st !! l = Some s → keeps A st s (f s) →
  remote_subscription.id_ (f s) = remote_subscription.id_ s →
  rm.on_sub l f st = Ok (rm.put_sub l (f s) st) ∧ wf A (rm.put_sub l (f s) st)
  ∧ frame st (rm.put_sub l (f s) st).
Proof.
  intros Hw Hl Hk Hid. split; [unfold rm.on_sub, rm.get_sub, rm.deref; by rewrite Hl|].
  split; [apply put_sub_wf with s; auto|apply put_sub_frame with s; [done|apply Hk]].
Qed.

(** *** Writing an eventgroup, an endpoint or an event *)

Lemma put_info_frame g i (st : state) : frame st (rm.put_info g i st).
Proof.
  split; try done. intros k Hk. cbn. destruct (decide (g = k)) as [<-|].
  - rewrite lookup_insert_eq. by eexists.
  - by rewrite lookup_insert_ne.
Qed.

Lemma put_info_wf A g i (st : state) : wf A st → info_wf st g i → wf A (rm.put_info g i st).
Proof.
  intros [Hs Hi Hg] Hgi. split.
  - intros l s Hl. destruct (Hs l s Hl). by split.
  - intros k j Hk. cbn in Hk. destruct (decide (g = k)) as [<-|].
    + rewrite lookup_insert_eq in Hk. injection Hk as <-. destruct Hgi. by split.
    + rewrite lookup_insert_ne in Hk by done. destruct (Hi k j Hk). by split.
  - intros k j Hk. cbn. destruct (decide (g = j)) as [<-|]; [rewrite lookup_insert_eq; by eexists|].
    rewrite lookup_insert_ne by done. by apply (Hg k).
Qed.

Lemma put_event_ok A ev e (st : state) : wf A st →
  wf A (rm.with_events (<[ev := e]> (rm.events st)) st) ∧ frame st (rm.with_events (<[ev := e]> (rm.events st)) st).
Proof.
  intros [Hs Hi Hg].
  assert (He : ∀ x, is_Some (rm.events st !! x) → is_Some (<[ev := e]> (rm.events st) !! x)).
  { intros x Hx. destruct (decide (ev = x)) as [<-|]; [rewrite lookup_insert_eq; by eexists|by rewrite lookup_insert_ne]. }
  split; [split; [| |done]|by split].
  - intros l s Hl. destruct (Hs l s Hl). by split.
  - intros g i Hgi. destruct (Hi g i Hgi) as [F1 F2]. split; [done|]. intros x Hx. by apply He, F2.
Qed.

Lemma put_eps_ok A x d (st : state) : wf A st →
  wf A (rm.with_eps (<[x := d]> (rm.eps st)) st) ∧ frame st (rm.with_eps (<[x := d]> (rm.eps st)) st).
Proof.
  intros [Hs Hi Hg].
  assert (He : ∀ y, is_Some (rm.eps st !! y) → is_Some (<[x := d]> (rm.eps st) !! y)).
  { intros y Hy. destruct (decide (x = y)) as [<-|]; [rewrite lookup_insert_eq; by eexists|by rewrite lookup_insert_ne]. }
  split; [split; [| |done]|by split].
  - intros l s Hl. destruct (Hs l s Hl) as [E1 E2 E3 E4 E5]. split; try done. intros y Hy. by apply He, E1.
  - intros g i Hgi. destruct (Hi g i Hgi). by split.
Qed.

(** ** The operations of the eventgroup *)

Lemma deref_ok {A} (m : gmap loc A) l x : m !! l = Some x → rm.deref m l = Ok x.
Proof. unfold rm.deref. by intros ->. Qed.

Lemma get_sub_ok l s (st : state) : rm.subs st !! l = Some s → rm.get_sub l st = Ok s.
Proof. apply deref_ok. Qed.

Lemma get_info_ok g i (st : state) : rm.infos st !! g = Some i → rm.get_info g st = Ok i.
Proof. apply deref_ok. Qed.

Lemma on_sub_eq l f s (st : state) : rm.subs st !! l = Some s → rm.on_sub l f st = Ok (rm.put_sub l (f s) st).
Proof. intros Hl. unfold rm.on_sub, rm.get_sub. by rewrite (deref_ok _ _ _ Hl). Qed.

Lemma put_sub_eq l s (st : state) : rm.subs (rm.put_sub l s st) !! l = Some s.
Proof. apply lookup_insert_eq. Qed.

Lemma put_sub_ne l k s (st : state) : l ≠ k → rm.subs (rm.put_sub l s st) !! k = rm.subs st !! k.
Proof. apply lookup_insert_ne. Qed.

Lemma elem_of_by_address X l : l ∈ by_address X ↔ l ∈ X.
Proof. unfold by_address. by rewrite merge_sort_Permutation, elem_of_elements. Qed.

Lemma lock_Some {B} (m : gmap loc B) w l : rm.lock m w = Some l ↔ w = Some l ∧ is_Some (m !! l).
Proof.
  unfold rm.lock. split.
  - destruct w as [k|]; [|done]. destruct (m !! k) eqn:E; [|done]. intros [= <-]. rewrite E. by split; eauto.
  - intros [-> [x Hx]]. by rewrite Hx.
Qed.

Lemma get_ip_address_ok A (st : state) s : sub_wf A st s → ∃ a, rm.get_ip_address s st = Ok a.
Proof.
  intros [Hep _ _ _ _]. unfold rm.get_ip_address.
  destruct (remote_subscription.reliable_ s) as [x|] eqn:Er.
  - destruct (Hep x) as [d Hd]; [unfold endpoints; rewrite Er; set_solver|]. rewrite (deref_ok _ _ _ Hd). by eexists.
  - destruct (remote_subscription.unreliable_ s) as [x|] eqn:Eu; [|by eexists].
    destruct (Hep x) as [d Hd]; [unfold endpoints; rewrite Eu; set_solver|]. rewrite (deref_ok _ _ _ Hd). by eexists.
Qed.

Lemma equals_kin s o (st : state) : rm.equals s o st = true → kin s o.
Proof.
  unfold rm.equals, rm.get_eventgroupinfo.
  destruct (rm.lock _ (remote_subscription.eventgroupinfo_ s)) as [g|] eqn:E1; [|done].
  destruct (rm.lock _ (remote_subscription.eventgroupinfo_ o)) as [g'|] eqn:E2; [|done].
  apply lock_Some in E1 as [E1 _], E2 as [E2 _]. rewrite !andb_true_iff. intros [[Hg Hu] Hr].
  apply bool_decide_eq_true in Hg as ->. split; [congruence|]. by split.
Qed.

Lemma find_equal_ok o (st : state) ls : (∀ x, x ∈ ls → is_Some (rm.subs st !! x)) →
  ∃ r, rm.find_equal o ls st = Ok r
  ∧ ∀ it, r = Some it → it ∈ ls ∧ ∃ s, rm.subs st !! it = Some s ∧ rm.equals s o st = true.
Proof.
  induction ls as [|x ls IH]; intros Hs; cbn [rm.find_equal].
  { exists None. by split. }
  destruct (Hs x) as [s Hx]; [apply elem_of_cons; by left|].
  unfold rm.get_sub. rewrite (deref_ok _ _ _ Hx), bind_Ok. destruct (rm.equals s o st) eqn:E.
  - exists (Some x). split; [done|]. intros it [= <-]. split; [apply elem_of_cons; by left|]. by exists s.
  - destruct IH as (r & Hr & Hp); [intros y Hy; apply Hs, elem_of_cons; by right|].
    exists r. split; [done|]. intros it Hit. destruct (Hp it Hit) as [? ?]. split; [apply elem_of_cons; by right|done].
Qed.

(** Only clients, answers and destinies change. *)
Record strict (st st' : state) : Prop := {
  strict_eps : rm.eps st' = rm.eps st;
  strict_events : rm.events st' = rm.events st;
  strict_infos : rm.infos st' = rm.infos st;
  strict_groups : rm.eventgroups_ st' = rm.eventgroups_ st;
  strict_subs : ∀ l, rest <$> rm.subs st' !! l = rest <$> rm.subs st !! l
}.

Lemma strict_refl st : strict st st.
Proof. by split. Qed.

Lemma strict_trans a b c : strict a b → strict b c → strict a c.
Proof. intros [H1 H2 H3 H4 H5] [J1 J2 J3 J4 J5]. split; [congruence..|]. intros l. by rewrite J5. Qed.

Lemma rest_core s s' : rest s = rest s' → core s = core s'.
Proof. apply (f_equal snd). Qed.

Lemma strict_get st st' l s : strict st st' → rm.subs st !! l = Some s →
  ∃ s', rm.subs st' !! l = Some s' ∧ rest s' = rest s.
Proof.
  intros Hf Hl. pose proof (strict_subs _ _ Hf l) as Hc. rewrite Hl in Hc.
  destruct (rm.subs st' !! l) as [s'|]; [|done]. exists s'. split; [done|]. by apply (inj Some) in Hc.
Qed.

Lemma strict_frame st st' : strict st st' → frame st st'.
Proof.
  intros Hs. destruct (Hs) as [H1 H2 H3 H4 H5]. split; rewrite ?H1, ?H2, ?H3; try done.
  intros l. destruct (rm.subs st !! l) as [s|] eqn:E.
  - destruct (strict_get _ _ _ _ Hs E) as (s' & -> & Hr). cbn [fmap option_fmap option_map]. by rewrite (rest_core _ _ Hr).
  - specialize (H5 l). rewrite E in H5. by destruct (rm.subs st' !! l).
Qed.

Lemma put_sub_strict l s s' (st : state) :
  rm.subs st !! l = Some s → rest s' = rest s → strict st (rm.put_sub l s' st).
Proof.
  intros Hl Hr. split; try done. intros k. destruct (decide (l = k)) as [<-|].
  - rewrite put_sub_eq, Hl. cbn [fmap option_fmap option_map]. by rewrite Hr.
  - by rewrite put_sub_ne.
Qed.

Lemma rest_keeps A (st : state) s s' : rest s' = rest s → acked_ok A s' → keeps A st s s'.
Proof. intros Hr Ha. split; [by apply rest_core|]. split; [done|]. left. exact (f_equal (snd ∘ fst) Hr). Qed.

(** A change of the clients of one subscription. *)
Lemma put_clients_ok A l s s' (st : state) :
  wf A st → rm.subs st !! l = Some s → rest s' = rest s → acked_ok A s' →
  wf A (rm.put_sub l s' st) ∧ strict st (rm.put_sub l s' st).
Proof.
  intros Hw Hl Hr Ha. split; [|by apply put_sub_strict with s].
  apply put_sub_wf with s; [done|done|by apply rest_keeps|]. left. exact (f_equal (fst ∘ fst) Hr).
Qed.

Lemma acked_sub A (st : state) l s : wf A st → rm.subs st !! l = Some s → acked_ok A s.
Proof. intros Hw Hl. apply (wf_sub _ _ Hw l s Hl). Qed.

Lemma acked_state A s s' now c :
  acked_ok A s → acked_ok A s' → made_ok A s' → kin s s' →
  ∀ x, x = remote_subscription.get_client_state c s ∨ x ≠ SUBSCRIPTION_ACKED →
  acked_ok A (remote_subscription.set_client_state now c x s').
Proof.
  intros Hs Hs' Hm Hg x Hx k t Hk. rewrite set_client_state_clients in Hk.
  apply (entitled_core A k s'); [apply rest_core, set_client_state_rest|].
  destruct (decide (k = c)) as [->|]; [|by apply (Hs' k t)].
  destruct (clients s' !! c) as [y|]; cbn in Hk; [|done]. injection Hk as -> _.
  destruct Hx as [Hx|]; [|done]. unfold remote_subscription.get_client_state in Hx.
  destruct (clients s !! c) as [[z u]|] eqn:E; [|done]. subst z.
  apply (entitled_kin A c s); [done..|]. by apply (Hs c u).
Qed.

Definition copied (b : bool) (c : Z) (s : remote_subscription.t) : remote_subscription_state_e :=
  if b && bool_decide (remote_subscription.get_client_state c s = SUBSCRIPTION_UNKNOWN)
  then SUBSCRIPTION_PENDING else remote_subscription.get_client_state c s.

Lemma copy_one now it l b c changed (st : state) s o :
  rm.subs st !! it = Some s → rm.subs st !! l = Some o →
  ∃ ch, rm.copy_state now it l b c (changed, st)
        = Ok (ch, rm.put_sub l (remote_subscription.set_client_state now c (copied b c s) o) st).
Proof.
  intros Hit Hl. unfold rm.copy_state, rm.get_sub. rewrite (deref_ok _ _ _ Hit), bind_Ok.
  rewrite (on_sub_eq l _ o st Hl), bind_Ok. by eexists.
Qed.

Lemma copy_loop A now it l b cs changed (st : state) s o : wf A st →
  rm.subs st !! it = Some s → rm.subs st !! l = Some o → kin s o →
  ∃ ch st', foldM (rm.copy_state now it l b) cs (changed, st) = Ok (ch, st') ∧ wf A st' ∧ strict st st'.
Proof.
  intros Hw Hit Hl Hg.
  destruct (foldM_inv (λ x, wf A x.2 ∧ strict st x.2) (rm.copy_state now it l b) cs) with (s := (changed, st))
    as ([ch st'] & E & Hw' & Hst'); [|by split; [|apply strict_refl]|by exists ch, st'].
  intros c [ch1 st1] _ [Hw1 Hst1].
  destruct (strict_get _ _ _ _ Hst1 Hit) as (s1 & Hs1 & Hr1). destruct (strict_get _ _ _ _ Hst1 Hl) as (o1 & Ho1 & Hr2).
  destruct (copy_one now it l b c ch1 st1 s1 o1 Hs1 Ho1) as [ch2 ->]. eexists. split; [done|].
  destruct (put_clients_ok A l o1 (remote_subscription.set_client_state now c (copied b c s1) o1) st1 Hw1 Ho1) as [Hw2 Hst2].
  { apply set_client_state_rest. }
  { apply acked_state with s1; [by apply acked_sub with st1 it|by apply acked_sub with st1 l|apply (wf_sub _ _ Hw1 l o1 Ho1)| |].
    - by apply (kin_core s o); [apply rest_core..|].
    - unfold copied. destruct (_ && _); [by right|by left]. }
  split; [done|]. by apply strict_trans with st1.
Qed.

Lemma acked_update A cs t b s : acked_ok A s → acked_ok A (remote_subscription.update cs t b s).2.
Proof.
  intros Hs c u Hc. rewrite update_clients in Hc.
  apply (entitled_core A c s); [apply rest_core, update_rest|].
  destruct (decide (c ∈ cs)); [|by apply (Hs c u)]. destruct b; [|done].
  destruct (clients s !! c) as [[x v]|] eqn:E; cbn in Hc; [|done]. injection Hc as -> _. by apply (Hs c v).
Qed.

Lemma acked_other A s s' : clients s' = clients s → core s' = core s → acked_ok A s → acked_ok A s'.
Proof. intros Hc Hg Hs c t. rewrite Hc. intros Ha%Hs. by apply (entitled_core A c s). Qed.

Lemma next_id_range id : 1 ≤ eventgroupinfo.next_id id < 65536.
Proof.
  unfold eventgroupinfo.next_id, PENDING_SUBSCRIPTION_ID. pose proof (wrap_range 16 (id + 1) ltac:(lia)) as Hr.
  unfold in_width in Hr. destruct (Z.eqb_spec (u16 (id + 1)) 0); lia.
Qed.

(** Filing a subscription that is in no table under a new identifier. *)
Lemma insert_ok A g l o o' i (st : state) :
  wf A st → rm.infos st !! g = Some i → rm.subs st !! l = Some o →
  (∀ g i id, rm.infos st !! g = Some i → eventgroupinfo.subscriptions_ i !! id ≠ Some l) →
  keeps A st o o' → remote_subscription.eventgroupinfo_ o = Some g →
  remote_subscription.id_ o' = eventgroupinfo.next_id (eventgroupinfo.id_ i) →
  ∀ cnt, let i' := eventgroupinfo.with_count cnt (eventgroupinfo.insert_subscription l i).2 in
  wf A (rm.put_info g i' (rm.put_sub l o' st)) ∧ frame st (rm.put_info g i' (rm.put_sub l o' st)).
Proof.
  intros Hw Hi Hl Hout Hk Hg Hid cnt i'. set (st1 := rm.put_sub l o' st).
  assert (Hw1 : wf A st1) by (apply put_sub_wf with o; auto).
  assert (Hf1 : frame st st1) by (apply put_sub_frame with o; [done|apply Hk]).
  split; [|etrans; [exact Hf1|apply put_info_frame]]. apply put_info_wf; [done|].
  destruct (wf_info _ _ Hw1 g i Hi) as [F1 F2]. split; [|done].
  intros id k Hk'. cbn in Hk'. destruct (decide (eventgroupinfo.next_id (eventgroupinfo.id_ i) = id)) as [<-|].
  - rewrite lookup_insert_eq in Hk'. injection Hk' as <-. split; [apply next_id_range|].
    exists o'. unfold st1. rewrite put_sub_eq. split; [done|]. split; [done|].
    rewrite (core_group _ _ (proj1 Hk)). done.
  - rewrite lookup_insert_ne in Hk' by done. by apply F1.
Qed.

Lemma with_count_same (i : info) : eventgroupinfo.with_count (eventgroupinfo.remote_subscribers_count_ i) i = i.
Proof. by destruct i. Qed.

Lemma remove_pending_eq x ev e (st : state) : rm.events st !! ev = Some e →
  rm.remove_pending x ev st = Ok (rm.with_events (<[ev := event.remove_pending x e]> (rm.events st)) st).
Proof. intros He. unfold rm.remove_pending. by rewrite (deref_ok _ _ _ He). Qed.

Lemma remove_pending_loop A x evs (st : state) : wf A st → (∀ ev, ev ∈ evs → is_Some (rm.events st !! ev)) →
  ∃ st', foldM (rm.remove_pending x) evs st = Ok st' ∧ wf A st' ∧ frame st st'.
Proof.
  intros Hw He. apply (foldM_inv (λ st', wf A st' ∧ frame st st')); [|by split].
  intros ev st1 Hin [Hw1 Hf1]. destruct (frame_events _ _ Hf1 ev (He ev Hin)) as [e Hev].
  rewrite (remove_pending_eq x ev e st1 Hev). eexists. split; [done|].
  destruct (put_event_ok A ev (event.remove_pending x e) st1 Hw1) as [Hw2 Hf2]. split; [done|by etrans].
Qed.

(** [it] and [l] are subscriptions of the same eventgroup that are taken for the
    same. *)
Definition related (st : state) (g it l : loc) : Prop :=
  ∃ s o, rm.subs st !! it = Some s ∧ rm.subs st !! l = Some o
       ∧ remote_subscription.eventgroupinfo_ s = Some g ∧ remote_subscription.eventgroupinfo_ o = Some g
       ∧ kin s o.

Lemma related_frame st st' g it l : frame st st' → related st g it l → related st' g it l.
Proof.
  intros Hf (s & o & Hs & Ho & Hgs & Hgo & Hk).
  destruct (frame_get _ _ _ _ Hf Hs) as (s' & Hs' & Hc). destruct (frame_get _ _ _ _ Hf Ho) as (o' & Ho' & Hc').
  exists s', o'. rewrite (core_group _ _ Hc), (core_group _ _ Hc'). split_and!; [done..|]. by apply (kin_core s o).
Qed.

Lemma merge_ok A now it l g t b (st : state) : wf A st → related st g it l →
  ∃ ch id st', rm.merge now it l t b st = Ok (ch, id, st') ∧ wf A st' ∧ strict st st'.
Proof.
  intros Hw (s & o & Hs & Hl & Hgs & Hgo & Hk). unfold rm.merge, rm.get_sub.
  rewrite (deref_ok _ _ _ Hl), (deref_ok _ _ _ Hs), !bind_Ok.
  destruct (remote_subscription.update (remote_subscription.get_clients o) t b s) as [ch s1] eqn:Eu.
  assert (Hs1 : rest s1 = rest s ∧ acked_ok A s1).
  { replace s1 with (remote_subscription.update (remote_subscription.get_clients o) t b s).2 by (by rewrite Eu).
    split; [apply update_rest|apply acked_update; by apply acked_sub with st it]. }
  destruct (put_clients_ok A it s s1 st Hw Hs (proj1 Hs1) (proj2 Hs1)) as [Hw1 Hst1].
  destruct (strict_get _ _ _ _ Hst1 Hl) as (o1 & Ho1 & Hro1).
  rewrite (deref_ok _ _ _ Ho1), bind_Ok.
  destruct (copy_loop A now it l b (in_order (remote_subscription.get_clients o1)) ch _ s1 o1 Hw1 (put_sub_eq _ _ _) Ho1)
    as (ch2 & st2 & -> & Hw2 & Hst2).
  { apply (kin_core s o); [apply rest_core, Hs1|by apply rest_core|done]. }
  rewrite bind_Ok. eexists _, _, _. split; [done|]. split; [done|]. by apply strict_trans with (rm.put_sub it s1 st).
Qed.

Definition unfiled (st : state) (l : loc) : Prop :=
  ∀ g i id, rm.infos st !! g = Some i → eventgroupinfo.subscriptions_ i !! id ≠ Some l.

Lemma join_ok A g it l ch i (st : state) : wf A st → rm.infos st !! g = Some i → related st g it l → unfiled st l →
  ∃ st', rm.join g it l ch st = Ok st' ∧ wf A st' ∧ frame st st'.
Proof.
  intros Hw Hi (s & o & Hs & Hl & Hgs & Hgo & Hk) Hout. unfold rm.join, rm.get_sub, rm.get_info.
  rewrite (deref_ok _ _ _ Hl), bind_Ok. assert (Ha : acked_ok A o) by (by apply acked_sub with st l).
  destruct (bool_decide (ch ≠ ∅)).
  - rewrite (deref_ok _ _ _ Hi), bind_Ok. cbn [eventgroupinfo.insert_subscription].
    rewrite (on_sub_eq l _ o _ Hl), bind_Ok.
    destruct (insert_ok A g l o (remote_subscription.set_id (eventgroupinfo.next_id (eventgroupinfo.id_ i))
      (remote_subscription.set_parent (Some it) o)) i st Hw Hi Hl Hout) with (cnt := eventgroupinfo.remote_subscribers_count_ i)
      as [Hw1 Hf1]; [|done|done|].
    { split; [done|]. split; [by apply (acked_other A o)|]. right. by exists it, s. }
    eexists. split; [done|]. done.
  - destruct (negb (remote_subscription.is_pending o)).
    + destruct (negb (remote_subscription.force_initial_events_ o)); [|by exists st].
      destruct (put_clients_ok A l o (remote_subscription.set_initial false o) st Hw Hl eq_refl Ha) as [Hw1 Hst].
      rewrite (on_sub_eq l _ o _ Hl). eexists. split; [done|]. split; [done|by apply strict_frame].
    + destruct (put_clients_ok A it s (remote_subscription.set_answers (u32 (remote_subscription.answers_ s + 1)) s) st Hw Hs eq_refl)
        as [Hw1 Hst]; [apply (acked_sub A st it s Hw Hs)|].
      rewrite (on_sub_eq it _ s _ Hs), bind_Ok.
      destruct (strict_get _ _ _ _ Hst Hl) as (o1 & Ho1 & Hro). destruct (strict_get _ _ _ _ Hst Hs) as (s1 & Hs1 & Hrs).
      destruct (on_sub_ok A l (λ o, remote_subscription.set_answers 0 (remote_subscription.set_parent (Some it) o)) o1 _ Hw1 Ho1)
        as (-> & Hw2 & Hf2); [|done|].
      { split; [done|]. split; [apply (acked_sub A _ l o1 Hw1 Ho1)|]. right. exists it, s1. split; [done|]. split; [done|].
        by apply (kin_core s o); [apply rest_core..|]. }
      eexists. split; [done|]. split; [done|]. etrans; [by apply strict_frame|done].
Qed.

Lemma leave_ok A g it s i (st : state) : wf A st → rm.infos st !! g = Some i → rm.subs st !! it = Some s →
  ∃ st', rm.leave g it st = Ok st' ∧ wf A st' ∧ frame st st'.
Proof.
  intros Hw Hi Hs. unfold rm.leave, rm.get_sub, rm.get_info. rewrite (deref_ok _ _ _ Hi), (deref_ok _ _ _ Hs), !bind_Ok.
  destruct (if remote_subscription.is_pending s then _ else _) as [x|]; [|by exists st].
  apply remove_pending_loop; [done|]. intros ev Hev. apply elem_of_by_address in Hev.
  apply (info_events _ _ _ (wf_info _ _ Hw g i Hi) ev Hev).
Qed.

Lemma update_subscription_ok A now g l t ch0 id0 (b : bool) i o (st : state) :
  wf A st → rm.infos st !! g = Some i → rm.subs st !! l = Some o →
  remote_subscription.eventgroupinfo_ o = Some g → (b = true → unfiled st l) →
  ∃ r ch id st', rm.update_subscription now g l t ch0 id0 b st = Ok (r, ch, id, st')
  ∧ wf A st' ∧ frame st st' ∧ (r = false → st' = st).
Proof.
  intros Hw Hi Hl Hg Hout. unfold rm.update_subscription, rm.get_info, rm.get_sub.
  rewrite (deref_ok _ _ _ Hi), (deref_ok _ _ _ Hl), !bind_Ok.
  destruct (find_equal_ok o st (sorted (eventgroupinfo.subscriptions_ i)).*2) as (r & -> & Hr).
  { intros x (id & Hx)%elem_of_sorted_values. destruct (info_filed _ _ _ (wf_info _ _ Hw g i Hi) id x Hx) as (_ & s & -> & _). by eexists. }
  rewrite bind_Ok. destruct r as [it|]; [|exists false, ch0, id0, st; by split].
  destruct (Hr it eq_refl) as (_ & s & Hs & He). apply equals_kin in He.
  assert (Hrel : related st g it l) by (exists s, o; split_and!; [done|done|by rewrite (proj1 He)|done|done]).
  destruct (merge_ok A now it l g t b st Hw Hrel) as (ch & id & st1 & -> & Hw1 & Hst1).
  rewrite bind_Ok. pose proof (strict_frame _ _ Hst1) as Hf1. pose proof (related_frame _ _ _ _ _ Hf1 Hrel) as Hrel1.
  assert (Hi1 : rm.infos st1 !! g = Some i) by (by rewrite (strict_infos _ _ Hst1)).
  assert (∃ st2, (if b then rm.join g it l ch st1 else rm.leave g it st1) = Ok st2 ∧ wf A st2 ∧ frame st1 st2) as (st2 & -> & Hw2 & Hf2).
  { destruct b.
    - apply join_ok with i; [done..|]. intros g' i' id'. rewrite (strict_infos _ _ Hst1). by apply Hout.
    - destruct (Hrel1) as (s1 & _ & Hs1 & _). by apply leave_ok with s1 i. }
  rewrite bind_Ok. exists true, ch, id, st2. split; [done|]. split; [done|]. split; [by etrans|done].
Qed.

Lemma limit_ok A g l i o (st : state) : wf A st → rm.infos st !! g = Some i → rm.subs st !! l = Some o →
  ∃ b, rm.is_remote_subscription_limit_reached g l st = Ok b.
Proof.
  intros Hw Hi Hl. unfold rm.is_remote_subscription_limit_reached, rm.get_info, rm.get_sub.
  rewrite (deref_ok _ _ _ Hi), bind_Ok. destruct (_ <=? _); [by eexists|].
  rewrite (deref_ok _ _ _ Hl), bind_Ok.
  destruct (get_ip_address_ok A st o (wf_sub _ _ Hw l o Hl)) as [a ->]. by eexists.
Qed.

Lemma add_ok A g l i o (st : state) : wf A st → rm.infos st !! g = Some i → rm.subs st !! l = Some o →
  remote_subscription.eventgroupinfo_ o = Some g → unfiled st l →
  ∃ id st', rm.add_remote_subscription g l st = Ok (id, st') ∧ wf A st' ∧ frame st st'.
Proof.
  intros Hw Hi Hl Hg Hout. unfold rm.add_remote_subscription, rm.get_info, rm.get_sub.
  rewrite (deref_ok _ _ _ Hi), bind_Ok. cbn [eventgroupinfo.insert_subscription].
  set (id := eventgroupinfo.next_id (eventgroupinfo.id_ i)).
  set (i1 := eventgroupinfo.with_table _ _ i).
  rewrite (on_sub_eq l _ o st Hl), bind_Ok.
  set (o' := remote_subscription.set_id id o).
  destruct (get_ip_address_ok A (rm.put_sub l o' st) o') as [a Ha].
  { apply (wf_sub A (rm.put_sub l o' st)) with l; [|apply put_sub_eq].
    apply put_sub_wf with o; [done|done| |by right].
    split; [done|]. split; [by apply (acked_other A o); [..|apply acked_sub with st l]|by left]. }
  rewrite (deref_ok _ l o') by apply put_sub_eq. rewrite bind_Ok, Ha, bind_Ok.
  assert (Hcnt : ∃ cnt, match a with Some a => eventgroupinfo.count_up a i1 | None => i1 end
                        = eventgroupinfo.with_count cnt (eventgroupinfo.insert_subscription l i).2).
  { destruct a; [by eexists|]. exists (eventgroupinfo.remote_subscribers_count_ i1). done. }
  destruct Hcnt as [cnt ->].
  destruct (insert_ok A g l o o' i st Hw Hi Hl Hout) with (cnt := cnt) as [Hw1 Hf1]; [|done|done|].
  { split; [done|]. split; [by apply (acked_other A o); [..|apply acked_sub with st l]|]. by left. }
  eexists _, _. split; [done|]. done.
Qed.

Lemma count_down_table a (i : info) :
  eventgroupinfo.subscriptions_ (eventgroupinfo.count_down a i) = eventgroupinfo.subscriptions_ i
  ∧ eventgroupinfo.events_ (eventgroupinfo.count_down a i) = eventgroupinfo.events_ i.
Proof. unfold eventgroupinfo.count_down. destruct (_ !! a) as [n|]; [|done]. by destruct (n =? 0). Qed.

Lemma remove_ok A g id i (st : state) : wf A st → rm.infos st !! g = Some i →
  ∃ st', rm.remove_remote_subscription g id st = Ok st' ∧ wf A st' ∧ frame st st'.
Proof.
  intros Hw Hi. unfold rm.remove_remote_subscription, rm.get_info, rm.get_sub. rewrite (deref_ok _ _ _ Hi), bind_Ok.
  set (m := match eventgroupinfo.subscriptions_ i !! id with Some _ => _ | None => _ end).
  assert (∃ j, m = Ok j ∧ eventgroupinfo.subscriptions_ j = eventgroupinfo.subscriptions_ i
               ∧ eventgroupinfo.events_ j = eventgroupinfo.events_ i) as (j & -> & Hj1 & Hj2).
  { unfold m. destruct (eventgroupinfo.subscriptions_ i !! id) as [l|] eqn:E; [|by exists i].
    destruct (info_filed _ _ _ (wf_info _ _ Hw g i Hi) id l E) as (_ & s & Hs & _).
    rewrite (deref_ok _ _ _ Hs), bind_Ok. destruct (get_ip_address_ok A st s (wf_sub _ _ Hw l s Hs)) as [a ->].
    rewrite bind_Ok. eexists. split; [done|]. destruct a; [apply count_down_table|done]. }
  rewrite bind_Ok. eexists. split; [done|]. split; [|apply put_info_frame]. apply put_info_wf; [done|].
  destruct (wf_info _ _ Hw g i Hi) as [F1 F2]. split; cbn; rewrite ?Hj1, ?Hj2; [|done].
  intros id' l Hl. apply lookup_delete_Some in Hl as [_ Hl]. by apply F1.
Qed.

(** ** The handlers *)

Context (env : rm.environment (addr := addr)).

Lemma find_eventgroup_ok A service instance eventgroup (st : state) : wf A st →
  ∃ r st', rm.find_eventgroup env service instance eventgroup st = Ok (r, st') ∧ wf A st' ∧ frame st st'
  ∧ r = rm.eventgroups_ st !! (service, instance, eventgroup)
  ∧ rm.subs st' = rm.subs st
  ∧ ∀ g i, rm.infos st !! g = Some i → ∃ i', rm.infos st' !! g = Some i'
      ∧ eventgroupinfo.subscriptions_ i' = eventgroupinfo.subscriptions_ i.
Proof.
  intros Hw. unfold rm.find_eventgroup. destruct (rm.eventgroups_ st !! _) as [g|] eqn:E.
  2:{ exists None, st. repeat (split; [done|]). intros g i Hi. by exists i. }
  destruct (wf_groups _ _ Hw _ g E) as [i Hi]. unfold rm.get_info. rewrite (deref_ok _ _ _ Hi), bind_Ok.
  destruct (rm.find_service env service instance) as [[major ttl]|].
  2:{ exists (Some g), st. repeat (split; [done|]). intros g' i' Hi'. by exists i'. }
  set (i1 := eventgroupinfo.set_service_values _ _ _ _).
  assert (Hi1 : eventgroupinfo.subscriptions_ i1 = eventgroupinfo.subscriptions_ i ∧ eventgroupinfo.events_ i1 = eventgroupinfo.events_ i).
  { unfold i1. by destruct (rm.get_multicast env service instance eventgroup) as [[]|]. }
  exists (Some g), (rm.put_info g i1 st). split; [done|]. split; [|split; [apply put_info_frame|]].
  - apply put_info_wf; [done|]. destruct (wf_info _ _ Hw g i Hi) as [F1 F2].
    split; rewrite ?(proj1 Hi1), ?(proj2 Hi1); done.
  - split; [done|]. split; [done|]. intros g' i' Hi'. cbn. destruct (decide (g = g')) as [<-|].
    + exists i1. rewrite lookup_insert_eq. split; [done|]. rewrite Hi in Hi'. injection Hi' as <-. apply Hi1.
    + exists i'. by rewrite lookup_insert_ne.
Qed.

Lemma set_port_ok A port ep (st : state) : wf A st → (∀ x, ep = Some x → is_Some (rm.eps st !! x)) →
  ∃ st', rm.set_port port ep st = Ok st' ∧ wf A st' ∧ frame st st' ∧ rm.subs st' = rm.subs st ∧ rm.infos st' = rm.infos st.
Proof.
  intros Hw He. unfold rm.set_port. destruct ep as [x|]; [|by exists st].
  destruct (He x eq_refl) as [d Hd]. rewrite (deref_ok _ _ _ Hd), bind_Ok. eexists. split; [done|].
  destruct (put_eps_ok A x (endpoint_definition.set_remote_port port d) st Hw). done.
Qed.

Lemma set_remote_ports_ok A l s i (st : state) : wf A st → rm.subs st !! l = Some s →
  ∃ st', rm.set_remote_ports env s i st = Ok st' ∧ wf A st' ∧ frame st st' ∧ rm.subs st' = rm.subs st ∧ rm.infos st' = rm.infos st.
Proof.
  intros Hw Hs. pose proof (sub_endpoints _ _ _ (wf_sub _ _ Hw l s Hs)) as He. unfold rm.set_remote_ports, endpoints in *.
  edestruct (set_port_ok A) with (ep := remote_subscription.reliable_ s) as (st1 & -> & Hw1 & Hf1 & E1 & E2); [exact Hw| |].
  { intros x Hx. apply He. rewrite Hx. set_solver. }
  rewrite bind_Ok.
  edestruct (set_port_ok A) with (ep := remote_subscription.unreliable_ s) as (st2 & -> & Hw2 & Hf2 & E3 & E4); [exact Hw1| |].
  { intros x Hx. apply (frame_eps _ _ Hf1), He. rewrite Hx. set_solver. }
  exists st2. split; [done|]. split; [done|]. split; [by etrans|]. split; congruence.
Qed.

(** A change of the clients, answers or destiny of one subscription. *)
Lemma touch_ok A l f o (st : state) : wf A st → rm.subs st !! l = Some o → rest (f o) = rest o → acked_ok A (f o) →
  ∃ st', rm.on_sub l f st = Ok st' ∧ wf A st' ∧ strict st st' ∧ rm.subs st' !! l = Some (f o).
Proof.
  intros Hw Hl Hr Ha. exists (rm.put_sub l (f o) st). split; [by apply on_sub_eq|].
  destruct (put_clients_ok A l o (f o) st Hw Hl Hr Ha). split; [done|]. split; [done|apply put_sub_eq].
Qed.

Lemma touch_destiny A l d o (st : state) : wf A st → rm.subs st !! l = Some o →
  ∃ st', rm.on_sub l (remote_subscription.with_destiny d) st = Ok st' ∧ wf A st' ∧ strict st st'
       ∧ rm.subs st' !! l = Some (remote_subscription.with_destiny d o).
Proof. intros Hw Hl. apply touch_ok; [done|done|done|]. apply (acked_sub A st l o Hw Hl). Qed.

Lemma strict_unfiled st st' l : strict st st' → unfiled st l → unfiled st' l.
Proof. intros Hst Hu g i id. rewrite (strict_infos _ _ Hst). apply Hu. Qed.

(** The last part of [on_remote_subscribe]. *)
Lemma subscribe_new A g l i o (st : state) : wf A st → rm.infos st !! g = Some i → rm.subs st !! l = Some o →
  remote_subscription.eventgroupinfo_ o = Some g → unfiled st l →
  ∃ out st', (limit ← rm.is_remote_subscription_limit_reached g l st;
    if (limit : bool) then
      st ← rm.on_sub l (remote_subscription.set_all_client_states SUBSCRIPTION_NACKED) st;
      st ← rm.on_sub l remote_subscription.clear_destiny st;
      Ok ([rm.update_remote_subscription l], st)
    else
      '(its_id, st) ← rm.add_remote_subscription g l st;
      s ← rm.get_sub l st;
      st ← rm.on_sub l remote_subscription.clear_destiny st;
      Ok ([rm.ask_subscribe g (remote_subscription.get_clients s) its_id], st)) = Ok (out, st')
  ∧ wf A st' ∧ frame st st'.
Proof.
  intros Hw Hi Hl Hg Hu. destruct (limit_ok A g l i o st Hw Hi Hl) as [lim ->]. rewrite bind_Ok. destruct lim.
  - destruct (touch_ok A l (remote_subscription.set_all_client_states SUBSCRIPTION_NACKED) o st Hw Hl eq_refl)
      as (st1 & -> & Hw1 & Hst1 & Hl1).
    { intros c t. rewrite set_all_clients. by destruct (clients o !! c). }
    rewrite bind_Ok. destruct (touch_destiny A l remote_subscription.none _ st1 Hw1 Hl1) as (st2 & Ht & Hw2 & Hst2 & _).
    unfold remote_subscription.clear_destiny. rewrite Ht, bind_Ok. eexists _, _. split; [done|]. split; [done|].
    apply strict_frame. by apply strict_trans with st1.
  - destruct (add_ok A g l i o st Hw Hi Hl Hg Hu) as (id & st1 & -> & Hw1 & Hf1). rewrite bind_Ok.
    destruct (frame_get _ _ _ _ Hf1 Hl) as (o1 & Ho1 & _). rewrite (get_sub_ok _ _ _ Ho1), bind_Ok.
    destruct (touch_destiny A l remote_subscription.none o1 st1 Hw1 Ho1) as (st2 & Ht & Hw2 & Hst2 & _).
    unfold remote_subscription.clear_destiny. rewrite Ht, bind_Ok. eexists _, _. split; [done|]. split; [done|].
    etrans; [done|by apply strict_frame].
Qed.

Lemma on_remote_subscribe_ok A now l o (st : state) : wf A st → rm.subs st !! l = Some o → unfiled st l →
  ∃ out st', rm.on_remote_subscribe env now l st = Ok (out, st') ∧ wf A st' ∧ frame st st'.
Proof.
  intros Hw Hl Hu. unfold rm.on_remote_subscribe. rewrite (get_sub_ok _ _ _ Hl), bind_Ok.
  destruct (rm.get_eventgroupinfo o st) as [g|] eqn:Hg; [|by eexists _, _].
  apply lock_Some in Hg as [Hg [i Hi]]. rewrite (get_info_ok _ _ _ Hi), bind_Ok.
  destruct (set_remote_ports_ok A l o i st Hw Hl) as (st1 & -> & Hw1 & Hf1 & Es1 & Ei1). rewrite bind_Ok.
  destruct (remote_subscription.is_expired o); [by eexists _, _|].
  destruct (touch_destiny A l remote_subscription.forward o st1 Hw1) as (st2 & Ht & Hw2 & Hst2 & Hl2); [by rewrite Es1|].
  unfold remote_subscription.set_forwarded. rewrite Ht, bind_Ok.
  assert (Hi2 : rm.infos st2 !! g = Some i) by (by rewrite (strict_infos _ _ Hst2), Ei1).
  assert (Hu2 : unfiled st2 l).
  { apply (strict_unfiled st1); [done|]. intros g' i' id. rewrite Ei1. apply Hu. }
  assert (Hf2 : frame st st2) by (etrans; [done|by apply strict_frame]).
  destruct (update_subscription_ok A now g l (now + remote_subscription.ttl_ o * 1000000000) ∅ 0 true i _ st2 Hw2 Hi2 Hl2 Hg (λ _, Hu2))
    as (r & ch & id & st3 & -> & Hw3 & Hf3 & Hr). rewrite bind_Ok.
  destruct (frame_get _ _ _ _ Hf3 Hl2) as (o3 & Ho3 & Hc3). rewrite (get_sub_ok _ _ _ Ho3), bind_Ok.
  destruct r.
  - destruct (touch_destiny A l remote_subscription.none o3 st3 Hw3 Ho3) as (st4 & Ht4 & Hw4 & Hst4 & _).
    unfold remote_subscription.clear_destiny. rewrite Ht4, bind_Ok. eexists _, _. split; [done|]. split; [done|].
    etrans; [exact Hf2|]. etrans; [exact Hf3|by apply strict_frame].
  - rewrite (Hr eq_refl). destruct (subscribe_new A g l i _ st2 Hw2 Hi2 Hl2 Hg Hu2) as (out & st4 & -> & Hw4 & Hf4).
    eexists _, _. split; [done|]. split; [done|]. by etrans.
Qed.

Lemma on_remote_unsubscribe_ok A now l o (st : state) : wf A st → rm.subs st !! l = Some o →
  ∃ out st', rm.on_remote_unsubscribe env now l st = Ok (out, st') ∧ wf A st' ∧ frame st st'.
Proof.
  intros Hw Hl. unfold rm.on_remote_unsubscribe. rewrite (get_sub_ok _ _ _ Hl), bind_Ok.
  destruct (rm.get_eventgroupinfo o st) as [g|] eqn:Hg; [|by eexists _, _].
  apply lock_Some in Hg as [Hg [i Hi]]. rewrite (get_info_ok _ _ _ Hi), bind_Ok.
  destruct (set_remote_ports_ok A l o i st Hw Hl) as (st1 & -> & Hw1 & Hf1 & Es1 & Ei1). rewrite bind_Ok.
  destruct (update_subscription_ok A now g l now ∅ 0 false i o st1 Hw1) as (r & ch & id & st2 & -> & Hw2 & Hf2 & _);
    [by rewrite Ei1|by rewrite Es1|done|done|].
  rewrite bind_Ok. eexists _, _. split; [done|]. split; [done|]. by etrans.
Qed.

(** The offering client accepts a client for an eventgroup. *)
Lemma wf_accept A A' (st : state) : A ⊆ A' → wf A st → wf A' st.
Proof.
  intros HA [Hs Hi Hg]. split; [|done|done]. intros l s Hl. destruct (Hs l s Hl) as [E1 E2 E3 E4 E5]. split; [done..| |].
  - intros c t Hc. destruct (E4 c t Hc) as (g & Hg' & Hin). exists g. split; [done|]. by apply (entitled_mono A).
  - intros g Hgs. by apply HA, E5.
Qed.

Lemma acked_answer A now c x s : acked_ok A s → (x = SUBSCRIPTION_ACKED → entitled_sub A c s) →
  acked_ok A (remote_subscription.set_client_state now c x s).
Proof.
  intros Hs Hx k t Hk. rewrite set_client_state_clients in Hk.
  apply (entitled_core A k s); [apply rest_core, set_client_state_rest|].
  destruct (decide (k = c)) as [->|]; [|by apply (Hs k t)]. destruct (clients s !! c); cbn in Hk; [|done].
  injection Hk as Hk _. by apply Hx.
Qed.

Lemma answer_ok A x now c g id l i s (st : state) : wf A st → rm.infos st !! g = Some i → rm.subs st !! l = Some s →
  (x = SUBSCRIPTION_ACKED → entitled_sub A c s) →
  ∃ st', rm.answer x now c g id l st = Ok st' ∧ wf A st' ∧ frame st st'.
Proof.
  intros Hw Hi Hl Hx. unfold rm.answer.
  destruct (touch_ok A l (remote_subscription.set_client_state now c x) s st Hw Hl) as (st1 & -> & Hw1 & Hst1 & Hl1);
    [apply set_client_state_rest|apply acked_answer; [by apply acked_sub with st l|done]|].
  rewrite bind_Ok. rewrite (get_sub_ok _ _ _ Hl1), bind_Ok.
  pose proof (strict_frame _ _ Hst1) as Hf1.
  destruct (rm.get_parent _ st1) as [p|] eqn:Hp; [|by exists st1].
  apply lock_Some in Hp as [Hp [sp Hsp]].
  assert (Hgp : x = SUBSCRIPTION_ACKED → entitled_sub A c sp).
  { intros Hack. apply (entitled_kin A c s); [|apply (wf_sub _ _ Hw1 p sp Hsp)|by apply Hx].
    pose proof (sub_parent _ _ _ (wf_sub _ _ Hw1 l _ Hl1) p sp Hp Hsp) as Hk. apply kin_sym in Hk.
    apply (kin_core _ _ s sp) in Hk; [done| |done]. symmetry. apply rest_core, set_client_state_rest. }
  destruct (touch_ok A p (remote_subscription.set_client_state now c x) sp st1 Hw1 Hsp) as (st2 & -> & Hw2 & Hst2 & _);
    [apply set_client_state_rest|apply acked_answer; [by apply acked_sub with st1 p|done]|].
  rewrite bind_Ok. pose proof (strict_trans _ _ _ Hst1 Hst2) as Hst.
  destruct (strict_get _ _ _ _ Hst Hl) as (s2 & Hs2 & _). rewrite (get_sub_ok _ _ _ Hs2), bind_Ok.
  destruct (remote_subscription.is_pending s2); [exists st2; split; [done|]; split; [done|by apply strict_frame]|].
  destruct (remove_ok A g id i st2 Hw2) as (st3 & -> & Hw3 & Hf3); [by rewrite (strict_infos _ _ Hst)|].
  exists st3. split; [done|]. split; [done|]. etrans; [by apply strict_frame|done].
Qed.

Lemma log_ok A l s (st : state) : wf A st → rm.subs st !! l = Some s → rm.log_subscriber s st = Ok tt.
Proof.
  intros Hw Hl. destruct (wf_sub _ _ Hw l s Hl) as [He [x Hx] _ _ _]. unfold rm.log_subscriber. rewrite Hx.
  destruct (He x) as [d Hd]; [unfold endpoints; rewrite Hx; cbn; by left|]. by rewrite (deref_ok _ _ _ Hd).
Qed.

(** An entry of the table of an eventgroup that [find_eventgroup] found. *)
Lemma find_filed A service instance eventgroup g (st : state) : wf A st →
  rm.eventgroups_ st !! (service, instance, eventgroup) = Some g →
  ∃ st' i, rm.find_eventgroup env service instance eventgroup st = Ok (Some g, st') ∧ wf A st' ∧ frame st st'
  ∧ rm.infos st' !! g = Some i ∧ rm.subs st' = rm.subs st
  ∧ (∀ i0, rm.infos st !! g = Some i0 → eventgroupinfo.subscriptions_ i = eventgroupinfo.subscriptions_ i0)
  ∧ ∀ id l, eventgroupinfo.subscriptions_ i !! id = Some l →
      ∃ s, rm.subs st' !! l = Some s ∧ remote_subscription.eventgroupinfo_ s = Some g.
Proof.
  intros Hw Hg. destruct (find_eventgroup_ok A service instance eventgroup st Hw) as (r & st' & -> & Hw' & Hf & -> & Es & Ei).
  destruct (wf_groups _ _ Hw _ _ Hg) as [i0 Hi0]. destruct (Ei g i0 Hi0) as (i & Hi & Et).
  exists st', i. rewrite Hg. repeat (split; [done|]). split.
  - intros j Hj. rewrite Hi0 in Hj. by injection Hj as <-.
  - intros id l Hl. destruct (info_filed _ _ _ (wf_info _ _ Hw' g i Hi) id l Hl) as (_ & s & Hs & _ & Hsg). by exists s.
Qed.

Lemma local_ok A g i event_id cs (st : state) : wf A st → rm.infos st !! g = Some i →
  ∃ out, foldM (rm.notify_local env g i event_id st) cs [] = Ok out.
Proof.
  intros Hw Hi. destruct (foldM_inv (λ _, True) (rm.notify_local env g i event_id st) cs) with (s := @nil (rm.output))
    as (out & E & _); [|done|by exists out].
  intros c out _ _. unfold rm.notify_local. destruct (c =? _); [|by eexists].
  destruct (event_id =? ANY_EVENT); [|by eexists]. apply (foldM_inv (λ _, True)); [|done].
  intros ev o Hev _. apply elem_of_by_address in Hev.
  destruct (info_events _ _ _ (wf_info _ _ Hw g i Hi) ev Hev) as [e He]. rewrite (deref_ok _ _ _ He). by eexists.
Qed.

Lemma subscribers_ok A g i event_id (st : state) : wf A st → rm.infos st !! g = Some i →
  ∃ X, rm.subscribers_of i event_id st = Ok X.
Proof.
  intros Hw Hi. destruct (foldM_inv (λ _ : gset Z, True) (λ ev acc,
    e ← rm.deref (rm.events st) ev;
    Ok (if (event_id =? ANY_EVENT) || (event_id =? event.get_event e)
        then acc ∪ event.get_subscribers e else acc)) (by_address (eventgroupinfo.events_ i))) with (s := (∅ : gset Z))
    as (X & E & _); [|done|by exists X].
  intros ev o Hev _. apply elem_of_by_address in Hev.
  destruct (info_events _ _ _ (wf_info _ _ Hw g i Hi) ev Hev) as [e He]. rewrite (deref_ok _ _ _ He). by eexists.
Qed.

Lemma wf_remote_state A x (st : state) : wf A st → wf A (rm.with_remote_state x st) ∧ frame st (rm.with_remote_state x st).
Proof.
  intros [Hs Hi Hg]. split; [split; [| |done]|by split].
  - intros l s Hl. destruct (Hs l s Hl). by split.
  - intros g i Hgi. destruct (Hi g i Hgi). by split.
Qed.

(** An acknowledgement that is applied to a subscription accepts the client for
    the endpoints of this subscription. *)
Definition accept (client : Z) (k : Z * Z * Z) (id : Z) (st : state) (A : accepted_t) : accepted_t :=
  match rm.eventgroups_ st !! k with
  | Some g => match rm.infos st !! g with
              | Some i =>
                  match eventgroupinfo.subscriptions_ i !! id ≫= λ l, rm.subs st !! l with
                  | Some s => A ∪ {[(g, remote_subscription.reliable_ s, remote_subscription.unreliable_ s, Some client)]}
                  | None => A
                  end
              | None => A
              end
  | None => A
  end.

Lemma on_subscribe_ack_ok A now client service instance eventgroup event_id id (st : state) : wf A st →
  let A' := accept client (service, instance, eventgroup) id st A in
  ∃ out st', rm.on_subscribe_ack env now client service instance eventgroup event_id id st = Ok (out, st')
  ∧ wf A' st' ∧ frame st st'.
Proof.
  intros Hw. unfold accept, rm.on_subscribe_ack. destruct (rm.eventgroups_ st !! _) as [g|] eqn:Hg.
  2:{ destruct (find_eventgroup_ok A service instance eventgroup st Hw) as (r & st' & -> & Hw' & Hf & -> & _).
      rewrite bind_Ok, Hg. by exists [], st'. }
  destruct (wf_groups _ _ Hw _ _ Hg) as [i0 Hi0]. rewrite Hi0.
  destruct (find_filed A service instance eventgroup g st Hw Hg) as (st1 & i & -> & Hw1 & Hf1 & Hi & Hsub & Et & Hfiled).
  rewrite bind_Ok, (get_info_ok _ _ _ Hi), bind_Ok. unfold eventgroupinfo.get_remote_subscription.
  rewrite (Et i0 Hi0) in *. destruct (eventgroupinfo.subscriptions_ i0 !! id) as [l|] eqn:El; cbn [mbind option_bind].
  - destruct (Hfiled id l El) as (s & Hs & Hsg). rewrite <- Hsub, Hs.
    set (A' := A ∪ _). assert (Hw1' : wf A' st1) by (apply (wf_accept A); [apply union_subseteq_l|done]).
    destruct (answer_ok A' SUBSCRIPTION_ACKED now client g id l i s st1 Hw1' Hi Hs) as (st2 & -> & Hw2 & Hf2).
    { intros _. exists g. split; [done|]. apply entitled_accepted.
      - by apply (sub_made _ _ _ (wf_sub _ _ Hw1' l s Hs)).
      - apply elem_of_union. right. by apply elem_of_singleton. }
    rewrite bind_Ok. destruct (frame_get _ _ _ _ Hf2 Hs) as (s2 & Hs2 & _).
    rewrite (get_sub_ok _ _ _ Hs2), bind_Ok, (log_ok _ _ _ _ Hw2 Hs2), bind_Ok.
    eexists _, _. split; [done|]. split; [done|by etrans].
  - destruct (decide _); [eexists _, _; by split|].
    destruct (wf_remote_state A (rm.remote_subscription_state_ st1 ∪ {[(service, instance, eventgroup, client)]}) st1 Hw1) as [Hw2 Hf2].
    set (st2 := rm.with_remote_state _ st1) in *.
    assert (∃ X, (if client =? VSOMEIP_ROUTING_CLIENT then rm.subscribers_of i event_id st2 else Ok {[client]}) = Ok X) as [X ->].
    { destruct (client =? _); [|by eexists]. by apply subscribers_ok with A g. }
    rewrite bind_Ok. destruct (local_ok A g i event_id (in_order X) st2 Hw2 Hi) as [out ->]. rewrite bind_Ok.
    eexists _, _. split; [done|]. split; [done|by etrans].
Qed.

Lemma on_subscribe_nack_ok A now client service instance eventgroup remove id (st : state) : wf A st →
  ∃ out st', rm.on_subscribe_nack env now client service instance eventgroup remove id st = Ok (out, st')
  ∧ wf A st' ∧ frame st st'.
Proof.
  intros Hw. unfold rm.on_subscribe_nack. destruct (rm.eventgroups_ st !! (service, instance, eventgroup)) as [g|] eqn:Hg.
  2:{ destruct (find_eventgroup_ok A service instance eventgroup st Hw) as (r & st' & -> & Hw' & Hf & -> & _).
      rewrite bind_Ok, Hg. by exists [], st'. }
  destruct (find_filed A service instance eventgroup g st Hw Hg) as (st1 & i & -> & Hw1 & Hf1 & Hi & _ & _ & Hfiled).
  rewrite bind_Ok, (get_info_ok _ _ _ Hi), bind_Ok. unfold eventgroupinfo.get_remote_subscription.
  destruct (eventgroupinfo.subscriptions_ i !! id) as [l|] eqn:El; [|by eexists _, _].
  destruct (Hfiled id l El) as (s & Hs & Hsg).
  destruct (answer_ok A SUBSCRIPTION_NACKED now client g id l i s st1 Hw1 Hi Hs ltac:(done)) as (st2 & -> & Hw2 & Hf2).
  rewrite bind_Ok. destruct (frame_get _ _ _ _ Hf2 Hs) as (s2 & Hs2 & _).
  rewrite (get_sub_ok _ _ _ Hs2), bind_Ok, (log_ok _ _ _ _ Hw2 Hs2), bind_Ok.
  destruct remove; [|rewrite bind_Ok; eexists _, _; split; [done|]; split; [done|by etrans]].
  destruct (frame_infos _ _ Hf2 g ltac:(by eexists)) as [i2 Hi2].
  destruct (remove_ok A g id i2 st2 Hw2 Hi2) as (st3 & -> & Hw3 & Hf3). rewrite bind_Ok.
  eexists _, _. split; [done|]. split; [done|]. etrans; [exact Hf1|by etrans].
Qed.

(** The loop in the goal keeps [P]. *)
Ltac by_loop P :=
  match goal with
  | |- context [foldM ?f ?l ?s] =>
      assert (∃ s', foldM f l s = Ok s' ∧ P s') as Hloop; [apply (foldM_inv P)|]
  end.

Lemma has_remote_ok A service instance e (st : state) : wf A st →
  ∃ b st', rm.has_remote_subscriber env service instance e st = Ok (b, st') ∧ wf A st' ∧ frame st st'.
Proof.
  intros Hw. unfold rm.has_remote_subscriber.
  by_loop (λ x : bool * state, wf A x.2 ∧ frame st x.2); [|by split|].
  2:{ destruct Hloop as ([b st'] & -> & Hw' & Hf'). by exists b, st'. }
  intros eg [b1 st1] _ [Hw1 Hf1]. cbn in Hw1, Hf1.
  destruct (find_eventgroup_ok A service instance eg st1 Hw1) as (r & st2 & -> & Hw2 & Hf2 & Er & _).
  rewrite bind_Ok. destruct r as [g|]; [|eexists; split; [done|]; split; [done|by etrans]].
  destruct (wf_groups _ _ Hw2 (service, instance, eg) g) as [i Hi]; [by rewrite (frame_groups _ _ Hf2)|].
  rewrite (get_info_ok _ _ _ Hi), bind_Ok. eexists. split; [done|]. split; [done|by etrans].
Qed.

Lemma unset_events_ok A service instance g i (st : state) : wf A st → rm.infos st !! g = Some i →
  ∃ st', rm.unset_events env service instance g st = Ok st' ∧ wf A st' ∧ frame st st'.
Proof.
  intros Hw Hi. unfold rm.unset_events. rewrite (get_info_ok _ _ _ Hi), bind_Ok. destruct (decide _); [|by exists st].
  apply (foldM_inv (λ st', wf A st' ∧ frame st st')); [|by split].
  intros ev st1 Hev [Hw1 Hf1]. apply elem_of_by_address in Hev.
  destruct (frame_events _ _ Hf1 ev (info_events _ _ _ (wf_info _ _ Hw g i Hi) ev Hev)) as [x Hx].
  unfold rm.unset_event. rewrite (deref_ok _ _ _ Hx), bind_Ok.
  destruct (has_remote_ok A service instance x st1 Hw1) as (b & st2 & -> & Hw2 & Hf2). rewrite bind_Ok.
  destruct (negb b && event.is_shadow_ x); [|exists st2; split; [done|]; split; [done|by etrans]].
  destruct (put_event_ok A ev (event.unset_payload false x) st2 Hw2) as [Hw3 Hf3].
  eexists. split; [done|]. split; [done|]. etrans; [exact Hf1|by etrans].
Qed.

Lemma on_unsubscribe_ack_ok A service instance eventgroup id (st : state) : wf A st →
  ∃ out st', rm.on_unsubscribe_ack env service instance eventgroup id st = Ok (out, st') ∧ wf A st' ∧ frame st st'.
Proof.
  intros Hw. unfold rm.on_unsubscribe_ack. destruct (rm.eventgroups_ st !! (service, instance, eventgroup)) as [g|] eqn:Hg.
  2:{ destruct (find_eventgroup_ok A service instance eventgroup st Hw) as (r & st' & -> & Hw' & Hf & -> & _).
      rewrite bind_Ok, Hg. by exists [], st'. }
  destruct (find_filed A service instance eventgroup g st Hw Hg) as (st1 & i & -> & Hw1 & Hf1 & Hi & _).
  rewrite bind_Ok, (get_info_ok _ _ _ Hi), bind_Ok.
  destruct (eventgroupinfo.get_remote_subscription id i); [|by eexists _, _].
  destruct (remove_ok A g id i st1 Hw1 Hi) as (st2 & -> & Hw2 & Hf2). rewrite bind_Ok.
  destruct (frame_infos _ _ Hf2 g ltac:(by eexists)) as [i2 Hi2].
  destruct (unset_events_ok A service instance g i2 st2 Hw2 Hi2) as (st3 & -> & Hw3 & Hf3). rewrite bind_Ok.
  eexists _, _. split; [done|]. split; [done|]. etrans; [exact Hf1|by etrans].
Qed.

(** *** Expiry *)

Lemma frame_alive st st' l : frame st st' → is_Some (rm.subs st !! l) → is_Some (rm.subs st' !! l).
Proof. intros Hf [s Hs]. destruct (frame_get _ _ _ _ Hf Hs) as (s' & -> & _). by eexists. Qed.

Lemma expire_one_ok A now x out (st : state) : wf A st → is_Some (rm.subs st !! x.1) →
  ∃ out' st', rm.expire_one env now x (out, st) = Ok (out', st') ∧ wf A st' ∧ frame st st'.
Proof.
  destruct x as [l cs]. intros Hw [s Hl]. cbn in Hl. unfold rm.expire_one.
  destruct (touch_destiny A l remote_subscription.expire s st Hw Hl) as (st1 & Ht & Hw1 & Hst1 & Hl1).
  unfold remote_subscription.set_expired. rewrite Ht, bind_Ok, (get_sub_ok _ _ _ Hl1), bind_Ok.
  pose proof (strict_frame _ _ Hst1) as Hf1.
  destruct (rm.get_eventgroupinfo _ st1) as [g|] eqn:Hg; [|by eexists _, _].
  apply lock_Some in Hg as [Hg [i Hi]]. rewrite (get_info_ok _ _ _ Hi), bind_Ok.
  destruct (update_subscription_ok A now g l now cs 0 false i _ st1 Hw1 Hi Hl1 Hg ltac:(done))
    as (r & ch & id & st2 & -> & Hw2 & Hf2 & _). rewrite bind_Ok.
  destruct r; [|eexists _, _; split; [done|]; split; [done|by etrans]].
  destruct (frame_infos _ _ Hf2 g ltac:(by eexists)) as [i2 Hi2]. rewrite (get_info_ok _ _ _ Hi2), bind_Ok.
  set (m := match eventgroupinfo.get_remote_subscription id i2 with Some _ => _ | None => _ end).
  assert (∃ st3, m = Ok st3 ∧ wf A st3 ∧ frame st2 st3) as (st3 & -> & Hw3 & Hf3).
  { unfold m. destruct (eventgroupinfo.get_remote_subscription id i2); [|by exists st2].
    destruct (remove_ok A g id i2 st2 Hw2 Hi2) as (st3 & -> & Hw3 & Hf3). rewrite bind_Ok.
    destruct (frame_infos _ _ Hf3 g ltac:(by eexists)) as [i3 Hi3].
    edestruct (unset_events_ok A) as (st4 & -> & Hw4 & Hf4); [exact Hw3|exact Hi3|]. exists st4. split; [done|]. split; [done|by etrans]. }
  rewrite bind_Ok. assert (Hf : frame st st3) by (etrans; [exact Hf1|by etrans]).
  destruct (frame_get _ _ _ _ Hf Hl) as (s3 & Hs3 & _). rewrite (get_sub_ok _ _ _ Hs3), bind_Ok.
  eexists _, _. split; [done|]. by split.
Qed.

Lemma filed_alive A g i l (st : state) : wf A st → rm.infos st !! g = Some i →
  l ∈ (map_to_list (eventgroupinfo.subscriptions_ i)).*2 → is_Some (rm.subs st !! l).
Proof.
  intros Hw Hi Hl. apply list_elem_of_fmap in Hl as ([id k] & -> & Hk). apply elem_of_map_to_list in Hk.
  destruct (info_filed _ _ _ (wf_info _ _ Hw g i Hi) id k Hk) as (_ & s & Hs & _). by exists s.
Qed.

Lemma collect_expired_ok A force now (st : state) : wf A st →
  ∃ xs next, rm.collect_expired force now st = Ok (xs, next) ∧ ∀ x, x ∈ xs → is_Some (rm.subs st !! x.1).
Proof.
  intros Hw. unfold rm.collect_expired. set (ls := by_address _).
  assert (Hls : ∀ l, l ∈ ls → is_Some (rm.subs st !! l)).
  { intros l Hl. apply elem_of_by_address, elem_of_list_to_set, list_elem_of_join in Hl as (k & Hl & Hk).
    apply list_elem_of_fmap in Hk as (i & -> & Hi). apply list_elem_of_omap in Hi as (g & _ & Hi).
    by apply (filed_alive A g i). }
  clearbody ls.
  by_loop (λ a : list (loc * gset Z) * Z, ∀ x, x ∈ a.1 → is_Some (rm.subs st !! x.1)).
  3:{ destruct Hloop as ([xs next] & -> & Hx). by exists xs, next. }
  2:{ intros x Hx. by apply elem_of_nil in Hx. }
  intros l [acc next] Hl Hacc. destruct (Hls l Hl) as [s Hs]. rewrite (get_sub_ok _ _ _ Hs), bind_Ok.
  destruct (remote_subscription.is_forwarded s); [eexists; split; [done|exact Hacc]|].
  destruct (rm.expired_clients force now s next) as [cs n]. eexists. split; [done|]. cbn. intros x Hx.
  destruct (decide (cs = ∅)); [by apply Hacc|]. apply elem_of_app in Hx as [Hx|Hx]; [by apply Hacc|].
  apply list_elem_of_singleton in Hx as ->. cbn. by exists s.
Qed.

Lemma expire_subscriptions_ok A force now (st : state) : wf A st →
  ∃ next out st', rm.expire_subscriptions env force now st = Ok (next, out, st') ∧ wf A st' ∧ frame st st'.
Proof.
  intros Hw. unfold rm.expire_subscriptions.
  destruct (collect_expired_ok A force now st Hw) as (xs & next & -> & Hx). rewrite bind_Ok.
  by_loop (λ a : list rm.output * state, wf A a.2 ∧ frame st a.2); [|by split|].
  2:{ destruct Hloop as ([out st'] & -> & Hw' & Hf'). rewrite bind_Ok. by exists next, out, st'. }
  intros x [out1 st1] Hin [Hw1 Hf1]. cbn in Hw1, Hf1.
  destruct (expire_one_ok A now x out1 st1 Hw1) as (out2 & st2 & -> & Hw2 & Hf2); [by apply (frame_alive st); [|apply Hx]|].
  eexists. split; [done|]. split; [done|]. by etrans.
Qed.

Lemma expire_of_address_ok A a lo hi reliable now l out (st : state) : wf A st → is_Some (rm.subs st !! l) →
  ∃ out' st', rm.expire_of_address env a lo hi reliable now l (out, st) = Ok (out', st') ∧ wf A st' ∧ frame st st'.
Proof.
  intros Hw [s Hs]. unfold rm.expire_of_address. rewrite (get_sub_ok _ _ _ Hs), bind_Ok.
  destruct (remote_subscription.is_forwarded s); [by eexists _, _|].
  destruct (rm.expiring_endpoint _ reliable s) as [x|] eqn:Ex; [|by eexists _, _].
  destruct (sub_endpoints _ _ _ (wf_sub _ _ Hw l s Hs) x) as [d Hd].
  { unfold rm.expiring_endpoint, endpoints in *. rewrite !elem_of_app.
    destruct ((lo =? ANY_PORT) && (hi =? ANY_PORT)), reliable, (remote_subscription.reliable_ s),
      (remote_subscription.unreliable_ s); simplify_eq; cbn; set_solver. }
  rewrite (deref_ok _ _ _ Hd), bind_Ok. destruct (bool_decide _ && _); [|by eexists _, _].
  destruct (touch_destiny A l remote_subscription.expire s st Hw Hs) as (st1 & Ht & Hw1 & Hst1 & Hl1).
  unfold remote_subscription.set_expired. rewrite Ht, bind_Ok.
  destruct (on_remote_unsubscribe_ok A now l _ st1 Hw1 Hl1) as (o & st2 & -> & Hw2 & Hf2). rewrite bind_Ok.
  eexists _, _. split; [done|]. split; [done|]. etrans; [by apply strict_frame|done].
Qed.

Lemma expire_subscriptions_of_ok A a lo hi reliable now (st : state) : wf A st →
  ∃ out st', rm.expire_subscriptions_of env a lo hi reliable now st = Ok (out, st') ∧ wf A st' ∧ frame st st'.
Proof.
  intros Hw. unfold rm.expire_subscriptions_of.
  by_loop (λ x : list rm.output * state, wf A x.2 ∧ frame st x.2); [|by split|].
  2:{ destruct Hloop as ([out st'] & -> & Hw' & Hf'). by exists out, st'. }
  intros g [out1 st1] Hg [Hw1 Hf1]. cbn in Hw1, Hf1. cbn [snd].
  apply list_elem_of_fmap in Hg as ([k g'] & -> & Hg). apply elem_of_map_to_list in Hg. cbn.
  destruct (frame_infos _ _ Hf1 g' (wf_groups _ _ Hw _ _ Hg)) as [i Hi]. rewrite (get_info_ok _ _ _ Hi), bind_Ok.
  apply (foldM_inv (λ x : list rm.output * state, wf A x.2 ∧ frame st x.2)); [|by split].
  intros l [out2 st2] Hl [Hw2 Hf2]. cbn in Hw2, Hf2.
  assert (Hal : is_Some (rm.subs st1 !! l)).
  { apply elem_of_by_address, elem_of_list_to_set in Hl. by apply (filed_alive A g' i). }
  assert (Hal2 : is_Some (rm.subs st2 !! l)).
  { apply (frame_alive st); [done|]. destruct Hal as [s1 Hs1]. pose proof (frame_subs _ _ Hf1 l) as Hc. rewrite Hs1 in Hc.
    destruct (rm.subs st !! l) as [s|]; [by exists s|done]. }
  destruct (expire_of_address_ok A a lo hi reliable now l out2 st2 Hw2 Hal2) as (o & st3 & -> & Hw3 & Hf3).
  eexists. split; [done|]. split; [done|by etrans].
Qed.

(** ** Runs

    The calls that reach the routing manager.  An arriving subscription is
    created at a location that is free and that no weak pointer refers to. *)

Inductive handler : Type :=
| subscription (now : Z) (l g : loc) (subscriber reliable unreliable : option loc) (cs : list Z) (ttl factor : Z)
    (force stop : bool)
| subscribe_ack (now client service instance eventgroup event_id id : Z)
| subscribe_nack (now client service instance eventgroup : Z) (remove : bool) (id : Z)
| unsubscribe_ack (service instance eventgroup id : Z)
| expire (force : bool) (now : Z)
| expire_address (a : addr) (lo hi : Z) (reliable : bool) (now : Z).

Definition exec (h : handler) (st : state) : result (list rm.output * state) :=
  match h with
  | subscription now l g sb rl ul cs ttl factor force stop =>
      rm.handle_subscription env now l g sb rl ul cs ttl factor force stop st
  | subscribe_ack now c sv ins eg ev id => rm.on_subscribe_ack env now c sv ins eg ev id st
  | subscribe_nack now c sv ins eg rem id => rm.on_subscribe_nack env now c sv ins eg rem id st
  | unsubscribe_ack sv ins eg id => rm.on_unsubscribe_ack env sv ins eg id st
  | expire force now => '(_, out, st) ← rm.expire_subscriptions env force now st; Ok (out, st)
  | expire_address a lo hi rel now => rm.expire_subscriptions_of env a lo hi rel now st
  end.

Definition enabled (h : handler) (st : state) : Prop :=
  match h with
  | subscription _ l _ sb rl ul _ _ _ _ _ =>
      rm.subs st !! l = None
      ∧ (∀ k s, rm.subs st !! k = Some s → remote_subscription.parent_ s ≠ Some l)
      ∧ ∀ x, x ∈ option_list sb ++ option_list rl ++ option_list ul → is_Some (rm.eps st !! x)
  | _ => True
  end.

(** What has arrived and been accepted after the call. *)
Definition accepts (h : handler) (st : state) (A : accepted_t) : accepted_t :=
  match h with
  | subscription _ _ g (Some _) rl ul _ _ _ _ _ => A ∪ {[(g, rl, ul, None)]}
  | subscribe_ack _ c sv ins eg _ id => accept c (sv, ins, eg) id st A
  | _ => A
  end.

Inductive step : accepted_t * state → accepted_t * state → Prop :=
| step_handler A st h out st' :
    enabled h st → exec h st = Ok (out, st') → step (A, st) (accepts h st A, st')
| step_destroy A st l :
    unfiled st l → step (A, st) (A, rm.with_subs (delete l (rm.subs st)) st).

Definition initial (st : state) : Prop :=
  rm.subs st = ∅
  ∧ (∀ g i, rm.infos st !! g = Some i → eventgroupinfo.subscriptions_ i = ∅
       ∧ ∀ ev, ev ∈ eventgroupinfo.events_ i → is_Some (rm.events st !! ev))
  ∧ ∀ k g, rm.eventgroups_ st !! k = Some g → is_Some (rm.infos st !! g).

Lemma initial_wf st : initial st → wf ∅ st.
Proof.
  intros (Hs & Hi & Hg). split; [| |done].
  - intros l s. rewrite Hs, lookup_empty. done.
  - intros g i Hgi. destruct (Hi g i Hgi) as [Ht He]. split; [|done]. intros id l. by rewrite Ht, lookup_empty.
Qed.

Lemma fresh_unfiled A l (st : state) : wf A st → rm.subs st !! l = None → unfiled st l.
Proof.
  intros Hw Hl g i id Hi Hid. destruct (info_filed _ _ _ (wf_info _ _ Hw g i Hi) id l Hid) as (_ & s & Hs & _). congruence.
Qed.

Lemma reset_pending cs s c x : clients s = ∅ → clients (remote_subscription.reset cs s) !! c = Some x →
  x = (SUBSCRIPTION_PENDING, 0).
Proof.
  intros Hs. unfold remote_subscription.reset.
  assert (Hl : ∀ l, foldl (λ m c, <[c := (SUBSCRIPTION_PENDING, 0)]> m) (∅ : gmap Z (remote_subscription_state_e * Z)) l !! c = Some x →
    x = (SUBSCRIPTION_PENDING, 0)).
  { intros l. rewrite foldl_insert_lookup. case_decide; [congruence|by rewrite lookup_empty]. }
  destruct cs as [|k cs]; cbn [remote_subscription.clients_ remote_subscription.with_clients]; rewrite Hs; [apply (Hl [0])|apply (Hl (k :: cs))].
Qed.

Lemma make_core g sb rl ul cs ttl force : core (rm.make_subscription g sb rl ul cs ttl force) = (Some g, sb, rl, ul)
  ∧ remote_subscription.parent_ (rm.make_subscription g sb rl ul cs ttl force) = None.
Proof. unfold rm.make_subscription. by destruct force, cs. Qed.

Lemma make_acked A g sb rl ul cs ttl force : acked_ok A (rm.make_subscription g sb rl ul cs ttl force).
Proof.
  intros c t Hc. assert (Hx : clients (rm.make_subscription g sb rl ul cs ttl force) =
    clients (remote_subscription.reset cs (remote_subscription.set_unreliable ul (remote_subscription.set_reliable rl
      (remote_subscription.set_subscriber sb (remote_subscription.set_eventgroupinfo (Some g) remote_subscription.create)))))).
  { unfold rm.make_subscription. by destruct force. }
  rewrite Hx in Hc. by apply reset_pending in Hc.
Qed.

Lemma new_sub_wf A l s (st : state) : wf A st → rm.subs st !! l = None →
  (∀ k x, rm.subs st !! k = Some x → remote_subscription.parent_ x ≠ Some l) →
  (∀ x, x ∈ endpoints s → is_Some (rm.eps st !! x)) → is_Some (remote_subscription.subscriber_ s) →
  remote_subscription.parent_ s = None → acked_ok A s → made_ok A s → wf A (rm.put_sub l s st).
Proof.
  intros [Hs Hi Hg] Hl Hfree He Hsub Hp Ha Hm. split; [| |done].
  - intros k x Hk. cbn in Hk. destruct (decide (l = k)) as [<-|].
    + rewrite lookup_insert_eq in Hk. injection Hk as <-. split; [done..| |done|done]. by rewrite Hp.
    + rewrite lookup_insert_ne in Hk by done. destruct (Hs k x Hk) as [E1 E2 E3 E4 E5]. split; [done..| |done|done].
      intros p sp Hpp. cbn. rewrite lookup_insert_ne; [by apply E3|]. intros <-. by apply (Hfree k x).
  - intros g i Hgi. destruct (Hi g i Hgi) as [F1 F2]. split; [|done].
    intros id k Hk. destruct (F1 id k Hk) as (Hr & x & Hx & Hxi & Hxg). split; [done|]. exists x. split; [|done].
    cbn. rewrite lookup_insert_ne; [done|]. intros <-. congruence.
Qed.

(** An arriving subscription keeps the invariant. *)
Lemma made_wf A l g x rl ul cs ttl force (st : state) : wf A st → rm.subs st !! l = None →
  (∀ k s, rm.subs st !! k = Some s → remote_subscription.parent_ s ≠ Some l) →
  (∀ y, y ∈ option_list (Some x) ++ option_list rl ++ option_list ul → is_Some (rm.eps st !! y)) →
  wf (A ∪ {[(g, rl, ul, None)]}) (rm.put_sub l (rm.make_subscription g (Some x) rl ul cs ttl force) st).
Proof.
  intros Hw Hl Hfree Hep. destruct (make_core g (Some x) rl ul cs ttl force) as [Hc Hp].
  set (A' := A ∪ _). apply (wf_accept A A') in Hw; [|apply union_subseteq_l].
  pose proof (make_acked A' g (Some x) rl ul cs ttl force) as Ha.
  revert Hc Hp Ha. generalize (rm.make_subscription g (Some x) rl ul cs ttl force). intros s Hc Hp Ha. pose proof Hc as [= H1 H2 H3 H4].
  apply new_sub_wf; [done..| | |done|done|].
  - intros y. unfold endpoints. rewrite H2, H3, H4. apply Hep.
  - by rewrite H2.
  - intros g'. rewrite H1, H3, H4. intros [= <-]. apply elem_of_union. right. by apply elem_of_singleton.
Qed.

(** Every enabled call is defined and keeps the invariant. *)
Lemma exec_ok A h (st : state) : wf A st → enabled h st →
  ∃ out st', exec h st = Ok (out, st') ∧ wf (accepts h st A) st'.
Proof.
  intros Hw He. destruct h as [now l g sb rl ul cs ttl factor force stop|now c sv ins eg ev id|now c sv ins eg rem id|sv ins eg id|force now|a lo hi rel now]; cbn [exec accepts].
  - destruct He as (Hl & Hfree & Hep). unfold rm.handle_subscription. destruct sb as [x|]; [|by exists [], st].
    assert (Hw1 : ∀ t f, wf (A ∪ {[(g, rl, ul, None)]}) (rm.put_sub l (rm.make_subscription g (Some x) rl ul cs t f) st)) by (intros t f; by apply made_wf).
    destruct (ttl =? 0); [destruct stop; [by eexists _, _|]|].
    + destruct (on_remote_unsubscribe_ok _ now l _ _ (Hw1 0 false) (put_sub_eq _ _ _)) as (out & st' & -> & Hw' & _). by exists out, st'.
    + destruct (on_remote_subscribe_ok _ now l _ _ (Hw1 (u32 (ttl * factor)) force) (put_sub_eq _ _ _)) as (out & st' & -> & Hw' & _); [|by exists out, st'].
      intros g' i id Hi. by apply (fresh_unfiled A l st Hw Hl g' i id).
  - destruct (on_subscribe_ack_ok A now c sv ins eg ev id st Hw) as (out & st' & -> & Hw' & _). by exists out, st'.
  - destruct (on_subscribe_nack_ok A now c sv ins eg rem id st Hw) as (out & st' & -> & Hw' & _). by exists out, st'.
  - destruct (on_unsubscribe_ack_ok A sv ins eg id st Hw) as (out & st' & -> & Hw' & _). by exists out, st'.
  - destruct (expire_subscriptions_ok A force now st Hw) as (next & out & st' & -> & Hw' & _). rewrite bind_Ok. by exists out, st'.
  - destruct (expire_subscriptions_of_ok A a lo hi rel now st Hw) as (out & st' & -> & Hw' & _). by exists out, st'.
Qed.

Lemma destroy_wf A l (st : state) : wf A st → unfiled st l → wf A (rm.with_subs (delete l (rm.subs st)) st).
Proof.
  intros [Hs Hi Hg] Hu. split; [| |done].
  - intros k s Hk. cbn in Hk. apply lookup_delete_Some in Hk as [_ Hk]. destruct (Hs k s Hk) as [E1 E2 E3 E4 E5]. split; [done..| |done|done].
    intros p sp Hp Hsp. cbn in Hsp. apply lookup_delete_Some in Hsp as [_ Hsp]. by apply (E3 p).
  - intros g i Hgi. destruct (Hi g i Hgi) as [F1 F2]. split; [|done].
    intros id k Hk. destruct (F1 id k Hk) as (Hr & s & Hk' & Hrest). split; [done|]. exists s. split; [|done]. cbn.
    rewrite lookup_delete_ne; [done|]. intros <-. by apply (Hu g i id).
Qed.

Lemma reachable_wf x y : rtc step x y → wf x.1 x.2 → wf y.1 y.2.
Proof.
  induction 1 as [|x y z Hxy _ IH]; [done|]. intros Hw. apply IH. destruct Hxy as [A st h out st' He Hx|A st l Hu]; cbn in *.
  - destruct (exec_ok A h st Hw He) as (out' & st'' & E & Hw'). rewrite Hx in E. injection E as _ <-. done.
  - by apply destroy_wf.
Qed.
End wf.

(** ** Properties *)

(** (C24) Every call of the service discovery and of the offering clients that the
    routing manager handles for remote subscriptions is defined: in any state
    reached by any sequence of arriving and ending subscriptions, positive and
    negative answers, confirmations, expiries (by time and by address) and
    released objects, no handler dereferences an object that is gone. *)
Theorem subscription_handlers_defined {addr : Type} `{Countable addr} (env : rm.environment (addr := addr))
    (st0 st : rm.state) (A : accepted_t) (h : handler)
    (Hinit : initial st0) (Hrun : rtc (step env) (∅, st0) (A, st)) (Henabled : enabled h st) :
  ∃ out st', exec env h st = Ok (out, st').
Proof.
  pose proof (reachable_wf env _ _ Hrun (initial_wf st0 Hinit)) as Hw.
  destruct (exec_ok env A h st Hw Henabled) as (out & st' & E & _). by exists out, st'.
Qed.


Definition example_env : rm.environment (addr := Z) :=
  rm.mk_environment (λ _ _, 30509) (λ _ _, 30490) (λ _ _ _, None) (λ _ _ _, 0) (λ _ _, Some (0, 3)) 1.

Definition example_rm (max : Z) : rm.state (addr := Z) :=
  rm.mk {[ 0%nat := endpoint_definition.create 42 40000 false; 1%nat := endpoint_definition.create 42 40001 false;
           2%nat := endpoint_definition.create 42 40002 false; 3%nat := endpoint_definition.create 42 40003 false ]}
    ∅ ∅ {[ 5%nat := eventgroupinfo.create 0x1234 1 7 0 3 max ]}
    {[ (0x1234, 1, 7) := 5%nat ]} ∅.

Lemma example_initial max : initial (example_rm max).
Proof.
  split; [done|]. split.
  - intros g i Hi. unfold example_rm in Hi. cbn [rm.infos] in Hi. apply lookup_singleton_Some in Hi as [<- <-]. split; [done|].
    intros ev Hev. by apply elem_of_empty in Hev.
  - intros k g Hg. unfold example_rm in Hg. cbn [rm.eventgroups_] in Hg. apply lookup_singleton_Some in Hg as [<- <-]. by eexists.
Qed.

(** A subscription of location [l] over the endpoint [ep] for the given clients. *)
Definition arrives (now : Z) (l ep : nat) (cs : list Z) : handler (addr := Z) :=
  subscription now l 5%nat (Some ep) None (Some ep) cs 3 1 false false.
Definition accepted (now c id : Z) : handler (addr := Z) := subscribe_ack now c 0x1234 1 7 0xFFFF id.

Fixpoint exec_all (hs : list (handler (addr := Z))) (st : rm.state (addr := Z)) : result (list rm.output * rm.state (addr := Z)) :=
  match hs with
  | [] => Ok ([], st)
  | h :: hs => '(out, st) ← exec example_env h st; '(out', st) ← exec_all hs st; Ok (out ++ out', st)
  end.

Definition state_after (hs : list (handler (addr := Z))) (st : rm.state (addr := Z)) : rm.state (addr := Z) :=
  match exec_all hs st with Ok (_, st) => st | _ => st end.

Definition example_accepted : rm.state (addr := Z) := state_after [arrives 100 1 0 []; accepted 200 0 1] (example_rm 3).

Lemma example_enabled : enabled (arrives 100 1 0 []) (example_rm 3).
Proof.
  split; [done|]. split; [intros k s Hk; cbn in Hk; by rewrite lookup_empty in Hk|]. intros x Hx. cbn in Hx.
  assert (x = 0%nat) as -> by set_solver. by eexists.
Qed.

Definition example_marks : accepted_t :=
  {[ (5%nat, None, Some 0%nat, None); (5%nat, None, Some 0%nat, Some 0) ]}.

Lemma example_reach : rtc (step example_env) (∅, example_rm 3) (example_marks, example_accepted).
Proof.
  eapply rtc_l; [eapply (step_handler example_env ∅ (example_rm 3) (arrives 100 1 0 [])); [apply example_enabled|vm_compute; reflexivity]|].
  eapply rtc_l; [eapply (step_handler example_env _ _ (accepted 200 0 1)); [exact I|vm_compute; reflexivity]|].
  match goal with |- rtc _ (?X, ?a) (?Y, ?b) => replace X with Y by (vm_compute; reflexivity) end.
  match goal with |- rtc _ (?X, ?a) (?Y, ?b) => replace b with a by (vm_compute; reflexivity) end. apply rtc_refl.
Qed.


Lemma subscription_handlers_defined_witness :
  ∃ out st', exec example_env (arrives 100 1 0 []) (example_rm 3) = Ok (out, st').
Proof.
  apply (subscription_handlers_defined example_env (example_rm 3) (example_rm 3) ∅ (arrives 100 1 0 []) (example_initial 3)
           (rtc_refl _ _) example_enabled).
Defined.
