(* ===== verification/SubscriptionLimit.v ===== *)
(** * Remote subscriptions: the limit of subscribers

    The counter of the subscriptions of an address over all runs of the handlers,
    the number of entries of the table it limits, and what the counter misses. *)

From stdpp Require Import base list gmap sorting relations.
From Stdlib Require Import ZArith Lia.
From S2P Require Import Prelude Maps Message Protocol Event Subscription SubscriptionFacts.

#[local] Set Warnings "-clear-no-such-hyp".

(** ** The limit of subscribers of an address *)

Section limit.
Context {addr : Type} `{Countable addr}.
Abbreviation state := (rm.state (addr := addr)).
Abbreviation info := (eventgroupinfo.t addr).

Definition address_of (st : state) (l : loc) : option addr :=
  s ← rm.subs st !! l;
  match rm.get_ip_address s st with Ok a => a | _ => None end.

(** The entries of the table that belong to an address. *)
Definition entries (st : state) (a : addr) (i : info) : gmap Z loc :=
  filter (λ x, address_of st x.2 = Some a) (eventgroupinfo.subscriptions_ i).

Definition counter (a : addr) (i : info) : Z := default 0 (eventgroupinfo.remote_subscribers_count_ i !! a).

(** What the limit is about: the table, the identifier it gave last, the counters
    and the limit itself. *)
Definition tally (i : info) : gmap Z loc * Z * gmap addr Z * Z :=
  (eventgroupinfo.subscriptions_ i, eventgroupinfo.id_ i, eventgroupinfo.remote_subscribers_count_ i,
   eventgroupinfo.max_remote_subscribers_ i).

(** The counters are at most the numbers of entries and at most the limit plus
    one; while there are no child subscriptions, which are not counted, they are
    the numbers of entries. *)
Definition counted (children : bool) (st : state) (i : info) : Prop :=
  0 ≤ eventgroupinfo.max_remote_subscribers_ i < 255 ∧
  ∀ a, 0 ≤ counter a i ≤ Z.of_nat (size (entries st a i))
     ∧ counter a i ≤ eventgroupinfo.max_remote_subscribers_ i + 1
     ∧ (children = false → counter a i = Z.of_nat (size (entries st a i))).

Definition counted_at (children : bool) (g : loc) (st : state) : Prop :=
  ∃ i, rm.infos st !! g = Some i ∧ counted children st i.

Lemma entries_insert st a id l (i : info) : eventgroupinfo.subscriptions_ i !! id = None →
  Z.of_nat (size (filter (λ x, address_of st x.2 = Some a) (<[id := l]> (eventgroupinfo.subscriptions_ i))))
  = Z.of_nat (size (entries st a i)) + (if decide (address_of st l = Some a) then 1 else 0).
Proof.
  intros Hid. unfold entries. destruct (decide _) as [Ha|Ha].
  - rewrite map_filter_insert_True by done. rewrite map_size_insert_None; [lia|].
    apply map_lookup_filter_None. by left.
  - rewrite map_filter_insert_False by done. rewrite delete_id by done. lia.
Qed.

Lemma entries_delete st a id l (i : info) : eventgroupinfo.subscriptions_ i !! id = Some l →
  Z.of_nat (size (filter (λ x, address_of st x.2 = Some a) (delete id (eventgroupinfo.subscriptions_ i))))
  = Z.of_nat (size (entries st a i)) - (if decide (address_of st l = Some a) then 1 else 0).
Proof.
  intros Hid. unfold entries. rewrite map_filter_delete. destruct (decide _) as [Ha|Ha].
  - rewrite map_size_delete_Some; [|exists l; by apply map_lookup_filter_Some].
    assert (size (filter (λ x, address_of st x.2 = Some a) (eventgroupinfo.subscriptions_ i)) ≠ 0%nat); [|lia].
    rewrite map_size_empty_iff. intros E. assert (Hx : filter (λ x, address_of st x.2 = Some a) (eventgroupinfo.subscriptions_ i) !! id = Some l)
      by (by apply map_lookup_filter_Some). rewrite E, lookup_empty in Hx. done.
  - rewrite delete_id; [lia|]. apply map_lookup_filter_None. right. intros y Hy Hya. rewrite Hid in Hy. by injection Hy as <-.
Qed.

(** ** Changes that the limit does not see *)

Record quiet (g : loc) (st st' : state) : Prop := {
  quiet_address : ∀ k, address_of st' k = address_of st k;
  quiet_tally : tally <$> rm.infos st' !! g = tally <$> rm.infos st !! g
}.

#[export] Instance quiet_preorder g : PreOrder (quiet g).
Proof. split; [by split|]. intros a b c [H1 H2] [J1 J2]. split; [intros k; by rewrite J1|by rewrite J2]. Qed.

Lemma entries_same st st' a (i i' : info) : (∀ k, address_of st' k = address_of st k) →
  eventgroupinfo.subscriptions_ i' = eventgroupinfo.subscriptions_ i → entries st' a i' = entries st a i.
Proof. intros Hk Ht. unfold entries. rewrite Ht. apply map_filter_ext. intros id l _. cbn. by rewrite Hk. Qed.

Lemma counted_quiet b g st st' : quiet g st st' → counted_at b g st → counted_at b g st'.
Proof.
  intros [Ha Ht] (i & Hi & Hm & Hc). rewrite Hi in Ht. cbn [fmap option_fmap option_map] in Ht.
  destruct (rm.infos st' !! g) as [i'|] eqn:Hi'; [|done]. injection Ht as H1 H2 H3 H4.
  exists i'. split; [done|]. split; [by rewrite H4|]. intros a. unfold counter. rewrite H3, H4, (entries_same st st' a i i' Ha H1).
  apply Hc.
Qed.

(** Objects whose endpoints keep their addresses. *)
Lemma address_of_same st st' :
  (∀ k, rm.subs st !! k = None ↔ rm.subs st' !! k = None) →
  (∀ k s s', rm.subs st !! k = Some s → rm.subs st' !! k = Some s' →
     remote_subscription.reliable_ s' = remote_subscription.reliable_ s
     ∧ remote_subscription.unreliable_ s' = remote_subscription.unreliable_ s) →
  (∀ x, endpoint_definition.address_ <$> rm.eps st' !! x = endpoint_definition.address_ <$> rm.eps st !! x) →
  ∀ k, address_of st' k = address_of st k.
Proof.
  intros Hn Hs He k. unfold address_of. specialize (Hn k).
  destruct (rm.subs st !! k) as [s|] eqn:E, (rm.subs st' !! k) as [s'|] eqn:E'; [| | |done].
  2:{ discriminate (proj2 Hn eq_refl). }
  2:{ discriminate (proj1 Hn eq_refl). }
  destruct (Hs k s s' E E') as [Hr Hu]. cbn. unfold rm.get_ip_address, rm.deref. rewrite Hr, Hu.
  destruct (remote_subscription.reliable_ s) as [x|].
  - specialize (He x). by destruct (rm.eps st' !! x), (rm.eps st !! x); simplify_eq/=; rewrite ?He.
  - destruct (remote_subscription.unreliable_ s) as [x|]; [|done].
    specialize (He x). by destruct (rm.eps st' !! x), (rm.eps st !! x); simplify_eq/=; rewrite ?He.
Qed.

Lemma put_sub_quiet g l s s' st : rm.subs st !! l = Some s → core s' = core s → quiet g st (rm.put_sub l s' st).
Proof.
  intros Hl Hc. injection Hc as _ _ H1 H2. split; [|done]. apply address_of_same; [| |done]; intros k.
  - destruct (decide (l = k)) as [<-|]; [by rewrite put_sub_eq, Hl|by rewrite put_sub_ne].
  - intros x x' Hx Hx'. destruct (decide (l = k)) as [<-|]; [|rewrite put_sub_ne in Hx' by done; by simplify_eq].
    rewrite put_sub_eq in Hx'. by simplify_eq.
Qed.
Lemma on_sub_quiet g l f st st' : rm.on_sub l f st = Ok st' → (∀ s, core (f s) = core s) → quiet g st st'.
Proof.
  intros Hon Hf. unfold rm.on_sub, rm.get_sub, rm.deref in Hon. destruct (rm.subs st !! l) as [s|] eqn:Hl; [|done].
  injection Hon as <-. by apply put_sub_quiet with s.
Qed.

Lemma with_events_quiet g ev st : quiet g st (rm.with_events ev st).
Proof. by split. Qed.

(** A loop whose rounds are related by a preorder. *)
Lemma foldM_related {A S} (R : S → S → Prop) `{!PreOrder R} (f : A → S → result S) l :
  (∀ x s s', x ∈ l → f x s = Ok s' → R s s') → ∀ s s', foldM f l s = Ok s' → R s s'.
Proof.
  induction l as [|x l IH]; intros Hf s s'; cbn [foldM]; [by intros [= <-]|].
  intros (s1 & H1 & H2)%bind_Ok_inv. etrans; [apply (Hf x); [by left|done]|].
  apply IH; [|done]. intros y t t' Hy. apply Hf. by right.
Qed.

Lemma find_eventgroup_quiet env g sv ins eg st r st' :
  rm.find_eventgroup env sv ins eg st = Ok (r, st') → quiet g st st'.
Proof.
  intros Hf. unfold rm.find_eventgroup, rm.get_info, rm.deref in Hf. peel; try done; split; try done.
  cbn; match goal with |- context [<[?k := _]> _ !! g] => destruct (decide (k = g)) as [<-|] end;
    [rewrite lookup_insert_eq|by rewrite lookup_insert_ne];
    match goal with H : rm.infos st !! _ = Some _ |- _ => rewrite H end; by destruct (rm.get_multicast _ _ _ _) as [[]|].
Qed.

Lemma set_port_quiet g port ep st st' : rm.set_port port ep st = Ok st' → quiet g st st'.
Proof.
  unfold rm.set_port, rm.deref. intros Hp. peel; [|done]. split; [|done]. apply address_of_same; [done| |].
  - intros k s s' Hs Hs'. cbn in Hs'. by simplify_eq.
  - intros y. cbn. match goal with |- context [<[?k := _]> _ !! y] => destruct (decide (k = y)) as [<-|] end;
      [rewrite lookup_insert_eq|by rewrite lookup_insert_ne].
    match goal with H : rm.eps st !! _ = Some _ |- _ => by rewrite H end.
Qed.

Lemma set_remote_ports_quiet env g s i st st' : rm.set_remote_ports env s i st = Ok st' → quiet g st st'.
Proof. intros Hp. unfold rm.set_remote_ports in Hp. res_inv. etrans; eapply set_port_quiet; eassumption. Qed.


Lemma copy_state_quiet g now it l b c x y : rm.copy_state now it l b c x = Ok y → quiet g x.2 y.2.
Proof.
  destruct x as [ch st]. unfold rm.copy_state. intros Hc. peel. cbn [snd].
  eapply on_sub_quiet; [eassumption|]. intros s. apply rest_core, set_client_state_rest.
Qed.

#[local] Instance quiet_snd_preorder {A} g : PreOrder (λ x y : A * state, quiet g x.2 y.2).
Proof. split; [by intros x|]. intros a b c. apply transitivity. Qed.

Lemma merge_quiet g now it l t b st ch id st' : rm.merge now it l t b st = Ok (ch, id, st') → quiet g st st'.
Proof.
  unfold rm.merge, rm.get_sub, rm.deref. intros Hm. peel.
  etrans; [eapply put_sub_quiet; [eassumption|]|].
  2:{ match goal with H : foldM _ _ (_, ?s) = Ok (_, ?t) |- _ =>
        apply (foldM_related (λ x y : gset Z * state, quiet g x.2 y.2)) in H; [exact H|] end.
      intros c1 s1 s2 _. apply copy_state_quiet. }
  match goal with H : remote_subscription.update ?cs ?t ?b ?s = (_, ?s') |- _ =>
    pose proof (update_rest cs t b s) as Hr; rewrite H in Hr end. by apply rest_core.
Qed.

Lemma remove_pending_quiet g x ev st st' : rm.remove_pending x ev st = Ok st' → quiet g st st'.
Proof. unfold rm.remove_pending. intros. res_inv. apply with_events_quiet. Qed.

Lemma leave_quiet g g' it st st' : rm.leave g' it st = Ok st' → quiet g st st'.
Proof.
  unfold rm.leave. intros Hl. peel; try done.
  all: eapply (foldM_related (quiet g)); [|eassumption]; intros y s s' _; apply remove_pending_quiet.
Qed.

Lemma unsubscribing_quiet g now g' l t ch0 id0 st r ch id st' :
  rm.update_subscription now g' l t ch0 id0 false st = Ok (r, ch, id, st') → quiet g st st'.
Proof.
  unfold rm.update_subscription. intros Hu. peel; try done.
  etrans; [eapply merge_quiet; eassumption|eapply leave_quiet; eassumption].
Qed.

(** ** Removals *)

Lemma remove_effect g id st st' i : rm.infos st !! g = Some i → rm.remove_remote_subscription g id st = Ok st' →
  (eventgroupinfo.subscriptions_ i !! id = None ∧ quiet g st st')
  ∨ ∃ l, eventgroupinfo.subscriptions_ i !! id = Some l ∧ (∀ k, address_of st' k = address_of st k)
    ∧ tally <$> rm.infos st' !! g
      = Some (tally (let i := from_option (λ a, eventgroupinfo.count_down a i) i (address_of st l) in
                     eventgroupinfo.with_table (delete id (eventgroupinfo.subscriptions_ i)) (eventgroupinfo.id_ i) i)).
Proof.
  intros Hi Hr. unfold rm.remove_remote_subscription in Hr. rewrite (get_info_ok _ _ _ Hi), bind_Ok in Hr.
  destruct (eventgroupinfo.subscriptions_ i !! id) as [l|] eqn:El; [right|left].
  - apply bind_Ok_inv in Hr as (j & Hj & [= <-]). exists l. split; [done|]. split; [done|]. cbn. rewrite lookup_insert_eq. cbn.
    unfold rm.get_sub, rm.deref in Hj. unfold address_of. destruct (rm.subs st !! l) as [s|]; [|done].
    rewrite bind_Ok in Hj. apply bind_Ok_inv in Hj as (a & Ha & [= <-]). cbn. rewrite Ha. by destruct a.
  - rewrite bind_Ok, delete_id in Hr by done. injection Hr as <-. split; [done|]. split; [done|]. cbn. rewrite lookup_insert_eq, Hi. done.
Qed.

Lemma count_down_counter a b (i : info) : 0 ≤ counter a i →
  counter b (eventgroupinfo.count_down a i) = if decide (a = b) then Z.max 0 (counter b i - 1) else counter b i.
Proof.
  unfold eventgroupinfo.count_down, counter. intros H0. destruct (eventgroupinfo.remote_subscribers_count_ i !! a) as [n|] eqn:E.
  2:{ destruct (decide (a = b)) as [<-|]; [by rewrite E|done]. }
  cbn in H0. change (id n) with n in H0. destruct (Z.eqb_spec n 0) as [->|Hn].
  - destruct (decide (a = b)) as [<-|]; [by rewrite E|done].
  - cbn [eventgroupinfo.remote_subscribers_count_ eventgroupinfo.with_count]. destruct (decide (a = b)) as [<-|].
    + rewrite lookup_insert_eq, E. change (n - 1 = Z.max 0 (n - 1)). lia.
    + by rewrite lookup_insert_ne.
Qed.

Lemma tally_counted b g (st' : state) (i : info) :
  tally <$> rm.infos st' !! g = Some (tally i) → counted b st' i → counted_at b g st'.
Proof.
  destruct (rm.infos st' !! g) as [i'|] eqn:E; [|done]. intros [= H1 H2 H3 H4] [Hm Hc]. exists i'. split; [done|].
  split; [by rewrite H4|]. intros a. unfold counter, entries in *. rewrite H1, H3, H4. apply Hc.
Qed.

Lemma remove_counted b g id st st' : rm.remove_remote_subscription g id st = Ok st' → counted_at b g st → counted_at b g st'.
Proof.
  intros Hr (i & Hi & Hc). destruct (remove_effect g id st st' i Hi Hr) as [[_ Hq]|(l & El & Ha & Ht)].
  { apply (counted_quiet b g st); [done|]. by exists i. }
  eapply tally_counted; [exact Ht|]. clear Ht Hr. cbv zeta. destruct Hc as [Hm Hc].
  set (j := from_option _ _ _).
  assert (Hj : eventgroupinfo.subscriptions_ j = eventgroupinfo.subscriptions_ i
             ∧ eventgroupinfo.max_remote_subscribers_ j = eventgroupinfo.max_remote_subscribers_ i
             ∧ ∀ a, counter a j = if decide (address_of st l = Some a) then Z.max 0 (counter a i - 1) else counter a i).
  { unfold j. destruct (address_of st l) as [x|]; cbn [from_option].
    2:{ split; [done|]. split; [done|]. intros a. by rewrite decide_False. }
    split; [apply count_down_table|]. split; [unfold eventgroupinfo.count_down; by destruct (_ !! x) as [n|]; [destruct (n =? 0)|]|].
    intros a. rewrite count_down_counter by apply Hc. apply decide_ext. naive_solver. }
  destruct Hj as (Hj1 & Hj2 & Hj3). split; [cbn; by rewrite Hj2|]. intros a.
  change (counter a (eventgroupinfo.with_table _ _ j)) with (counter a j).
  cbn [eventgroupinfo.max_remote_subscribers_ eventgroupinfo.with_table]. rewrite Hj3, Hj2.
  pose proof (entries_delete st a id l i El) as Hd.
  assert (He : entries st' a (eventgroupinfo.with_table (delete id (eventgroupinfo.subscriptions_ j)) (eventgroupinfo.id_ j) j)
    = filter (λ x, address_of st x.2 = Some a) (delete id (eventgroupinfo.subscriptions_ i))).
  { unfold entries. cbn [eventgroupinfo.subscriptions_ eventgroupinfo.with_table]. rewrite Hj1.
    apply map_filter_ext. intros k x _. cbn. by rewrite Ha. }
  rewrite He, Hd. destruct (Hc a) as (H1 & H2 & H3). destruct (decide _); [|rewrite Z.sub_0_r; done].
  assert (0 ≤ Z.of_nat (size (entries st a i)) - 1) by (rewrite <- Hd; lia).
  split_and!; [lia..|]. intros Hb%H3. lia.
Qed.

Lemma remove_other g g' id st st' : g ≠ g' → rm.remove_remote_subscription g' id st = Ok st' → quiet g st st'.
Proof.
  intros Hne Hr. unfold rm.remove_remote_subscription in Hr. res_inv. split; [done|]. cbn. by rewrite lookup_insert_ne.
Qed.

Definition mild (g : loc) : state → state → Prop :=
  rtc (λ st st', quiet g st st' ∨ ∃ id, rm.remove_remote_subscription g id st = Ok st').

#[export] Instance mild_preorder g : PreOrder (mild g).
Proof. apply rtc_po. Qed.

Lemma quiet_mild g st st' : quiet g st st' → mild g st st'.
Proof. intros Hq. apply rtc_once. by left. Qed.

Lemma remove_mild g g' id st st' : rm.remove_remote_subscription g' id st = Ok st' → mild g st st'.
Proof.
  intros Hr. destruct (decide (g = g')) as [<-|]; [apply rtc_once; right; by exists id|].
  by apply quiet_mild, (remove_other g g' id).
Qed.

Lemma mild_counted b g st st' : mild g st st' → counted_at b g st → counted_at b g st'.
Proof.
  induction 1 as [|x y z [Hq|[id Hr]] _ IH]; intros Hc; [done|apply IH; by apply (counted_quiet b g x)|].
  apply IH. by apply (remove_counted b g id x).
Qed.

(** ** The handlers that only remove *)

(** What each call that returned did, and their chain. *)
Ltac on_sub_core :=
  intros ?; first [done | apply rest_core, set_client_state_rest].
Ltac chain g :=
  repeat match goal with
  | H : rm.on_sub _ _ _ = Ok _ |- _ => apply (on_sub_quiet g) in H; [apply quiet_mild in H|on_sub_core]
  | H : rm.remove_remote_subscription _ _ _ = Ok _ |- _ => apply (remove_mild g) in H
  | H : rm.find_eventgroup _ _ _ _ _ = Ok _ |- _ => apply (find_eventgroup_quiet _ g), quiet_mild in H
  | H : rm.set_remote_ports _ _ _ _ = Ok _ |- _ => apply (set_remote_ports_quiet _ g), quiet_mild in H
  | H : rm.update_subscription _ _ _ _ _ _ false _ = Ok _ |- _ => apply (unsubscribing_quiet g), quiet_mild in H
  end;
  repeat match goal with |- mild g ?s ?s => reflexivity | H : mild g ?s ?t |- mild g ?s _ => transitivity t; [exact H|clear H] end.

Lemma answer_mild g x now c g' id l st st' : rm.answer x now c g' id l st = Ok st' → mild g st st'.
Proof. unfold rm.answer. intros Ha. peel; chain g. Qed.

Context (env : rm.environment (addr := addr)).

Lemma on_subscribe_ack_mild g now c sv ins eg ev id st out st' :
  rm.on_subscribe_ack env now c sv ins eg ev id st = Ok (out, st') → mild g st st'.
Proof.
  unfold rm.on_subscribe_ack. intros Ha. peel; chain g.
  all: try (etrans; [eapply answer_mild; eassumption|]; done).
  all: etrans; [apply quiet_mild|]; [|reflexivity]; done.
Qed.

Lemma on_subscribe_nack_mild g now c sv ins eg rem id st out st' :
  rm.on_subscribe_nack env now c sv ins eg rem id st = Ok (out, st') → mild g st st'.
Proof.
  unfold rm.on_subscribe_nack. intros Ha. peel; chain g.
  all: etrans; [eapply answer_mild; eassumption|]; chain g.
Qed.

Lemma has_remote_quiet g sv ins e st b st' : rm.has_remote_subscriber env sv ins e st = Ok (b, st') → quiet g st st'.
Proof.
  unfold rm.has_remote_subscriber. intros Hh.
  apply (foldM_related (λ x y : bool * state, quiet g x.2 y.2)) in Hh; [exact Hh|].
  intros eg [b1 s1] [b2 s2] _ Hf. peel; by eapply find_eventgroup_quiet.
Qed.

Lemma unset_events_quiet g sv ins g' st st' : rm.unset_events env sv ins g' st = Ok st' → quiet g st st'.
Proof.
  unfold rm.unset_events. intros Hu. peel; [|done].
  eapply (foldM_related (quiet g)); [|eassumption]. intros ev s1 s2 _ He. unfold rm.unset_event in He.
  peel; (etrans; [eapply has_remote_quiet; eassumption|]); done.
Qed.

Lemma on_unsubscribe_ack_mild g sv ins eg id st out st' :
  rm.on_unsubscribe_ack env sv ins eg id st = Ok (out, st') → mild g st st'.
Proof.
  unfold rm.on_unsubscribe_ack. intros Ha. peel; chain g.
  eapply quiet_mild, unset_events_quiet; eassumption.
Qed.

Lemma on_remote_unsubscribe_mild g now l st out st' :
  rm.on_remote_unsubscribe env now l st = Ok (out, st') → mild g st st'.
Proof. unfold rm.on_remote_unsubscribe. intros Hu. peel; chain g. Qed.

#[local] Instance mild_snd_preorder {A} g : PreOrder (λ x y : A * state, mild g x.2 y.2).
Proof. split; [by intros x|]. intros a b c. apply transitivity. Qed.

Lemma expire_one_mild g now x y z : rm.expire_one env now x y = Ok z → mild g y.2 z.2.
Proof.
  destruct x as [l cs], y as [out st], z as [out' st']. unfold rm.expire_one. intros He. cbn [snd]. peel; chain g.
  eapply quiet_mild, unset_events_quiet; eassumption.
Qed.

Lemma expire_subscriptions_mild g force now st next out st' :
  rm.expire_subscriptions env force now st = Ok (next, out, st') → mild g st st'.
Proof.
  unfold rm.expire_subscriptions. intros He. peel.
  match goal with H : foldM (rm.expire_one _ _) _ _ = _ |- _ =>
    apply (foldM_related (λ x y : list rm.output * state, mild g x.2 y.2)) in H; [exact H|] end.
  intros y s1 s2 _. apply expire_one_mild.
Qed.

Lemma expire_subscriptions_of_mild g a lo hi rel now st out st' :
  rm.expire_subscriptions_of env a lo hi rel now st = Ok (out, st') → mild g st st'.
Proof.
  unfold rm.expire_subscriptions_of. intros He.
  apply (foldM_related (λ x y : list rm.output * state, mild g x.2 y.2)) in He; [exact He|].
  intros g' x y _ Hx. res_inv.
  apply (foldM_related (λ x y : list rm.output * state, mild g x.2 y.2)) in Hx; [exact Hx|].
  intros l [o1 s1] [o2 s2] _ Hl. unfold rm.expire_of_address in Hl. cbn [snd]. peel; chain g.
  eapply on_remote_unsubscribe_mild; eassumption.
Qed.

(** ** Arriving subscriptions *)

(** The identifier that comes next is not in use. *)
Definition free_id (g : loc) (st : state) : Prop :=
  ∀ i, rm.infos st !! g = Some i →
  eventgroupinfo.subscriptions_ i !! eventgroupinfo.next_id (eventgroupinfo.id_ i) = None.

Lemma free_quiet g st st' : quiet g st st' → free_id g st → free_id g st'.
Proof.
  intros [_ Ht] Hf i' Hi'. rewrite Hi' in Ht. destruct (rm.infos st !! g) as [i|] eqn:Hi; [|done].
  injection Ht as H1 H2 _ _. rewrite H1, H2. by apply Hf.
Qed.

(** No entry of the table is a child. *)
Definition childless (g : loc) (st : state) : Prop :=
  ∀ i id l s, rm.infos st !! g = Some i → eventgroupinfo.subscriptions_ i !! id = Some l → rm.subs st !! l = Some s →
  remote_subscription.parent_ s = None.

Lemma join_effect g g' it l ch st st' : rm.join g' it l ch st = Ok st' →
  quiet g st st'
  ∨ g' = g ∧ (∀ k, address_of st' k = address_of st k)
    ∧ ∃ i s, rm.infos st !! g = Some i ∧ rm.infos st' !! g = Some (eventgroupinfo.insert_subscription l i).2
           ∧ rm.subs st' !! l = Some s ∧ remote_subscription.parent_ s = Some it.
Proof.
  unfold rm.join, rm.get_info, rm.get_sub, rm.deref. intros Hj.
  destruct (rm.subs st !! l) as [o|] eqn:Hl; [|done]. rewrite bind_Ok in Hj. destruct (bool_decide (ch ≠ ∅)).
  - destruct (rm.infos st !! g') as [i|] eqn:Hi; [|done]. rewrite bind_Ok in Hj. cbn [eventgroupinfo.insert_subscription] in Hj.
    apply bind_Ok_inv in Hj as (st1 & H1 & [= <-]). pose proof (on_sub_quiet g _ _ _ _ H1 (λ s, eq_refl)) as [Ha Ht].
    rewrite (on_sub_eq _ _ _ _ Hl) in H1. injection H1 as <-. destruct (decide (g' = g)) as [->|Hne].
    + right. split; [done|]. split; [exact Ha|]. eexists i, _. split; [done|]. split; [apply lookup_insert_eq|].
      split; [apply put_sub_eq|done].
    + left. split; [exact Ha|]. cbn. by rewrite lookup_insert_ne.
  - left. destruct (negb _); [destruct (negb _); [|by injection Hj as <-]|].
    + by eapply on_sub_quiet.
    + res_inv. etrans; by eapply on_sub_quiet.
Qed.

Lemma limit_effect g l i st : rm.infos st !! g = Some i → rm.is_remote_subscription_limit_reached g l st = Ok false →
  Z.of_nat (size (eventgroupinfo.subscriptions_ i)) ≤ eventgroupinfo.max_remote_subscribers_ i
  ∨ ∀ a, address_of st l = Some a →
      eventgroupinfo.remote_subscribers_count_ i !! a = None ∨ counter a i < eventgroupinfo.max_remote_subscribers_ i.
Proof.
  intros Hi Hr. unfold rm.is_remote_subscription_limit_reached in Hr. rewrite (get_info_ok _ _ _ Hi), bind_Ok in Hr.
  destruct (Z.leb_spec (Z.of_nat (size (eventgroupinfo.subscriptions_ i))) (eventgroupinfo.max_remote_subscribers_ i)); [by left|].
  right. intros a Ha. unfold rm.get_sub, rm.deref in Hr. unfold address_of in Ha. destruct (rm.subs st !! l) as [s|]; [|done].
  rewrite bind_Ok in Hr. apply bind_Ok_inv in Hr as (a' & Ha' & Hr). cbn in Ha. rewrite Ha' in Ha. subst a'. cbn in Hr.
  unfold counter. destruct (eventgroupinfo.remote_subscribers_count_ i !! a) as [n|]; [right|by left].
  injection Hr as Hr%Z.leb_gt. exact Hr.
Qed.

Lemma add_effect g g' l st id st' : rm.add_remote_subscription g' l st = Ok (id, st') →
  (g ≠ g' ∧ quiet g st st')
  ∨ g = g' ∧ (∀ k, address_of st' k = address_of st k)
    ∧ ∃ i, rm.infos st !! g = Some i
         ∧ rm.infos st' !! g = Some (from_option (λ a, eventgroupinfo.count_up a (eventgroupinfo.insert_subscription l i).2)
                                       (eventgroupinfo.insert_subscription l i).2 (address_of st l)).
Proof.
  unfold rm.add_remote_subscription, rm.get_info, rm.deref. intros Ha. destruct (rm.infos st !! g') as [i|] eqn:Hi; [|done].
  rewrite bind_Ok in Ha. cbn [eventgroupinfo.insert_subscription] in Ha. apply bind_Ok_inv in Ha as (st1 & H1 & Ha).
  pose proof (on_sub_quiet g _ _ _ _ H1 (λ s, eq_refl)) as [Hq Ht].
  apply bind_Ok_inv in Ha as (s & Hs & Ha). apply bind_Ok_inv in Ha as (a & Hip & [= _ <-]).
  assert (Hi1 : rm.infos st1 = rm.infos st) by (unfold rm.on_sub in H1; res_inv; done).
  destruct (decide (g = g')) as [<-|Hne]; [right|left].
  - split; [done|]. split; [exact Hq|]. exists i. split; [done|]. cbn [rm.infos rm.put_info rm.with_infos]. rewrite lookup_insert_eq.
    unfold rm.get_sub, rm.deref in Hs. destruct (rm.subs st1 !! l) as [s1|] eqn:Hl; [|done]. injection Hs as ->.
    rewrite <- (Hq l). unfold address_of. rewrite Hl. cbn. rewrite Hip. by destruct a.
  - split; [done|]. split; [exact Hq|]. cbn. by rewrite lookup_insert_ne, Hi1.
Qed.

(** A child enters the table uncounted. *)
Lemma child_counted g l i st st' : rm.infos st !! g = Some i → free_id g st → (∀ k, address_of st' k = address_of st k) →
  rm.infos st' !! g = Some (eventgroupinfo.insert_subscription l i).2 → counted_at true g st → counted_at true g st'.
Proof.
  intros Hi Hf Ha Hi' (j & Hj & Hm & Hc). rewrite Hi in Hj. injection Hj as <-. eexists. split; [exact Hi'|]. split; [exact Hm|].
  intros a. destruct (Hc a) as (H1 & H2 & _). change (counter a (eventgroupinfo.insert_subscription l i).2) with (counter a i).
  assert (He : entries st' a (eventgroupinfo.insert_subscription l i).2
    = filter (λ x, address_of st x.2 = Some a) (<[eventgroupinfo.next_id (eventgroupinfo.id_ i) := l]> (eventgroupinfo.subscriptions_ i))).
  { unfold entries. cbn. apply map_filter_ext. intros k x _. cbn. by rewrite Ha. }
  rewrite He, entries_insert by (by apply Hf). split_and!; [lia|destruct (decide _); lia|exact H2|done].
Qed.

Lemma count_up_counter a b (i : info) : 0 ≤ counter a i < 255 →
  counter b (eventgroupinfo.count_up a i) = if decide (a = b) then counter b i + 1 else counter b i.
Proof.
  unfold eventgroupinfo.count_up, counter. intros Hr. cbn [eventgroupinfo.remote_subscribers_count_ eventgroupinfo.with_count].
  destruct (decide (a = b)) as [<-|]; [|by rewrite lookup_insert_ne]. rewrite lookup_insert_eq.
  change (u8 (counter a i + 1) = counter a i + 1). apply wrap_small. unfold in_width, counter. lia.
Qed.

(** A subscription that passes the check is counted. *)
Lemma add_counted b g l i st st' : rm.infos st !! g = Some i → free_id g st → (∀ k, address_of st' k = address_of st k) →
  rm.is_remote_subscription_limit_reached g l st = Ok false →
  rm.infos st' !! g = Some (from_option (λ a, eventgroupinfo.count_up a (eventgroupinfo.insert_subscription l i).2)
                              (eventgroupinfo.insert_subscription l i).2 (address_of st l)) →
  counted_at b g st → counted_at b g st'.
Proof.
  intros Hi Hf Ha Hlim Hi' (j & Hj & Hm & Hc). rewrite Hi in Hj. injection Hj as <-. eexists. split; [exact Hi'|].
  set (i1 := (eventgroupinfo.insert_subscription l i).2) in *. set (i2 := from_option _ _ _).
  assert (Hlt : ∀ a, address_of st l = Some a → counter a i ≤ eventgroupinfo.max_remote_subscribers_ i).
  { intros a Hla. destruct (Hc a) as (H1 & H2 & _).
    destruct (limit_effect g l i st Hi Hlim) as [Hs|Hs]; [|destruct (Hs a Hla) as [Hn|]; [unfold counter; rewrite Hn; cbn; lia|lia]].
    assert (size (entries st a i) ≤ size (eventgroupinfo.subscriptions_ i))%nat by (apply map_size_filter). lia. }
  assert (H2 : eventgroupinfo.subscriptions_ i2 = eventgroupinfo.subscriptions_ i1
             ∧ eventgroupinfo.max_remote_subscribers_ i2 = eventgroupinfo.max_remote_subscribers_ i
             ∧ ∀ a, counter a i2 = counter a i + if decide (address_of st l = Some a) then 1 else 0).
  { unfold i2. destruct (address_of st l) as [x|]; cbn [from_option].
    2:{ split; [done|]. split; [done|]. intros a. rewrite decide_False by done. by rewrite Z.add_0_r. }
    split; [done|]. split; [done|]. intros a. rewrite count_up_counter.
    2:{ change (counter x i1) with (counter x i). pose proof (Hlt x eq_refl). pose proof (proj1 (Hc x)). lia. }
    change (counter a i1) with (counter a i). destruct (decide (x = a)) as [->|]; [by rewrite decide_True|].
    rewrite decide_False by congruence. by rewrite Z.add_0_r. }
  destruct H2 as (Ht & Hm2 & Hc2). split; [by rewrite Hm2|]. intros a. rewrite Hc2, Hm2.
  assert (He : entries st' a i2
    = filter (λ x, address_of st x.2 = Some a) (<[eventgroupinfo.next_id (eventgroupinfo.id_ i) := l]> (eventgroupinfo.subscriptions_ i))).
  { unfold entries. rewrite Ht. cbn. apply map_filter_ext. intros k x _. cbn. by rewrite Ha. }
  rewrite He, entries_insert by (by apply Hf). destruct (Hc a) as (H1 & H2 & H3). specialize (Hlt a).
  destruct (decide _); [specialize (Hlt ltac:(done))|]; split_and!; try lia; intros Hb%H3; lia.
Qed.

Lemma subscribing_effect g now g' l t ch0 id0 st r ch id st' :
  rm.update_subscription now g' l t ch0 id0 true st = Ok (r, ch, id, st') →
  (r = false ∧ st' = st)
  ∨ r = true ∧ ∃ st1 it, quiet g st st1 ∧ rm.join g' it l ch st1 = Ok st'.
Proof.
  unfold rm.update_subscription. intros Hu. peel; [right|by left]. split; [done|]. eexists _, _. split; [|eassumption].
  eapply merge_quiet; eassumption.
Qed.

Lemma joined_counted b g g' it l ch st st1 st' : free_id g st → counted_at b g st → rm.join g' it l ch st = Ok st1 →
  rm.on_sub l remote_subscription.clear_destiny st1 = Ok st' → (b = false → childless g st') → counted_at b g st'.
Proof.
  intros Hf Hc Hj Hd Hch. pose proof (on_sub_quiet g _ _ _ _ Hd (λ s, eq_refl)) as Hq.
  destruct (join_effect g g' it l ch st st1 Hj) as [Hq1|(-> & Ha & i & s & Hi & Hi1 & Hs & Hp)].
  { apply (counted_quiet b g st1); [done|]. by apply (counted_quiet b g st). }
  assert (b = true) as ->.
  { destruct b; [done|]. rewrite (on_sub_eq _ _ _ _ Hs) in Hd. injection Hd as <-.
    specialize (Hch eq_refl _ (eventgroupinfo.next_id (eventgroupinfo.id_ i)) l _ Hi1 (lookup_insert_eq _ _ _) (put_sub_eq _ _ _)).
    cbn in Hch. congruence. }
  apply (counted_quiet true g st1); [done|]. by apply (child_counted g l i st).
Qed.

Lemma added_counted b g g' l st id st1 : free_id g st → counted_at b g st →
  rm.is_remote_subscription_limit_reached g' l st = Ok false → rm.add_remote_subscription g' l st = Ok (id, st1) →
  counted_at b g st1.
Proof.
  intros Hf Hc Hlim Ha. destruct (add_effect g g' l st id st1 Ha) as [[_ Hq]|(<- & Hq & i & Hi & Hi1)].
  - by apply (counted_quiet b g st).
  - by apply (add_counted b g l i st).
Qed.

Lemma on_remote_subscribe_counted b g now l st out st' :
  rm.on_remote_subscribe env now l st = Ok (out, st') → free_id g st → counted_at b g st →
  (b = false → childless g st') → counted_at b g st'.
Proof.
  intros Hr Hf Hc Hch. unfold rm.on_remote_subscribe in Hr. apply bind_Ok_inv in Hr as (s & Hs & Hr).
  destruct (rm.get_eventgroupinfo s st) as [g'|]; [|by injection Hr as _ <-].
  apply bind_Ok_inv in Hr as (i & Hi & Hr). apply bind_Ok_inv in Hr as (st1 & H1 & Hr).
  apply (set_remote_ports_quiet env g) in H1. destruct (remote_subscription.is_expired s).
  { injection Hr as _ <-. by apply (counted_quiet b g st). }
  apply bind_Ok_inv in Hr as (st2 & H2 & Hr). apply (on_sub_quiet g) in H2; [|done].
  assert (Hq : quiet g st st2) by (by etrans). apply (free_quiet g st st2 Hq) in Hf. apply (counted_quiet b g st st2 Hq) in Hc.
  apply bind_Ok_inv in Hr as ([[[r ch] id] st3] & H3 & Hr). apply bind_Ok_inv in Hr as (s3 & Hs3 & Hr).
  destruct (subscribing_effect g _ _ _ _ _ _ _ _ _ _ _ H3) as [[-> ->]|[-> (st4 & it & Hq4 & Hj)]].
  - apply bind_Ok_inv in Hr as (lim & Hlim & Hr). destruct lim.
    + res_inv. apply (counted_quiet b g st2); [|done]. etrans; by eapply on_sub_quiet.
    + apply bind_Ok_inv in Hr as ([nid st5] & Ha & Hr). res_inv.
      apply (counted_quiet b g st5); [by eapply on_sub_quiet|]. by apply (added_counted b g g' l st2 nid).
  - apply bind_Ok_inv in Hr as (st5 & Hd & [= _ <-]).
    apply (joined_counted b g g' it l ch st4 st3 st5); [by apply (free_quiet g st2)|by apply (counted_quiet b g st2)|done..].
Qed.

(** A new object does not change the counts. *)
Lemma counted_new b A g l s st : wf A st → rm.subs st !! l = None → counted_at b g st → counted_at b g (rm.put_sub l s st).
Proof.
  intros Hw Hl (i & Hi & Hm & Hc). exists i. split; [done|]. split; [done|]. intros a.
  replace (entries (rm.put_sub l s st) a i) with (entries st a i); [apply Hc|].
  unfold entries. apply map_filter_ext. intros id k Hk. cbn. unfold address_of. rewrite put_sub_ne; [done|].
  intros <-. by apply (fresh_unfiled A l st Hw Hl g i id).
Qed.

Lemma counted_gone b g l st : unfiled st l → counted_at b g st → counted_at b g (rm.with_subs (delete l (rm.subs st)) st).
Proof.
  intros Hu (i & Hi & Hm & Hc). exists i. split; [done|]. split; [done|]. intros a.
  replace (entries (rm.with_subs (delete l (rm.subs st)) st) a i) with (entries st a i); [apply Hc|].
  unfold entries. apply map_filter_ext. intros id k Hk. cbn. unfold address_of. cbn. rewrite lookup_delete_ne; [done|].
  intros <-. by apply (Hu g i id).
Qed.

Lemma exec_counted b A g h st out st' : wf A st → enabled h st → free_id g st → exec env h st = Ok (out, st') →
  (b = false → childless g st') → counted_at b g st → counted_at b g st'.
Proof.
  intros Hw He Hf Hx Hch Hc.
  destruct h as [now l g' sb rl ul cs ttl factor force stop|now c sv ins eg ev id|now c sv ins eg rem id|sv ins eg id|force now|a lo hi rel now];
    cbn [exec] in Hx.
  - destruct He as (Hl & _ & _). unfold rm.handle_subscription in Hx. destruct sb as [x|]; [|by injection Hx as _ <-].
    assert (Hn : ∀ s, counted_at b g (rm.put_sub l s st)) by (intros s; by apply counted_new with A).
    destruct (ttl =? 0); [destruct stop; [by injection Hx as _ <-|]|].
    + eapply mild_counted; [eapply on_remote_unsubscribe_mild; exact Hx|apply Hn].
    + eapply on_remote_subscribe_counted; [exact Hx|exact Hf|apply Hn|done].
  - eapply mild_counted; [eapply on_subscribe_ack_mild; exact Hx|done].
  - eapply mild_counted; [eapply on_subscribe_nack_mild; exact Hx|done].
  - eapply mild_counted; [eapply on_unsubscribe_ack_mild; exact Hx|done].
  - peel. eapply mild_counted; [eapply expire_subscriptions_mild; eassumption|done].
  - eapply mild_counted; [eapply expire_subscriptions_of_mild; exact Hx|done].
Qed.

(** The runs of [SubscriptionFacts.step] in which the identifier that comes next
    is free whenever a call is handled; with [children] unset no child
    subscription enters the table. *)
Inductive limit_step (g : loc) (children : bool) : state → state → Prop :=
| limit_handler st h out st' :
    enabled h st → free_id g st → exec env h st = Ok (out, st') → (children = false → childless g st') →
    limit_step g children st st'
| limit_destroy st l : unfiled st l → limit_step g children st (rm.with_subs (delete l (rm.subs st)) st).

Lemma limit_steps b g st st' : rtc (limit_step g b) st st' → (∃ A, wf A st) → counted_at b g st → counted_at b g st'.
Proof.
  induction 1 as [|x y z Hxy _ IH]; intros [A Hw] Hc; [done|].
  destruct Hxy as [st h out st' He Hf Hx Hch|st l Hu]; apply IH.
  - destruct (exec_ok env A h st Hw He) as (out' & st2 & E & Hw'). rewrite Hx in E. injection E as _ <-. eauto.
  - by apply (exec_counted b A g h st out st').
  - exists A. by apply destroy_wf.
  - by apply counted_gone.
Qed.
End limit.

(** (C27) The limit of remote subscribers, over any run of the handlers of remote
    subscriptions (as in C23 and C24) in which the identifier that comes next is
    never in use (identifiers are 16 bits wide and are not tested).  The counter
    of an address never exceeds the number of its subscriptions in the table nor
    [max_remote_subscribers] plus one (the check lets the first
    [max_remote_subscribers] plus one subscriptions of an eventgroup pass without
    looking at the counters).  Child subscriptions enter the table uncounted; in
    a run without them the counter is the number of subscriptions, so that no
    address holds more than [max_remote_subscribers] plus one of them.  The limit
    is assumed to be below 255, the largest value of its eight bits. *)
Theorem subscription_limit {addr : Type} `{Countable addr} (env : rm.environment (addr := addr)) (g : loc)
    (children : bool) (st0 st : rm.state (addr := addr)) (i0 : eventgroupinfo.t addr)
    (Hinit : initial st0) (Hi0 : rm.infos st0 !! g = Some i0)
    (Hcount : eventgroupinfo.remote_subscribers_count_ i0 = ∅)
    (Hmax : 0 ≤ eventgroupinfo.max_remote_subscribers_ i0 < 255)
    (Hrun : rtc (limit_step env g children) st0 st) :
  ∃ i, rm.infos st !! g = Some i
     ∧ ∀ a, counter a i ≤ Z.of_nat (size (entries st a i))
          ∧ 0 ≤ counter a i ≤ eventgroupinfo.max_remote_subscribers_ i + 1
          ∧ (children = false → counter a i = Z.of_nat (size (entries st a i))).
Proof.
  destruct (limit_steps env children g st0 st Hrun) as (i & Hi & _ & Hc).
  - exists ∅. by apply initial_wf.
  - exists i0. split; [done|]. split; [done|]. intros a. unfold counter, entries.
    rewrite Hcount, lookup_empty, (proj1 (proj1 (proj2 Hinit) g i0 Hi0)), map_filter_empty, map_size_empty. cbn. lia.
  - exists i. split; [done|]. intros a. destruct (Hc a) as (H1 & H2 & H3). split_and!; [lia..|done].
Qed.

Lemma no_parent (l : nat) (st : rm.state (addr := Z)) :
  forallb (λ x, bool_decide (remote_subscription.parent_ x.2 ≠ Some l)) (map_to_list (rm.subs st)) = true →
  ∀ k s, rm.subs st !! k = Some s → remote_subscription.parent_ s ≠ Some l.
Proof.
  intros Hp k s Hk. apply Is_true_true, forallb_True in Hp. rewrite list.Forall_forall in Hp.
  specialize (Hp (k, s) ltac:(by apply elem_of_map_to_list)). by apply bool_decide_spec in Hp.
Qed.

(** The conditions of a step for an arriving subscription, evaluated. *)
Definition can_subscribe (l ep : nat) (st : rm.state (addr := Z)) : bool :=
  forallb (λ x, bool_decide (remote_subscription.parent_ x.2 ≠ Some l)) (map_to_list (rm.subs st))
  && match rm.subs st !! l, rm.eps st !! ep, rm.infos st !! 5%nat with
     | None, Some _, Some i =>
         bool_decide (eventgroupinfo.subscriptions_ i !! eventgroupinfo.next_id (eventgroupinfo.id_ i) = None)
     | _, _, _ => false
     end.

Definition without_parents (st : rm.state (addr := Z)) : bool :=
  forallb (λ x, bool_decide (remote_subscription.parent_ x.2 = None)) (map_to_list (rm.subs st)).

Lemma arrives_step now (l ep : nat) st out st' : can_subscribe l ep st = true →
  exec example_env (arrives now l ep []) st = Ok (out, st') → without_parents st' = true →
  limit_step example_env 5%nat false st st'.
Proof.
  unfold can_subscribe. rewrite andb_true_iff. intros [Hp Hm] Hx Hw.
  destruct (rm.subs st !! l) eqn:Hl; [done|]. destruct (rm.eps st !! ep) eqn:He; [|done].
  destruct (rm.infos st !! 5%nat) as [i|] eqn:Hi; [|done]. apply bool_decide_eq_true in Hm.
  apply (limit_handler _ _ _ st (arrives now l ep []) out).
  - split; [done|]. split; [by apply no_parent|].
    intros x Hx'. assert (x = ep) as -> by (cbn in Hx'; set_solver). by eexists.
  - intros j Hj. by pose proof (eq_trans (eq_sym Hi) Hj) as [= <-].
  - done.
  - intros _ j id k s _ _ Hk. apply Is_true_true, forallb_True in Hw. rewrite list.Forall_forall in Hw.
    specialize (Hw (k, s) ltac:(by apply elem_of_map_to_list)). by apply bool_decide_spec in Hw.
Qed.

Definition four_subscriptions : list (handler (addr := Z)) :=
  [arrives 100 1 0 []; arrives 200 2 1 []; arrives 300 3 2 []; arrives 400 4 3 []].

Ltac evaluated := vm_compute; reflexivity.

(** With a limit of three, one address obtains four subscriptions. *)
Lemma subscription_limit_witness :
  let st := state_after four_subscriptions (example_rm 3) in
  ∃ i, rm.infos st !! 5%nat = Some i ∧ eventgroupinfo.max_remote_subscribers_ i = 3
     ∧ counter 42 i = 4 ∧ Z.of_nat (size (entries st 42 i)) = 4.
Proof.
  cbv zeta. set (st := state_after _ _).
  destruct (subscription_limit example_env 5%nat false (example_rm 3) st (eventgroupinfo.create 0x1234 1 7 0 3 3) (example_initial 3))
    as (i & Hi & Hc); [reflexivity|reflexivity|cbn; lia| |].
  - unfold st. eapply rtc_l; [eapply (arrives_step 100 1 0 (example_rm 3)); evaluated|].
    eapply rtc_l; [eapply (arrives_step 200 2 1); evaluated|]. eapply rtc_l; [eapply (arrives_step 300 3 2); evaluated|].
    eapply rtc_l; [eapply (arrives_step 400 4 3); evaluated|].
    match goal with |- rtc _ ?a ?b => replace b with a by (vm_compute; reflexivity) end. apply rtc_refl.
  - exists i. split; [exact Hi|].
    assert (E : ∀ j, rm.infos st !! 5%nat = Some j → eventgroupinfo.max_remote_subscribers_ j = 3 ∧ counter 42 j = 4) by (vm_compute; by intros j [= <-]).
    destruct (E i Hi) as [E1 E2]. split; [exact E1|]. split; [exact E2|]. rewrite <- E2. symmetry. by apply (Hc 42).
Defined.

(** When the identifiers have wrapped around to one that is in use, the entry is
    overwritten: its subscription leaves the table but stays counted. *)
Example subscription_id_overwritten :
  let st := state_after [arrives 100 1 0 []] (example_rm 3) in
  let worn := rm.with_infos ((λ i, eventgroupinfo.with_table (eventgroupinfo.subscriptions_ i) 65535 i) <$> rm.infos st) st in
  (λ i, (sorted (eventgroupinfo.subscriptions_ i), counter 42 i)) <$> rm.infos (state_after [arrives 200 2 1 []] worn) !! 5%nat
  = Some ([(1, 2%nat)], 2).
Proof. vm_compute. reflexivity. Qed.

(** A child subscription (new clients of a selective subscription) enters the
    table without being counted, but its removal is counted: the counter is 0
    while the subscription of the first client is in the table. *)
Example subscription_child_uncounted :
  let st := state_after [arrives 100 1 0 [10]; accepted 200 10 1; arrives 300 2 0 [11]; accepted 400 11 2] (example_rm 3) in
  (λ i, (sorted (eventgroupinfo.subscriptions_ i), counter 42 i)) <$> rm.infos st !! 5%nat = Some ([(1, 1%nat)], 0).
Proof. vm_compute. reflexivity. Qed.

(** A missing endpoint equals any other: a host that subscribes over TCP only is
    taken for the host that subscribed over UDP only, and is acknowledged without
    the offering client being asked. *)
Example subscription_other_host_acked :
  let st0 := rm.with_eps (<[9%nat := endpoint_definition.create 77 50000 true]> (rm.eps (example_rm 3))) (example_rm 3) in
  match exec_all [arrives 100 1 0 []; accepted 200 0 1;
                  subscription 300 2%nat 5%nat (Some 9%nat) (Some 9%nat) None [] 3 1 false false] st0 with
  | Ok (out, st) =>
      last out = Some (rm.update_remote_subscription 2%nat)
      ∧ remote_subscription.get_client_state 0 <$> rm.subs st !! 2%nat = Some SUBSCRIPTION_ACKED
  | _ => False
  end.
Proof. vm_compute. split; reflexivity. Qed.

(** Client 11 has just renewed its subscription; when client 10 of the same
    selective subscription expires, both are reported as expired and the
    subscription is removed. *)
Example subscription_expiry_takes_all :
  match exec_all [arrives 100 1 0 [10; 11]; accepted 200 10 1; accepted 200 11 1;
                  arrives 2000000000 2 0 [11]; expire false 4000000000] (example_rm 3) with
  | Ok (out, st) =>
      last out = Some (rm.tell_expired 5%nat {[ 10; 11 ]} 1)
      ∧ eventgroupinfo.subscriptions_ <$> rm.infos st !! 5%nat = Some ∅
  | _ => False
  end.
Proof. vm_compute. split; reflexivity. Qed.
