(* ===== verification/SubscriptionRenewal.v ===== *)
(** * Remote subscriptions: renewal

    A subscription that is already in the table of its eventgroup and arrives
    again refreshes the entry and asks the offering client nothing new. *)

From stdpp Require Import base list gmap sorting relations.
From Stdlib Require Import ZArith Lia.
From S2P Require Import Prelude Maps Message Protocol Event Subscription SubscriptionFacts SubscriptionLimit.

#[local] Set Warnings "-clear-no-such-hyp".

(** ** Renewal *)

Section renewal.
Context {addr : Type} `{Countable addr}.
Abbreviation state := (rm.state (addr := addr)).

Lemma equals_core s s' o o' (st st' : state) : core s' = core s → core o' = core o → rm.infos st' = rm.infos st →
  rm.equals s' o' st' = rm.equals s o st.
Proof.
  intros Hs Ho Hi. unfold core in *. injection Hs as Hs1 Hs2 Hs3 Hs4. injection Ho as Ho1 Ho2 Ho3 Ho4.
  unfold rm.equals, rm.get_eventgroupinfo. by rewrite Hs1, Hs3, Hs4, Ho1, Ho3, Ho4, Hi.
Qed.

Lemma find_equal_core o o' (st st' : state) ls : core o' = core o → rm.infos st' = rm.infos st →
  (∀ k, core <$> rm.subs st' !! k = core <$> rm.subs st !! k) → rm.find_equal o' ls st' = rm.find_equal o ls st.
Proof.
  intros Ho Hi Hs. induction ls as [|k ls IH]; cbn [rm.find_equal]; [done|].
  unfold rm.get_sub, rm.deref. specialize (Hs k). destruct (rm.subs st !! k) as [s|], (rm.subs st' !! k) as [s'|]; try done.
  rewrite !bind_Ok. apply (inj Some) in Hs. by rewrite (equals_core s s' o o' st st'), IH.
Qed.

(** The states of known clients are copied, nothing else happens. *)
Lemma copy_exact now it l s cs changed : ∀ o (st : state), it ≠ l → NoDup cs →
  rm.subs st !! it = Some s → rm.subs st !! l = Some o →
  (∀ c, c ∈ cs → remote_subscription.get_client_state c s ≠ SUBSCRIPTION_UNKNOWN) →
  let o' := foldl (λ o c, remote_subscription.set_client_state now c (remote_subscription.get_client_state c s) o) o cs in
  foldM (rm.copy_state now it l true) cs (changed, st) = Ok (changed, rm.put_sub l o' st).
Proof.
  induction cs as [|c cs IH]; intros o st Hne Hnd Hit Hl Hk; cbn [foldM foldl].
  { unfold rm.put_sub. rewrite insert_id by done. by destruct st. }
  apply NoDup_cons in Hnd as [_ Hnd].
  assert (Hone : rm.copy_state now it l true c (changed, st)
    = Ok (changed, rm.put_sub l (remote_subscription.set_client_state now c (remote_subscription.get_client_state c s) o) st)).
  { unfold rm.copy_state. rewrite (get_sub_ok _ _ _ Hit), bind_Ok, (on_sub_eq l _ o st Hl), bind_Ok.
    rewrite bool_decide_eq_false_2 by (apply Hk, elem_of_cons; by left). done. }
  rewrite Hone, bind_Ok. cbv zeta in IH. erewrite IH; [|done|done| |apply put_sub_eq|intros; apply Hk, elem_of_cons; by right].
  - unfold rm.put_sub. cbn. by rewrite insert_insert_eq.
  - by rewrite put_sub_ne.
Qed.

Lemma set_states_get now s cs : ∀ o c, NoDup cs →
  remote_subscription.get_client_state c
    (foldl (λ o c, remote_subscription.set_client_state now c (remote_subscription.get_client_state c s) o) o cs)
  = if decide (c ∈ cs ∧ is_Some (clients o !! c)) then remote_subscription.get_client_state c s
    else remote_subscription.get_client_state c o.
Proof.
  induction cs as [|k cs IH]; intros o c Hnd; cbn [foldl].
  { rewrite decide_False; [done|]. intros [Hc _]. by apply elem_of_nil in Hc. }
  apply NoDup_cons in Hnd as [Hk Hnd]. rewrite IH by done.
  assert (Hdom : is_Some (clients (remote_subscription.set_client_state now k (remote_subscription.get_client_state k s) o) !! c)
                 ↔ is_Some (clients o !! c)).
  { rewrite set_client_state_clients. destruct (decide (c = k)) as [->|]; [apply fmap_is_Some|done]. }
  assert (Hget : remote_subscription.get_client_state c (remote_subscription.set_client_state now k (remote_subscription.get_client_state k s) o)
    = if decide (c = k ∧ is_Some (clients o !! c)) then remote_subscription.get_client_state c s else remote_subscription.get_client_state c o).
  { unfold remote_subscription.get_client_state at 1. rewrite set_client_state_clients. destruct (decide (c = k)) as [->|Hck].
    - destruct (clients o !! k) as [y|] eqn:E; cbn.
      + rewrite decide_True; [done|]. split; [done|by eexists].
      + rewrite decide_False by (intros [_ [? ?]]; congruence). unfold remote_subscription.get_client_state. by rewrite E.
    - rewrite decide_False by tauto. done. }
  rewrite Hget. do 3 case_decide; try done; exfalso; rewrite elem_of_cons in *; tauto.
Qed.

Lemma set_states_other now s cs : ∀ o, let o' := foldl (λ o c, remote_subscription.set_client_state now c (remote_subscription.get_client_state c s) o) o cs in
  rest o' = rest o ∧ remote_subscription.answers_ o' = remote_subscription.answers_ o
  ∧ remote_subscription.force_initial_events_ o' = remote_subscription.force_initial_events_ o.
Proof.
  induction cs as [|c cs IH]; intros o; cbn [foldl]; [done|]. destruct (IH (remote_subscription.set_client_state now c (remote_subscription.get_client_state c s) o)) as (H1 & H2 & H3).
  rewrite H1, H2, H3, set_client_state_rest. unfold remote_subscription.set_client_state.
  by destruct (clients o !! c) as [[]|].
Qed.

(** The existing subscription knows the clients of the new one. *)
Definition knows (s o : remote_subscription.t) : Prop :=
  ∀ c, c ∈ remote_subscription.get_clients o →
  ∃ x t, clients s !! c = Some (x, t) ∧ x ≠ SUBSCRIPTION_UNKNOWN.

(** Both after the merge. *)
Definition refreshed (time : Z) (s o : remote_subscription.t) : remote_subscription.t :=
  (remote_subscription.update (remote_subscription.get_clients o) time true s).2.
Definition informed (now : Z) (s o : remote_subscription.t) : remote_subscription.t :=
  foldl (λ o c, remote_subscription.set_client_state now c (remote_subscription.get_client_state c s) o) o
    (in_order (remote_subscription.get_clients o)).

Lemma refreshed_clients time s o c : knows s o →
  clients (refreshed time s o) !! c
  = if decide (c ∈ remote_subscription.get_clients o) then Some (remote_subscription.get_client_state c s, time) else clients s !! c.
Proof.
  intros Hk. unfold refreshed. rewrite update_clients. destruct (decide _) as [Hc|]; [|done].
  destruct (Hk c Hc) as (x & t & Hx & _). unfold remote_subscription.get_client_state. by rewrite Hx.
Qed.

Lemma refreshed_state time s o c : knows s o →
  remote_subscription.get_client_state c (refreshed time s o) = remote_subscription.get_client_state c s.
Proof.
  intros Hk. unfold remote_subscription.get_client_state at 1. rewrite refreshed_clients by done.
  by destruct (decide _).
Qed.

Lemma informed_state now s o c : c ∈ remote_subscription.get_clients o →
  remote_subscription.get_client_state c (informed now s o) = remote_subscription.get_client_state c s.
Proof.
  intros Hc. unfold informed. rewrite set_states_get by apply in_order_NoDup.
  rewrite decide_True; [done|]. split; [by apply elem_of_in_order|]. unfold remote_subscription.get_clients in Hc. by apply elem_of_dom in Hc.
Qed.

Lemma informed_ext now s s' o : (∀ c, remote_subscription.get_client_state c s' = remote_subscription.get_client_state c s) →
  informed now s' o = informed now s o.
Proof.
  intros Hs. unfold informed. generalize (in_order (remote_subscription.get_clients o)) as l. intros l. revert o.
  induction l as [|c l IH]; intros o; cbn [foldl]; [done|]. by rewrite Hs, IH.
Qed.

Lemma merge_known now it l s o time (st : state) : it ≠ l → rm.subs st !! it = Some s → rm.subs st !! l = Some o →
  knows s o →
  rm.merge now it l time true st
  = Ok (∅, remote_subscription.id_ s, rm.put_sub l (informed now s o) (rm.put_sub it (refreshed time s o) st)).
Proof.
  intros Hne Hs Hl Hk. unfold rm.merge. rewrite (get_sub_ok _ _ _ Hl), (get_sub_ok _ _ _ Hs), !bind_Ok.
  destruct (remote_subscription.update (remote_subscription.get_clients o) time true s) as [ch s1] eqn:E.
  assert (Hs1 : s1 = refreshed time s o) by (unfold refreshed; by rewrite E).
  assert (Hch : ch = ∅).
  { replace ch with (remote_subscription.update (remote_subscription.get_clients o) time true s).1 by (by rewrite E).
    rewrite update_changed. apply set_eq. intros c. rewrite elem_of_difference, elem_of_empty. split; [|done].
    intros [Hc Hn]. apply Hn, elem_of_dom. destruct (Hk c Hc) as (x & t & -> & _). by eexists. }
  subst ch s1. rewrite (get_sub_ok l o) by (by rewrite put_sub_ne). rewrite bind_Ok.
  rewrite (copy_exact now it l (refreshed time s o) _ ∅ o); [|done|apply in_order_NoDup|apply put_sub_eq|by rewrite put_sub_ne|].
  - rewrite bind_Ok. fold (informed now (refreshed time s o) o).
    rewrite (informed_ext now s (refreshed time s o) o) by (intros; by apply refreshed_state).
    assert (Hid : remote_subscription.id_ (refreshed time s o) = remote_subscription.id_ s)
      by exact (f_equal (fst ∘ fst) (update_rest (remote_subscription.get_clients o) time true s)). by rewrite Hid.
  - intros c Hc. apply elem_of_in_order in Hc. rewrite refreshed_state by done. destruct (Hk c Hc) as (x & t & Hx & Hu).
    unfold remote_subscription.get_client_state. by rewrite Hx.
Qed.

(** The new subscription after [join]. *)
Definition joined (it : loc) (o : remote_subscription.t) : remote_subscription.t :=
  if remote_subscription.is_pending o then remote_subscription.set_answers 0 (remote_subscription.set_parent (Some it) o)
  else if remote_subscription.force_initial_events_ o then o else remote_subscription.set_initial false o.
Definition counted_answer (pending : bool) (s : remote_subscription.t) : remote_subscription.t :=
  if pending then remote_subscription.set_answers (u32 (remote_subscription.answers_ s + 1)) s else s.

Lemma join_known g it l s o (st : state) : it ≠ l → rm.subs st !! it = Some s → rm.subs st !! l = Some o →
  rm.join g it l ∅ st
  = Ok (rm.put_sub l (joined it o) (rm.put_sub it (counted_answer (remote_subscription.is_pending o) s) st)).
Proof.
  intros Hne Hs Hl. unfold rm.join, joined, counted_answer. rewrite (get_sub_ok _ _ _ Hl), bind_Ok.
  rewrite bool_decide_eq_false_2 by (intros HH; by apply HH). destruct (remote_subscription.is_pending o); cbn [negb].
  - rewrite (on_sub_eq it _ s st Hs), bind_Ok. rewrite (on_sub_eq l _ o); [done|by rewrite put_sub_ne].
  - assert (Hput : rm.put_sub it s st = st) by (unfold rm.put_sub; rewrite insert_id by done; by destruct st).
    rewrite Hput. destruct (remote_subscription.force_initial_events_ o); cbn [negb].
    + unfold rm.put_sub. rewrite insert_id by done. by destruct st.
    + by rewrite (on_sub_eq l _ o).
Qed.

Lemma found_filed A g i o it (st : state) : wf A st → rm.infos st !! g = Some i →
  rm.find_equal o (sorted (eventgroupinfo.subscriptions_ i)).*2 st = Ok (Some it) →
  ∃ id, eventgroupinfo.subscriptions_ i !! id = Some it.
Proof.
  intros Hw Hi Hf. destruct (find_equal_ok o st (sorted (eventgroupinfo.subscriptions_ i)).*2) as (r & E & Hr).
  - intros x (id & Hx)%elem_of_sorted_values. destruct (info_filed _ _ _ (wf_info _ _ Hw g i Hi) id x Hx) as (_ & y & -> & _). by eexists.
  - rewrite Hf in E. injection E as <-. destruct (Hr it eq_refl) as [Hin _]. by apply elem_of_sorted_values in Hin.
Qed.

Lemma update_known now g l it i s o time (st : state) : it ≠ l → rm.infos st !! g = Some i →
  rm.subs st !! it = Some s → rm.subs st !! l = Some o →
  rm.find_equal o (sorted (eventgroupinfo.subscriptions_ i)).*2 st = Ok (Some it) → knows s o →
  let o2 := informed now s o in let s2 := refreshed time s o in
  rm.update_subscription now g l time ∅ 0 true st
  = Ok (true, ∅, remote_subscription.id_ s,
        rm.put_sub l (joined it o2) (rm.put_sub it (counted_answer (remote_subscription.is_pending o2) s2)
          (rm.put_sub l o2 (rm.put_sub it s2 st)))).
Proof.
  intros Hne Hi Hs Hl Hf Hk. cbv zeta. unfold rm.update_subscription.
  rewrite (get_info_ok _ _ _ Hi), bind_Ok, (get_sub_ok _ _ _ Hl), bind_Ok, Hf, bind_Ok.
  rewrite (merge_known now it l s o _ st Hne Hs Hl Hk), bind_Ok.
  rewrite (join_known g it l (refreshed time s o) (informed now s o)), bind_Ok; [done|done| |apply put_sub_eq].
  rewrite put_sub_ne by congruence. apply put_sub_eq.
Qed.

Lemma joined_clients it o : clients (joined it o) = clients o
  ∧ remote_subscription.is_pending (joined it o) = remote_subscription.is_pending o.
Proof.
  assert (Hj : clients (joined it o) = clients o)
    by (unfold joined; by destruct (remote_subscription.is_pending o), (remote_subscription.force_initial_events_ o)).
  split; [done|]. unfold remote_subscription.is_pending. by rewrite Hj.
Qed.
End renewal.

(** Renewal.  A subscription arrives that equals one in the table of its
    eventgroup which knows all its clients.  It is answered at once and the
    offering client is not asked again; the table is unchanged; the existing
    subscription expires one time-to-live from now for these clients and keeps
    all states; the new object takes the states over.  While the existing one is
    still waiting for an answer, its number of answers is raised by one and the
    new object, which becomes its child, needs none of its own. *)
Theorem subscription_renewal {addr : Type} `{Countable addr} (env : rm.environment (addr := addr)) (now : Z)
    (A : accepted_t) (st : rm.state) (g l it : loc) (i : eventgroupinfo.t addr) (s o : remote_subscription.t)
    (Hwf : wf A st) (Hi : rm.infos st !! g = Some i) (Hl : rm.subs st !! l = Some o) (Hfree : unfiled st l)
    (Hg : remote_subscription.eventgroupinfo_ o = Some g) (Hlive : remote_subscription.is_expired o = false)
    (Hfound : rm.find_equal o (sorted (eventgroupinfo.subscriptions_ i)).*2 st = Ok (Some it))
    (Hs : rm.subs st !! it = Some s) (Hknown : knows s o) :
  let time := now + remote_subscription.ttl_ o * 1000000000 in
  ∃ st' s' o', rm.on_remote_subscribe env now l st = Ok ([rm.update_remote_subscription l], st')
  ∧ rm.infos st' = rm.infos st
  ∧ rm.subs st' !! it = Some s' ∧ rm.subs st' !! l = Some o'
  ∧ (∀ c, clients s' !! c = if decide (c ∈ remote_subscription.get_clients o)
                            then Some (remote_subscription.get_client_state c s, time) else clients s !! c)
  ∧ (∀ c, c ∈ remote_subscription.get_clients o →
          remote_subscription.get_client_state c o' = remote_subscription.get_client_state c s)
  ∧ (if remote_subscription.is_pending o'
     then remote_subscription.answers_ s' = u32 (remote_subscription.answers_ s + 1)
          ∧ remote_subscription.answers_ o' = 0 ∧ remote_subscription.parent_ o' = Some it
     else remote_subscription.answers_ s' = remote_subscription.answers_ s).
Proof.
  cbv zeta. assert (Hne : it ≠ l).
  { intros ->. destruct (found_filed A g i o l st Hwf Hi Hfound) as [id Hid]. by apply (Hfree g i id). }
  unfold rm.on_remote_subscribe. rewrite (get_sub_ok _ _ _ Hl), bind_Ok.
  assert (Hgi : rm.get_eventgroupinfo o st = Some g) by (apply lock_Some; split; [done|by eexists]).
  rewrite Hgi, (get_info_ok _ _ _ Hi), bind_Ok.
  destruct (set_remote_ports_ok env A l o i st Hwf Hl) as (st1 & -> & _ & _ & Es1 & Ei1). rewrite bind_Ok, Hlive.
  rewrite (on_sub_eq l _ o st1), bind_Ok by (by rewrite Es1).
  set (o1 := remote_subscription.set_forwarded o). set (st2 := rm.put_sub l o1 st1).
  assert (Hs2 : rm.subs st2 !! it = Some s) by (unfold st2; by rewrite put_sub_ne, Es1).
  rewrite (update_known now g l it i s o1 _ st2 Hne); [|cbn; by rewrite Ei1|done|apply put_sub_eq| |exact Hknown].
  2:{ rewrite (find_equal_core o o1 st st2); [done|done|cbn; by rewrite Ei1|].
      intros k. unfold st2. destruct (decide (l = k)) as [<-|]; [by rewrite put_sub_eq, Hl|by rewrite put_sub_ne, Es1]. }
  set (o2 := informed now s o1). set (s2 := refreshed _ s o1). destruct (joined_clients it o2) as [Hj Hpend].
  rewrite bind_Ok, (get_sub_ok l (joined it o2)), bind_Ok by apply put_sub_eq.
  rewrite (on_sub_eq l _ (joined it o2)), bind_Ok by apply put_sub_eq.
  eexists _, (counted_answer (remote_subscription.is_pending o2) s2), (remote_subscription.clear_destiny (joined it o2)).
  split; [rewrite bool_decide_eq_false_2 by (intros Hn; by apply Hn);
          match goal with |- context [if ?b then ?x else ?x] => replace (if b then x else x) with x by (by destruct b) end;
          reflexivity|].
  split; [cbn; by rewrite Ei1|]. split; [rewrite !put_sub_ne by congruence; apply put_sub_eq|]. split; [apply put_sub_eq|].
  split; [intros c; rewrite <- (refreshed_clients _ s o1 c Hknown); by destruct (remote_subscription.is_pending o2)|].
  split; [intros c Hc; rewrite <- (informed_state now s o1 c Hc); unfold remote_subscription.get_client_state; cbn; by rewrite Hj|].
  change (remote_subscription.is_pending (remote_subscription.clear_destiny (joined it o2))) with (remote_subscription.is_pending (joined it o2)).
  rewrite Hpend. unfold counted_answer, joined. by destruct (remote_subscription.is_pending o2).
Qed.

Lemma subscription_renewal_witness :
  let st := rm.put_sub 2%nat (rm.make_subscription 5%nat (Some 0%nat) None (Some 0%nat) [] 3 false) example_accepted in
  ∃ st' s' o', rm.on_remote_subscribe example_env 900 2%nat st = Ok ([rm.update_remote_subscription 2%nat], st')
  ∧ rm.infos st' = rm.infos st ∧ rm.subs st' !! 1%nat = Some s' ∧ rm.subs st' !! 2%nat = Some o'
  ∧ clients s' !! 0 = Some (SUBSCRIPTION_ACKED, 900 + 3 * 1000000000).
Proof.
  cbv zeta. pose proof (reachable_wf example_env _ _ example_reach (initial_wf _ (example_initial 3))) as Hw. cbn [fst snd] in Hw.
  set (o := rm.make_subscription 5%nat (Some 0%nat) None (Some 0%nat) [] 3 false).
  edestruct (subscription_renewal example_env 900 example_marks (rm.put_sub 2%nat o example_accepted) 5%nat 2%nat 1%nat)
    as (st' & s' & o' & H1 & H2 & H3 & H4 & H5 & _).
  - apply new_sub_wf; [exact Hw|reflexivity| | |by eexists|done|apply make_acked|].
    + apply no_parent. vm_compute. reflexivity.
    + intros x Hx. assert (x = 0%nat) as -> by (cbn in Hx; set_solver). by eexists.
    + intros g [= <-]. apply elem_of_union. left. by apply elem_of_singleton.
  - vm_compute; reflexivity.
  - vm_compute; reflexivity.
  - intros g i id Hi Hid. destruct (info_filed _ _ _ (wf_info _ _ Hw g i Hi) id 2%nat Hid) as (_ & s & Hs & _). vm_compute in Hs. done.
  - reflexivity.
  - reflexivity.
  - vm_compute; reflexivity.
  - vm_compute; reflexivity.
  - intros c Hc. assert (c = 0) as -> by (vm_compute in Hc; by destruct c). eexists _, _. split; [vm_compute; reflexivity|done].
  - exists st', s', o'. split; [exact H1|]. split; [exact H2|]. split; [exact H3|]. split; [exact H4|].
    rewrite (H5 0). vm_compute. reflexivity.
Defined.
