(* ===== verification/TcpStream.v ===== *)
(** * Messages over TCP
    ([endpoints/src/tcp_client_endpoint_impl.cpp],
    [tcp_server_endpoint_impl.cpp], [endpoint_impl.cpp],
    [utility/src/utility.cpp])

    TCP carries a stream of bytes; the endpoints cut it into messages by the
    length field of the SOME/IP header and, when they lose the boundaries,
    resynchronise at magic cookies.  The client endpoint and the connection of
    the server endpoint have the same receive loop up to a few points, which are
    a [match] on the [role].  The server keeps the number of buffered bytes and
    the missing capacity as members; in the client they are arguments of the
    pending callback.  Both are fields of the state here.

    A vector's capacity is its size: the code grows the buffer with [reserve]
    followed by [resize] and shrinks it with [resize] followed by
    [shrink_to_fit], which in libstdc++ allocate exactly the size.  [alloc n] says
    whether a buffer of [n] bytes can be had.  Outputs are the calls of the
    routing host and of the endpoint host, in order. *)

From stdpp Require Import base list gmap.
From Stdlib Require Import ZArith Lia.
From S2P Require Import Prelude BitHelper Message Protocol.

Definition MESSAGE_SIZE_UNLIMITED : Z := 0xFFFFFFFF.
Definition MAGIC_COOKIE_CLIENT : Z := 0xDEAD.
Definition VSOMEIP_SOMEIP_MAGIC_COOKIE_SIZE : nat := 8.
Definition CLIENT_COOKIE : bytes :=
  [0xFF; 0xFF; 0x00; 0x00; 0x00; 0x00; 0x00; 0x08; 0xDE; 0xAD; 0xBE; 0xEF; 0x01; 0x01; 0x01; 0x00].
Definition SERVICE_COOKIE : bytes :=
  [0xFF; 0xFF; 0x80; 0x00; 0x00; 0x00; 0x00; 0x08; 0xDE; 0xAD; 0xBE; 0xEF; 0x01; 0x01; 0x02; 0x00].

(** ** [utility] *)

Module utility.
(** The sum is computed in 32 bits. *)
Definition get_message_size (host : endianess_e) (buf : bytes) (off size : nat) : result Z :=
  if decide (VSOMEIP_SOMEIP_HEADER_SIZE ≤ size)%nat then
    l ← rd buf (off + 4) 4;
    Ok (u32 (Z.of_nat VSOMEIP_SOMEIP_HEADER_SIZE + bithelper.read_uint32_be host l))
  else Ok 0.

Definition get_payload_size (host : endianess_e) (data : bytes) (size : Z) : result Z :=
  if size <=? Z.of_nat VSOMEIP_FULL_HEADER_SIZE then Ok 0
  else
    l ← rd data 4 4;
    let length_ := bithelper.read_uint32_be host l in
    if length_ <=? Z.of_nat VSOMEIP_SOMEIP_HEADER_SIZE then Ok 0
    else if negb (size =? u32 (Z.of_nat VSOMEIP_SOMEIP_HEADER_SIZE + length_)) then Ok 0
    else Ok (length_ - Z.of_nat VSOMEIP_SOMEIP_HEADER_SIZE).

Definition is_request (type : Z) : bool :=
  (type <? message_type_e.MT_NOTIFICATION) || ((0x40 <=? type) && (type <=? 0x41)).

Definition is_valid_message_type (type : Z) : bool :=
  bool_decide (type ∈ [0x00; 0x01; 0x02; 0x40; 0x41; 0x42; 0x80; 0x81; 0xC0; 0xC1; 0xFF]).

Definition is_valid_return_code (code : Z) : bool :=
  bool_decide (code ∈ [0x00; 0x01; 0x02; 0x03; 0x04; 0x05; 0x06; 0x07; 0x08; 0x09; 0x0A])
  || ((0x20 <=? code) && (code <=? 0x5E)).
End utility.

(** ** The two ends *)

Module tcp_endpoint.

Inductive role : Set := client | server.

(** The cookie an endpoint looks for, and the one it sends. *)
Definition expected_cookie (r : role) : bytes := match r with client => SERVICE_COOKIE | server => CLIENT_COOKIE end.
Definition own_cookie (r : role) : bytes := match r with client => CLIENT_COOKIE | server => SERVICE_COOKIE end.

Definition recv_buffer_size_initial_ (r : role) : nat :=
  match r with
  | client => VSOMEIP_SOMEIP_HEADER_SIZE
  | server => VSOMEIP_SOMEIP_HEADER_SIZE + 8 + 8 + 8
  end.

Record configuration : Type := mk_configuration {
  max_message_size_ : Z;
  buffer_shrink_threshold_ : Z
}.

(** What an endpoint keeps between two reads. *)
Record t : Type := mk {
  recv_buffer_ : bytes;
  recv_buffer_size_ : nat;
  missing_capacity_ : Z;
  magic_cookies_enabled_ : bool;
  shrink_count_ : Z;
  clients_ : gmap (Z * Z * Z) (gset Z)
}.

Definition create (r : role) (magic_cookies_enabled : bool) : t :=
  mk (replicate (recv_buffer_size_initial_ r) 0) 0 0 magic_cookies_enabled 0 ∅.

Inductive output : Type :=
| on_message (data : bytes)
| on_error (data : bytes).

(** What follows a callback: a read of at most [n] bytes behind the buffered
    ones, the end of the connection, or neither. *)
Inductive outcome : Type :=
| receiving (n : nat)
| closing
| idle.

Inductive error : Set := none | operation_aborted | eof | timed_out | bad_descriptor | connection_reset | other.

Definition with_buffer b st := mk b (recv_buffer_size_ st) (missing_capacity_ st) (magic_cookies_enabled_ st) (shrink_count_ st) (clients_ st).
Definition with_size n st := mk (recv_buffer_ st) n (missing_capacity_ st) (magic_cookies_enabled_ st) (shrink_count_ st) (clients_ st).
Definition with_missing n st := mk (recv_buffer_ st) (recv_buffer_size_ st) n (magic_cookies_enabled_ st) (shrink_count_ st) (clients_ st).
Definition with_cookies b st := mk (recv_buffer_ st) (recv_buffer_size_ st) (missing_capacity_ st) b (shrink_count_ st) (clients_ st).
Definition with_shrink n st := mk (recv_buffer_ st) (recv_buffer_size_ st) (missing_capacity_ st) (magic_cookies_enabled_ st) n (clients_ st).
Definition with_clients c st := mk (recv_buffer_ st) (recv_buffer_size_ st) (missing_capacity_ st) (magic_cookies_enabled_ st) (shrink_count_ st) c.

(** ** Magic cookies *)

(** [memcmp] of 16 bytes. *)
Definition cookie_at (cookie buf : bytes) (off : nat) : result bool :=
  b ← rd buf off 16; Ok (bool_decide (b = cookie)).

Definition is_magic_cookie (r : role) (st : t) (off : nat) : result bool :=
  cookie_at (expected_cookie r) (recv_buffer_ st) off.

(** [find_magic_cookie] on the [size] bytes at [start]; the loop stops when its
    offset is less than 17 bytes before the end. *)
Fixpoint find_from (cookie buf : bytes) (start off : nat) (rest : nat) : result Z :=
  match rest with
  | O => Ok 0xFFFFFFFF
  | S rest' =>
      if decide (16 < rest)%nat then
        b ← cookie_at cookie buf (start + off);
        if (b : bool) then Ok (Z.of_nat off) else find_from cookie buf start (S off) rest'
      else Ok 0xFFFFFFFF
  end.

Definition find_magic_cookie (r : role) (buf : bytes) (start size : nat) : result Z :=
  find_from (expected_cookie r) buf start 0 size.

(** ** Receiving *)

(** The host's byte order, the allocator, and whether the routing host and the
    endpoint host still exist. *)
Record environment : Type := mk_environment {
  host : endianess_e;
  alloc : nat → bool;
  routing_host : bool;
  endpoint_host : bool
}.

Section receive.
Context (r : role) (cfg : configuration) (env : environment).

(** [receive]: starts the next read. *)
Definition receive (st : t) : outcome * t :=
  let its_capacity := length (recv_buffer_ st) in
  if match r with server => bool_decide (its_capacity < recv_buffer_size_ st)%nat | client => false end
  then (idle, st)
  else if negb (missing_capacity_ st =? 0) then
    if MESSAGE_SIZE_UNLIMITED <? missing_capacity_ st then (idle, st)
    else
      let missing := Z.to_nat (missing_capacity_ st) in
      let its_required_capacity := (recv_buffer_size_ st + missing)%nat in
      if decide (its_capacity < its_required_capacity)%nat then
        if alloc env its_required_capacity then
          (receiving missing, with_missing 0 (with_buffer (resize its_required_capacity (recv_buffer_ st)) st))
        else (closing, with_buffer [] st)
      else (receiving missing, with_missing 0 st)
  else if negb (buffer_shrink_threshold_ cfg =? 0) && (buffer_shrink_threshold_ cfg <? shrink_count_ st)
          && bool_decide (recv_buffer_size_ st = 0%nat) then
    (receiving (recv_buffer_size_initial_ r),
     with_shrink 0 (with_buffer (resize (recv_buffer_size_initial_ r) (recv_buffer_ st)) st))
  else (receiving (its_capacity - recv_buffer_size_ st), st).

Definition calculate_shrink_count (st : t) : t :=
  if negb (buffer_shrink_threshold_ cfg =? 0)
     && negb (bool_decide (length (recv_buffer_ st) = recv_buffer_size_initial_ r)) then
    if decide (recv_buffer_size_ st < length (recv_buffer_ st) / 2)%nat
    then with_shrink (u32 (shrink_count_ st + 1)) st
    else with_shrink 0 st
  else st.

(** The variables of the receive loop. *)
Record loop : Type := mk_loop {
  its_iteration_gap : nat;
  outputs : list output;
  conn : t
}.

Definition emit (o : output) (l : loop) : loop := mk_loop (its_iteration_gap l) (outputs l ++ [o]) (conn l).
Definition on_conn (f : t → t) (l : loop) : loop := mk_loop (its_iteration_gap l) (outputs l) (f (conn l)).
Definition advance (n : nat) (l : loop) : loop :=
  mk_loop (its_iteration_gap l + n) (outputs l) (with_size (recv_buffer_size_ (conn l) - n) (conn l)).

(** The host is told of the buffered bytes (server only). *)
Definition report_error (l : loop) : result loop :=
  match r with
  | client => Ok l
  | server =>
      if endpoint_host env then
        d ← rd (recv_buffer_ (conn l)) (its_iteration_gap l) (recv_buffer_size_ (conn l));
        Ok (emit (on_error d) l)
      else Ok l
  end.

(** The server remembers where a request came from. *)
Definition remember_client (l : loop) : result loop :=
  let buf := recv_buffer_ (conn l) in
  let gap := its_iteration_gap l in
  match r with
  | client => Ok l
  | server =>
      type ← rd1 buf (gap + VSOMEIP_MESSAGE_TYPE_POS);
      if utility.is_request type then
        c ← rd buf (gap + VSOMEIP_CLIENT_POS_MIN) 2;
        let its_client := bithelper.read_uint16_be (host env) c in
        if its_client =? MAGIC_COOKIE_CLIENT then Ok l
        else
          sv ← rd buf (gap + VSOMEIP_SERVICE_POS_MIN) 2;
          m ← rd buf (gap + VSOMEIP_METHOD_POS_MIN) 2;
          s ← rd buf (gap + VSOMEIP_SESSION_POS_MIN) 2;
          let key := (bithelper.read_uint16_be (host env) sv, bithelper.read_uint16_be (host env) m, its_client) in
          let known := default ∅ (clients_ (conn l) !! key) in
          Ok (on_conn (with_clients (<[key := known ∪ {[bithelper.read_uint16_be (host env) s]}]> (clients_ (conn l)))) l)
      else Ok l
  end.

Definition forward (size : nat) (l : loop) : result loop :=
  l ← remember_client l;
  cookie ← (if magic_cookies_enabled_ (conn l) then is_magic_cookie r (conn l) (its_iteration_gap l) else Ok false);
  if (cookie : bool) then Ok l
  else d ← rd (recv_buffer_ (conn l)) (its_iteration_gap l) size; Ok (emit (on_message d) l).

(** A complete message: a cookie switches the cookies on; a message with a cookie
    inside is cut there and dropped. *)
Definition full_message (current_message_size : nat) (l : loop) : result loop :=
  cookie ← is_magic_cookie r (conn l) (its_iteration_gap l);
  '(n, l) ←
    (if (cookie : bool) then
       l ← forward current_message_size (on_conn (with_cookies true) l); Ok (current_message_size, l)
     else if magic_cookies_enabled_ (conn l) then
       its_offset ← find_magic_cookie r (recv_buffer_ (conn l)) (its_iteration_gap l) (recv_buffer_size_ (conn l));
       if its_offset <? Z.of_nat current_message_size
       then l ← report_error l; Ok (Z.to_nat its_offset, l)
       else l ← forward current_message_size l; Ok (current_message_size, l)
     else l ← forward current_message_size l; Ok (current_message_size, l));
  Ok (advance n (on_conn (with_missing 0) (on_conn calculate_shrink_count l))).

(** No complete message, but cookies are in use: skip to the next one. *)
Definition resync (l : loop) : result (bool * loop) :=
  its_offset ← find_magic_cookie r (recv_buffer_ (conn l)) (its_iteration_gap l) (recv_buffer_size_ (conn l));
  if its_offset <? Z.of_nat (recv_buffer_size_ (conn l)) then
    at_front ← match r with server => is_magic_cookie r (conn l) (its_iteration_gap l) | client => Ok true end;
    l ← (if (at_front : bool) then Ok l else report_error l);
    let l := advance (Z.to_nat its_offset) l in
    at_front ← match r with server => is_magic_cookie r (conn l) (its_iteration_gap l) | client => Ok true end;
    l ← (if (at_front : bool) then Ok l else report_error l);
    Ok (true, l)
  else Ok (false, l).

Inductive step : Type :=
| next (has_full_message : bool) (l : loop)
| leave (o : outcome) (l : loop).

(** The version, the type and the return code of an incomplete message whose
    header is there. *)
Definition header_invalid (l : loop) : result (option loop) :=
  let buf := recv_buffer_ (conn l) in
  let gap := its_iteration_gap l in
  v ← rd1 buf (gap + VSOMEIP_PROTOCOL_VERSION_POS);
  if negb (v =? VSOMEIP_PROTOCOL_VERSION) then
    d ← rd buf gap (VSOMEIP_SOMEIP_HEADER_SIZE + 8);
    Ok (Some (emit (on_message d) l))
  else
    type ← rd1 buf (gap + VSOMEIP_MESSAGE_TYPE_POS);
    if negb (utility.is_valid_message_type type) then Ok (Some l)
    else
      code ← rd1 buf (gap + VSOMEIP_RETURN_CODE_POS);
      Ok (if utility.is_valid_return_code code then None else Some l).

Definition reset_buffer (st : t) : t :=
  with_buffer (resize (recv_buffer_size_initial_ r) (recv_buffer_ st)) (with_size 0 st).

Definition incomplete (current_message_size : Z) (l : loop) : result step :=
  let size := recv_buffer_size_ (conn l) in
  let has_header := bool_decide (VSOMEIP_RETURN_CODE_POS < size)%nat in
  if has_header && match r with
                   | client => bool_decide (length (recv_buffer_ (conn l)) ≤ its_iteration_gap l + VSOMEIP_RETURN_CODE_POS)%nat
                   | server => false
                   end
  then Ok (leave idle l)
  else
    invalid ← (if has_header then header_invalid l else Ok None);
    match invalid with
    | Some l => Ok (leave closing l)
    | None =>
        if negb (max_message_size_ cfg =? MESSAGE_SIZE_UNLIMITED) && (max_message_size_ cfg <? current_message_size) then
          let l := on_conn reset_buffer l in
          Ok (if magic_cookies_enabled_ (conn l) then next false l else leave closing l)
        else if Z.of_nat size <? current_message_size then
          Ok (next false (on_conn (with_missing (u32 (current_message_size - Z.of_nat size))) l))
        else if decide (size < VSOMEIP_SOMEIP_HEADER_SIZE)%nat then
          Ok (next false (on_conn (with_missing (Z.of_nat (VSOMEIP_SOMEIP_HEADER_SIZE - size))) l))
        else if magic_cookies_enabled_ (conn l) && bool_decide (0 < size)%nat then
          Ok (next false (on_conn (with_missing 0) (on_conn reset_buffer l)))
        else Ok (leave closing l)
    end.

Definition iteration (l : loop) : result step :=
  let size := recv_buffer_size_ (conn l) in
  read_message_size ← utility.get_message_size (host env) (recv_buffer_ (conn l)) (its_iteration_gap l) size;
  if MESSAGE_SIZE_UNLIMITED <? read_message_size then Ok (leave idle l)
  else
    let current_message_size := u32 read_message_size in
    if (Z.of_nat VSOMEIP_RETURN_CODE_POS <? current_message_size) && (current_message_size <=? Z.of_nat size) then
      l ← full_message (Z.to_nat current_message_size) l; Ok (next true l)
    else
      '(has_full_message, l) ← (if magic_cookies_enabled_ (conn l) && bool_decide (0 < size)%nat then resync l else Ok (false, l));
      if (has_full_message : bool) then Ok (next true l) else incomplete current_message_size l.

(** [do ... while (has_full_message && recv_buffer_size_)]; [None] when the fuel
    runs out. *)
Fixpoint receive_loop (fuel : nat) (l : loop) : result (option (option outcome * loop)) :=
  match fuel with
  | O => Ok None
  | S fuel =>
      s ← iteration l;
      match s with
      | leave o l => Ok (Some (Some o, l))
      | next has_full_message l =>
          if has_full_message && bool_decide (recv_buffer_size_ (conn l) ≠ 0%nat)
          then receive_loop fuel l else Ok (Some (None, l))
      end
  end.

(** The rest of the data moves to the front of the buffer. *)
Definition copy_front (gap n : nat) (buf : bytes) : result bytes :=
  foldM (λ i buf, b ← rd1 buf (i + gap); wr1 buf i b) (seq 0 n) buf.

Definition shift (l : loop) : result t :=
  let st := conn l in
  if decide (its_iteration_gap l = 0%nat) then Ok st
  else
    buf ← copy_front (its_iteration_gap l) (recv_buffer_size_ st) (recv_buffer_ st);
    let st := with_buffer buf st in
    Ok (if negb (missing_capacity_ st =? 0)
           && (missing_capacity_ st <=? Z.of_nat (length (recv_buffer_ st) - recv_buffer_size_ st))
        then with_missing 0 st else st).

(** The number of bytes read fits behind the buffered ones.  (The server only
    tests that the sum of the two does not wrap around.) *)
Definition overflows (n : nat) (st : t) : bool :=
  match r with
  | client => bool_decide (length (recv_buffer_ st) < recv_buffer_size_ st + n)%nat
  | server => u64 (Z.of_nat (recv_buffer_size_ st + n)) <? Z.of_nat (recv_buffer_size_ st)
  end.

Definition on_data (n : nat) (st : t) : result (option (list output * outcome * t)) :=
  if overflows n st then Ok (Some ([], idle, st))
  else
    let st := with_size (recv_buffer_size_ st + n) st in
    e ← receive_loop (S (recv_buffer_size_ st)) (mk_loop 0 [] st);
    match e with
    | None => Ok None
    | Some (Some o, l) => Ok (Some (outputs l, o, conn l))
    | Some (None, l) => st ← shift l; Ok (Some (outputs l, (receive st).1, (receive st).2))
    end.

(** [receive_cbk]; [connecting] says that the client is already reconnecting.  The
    server object of a connection is taken to exist ([server_.lock()]). *)
Definition receive_cbk (connecting : bool) (e : error) (n : nat) (st : t) : result (option (list output * outcome * t)) :=
  match e with
  | operation_aborted => Ok (Some ([], idle, st))
  | none =>
      if negb (routing_host env) then Ok (Some ([], idle, st))
      else if decide (0 < n)%nat then on_data n st
      else match r with
           | client => Ok (Some ([], (receive st).1, (receive st).2))
           | server => Ok (Some ([], idle, st))
           end
  | _ =>
      match r with
      | client =>
          if negb (routing_host env) then Ok (Some ([], idle, st))
          else match e with
               | other => Ok (Some ([], (receive st).1, (receive st).2))
               | _ => Ok (Some ([], if connecting then idle else closing, st))
               end
      | server =>
          match e with
          | eof | connection_reset | timed_out => Ok (Some ([], closing, st))
          | _ => Ok (Some ([], idle, st))
          end
      end
  end.

(** The socket writes the bytes it read behind the buffered ones and calls back. *)
Definition feed (chunk : bytes) (st : t) : result (option (list output * outcome * t)) :=
  buf ← wr (recv_buffer_ st) (recv_buffer_size_ st) chunk;
  receive_cbk false none (length chunk) (with_buffer buf st).
End receive.

(** ** Sending *)

Section send.
Context (r : role) (cfg : configuration).

Definition send_magic_cookie (buf : bytes) : bool * bytes :=
  if (max_message_size_ cfg =? MESSAGE_SIZE_UNLIMITED)
     || (Z.of_nat (VSOMEIP_SOMEIP_HEADER_SIZE + VSOMEIP_SOMEIP_MAGIC_COOKIE_SIZE)
         <=? u64 (max_message_size_ cfg - Z.of_nat (length buf)))
  then (true, own_cookie r ++ buf) else (false, buf).

(** [send_queued]: what is written for a buffer of the queue, and the time of the
    last cookie (in nanoseconds).  The client takes the time also when the cookie
    did not fit. *)
Definition send_queued (enabled : bool) (now : Z) (buf : bytes) (last_cookie_sent : Z) : bytes * Z :=
  if enabled && (10000 <? (now - last_cookie_sent) ÷ 1000000) then
    let '(sent, buf) := send_magic_cookie buf in
    (buf, if sent || match r with client => true | server => false end then now else last_cookie_sent)
  else (buf, last_cookie_sent).
End send.
End tcp_endpoint.
