(* ===== verification/TcpStreamFacts.v ===== *)
(** * Messages over TCP: what the receiver delivers

    The receive loop on arbitrary bytes and on a stream of messages cut into
    arbitrary pieces, and the composition with the sender. *)

From stdpp Require Import base list gmap.
From Stdlib Require Import ZArith Lia.
From S2P Require Import Prelude BitHelper Message Protocol TcpStream.

Import tcp_endpoint.

(** ** Lists *)

Lemma take_take_drop {A} (l : list A) k n m : (k + n ≤ m)%nat → take n (drop k (take m l)) = take n (drop k l).
Proof.
  intros H. apply list_eq. intros i. destruct (decide (i < n)%nat).
  - rewrite !lookup_take_lt, !lookup_drop, lookup_take_lt by lia. done.
  - rewrite !lookup_take_ge by lia. done.
Qed.

Lemma prefix_take {A} (d x y : list A) n : d ++ x = y → (n ≤ length d)%nat → take n d = take n y.
Proof. intros <- H. by rewrite take_app_le. Qed.

Lemma prefix_piece {A} (d x y : list A) k n : d ++ x = y → (k + n ≤ length d)%nat → take n (drop k d) = take n (drop k y).
Proof. intros <- H. rewrite drop_app_le by lia. rewrite take_app_le by len. done. Qed.

(** ** The search for a cookie *)

Section search.
Implicit Types (buf c : bytes).

Lemma cookie_at_ok c buf off : (off + 16 ≤ length buf)%nat →
  cookie_at c buf off = Ok (bool_decide (take 16 (drop off buf) = c)).
Proof. intros H. unfold cookie_at. by rewrite rd_ok. Qed.

(** The first place with a cookie, or none. *)
Lemma find_from_spec c buf start rest : ∀ off, (start + off + rest ≤ length buf)%nat →
  ∃ z, find_from c buf start off rest = Ok z
     ∧ ((z = 0xFFFFFFFF ∧ ∀ k, (off ≤ k)%nat → (k + 16 < off + rest)%nat → take 16 (drop (start + k) buf) ≠ c)
        ∨ ∃ k, z = Z.of_nat k ∧ (off ≤ k)%nat ∧ (k + 16 < off + rest)%nat ∧ take 16 (drop (start + k) buf) = c).
Proof.
  induction rest as [|rest IH]; intros off Hl; cbn [find_from].
  { eexists. split; [done|]. left. split; [done|]. lia. }
  destruct (decide (16 < S rest)%nat) as [Hr|Hr].
  - rewrite cookie_at_ok, bind_Ok by lia. destruct (decide (take 16 (drop (start + off) buf) = c)) as [E|E].
    + rewrite bool_decide_true by done. eexists. split; [done|]. right. exists off. split; [done|]. split; [lia|]. split; [lia|done].
    + rewrite bool_decide_false by done. destruct (IH (S off)) as (z & -> & Hz); [lia|]. exists z. split; [done|].
      destruct Hz as [[-> Hz]|(k & -> & ? & ? & ?)].
      * left. split; [done|]. intros k Hk1 Hk2. destruct (decide (k = off)) as [->|]; [done|]. apply Hz; lia.
      * right. exists k. split; [done|]. split; [lia|]. split; [lia|done].
  - eexists. split; [done|]. left. split; [done|]. lia.
Qed.
End search.

(** ** The data of the loop *)

Definition window (l : loop) : bytes := take (recv_buffer_size_ (conn l)) (drop (its_iteration_gap l) (recv_buffer_ (conn l))).

(** The buffered bytes lie in the buffer. *)
Definition inside (l : loop) : Prop := (its_iteration_gap l + recv_buffer_size_ (conn l) ≤ length (recv_buffer_ (conn l)))%nat.

Lemma window_length l : inside l → length (window l) = recv_buffer_size_ (conn l).
Proof. unfold inside, window. intros. len. Qed.

Lemma rd_window l k n : inside l → (k + n ≤ recv_buffer_size_ (conn l))%nat →
  rd (recv_buffer_ (conn l)) (its_iteration_gap l + k) n = Ok (take n (drop k (window l))).
Proof.
  intros H Hk. unfold inside in H. rewrite rd_ok by lia. f_equal. unfold window.
  rewrite take_take_drop by lia. by rewrite drop_drop.
Qed.

Lemma rd_window_0 l n : inside l → (n ≤ recv_buffer_size_ (conn l))%nat →
  rd (recv_buffer_ (conn l)) (its_iteration_gap l) n = Ok (take n (window l)).
Proof. intros H Hn. rewrite <- (Nat.add_0_r (its_iteration_gap l)). by rewrite rd_window. Qed.

Lemma rd1_window l k : inside l → (k < recv_buffer_size_ (conn l))%nat →
  rd1 (recv_buffer_ (conn l)) (its_iteration_gap l + k) = match window l !! k with Some b => Ok b | None => Ub oob_read end.
Proof. intros H Hk. unfold rd1, window. rewrite lookup_take_lt by lia. by rewrite lookup_drop. Qed.

Lemma window_lookup l k : inside l → (k < recv_buffer_size_ (conn l))%nat → is_Some (window l !! k).
Proof. intros H Hk. apply lookup_lt_is_Some. by rewrite window_length. Qed.

Lemma cookie_window r l k : inside l → (k + 16 ≤ recv_buffer_size_ (conn l))%nat →
  is_magic_cookie r (conn l) (its_iteration_gap l + k) = Ok (bool_decide (take 16 (drop k (window l)) = expected_cookie r)).
Proof. intros H Hk. unfold is_magic_cookie, cookie_at. by rewrite rd_window. Qed.

Lemma cookie_window_0 r l : inside l → (16 ≤ recv_buffer_size_ (conn l))%nat →
  is_magic_cookie r (conn l) (its_iteration_gap l) = Ok (bool_decide (take 16 (window l) = expected_cookie r)).
Proof. intros H Hk. rewrite <- (Nat.add_0_r (its_iteration_gap l)). by rewrite cookie_window. Qed.

Lemma find_window r l : inside l →
  ∃ z, find_magic_cookie r (recv_buffer_ (conn l)) (its_iteration_gap l) (recv_buffer_size_ (conn l)) = Ok z
     ∧ ((z = 0xFFFFFFFF ∧ ∀ k, (k + 16 < length (window l))%nat → take 16 (drop k (window l)) ≠ expected_cookie r)
        ∨ ∃ k, z = Z.of_nat k ∧ (k + 16 < length (window l))%nat ∧ take 16 (drop k (window l)) = expected_cookie r).
Proof.
  intros Hin. unfold find_magic_cookie. pose proof Hin as Hin'. unfold inside in Hin'.
  destruct (find_from_spec (expected_cookie r) (recv_buffer_ (conn l)) (its_iteration_gap l) (recv_buffer_size_ (conn l)) 0)
    as (z & -> & Hz); [lia|]. exists z. split; [done|]. rewrite window_length by done.
  assert (E : ∀ k, (k + 16 < recv_buffer_size_ (conn l))%nat →
    take 16 (drop k (window l)) = take 16 (drop (its_iteration_gap l + k) (recv_buffer_ (conn l)))).
  { intros k Hk. unfold window. rewrite take_take_drop by lia. by rewrite drop_drop. }
  destruct Hz as [[-> Hz]|(k & -> & _ & Hk & Hz)].
  - left. split; [done|]. intros k Hk. rewrite E by done. apply Hz; lia.
  - right. exists k. split; [done|]. split; [done|]. by rewrite E.
Qed.

Lemma message_size_window host l : inside l → bytes_ok (recv_buffer_ (conn l)) → (8 ≤ recv_buffer_size_ (conn l))%nat →
  utility.get_message_size host (recv_buffer_ (conn l)) (its_iteration_gap l) (recv_buffer_size_ (conn l))
  = Ok (u32 (8 + be_val (take 4 (drop 4 (window l))))).
Proof.
  intros Hin Hb Hs. unfold utility.get_message_size. rewrite decide_True by done. rewrite rd_window by (done || lia). rewrite bind_Ok.
  do 3 f_equal. assert (Hl : length (take 4 (drop 4 (window l))) = 4%nat) by (len; rewrite window_length by done; lia).
  pose proof (read_be_spec host (take 4 (drop 4 (window l)))) as E. rewrite Hl in E. apply E.
  unfold window. auto using Forall_take, Forall_drop.
Qed.

(** ** Steps of the loop *)

(** What the reports to the hosts leave alone. *)
Definition keeps (l l' : loop) : Prop :=
  its_iteration_gap l' = its_iteration_gap l ∧ recv_buffer_ (conn l') = recv_buffer_ (conn l)
  ∧ recv_buffer_size_ (conn l') = recv_buffer_size_ (conn l) ∧ missing_capacity_ (conn l') = missing_capacity_ (conn l)
  ∧ magic_cookies_enabled_ (conn l') = magic_cookies_enabled_ (conn l).

Lemma keeps_inside l l' : keeps l l' → inside l → inside l'.
Proof. unfold keeps, inside. intros (-> & -> & -> & _). done. Qed.

Lemma keeps_window l l' : keeps l l' → window l' = window l.
Proof. unfold keeps, window. by intros (-> & -> & -> & _). Qed.

Lemma keeps_refl l : keeps l l.
Proof. done. Qed.

Lemma keeps_trans l l' l'' : keeps l l' → keeps l' l'' → keeps l l''.
Proof. unfold keeps. intros (-> & -> & -> & -> & ->). done. Qed.

#[local] Hint Resolve keeps_inside keeps_refl : core.

Ltac pos :=
  unfold VSOMEIP_MESSAGE_TYPE_POS, VSOMEIP_CLIENT_POS_MIN, VSOMEIP_SERVICE_POS_MIN, VSOMEIP_METHOD_POS_MIN, VSOMEIP_SESSION_POS_MIN,
    VSOMEIP_PROTOCOL_VERSION_POS, VSOMEIP_RETURN_CODE_POS, VSOMEIP_SOMEIP_HEADER_SIZE in *; lia.

Section steps.
Context (r : role) (cfg : configuration) (env : environment).

Lemma remember_ok l : inside l → (16 ≤ recv_buffer_size_ (conn l))%nat →
  ∃ l', remember_client r env l = Ok l' ∧ keeps l l' ∧ outputs l' = outputs l.
Proof.
  intros Hin Hs. unfold remember_client. destruct r; [by exists l|].
  rewrite rd1_window by (done || pos). destruct (window_lookup l 14 Hin) as [ty Ety]; [lia|].
  change VSOMEIP_MESSAGE_TYPE_POS with 14%nat. rewrite Ety, bind_Ok. destruct (utility.is_request ty); [|by exists l].
  rewrite !(rd_window l) by (done || pos). rewrite bind_Ok. destruct (_ =? _); [by exists l|]. rewrite !bind_Ok. by eexists.
Qed.

Lemma forward_ok l n : inside l → (16 ≤ recv_buffer_size_ (conn l))%nat → (n ≤ recv_buffer_size_ (conn l))%nat →
  ∃ l', forward r env n l = Ok l' ∧ keeps l l'
  ∧ outputs l' = outputs l ++ if magic_cookies_enabled_ (conn l) && bool_decide (take 16 (window l) = expected_cookie r)
                              then [] else [on_message (take n (window l))].
Proof.
  intros Hin Hs Hn. unfold forward. destruct (remember_ok l Hin Hs) as (l1 & -> & K & Ho). rewrite bind_Ok.
  pose proof (keeps_inside _ _ K Hin) as Hin1. pose proof (keeps_window _ _ K) as Hw. pose proof K as (Kg & Kb & Ks & Km & Kc).
  rewrite Kc. assert (Hrd : rd (recv_buffer_ (conn l1)) (its_iteration_gap l1) n = Ok (take n (window l))).
  { rewrite rd_window_0 by (done || lia). by rewrite Hw. }
  destruct (magic_cookies_enabled_ (conn l)).
  - rewrite cookie_window_0 by (done || lia). rewrite bind_Ok, Hw. cbn [andb]. destruct (bool_decide _).
    + exists l1. by rewrite app_nil_r.
    + rewrite Hrd, bind_Ok. eexists. split; [done|]. split; [done|]. cbn. by rewrite Ho.
  - rewrite bind_Ok, Hrd, bind_Ok. eexists. split; [done|]. split; [done|]. cbn. by rewrite Ho.
Qed.

Lemma report_ok l : inside l → ∃ l', report_error r env l = Ok l' ∧ keeps l l'.
Proof.
  intros Hin. unfold report_error. destruct r; [by exists l|]. destruct (endpoint_host env); [|by exists l].
  rewrite rd_window_0 by (done || lia). rewrite bind_Ok. by eexists.
Qed.

Lemma shrink_keeps l : keeps l (on_conn (calculate_shrink_count r cfg) l).
Proof. unfold calculate_shrink_count, keeps. cbn. destruct (_ && _); [destruct (decide _)|]; done. Qed.

(** The end of a complete message. *)
Definition passed (n : nat) (l : loop) : loop :=
  advance n (on_conn (with_missing 0) (on_conn (calculate_shrink_count r cfg) l)).

Lemma passed_spec n l : (n ≤ recv_buffer_size_ (conn l))%nat →
  its_iteration_gap (passed n l) = (its_iteration_gap l + n)%nat ∧ outputs (passed n l) = outputs l
  ∧ recv_buffer_ (conn (passed n l)) = recv_buffer_ (conn l)
  ∧ recv_buffer_size_ (conn (passed n l)) = (recv_buffer_size_ (conn l) - n)%nat ∧ missing_capacity_ (conn (passed n l)) = 0
  ∧ magic_cookies_enabled_ (conn (passed n l)) = magic_cookies_enabled_ (conn l).
Proof. intros Hn. destruct (shrink_keeps l) as (H1 & H2 & H3 & H4 & H5). cbn in *. by rewrite H2, H3, H5. Qed.

Lemma passed_window n l : inside l → (n ≤ recv_buffer_size_ (conn l))%nat →
  inside (passed n l) ∧ window (passed n l) = drop n (window l).
Proof.
  intros Hin Hn. destruct (passed_spec n l Hn) as (H1 & _ & H3 & H4 & _). unfold inside, window in *. rewrite H1, H3, H4. split; [lia|].
  rewrite skipn_firstn_comm, drop_drop. done.
Qed.

(** A complete message, whatever it holds: some of its bytes are consumed. *)
Lemma full_message_some l n : inside l → (16 ≤ n)%nat → (n ≤ recv_buffer_size_ (conn l))%nat →
  ∃ l' m l1, full_message r cfg env n l = Ok l' ∧ (1 ≤ m ≤ n)%nat ∧ l' = passed m l1 ∧ keeps (on_conn (with_cookies (magic_cookies_enabled_ (conn l1))) l) l1.
Proof.
  intros Hin Hn Hs. unfold full_message. rewrite cookie_window_0 by (done || lia). rewrite bind_Ok.
  destruct (decide (take 16 (window l) = expected_cookie r)) as [E|E].
  - rewrite bool_decide_true by done. destruct (forward_ok (on_conn (with_cookies true) l) n) as (l1 & -> & K & _); [done|cbn; lia..|].
    cbn [mbind result_bind]. eexists _, n, l1. split; [done|]. split; [lia|]. split; [done|].
    assert (magic_cookies_enabled_ (conn l1) = true) as -> by apply K. done.
  - rewrite bool_decide_false by done.
    assert (Hf : ∃ l1, forward r env n l = Ok l1 ∧ keeps l l1).
    { destruct (forward_ok l n) as (l1 & ? & ? & _); [done|lia..|]. by exists l1. }
    destruct Hf as (l1 & Hf & K1).
    assert (Hk : ∀ l2, keeps l l2 → keeps (on_conn (with_cookies (magic_cookies_enabled_ (conn l2))) l) l2).
    { intros l2 (Ha & Hb & Hc & Hd & He). repeat split; done. }
    destruct (magic_cookies_enabled_ (conn l)).
    + destruct (find_window r l Hin) as (z & -> & Hz). rewrite bind_Ok. destruct (Z.ltb_spec z (Z.of_nat n)) as [Hlt|Hge].
      * destruct (report_ok l Hin) as (l2 & -> & K2). cbn [mbind result_bind]. eexists _, (Z.to_nat z), l2. split; [done|].
        split; [|split; [done|by apply Hk]]. destruct Hz as [[-> _]|(k & -> & Hk1 & Hk2)].
        { lia. }
        assert (k ≠ 0%nat) by (intros ->; by rewrite drop_0 in Hk2). lia.
      * rewrite Hf. cbn [mbind result_bind]. eexists _, n, l1. split; [done|]. split; [lia|]. split; [done|by apply Hk].
    + rewrite Hf. cbn [mbind result_bind]. eexists _, n, l1. split; [done|]. split; [lia|]. split; [done|by apply Hk].
Qed.
End steps.

(** ** Arbitrary input *)

Section safety.
Context (r : role) (cfg : configuration) (env : environment).

(** The size of the buffer stays between the initial one and the largest message
    that is accepted. *)
Definition fits (buf : bytes) : Prop :=
  (recv_buffer_size_initial_ r ≤ length buf)%nat
  ∧ Z.of_nat (length buf) ≤ Z.max (Z.of_nat (recv_buffer_size_initial_ r)) (max_message_size_ cfg)
  ∧ bytes_ok buf.

Lemma initial_pos : (8 ≤ recv_buffer_size_initial_ r)%nat.
Proof. destruct r; cbn; pos. Qed.

Lemma resized_length n (b : bytes) : length (resize n b) = n.
Proof. unfold resize. rewrite length_app, length_take, length_replicate. lia. Qed.

Lemma resized_ok n b : bytes_ok b → bytes_ok (resize n b).
Proof. intros H. unfold resize. apply Forall_app_2; [by apply Forall_take|]. apply Forall_replicate. by_eval. Qed.

Lemma fits_reset buf : bytes_ok buf → fits (resize (recv_buffer_size_initial_ r) buf).
Proof. intros H. unfold fits. rewrite resized_length. split; [lia|]. split; [lia|by apply resized_ok]. Qed.

Lemma header_invalid_ok l : inside l → (16 ≤ recv_buffer_size_ (conn l))%nat →
  ∃ o, header_invalid l = Ok o.
Proof.
  intros Hin Hs. unfold header_invalid. rewrite !(rd1_window l) by (done || pos).
  rewrite (rd_window_0 l) by (done || pos).
  destruct (window_lookup l 12 Hin) as [v Ev]; [lia|]. destruct (window_lookup l 14 Hin) as [ty Ety]; [lia|].
  destruct (window_lookup l 15 Hin) as [c Ec]; [lia|].
  change VSOMEIP_PROTOCOL_VERSION_POS with 12%nat. change VSOMEIP_MESSAGE_TYPE_POS with 14%nat. change VSOMEIP_RETURN_CODE_POS with 15%nat.
  rewrite Ev, Ety, Ec, !bind_Ok. destruct (negb _); [by eexists|]. destruct (negb _); [by eexists|]. by eexists.
Qed.

(** After the last round: what is left of the data, and the capacity that is
    asked for. *)
Definition settled (l : loop) : Prop :=
  (inside l ∨ recv_buffer_size_ (conn l) = 0%nat) ∧ fits (recv_buffer_ (conn l))
  ∧ ((missing_capacity_ (conn l) = 0 ∧ recv_buffer_size_ (conn l) = 0%nat)
     ∨ (0 < missing_capacity_ (conn l)
        ∧ Z.of_nat (recv_buffer_size_ (conn l)) + missing_capacity_ (conn l)
          ≤ Z.max (Z.of_nat (recv_buffer_size_initial_ r)) (max_message_size_ cfg))).

Lemma incomplete_ok z l : 0 ≤ z ≤ MESSAGE_SIZE_UNLIMITED → inside l → fits (recv_buffer_ (conn l)) →
  max_message_size_ cfg ≤ MESSAGE_SIZE_UNLIMITED → (0 < recv_buffer_size_ (conn l))%nat → missing_capacity_ (conn l) = 0 →
  ∃ s, incomplete r cfg z l = Ok s ∧ match s with next b l' => b = false ∧ settled l' | leave o _ => ∀ n, o ≠ receiving n end.
Proof.
  intros Hz Hin Hf Hmax Hs Hm. unfold incomplete. cbv zeta. pose proof initial_pos as Hi. destruct (bool_decide (VSOMEIP_RETURN_CODE_POS < _)%nat && _); [by eexists|].
  assert (∃ o, (if bool_decide (VSOMEIP_RETURN_CODE_POS < recv_buffer_size_ (conn l))%nat then header_invalid l else Ok None) = Ok o) as [o ->].
  { destruct (bool_decide_reflect (VSOMEIP_RETURN_CODE_POS < recv_buffer_size_ (conn l))%nat); [|by eexists]. apply header_invalid_ok; [done|pos]. }
  rewrite bind_Ok. destruct o as [l'|]; [by eexists|].
  assert (Hreset : settled (on_conn (with_missing 0) (on_conn (reset_buffer r) l))).
  { split; [by right|]. split; [apply fits_reset, Hf|]. by left. }
  destruct (_ && (max_message_size_ cfg <? z)) eqn:E1.
  { destruct (magic_cookies_enabled_ _); eexists; (split; [done|]); [|done]. split; [done|]. split; [by right|].
    split; [apply fits_reset, Hf|]. by left. }
  destruct (Z.ltb_spec (Z.of_nat (recv_buffer_size_ (conn l))) z) as [Hlt|Hge].
  - eexists. split; [done|]. split; [done|]. split; [by left|]. split; [done|]. right. cbn.
    unfold MESSAGE_SIZE_UNLIMITED in *. rewrite wrap_small by (split; lia).
    apply andb_false_iff in E1 as [E1|E1]; [apply negb_false_iff, Z.eqb_eq in E1|apply Z.ltb_ge in E1]; unfold MESSAGE_SIZE_UNLIMITED in *; lia.
  - destruct (decide _) as [H8|H8]; [|destruct (magic_cookies_enabled_ (conn l) && _); eexists; (split; [done|]); [by split|done]].
    eexists. split; [done|]. split; [done|]. split; [by left|]. split; [done|]. right. cbn. pos.
Qed.

Lemma front_ok l : inside l → (16 ≤ recv_buffer_size_ (conn l))%nat →
  ∃ b, match r with server => is_magic_cookie r (conn l) (its_iteration_gap l) | client => Ok true end = Ok b.
Proof. intros. destruct r; [by eexists|]. rewrite cookie_window_0 by done. by eexists. Qed.

Lemma maybe_report_ok (b : bool) l : inside l → ∃ l', (if b then Ok l else report_error r env l) = Ok l' ∧ keeps l l'.
Proof. intros. destruct b; [by eexists|]. by apply report_ok. Qed.

(** A cookie that is in front belongs to a complete message. *)
Lemma cookie_complete l : inside l → bytes_ok (recv_buffer_ (conn l)) → (16 ≤ recv_buffer_size_ (conn l))%nat →
  take 16 (window l) = expected_cookie r →
  utility.get_message_size (host env) (recv_buffer_ (conn l)) (its_iteration_gap l) (recv_buffer_size_ (conn l)) = Ok 16.
Proof.
  intros Hin Hb Hs Hc. rewrite message_size_window by (done || lia).
  rewrite <- (take_take_drop _ 4 4 16), Hc by lia. by destruct r.
Qed.

Lemma resync_ok l : inside l → bytes_ok (recv_buffer_ (conn l)) → Z.of_nat (recv_buffer_size_ (conn l)) ≤ MESSAGE_SIZE_UNLIMITED →
  ((16 ≤ recv_buffer_size_ (conn l))%nat → take 16 (window l) ≠ expected_cookie r) →
  ∃ b l', resync r env l = Ok (b, l')
  ∧ if b then inside l' ∧ recv_buffer_ (conn l') = recv_buffer_ (conn l) ∧ missing_capacity_ (conn l') = missing_capacity_ (conn l)
              ∧ (recv_buffer_size_ (conn l') < recv_buffer_size_ (conn l))%nat
    else l' = l.
Proof.
  intros Hin Hb Hsz Hno. unfold resync. destruct (find_window r l Hin) as (y & -> & Hy). rewrite bind_Ok.
  rewrite window_length in Hy by done. destruct (Z.ltb_spec y (Z.of_nat (recv_buffer_size_ (conn l)))) as [Hlt|Hge]; [|by eexists false, l].
  destruct Hy as [[-> _]|(k & -> & Hk & Hc)]; [unfold MESSAGE_SIZE_UNLIMITED in *; lia|].
  assert (Hk0 : k ≠ 0%nat) by (intros ->; rewrite drop_0 in Hc; apply Hno; [lia|done]).
  destruct (front_ok l Hin) as [b ->]; [lia|]. rewrite bind_Ok. destruct (maybe_report_ok b l Hin) as (l1 & -> & K1). rewrite bind_Ok.
  pose proof K1 as (Kg & Kb & Ks & Km & _). rewrite Nat2Z.id. set (l2 := advance k l1).
  assert (Hin2 : inside l2) by (unfold inside, l2 in *; cbn; rewrite Kb, Kg, Ks; lia).
  destruct (front_ok l2 Hin2) as [b2 ->]; [cbn; lia|]. rewrite bind_Ok. destruct (maybe_report_ok b2 l2 Hin2) as (l3 & -> & K3). rewrite bind_Ok.
  exists true, l3. split; [done|]. pose proof K3 as (_ & -> & -> & -> & _). split; [eauto|]. cbn. rewrite Kb, Km, Ks. split; [done|]. split; [done|lia].
Qed.

Lemma size_ok l : inside l → bytes_ok (recv_buffer_ (conn l)) →
  ∃ z, utility.get_message_size (host env) (recv_buffer_ (conn l)) (its_iteration_gap l) (recv_buffer_size_ (conn l)) = Ok z
     ∧ 0 ≤ z ≤ MESSAGE_SIZE_UNLIMITED.
Proof.
  intros Hin Hb. destruct (decide (8 ≤ recv_buffer_size_ (conn l))%nat).
  - rewrite message_size_window by done. eexists. split; [done|]. unfold MESSAGE_SIZE_UNLIMITED. word.
  - unfold utility.get_message_size. rewrite decide_False by done. by eexists.
Qed.

(** One round: the next one has less data, or it is the last. *)
Lemma iteration_ok l : inside l → fits (recv_buffer_ (conn l)) → max_message_size_ cfg ≤ MESSAGE_SIZE_UNLIMITED →
  (0 < recv_buffer_size_ (conn l))%nat → missing_capacity_ (conn l) = 0 →
  ∃ s, iteration r cfg env l = Ok s
  ∧ match s with
    | next true l' => inside l' ∧ fits (recv_buffer_ (conn l')) ∧ missing_capacity_ (conn l') = 0
                      ∧ (recv_buffer_size_ (conn l') < recv_buffer_size_ (conn l))%nat
    | next false l' => settled l'
    | leave o _ => ∀ n, o ≠ receiving n
    end.
Proof.
  intros Hin Hf Hmax Hs Hm. unfold iteration. pose proof Hf as (Hf1 & Hf2 & Hb).
  assert (Hsz : Z.of_nat (recv_buffer_size_ (conn l)) ≤ MESSAGE_SIZE_UNLIMITED).
  { unfold inside in Hin. pose proof initial_pos. assert (recv_buffer_size_initial_ r ≤ 32)%nat by (destruct r; cbn; pos).
    unfold MESSAGE_SIZE_UNLIMITED in *. lia. }
  destruct (size_ok l Hin Hb) as (z & Hz & Hzr). rewrite Hz, bind_Ok.
  rewrite (proj2 (Z.ltb_ge _ _)) by lia. rewrite (wrap_small 32 z) by (unfold MESSAGE_SIZE_UNLIMITED in *; split; lia).
  destruct (_ && (z <=? _)) eqn:Efull.
  - apply andb_true_iff in Efull as [E1%Z.ltb_lt E2%Z.leb_le]. unfold VSOMEIP_RETURN_CODE_POS in E1.
    destruct (full_message_some r cfg env l (Z.to_nat z) Hin) as (l' & m & l1 & -> & Hm1 & -> & K); [lia..|].
    rewrite bind_Ok. eexists. split; [done|]. pose proof K as (Kg & Kb & Ks & _). cbn in Kg, Kb, Ks.
    destruct (passed_spec r cfg m l1) as (_ & _ & -> & -> & -> & _); [lia|]. split; [|rewrite Kb, Ks; split; [done|]; split; [done|lia]].
    apply passed_window; [|lia]. by apply (keeps_inside _ _ K).
  - assert (Hres : ∃ b l', (if magic_cookies_enabled_ (conn l) && bool_decide (0 < recv_buffer_size_ (conn l))%nat then resync r env l else Ok (false, l)) = Ok (b, l')
      ∧ if b then inside l' ∧ recv_buffer_ (conn l') = recv_buffer_ (conn l) ∧ missing_capacity_ (conn l') = missing_capacity_ (conn l)
              ∧ (recv_buffer_size_ (conn l') < recv_buffer_size_ (conn l))%nat else l' = l).
    { destruct (_ && bool_decide _); [|by eexists _, _]. apply resync_ok; [done..|]. intros Hc Hco.
      rewrite (cookie_complete l) in Hz by done. injection Hz as <-. rewrite (proj2 (Z.leb_le _ _)) in Efull by lia. done. }
    destruct Hres as (b & l' & -> & Hl'). rewrite bind_Ok. destruct b.
    + destruct Hl' as (H1 & H2 & H3 & H4). eexists. split; [done|]. cbn. by rewrite H2, H3.
    + subst l'. destruct (incomplete_ok z l) as (s & -> & Hsp); [done..|]. exists s. split; [done|].
      destruct s as [[] ?|]; [by destruct Hsp|by destruct Hsp|done].
Qed.
End safety.

(** ** The rest of the callback *)

Lemma copy_front_ok gap n buf : (gap + n ≤ length buf)%nat → copy_front gap n buf = Ok (take n (drop gap buf) ++ drop n buf).
Proof.
  intros Hl. unfold copy_front. induction n as [|n IH]; [done|].
  rewrite seq_S, foldM_app, IH, bind_Ok by lia. cbn [foldM Nat.add].
  destruct (lookup_lt_is_Some_2 buf (gap + n)) as [x Hx]; [lia|]. unfold rd1, wr1.
  rewrite lookup_app_r by len. rewrite length_take, length_drop, lookup_drop.
  replace (n + (n + gap - n `min` (length buf - gap)))%nat with (gap + n)%nat by lia. rewrite Hx, bind_Ok.
  rewrite decide_True by len. cbn [mbind result_bind]. f_equal.
  rewrite insert_app_r_alt by len. rewrite length_take, length_drop.
  replace (n - n `min` (length buf - gap))%nat with 0%nat by lia.
  destruct (lookup_lt_is_Some_2 buf n) as [y Hy]; [lia|]. rewrite (drop_S buf y n) by done. cbn [list_insert insert].
  rewrite (take_S_r _ n x); [by rewrite <- app_assoc|]. by rewrite lookup_drop.
Qed.

Section callback.
Context (r : role) (cfg : configuration) (env : environment).

Lemma loop_ok fuel : ∀ l, inside l → fits r cfg (recv_buffer_ (conn l)) → max_message_size_ cfg ≤ MESSAGE_SIZE_UNLIMITED →
  (0 < recv_buffer_size_ (conn l))%nat → missing_capacity_ (conn l) = 0 → (recv_buffer_size_ (conn l) < fuel)%nat →
  ∃ o l', receive_loop r cfg env fuel l = Ok (Some (o, l'))
  ∧ match o with None => settled r cfg l' | Some o => ∀ n, o ≠ receiving n end.
Proof.
  induction fuel as [|fuel IH]; intros l Hin Hf Hmax Hs Hm Hfuel; [lia|]. cbn [receive_loop].
  destruct (iteration_ok r cfg env l Hin Hf Hmax Hs Hm) as (s & -> & Hsp). rewrite bind_Ok. destruct s as [[] l1|o l1].
  - destruct Hsp as (H1 & H2 & H3 & H4). cbn [andb]. destruct (bool_decide_reflect (recv_buffer_size_ (conn l1) ≠ 0%nat)) as [Hne|Hz].
    + apply IH; (done || lia).
    + eexists None, l1. split; [done|]. split; [by left|]. split; [done|]. left. split; [done|]. lia.
  - eexists None, l1. by split.
  - eexists (Some o), l1. by split.
Qed.

(** Between two reads: [n] bytes are asked for, and they fit. *)
Definition ready (n : nat) (st : t) : Prop :=
  (0 < n)%nat ∧ (recv_buffer_size_ st + n ≤ length (recv_buffer_ st))%nat ∧ fits r cfg (recv_buffer_ st) ∧ missing_capacity_ st = 0.

Lemma shift_ok l : settled r cfg l → ∃ st, shift l = Ok st
  ∧ take (recv_buffer_size_ st) (recv_buffer_ st) = window l
  ∧ length (recv_buffer_ st) = length (recv_buffer_ (conn l)) ∧ fits r cfg (recv_buffer_ st)
  ∧ recv_buffer_size_ st = recv_buffer_size_ (conn l) ∧ magic_cookies_enabled_ st = magic_cookies_enabled_ (conn l)
  ∧ (missing_capacity_ st = missing_capacity_ (conn l)
     ∨ missing_capacity_ st = 0 ∧ 0 < missing_capacity_ (conn l) ≤ Z.of_nat (length (recv_buffer_ st)) - Z.of_nat (recv_buffer_size_ st)).
Proof.
  intros (Hin & Hf & Hm). unfold shift, window. destruct (decide (its_iteration_gap l = 0%nat)) as [->|Hg].
  { eexists. split; [done|]. rewrite drop_0. do 5 (split; [done|]). by left. }
  assert (Hcopy : ∃ b, copy_front (its_iteration_gap l) (recv_buffer_size_ (conn l)) (recv_buffer_ (conn l)) = Ok b
    ∧ take (recv_buffer_size_ (conn l)) b = take (recv_buffer_size_ (conn l)) (drop (its_iteration_gap l) (recv_buffer_ (conn l)))
    ∧ length b = length (recv_buffer_ (conn l)) ∧ bytes_ok b).
  { destruct Hf as (_ & _ & Hb). destruct Hin as [Hin| ->]; [|by eexists]. unfold inside in Hin. rewrite copy_front_ok by done. eexists. split; [done|].
    split; [rewrite take_app_le by len; rewrite firstn_firstn; f_equal; lia|]. split; [len|]. apply Forall_app_2; auto using Forall_take, Forall_drop. }
  destruct Hcopy as (b & -> & Hw & Hl & Hb). rewrite bind_Ok. cbn.
  assert (Hf' : fits r cfg b) by (destruct Hf as (H1 & H2 & _); unfold fits; by rewrite Hl).
  destruct (Z.eqb_spec (missing_capacity_ (conn l)) 0) as [E|E]; cbn [negb andb].
  { eexists. split; [done|]. do 5 (split; [done|]). by left. }
  destruct (Z.leb_spec (missing_capacity_ (conn l)) (Z.of_nat (length b - recv_buffer_size_ (conn l)))).
  - eexists. split; [done|]. do 5 (split; [done|]). right. cbn. split; [done|]. lia.
  - eexists. split; [done|]. do 5 (split; [done|]). by left.
Qed.

(** The next read after a settled loop: at least one byte, within the bound. *)
Lemma receive_ok l st : settled r cfg l → fits r cfg (recv_buffer_ st) → max_message_size_ cfg ≤ MESSAGE_SIZE_UNLIMITED →
  recv_buffer_size_ st = recv_buffer_size_ (conn l) →
  (missing_capacity_ st = missing_capacity_ (conn l)
     ∨ missing_capacity_ st = 0 ∧ 0 < missing_capacity_ (conn l) ≤ Z.of_nat (length (recv_buffer_ st)) - Z.of_nat (recv_buffer_size_ st)) →
  (recv_buffer_size_ st ≤ length (recv_buffer_ st))%nat →
  (receive r cfg env st).1 = closing ∧ (∃ k, alloc env k = false) ∨
  ∃ n, (receive r cfg env st).1 = receiving n ∧ ready n (receive r cfg env st).2
     ∧ take (recv_buffer_size_ st) (recv_buffer_ (receive r cfg env st).2) = take (recv_buffer_size_ st) (recv_buffer_ st)
     ∧ recv_buffer_size_ (receive r cfg env st).2 = recv_buffer_size_ st
     ∧ magic_cookies_enabled_ (receive r cfg env st).2 = magic_cookies_enabled_ st.
Proof.
  intros (_ & _ & Hm) Hf Hmax Hsz Hmiss Hle. pose proof Hf as (Hf1 & Hf2 & Hb). pose proof (initial_pos r) as Hi.
  assert (Hi2 : (recv_buffer_size_initial_ r ≤ 32)%nat) by (destruct r; cbn; pos).
  unfold receive. assert (match r with server => bool_decide (length (recv_buffer_ st) < recv_buffer_size_ st)%nat | client => false end = false) as ->.
  { destruct r; [done|]. apply bool_decide_false. lia. }
  destruct (Z.eqb_spec (missing_capacity_ st) 0) as [E|E]; cbn [negb].
  - right. destruct (_ && bool_decide (recv_buffer_size_ st = 0%nat)) eqn:Esh.
    + apply andb_true_iff in Esh as [_ Esh%bool_decide_eq_true]. eexists. split; [done|]. cbn. rewrite Esh. split; [|done].
      split; [lia|]. cbn. rewrite Esh, resized_length. split; [lia|]. split; [by apply fits_reset|done].
    + eexists. split; [done|]. cbn. split; [|done]. split; [|split; [lia|]; by split]. lia.
  - assert (Hreq : 0 < missing_capacity_ st ∧ Z.of_nat (recv_buffer_size_ st) + missing_capacity_ st
              ≤ Z.max (Z.of_nat (recv_buffer_size_initial_ r)) (max_message_size_ cfg)) by lia.
    rewrite (proj2 (Z.ltb_ge _ _)) by (unfold MESSAGE_SIZE_UNLIMITED in *; lia).
    destruct (decide _) as [Hgrow|Hno].
    + destruct (alloc env _) eqn:Ea; [|left; split; [done|by eexists]]. right. eexists. split; [done|]. cbn.
      split; [|split; [|done]; unfold resize; rewrite take_app_le by len; rewrite firstn_firstn; f_equal; lia].
      split; [lia|]. cbn. rewrite resized_length. split; [lia|]. split; [|done]. split; [rewrite resized_length; lia|].
      split; [rewrite resized_length; lia|by apply resized_ok].
    + right. eexists. split; [done|]. cbn. split; [|done]. split; [lia|]. split; [cbn; lia|]. by split.
Qed.

Lemma no_overflow n st (chunk b : bytes) : max_message_size_ cfg ≤ MESSAGE_SIZE_UNLIMITED → ready n st → (0 < length chunk ≤ n)%nat →
  length b = length (recv_buffer_ st) → overflows r (length chunk) (with_buffer b st) = false.
Proof.
  intros Hmax (_ & Hfit & (_ & H2 & _) & _) Hc Hl. unfold overflows. cbn. assert (Hi2 : (recv_buffer_size_initial_ r ≤ 32)%nat) by (destruct r; cbn; pos).
  destruct r; [apply bool_decide_false; lia|]. apply Z.ltb_ge. rewrite wrap_small; [lia|]. unfold MESSAGE_SIZE_UNLIMITED in *. wrap_bounds. lia.
Qed.

Lemma feed_ok n st chunk : routing_host env = true → max_message_size_ cfg ≤ MESSAGE_SIZE_UNLIMITED → ready n st →
  (0 < length chunk ≤ n)%nat → bytes_ok chunk →
  ∃ out o st', feed r cfg env chunk st = Ok (Some (out, o, st'))
  ∧ match o with receiving n' => ready n' st' | _ => True end.
Proof.
  intros Hhost Hmax Hready Hc Hb. pose proof Hready as (Hn & Hfit & Hf & Hm). unfold feed. rewrite wr_ok, bind_Ok by lia. set (b := take _ _ ++ _).
  assert (Hlb : length b = length (recv_buffer_ st)) by (unfold b; len).
  assert (Hfb : fits r cfg b).
  { destruct Hf as (H1 & H2 & H3). unfold fits. rewrite Hlb. split; [done|]. split; [done|].
    unfold b. repeat apply Forall_app_2; auto using Forall_take, Forall_drop. }
  unfold receive_cbk. rewrite Hhost. cbn [negb]. rewrite decide_True by lia. unfold on_data. rewrite (no_overflow n) by done.
  cbv zeta. set (st1 := with_size _ _). set (l0 := mk_loop 0 [] st1).
  destruct (loop_ok (S (recv_buffer_size_ st1)) l0) as (o & l & -> & Hl); [unfold inside; cbn; rewrite Hlb; lia|done|done|cbn; lia|done|cbn; lia|].
  rewrite bind_Ok. destruct o as [o|]; [by (destruct o; [by destruct (Hl n0)|eexists _, _, _..])|].
  destruct (shift_ok l Hl) as (st2 & -> & Hw & Hlen & Hf2 & Hs2 & _ & Hm2). rewrite bind_Ok.
  eexists _, _, _. split; [done|]. destruct (receive_ok l st2 Hl Hf2 Hmax Hs2 Hm2) as [[-> _]|(n' & -> & Hr & _)]; [|done|done].
  pose proof Hl as ([Hin|E] & _ & _); [unfold inside in Hin; rewrite Hlen, Hs2; lia|lia].
Qed.
End callback.

(** ** Streams of messages *)

Lemma cookie_length r : length (expected_cookie r) = 16%nat.
Proof. by destruct r. Qed.

Section stream.
Context (r : role) (cfg : configuration) (env : environment).
Context (Hmax : max_message_size_ cfg ≤ MESSAGE_SIZE_UNLIMITED).
Let cookie := expected_cookie r.

(** A message as it is sent: its length field, version, type and return code are
    right and it is not longer than the receiver accepts. *)
Definition frame (f : bytes) : Prop :=
  bytes_ok f ∧ (16 ≤ length f)%nat ∧ Z.of_nat (length f) ≤ max_message_size_ cfg
  ∧ be_val (take 4 (drop 4 f)) = Z.of_nat (length f) - 8
  ∧ f !! VSOMEIP_PROTOCOL_VERSION_POS = Some VSOMEIP_PROTOCOL_VERSION
  ∧ (∃ ty, f !! VSOMEIP_MESSAGE_TYPE_POS = Some ty ∧ utility.is_valid_message_type ty = true)
  ∧ (∃ c, f !! VSOMEIP_RETURN_CODE_POS = Some c ∧ utility.is_valid_return_code c = true).

(** The bytes of a cookie occur only as a cookie. *)
Definition clean (fs : list bytes) : Prop :=
  ∀ k, take 16 (drop k (mjoin fs)) = cookie → ∃ fs1 fs2, fs = fs1 ++ cookie :: fs2 ∧ k = length (mjoin fs1).

Definition delivered (fs : list bytes) : list output := on_message <$> filter (λ f, f ≠ cookie) fs.

Lemma cookie_frame f : frame f → take 16 f = expected_cookie r ↔ f = cookie.
Proof.
  intros (_ & H16 & _ & Hlen & _). split; [|by intros ->; destruct r].
  intros E. rewrite <- (take_take_drop f 4 4 16), E in Hlen by lia.
  assert (length f = 16%nat) by (destruct r; vm_compute (be_val _) in Hlen; lia).
  change (f = expected_cookie r). rewrite <- E. symmetry. apply take_ge. lia.
Qed.

Lemma clean_tail f fs : (0 < length f)%nat → clean (f :: fs) → clean fs.
Proof.
  intros Hf Hc k Hk. destruct (Hc (length f + k)%nat) as (fs1 & fs2 & E & Hl).
  - change (mjoin (f :: fs)) with (f ++ mjoin fs). by rewrite <- drop_drop, drop_app_length.
  - destruct fs1 as [|g fs1]; [cbn in Hl; lia|]. injection E as -> ->. exists fs1, fs2. split; [done|].
    change (mjoin (g :: fs1)) with (g ++ mjoin fs1) in Hl. rewrite length_app in Hl. lia.
Qed.

(** Data in front of which there is the message [f]. *)
Record head (l : loop) (f : bytes) (fs : list bytes) (rest : bytes) : Prop := {
  head_inside : inside l;
  head_fits : fits r cfg (recv_buffer_ (conn l));
  head_data : window l ++ rest = f ++ mjoin fs;
  head_frame : frame f;
  head_clean : magic_cookies_enabled_ (conn l) = true ∨ f = cookie → clean (f :: fs);
  head_missing : missing_capacity_ (conn l) = 0
}.

Lemma head_piece l f fs rest k n : head l f fs rest → (k + n ≤ recv_buffer_size_ (conn l))%nat → (k + n ≤ length f)%nat →
  take n (drop k (window l)) = take n (drop k f).
Proof.
  intros H H1 H2. rewrite (prefix_piece _ _ _ k n (head_data _ _ _ _ H)) by (rewrite window_length; [lia|apply H]).
  rewrite drop_app_le by lia. rewrite take_app_le by len. done.
Qed.

Lemma head_lookup l f fs rest k : head l f fs rest → (k < recv_buffer_size_ (conn l))%nat → (k < length f)%nat → window l !! k = f !! k.
Proof.
  intros H H1 H2. rewrite <- (lookup_app_l f (mjoin fs)) by done. rewrite <- (head_data _ _ _ _ H).
  by rewrite lookup_app_l by (rewrite window_length; [done|apply H]).
Qed.

Lemma head_size l f fs rest : head l f fs rest → (8 ≤ recv_buffer_size_ (conn l))%nat →
  utility.get_message_size (host env) (recv_buffer_ (conn l)) (its_iteration_gap l) (recv_buffer_size_ (conn l)) = Ok (Z.of_nat (length f)).
Proof.
  intros H H8. pose proof (head_frame _ _ _ _ H) as (_ & H16 & Hle & Hlen & _).
  rewrite message_size_window; [|apply H|apply H|done]. rewrite (head_piece l f fs rest) by (done || lia). rewrite Hlen. f_equal.
  replace (8 + (Z.of_nat (length f) - 8)) with (Z.of_nat (length f)) by lia. unfold MESSAGE_SIZE_UNLIMITED in *. apply wrap_small. split; lia.
Qed.

(** No cookie is found before the next message. *)
Lemma head_find l f fs rest : head l f fs rest → magic_cookies_enabled_ (conn l) = true → f ≠ cookie →
  ∃ z, find_magic_cookie r (recv_buffer_ (conn l)) (its_iteration_gap l) (recv_buffer_size_ (conn l)) = Ok z
     ∧ (z = 0xFFFFFFFF ∨ Z.of_nat (length f) ≤ z).
Proof.
  intros H Hm Hf. destruct (find_window r l) as (z & -> & Hz); [apply H|]. exists z. split; [done|].
  destruct Hz as [[-> _]|(k & -> & Hk & Hc)]; [by left|right].
  destruct (head_clean _ _ _ _ H (or_introl Hm) k) as (fs1 & fs2 & E & ->).
  - change (mjoin (f :: fs)) with (f ++ mjoin fs). by rewrite <- (prefix_piece _ _ _ k 16 (head_data _ _ _ _ H)) by lia.
  - destruct fs1 as [|g fs1]; [by injection E as -> _|]. injection E as -> _.
    change (mjoin (g :: fs1)) with (g ++ mjoin fs1). rewrite length_app. lia.
Qed.

(** A complete message is delivered, a cookie switches the cookies on. *)
Lemma iteration_full l f fs rest : head l f fs rest → (length f ≤ recv_buffer_size_ (conn l))%nat →
  ∃ l', iteration r cfg env l = Ok (next true l') ∧ inside l' ∧ recv_buffer_ (conn l') = recv_buffer_ (conn l)
  ∧ window l' = drop (length f) (window l) ∧ missing_capacity_ (conn l') = 0
  ∧ outputs l' = outputs l ++ delivered [f]
  ∧ magic_cookies_enabled_ (conn l') = magic_cookies_enabled_ (conn l) || bool_decide (f = cookie).
Proof.
  intros H Hs. pose proof (head_frame _ _ _ _ H) as Hfr. pose proof Hfr as (_ & H16 & Hle & _). pose proof (head_inside _ _ _ _ H) as Hin.
  unfold iteration. rewrite (head_size l f fs rest) by (done || lia). rewrite bind_Ok.
  rewrite (proj2 (Z.ltb_ge _ _)) by lia. rewrite (wrap_small 32) by (unfold MESSAGE_SIZE_UNLIMITED in *; split; lia).
  rewrite (proj2 (Z.ltb_lt _ _)), (proj2 (Z.leb_le _ _)) by pos. cbn [andb]. rewrite Nat2Z.id.
  assert (Hfull : ∃ l1, full_message r cfg env (length f) l = Ok (passed r cfg (length f) l1)
    ∧ keeps (on_conn (with_cookies (magic_cookies_enabled_ (conn l) || bool_decide (f = cookie))) l) l1 ∧ outputs l1 = outputs l ++ delivered [f]).
  { unfold full_message. rewrite cookie_window_0 by (done || lia). rewrite bind_Ok.
    assert (E16 : take 16 (window l) = take 16 f) by (apply (head_piece l f fs rest 0 16); (done || lia)).
    assert (Ef : take (length f) (window l) = f) by (rewrite (head_piece l f fs rest 0) by (done || lia); by rewrite drop_0, firstn_all).
    unfold delivered. rewrite E16. destruct (decide (f = cookie)) as [Hc|Hc].
    - rewrite (bool_decide_true (take 16 f = expected_cookie r)) by (by apply cookie_frame).
      destruct (forward_ok r env (on_conn (with_cookies true) l) (length f)) as (l1 & -> & K & Ho); [done|cbn; lia..|].
      exists l1. split; [done|]. rewrite bool_decide_true, orb_true_r by done. split; [done|]. rewrite Ho. change (window (on_conn _ l)) with (window l).
      rewrite E16. cbn [magic_cookies_enabled_ with_cookies conn on_conn andb]. rewrite bool_decide_true by (by apply cookie_frame).
      rewrite filter_cons_False by (by intros Hn). done.
    - rewrite (bool_decide_false (take 16 f = expected_cookie r)) by (by rewrite cookie_frame).
      destruct (forward_ok r env l (length f)) as (l1 & Hfw & K & Ho); [done|lia..|].
      assert (Hout : outputs l1 = outputs l ++ (on_message <$> filter (λ f, f ≠ cookie) [f])).
      { rewrite Ho, E16, (bool_decide_false (take 16 f = _)), andb_false_r, Ef by (by rewrite cookie_frame). by rewrite filter_cons_True. }
      assert (K' : keeps (on_conn (with_cookies (magic_cookies_enabled_ (conn l) || bool_decide (f = cookie))) l) l1).
      { rewrite bool_decide_false, orb_false_r by done. destruct K as (?&?&?&?&?). by repeat split. }
      exists l1. split; [|done]. rewrite Hfw. destruct (magic_cookies_enabled_ (conn l)) eqn:Em; [|done].
      destruct (head_find l f fs rest H Em Hc) as (z & -> & Hz). rewrite bind_Ok, (proj2 (Z.ltb_ge _ _)); [done|].
      unfold MESSAGE_SIZE_UNLIMITED in *. lia. }
  destruct Hfull as (l1 & -> & K & Ho). rewrite bind_Ok. eexists. split; [done|].
  assert (Hin1 : inside l1) by (by apply (keeps_inside _ _ K)). assert (Hs1 : recv_buffer_size_ (conn l1) = recv_buffer_size_ (conn l)) by apply K.
  destruct (passed_spec r cfg (length f) l1) as (_ & -> & -> & _ & -> & ->); [lia|]. destruct (passed_window r cfg (length f) l1 Hin1) as [Hin2 ->]; [lia|].
  rewrite (keeps_window _ _ K). pose proof K as (_ & -> & _ & _ & ->). by rewrite Ho.
Qed.

(** The capacity that is missing for an incomplete message. *)
Definition missing_for (size : nat) (f : bytes) : Z :=
  if decide (size < 8)%nat then Z.of_nat (8 - size) else Z.of_nat (length f) - Z.of_nat size.

(** The beginning of a message waits for the rest. *)
Lemma iteration_part l f fs rest : head l f fs rest → (0 < recv_buffer_size_ (conn l) < length f)%nat →
  iteration r cfg env l = Ok (next false (on_conn (with_missing (missing_for (recv_buffer_size_ (conn l)) f)) l)).
Proof.
  intros H Hs. pose proof (head_frame _ _ _ _ H) as Hfr. pose proof Hfr as (_ & H16 & Hle & _ & Hver & (ty & Ety & Hty) & (c & Ec & Hc)).
  pose proof (head_inside _ _ _ _ H) as Hin. set (size := recv_buffer_size_ (conn l)) in *.
  assert (Hz : ∃ z, utility.get_message_size (host env) (recv_buffer_ (conn l)) (its_iteration_gap l) size = Ok z
                  ∧ z = (if decide (size < 8)%nat then 0 else Z.of_nat (length f))).
  { destruct (decide (size < 8)%nat).
    - unfold utility.get_message_size. rewrite decide_False by pos. by eexists.
    - exists (Z.of_nat (length f)). split; [|done]. apply (head_size l f fs rest); [done|lia]. }
  destruct Hz as (z & Ez & Hz). unfold iteration. fold size. rewrite Ez, bind_Ok.
  assert (Hz2 : 0 ≤ z ≤ MESSAGE_SIZE_UNLIMITED) by (destruct (decide _); unfold MESSAGE_SIZE_UNLIMITED in *; lia).
  rewrite (proj2 (Z.ltb_ge _ _)) by lia. rewrite (wrap_small 32) by (unfold MESSAGE_SIZE_UNLIMITED in *; split; lia).
  assert ((Z.of_nat VSOMEIP_RETURN_CODE_POS <? z) && (z <=? Z.of_nat size) = false) as ->.
  { apply andb_false_iff. destruct (decide _); [left; apply Z.ltb_ge; pos|right; apply Z.leb_gt; lia]. }
  assert ((if magic_cookies_enabled_ (conn l) && bool_decide (0 < size)%nat then resync r env l else Ok (false, l)) = Ok (false, l)) as ->.
  { destruct (magic_cookies_enabled_ (conn l)) eqn:Em; [|done]. rewrite bool_decide_true by lia. cbn [andb]. unfold resync.
    destruct (decide (f = cookie)) as [E|E].
    - destruct (find_window r l Hin) as (y & -> & Hy). rewrite bind_Ok. fold size. rewrite (proj2 (Z.ltb_ge _ _)); [done|].
      rewrite window_length in Hy by done. fold size in Hy. assert (length f = 16%nat) by (rewrite E; apply cookie_length).
      destruct Hy as [[-> _]|(k & _ & Hk & _)]; [unfold MESSAGE_SIZE_UNLIMITED in *; lia|lia].
    - destruct (head_find l f fs rest H Em E) as (y & -> & Hy). rewrite bind_Ok. fold size. rewrite (proj2 (Z.ltb_ge _ _)); [done|].
      unfold MESSAGE_SIZE_UNLIMITED in *. lia. }
  rewrite bind_Ok. unfold incomplete. fold size. cbv zeta.
  assert (Hguard : ∀ r, bool_decide (VSOMEIP_RETURN_CODE_POS < size)%nat && match r with
      | client => bool_decide (length (recv_buffer_ (conn l)) ≤ its_iteration_gap l + VSOMEIP_RETURN_CODE_POS)%nat | server => false end = false).
  { intros []; [|by rewrite andb_false_r]. destruct (bool_decide_reflect (VSOMEIP_RETURN_CODE_POS < size)%nat); [|done]. apply bool_decide_false. unfold inside in Hin. fold size in Hin. lia. }
  rewrite Hguard. clear Hguard.
  assert ((if bool_decide (VSOMEIP_RETURN_CODE_POS < size)%nat then header_invalid l else Ok None) = Ok None) as ->.
  { destruct (bool_decide_reflect (VSOMEIP_RETURN_CODE_POS < size)%nat) as [Hh|]; [|done]. unfold header_invalid, VSOMEIP_RETURN_CODE_POS in *.
    rewrite !(rd1_window l) by (done || (fold size; pos)). rewrite !(head_lookup l f fs rest) by (done || (fold size; pos)).
    by rewrite Hver, Ety, Ec, !bind_Ok, Hty, Hc. }
  rewrite bind_Ok. rewrite (proj2 (Z.ltb_ge (max_message_size_ cfg) z)), andb_false_r by (destruct (decide _); lia).
  unfold missing_for. destruct (decide (size < 8)%nat) as [H8|H8]; subst z.
  - rewrite (proj2 (Z.ltb_ge _ _)) by lia. unfold VSOMEIP_SOMEIP_HEADER_SIZE. by rewrite decide_True.
  - rewrite (proj2 (Z.ltb_lt _ _)) by lia. rewrite wrap_small; [done|]. unfold MESSAGE_SIZE_UNLIMITED in *. split; lia.
Qed.

(** The beginning of the next message that is left in the buffer. *)
Definition partial (part : bytes) (fs : list bytes) : Prop :=
  part = [] ∨ ∃ f fs', fs = f :: fs' ∧ (0 < length part < length f)%nat.

Lemma delivered_app fs fs' : delivered (fs ++ fs') = delivered fs ++ delivered fs'.
Proof. unfold delivered. by rewrite filter_app, fmap_app. Qed.

Definition wants_clean (enabled : bool) (fs : list bytes) : Prop := enabled = true ∨ cookie ∈ fs → clean fs.

Lemma wants_clean_tail enabled f fs : frame f → wants_clean enabled (f :: fs) → wants_clean (enabled || bool_decide (f = cookie)) fs.
Proof.
  intros (_ & H16 & _) H Hor. apply (clean_tail f); [lia|]. apply H.
  destruct Hor as [Hb|Hi]; [|right; apply elem_of_cons; by right]. apply orb_true_iff in Hb as [Hb|Hb]; [by left|].
  apply bool_decide_eq_true in Hb as <-. right. apply elem_of_cons. by left.
Qed.

(** The loop delivers the complete messages and keeps the rest. *)
Lemma loop_stream fuel : ∀ l fs rest, inside l → fits r cfg (recv_buffer_ (conn l)) → window l ++ rest = mjoin fs → Forall frame fs →
  wants_clean (magic_cookies_enabled_ (conn l)) fs → missing_capacity_ (conn l) = 0 → (0 < recv_buffer_size_ (conn l) < fuel)%nat →
  ∃ l' fs1 fs2, receive_loop r cfg env fuel l = Ok (Some (None, l')) ∧ fs = fs1 ++ fs2 ∧ outputs l' = outputs l ++ delivered fs1
  ∧ inside l' ∧ recv_buffer_ (conn l') = recv_buffer_ (conn l) ∧ window l = mjoin fs1 ++ window l' ∧ partial (window l') fs2
  ∧ wants_clean (magic_cookies_enabled_ (conn l')) fs2 ∧ settled r cfg l'.
Proof.
  induction fuel as [|fuel IH]; intros l fs rest Hin Hf Hd Hfr Hc Hm Hs; [lia|]. cbn [receive_loop].
  destruct fs as [|f fs]. { apply (f_equal length) in Hd. rewrite length_app, window_length in Hd by done. cbn in Hd. lia. }
  apply Forall_cons in Hfr as [Hf1 Hfr].
  assert (Hh : head l f fs rest). { split; [done..| |done]. intros Hor. apply Hc. destruct Hor as [|<-]; [by left|right; apply elem_of_cons; by left]. }
  pose proof Hf1 as (_ & H16 & Hle & _). pose proof (initial_pos r) as Hi. destruct (decide (length f ≤ recv_buffer_size_ (conn l))%nat) as [Hfull|Hpart].
  - destruct (iteration_full l f fs rest Hh Hfull) as (l1 & -> & Hin1 & Hb1 & Hw1 & Hm1 & Ho1 & He1). rewrite bind_Ok. cbn [andb].
    assert (Hsplit : window l = f ++ window l1).
    { rewrite Hw1. rewrite <- (firstn_skipn (length f) (window l)) at 1. f_equal.
      transitivity (take (length f) (drop 0 f)); [apply (head_piece l f fs rest 0 (length f) Hh); lia|by rewrite drop_0, firstn_all]. }
    assert (Hl1 : recv_buffer_size_ (conn l1) = (recv_buffer_size_ (conn l) - length f)%nat).
    { rewrite <- (window_length l1 Hin1), Hw1. rewrite length_drop, window_length by done. done. }
    assert (Hc1 : wants_clean (magic_cookies_enabled_ (conn l1)) fs) by (rewrite He1; by apply wants_clean_tail).
    destruct (bool_decide_reflect (recv_buffer_size_ (conn l1) ≠ 0%nat)) as [Hne|Hz].
    + destruct (IH l1 fs rest Hin1) as (l' & fs1 & fs2 & -> & -> & Ho & Hin' & Hb' & Hw' & Hp & Hc' & Hst); [by rewrite Hb1| |done..|lia|].
      { rewrite Hsplit, <- app_assoc in Hd. by apply app_inv_head in Hd. }
      exists l', (f :: fs1), fs2. split; [done|]. split; [done|].
      split; [rewrite Ho, Ho1, <- app_assoc, <- delivered_app; done|]. split; [done|]. split; [congruence|].
      split; [rewrite Hsplit, Hw'; change (mjoin (f :: fs1)) with (f ++ mjoin fs1); by rewrite <- app_assoc|]. done.
    + exists l1, [f], fs. split; [done|]. split; [done|]. split; [done|]. split; [done|]. split; [done|].
      assert (window l1 = []) as E by (apply nil_length_inv; rewrite window_length by done; lia).
      split; [cbn; rewrite app_nil_r; exact Hsplit|]. split; [by left|]. split; [done|]. split; [by left|]. split; [by rewrite Hb1|]. left. split; [done|lia].
  - rewrite (iteration_part l f fs rest Hh) by lia. rewrite bind_Ok. cbn [andb]. eexists _, [], (f :: fs). split; [done|]. split; [done|].
    split; [by rewrite app_nil_r|]. split; [done|]. split; [done|]. split; [done|].
    split; [right; exists f, fs; split; [done|]; rewrite window_length by done; cbn; lia|]. split; [done|].
    split; [by left|]. split; [done|]. right. cbn. unfold missing_for. destruct (decide _); lia.
Qed.

(** Between two reads of the stream. *)
Definition waiting (n : nat) (st : t) (part : bytes) (fs : list bytes) : Prop :=
  ready r cfg n st ∧ take (recv_buffer_size_ st) (recv_buffer_ st) = part ∧ partial part fs
  ∧ wants_clean (magic_cookies_enabled_ st) fs.

Lemma feed_stream n st part fs chunk rest : routing_host env = true → (∀ k, alloc env k = true) → waiting n st part fs →
  Forall frame fs → part ++ chunk ++ rest = mjoin fs → bytes_ok chunk → (0 < length chunk ≤ n)%nat →
  ∃ fs1 fs2 n' st' part', feed r cfg env chunk st = Ok (Some (delivered fs1, receiving n', st'))
  ∧ fs = fs1 ++ fs2 ∧ part' ++ rest = mjoin fs2 ∧ waiting n' st' part' fs2.
Proof.
  intros Hhost Halloc (Hready & Hpart & Hp & Hcl) Hfr Hd Hb Hc. pose proof Hready as (Hn & Hfit & Hf & Hm). unfold feed. rewrite wr_ok, bind_Ok by lia. set (b := take _ _ ++ _).
  assert (Hlb : length b = length (recv_buffer_ st)) by (unfold b; len).
  assert (Hfb : fits r cfg b).
  { destruct Hf as (H1 & H2 & H3). unfold fits. rewrite Hlb. split; [done|]. split; [done|].
    unfold b. repeat apply Forall_app_2; auto using Forall_take, Forall_drop. }
  unfold receive_cbk. rewrite Hhost. cbn [negb]. rewrite decide_True by lia. unfold on_data. rewrite (no_overflow r cfg n) by done.
  cbv zeta. set (st1 := with_size _ _). set (l0 := mk_loop 0 [] st1).
  assert (Hw0 : window l0 = part ++ chunk).
  { unfold window, l0, st1, b. cbn. rewrite drop_0, app_assoc, Hpart. apply take_app_length'. rewrite length_app, <- Hpart. len. }
  destruct (loop_stream (S (recv_buffer_size_ st1)) l0 fs rest) as (l & fs1 & fs2 & -> & -> & Ho & Hin & Hbl & Hw & Hp' & Hc' & Hst);
    [unfold inside; cbn; rewrite Hlb; lia|done|by rewrite Hw0, <- app_assoc|done|done|done|cbn; lia|].
  rewrite bind_Ok. destruct (shift_ok r cfg l Hst) as (st2 & -> & Hw2 & Hlen & Hf2 & Hs2 & Hmg & Hm2). rewrite bind_Ok.
  destruct (receive_ok r cfg env l st2 Hst Hf2 Hmax Hs2 Hm2) as [[_ [k Hk]]|(n' & -> & Hr & Ht & Hsz & Hmg2)];
    [unfold inside in Hin; rewrite Hlen, Hs2; lia|by rewrite Halloc in Hk|].
  exists fs1, fs2, n', (receive r cfg env st2).2, (window l). rewrite Ho. split; [done|]. split; [done|]. split.
  - rewrite Hw0 in Hw. rewrite app_assoc, Hw in Hd. rewrite <- app_assoc, join_app in Hd. by apply app_inv_head in Hd.
  - split; [done|]. split; [by rewrite Hsz, Ht, Hw2|]. split; [done|]. by rewrite Hmg2, Hmg.
Qed.

(** A socket that has the bytes [stream] to give: the [k]s decide how many of the
    bytes asked for each read returns. *)
Fixpoint run (ks : list nat) (n : nat) (stream : bytes) (st : t) : result (option (list output * bytes * nat * t)) :=
  match ks, stream with
  | k :: ks, _ :: _ =>
      let m := S (k mod n) in
      e ← feed r cfg env (take m stream) st;
      match e with
      | Some (out, receiving n, st) =>
          e ← run ks n (drop m stream) st;
          Ok (match e with Some (out', stream, n, st) => Some (out ++ out', stream, n, st) | None => None end)
      | _ => Ok None
      end
  | _, _ => Ok (Some ([], stream, n, st))
  end.

Lemma run_stream ks : ∀ n st part fs stream, routing_host env = true → (∀ k, alloc env k = true) → waiting n st part fs →
  Forall frame fs → part ++ stream = mjoin fs →
  ∃ fs1 fs2 stream' n' st' part', run ks n stream st = Ok (Some (delivered fs1, stream', n', st'))
  ∧ fs = fs1 ++ fs2 ∧ part' ++ stream' = mjoin fs2 ∧ waiting n' st' part' fs2
  ∧ (length stream ≤ length ks → stream' = [])%nat.
Proof.
  induction ks as [|k ks IH]; intros n st part fs stream Hh Ha Hwt Hfr Hd.
  { exists [], fs, stream, n, st, part. cbn. split; [done|]. split; [done|]. split; [done|]. split; [done|].
    intros E. apply nil_length_inv. lia. }
  destruct stream as [|x stream].
  { exists [], fs, [], n, st, part. do 4 (split; [done|]). done. }
  cbn [run]. set (s := x :: stream) in *. pose proof Hwt as ((Hn & _) & _).
  assert (Hmod : (k mod n < n)%nat) by (apply Nat.mod_upper_bound; lia). generalize dependent (k mod n)%nat. intros m Hmod.
  assert (Hb : bytes_ok s).
  { eapply Forall_app. rewrite Hd. apply Forall_join. eapply Forall_impl; [exact Hfr|]. intros f (Hb & _). exact Hb. }
  destruct (feed_stream n st part fs (take (S m) s) (drop (S m) s) Hh Ha Hwt Hfr) as (fs1 & fs2 & n1 & st1 & part1 & -> & -> & Hd1 & Hw1);
    [by rewrite firstn_skipn|by apply Forall_take|unfold s; rewrite length_take; cbn [length]; lia|].
  rewrite bind_Ok. apply Forall_app in Hfr as [_ Hfr].
  destruct (IH n1 st1 part1 fs2 _ Hh Ha Hw1 Hfr Hd1) as (fs3 & fs4 & stream' & n' & st' & part' & -> & -> & Hd' & Hw' & Hz).
  rewrite bind_Ok. exists (fs1 ++ fs3), fs4, stream', n', st', part'. rewrite delivered_app. split; [done|]. split; [by rewrite app_assoc|].
  split; [done|]. split; [done|]. rewrite length_drop in Hz. unfold s in *. cbn [length] in *. intros E. apply Hz. lia.
Qed.

(** When the stream has run dry nothing is left over. *)
Lemma nothing_left part fs : Forall frame fs → partial part fs → part = mjoin fs → fs = [] ∧ part = [].
Proof.
  intros Hfr Hpart Hd. destruct fs as [|f fs].
  { split; [done|]. destruct Hpart as [E|(f & fs & E & _)]; [done|]. by discriminate E. }
  exfalso. apply Forall_cons in Hfr as [(_ & H16 & _) _].
  change (mjoin (f :: fs)) with (f ++ mjoin fs) in Hd. apply (f_equal length) in Hd. rewrite length_app in Hd.
  destruct Hpart as [E|(g & gs & [= <- <-] & Hlt)]; [rewrite E in Hd; cbn in Hd; lia|lia].
Qed.

Lemma create_waiting enabled fs : Z.of_nat 0 ≤ max_message_size_ cfg → wants_clean enabled fs →
  waiting (recv_buffer_size_initial_ r) (create r enabled) [] fs.
Proof.
  intros H0 Hc. pose proof (initial_pos r). split; [|split; [done|]; split; [by left|done]]. split; [lia|]. cbn.
  rewrite length_replicate. split; [lia|]. split; [|done]. split; [rewrite length_replicate; lia|]. split; [rewrite length_replicate; lia|].
  apply Forall_replicate. by_eval.
Qed.
End stream.

(** ** Properties *)

(** (C19) Reading messages from a TCP stream.  Cut a stream of messages (and, if
    the sender uses them, magic cookies) into reads of any sizes: the endpoint,
    client or server, hands every complete message to the routing host, once, in
    order and byte for byte; cookies are swallowed, the beginning of the next
    message waits in the buffer, the connection stays open and always asks for at
    least one byte, and with enough reads everything is delivered.  Where cookies
    are in use, their bytes must not occur elsewhere in the stream. *)
Theorem tcp_stream_delivers (r : role) (cfg : configuration) (env : environment) (enabled : bool)
    (fs : list bytes) (ks : list nat)
    (Hmax : 0 ≤ max_message_size_ cfg ≤ MESSAGE_SIZE_UNLIMITED)
    (Hhost : routing_host env = true) (Halloc : ∀ k, alloc env k = true)
    (Hframes : Forall (frame cfg) fs) (Hclean : wants_clean r enabled fs) :
  ∃ fs1 fs2 stream n st part,
    run r cfg env ks (recv_buffer_size_initial_ r) (mjoin fs) (create r enabled) = Ok (Some (delivered r fs1, stream, n, st))
  ∧ fs = fs1 ++ fs2 ∧ part ++ stream = mjoin fs2 ∧ partial part fs2
  ∧ take (recv_buffer_size_ st) (recv_buffer_ st) = part ∧ (0 < n)%nat
  ∧ (length (mjoin fs) ≤ length ks → fs2 = [])%nat.
Proof.
  destruct (run_stream r cfg env (proj2 Hmax) ks (recv_buffer_size_initial_ r) (create r enabled) [] fs (mjoin fs))
    as (fs1 & fs2 & stream & n & st & part & E & -> & Hd & ((Hn & _) & Hp & Hpart & _) & Hz);
    [done|done|apply create_waiting; [lia|done]|done|done|].
  exists fs1, fs2, stream, n, st, part. do 4 (split; [done|]). split; [done|]. split; [done|].
  intros Hk. rewrite (Hz Hk), app_nil_r in Hd. apply Forall_app in Hframes as [_ Hframes].
  by apply (nothing_left cfg part fs2).
Qed.

(** (C34) Arbitrary bytes from the network.  Whatever a peer sends and however it is
    cut into reads, a read is handled without touching memory outside the buffer
    and the receive loop ends; afterwards either the connection is no longer
    read, or the next read asks for at least one byte that fits the buffer, which
    is never larger than the largest message that is accepted. *)
Theorem tcp_receive_safe (r : role) (cfg : configuration) (env : environment) (n : nat) (st : t) (chunk : bytes)
    (Hmax : max_message_size_ cfg ≤ MESSAGE_SIZE_UNLIMITED) (Hhost : routing_host env = true)
    (Hready : ready r cfg n st) (Hchunk : (0 < length chunk ≤ n)%nat) (Hbytes : bytes_ok chunk) :
  ∃ out o st', feed r cfg env chunk st = Ok (Some (out, o, st'))
  ∧ match o with
    | receiving n' => ready r cfg n' st'
                      ∧ Z.of_nat (length (recv_buffer_ st')) ≤ Z.max (Z.of_nat (recv_buffer_size_initial_ r)) (max_message_size_ cfg)
    | _ => True
    end.
Proof.
  destruct (feed_ok r cfg env n st chunk) as (out & o & st' & E & Ho); [done..|].
  exists out, o, st'. split; [done|]. destruct o; [|done..]. split; [done|apply Ho].
Qed.

(** ** From end to end *)

Definition peer (r : role) : role := match r with client => server | server => client end.

(** The bytes an endpoint writes for the buffers of its queue, each a number of
    messages sent at a time. *)
Fixpoint transmit (r : role) (cfg : configuration) (enabled : bool) (last : Z) (bufs : list (Z * list bytes)) : bytes :=
  match bufs with
  | [] => []
  | (now, msgs) :: bufs =>
      let '(b, last) := send_queued r cfg enabled now (mjoin msgs) last in b ++ transmit r cfg enabled last bufs
  end.

(** The same as messages and cookies. *)
Fixpoint sent_frames (r : role) (cfg : configuration) (enabled : bool) (last : Z) (bufs : list (Z * list bytes)) : list bytes :=
  match bufs with
  | [] => []
  | (now, msgs) :: bufs =>
      let '(b, last) := send_queued r cfg enabled now (mjoin msgs) last in
      (if decide (b = mjoin msgs) then msgs else own_cookie r :: msgs) ++ sent_frames r cfg enabled last bufs
  end.

Lemma transmit_frames r cfg enabled bufs : ∀ last,
  transmit r cfg enabled last bufs = mjoin (sent_frames r cfg enabled last bufs).
Proof.
  induction bufs as [|[now msgs] bufs IH]; intros last; cbn [transmit sent_frames]; [done|].
  destruct (send_queued r cfg enabled now (mjoin msgs) last) as [b last'] eqn:E. rewrite join_app, <- IH. f_equal.
  destruct (decide (b = mjoin msgs)) as [->|Hne]; [done|]. unfold send_queued, send_magic_cookie in E.
  destruct (_ && _); [destruct (_ || _)|]; by injection E as <- _.
Qed.

Lemma sent_delivered r cfg enabled bufs : ∀ last, Forall (λ f, f ≠ own_cookie r) (mjoin (snd <$> bufs)) →
  delivered (peer r) (sent_frames r cfg enabled last bufs) = on_message <$> mjoin (snd <$> bufs).
Proof.
  induction bufs as [|[now msgs] bufs IH]; intros last Hn; cbn [sent_frames]; [done|].
  destruct (send_queued r cfg enabled now (mjoin msgs) last) as [b last']. rewrite delivered_app.
  change (mjoin (snd <$> (now, msgs) :: bufs)) with (msgs ++ mjoin (snd <$> bufs)) in *. apply Forall_app in Hn as [Hn1 Hn2].
  rewrite fmap_app, (IH last' Hn2). f_equal. assert (Hc : expected_cookie (peer r) = own_cookie r) by (by destruct r). unfold delivered. rewrite Hc.
  assert (Hm : filter (λ f, f ≠ own_cookie r) msgs = msgs).
  { clear -Hn1. induction Hn1 as [|f msgs Hf Hn1 IH]; [done|]. by rewrite filter_cons_True, IH. }
  destruct (decide _); [by rewrite Hm|]. by rewrite filter_cons_False, Hm by (intros Hx; by apply Hx).
Qed.

Lemma sent_frame r cfg cfg' enabled bufs : 16 ≤ max_message_size_ cfg' → ∀ last, Forall (frame cfg') (mjoin (snd <$> bufs)) →
  Forall (frame cfg') (sent_frames r cfg enabled last bufs).
Proof.
  intros H16. induction bufs as [|[now msgs] bufs IH]; intros last Hf; cbn [sent_frames]; [done|].
  destruct (send_queued r cfg enabled now (mjoin msgs) last) as [b last'].
  change (mjoin (snd <$> (now, msgs) :: bufs)) with (msgs ++ mjoin (snd <$> bufs)) in Hf. apply Forall_app in Hf as [Hf1 Hf2].
  apply Forall_app_2; [|by apply IH]. destruct (decide _); [done|]. constructor; [|done].
  destruct r; (split; [by_eval|]); (split; [cbn; lia|]); (split; [cbn; lia|]); (split; [done|]); (split; [done|]); (split; by eexists).
Qed.

(** (C18) TCP from end to end.  The queue of one endpoint is sent buffer by buffer,
    with a magic cookie in front of a buffer every ten seconds if they are
    enabled; the other endpoint reads the bytes in pieces of any size and hands
    exactly the messages of the queue to its routing host, in order. *)
Theorem tcp_end_to_end (r : role) (cfg cfg' : configuration) (env : environment) (enabled enabled' : bool)
    (last : Z) (bufs : list (Z * list bytes)) (ks : list nat)
    (Hmax : 16 ≤ max_message_size_ cfg' ≤ MESSAGE_SIZE_UNLIMITED)
    (Hhost : routing_host env = true) (Halloc : ∀ k, alloc env k = true)
    (Hframes : Forall (frame cfg') (mjoin (snd <$> bufs)))
    (Hmessages : Forall (λ f, f ≠ own_cookie r) (mjoin (snd <$> bufs)))
    (Hclean : wants_clean (peer r) enabled' (sent_frames r cfg enabled last bufs))
    (Hreads : (length (transmit r cfg enabled last bufs) ≤ length ks)%nat) :
  ∃ n st, run (peer r) cfg' env ks (recv_buffer_size_initial_ (peer r)) (transmit r cfg enabled last bufs) (create (peer r) enabled')
          = Ok (Some (on_message <$> mjoin (snd <$> bufs), [], n, st)) ∧ recv_buffer_size_ st = 0%nat.
Proof.
  rewrite transmit_frames in *. set (fs := sent_frames r cfg enabled last bufs) in *.
  destruct (run_stream (peer r) cfg' env (proj2 Hmax) ks (recv_buffer_size_initial_ (peer r)) (create (peer r) enabled') [] fs (mjoin fs))
    as (fs1 & fs2 & stream & n & st & part & E & Hfs & Hd & ((_ & Hfit & _) & Hp & Hpart & _) & Hz);
    [done|done|apply create_waiting; [lia|done]|apply sent_frame; [lia|done]|done|].
  rewrite (Hz Hreads), app_nil_r in Hd. assert (Hfr : Forall (frame cfg') fs) by (apply sent_frame; [lia|done]).
  rewrite Hfs in Hfr. apply Forall_app in Hfr as [_ Hfr].
  destruct (nothing_left cfg' part fs2 Hfr Hpart Hd) as [-> ->]. rewrite app_nil_r in Hfs. exists n, st. rewrite E, (Hz Hreads), <- Hfs. unfold fs. rewrite sent_delivered by done. split; [done|].
  apply (f_equal length) in Hp. rewrite length_take in Hp. cbn in Hp. lia.
Qed.

(** ** Examples *)

(** The places of the cookies, to decide [clean]. *)
Fixpoint places (c : bytes) (pos : nat) (fs : list bytes) : list nat :=
  match fs with
  | [] => []
  | f :: fs => (if decide (f = c) then [pos] else []) ++ places c (pos + length f) fs
  end.

Lemma places_split c fs : ∀ pos k, k ∈ places c pos fs → ∃ fs1 fs2, fs = fs1 ++ c :: fs2 ∧ k = (pos + length (mjoin fs1))%nat.
Proof.
  induction fs as [|f fs IH]; intros pos k; cbn [places]; [by intros ?%elem_of_nil|].
  intros [Hk|Hk]%elem_of_app.
  - destruct (decide (f = c)) as [->|]; [|by apply elem_of_nil in Hk]. apply list_elem_of_singleton in Hk as ->. exists [], fs. split; [done|cbn; lia].
  - destruct (IH _ _ Hk) as (fs1 & fs2 & -> & ->). exists (f :: fs1), fs2. split; [done|].
    change (mjoin (f :: fs1)) with (f ++ mjoin fs1). rewrite length_app. lia.
Qed.

Definition clean_check (r : role) (fs : list bytes) : bool :=
  forallb (λ k, bool_decide (take 16 (drop k (mjoin fs)) = expected_cookie r → k ∈ places (expected_cookie r) 0 fs)) (seq 0 (length (mjoin fs))).

Lemma clean_checked r fs : clean_check r fs = true → clean r fs.
Proof.
  unfold clean_check. intros H k Hk. apply Is_true_true, forallb_True in H. rewrite list.Forall_forall in H.
  destruct (decide (k < length (mjoin fs))%nat) as [Hlt|Hge].
  - specialize (H k ltac:(apply elem_of_seq; lia)). apply bool_decide_spec in H. destruct (places_split _ _ _ _ (H Hk)) as (fs1 & fs2 & -> & ->).
    by exists fs1, fs2.
  - rewrite drop_ge in Hk by lia. by destruct r.
Qed.

Definition example_request (payload : bytes) : bytes :=
  [0x12; 0x34; 0x00; 0x01] ++ be_bytes 4 (8 + Z.of_nat (length payload)) ++ [0x00; 0x0A; 0x00; 0x01; 0x01; 0x01; 0x00; 0x00] ++ payload.
Definition example_configuration : configuration := mk_configuration MESSAGE_SIZE_UNLIMITED 5.
Definition example_environment : environment := mk_environment le (λ _, true) true true.
Definition example_queue : list (Z * list bytes) :=
  [(20000000000, [example_request [1; 2; 3]; example_request []]); (20000000001, [example_request (replicate 40 7)])].

Lemma example_frame payload : bytes_ok payload → Z.of_nat (length payload) < 0xFFFFFF → frame example_configuration (example_request payload).
Proof.
  intros Hb Hl. unfold frame, example_request. cbn [max_message_size_ example_configuration]. unfold MESSAGE_SIZE_UNLIMITED.
  rewrite !length_app, be_bytes_length. cbn [length]. split; [repeat apply Forall_app_2; [by_eval|apply be_bytes_ok|by_eval|done]|].
  split; [lia|]. split; [lia|]. split; [|by split; [|split; eexists]].
  rewrite drop_app_length' by done. rewrite take_app_length' by (by rewrite be_bytes_length). rewrite be_val_bytes. rewrite Z.mod_small; lia.
Qed.

Lemma example_frames : Forall (frame example_configuration) (mjoin (snd <$> example_queue)).
Proof.
  change (mjoin (snd <$> example_queue)) with [example_request [1; 2; 3]; example_request []; example_request (replicate 40 7)].
  do 3 (apply Forall_cons_2; [apply example_frame; [by_eval|cbn; lia]|]). by apply Forall_nil.
Qed.

(** A client with cookies sends three messages in two buffers; the server gets
    them in pieces of at most seven bytes. *)
Lemma tcp_end_to_end_witness :
  ∃ n st, run server example_configuration example_environment (replicate 200 6%nat) 32
      (transmit client example_configuration true 0 example_queue) (create server false)
    = Ok (Some (on_message <$> mjoin (snd <$> example_queue), [], n, st)) ∧ recv_buffer_size_ st = 0%nat.
Proof.
  apply (tcp_end_to_end client example_configuration example_configuration example_environment true false 0 example_queue (replicate 200 6%nat)).
  - cbn. unfold MESSAGE_SIZE_UNLIMITED. lia.
  - done.
  - done.
  - apply example_frames.
  - by_eval.
  - intros _. apply clean_checked. vm_compute. reflexivity.
  - vm_compute. lia.
Defined.

Lemma tcp_stream_delivers_witness :
  ∃ fs1 fs2 stream n st part,
    run client example_configuration example_environment [3%nat; 100%nat; 2%nat] 8 (mjoin (mjoin (snd <$> example_queue))) (create client false)
    = Ok (Some (delivered client fs1, stream, n, st))
  ∧ mjoin (snd <$> example_queue) = fs1 ++ fs2 ∧ part ++ stream = mjoin fs2 ∧ partial part fs2.
Proof.
  destruct (tcp_stream_delivers client example_configuration example_environment false (mjoin (snd <$> example_queue)) [3%nat; 100%nat; 2%nat])
    as (fs1 & fs2 & stream & n & st & part & E & H1 & H2 & H3 & _).
  - cbn. unfold MESSAGE_SIZE_UNLIMITED. lia.
  - done.
  - done.
  - apply example_frames.
  - intros [[=]|Hin]. assert (Hno : bool_decide (SERVICE_COOKIE ∈ mjoin (snd <$> example_queue)) = false) by (vm_compute; reflexivity).
    apply bool_decide_eq_false in Hno. destruct (Hno Hin).
  - exists fs1, fs2, stream, n, st, part. split; [exact E|]. split; [exact H1|]. split; [exact H2|exact H3].
Defined.

Lemma tcp_receive_safe_witness :
  ∃ out o st', feed server example_configuration example_environment [0xFF; 0xFF; 0; 0; 0; 0; 0; 1] (create server true) = Ok (Some (out, o, st'))
  ∧ match o with receiving n' => ready server example_configuration n' st' | _ => True end.
Proof.
  destruct (tcp_receive_safe server example_configuration example_environment 32 (create server true) [0xFF; 0xFF; 0; 0; 0; 0; 0; 1])
    as (out & o & st' & E & Ho).
  - done.
  - done.
  - apply (create_waiting server example_configuration true []); [done|]. intros _ k Hk. cbn in Hk. rewrite drop_nil in Hk. done.
  - cbn. lia.
  - by_eval.
  - exists out, o, st'. split; [exact E|]. destruct o; [apply Ho|done|done].
Defined.

(** The search stops 17 bytes before the end: behind broken data, a cookie that
    ends with the data that was read is not found and is dropped with it; with one
    more byte in the same read the receiver resynchronises. *)
Example cookie_at_end_missed :
  let broken := [0x12; 0x34; 0; 1; 0; 0; 0; 2; 0; 0x0A; 0; 1; 1; 1; 0; 0] in
  find_magic_cookie server (broken ++ CLIENT_COOKIE) 0 32 = Ok 0xFFFFFFFF
  ∧ find_magic_cookie server (broken ++ CLIENT_COOKIE ++ [0x12]) 0 33 = Ok 16
  ∧ match feed server example_configuration example_environment (broken ++ CLIENT_COOKIE) (create server true) with
    | Ok (Some (out, receiving n, st)) => out = [] ∧ n = 32%nat ∧ recv_buffer_size_ st = 0%nat
    | _ => False
    end.
Proof. vm_compute. split; [reflexivity|]. split; [reflexivity|]. split; [reflexivity|]. split; reflexivity. Qed.
