(* ===== verification/ClientIds.v ===== *)
(** * Client identifiers ([utility/src/utility.cpp])

    The routing manager hands out the identifiers of the local clients.  The
    identifiers in use are kept for each network, with the name of the application
    that has it.  The lock file of the operating system is an argument.  The masks
    are initialised once, from the first configuration that is used, so that the
    configuration is fixed here. *)

From stdpp Require Import base list gmap.
From Stdlib Require Import ZArith Lia.
From S2P Require Import Prelude.

Definition VSOMEIP_CLIENT_UNSET : Z := 0xFFFF.

Module client_ids.

(** The data of a network; [data__] maps the networks to their data. *)
Record data_t : Type := mk { next_client_ : Z; used_clients_ : gmap Z bytes }.
Definition create : data_t := mk VSOMEIP_CLIENT_UNSET ∅.

Record configuration : Type := mk_configuration {
  get_network : bytes;
  get_diagnosis_mask : Z;
  get_diagnosis_address : Z;
  is_configured_client_id : Z → bool
}.

(** [is_routing_manager] and [remove_lockfile]; [locked] is the answer of the
    operating system. *)
Definition is_routing_manager (network : bytes) (locked : bool) (data : gmap bytes data_t) : bool * gmap bytes data_t :=
  match data !! network with
  | Some _ => (false, data)
  | None => (locked, <[network := create]> data)
  end.

Definition remove_lockfile (network : bytes) (data : gmap bytes data_t) : gmap bytes data_t := delete network data.

Definition popcount (n : Z) : nat := length (filter (λ i, Z.testbit n (Z.of_nat i)) (seq 0 16)).

Definition complement (mask : Z) : Z := u16 (Z.lnot mask).

Definition get_max_client_number (mask : Z) : Z :=
  foldl (λ its_max_clients var, u16 (Z.lor its_max_clients (Z.shiftl 1 (Z.of_nat var)))) 0 (seq 0 (popcount (complement mask))).

Section request.
Context (cfg : configuration).

Definition its_diagnosis_mask : Z := get_diagnosis_mask cfg.
Definition its_client_mask : Z := complement its_diagnosis_mask.
Definition its_masked_diagnosis_address : Z := u16 (Z.land (Z.shiftl (get_diagnosis_address cfg) 8) its_diagnosis_mask).
Definition its_biggest_client : Z := Z.lor its_masked_diagnosis_address its_client_mask.
Definition its_smallest_client : Z := its_masked_diagnosis_address.

(** The next identifier: one more in the bits of the client mask. *)
Definition next (client : Z) : Z :=
  Z.lor (Z.land client (complement its_client_mask))
        (Z.land (u16 (Z.lor client (complement its_client_mask) + 1)) its_client_mask).

Definition taken (used : gmap Z bytes) (client : Z) : bool :=
  bool_decide (is_Some (used !! client)) || is_configured_client_id cfg client.

(** The loop; [tries] is what [increase_count] lacks to the maximum.  The last
    identifier it looked at and whether it is free. *)
Fixpoint search (used : gmap Z bytes) (tries : nat) (client : Z) : bool * Z :=
  let client := next client in
  match tries with
  | O => (false, client)
  | S tries => if taken used client then search used tries client else (true, client)
  end.

Definition assign (name : bytes) (d : data_t) : Z * data_t :=
  let start := if next_client_ d =? its_biggest_client then its_smallest_client else next_client_ d in
  let '(found, client) := search (used_clients_ d) (Z.to_nat (get_max_client_number its_diagnosis_mask)) start in
  if found then (client, mk client (<[client := name]> (used_clients_ d)))
  else (VSOMEIP_CLIENT_UNSET, mk client (used_clients_ d)).

Definition request (name : bytes) (client : Z) (d : data_t) : Z * data_t :=
  let d := if next_client_ d =? VSOMEIP_CLIENT_UNSET then mk its_smallest_client (used_clients_ d) else d in
  if negb (client =? VSOMEIP_CLIENT_UNSET) then
    match used_clients_ d !! client with
    | None => (client, mk (next_client_ d) (<[client := name]> (used_clients_ d)))
    | Some its_name => if decide (its_name = name) then (client, d) else assign name d
    end
  else assign name d.

Definition request_client_id (name : bytes) (client : Z) (data : gmap bytes data_t) : Z * gmap bytes data_t :=
  match data !! get_network cfg with
  | None => (VSOMEIP_CLIENT_UNSET, data)
  | Some d => let '(c, d) := request name client d in (c, <[get_network cfg := d]> data)
  end.
End request.

Definition release_client_id (network : bytes) (client : Z) (data : gmap bytes data_t) : gmap bytes data_t :=
  match data !! network with
  | Some d => <[network := mk (next_client_ d) (delete client (used_clients_ d))]> data
  | None => data
  end.

Definition get_used_client_ids (network : bytes) (data : gmap bytes data_t) : gset Z :=
  match data !! network with Some d => dom (used_clients_ d) | None => ∅ end.

Definition reset_client_ids (network : bytes) (data : gmap bytes data_t) : gmap bytes data_t :=
  match data !! network with
  | Some d => <[network := mk VSOMEIP_CLIENT_UNSET ∅]> data
  | None => data
  end.
End client_ids.

(** ** The identifiers in order

    The usual client masks are the lowest [k] bits (the default is 8); the masked
    diagnosis address is then the first of [2 ^ k] consecutive identifiers. *)

Import client_ids.

Section range.
Context (cfg : configuration) (k : Z).
Context (Hk : 0 ≤ k ≤ 16) (Hmask : get_diagnosis_mask cfg = 0xFFFF - Z.ones k) (Haddress : in_width 8 (get_diagnosis_address cfg)).
Let base := its_smallest_client cfg.

Definition in_range (c : Z) : Prop := base ≤ c < base + 2 ^ k.

Lemma ones_le : 0 ≤ Z.ones k ≤ 0xFFFF.
Proof. rewrite Z.ones_equiv. pose proof (Z.pow_le_mono_r 2 k 16). lia. Qed.

Lemma complement_sub z : 0 ≤ z ≤ 0xFFFF → complement z = 0xFFFF - z.
Proof. intros H. unfold complement, Z.lnot, u16, wrap. rewrite <- (Z.mod_add _ 1 (2 ^ 16)) by lia. rewrite Z.mod_small; lia. Qed.

Lemma client_mask_ones : its_client_mask cfg = Z.ones k.
Proof. unfold its_client_mask, its_diagnosis_mask. pose proof ones_le. rewrite Hmask, complement_sub; lia. Qed.

Lemma mask_shift : 0xFFFF - Z.ones k = Z.shiftl (Z.ones (16 - k)) k.
Proof.
  rewrite Z.shiftl_mul_pow2, !Z.ones_equiv by lia. pose proof (Z.pow_add_r 2 (16 - k) k).
  replace (16 - k + k) with 16 in * by lia. rewrite Z.mul_pred_l. lia.
Qed.

Lemma land_mask x : in_width 16 x → Z.land x (0xFFFF - Z.ones k) = x - x mod 2 ^ k.
Proof.
  intros Hx. rewrite mask_shift. replace (Z.land x (Z.shiftl (Z.ones (16 - k)) k)) with (Z.shiftl (Z.land (Z.shiftr x k) (Z.ones (16 - k))) k).
  - rewrite Z.shiftr_div_pow2, Z.land_ones, Z.shiftl_mul_pow2 by lia. unfold in_width in Hx.
    assert (0 < 2 ^ k) by lia. pose proof (Z.pow_add_r 2 (16 - k) k). replace (16 - k + k) with 16 in * by lia.
    rewrite Z.mod_small; [|split; [apply Z.div_pos; lia|apply Z.div_lt_upper_bound; lia]].
    pose proof (Z.div_mod x (2 ^ k)). lia.
  - rewrite Z.shiftl_land. apply Z.bits_inj'. intros i Hi. rewrite !Z.land_spec. destruct (decide (i < k)).
    + rewrite (Z.shiftl_spec_low (Z.ones _)) by lia. by rewrite !andb_false_r.
    + by rewrite (Z.shiftl_spec (Z.shiftr _ _)), Z.shiftr_spec, Z.sub_add by lia.
Qed.

Lemma pow_divides : (2 ^ k | 2 ^ 16).
Proof. exists (2 ^ (16 - k)). rewrite <- Z.pow_add_r by lia. f_equal. lia. Qed.

Lemma base_range : base mod 2 ^ k = 0 ∧ 0 ≤ base ∧ base + 2 ^ k ≤ 2 ^ 16.
Proof.
  unfold base, its_smallest_client, its_masked_diagnosis_address, its_diagnosis_mask. rewrite Hmask.
  assert (Hx : in_width 16 (Z.shiftl (get_diagnosis_address cfg) 8)).
  { unfold in_width in *. rewrite Z.shiftl_mul_pow2 by lia. lia. }
  rewrite land_mask by done. set (x := Z.shiftl _ 8) in *. unfold in_width in Hx. assert (0 < 2 ^ k) by lia.
  pose proof (Z.mod_pos_bound x (2 ^ k) ltac:(lia)). pose proof (Z.div_mod x (2 ^ k) ltac:(lia)). destruct pow_divides as [q Hq].
  assert (x / 2 ^ k < q) by (apply Z.div_lt_upper_bound; lia).
  assert (Hbase : x - x mod 2 ^ k = x / 2 ^ k * 2 ^ k) by lia. unfold u16, wrap.
  rewrite (Z.mod_small (x - _)) by (split; [apply Z.le_0_sub, Z.mod_le; lia|eapply Z.le_lt_trans; [|apply Hx]; lia]).
  rewrite Hbase, Z.mod_mul by lia. split; [done|]. assert (0 ≤ x / 2 ^ k) by (apply Z.div_pos; lia). split; [nia|]. rewrite Hq. nia.
Qed.

Lemma biggest_client : its_biggest_client cfg = base + 2 ^ k - 1.
Proof.
  unfold its_biggest_client. rewrite client_mask_ones. fold (its_smallest_client cfg). fold base. pose proof base_range as (H & _).
  pose proof (Z.add_lor_land base (Z.ones k)) as E. rewrite Z.land_ones, H, Z.ones_equiv in E by lia. rewrite Z.ones_equiv. lia.
Qed.

(** The identifiers form a ring. *)
Lemma next_ring c : in_range c → next cfg c = base + (c - base + 1) mod 2 ^ k.
Proof.
  intros Hc. unfold in_range in Hc. pose proof base_range as (Hb & Hb0 & Hb1). pose proof ones_le as Ho. assert (Hp : 0 < 2 ^ k) by lia.
  unfold next. rewrite client_mask_ones, complement_sub by done.
  assert (Hm : c mod 2 ^ k = c - base).
  { replace c with (c - base + base) at 1 by lia. rewrite Z.add_mod, Hb, Z.add_0_r, Z.mod_mod by lia. apply Z.mod_small. lia. }
  assert (Hw : in_width 16 c) by (unfold in_width; lia).
  pose proof (Z.add_lor_land c (0xFFFF - Z.ones k)) as E. rewrite land_mask in * by done. rewrite Hm in *.
  assert (El : Z.lor c (0xFFFF - Z.ones k) = c - base + (0xFFFF - Z.ones k)) by lia. rewrite El.
  rewrite Z.land_ones by lia. unfold u16, wrap. rewrite Z.ones_equiv in *.
  rewrite Z.mod_mod_divide by apply pow_divides.
  replace (c - base + (0xFFFF - Z.pred (2 ^ k)) + 1) with (c - base + 1 + (2 ^ 16 - 2 ^ k)) by lia.
  destruct pow_divides as [q Hq]. replace (2 ^ 16 - 2 ^ k) with ((q - 1) * 2 ^ k) by lia. rewrite Z.mod_add by lia.
  replace (c - (c - base)) with base by lia.
  set (r := (c - base + 1) mod 2 ^ k). assert (Hr : 0 ≤ r < 2 ^ k) by (apply Z.mod_pos_bound; lia).
  pose proof (Z.add_lor_land base r) as E2. replace (Z.land base r) with 0 in E2; [lia|].
  rewrite <- (Z.mod_small r (2 ^ k)), <- Z.land_ones, Z.land_assoc, (Z.land_comm base), <- Z.land_assoc by lia.
  rewrite Z.land_ones, Hb, Z.land_0_r by lia. done.
Qed.

Lemma next_range c : in_range c → in_range (next cfg c).
Proof. intros Hc. rewrite next_ring by done. unfold in_range. pose proof (Z.mod_pos_bound (c - base + 1) (2 ^ k)). lia. Qed.

Lemma max_clients : get_max_client_number (its_diagnosis_mask cfg) = 2 ^ k - 1.
Proof.
  unfold its_diagnosis_mask. rewrite Hmask.
  assert (H : Forall (λ i, get_max_client_number (0xFFFF - Z.ones (Z.of_nat i)) = 2 ^ Z.of_nat i - 1) (seq 0 17)) by by_eval.
  rewrite list.Forall_forall in H. specialize (H (Z.to_nat k)). rewrite Z2Nat.id in H by lia. apply H, elem_of_seq. lia.
Qed.

Lemma search_spec used tries : ∀ c, in_range c → ∃ found c', search cfg used tries c = (found, c') ∧ in_range c'
  ∧ if found then taken cfg used c' = false
    else ∀ i, 1 ≤ i ≤ Z.of_nat tries → taken cfg used (base + (c - base + i) mod 2 ^ k) = true.
Proof.
  induction tries as [|tries IH]; intros c Hc; cbn [search].
  { eexists _, _. split; [done|]. split; [by apply next_range|]. lia. }
  destruct (taken cfg used (next cfg c)) eqn:E; [|eexists _, _; by split_and!; [|apply next_range|]].
  destruct (IH (next cfg c)) as (found & c' & -> & Hr & Hf); [by apply next_range|]. exists found, c'. split; [done|]. split; [done|].
  destruct found; [done|]. intros i Hi. destruct (decide (i = 1)) as [->|]; [by rewrite <- next_ring|].
  specialize (Hf (i - 1) ltac:(lia)). rewrite next_ring in Hf by done.
  replace (base + (c - base + 1) mod 2 ^ k - base + (i - 1)) with ((c - base + 1) mod 2 ^ k + (i - 1)) in Hf by lia.
  rewrite Z.add_mod_idemp_l in Hf by lia. by replace (c - base + i) with (c - base + 1 + (i - 1)) by lia.
Qed.

(** Where the search begins. *)
Definition cursor_of (d : data_t) : Z :=
  if (next_client_ d =? VSOMEIP_CLIENT_UNSET) || (next_client_ d =? its_biggest_client cfg) then base else next_client_ d.

(** What an automatic assignment may do. *)
Definition assigned (name : bytes) (d : data_t) (c : Z) (d' : data_t) : Prop :=
  (in_range c ∧ taken cfg (used_clients_ d) c = false ∧ used_clients_ d' = <[c := name]> (used_clients_ d))
  ∨ (c = VSOMEIP_CLIENT_UNSET ∧ used_clients_ d' = used_clients_ d
     ∧ ∀ c', in_range c' → c' ≠ cursor_of d → taken cfg (used_clients_ d) c' = true).

Definition wf (d : data_t) : Prop := next_client_ d = VSOMEIP_CLIENT_UNSET ∨ in_range (next_client_ d).

Lemma base_in_range : in_range base.
Proof. unfold in_range. lia. Qed.

Lemma cursor_range d : wf d → in_range (cursor_of d).
Proof.
  intros [H|H]; unfold cursor_of; [rewrite H; apply base_in_range|].
  destruct (_ || _); [apply base_in_range|done].
Qed.

Lemma assign_spec name d : wf d → next_client_ d ≠ VSOMEIP_CLIENT_UNSET ∨ next_client_ d = its_biggest_client cfg →
  ∃ c d', assign cfg name d = (c, d') ∧ in_range (next_client_ d') ∧ assigned name d c d'.
Proof.
  intros Hwf Hset. unfold assign.
  assert (Hs : (if next_client_ d =? its_biggest_client cfg then its_smallest_client cfg else next_client_ d) = cursor_of d).
  { unfold cursor_of. destruct (next_client_ d =? its_biggest_client cfg) eqn:E; [by rewrite orb_true_r|].
    destruct Hset as [H|H]; [|lia]. by apply Z.eqb_neq in H as ->. }
  rewrite Hs. rewrite max_clients. destruct (search_spec (used_clients_ d) (Z.to_nat (2 ^ k - 1)) (cursor_of d)) as (found & c & -> & Hr & Hf);
    [by apply cursor_range|]. destruct found; eexists _, _; (split; [done|]); (split; [done|]); [by left|].
  right. split; [done|]. split; [done|]. intros c' Hc' Hne. pose proof (cursor_range d Hwf) as Hc. unfold in_range in *.
  assert (0 < 2 ^ k) by lia. rewrite Z2Nat.id in Hf by lia.
  destruct (decide (cursor_of d < c')) as [Hlt|Hge].
  - specialize (Hf (c' - cursor_of d) ltac:(lia)). replace (cursor_of d - base + _) with (c' - base) in Hf by lia.
    rewrite Z.mod_small in Hf by lia. by replace (base + (c' - base)) with c' in Hf by lia.
  - specialize (Hf (c' - cursor_of d + 2 ^ k) ltac:(lia)). replace (cursor_of d - base + _) with (c' - base + 1 * 2 ^ k) in Hf by lia.
    rewrite Z.mod_add, Z.mod_small in Hf by lia. by replace (base + (c' - base)) with c' in Hf by lia.
Qed.
End range.

(** ** Exclusiveness over time *)

Inductive op : Type :=
| request_op (name : bytes) (client : Z)
| release_op (network : bytes) (client : Z)
| lock_op (network : bytes) (locked : bool)
| reset_op (network : bytes)
| unlock_op (network : bytes).

Definition apply_op (cfg : configuration) (o : op) (data : gmap bytes data_t) : gmap bytes data_t :=
  match o with
  | request_op name client => (request_client_id cfg name client data).2
  | release_op network client => release_client_id network client data
  | lock_op network locked => (is_routing_manager network locked data).2
  | reset_op network => reset_client_ids network data
  | unlock_op network => remove_lockfile network data
  end.

(** The operation does not give up the client of the network. *)
Definition spares (network : bytes) (client : Z) (o : op) : Prop :=
  match o with
  | release_op network' client' => network' = network → client' ≠ client
  | reset_op network' | unlock_op network' => network' ≠ network
  | _ => True
  end.

Definition holds (network : bytes) (client : Z) (name : bytes) (data : gmap bytes data_t) : Prop :=
  ∃ d, data !! network = Some d ∧ used_clients_ d !! client = Some name.

Section exclusive.
Context (cfg : configuration).

Lemma search_free used tries : ∀ c c', search cfg used tries c = (true, c') → used !! c' = None.
Proof.
  induction tries as [|tries IH]; intros c c'; cbn [search]; [done|]. destruct (taken cfg used (next cfg c)) eqn:E; [apply IH|].
  intros [= <-]. unfold taken in E. apply orb_false_iff in E as [E _]. apply bool_decide_eq_false in E. by apply eq_None_not_Some.
Qed.

(** Every identifier of the search has 16 bits. *)
Lemma land_width w a b : 0 ≤ w → in_width w b → in_width w (Z.land a b).
Proof.
  intros Hw Hb. rewrite <- (Z.mod_small b (2 ^ w)), <- Z.land_ones, Z.land_assoc, Z.land_ones by (done || lia).
  apply Z.mod_pos_bound. lia.
Qed.

Lemma next_width c : is_u16 (next cfg c).
Proof.
  assert (Hm : ∀ m, is_u16 (complement m)) by (intros m; apply wrap_range; lia).
  pose proof (land_width 16 c _ ltac:(lia) (Hm (its_client_mask cfg))) as H1.
  pose proof (land_width 16 (u16 (Z.lor c (complement (its_client_mask cfg)) + 1)) _ ltac:(lia) (Hm (its_diagnosis_mask cfg))) as H2.
  fold (its_client_mask cfg) in H2. unfold next. set (x := Z.land c _) in *. set (y := Z.land (u16 _) _) in *. clearbody x y.
  rewrite <- (Z.mod_small x (2 ^ 16)), <- (Z.mod_small y (2 ^ 16)), <- !Z.land_ones, <- Z.land_lor_distr_l, Z.land_ones by (done || lia).
  apply Z.mod_pos_bound. lia.
Qed.

Lemma search_width used tries : ∀ c, is_u16 (search cfg used tries c).2.
Proof.
  induction tries as [|tries IH]; intros c; cbn [search]; [apply next_width|]. destruct (taken _ _ _); [apply IH|apply next_width].
Qed.

Lemma request_width name client data : is_u16 client → is_u16 (request_client_id cfg name client data).1.
Proof.
  intros Hc. unfold request_client_id. destruct (data !! get_network cfg) as [d|]; [|by_eval].
  assert (Ha : ∀ d, is_u16 (assign cfg name d).1).
  { intros d0. unfold assign. pose proof (search_width (used_clients_ d0) (Z.to_nat (get_max_client_number (its_diagnosis_mask cfg)))
      (if next_client_ d0 =? its_biggest_client cfg then its_smallest_client cfg else next_client_ d0)) as H.
    destruct (search _ _ _ _) as [[] c']; [exact H|by_eval]. }
  unfold request. cbv zeta. set (d1 := if next_client_ d =? _ then _ else d). specialize (Ha d1).
  destruct (negb _); [destruct (used_clients_ d1 !! client); [destruct (decide _)|]|]; [done| |done|];
    destruct (assign cfg name d1); exact Ha.
Qed.

(** A request adds at most the identifier it returns, which was free or had the
    same name. *)
Lemma request_spec name client d c d' : request cfg name client d = (c, d') →
  (c = VSOMEIP_CLIENT_UNSET ∧ used_clients_ d' = used_clients_ d)
  ∨ ((used_clients_ d !! c = None ∨ used_clients_ d !! c = Some name) ∧ used_clients_ d' = <[c := name]> (used_clients_ d)).
Proof.
  unfold request. set (d1 := if next_client_ d =? _ then _ else d).
  assert (Hu : used_clients_ d1 = used_clients_ d) by (subst d1; by destruct (next_client_ d =? _)).
  assert (Ha : assign cfg name d1 = (c, d') → (c = VSOMEIP_CLIENT_UNSET ∧ used_clients_ d' = used_clients_ d)
    ∨ ((used_clients_ d !! c = None ∨ used_clients_ d !! c = Some name) ∧ used_clients_ d' = <[c := name]> (used_clients_ d))).
  { unfold assign. rewrite Hu. destruct (search _ _ _ _) as [[] c'] eqn:Es; intros [= <- <-]; cbn; [right|by left].
    split; [left; by eapply search_free|done]. }
  destruct (negb _); [|done]. rewrite Hu. destruct (used_clients_ d !! client) as [n|] eqn:E.
  - destruct (decide (n = name)) as [->|]; [|done]. intros [= <- <-]. right. split; [by right|]. rewrite Hu. symmetry. by apply insert_id.
  - intros [= <- <-]. right. split; [by left|done].
Qed.

Lemma holds_kept network client name o data : spares network client o → holds network client name data → holds network client name (apply_op cfg o data).
Proof.
  intros Hs (d & Hd & Hc). destruct o as [name' client'|network' client'|network' locked|network'|network']; cbn [apply_op spares] in *.
  - unfold request_client_id. destruct (data !! get_network cfg) as [d0|] eqn:E0; [|by exists d].
    destruct (request cfg name' client' d0) as [c d1] eqn:Er. cbn [snd]. destruct (decide (get_network cfg = network)) as [<-|Hne].
    + rewrite Hd in E0. injection E0 as <-. exists d1. split; [apply lookup_insert_eq|].
      destruct (request_spec _ _ _ _ _ Er) as [[_ ->]|[Hfree ->]]; [done|].
      destruct (decide (c = client)) as [->|]; [|by rewrite lookup_insert_ne]. rewrite Hc in Hfree. destruct Hfree as [[=]|[= <-]]. apply lookup_insert_eq.
    + exists d. split; [|done]. by rewrite lookup_insert_ne.
  - unfold release_client_id. destruct (decide (network' = network)) as [->|].
    + rewrite Hd. eexists. split; [apply lookup_insert_eq|]. cbn. by rewrite lookup_delete_ne by auto.
    + exists d. destruct (data !! network'); split; [by rewrite lookup_insert_ne|done|done|done].
  - unfold is_routing_manager. destruct (data !! network') as [d0|] eqn:E0; [by exists d|]. exists d. split; [|done]. cbn [snd].
    rewrite lookup_insert_ne; [done|]. intros ->. by rewrite Hd in E0.
  - unfold reset_client_ids. exists d. destruct (data !! network'); split; [by rewrite lookup_insert_ne|done|done|done].
  - unfold remove_lockfile. exists d. split; [|done]. by rewrite lookup_delete_ne.
Qed.

Lemma holds_run network client name ops : Forall (spares network client) ops → ∀ data, holds network client name data →
  holds network client name (foldl (λ data o, apply_op cfg o data) data ops).
Proof. induction 1 as [|o ops Ho _ IH]; intros data H; [done|]. cbn. apply IH. by apply holds_kept. Qed.

Lemma request_holds name client data c data' : request_client_id cfg name client data = (c, data') → c ≠ VSOMEIP_CLIENT_UNSET →
  holds (get_network cfg) c name data' ∧ ∀ name', holds (get_network cfg) c name' data → name' = name.
Proof.
  unfold request_client_id. destruct (data !! get_network cfg) as [d|] eqn:Ed; [|by intros [= <- <-]].
  destruct (request cfg name client d) as [c0 d1] eqn:Er. intros [= <- <-] Hc.
  destruct (request_spec _ _ _ _ _ Er) as [[-> _]|[Hfree Hu]]; [done|]. split.
  - exists d1. split; [apply lookup_insert_eq|]. rewrite Hu. apply lookup_insert_eq.
  - intros name' (d' & Hd' & Hn). rewrite Ed in Hd'. injection Hd' as <-. rewrite Hn in Hfree. by destruct Hfree as [[=]|[= ->]].
Qed.
End exclusive.

(** ** Properties *)

(** Assigning an identifier.  A client that asks for an identifier gets it when
    it is free or has already been given to an application of its name.
    Otherwise, it gets an identifier of the range of the diagnosis address that is
    neither in use nor configured for another application; that there is none is
    reported only if all identifiers of the range are taken, except possibly the one at
    which the search starts.  Nothing but the entry of the identifier
    that is returned changes. *)
Theorem client_id_assigned (cfg : configuration) (k : Z) (name : bytes) (client : Z) (d : data_t) (data : gmap bytes data_t)
    (Hk : 0 ≤ k ≤ 16) (Hmask : get_diagnosis_mask cfg = 0xFFFF - Z.ones k) (Haddress : in_width 8 (get_diagnosis_address cfg))
    (Hdata : data !! get_network cfg = Some d) (Hwf : wf cfg k d) :
  ∃ c d', request_client_id cfg name client data = (c, <[get_network cfg := d']> data) ∧ wf cfg k d'
  ∧ if decide (client ≠ VSOMEIP_CLIENT_UNSET ∧ (used_clients_ d !! client = None ∨ used_clients_ d !! client = Some name))
    then c = client ∧ used_clients_ d' = <[client := name]> (used_clients_ d)
    else assigned cfg k name d c d'.
Proof.
  unfold request_client_id. rewrite Hdata. unfold request.
  set (d1 := if next_client_ d =? VSOMEIP_CLIENT_UNSET then _ else d).
  assert (Hu : used_clients_ d1 = used_clients_ d) by (subst d1; by destruct (next_client_ d =? _)).
  assert (Hc : cursor_of cfg d1 = cursor_of cfg d ∧ in_range cfg k (next_client_ d1)
               ∧ (next_client_ d1 ≠ VSOMEIP_CLIENT_UNSET ∨ next_client_ d1 = its_biggest_client cfg)).
  { pose proof (base_range cfg k Hk Hmask Haddress) as (_ & Hb0 & Hb1). pose proof (biggest_client cfg k Hk Hmask Haddress) as Hbig.
    pose proof (base_in_range cfg k Hk). assert (0 < 2 ^ k) by lia. unfold cursor_of, d1. destruct (Z.eqb_spec (next_client_ d) VSOMEIP_CLIENT_UNSET) as [E|E]; cbn [next_client_].
    - split; [by destruct (_ || _)|]. split; [done|]. destruct (decide (its_smallest_client cfg = VSOMEIP_CLIENT_UNSET)); [right|by left].
      unfold VSOMEIP_CLIENT_UNSET in *. lia.
    - split; [by apply Z.eqb_neq in E as ->|]. split; [by destruct Hwf|]. by left. }
  destruct Hc as (Hc & Hr & Hset).
  assert (Ha : ∃ c d', assign cfg name d1 = (c, d') ∧ wf cfg k d' ∧ assigned cfg k name d c d').
  { destruct (assign_spec cfg k Hk Hmask Haddress name d1) as (c & d' & -> & Hr' & Has); [by right|done|]. exists c, d'. split; [done|]. split; [by right|].
    unfold assigned in *. by rewrite Hc, Hu in Has. }
  destruct Ha as (ca & da & Ea & Hwa & Hassigned).
  destruct (Z.eqb_spec client VSOMEIP_CLIENT_UNSET) as [->|Hcl]; cbn [negb].
  - rewrite Ea. exists ca, da. split; [done|]. split; [done|]. by rewrite decide_False by tauto.
  - rewrite Hu. destruct (used_clients_ d !! client) as [n|] eqn:El.
    + destruct (decide (n = name)) as [->|Hn].
      * exists client, d1. split; [done|]. split; [by right|]. rewrite decide_True by auto. split; [done|]. rewrite Hu. symmetry. by apply insert_id.
      * rewrite Ea. exists ca, da. split; [done|]. split; [done|]. rewrite decide_False; [done|]. by intros [_ [[=]|[= ?]]].
    + eexists client, _. split; [done|]. split; [by right|]. by rewrite decide_True by auto.
Qed.

(** Identifiers are exclusive.  An identifier that was handed out to an
    application is not handed out to an application of another name before it is
    released, whatever is requested, released and reset in between, also on other
    networks. *)
Theorem client_ids_exclusive (cfg : configuration) (name name' : bytes) (client client' c : Z) (data data1 data2 : gmap bytes data_t) (ops : list op)
    (Hfirst : request_client_id cfg name client data = (c, data1)) (Hset : c ≠ VSOMEIP_CLIENT_UNSET)
    (Hops : Forall (spares (get_network cfg) c) ops)
    (Hsecond : request_client_id cfg name' client' (foldl (λ data o, apply_op cfg o data) data1 ops) = (c, data2)) :
  name' = name.
Proof.
  destruct (request_holds cfg _ _ _ _ _ Hfirst Hset) as [H _]. destruct (request_holds cfg _ _ _ _ _ Hsecond Hset) as [_ H2].
  symmetry. apply H2. by apply holds_run.
Qed.

(** ** Examples *)

Definition example_ids : configuration := mk_configuration [0x76] 0xFF00 0x12 (λ c, c =? 0x1203).
Definition example_table : gmap bytes data_t := {[ [0x76] := mk 0x12FE (<[0x12FF := [0x61]]> {[ 0x1200 := [0x62] ]}) ]}.

(** The search goes round the end of the range and past the taken identifiers. *)
Lemma client_id_assigned_witness :
  request_client_id example_ids [0x63] VSOMEIP_CLIENT_UNSET example_table
    = (0x1201, <[ [0x76] := mk 0x1201 (<[0x1201 := [0x63]]> (<[0x12FF := [0x61]]> {[ 0x1200 := [0x62] ]})) ]> example_table)
  ∧ ∃ c d', request_client_id example_ids [0x63] VSOMEIP_CLIENT_UNSET example_table = (c, <[ [0x76] := d' ]> example_table) ∧ wf example_ids 8 d'.
Proof.
  split; [vm_compute; reflexivity|].
  destruct (client_id_assigned example_ids 8 [0x63] VSOMEIP_CLIENT_UNSET (mk 0x12FE (<[0x12FF := [0x61]]> {[ 0x1200 := [0x62] ]})) example_table)
    as (c & d' & E & Hw & _).
  - lia.
  - reflexivity.
  - vm_compute. split; [discriminate|reflexivity].
  - vm_compute. reflexivity.
  - right. vm_compute. split; [discriminate|reflexivity].
  - exists c, d'. split; [exact E|exact Hw].
Defined.

Lemma client_ids_exclusive_witness :
  let first := request_client_id example_ids [0x63] 0x1234 example_table in
  let ops := [request_op [0x64] 0x1234; release_op [0x76] 0x1200; reset_op [0x77]] in
  let second := request_client_id example_ids [0x63] 0x1234 (foldl (λ data o, apply_op example_ids o data) first.2 ops) in
  second.1 = 0x1234 ∧ [0x63] = [0x63].
Proof.
  intros first ops second. split; [vm_compute; reflexivity|].
  apply (client_ids_exclusive example_ids [0x63] [0x63] 0x1234 0x1234 0x1234 example_table first.2 second.2 ops).
  - vm_compute. reflexivity.
  - discriminate.
  - repeat constructor; try discriminate; intros _; discriminate.
  - vm_compute. reflexivity.
Defined.

(** With all other identifiers taken, the free one at which the search starts is
    not found: it was given back, but no application gets it. *)
Example last_client_id_missed :
  let cfg := mk_configuration [] 0xFFFE 0 (λ _, false) in
  request cfg [0x61] VSOMEIP_CLIENT_UNSET (mk 0 {[ 1 := [0x62] ]}) = (VSOMEIP_CLIENT_UNSET, mk 0 {[ 1 := [0x62] ]}).
Proof. vm_compute. reflexivity. Qed.
