(* ===== verification/LocalStream.v ===== *)
(** * Commands between local processes
    ([endpoints/src/local_tcp_server_endpoint_impl.cpp],
    [local_uds_server_endpoint_impl.cpp], [local_tcp_client_endpoint_impl.cpp])

    Processes of a host exchange the commands of the local protocol over stream
    sockets, each between a start tag and an end tag.  The server endpoints for TCP
    and for Unix domain sockets are copies of each other; where they differ there
    is a [match] on the [kind].  The routing manager's endpoint assigns client
    identifiers: the first command of a connection asks for one, and the answer
    goes back as an acknowledgement.

    As in [TcpStream] the capacity of the receive buffer is its size, and [alloc n]
    says whether a buffer of [n] bytes can be had.  A connection is known to its
    server by a number ([self]).  The socket of a connection is open and its server
    exists while its callbacks run. *)

From stdpp Require Import base list gmap.
From Stdlib Require Import ZArith Lia.
From S2P Require Import Prelude BitHelper Protocol TcpStream ClientIds.

Definition TAG_SIZE : nat := 4.
Definition VSOMEIP_ROUTING_CLIENT : Z := 0.
Definition VSOMEIP_LOCAL_CLIENT_ENDPOINT_RECV_BUFFER_SIZE : nat := 19.

Module local_endpoint.

Inductive kind : Set := tcp | uds.

Definition its_start_tag : bytes := [0x67; 0x37; 0x6D; 0x07].
Definition its_end_tag : bytes := [0x07; 0x6D; 0x37; 0x67].

Record configuration : Type := mk_configuration {
  max_message_size_ : Z;
  buffer_shrink_threshold_ : Z;
  is_routing_endpoint_ : bool;
  is_security_enabled : bool;
  identifiers : client_ids.configuration
}.

(** A connection; [recv_buffer_size_] is the number of buffered bytes. *)
Record t : Type := mk {
  recv_buffer_ : bytes;
  recv_buffer_size_ : nat;
  missing_capacity_ : Z;
  shrink_count_ : Z;
  bound_client_ : Z;
  assigned_client_ : bool;
  is_stopped_ : bool
}.

(** What the connections share: the connections by client, and the identifiers of
    the clients. *)
Record server : Type := mk_server {
  connections_ : gmap Z nat;
  data__ : gmap bytes client_ids.data_t
}.

(** The byte order, the allocator, whether the routing host exists and the socket
    knows its peer, and the answer of the policy manager for a client. *)
Record environment : Type := mk_environment {
  host : endianess_e;
  alloc : nat → bool;
  routing_host : bool;
  remote_known : bool;
  check_credentials : Z → bool
}.

(** The calls of the routing host and the policy manager, and what is written to a
    connection. *)
Inductive output : Type :=
| on_message (data : bytes) (bound_client : Z)
| add_known_client (client : Z)
| sync_client
| remove_client_to_sec_client_mapping (client : Z)
| written (connection : nat) (data : bytes).

Inductive outcome : Type :=
| receiving (n : nat)
| closing
| idle.

Inductive error : Set := none | operation_aborted | eof | timed_out | bad_descriptor | connection_reset | other.

Definition recv_buffer_size_initial_ : nat := COMMAND_HEADER_SIZE + 2 + 1 + 1 + 8.

Definition create (cfg : configuration) : t :=
  mk (replicate recv_buffer_size_initial_ 0) 0 0 0 VSOMEIP_CLIENT_UNSET (is_routing_endpoint_ cfg && negb (is_security_enabled cfg)) true.

Definition with_buffer b st := mk b (recv_buffer_size_ st) (missing_capacity_ st) (shrink_count_ st) (bound_client_ st) (assigned_client_ st) (is_stopped_ st).
Definition with_size n st := mk (recv_buffer_ st) n (missing_capacity_ st) (shrink_count_ st) (bound_client_ st) (assigned_client_ st) (is_stopped_ st).
Definition with_missing n st := mk (recv_buffer_ st) (recv_buffer_size_ st) n (shrink_count_ st) (bound_client_ st) (assigned_client_ st) (is_stopped_ st).
Definition with_shrink n st := mk (recv_buffer_ st) (recv_buffer_size_ st) (missing_capacity_ st) n (bound_client_ st) (assigned_client_ st) (is_stopped_ st).
Definition set_bound_client c st := mk (recv_buffer_ st) (recv_buffer_size_ st) (missing_capacity_ st) (shrink_count_ st) c (assigned_client_ st) (is_stopped_ st).
Definition with_assigned b st := mk (recv_buffer_ st) (recv_buffer_size_ st) (missing_capacity_ st) (shrink_count_ st) (bound_client_ st) b (is_stopped_ st).
Definition with_stopped b st := mk (recv_buffer_ st) (recv_buffer_size_ st) (missing_capacity_ st) (shrink_count_ st) (bound_client_ st) (assigned_client_ st) b.

Definition stop (st : t) : t := with_stopped true st.

(** ** The server *)

Definition add_connection (client : Z) (self : nat) (s : server) : bool * server :=
  match connections_ s !! client with
  | None => (true, mk_server (<[client := self]> (connections_ s)) (data__ s))
  | Some _ => (false, s)
  end.

Definition remove_connection (client : Z) (s : server) : server := mk_server (delete client (connections_ s)) (data__ s).

Definition release_client (cfg : configuration) (client : Z) (s : server) : server :=
  mk_server (connections_ s) (client_ids.release_client_id (client_ids.get_network (identifiers cfg)) client (data__ s)).

(** [disconnect_from]: the connection that is stopped. *)
Definition disconnect_from (client : Z) (s : server) : option nat * server :=
  match connections_ s !! client with
  | None => (None, s)
  | Some c => (Some c, remove_connection client s)
  end.

Definition assign_client (cfg : configuration) (host : endianess_e) (data : bytes) (s : server) : result (Z * server) :=
  '(err, c) ← assign_client_command.deserialize host (assign_client_command.mk (command.create id_e.ASSIGN_CLIENT_ID) []) data;
  Ok (match err with
      | ERROR_OK =>
          let '(client, d) := client_ids.request_client_id (identifiers cfg) (assign_client_command.name_ c)
                                (command.client_ (assign_client_command.head c)) (data__ s) in
          (client, mk_server (connections_ s) d)
      | _ => (VSOMEIP_CLIENT_UNSET, s)
      end).

(** [connection::send_queued] writes a command between its tags. *)
Definition send_queued (buf : bytes) : bytes := its_start_tag ++ buf ++ its_end_tag.

(** [send]: the connection is that of the client behind the header of the
    command. *)
Definition send (host : endianess_e) (data : bytes) (s : server) : result (list output) :=
  c ← rd data COMMAND_HEADER_SIZE 2;
  Ok (match connections_ s !! bithelper.val_of host c with
      | Some con => [written con (send_queued data)]
      | None => []
      end).

Definition send_client_identifier (host : endianess_e) (client : Z) (s : server) : result (list output) :=
  let its_command := one_field.mk (command.set_client VSOMEIP_ROUTING_CLIENT (command.create id_e.ASSIGN_CLIENT_ACK_ID)) client in
  '(err, its_buffer, _) ← assign_client_ack_command.serialize host its_command [];
  match err with
  | ERROR_OK => send host its_buffer s
  | _ => Ok []
  end.

(** ** Receiving *)

Section receive.
Context (k : kind) (cfg : configuration) (env : environment) (self : nat).

(** The variables of the callback. *)
Record loop : Type := mk_loop {
  its_iteration_gap : nat;
  outputs : list output;
  conn : t;
  srv : server
}.

Definition emit (o : list output) (l : loop) : loop := mk_loop (its_iteration_gap l) (outputs l ++ o) (conn l) (srv l).
Definition on_conn (f : t → t) (l : loop) : loop := mk_loop (its_iteration_gap l) (outputs l) (f (conn l)) (srv l).
Definition on_srv (f : server → server) (l : loop) : loop := mk_loop (its_iteration_gap l) (outputs l) (conn l) (f (srv l)).
Definition with_gap (n : nat) (l : loop) : loop := mk_loop n (outputs l) (conn l) (srv l).

(** [shutdown_and_close] and the removal of the connection. *)
Definition close (l : loop) : loop :=
  if bound_client_ (conn l) =? VSOMEIP_CLIENT_UNSET then l
  else emit [remove_client_to_sec_client_mapping (bound_client_ (conn l))] (on_srv (remove_connection (bound_client_ (conn l))) l).

(** [start]: the next read. *)
Definition start (l : loop) : outcome * loop :=
  let st := conn l in
  let its_capacity := length (recv_buffer_ st) in
  if decide (its_capacity < recv_buffer_size_ st)%nat then (idle, l)
  else if negb (missing_capacity_ st =? 0) then
    if MESSAGE_SIZE_UNLIMITED <? missing_capacity_ st then (idle, l)
    else
      let missing := Z.to_nat (missing_capacity_ st) in
      let its_required_capacity := (recv_buffer_size_ st + missing)%nat in
      if decide (its_capacity < its_required_capacity)%nat then
        if alloc env its_required_capacity then
          (receiving missing, on_conn (λ st, with_stopped false (with_missing 0 (with_buffer (resize its_required_capacity (recv_buffer_ st)) st))) l)
        else
          (closing,
           let l := on_conn (with_buffer []) l in
           if bound_client_ st =? VSOMEIP_CLIENT_UNSET then l else on_srv (remove_connection (bound_client_ st)) l)
      else (receiving missing, on_conn (λ st, with_stopped false (with_missing 0 st)) l)
  else if negb (buffer_shrink_threshold_ cfg =? 0) && (buffer_shrink_threshold_ cfg <? shrink_count_ st)
          && bool_decide (recv_buffer_size_ st = 0%nat) then
    (receiving recv_buffer_size_initial_,
     on_conn (λ st, with_stopped false (with_shrink 0 (with_buffer (resize recv_buffer_size_initial_ (recv_buffer_ st)) st))) l)
  else (receiving (its_capacity - recv_buffer_size_ st), on_conn (with_stopped false) l).

Definition calculate_shrink_count (st : t) : t :=
  if negb (buffer_shrink_threshold_ cfg =? 0) && negb (bool_decide (length (recv_buffer_ st) = recv_buffer_size_initial_)) then
    if decide (recv_buffer_size_ st < length (recv_buffer_ st) / 2)%nat
    then with_shrink (u32 (shrink_count_ st + 1)) st
    else with_shrink 0 st
  else st.

(** The four bytes of a tag. *)
Definition tag_at (tag buf : bytes) (i : nat) : result bool := b ← rd buf i 4; Ok (bool_decide (b = tag)).

(** [while (i + 3 < end && no tag at i) ++i], with [n] bytes from [i] to the end. *)
Fixpoint scan (tag buf : bytes) (i n : nat) : result nat :=
  match n with
  | O => Ok i
  | S n' =>
      if decide (3 < n)%nat then
        b ← tag_at tag buf i;
        if (b : bool) then Ok i else scan tag buf (S i) n'
      else Ok i
  end.

(** A complete command; [false] when the connection was stopped. *)
Definition assign (its_start its_end : nat) (l : loop) : result (bool * loop) :=
  data ← rd (recv_buffer_ (conn l)) its_start (its_end - its_start);
  '(its_client, s) ← assign_client cfg (host env) data (srv l);
  let l := on_srv (λ _, s) l in
  let '(added, s) := add_connection its_client self (srv l) in
  if negb added then Ok (false, on_conn stop l)
  else
    let l := emit [add_known_client its_client] (on_srv (λ _, s) l) in
    if match k with uds => is_security_enabled cfg && negb (check_credentials env its_client) | tcp => false end
    then Ok (false, on_conn stop (on_srv (release_client cfg its_client) (on_srv (remove_connection its_client) l)))
    else
      let l := on_conn (set_bound_client its_client) l in
      o ← send_client_identifier (host env) its_client (srv l);
      Ok (true, on_conn (with_assigned true) (emit o l)).

Definition deliver (its_start its_end : nat) (l : loop) : result loop :=
  match k with
  | tcp =>
      if remote_known env then
        let l := emit [sync_client] l in
        l ← (if bound_client_ (conn l) =? VSOMEIP_CLIENT_UNSET then
               c ← rd (recv_buffer_ (conn l)) (its_start + COMMAND_POSITION_CLIENT) 2;
               let its_client := bithelper.val_of (host env) c in
               Ok (on_srv (λ s, (add_connection its_client self s).2) (on_conn (set_bound_client its_client) l))
             else Ok l);
        data ← rd (recv_buffer_ (conn l)) its_start (its_end - its_start);
        Ok (emit [on_message data (bound_client_ (conn l))] l)
      else Ok l
  | uds =>
      data ← rd (recv_buffer_ (conn l)) its_start (its_end - its_start);
      Ok (emit [on_message data (bound_client_ (conn l))] l)
  end.

Definition dispatch (its_start its_end : nat) (l : loop) : result (bool * loop) :=
  id ← (if is_routing_endpoint_ cfg then rd1 (recv_buffer_ (conn l)) its_start else Ok 0);
  if is_routing_endpoint_ cfg && (id =? id_e.ASSIGN_CLIENT_ID) then assign its_start its_end l
  else if negb (is_routing_endpoint_ cfg) || assigned_client_ (conn l) then l ← deliver its_start its_end l; Ok (true, l)
  else Ok (true, l).

Inductive step : Type :=
| next (l : loop)
| last (is_error : bool) (l : loop)
| leave (l : loop).

Definition command_done (its_end : nat) (l : loop) : loop :=
  let size := (recv_buffer_size_ (conn l) - (its_end + 4 - its_iteration_gap l))%nat in
  with_gap (its_end + 4) (on_conn (λ st, with_missing 0 (with_size size (calculate_shrink_count st))) l).

(** The rest of the data moves to the front of the buffer. *)
Definition shift (message_is_empty : bool) (l : loop) : result step :=
  let st := conn l in
  if decide (its_iteration_gap l = 0%nat) then Ok (last message_is_empty l)
  else
    buf ← tcp_endpoint.copy_front (its_iteration_gap l) (recv_buffer_size_ st) (recv_buffer_ st);
    let st := with_buffer buf st in
    let st := if negb (missing_capacity_ st =? 0)
                 && (missing_capacity_ st <=? Z.of_nat (length (recv_buffer_ st) - recv_buffer_size_ st))
              then with_missing 0 st else st in
    Ok (last false (on_conn (λ _, st) l)).

(** The command size, if it is there, and where the search for the end tag
    begins. *)
Definition command_size (its_start stop : nat) (buf : bytes) : result (Z * Z) :=
  if decide (its_start + COMMAND_POSITION_SIZE + 3 < stop)%nat then
    b ← rd buf (its_start + COMMAND_POSITION_SIZE) 4;
    let size := bithelper.read_uint32_le (host env) b in
    Ok (size, Z.of_nat (its_start + COMMAND_POSITION_SIZE + 3) + size)
  else Ok (0, Z.of_nat its_start).

Definition find_end (buf : bytes) (its_end : Z) (stop : nat) : result Z :=
  if its_end + 3 <? Z.of_nat stop
  then i ← scan its_end_tag buf (Z.to_nat its_end) (stop - Z.to_nat its_end); Ok (Z.of_nat i)
  else Ok its_end.

(** What is missing of an incomplete command, or the data are given up. *)
Definition incomplete (its_start : nat) (its_command_size : Z) (l : loop) : bool * loop :=
  let size := recv_buffer_size_ (conn l) in
  let needed := Z.of_nat (its_start - its_iteration_gap l) + its_command_size + Z.of_nat (COMMAND_HEADER_SIZE + TAG_SIZE) in
  if Z.of_nat size <? needed then (false, on_conn (with_missing (u32 (needed - Z.of_nat size))) l)
  else if decide (size < COMMAND_HEADER_SIZE + TAG_SIZE)%nat then
    (false, on_conn (with_missing (Z.of_nat (COMMAND_HEADER_SIZE + TAG_SIZE - size))) l)
  else (true, with_gap 0 (on_conn (λ st, with_missing 0 (with_size 0 st)) l)).

Definition iteration (l : loop) : result step :=
  let buf := recv_buffer_ (conn l) in
  let stop := (recv_buffer_size_ (conn l) + its_iteration_gap l)%nat in
  if u64 (Z.of_nat (its_iteration_gap l) + 3) <? Z.of_nat (its_iteration_gap l) then Ok (leave l)
  else
    its_start ← scan its_start_tag buf (its_iteration_gap l) (recv_buffer_size_ (conn l));
    if decide (its_start + 3 = stop)%nat then shift true l
    else
      let its_start := (its_start + 4)%nat in
      '(its_command_size, its_end) ← command_size its_start stop buf;
      if negb (its_command_size =? 0) && negb (max_message_size_ cfg =? MESSAGE_SIZE_UNLIMITED)
         && (max_message_size_ cfg <? its_command_size)
      then Ok (leave (on_conn (λ st, with_buffer (resize recv_buffer_size_initial_ (recv_buffer_ st)) st) l))
      else if u64 (its_end + 3) <? its_end then Ok (leave l)
      else
        its_end ← find_end buf its_end stop;
        if u64 (its_end + 4) <? its_end then Ok (leave l)
        else
          complete ← (if Z.of_nat stop <? its_end + 4 then Ok false else tag_at its_end_tag buf (Z.to_nat its_end));
          let '(message_is_empty, l) := if (complete : bool) then (false, l) else incomplete its_start its_command_size l in
          if negb message_is_empty && (its_end + 3 <? Z.of_nat (recv_buffer_size_ (conn l) + its_iteration_gap l)) then
            '(continue, l) ← dispatch its_start (Z.to_nat its_end) l;
            Ok (if (continue : bool) then next (command_done (Z.to_nat its_end) l) else leave l)
          else shift message_is_empty l.

(** [do ... while (recv_buffer_size_ > 0 && found_message)]: whether the callback
    returned, and [is_error]; [None] when the fuel runs out. *)
Fixpoint receive_loop (fuel : nat) (l : loop) : result (option (option bool * loop)) :=
  match fuel with
  | O => Ok None
  | S fuel =>
      s ← iteration l;
      match s with
      | leave l => Ok (Some (None, l))
      | last is_error l => Ok (Some (Some is_error, l))
      | next l => if decide (0 < recv_buffer_size_ (conn l))%nat then receive_loop fuel l else Ok (Some (Some false, l))
      end
  end.

Definition finish (closes : bool) (l : loop) : outcome * loop :=
  if is_stopped_ (conn l) || closes then (closing, close l) else start l.

Definition on_data (n : nat) (l : loop) : result (option (outcome * loop)) :=
  let size := recv_buffer_size_ (conn l) in
  if u64 (Z.of_nat (size + n)) <? Z.of_nat size then Ok (Some (idle, l))
  else
    let l := on_conn (with_size (size + n)) l in
    e ← receive_loop (S (size + n)) l;
    Ok (match e with
        | None => None
        | Some (None, l) => Some (idle, l)
        | Some (Some is_error, l) => Some (finish is_error l)
        end).

Definition receive_cbk (e : error) (n : nat) (st : t) (s : server) : result (option (outcome * loop)) :=
  let l := mk_loop 0 [] st s in
  if negb (routing_host env) then Ok (Some (idle, l))
  else match e with
       | operation_aborted =>
           Ok (Some (idle,
             if is_routing_endpoint_ cfg && negb (bound_client_ st =? VSOMEIP_CLIENT_UNSET)
             then on_conn (set_bound_client VSOMEIP_CLIENT_UNSET) (on_srv (release_client cfg (bound_client_ st)) l)
             else l))
       | none => if decide (0 < n)%nat then on_data n l else Ok (Some (finish false l))
       | other => Ok (Some (finish false l))
       | _ => Ok (Some (finish true l))
       end.

(** The socket writes the bytes it read behind the buffered ones and calls back. *)
Definition feed (chunk : bytes) (st : t) (s : server) : result (option (outcome * loop)) :=
  buf ← wr (recv_buffer_ st) (recv_buffer_size_ st) chunk;
  receive_cbk none (length chunk) (with_buffer buf st) s.
End receive.

(** ** The client's end

    A client reads into a buffer of the size of the acknowledgement and handles a
    read only if it is the whole acknowledgement. *)
Definition client_receive_cbk (n : nat) (recv_buffer : bytes) : result (option bytes) :=
  if decide (n = VSOMEIP_LOCAL_CLIENT_ENDPOINT_RECV_BUFFER_SIZE) then
    s ← rd recv_buffer 0 4;
    if decide (s = its_start_tag) then
      id ← rd1 recv_buffer 4;
      if id =? id_e.ASSIGN_CLIENT_ACK_ID then
        e ← rd recv_buffer 15 4;
        if decide (e = its_end_tag)
        then data ← rd recv_buffer 4 (VSOMEIP_LOCAL_CLIENT_ENDPOINT_RECV_BUFFER_SIZE - 8); Ok (Some data)
        else Ok None
      else Ok None
    else Ok None
  else Ok None.
End local_endpoint.
