(* ===== verification/LocalStreamFacts.v ===== *)
(** * Commands between local processes: what arrives

    The receive loop on a stream of commands cut into arbitrary pieces and on
    arbitrary bytes, and the assignment of client identifiers from end to end. *)

From stdpp Require Import base list gmap.
From Stdlib Require Import ZArith Lia.
From S2P Require Import Prelude BitHelper Protocol ProtocolFacts TcpStream TcpStreamFacts ClientIds LocalStream.

Import local_endpoint.

Ltac sizes :=
  unfold COMMAND_POSITION_SIZE, COMMAND_HEADER_SIZE, TAG_SIZE, COMMAND_POSITION_CLIENT, recv_buffer_size_initial_ in *; lia.

Ltac fields :=
  cbn [conn on_conn with_stopped with_missing with_shrink with_buffer recv_buffer_ recv_buffer_size_ missing_capacity_ is_stopped_].

(** ** Looking for a tag *)

Lemma tag_at_ok tag buf i : (i + 4 ≤ length buf)%nat → tag_at tag buf i = Ok (bool_decide (take 4 (drop i buf) = tag)).
Proof. intros. unfold tag_at. by rewrite rd_ok. Qed.

(** The first tag, or the place three bytes before the end. *)
Lemma scan_spec tag buf n : ∀ i, (i + n ≤ length buf)%nat → ∃ j, scan tag buf i n = Ok j ∧ (i ≤ j)%nat
  ∧ ((take 4 (drop j buf) = tag ∧ (j + 4 ≤ i + n)%nat ∧ ∀ m, (i ≤ m < j)%nat → take 4 (drop m buf) ≠ tag)
     ∨ (j = i + (n - 3) ∧ ∀ m, i ≤ m → m + 4 ≤ i + n → take 4 (drop m buf) ≠ tag)%nat).
Proof.
  induction n as [|n IH]; intros i Hl; cbn [scan]; [exists i; split; [done|]; split; [lia|right; split; lia]|].
  destruct (decide (3 < S n)%nat) as [H3|H3]; [|exists i; split; [done|]; split; [lia|right; split; lia]].
  rewrite tag_at_ok, bind_Ok by lia. destruct (decide (take 4 (drop i buf) = tag)) as [E|E].
  - rewrite bool_decide_true by done. exists i. split; [done|]. split; [lia|]. left. split; [done|]. split; lia.
  - rewrite bool_decide_false by done. destruct (IH (S i)) as (j & -> & Hj & H); [lia|]. exists j. split; [done|]. split; [lia|].
    destruct H as [(Ht & Hb & Hm)|[-> Hm]]; [left|right].
    + split; [done|]. split; [lia|]. intros m Hm'. destruct (decide (m = i)) as [->|]; [done|]. apply Hm. lia.
    + split; [lia|]. intros m Hm1 Hm2. destruct (decide (m = i)) as [->|]; [done|]. apply Hm; lia.
Qed.

Lemma scan_here tag buf i n : (4 ≤ n)%nat → (i + n ≤ length buf)%nat → take 4 (drop i buf) = tag → scan tag buf i n = Ok i.
Proof.
  intros Hn Hl Ht. destruct n as [|n]; [lia|]. cbn [scan]. rewrite decide_True, tag_at_ok, bind_Ok by lia. by rewrite bool_decide_true.
Qed.

(** No tag: the search ends three bytes before the end. *)
Lemma scan_none tag buf i n : (i + n ≤ length buf)%nat → (∀ m, i ≤ m → m + 4 ≤ i + n → take 4 (drop m buf) ≠ tag)%nat →
  scan tag buf i n = Ok (i + (n - 3))%nat.
Proof.
  intros Hl Hno. destruct (scan_spec tag buf n i Hl) as (j & -> & Hj & [(Ht & Hb & _)|[-> _]]); [|done]. by destruct (Hno j Hj Hb).
Qed.

(** ** The data of the loop *)

Definition window (l : loop) : bytes := take (recv_buffer_size_ (conn l)) (drop (its_iteration_gap l) (recv_buffer_ (conn l))).
Definition inside (l : loop) : Prop := (its_iteration_gap l + recv_buffer_size_ (conn l) ≤ length (recv_buffer_ (conn l)))%nat.

Lemma local_window_length l : inside l → length (window l) = recv_buffer_size_ (conn l).
Proof. unfold inside, window. intros. len. Qed.

Lemma buffer_window l k n : inside l → (k + n ≤ recv_buffer_size_ (conn l))%nat →
  take n (drop (its_iteration_gap l + k) (recv_buffer_ (conn l))) = take n (drop k (window l)).
Proof. intros H Hk. unfold window. rewrite take_take_drop by lia. by rewrite drop_drop. Qed.

Lemma local_rd_window l k n : inside l → (k + n ≤ recv_buffer_size_ (conn l))%nat →
  rd (recv_buffer_ (conn l)) (its_iteration_gap l + k) n = Ok (take n (drop k (window l))).
Proof. intros H Hk. rewrite rd_ok by (unfold inside in H; lia). by rewrite buffer_window. Qed.

(** ** Commands *)

(** A command as it is sent: the size in its header is right and accepted, the
    bytes of an end tag do not occur in its first eight bytes, and with its tags it
    is shorter than 4 GiB. *)
Definition command_ok (cfg : configuration) (c : bytes) : Prop :=
  bytes_ok c ∧ (COMMAND_HEADER_SIZE ≤ length c)%nat ∧ Z.of_nat (length (send_queued c)) < 2 ^ 32
  ∧ le_val (take 4 (drop COMMAND_POSITION_SIZE c)) = Z.of_nat (length c - COMMAND_HEADER_SIZE)
  ∧ (max_message_size_ cfg = MESSAGE_SIZE_UNLIMITED ∨ Z.of_nat (length c - COMMAND_HEADER_SIZE) ≤ max_message_size_ cfg)
  ∧ ∀ i, (i ≤ 4)%nat → take 4 (drop i c) ≠ its_end_tag.

Lemma framed_length c : length (send_queued c) = (length c + 8)%nat.
Proof. unfold send_queued. rewrite !length_app. cbn. lia. Qed.

Lemma framed_start c x : take 4 (send_queued c ++ x) = its_start_tag.
Proof. done. Qed.

Lemma framed_body c x i n : (i + n ≤ length c)%nat → take n (drop (4 + i) (send_queued c ++ x)) = take n (drop i c).
Proof.
  intros H. unfold send_queued. rewrite <- !app_assoc, <- drop_drop. rewrite (drop_app_length' its_start_tag) by done.
  rewrite drop_app_le, take_app_le by len. done.
Qed.

Lemma framed_end c x : take 4 (drop (4 + length c) (send_queued c ++ x)) = its_end_tag.
Proof.
  unfold send_queued. rewrite <- !app_assoc, <- drop_drop. rewrite (drop_app_length' its_start_tag) by done. by rewrite drop_app_length.
Qed.

(** One byte before the end tag there is no end tag. *)
Lemma framed_before_end c x : (1 ≤ length c)%nat → take 4 (drop (3 + length c) (send_queued c ++ x)) ≠ its_end_tag.
Proof.
  intros Hc E. assert (H : take 4 (drop (3 + length c) (send_queued c ++ x)) !! 1%nat = Some 0x07).
  { rewrite lookup_take_lt, lookup_drop by lia. unfold send_queued. rewrite <- !app_assoc.
    rewrite lookup_app_r by (cbn; lia). rewrite lookup_app_r by (cbn; lia). cbn [length its_start_tag].
    replace (3 + length c + 1 - 4 - length c)%nat with 0%nat by lia. done. }
  by rewrite E in H.
Qed.

Section stream.
Context (k : kind) (cfg : configuration) (env : environment) (self : nat).

(** The buffer: at least as large as at the beginning, and of a size that does not
    wrap around. *)
Definition fits (buf : bytes) : Prop :=
  (recv_buffer_size_initial_ ≤ length buf)%nat ∧ Z.of_nat (length buf) ≤ 2 ^ 62 ∧ bytes_ok buf.

Definition stream_of (cs : list bytes) : bytes := mjoin (send_queued <$> cs).

(** Data in front of which there is the command [c]. *)
Record head (l : loop) (c : bytes) (cs : list bytes) (rest : bytes) : Prop := {
  head_inside : inside l;
  head_fits : fits (recv_buffer_ (conn l));
  head_data : window l ++ rest = send_queued c ++ stream_of cs;
  head_command : command_ok cfg c;
  head_missing : missing_capacity_ (conn l) = 0
}.

Section step.
Context (l : loop) (c : bytes) (cs : list bytes) (rest : bytes) (H : head l c cs rest).
Let size := recv_buffer_size_ (conn l).
Let gap := its_iteration_gap l.
Let buf := recv_buffer_ (conn l).

Lemma local_piece i n : (i + n ≤ size)%nat → take n (drop (gap + i) buf) = take n (drop i (send_queued c ++ stream_of cs)).
Proof.
  intros Hi. destruct H as [Hin _ Hd _ _]. unfold gap, buf. rewrite buffer_window by done.
  apply (prefix_piece _ rest); [done|]. by rewrite local_window_length.
Qed.

Lemma no_wrap : (u64 (Z.of_nat gap + 3) <? Z.of_nat gap) = false.
Proof.
  destruct H as [Hin (_ & Hl & _) _ _ _]. unfold inside in Hin. fold gap size buf in Hin, Hl. apply Z.ltb_ge. unfold u64, wrap. rewrite Z.mod_small; lia.
Qed.

Lemma start_found : (4 ≤ size)%nat → scan its_start_tag buf gap size = Ok gap.
Proof.
  intros Hs. destruct H as [Hin _ _ _ _]. unfold inside in Hin. fold gap size buf in Hin. apply scan_here; [done|done|].
  rewrite <- (Nat.add_0_r gap), local_piece by lia. by rewrite drop_0, framed_start.
Qed.

Lemma size_known : (13 ≤ size)%nat →
  command_size env (gap + 4) (size + gap) buf = Ok (Z.of_nat (length c - 9), Z.of_nat (gap + 3 + length c)).
Proof.
  intros Hs. destruct H as [Hin (_ & _ & Hb) _ (_ & Hc & _ & Hsz & _ & _) _]. unfold inside in Hin. fold gap size buf in Hin, Hb.
  unfold command_size. rewrite decide_True by sizes. rewrite rd_ok, bind_Ok by sizes.
  replace (gap + 4 + COMMAND_POSITION_SIZE)%nat with (gap + (4 + COMMAND_POSITION_SIZE))%nat by lia. rewrite local_piece by sizes.
  rewrite framed_body by sizes. unfold bithelper.read_uint32_le.
  assert (Hr : bithelper.read_le (host env) 4 (take 4 (drop COMMAND_POSITION_SIZE c)) = Z.of_nat (length c - COMMAND_HEADER_SIZE)).
  { rewrite <- Hsz. rewrite <- (read_le_spec (host env)) by (apply Forall_take, Forall_drop; apply H.(head_command _ _ _ _)).
    f_equal. rewrite length_take, length_drop. sizes. }
  rewrite Hr. f_equal. f_equal. sizes.
Qed.

(** The place of the end tag of a command that is there in full. *)
Lemma end_found : (length c + 8 ≤ size)%nat → find_end buf (Z.of_nat (gap + 3 + length c)) (size + gap) = Ok (Z.of_nat (gap + 4 + length c)).
Proof.
  intros Hs. destruct H as [Hin _ _ (_ & Hc & _) _]. unfold inside in Hin. fold gap size buf in Hin. unfold find_end.
  destruct (Z.ltb_spec (Z.of_nat (gap + 3 + length c) + 3) (Z.of_nat (size + gap))) as [_|Hlt]; [|lia]. rewrite Nat2Z.id.
  destruct (size + gap - (gap + 3 + length c))%nat as [|n] eqn:En; [lia|]. cbn [scan]. rewrite decide_True, tag_at_ok, bind_Ok by lia.
  replace (gap + 3 + length c)%nat with (gap + (3 + length c))%nat by lia. rewrite local_piece by lia.
  rewrite bool_decide_false by (apply framed_before_end; sizes). rewrite scan_here.
  - rewrite bind_Ok. do 2 f_equal. lia.
  - lia.
  - lia.
  - replace (S (gap + (3 + length c))) with (gap + (4 + length c))%nat by lia. rewrite local_piece by lia. apply framed_end.
Qed.

(** No end tag is found from [e] on. *)
Lemma end_missing e : (gap ≤ e)%nat → (∀ m, e ≤ gap + m → m + 4 ≤ size → take 4 (drop m (send_queued c ++ stream_of cs)) ≠ its_end_tag)%nat →
  ∃ e', find_end buf (Z.of_nat e) (size + gap) = Ok e' ∧ Z.of_nat (size + gap) < e' + 4 ∧ Z.of_nat e ≤ e' ≤ Z.max (Z.of_nat e) (Z.of_nat (size + gap)).
Proof.
  intros He Hno. destruct H as [Hin _ _ _ _]. unfold inside in Hin. fold gap size buf in Hin. unfold find_end.
  destruct (Z.ltb_spec (Z.of_nat e + 3) (Z.of_nat (size + gap))) as [Hlt|Hge]; [|eexists; split; [done|]; lia]. rewrite Nat2Z.id.
  rewrite scan_none; [rewrite bind_Ok; eexists; split; [done|]; lia|lia|].
  intros m Hm1 Hm2. replace m with (gap + (m - gap))%nat by lia. rewrite local_piece by lia. apply Hno; lia.
Qed.

Lemma size_accepted : negb (Z.of_nat (length c - 9) =? 0) && negb (max_message_size_ cfg =? MESSAGE_SIZE_UNLIMITED)
  && (max_message_size_ cfg <? Z.of_nat (length c - 9)) = false.
Proof.
  destruct H as [_ _ _ (_ & _ & _ & _ & Hmax & _) _]. destruct Hmax as [->|Hmax]; [by rewrite Z.eqb_refl, andb_false_r|].
  apply andb_false_iff. right. apply Z.ltb_ge. done.
Qed.

Lemma small_wrap z n : 0 ≤ z ≤ 2 ^ 63 → 0 ≤ n ≤ 4 → (u64 (z + n) <? z) = false.
Proof. intros Hz Hn. apply Z.ltb_ge. unfold u64, wrap. rewrite Z.mod_small; lia. Qed.

(** A complete command is dispatched. *)
Lemma iteration_complete : (length c + 8 ≤ size)%nat →
  iteration k cfg env self l = '(b, l') ← dispatch k cfg env self (gap + 4) (gap + 4 + length c) l;
    Ok (if (b : bool) then next (command_done cfg (gap + 4 + length c) l') else leave l').
Proof.
  intros Hs. pose proof H as [Hin (_ & Hlen & _) _ (_ & Hc & Hc32 & _) _]. rewrite framed_length in Hc32. unfold inside in Hin. fold gap size buf in Hin, Hlen.
  unfold iteration. fold size gap buf. rewrite no_wrap. rewrite start_found, bind_Ok by sizes. rewrite decide_False by sizes.
  rewrite size_known, bind_Ok by sizes. rewrite size_accepted. rewrite small_wrap by lia. rewrite end_found, bind_Ok by done.
  rewrite small_wrap by lia. destruct (Z.ltb_spec (Z.of_nat (size + gap)) (Z.of_nat (gap + 4 + length c) + 4)) as [Hlt|_]; [lia|].
  rewrite Nat2Z.id, tag_at_ok, bind_Ok by lia.
  rewrite bool_decide_true by (rewrite <- Nat.add_assoc, local_piece by lia; apply framed_end). cbn [negb andb]. fold size gap.
  destruct (Z.ltb_spec (Z.of_nat (gap + 4 + length c) + 3) (Z.of_nat (size + gap))) as [_|Hge]; [done|lia].
Qed.

(** The first bytes of a command: the rest is requested, as far as it is known. *)
Lemma iteration_incomplete : (0 < size < length c + 8)%nat → size ≠ 3%nat →
  ∃ m, iteration k cfg env self l = shift false (on_conn (with_missing m) l)
  ∧ m = Z.of_nat (if decide (13 ≤ size)%nat then length c + 8 - size else 17 - size)%nat.
Proof.
  intros Hs H3. pose proof H as [Hin (_ & Hlen & _) _ (_ & Hc & Hc32 & _ & _ & Hno) _]. rewrite framed_length in Hc32. unfold inside in Hin. fold gap size buf in Hin, Hlen.
  assert (Hstart : ∃ i, scan its_start_tag buf gap size = Ok i ∧ i = gap).
  { destruct (decide (4 ≤ size)%nat); [rewrite start_found by done; by eexists|].
    rewrite scan_none by lia. eexists. split; [done|]. lia. }
  destruct Hstart as (i & Es & ->). unfold iteration. fold size gap buf. rewrite no_wrap, Es, bind_Ok. rewrite decide_False by lia.
  assert (Hend : ∃ cmd e e', command_size env (gap + 4) (size + gap) buf = Ok (cmd, Z.of_nat e)
    ∧ find_end buf (Z.of_nat e) (size + gap) = Ok e' ∧ Z.of_nat (size + gap) < e' + 4 ∧ e' ≤ 2 ^ 63 ∧ Z.of_nat e ≤ e'
    ∧ cmd = Z.of_nat (if decide (13 ≤ size)%nat then length c - 9 else 0)).
  { destruct (decide (13 ≤ size)%nat) as [H13|H13].
    - rewrite size_known by done. destruct (end_missing (gap + 3 + length c)) as (e' & E & He & Hb); [lia| |].
      + intros m Hm1 Hm2. replace m with (3 + length c)%nat by lia. apply framed_before_end. sizes.
      + eexists _, _, e'. split; [done|]. split; [exact E|]. split; [done|]. split; [lia|]. split; [lia|done].
    - unfold command_size. rewrite decide_False by sizes. destruct (end_missing (gap + 4)) as (e' & E & He & Hb); [lia| |].
      + intros m Hm1 Hm2. replace m with (4 + (m - 4))%nat by lia. rewrite framed_body by sizes. apply Hno. lia.
      + eexists _, _, e'. split; [done|]. split; [exact E|]. split; [done|]. split; [lia|]. split; [lia|done]. }
  destruct Hend as (cmd & e & e' & -> & Ef & He & Hb & Hb' & Hcmd). rewrite bind_Ok.
  assert (Hlim : negb (cmd =? 0) && negb (max_message_size_ cfg =? MESSAGE_SIZE_UNLIMITED) && (max_message_size_ cfg <? cmd) = false).
  { rewrite Hcmd. destruct (decide _); [apply size_accepted|done]. }
  rewrite Hlim. rewrite small_wrap by lia. rewrite Ef, bind_Ok. assert (0 ≤ e') by lia. rewrite small_wrap by lia.
  destruct (Z.ltb_spec (Z.of_nat (size + gap)) (e' + 4)) as [_|Hge]; [|lia]. rewrite bind_Ok. unfold incomplete. fold size gap.
  replace (gap + 4 - gap)%nat with 4%nat by lia.
  assert (Hneed : Z.of_nat size < Z.of_nat 4 + cmd + Z.of_nat (COMMAND_HEADER_SIZE + TAG_SIZE)) by (rewrite Hcmd; destruct (decide _); sizes).
  apply Z.ltb_lt in Hneed as E. rewrite E. cbn [negb andb]. rewrite (proj2 (Z.ltb_ge _ _)) by (cbn; fold size gap; lia).
  eexists. split; [done|]. unfold u32, wrap. rewrite Z.mod_small by (rewrite Hcmd in *; destruct (decide _); sizes).
  rewrite Hcmd. destruct (decide _); sizes.
Qed.

(** Exactly three bytes are taken for garbage. *)
Lemma iteration_three : size = 3%nat → iteration k cfg env self l = shift true l.
Proof.
  intros H3. pose proof H as [Hin _ _ _ _]. unfold inside in Hin. fold gap size buf in Hin. unfold iteration. fold size gap buf. rewrite no_wrap.
  rewrite scan_none, bind_Ok by lia. by rewrite decide_True by lia.
Qed.
End step.

(** ** What a command does, without buffers *)

Record view : Type := mk_view { v_bound : Z; v_assigned : bool; v_server : server }.
Definition view_of (l : loop) : view := mk_view (bound_client_ (conn l)) (assigned_client_ (conn l)) (srv l).

(** The fields of a command on a little endian host. *)
Definition client_of (c : bytes) : Z := le_val (take 2 (drop COMMAND_POSITION_CLIENT c)).
Definition name_of (c : bytes) : bytes := take (length c - COMMAND_HEADER_SIZE - 1) (drop COMMAND_HEADER_SIZE c).

Definition ack (client : Z) : bytes := [id_e.ASSIGN_CLIENT_ACK_ID; 0; 0; 0; 0; 2; 0; 0; 0] ++ le_bytes 2 client.

(** The assignment of an identifier: the connection of the client is new, and the
    policy admits it. *)
Definition accept_assign (c : bytes) (v : view) : bool * list output * view :=
  let '(client, d) := client_ids.request_client_id (identifiers cfg) (name_of c) (client_of c) (data__ (v_server v)) in
  let s := mk_server (connections_ (v_server v)) d in
  match connections_ s !! client with
  | Some _ => (false, [], mk_view (v_bound v) (v_assigned v) s)
  | None =>
      if match k with uds => is_security_enabled cfg && negb (check_credentials env client) | tcp => false end
      then (false, [add_known_client client],
            mk_view (v_bound v) (v_assigned v) (release_client cfg client (remove_connection client (mk_server (<[client := self]> (connections_ s)) d))))
      else (true, [add_known_client client; written self (send_queued (ack client))],
            mk_view client true (mk_server (<[client := self]> (connections_ s)) d))
  end.

Definition accept_message (c : bytes) (v : view) : list output * view :=
  match k with
  | tcp =>
      if remote_known env then
        if v_bound v =? VSOMEIP_CLIENT_UNSET
        then ([sync_client; on_message c (client_of c)],
              mk_view (client_of c) (v_assigned v) (add_connection (client_of c) self (v_server v)).2)
        else ([sync_client; on_message c (v_bound v)], v)
      else ([], v)
  | uds => ([on_message c (v_bound v)], v)
  end.

Definition accept (c : bytes) (v : view) : bool * list output * view :=
  if is_routing_endpoint_ cfg && bool_decide (c !! 0%nat = Some id_e.ASSIGN_CLIENT_ID) then accept_assign c v
  else if negb (is_routing_endpoint_ cfg) || v_assigned v then let '(o, v) := accept_message c v in (true, o, v)
  else (true, [], v).

Lemma send_ack client s : connections_ s !! client = Some self → is_u16 client →
  send_client_identifier le client s = Ok [written self (send_queued (ack client))].
Proof.
  intros Hc Hw. unfold send_client_identifier.
  assert (E : assign_client_ack_command.serialize le
    (one_field.mk (command.set_client VSOMEIP_ROUTING_CLIENT (command.create id_e.ASSIGN_CLIENT_ACK_ID)) client) []
    = Ok (ERROR_OK, ack client, one_field.mk (command.mk 1 0 0 2) client)) by reflexivity.
  rewrite E, bind_Ok. unfold send. rewrite rd_ok, bind_Ok by (cbn; lia).
  replace (bithelper.val_of le (take 2 (drop COMMAND_HEADER_SIZE (ack client)))) with client; [by rewrite Hc|].
  change (take 2 (drop COMMAND_HEADER_SIZE (ack client))) with (le_bytes 2 client). cbn [bithelper.val_of].
  rewrite le_val_bytes. symmetry. apply Z.mod_small. exact Hw.
Qed.

Lemma client_of_u16 c : bytes_ok c → is_u16 (client_of c).
Proof.
  intros Hb. unfold client_of. pose proof (le_val_bound (take 2 (drop COMMAND_POSITION_CLIENT c))) as H.
  unfold in_width. specialize (H ltac:(by apply Forall_take, Forall_drop)).
  assert (length (take 2 (drop COMMAND_POSITION_CLIENT c)) ≤ 2)%nat by (rewrite length_take; lia).
  pose proof (Z.pow_le_mono_r 256 (Z.of_nat (length (take 2 (drop COMMAND_POSITION_CLIENT c)))) 2). lia.
Qed.

(** Reading the request for an identifier. *)
Lemma assign_client_ok c s : command_ok cfg c → c !! 0%nat = Some id_e.ASSIGN_CLIENT_ID →
  assign_client cfg le c s =
    let '(client, d) := client_ids.request_client_id (identifiers cfg) (name_of c) (client_of c) (data__ s) in
    Ok (client, mk_server (connections_ s) d).
Proof.
  intros (Hb & Hc & _ & Hsz & _) H0. unfold assign_client, assign_client_command.deserialize, command.open.
  cbn [assign_client_command.head assign_client_command.name_]. rewrite decide_False by lia.
  assert (Hd : command.deserialize le (command.create id_e.ASSIGN_CLIENT_ID) c = Ok (ERROR_OK,
    command.mk id_e.ASSIGN_CLIENT_ID (le_val (take 2 (drop 1 c))) (client_of c) (Z.of_nat (length c - COMMAND_HEADER_SIZE)))).
  { unfold command.deserialize, rd1. rewrite H0, bind_Ok. cbn. unfold command.read_rest, COMMAND_POSITION_VERSION.
    rewrite !rd_ok, !bind_Ok by sizes. rewrite <- Hsz. done. }
  rewrite Hd, !bind_Ok. cbn [command.size_]. destruct (Z.ltb_spec 0 (Z.of_nat (length c - COMMAND_HEADER_SIZE))) as [Hp|Hz].
  - rewrite decide_False by (unfold COMMAND_POSITION_PAYLOAD; sizes). unfold get_bytes. cbn [fst snd].
    unfold COMMAND_POSITION_PAYLOAD. rewrite rd_ok, !bind_Ok by sizes. cbn [assign_client_command.name_ assign_client_command.head command.client_].
    unfold name_of. replace (length c - COMMAND_HEADER_SIZE - 1)%nat with (length c - 1 - 9)%nat by sizes.
    change COMMAND_HEADER_SIZE with 9%nat. by destruct (client_ids.request_client_id _ _ _ _).
  - rewrite !bind_Ok. cbn [assign_client_command.name_ assign_client_command.head command.client_].
    unfold name_of. replace (length c - COMMAND_HEADER_SIZE - 1)%nat with 0%nat by lia. rewrite take_0.
    by destruct (client_ids.request_client_id _ _ _ _).
Qed.

(** The buffer and its bookkeeping are the same. *)
Definition same_data (l l' : loop) : Prop :=
  its_iteration_gap l' = its_iteration_gap l ∧ recv_buffer_ (conn l') = recv_buffer_ (conn l)
  ∧ recv_buffer_size_ (conn l') = recv_buffer_size_ (conn l) ∧ missing_capacity_ (conn l') = missing_capacity_ (conn l).

Context (Hhost : host env = le).

Lemma deliver_ok a e c l : rd (recv_buffer_ (conn l)) a (e - a) = Ok c →
  rd (recv_buffer_ (conn l)) (a + COMMAND_POSITION_CLIENT) 2 = Ok (take 2 (drop COMMAND_POSITION_CLIENT c)) →
  ∃ l', deliver k env self a e l = Ok l' ∧ outputs l' = outputs l ++ (accept_message c (view_of l)).1
  ∧ view_of l' = (accept_message c (view_of l)).2 ∧ same_data l l' ∧ is_stopped_ (conn l') = is_stopped_ (conn l).
Proof.
  intros Hdata Hclient. unfold deliver, accept_message. cbn [view_of v_bound v_server v_assigned]. destruct k.
  - destruct (remote_known env); [|eexists; split; [done|]; by rewrite app_nil_r].
    cbn [conn emit]. destruct (bound_client_ (conn l) =? VSOMEIP_CLIENT_UNSET) eqn:Eb.
    + rewrite Hclient, !bind_Ok, Hhost. cbn [conn on_srv on_conn emit set_bound_client recv_buffer_]. rewrite Hdata, bind_Ok.
      eexists. split; [done|]. cbn. split; [by rewrite <- app_assoc|]. done.
    + rewrite bind_Ok. cbn [conn emit]. rewrite Hdata, bind_Ok. eexists. split; [done|]. cbn. split; [by rewrite <- app_assoc|]. done.
  - rewrite Hdata, bind_Ok. eexists. split; [done|]. done.
Qed.

Lemma assign_ok a e c l : command_ok cfg c → c !! 0%nat = Some id_e.ASSIGN_CLIENT_ID → rd (recv_buffer_ (conn l)) a (e - a) = Ok c →
  ∃ b o v l', accept_assign c (view_of l) = (b, o, v) ∧ assign k cfg env self a e l = Ok (b, l')
  ∧ outputs l' = outputs l ++ o ∧ view_of l' = v ∧ same_data l l' ∧ is_stopped_ (conn l') = negb b || is_stopped_ (conn l).
Proof.
  intros Hc H0 Hdata. pose proof Hc as (Hb & _). unfold assign, accept_assign. rewrite Hdata, bind_Ok, Hhost, assign_client_ok by done.
  cbn [view_of v_server v_bound v_assigned].
  pose proof (request_width (identifiers cfg) (name_of c) (client_of c) (data__ (srv l)) (client_of_u16 c Hb)) as Hw.
  destruct (client_ids.request_client_id _ _ _ _) as [client d]. cbn [fst] in Hw. rewrite bind_Ok. cbn [srv on_srv connections_ data__].
  unfold add_connection. cbn [connections_ data__]. destruct (connections_ (srv l) !! client) as [con|]; cbn [negb].
  { eexists _, _, _, _. split; [done|]. split; [done|]. cbn. split; [by rewrite app_nil_r|]. done. }
  destruct (match k with tcp => false | uds => _ end).
  { eexists _, _, _, _. split; [done|]. split; [done|]. done. }
  cbn [srv on_conn on_srv emit]. rewrite send_ack by (done || apply lookup_insert_eq). rewrite bind_Ok.
  eexists _, _, _, _. split; [done|]. split; [done|]. cbn. split; [by rewrite <- app_assoc|]. done.
Qed.

(** Dispatching a command of the buffer is accepting it. *)
Lemma dispatch_ok l c cs rest : head l c cs rest → (length c + 8 ≤ recv_buffer_size_ (conn l))%nat →
  ∃ b o v l', accept c (view_of l) = (b, o, v)
  ∧ dispatch k cfg env self (its_iteration_gap l + 4) (its_iteration_gap l + 4 + length c) l = Ok (b, l')
  ∧ outputs l' = outputs l ++ o ∧ view_of l' = v ∧ same_data l l' ∧ is_stopped_ (conn l') = negb b || is_stopped_ (conn l).
Proof.
  intros H Hs. pose proof H as [Hin _ _ Hc _]. pose proof Hc as (Hb & Hc9 & _). unfold dispatch, accept.
  assert (Hpart : ∀ i n, (i + n ≤ length c)%nat → rd (recv_buffer_ (conn l)) (its_iteration_gap l + 4 + i) n = Ok (take n (drop i c))).
  { intros i n Hi. rewrite rd_ok by (unfold inside in Hin; lia). rewrite <- Nat.add_assoc, (local_piece l c cs rest H) by lia. by rewrite framed_body by lia. }
  assert (Hdata : rd (recv_buffer_ (conn l)) (its_iteration_gap l + 4) (its_iteration_gap l + 4 + length c - (its_iteration_gap l + 4)) = Ok c).
  { replace (_ - _)%nat with (length c) by lia. rewrite <- (Nat.add_0_r (its_iteration_gap l + 4)), Hpart by lia. by rewrite drop_0, take_ge. }
  assert (Hmsg : ∃ b o v l', (let '(o, v) := accept_message c (view_of l) in (true, o, v)) = (b, o, v)
    ∧ (l' ← deliver k env self (its_iteration_gap l + 4) (its_iteration_gap l + 4 + length c) l; Ok (true, l')) = Ok (b, l')
    ∧ outputs l' = outputs l ++ o ∧ view_of l' = v ∧ same_data l l' ∧ is_stopped_ (conn l') = negb b || is_stopped_ (conn l)).
  { destruct (deliver_ok _ _ _ _ Hdata (Hpart COMMAND_POSITION_CLIENT 2%nat ltac:(sizes))) as (l' & -> & Ho & Hv & Hd & Hst). destruct (accept_message c (view_of l)) as [o v].
    eexists _, _, _, l'. split; [done|]. by rewrite bind_Ok. }
  destruct (is_routing_endpoint_ cfg) eqn:Hr; cbn [andb negb orb]; [|by rewrite bind_Ok].
  destruct c as [|id c']; [cbn in Hc9; sizes|].
  assert (Erd : rd1 (recv_buffer_ (conn l)) (its_iteration_gap l + 4) = Ok id).
  { specialize (Hpart 0%nat 1%nat ltac:(sizes)). rewrite Nat.add_0_r, rd_ok in Hpart by (unfold inside in Hin; lia). injection Hpart as E.
    unfold rd1. apply (f_equal (lookup 0%nat)) in E. rewrite lookup_take_lt, lookup_drop, Nat.add_0_r in E by lia. by rewrite E. }
  rewrite Erd, bind_Ok. cbn [lookup list_lookup]. destruct (Z.eqb_spec id id_e.ASSIGN_CLIENT_ID) as [->|Hne].
  - rewrite bool_decide_true by done. by apply assign_ok.
  - rewrite bool_decide_false by congruence. cbn [view_of v_assigned]. destruct (assigned_client_ (conn l)) eqn:Ha; [done|].
    eexists _, _, _, l. split; [done|]. split; [done|]. split; [by rewrite app_nil_r|]. done.
Qed.

(** The rest of the data moved to the front, and what is still to be requested. *)
Record settled (m : Z) (l l' : loop) : Prop := {
  settled_size : recv_buffer_size_ (conn l') = recv_buffer_size_ (conn l);
  settled_front : take (recv_buffer_size_ (conn l')) (recv_buffer_ (conn l')) = window l;
  settled_fits : fits (recv_buffer_ (conn l'));
  settled_missing : 0 ≤ missing_capacity_ (conn l') < 2 ^ 32;
  settled_room : (m = 0 → (recv_buffer_size_ (conn l) < length (recv_buffer_ (conn l)))%nat) →
    missing_capacity_ (conn l') = 0 → (recv_buffer_size_ (conn l') < length (recv_buffer_ (conn l')))%nat;
  settled_outputs : outputs l' = outputs l;
  settled_view : view_of l' = view_of l;
  settled_stopped : is_stopped_ (conn l') = is_stopped_ (conn l)
}.

Lemma local_shifted e l m : inside l → fits (recv_buffer_ (conn l)) → 0 ≤ m < 2 ^ 32 →
  ∃ l', shift e (on_conn (with_missing m) l) = Ok (last (e && bool_decide (its_iteration_gap l = 0%nat)) l') ∧ settled m l l'.
Proof.
  intros Hin Hf Hm. unfold shift. cbn [its_iteration_gap on_conn conn with_missing recv_buffer_size_ recv_buffer_].
  destruct (decide (its_iteration_gap l = 0%nat)) as [E|E].
  - rewrite bool_decide_true, andb_true_r by done. eexists. split; [done|]. constructor; try done. unfold window. by rewrite E, drop_0.
  - rewrite bool_decide_false, andb_false_r by done. unfold inside in Hin. rewrite copy_front_ok, bind_Ok by done.
    set (b := take _ _ ++ drop _ _). assert (Hlb : length b = length (recv_buffer_ (conn l))) by (subst b; len).
    assert (Hfb : fits b). { destruct Hf as (H1 & H2 & H3). split_and!; [by rewrite Hlb|by rewrite Hlb|]. apply Forall_app_2; auto using Forall_take, Forall_drop. }
    assert (Hw : take (recv_buffer_size_ (conn l)) b = window l).
    { subst b. unfold window. rewrite take_app_le by len. rewrite firstn_firstn. f_equal. lia. }
    eexists. split; [done|]. cbn [with_buffer missing_capacity_ with_missing recv_buffer_size_ recv_buffer_].
    destruct (Z.eqb_spec m 0) as [->|Hm0]; cbn [negb andb]; [constructor; cbn; try done; rewrite Hlb; auto|].
    destruct (Z.leb_spec m (Z.of_nat (length b - recv_buffer_size_ (conn l)))) as [Hle|Hgt]; constructor; cbn; (done || lia || auto).
Qed.

(** An incomplete command ends the loop. *)
Lemma iteration_last l c cs rest : head l c cs rest → (0 < recv_buffer_size_ (conn l) < length c + 8)%nat →
  ∃ m l', iteration k cfg env self l = Ok (last (bool_decide (recv_buffer_size_ (conn l) = 3%nat ∧ its_iteration_gap l = 0%nat)) l')
  ∧ settled m l l' ∧ (m = 0 → (recv_buffer_size_ (conn l) < length (recv_buffer_ (conn l)))%nat).
Proof.
  intros H Hs. pose proof H as [Hin Hf _ (_ & Hc & Hc32 & _) Hm]. rewrite framed_length in Hc32.
  destruct (decide (recv_buffer_size_ (conn l) = 3%nat)) as [E3|E3].
  - rewrite (iteration_three l c cs rest H) by done. destruct (local_shifted true l 0) as (l' & E & Hset); [done|done|lia|].
    exists 0, l'. split; [|split; [done|intros _; destruct Hf as (Hf & _); rewrite E3; sizes]].
    assert (El : on_conn (with_missing 0) l = l) by (destruct l as [g o [] s]; cbn in *; by rewrite Hm).
    rewrite El in E. rewrite E. do 2 f_equal. apply bool_decide_ext. tauto.
  - destruct (iteration_incomplete l c cs rest H) as (m & -> & Em); [done|done|].
    destruct (local_shifted false l m) as (l' & -> & Hset); [done|done|rewrite Em; destruct (decide _); lia|].
    exists m, l'. split; [|split; [done|rewrite Em; destruct (decide _); lia]]. cbn [andb]. do 2 f_equal. symmetry. apply bool_decide_false. tauto.
Qed.

Fixpoint accept_all (cs : list bytes) (v : view) : bool * list output * view :=
  match cs with
  | [] => (true, [], v)
  | c :: cs =>
      let '(b, o, v) := accept c v in
      if b then let '(b, o', v) := accept_all cs v in (b, o ++ o', v) else (false, o, v)
  end.

(** [part] is the beginning of the first command of [cs], or nothing. *)
Definition begins (part : bytes) (cs : list bytes) : Prop :=
  part = [] ∨ ∃ c cs', cs = c :: cs' ∧ (0 < length part < length (send_queued c))%nat.

(** After the loop: the commands [cs1] were accepted and [part] is left in front. *)
Record pending (l : loop) (part : bytes) (cs2 : list bytes) (rest : bytes) : Prop := {
  pending_size : recv_buffer_size_ (conn l) = length part;
  pending_front : take (length part) (recv_buffer_ (conn l)) = part;
  pending_data : part ++ rest = stream_of cs2;
  pending_begins : begins part cs2;
  pending_fits : fits (recv_buffer_ (conn l));
  pending_missing : 0 ≤ missing_capacity_ (conn l) < 2 ^ 32;
  pending_room : missing_capacity_ (conn l) = 0 → (length part < length (recv_buffer_ (conn l)))%nat;
  pending_running : is_stopped_ (conn l) = false
}.

(** A loop over a part of a stream. *)
Record reading (l : loop) (cs : list bytes) (rest : bytes) : Prop := {
  reading_inside : inside l;
  reading_fits : fits (recv_buffer_ (conn l));
  reading_data : window l ++ rest = stream_of cs;
  reading_commands : Forall (command_ok cfg) cs;
  reading_missing : missing_capacity_ (conn l) = 0;
  reading_running : is_stopped_ (conn l) = false
}.

Lemma reading_head l c cs rest : reading l (c :: cs) rest → head l c cs rest.
Proof. intros [? ? ? Hc ? ?]. inversion Hc; subst. by constructor. Qed.

Lemma stream_cons c cs : stream_of (c :: cs) = send_queued c ++ stream_of cs.
Proof. done. Qed.

Lemma shrink_same st : let st' := calculate_shrink_count cfg st in
  recv_buffer_ st' = recv_buffer_ st ∧ recv_buffer_size_ st' = recv_buffer_size_ st ∧ missing_capacity_ st' = missing_capacity_ st
  ∧ is_stopped_ st' = is_stopped_ st ∧ bound_client_ st' = bound_client_ st ∧ assigned_client_ st' = assigned_client_ st.
Proof. cbv zeta. unfold calculate_shrink_count. destruct (_ && _); [destruct (decide _)|]; done. Qed.

Lemma done_view e l : view_of (command_done cfg e l) = view_of l ∧ outputs (command_done cfg e l) = outputs l.
Proof. unfold command_done, view_of. cbn. destruct (shrink_same (conn l)) as (_ & _ & _ & _ & -> & ->). done. Qed.

Lemma reading_next l l' c cs rest : reading l (c :: cs) rest → (length c + 8 ≤ recv_buffer_size_ (conn l))%nat →
  same_data l l' → is_stopped_ (conn l') = false →
  let l1 := command_done cfg (its_iteration_gap l + 4 + length c) l' in
  reading l1 cs rest ∧ recv_buffer_size_ (conn l1) = (recv_buffer_size_ (conn l) - (length c + 8))%nat
  ∧ (its_iteration_gap l1 ≠ 0)%nat.
Proof.
  intros [Hin Hf Hd Hc Hm Hr] Hs (Hg & Hb & Hsz & _) Hst l1. destruct (shrink_same (conn l')) as (Eb & Es & Em & Est & _).
  assert (Hsize : recv_buffer_size_ (conn l1) = (recv_buffer_size_ (conn l) - (length c + 8))%nat) by (cbn; rewrite Hsz, Hg; lia).
  assert (Hgap : its_iteration_gap l1 = (its_iteration_gap l + (length c + 8))%nat) by (cbn; lia).
  assert (Hbuf : recv_buffer_ (conn l1) = recv_buffer_ (conn l)) by (cbn; by rewrite Eb, Hb).
  split; [|split; [done|lia]]. unfold inside in *. inversion Hc; subst. constructor; [| | |done|done|cbn; by rewrite Est].
  - unfold inside. rewrite Hsize, Hgap, Hbuf. lia.
  - by rewrite Hbuf.
  - assert (Hw : window l1 = drop (length c + 8) (window l)).
    { unfold window. rewrite Hsize, Hgap, Hbuf, <- drop_drop, skipn_firstn_comm. done. }
    rewrite Hw. apply (f_equal (drop (length c + 8))) in Hd. rewrite drop_app_le in Hd by (rewrite local_window_length; done).
    rewrite Hd, stream_cons, drop_app_length'; [done|]. by rewrite framed_length.
Qed.

(** The receive loop accepts the commands that are complete. *)
Lemma local_loop_stream fuel : ∀ l cs rest, reading l cs rest → (0 < recv_buffer_size_ (conn l) < fuel)%nat →
  ∃ cs1 cs2 b o v res l', cs = cs1 ++ cs2 ∧ accept_all cs1 (view_of l) = (b, o, v)
  ∧ receive_loop k cfg env self fuel l = Ok (Some (res, l')) ∧ outputs l' = outputs l ++ o ∧ view_of l' = v
  ∧ if b then ∃ part, pending l' part cs2 rest ∧ res = Some (bool_decide (length part = 3%nat ∧ its_iteration_gap l = 0%nat ∧ cs1 = []))
    else res = None.
Proof.
  induction fuel as [|fuel IH]; intros l cs rest Hl Hs; [lia|]. destruct cs as [|c cs].
  { pose proof Hl as [Hin _ Hd _ _ _]. apply app_eq_nil in Hd as [Hd _]. apply (f_equal length) in Hd. rewrite local_window_length in Hd by done. cbn in Hd. lia. }
  pose proof (reading_head _ _ _ _ Hl) as Hh. cbn [receive_loop].
  destruct (decide (length c + 8 ≤ recv_buffer_size_ (conn l))%nat) as [Hfull|Hpart].
  - rewrite (iteration_complete l c cs rest Hh) by done. destruct (dispatch_ok l c cs rest Hh Hfull) as (b & o & v & l1 & Ea & -> & Ho & Hv & Hsame & Hst).
    rewrite !bind_Ok. rewrite (reading_running _ _ _ Hl), orb_false_r in Hst. destruct b; cbn [negb] in Hst.
    2: { exists [c], cs, false, o, v, None, l1. cbn [accept_all]. rewrite Ea. split; [done|]. split; [done|]. done. }
    destruct (reading_next l l1 c cs rest Hl Hfull Hsame Hst) as (Hnext & Hsize & Hgap).
    destruct (done_view (its_iteration_gap l + 4 + length c) l1) as [Ev Eo].
    set (l2 := command_done cfg _ l1) in *. destruct (decide (0 < recv_buffer_size_ (conn l2))%nat) as [Hmore|Hnone].
    + destruct (IH l2 cs rest Hnext) as (cs1 & cs2 & b & o' & v' & res & l' & -> & Ea' & -> & Ho' & Hv' & Hres); [lia|].
      exists (c :: cs1), cs2, b, (o ++ o'), v', res, l'. split; [done|]. rewrite Ev, Hv in Ea'. split; [cbn [accept_all]; by rewrite Ea, Ea'|].
      split; [done|]. split; [by rewrite Ho', Eo, Ho, app_assoc|]. split; [done|]. destruct b; [|done].
      destruct Hres as (part & Hp & ->). exists part. split; [done|]. f_equal. rewrite !bool_decide_false; [done|by intros (_ & _ & [=])|tauto].
    + exists [c], cs, true, o, v, (Some false), l2. split; [done|]. split; [cbn [accept_all]; by rewrite Ea, app_nil_r|]. split; [done|].
      split; [by rewrite Eo|]. split; [by rewrite Ev|]. exists []. split; [|f_equal; symmetry; apply bool_decide_false; by intros (? & _)].
      pose proof Hnext as [Hin2 Hf2 Hd2 _ Hm2 Hr2]. assert (window l2 = []) as Hw by (apply nil_length_inv; rewrite local_window_length; [lia|done]).
      constructor; [change (recv_buffer_size_ (conn l2) = 0%nat); lia|done|by rewrite Hw in Hd2|by left|done|rewrite Hm2; lia|intros _; destruct Hf2 as (Hf2 & _); change (0 < length (recv_buffer_ (conn l2)))%nat; sizes|done].
  - destruct (iteration_last l c cs rest Hh) as (m & l' & -> & Hset & Hm0); [lia|]. rewrite bind_Ok.
    exists [], (c :: cs), true, [], (view_of l), (Some (bool_decide (recv_buffer_size_ (conn l) = 3%nat ∧ its_iteration_gap l = 0%nat))), l'.
    split; [done|]. split; [done|]. split; [done|]. destruct Hset as [Es Ef Hf Hm Hroom Ho Hv Hst]. specialize (Hroom Hm0). split; [by rewrite Ho, app_nil_r|]. split; [done|].
    exists (window l). pose proof Hl as [Hin _ Hd _ _ Hr]. rewrite !local_window_length by done. split; [|f_equal; apply bool_decide_ext; tauto].
    constructor; rewrite ?local_window_length by done; [done|by rewrite <- Es|done| |done|done|by rewrite <- Es|by rewrite Hst].
    right. exists c, cs. split; [done|]. rewrite local_window_length, framed_length by done. lia.
Qed.

Context (Hrouting : routing_host env = true) (Halloc : ∀ n, Z.of_nat n ≤ 2 ^ 33 → alloc env n = true).

(** A read of at most [n] bytes is pending, with [part] in front of the buffer. *)
Record waiting (n : nat) (st : t) (part : bytes) (cs : list bytes) (rest : bytes) : Prop := {
  waiting_n : (0 < n)%nat;
  waiting_room : (recv_buffer_size_ st + n ≤ length (recv_buffer_ st))%nat;
  waiting_size : recv_buffer_size_ st = length part;
  waiting_front : take (length part) (recv_buffer_ st) = part;
  waiting_data : part ++ rest = stream_of cs;
  waiting_begins : begins part cs;
  waiting_fits : fits (recv_buffer_ st);
  waiting_missing : missing_capacity_ st = 0;
  waiting_running : is_stopped_ st = false
}.

Lemma begins_short part cs : Forall (command_ok cfg) cs → begins part cs → Z.of_nat (length part) < 2 ^ 32.
Proof.
  intros Hc [->|(c & cs' & -> & Hl)]; [cbn; lia|]. inversion Hc as [|? ? (_ & _ & H32 & _)]; subst. lia.
Qed.

Lemma fits_resize m b : fits b → (length b ≤ m)%nat → Z.of_nat m ≤ 2 ^ 62 → fits (resize m b).
Proof. intros (H1 & H2 & H3) Hl Hm. unfold fits. rewrite resized_length. split_and!; [lia|done|by apply resized_ok]. Qed.

Lemma take_resize n m (b : bytes) : (n ≤ length b)%nat → (n ≤ m)%nat → take n (resize m b) = take n b.
Proof. intros. unfold resize. rewrite take_app_le by len. rewrite firstn_firstn. f_equal. lia. Qed.

Lemma local_next_read l part cs rest : pending l part cs rest → Forall (command_ok cfg) cs →
  ∃ n l', start cfg env l = (receiving n, l') ∧ waiting n (conn l') part cs rest ∧ outputs l' = outputs l ∧ view_of l' = view_of l.
Proof.
  intros [Hs Hfr Hd Hb Hf Hm Hroom Hr] Hc. pose proof (begins_short part cs Hc Hb) as H32. pose proof Hf as (Hf1 & Hf2 & Hf3).
  assert (Hle : (length part ≤ length (recv_buffer_ (conn l)))%nat) by (apply (f_equal length) in Hfr; rewrite length_take in Hfr; lia).
  unfold start. rewrite decide_False by lia. destruct (Z.eqb_spec (missing_capacity_ (conn l)) 0) as [E0|E0]; cbn [negb].
  - destruct (negb _ && _ && _) eqn:Esh; (eexists _, _; split; [done|]; split; [|done]).
    + apply andb_true_iff in Esh as [_ Esh]. apply bool_decide_eq_true in Esh. rewrite Hs in Esh. apply nil_length_inv in Esh as ->.
      constructor; fields; try done; [sizes| |].
      * rewrite Hs, resized_length. cbn. sizes.
      * unfold fits. rewrite resized_length. split_and!; [done|sizes|by apply resized_ok].
    + specialize (Hroom E0). constructor; cbn; try done; lia.
  - destruct (Z.ltb_spec MESSAGE_SIZE_UNLIMITED (missing_capacity_ (conn l))) as [Hgt|_]; [unfold MESSAGE_SIZE_UNLIMITED in Hgt; lia|].
    destruct (decide _) as [Hgrow|Hfit]; [rewrite Halloc by lia|]; (eexists _, _; split; [done|]; split; [|done]); constructor; cbn; try done; try lia.
    + rewrite resized_length. lia.
    + by rewrite take_resize by lia.
    + apply fits_resize; [done|lia|lia].
Qed.

Definition closed_outputs (bound : Z) : list output :=
  if bound =? VSOMEIP_CLIENT_UNSET then [] else [remove_client_to_sec_client_mapping bound].

(** One read. *)
Lemma local_feed_stream n st s part cs chunk rest : waiting n st part cs (chunk ++ rest) → Forall (command_ok cfg) cs →
  (0 < length chunk ≤ n)%nat → bytes_ok chunk →
  ∃ cs1 cs2 b o v oc l', cs = cs1 ++ cs2 ∧ accept_all cs1 (mk_view (bound_client_ st) (assigned_client_ st) s) = (b, o, v)
  ∧ feed k cfg env self chunk st s = Ok (Some (oc, l'))
  ∧ if b then
      (∃ part' n', oc = receiving n' ∧ waiting n' (conn l') part' cs2 rest ∧ outputs l' = o ∧ view_of l' = v)
      ∨ (oc = closing ∧ cs1 = [] ∧ part ++ chunk = take 3 its_start_tag ∧ outputs l' = closed_outputs (bound_client_ st))
    else oc = idle ∧ outputs l' = o ∧ view_of l' = v.
Proof.
  intros [Hn Hroom Hs Hfr Hd Hb Hf Hm Hr] Hc Hch Hbc. pose proof Hf as (Hf1 & Hf2 & Hf3). unfold feed. rewrite wr_ok, bind_Ok by lia.
  set (buf := take _ _ ++ _). assert (Hlb : length buf = length (recv_buffer_ st)) by (subst buf; len).
  unfold receive_cbk. rewrite Hrouting. cbn [negb]. rewrite decide_True by lia. unfold on_data. cbn [conn with_buffer recv_buffer_size_].
  rewrite (proj2 (Z.ltb_ge _ _)) by (unfold u64, wrap; rewrite Z.mod_small; lia).
  set (l0 := on_conn _ _).
  assert (Hread : reading l0 cs rest).
  { constructor; cbn; try done.
    - unfold inside. cbn. lia.
    - unfold fits. rewrite Hlb. split_and!; [done|done|]. repeat apply Forall_app_2; auto using Forall_take, Forall_drop.
    - unfold window. cbn. rewrite drop_0. subst buf. rewrite Hs, Hfr, app_assoc, take_app_le by len.
      rewrite take_ge by len. by rewrite <- app_assoc. }
  destruct (local_loop_stream (S (recv_buffer_size_ st + length chunk)) l0 cs rest Hread) as (cs1 & cs2 & b & o & v & res & l' & -> & Ea & E & Ho & Hv & Hres);
    [cbn; lia|]. cbn in Ea, Ho. rewrite E, bind_Ok. destruct b.
  2: { subst res. eexists cs1, cs2, false, o, v, idle, l'. done. }
  destruct Hres as (part' & Hp & ->). apply Forall_app in Hc as [Hc1 Hc2]. unfold finish.
  rewrite (pending_running _ _ _ _ Hp). cbn [orb]. destruct (decide (length part' = 3%nat ∧ its_iteration_gap l0 = 0%nat ∧ cs1 = [])) as [H3|H3].
  - rewrite bool_decide_true by done. destruct H3 as (H3 & _ & ->). injection Ea as <- <-.
    eexists [], cs2, true, [], _, closing, _. split; [done|]. split; [done|]. split; [done|]. right. split; [done|]. split; [done|].
    pose proof Hp as [_ _ Hd' Hb' _ _ _ _]. assert (Ep : part' = part ++ chunk) by (apply (app_inv_tail rest); by rewrite Hd', <- app_assoc, Hd).
    rewrite <- Ep. split.
    + destruct Hb' as [->|(c & cs' & -> & _)]; [done|]. apply (f_equal (take 3)) in Hd'. by rewrite take_app_length' in Hd'.
    + apply (f_equal v_bound) in Hv. cbn in Hv. unfold close, closed_outputs. rewrite Hv. destruct (_ =? _); cbn; by rewrite Ho.
  - rewrite bool_decide_false by done. destruct (local_next_read l' part' cs2 rest Hp Hc2) as (n' & l2 & -> & Hw & Ho2 & Hv2).
    eexists cs1, cs2, true, o, v, _, l2. split; [done|]. split; [done|]. split; [done|]. left. exists part', n'. split; [done|]. split; [done|].
    split; [by rewrite Ho2|by rewrite Hv2].
Qed.

(** ** Reading a stream

    The environment delivers the bytes of the stream in reads of sizes of its
    choice; the outcome is the last one. *)
Fixpoint run (ks : list nat) (n : nat) (stream : bytes) (st : t) (s : server) : result (option (list output * bytes * outcome * t * server)) :=
  match ks, stream with
  | m :: ks, _ :: _ =>
      let m := S (m mod n) in
      e ← feed k cfg env self (take m stream) st s;
      match e with
      | Some (receiving n, l) =>
          e ← run ks n (drop m stream) (conn l) (srv l);
          Ok (match e with Some (out, stream, oc, st, s) => Some (outputs l ++ out, stream, oc, st, s) | None => None end)
      | Some (oc, l) => Ok (Some (outputs l, drop m stream, oc, conn l, srv l))
      | None => Ok None
      end
  | _, _ => Ok (Some ([], stream, receiving n, st, s))
  end.

Lemma accept_all_app cs1 cs2 v b o v' : accept_all cs1 v = (true, o, v') →
  accept_all cs2 v' = b → accept_all (cs1 ++ cs2) v = (b.1.1, o ++ b.1.2, b.2).
Proof.
  revert v o v'. induction cs1 as [|c cs1 IH]; intros v o v'; cbn [accept_all app].
  - intros [= <- <-] ->. by destruct b as [[]].
  - destruct (accept c v) as [[[] o1] v1]; [|done]. destruct (accept_all cs1 v1) as [[b1 o2] v2] eqn:E. intros [= -> <- <-] Eb.
    rewrite (IH v1 o2 v2) by done. cbn. by rewrite app_assoc.
Qed.

(** What a run over a stream ends with. *)
Definition ends (cs1 cs2 : list bytes) (b : bool) (v : view) (rest : bytes) (oc : outcome) (st : t) (s : server) : Prop :=
  match oc with
  | receiving n => b = true ∧ (∃ part, waiting n st part cs2 rest) ∧ v = mk_view (bound_client_ st) (assigned_client_ st) s
  | closing => b = true ∧ take 3 its_start_tag ++ rest = stream_of cs2
  | idle => b = false ∧ v = mk_view (bound_client_ st) (assigned_client_ st) s
  end.

Lemma local_run_stream ks : ∀ n stream st s part cs, waiting n st part cs stream → Forall (command_ok cfg) cs → bytes_ok stream →
  ∃ cs1 cs2 b o o' v rest oc st' s', cs = cs1 ++ cs2 ∧ accept_all cs1 (mk_view (bound_client_ st) (assigned_client_ st) s) = (b, o, v)
  ∧ run ks n stream st s = Ok (Some (o ++ o', rest, oc, st', s')) ∧ ends cs1 cs2 b v rest oc st' s'
  ∧ o' = match oc with closing => closed_outputs (v_bound v) | _ => [] end
  ∧ ((length stream ≤ length ks)%nat → match oc with receiving _ => rest = [] | _ => True end).
Proof.
  induction ks as [|m ks IH]; intros n stream st s part cs Hw Hc Hb.
  { exists [], cs, true, [], [], (mk_view (bound_client_ st) (assigned_client_ st) s), stream, (receiving n), st, s.
    split_and!; try done; [split; [done|]; split; [by exists part|done]|]. intros Hl. apply nil_length_inv. cbn in Hl. lia. }
  destruct stream as [|x stream'].
  { exists [], cs, true, [], [], (mk_view (bound_client_ st) (assigned_client_ st) s), [], (receiving n), st, s.
    split_and!; try done. split; [done|]. split; [by exists part|done]. }
  set (stream := x :: stream') in *. cbn [run]. fold stream. set (j := S (m mod n)).
  pose proof (waiting_n _ _ _ _ _ Hw) as Hn. assert (Hj : (0 < length (take j stream) ≤ n)%nat).
  { rewrite length_take. cbn [length stream]. pose proof (Nat.mod_upper_bound m n). subst j. lia. }
  destruct (local_feed_stream n st s part cs (take j stream) (drop j stream)) as (cs1 & cs2 & b & o & v & oc & l & -> & Ea & -> & Hres);
    [by rewrite take_drop|done|done|by apply Forall_take|].
  rewrite bind_Ok. apply Forall_app in Hc as [_ Hc2]. destruct b.
  2: { destruct Hres as (-> & <- & <-). exists cs1, cs2, false, (outputs l), [], (view_of l), (drop j stream), idle, (conn l), (srv l).
       rewrite app_nil_r. by split_and!. }
  destruct Hres as [(part' & n' & -> & Hw' & Ho & Hv)|(-> & -> & E3 & Ho)].
  - destruct (IH n' (drop j stream) (conn l) (srv l) part' cs2 Hw' Hc2) as (cs3 & cs4 & b & o2 & o' & v' & rest & oc & st' & s' & -> & Ea' & -> & Hend & Ho' & Hrest);
      [by apply Forall_drop|]. rewrite bind_Ok. fold (view_of l) in Ea'. rewrite Hv in Ea'.
    exists (cs1 ++ cs3), cs4, b, (o ++ o2), o', v', rest, oc, st', s'. rewrite Ho, <- !app_assoc. split; [done|].
    split; [by rewrite (accept_all_app _ _ _ (b, o2, v') o v)|]. split; [done|]. split; [done|]. split; [done|].
    intros Hl. apply Hrest. rewrite length_drop. subst stream j. cbn in *. lia.
  - injection Ea as <- <-. exists [], cs2, true, [], (outputs l), (mk_view (bound_client_ st) (assigned_client_ st) s), (drop j stream), closing, (conn l), (srv l).
    split_and!; try done. split; [done|]. rewrite <- E3, <- app_assoc, take_drop. apply Hw.
Qed.
End stream.

(** ** Arbitrary bytes *)

Section arbitrary.
Context (k : kind) (cfg : configuration) (env : environment) (self : nat).
Context (Hendpoint : is_routing_endpoint_ cfg = false).

(** The sizes of commands are limited, with room for the tags and the header. *)
Definition limited : Prop := max_message_size_ cfg + 17 < 2 ^ 32.

Record safe (l : loop) : Prop := {
  safe_inside : inside l;
  safe_fits : fits (recv_buffer_ (conn l));
  safe_missing : missing_capacity_ (conn l) = 0;
  safe_bound : k = uds ∨ bound_client_ (conn l) ≠ VSOMEIP_CLIENT_UNSET
}.

(** After the loop. *)
Record stopped (e : bool) (l : loop) : Prop := {
  stopped_size : (recv_buffer_size_ (conn l) ≤ length (recv_buffer_ (conn l)))%nat;
  stopped_fits : fits (recv_buffer_ (conn l));
  stopped_missing : 0 ≤ missing_capacity_ (conn l) < 2 ^ 32;
  stopped_room : e = false → limited → missing_capacity_ (conn l) = 0 → (recv_buffer_size_ (conn l) < length (recv_buffer_ (conn l)))%nat
}.

Lemma shift_stopped e l m : inside l → fits (recv_buffer_ (conn l)) → 0 ≤ m < 2 ^ 32 → (e = false → limited → m ≠ 0) →
  ∃ e' l', shift e (on_conn (with_missing m) l) = Ok (last e' l') ∧ stopped e' l'.
Proof.
  intros Hin Hf Hm Hm0. destruct (local_shifted e l m Hin Hf Hm) as (l' & -> & [Es Ef Hf' Hm' Hroom _ _ _]). eexists _, l'. split; [done|].
  unfold inside in Hin. apply (f_equal length) in Ef. rewrite length_take, local_window_length in Ef by done.
  constructor; [lia|done|done|]. intros He Hlim. apply Hroom. intros ->.
  destruct e; [cbn in He; apply bool_decide_eq_false in He; lia|]. by destruct (Hm0 eq_refl Hlim).
Qed.

Lemma on_conn_id l : missing_capacity_ (conn l) = 0 → on_conn (with_missing 0) l = l.
Proof. destruct l as [g o [] s]. cbn. by intros ->. Qed.

Lemma dispatch_safe a e l : safe l → (a ≤ e)%nat → (e + 4 ≤ length (recv_buffer_ (conn l)))%nat →
  ∃ l', dispatch k cfg env self a e l = Ok (true, l') ∧ same_data l l' ∧ bound_client_ (conn l') = bound_client_ (conn l).
Proof.
  intros [Hin Hf Hm Hb] Ha He. unfold dispatch. rewrite Hendpoint, bind_Ok. cbn [andb negb orb]. unfold deliver. destruct k.
  - destruct Hb as [[=]|Hb]. apply Z.eqb_neq in Hb. destruct (remote_known env); [|rewrite bind_Ok; by eexists].
    cbn [conn emit]. rewrite Hb, bind_Ok. cbn [conn emit]. rewrite rd_ok, !bind_Ok by lia. by eexists.
  - rewrite rd_ok, !bind_Ok by lia. by eexists.
Qed.

Lemma command_size_safe its_start stop buf : bytes_ok buf → (stop ≤ length buf)%nat →
  ∃ cmd e, command_size env its_start stop buf = Ok (cmd, e) ∧ 0 ≤ cmd < 2 ^ 32 ∧ Z.of_nat its_start ≤ e.
Proof.
  intros Hb Hl. unfold command_size. destruct (decide _) as [H|H]; [|eexists _, _; split; [done|lia]].
  rewrite rd_ok, bind_Ok by sizes. eexists _, _. split; [done|]. unfold bithelper.read_uint32_le.
  set (x := take 4 _). assert (Hx : length x = 4%nat) by (subst x; rewrite length_take, length_drop; sizes).
  assert (Hbx : bytes_ok x) by (by apply Forall_take, Forall_drop). pose proof (read_le_spec (host env) x Hbx) as Hr. rewrite Hx in Hr. rewrite Hr.
  pose proof (le_val_bound x Hbx) as Hv. rewrite Hx in Hv. lia.
Qed.

(** The end tag, or less than four bytes to the end. *)
Lemma find_end_safe buf e stop : (stop ≤ length buf)%nat → 0 ≤ e →
  ∃ e', find_end buf e stop = Ok e' ∧ e ≤ e' ∧ (Z.of_nat stop ≤ e' + 3 ∨ e' + 4 ≤ Z.of_nat stop ∧ take 4 (drop (Z.to_nat e') buf) = its_end_tag).
Proof.
  intros Hl He. unfold find_end. destruct (Z.ltb_spec (e + 3) (Z.of_nat stop)) as [Hlt|Hge]; [|eexists; split; [done|lia]].
  destruct (scan_spec its_end_tag buf (stop - Z.to_nat e) (Z.to_nat e)) as (j & -> & Hj & H); [lia|]. rewrite bind_Ok.
  eexists. split; [done|]. split; [lia|]. rewrite Nat2Z.id. destruct H as [(Ht & Hb & _)|[-> _]]; [right|left]; [split; [lia|done]|lia].
Qed.

Lemma incomplete_stopped its_start cmd l : safe l → 0 ≤ cmd < 2 ^ 32 →
  (its_iteration_gap l + 4 ≤ its_start)%nat → (its_start ≤ its_iteration_gap l + Nat.max 4 (recv_buffer_size_ (conn l)))%nat →
  (limited → cmd ≤ max_message_size_ cfg ∨ cmd = 0) →
  let '(e, l') := incomplete its_start cmd l in
  (its_iteration_gap l' + recv_buffer_size_ (conn l') = if e then 0 else its_iteration_gap l + recv_buffer_size_ (conn l))%nat
  ∧ ∃ e' l'', shift e l' = Ok (last e' l'') ∧ stopped e' l''.
Proof.
  intros [Hin Hf Hm _] Hcmd H1 H2 Hlim. unfold incomplete. pose proof Hf as (Hf1 & Hf2 & _). unfold inside in Hin. unfold limited in *.
  destruct (Z.ltb_spec (Z.of_nat (recv_buffer_size_ (conn l))) (Z.of_nat (its_start - its_iteration_gap l) + cmd + Z.of_nat (COMMAND_HEADER_SIZE + TAG_SIZE))) as [Hlt|Hge].
  - split; [done|]. apply shift_stopped; [done|done|apply Z.mod_pos_bound; lia|]. intros _ Hl. specialize (Hlim Hl). unfold u32, wrap.
    rewrite Z.mod_small; [lia|]. split; [lia|]. unfold limited in Hl. sizes.
  - destruct (decide _) as [Hsm|Hbig].
    + split; [done|]. apply shift_stopped; [done|done|sizes|]. intros _ _. sizes.
    + split; [done|]. set (l0 := with_gap 0 _).
      destruct (shift_stopped true (with_gap 0 (on_conn (with_size 0) l)) 0) as (e' & l'' & E & Hst); [unfold inside; cbn; lia|done|lia|done|].
      exists e', l''. split; [|done]. rewrite <- E. f_equal.
Qed.

Lemma iteration_safe l : safe l → (0 < recv_buffer_size_ (conn l))%nat →
  ∃ s, iteration k cfg env self l = Ok s
  ∧ match s with
    | next l' => safe l' ∧ (recv_buffer_size_ (conn l') < recv_buffer_size_ (conn l))%nat
    | last e l' => stopped e l'
    | leave _ => True
    end.
Proof.
  intros Hsafe Hpos. pose proof Hsafe as [Hin (Hf1 & Hf2 & Hf3) Hm Hb]. pose proof Hin as Hin'. unfold inside in Hin'. unfold iteration.
  destruct (_ <? _); [by eexists|].
  destruct (scan_spec its_start_tag (recv_buffer_ (conn l)) (recv_buffer_size_ (conn l)) (its_iteration_gap l) Hin') as (j & -> & Hj & Hscan). rewrite bind_Ok.
  assert (Hjb : (j + 3 = recv_buffer_size_ (conn l) + its_iteration_gap l ∨ j + 4 ≤ its_iteration_gap l + Nat.max 4 (recv_buffer_size_ (conn l)))%nat)
    by (destruct Hscan as [(_ & ? & _)|[-> _]]; lia).
  destruct (decide _) as [H3|H3].
  { destruct (shift_stopped true l 0) as (e' & l' & E & Hst); [done|done|lia|done|]. rewrite on_conn_id in E by done. rewrite E. by eexists. }
  destruct (command_size_safe (j + 4) (recv_buffer_size_ (conn l) + its_iteration_gap l) (recv_buffer_ (conn l))) as (cmd & e & -> & Hcmd & He); [done|lia|].
  rewrite bind_Ok. destruct (negb (cmd =? 0) && _ && _) eqn:Emax; [by eexists|]. destruct (_ <? e); [by eexists|].
  destruct (find_end_safe (recv_buffer_ (conn l)) e (recv_buffer_size_ (conn l) + its_iteration_gap l)) as (e' & -> & He' & Hend); [lia|lia|].
  rewrite bind_Ok. destruct (_ <? e'); [by eexists|].
  destruct Hend as [Hend|[Hend Htag]].
  - rewrite (proj2 (Z.ltb_lt _ _)) by lia. rewrite bind_Ok.
    pose proof (incomplete_stopped (j + 4) cmd l Hsafe Hcmd ltac:(lia) ltac:(lia)) as Hinc.
    destruct (incomplete (j + 4) cmd l) as [ie il] eqn:Ei. destruct Hinc as (Hstop & ie' & il' & E & Hst).
    { unfold limited. intros Hl. destruct (Z.eqb_spec cmd 0); [by right|left]. cbn [negb andb] in Emax.
      destruct (Z.eqb_spec (max_message_size_ cfg) MESSAGE_SIZE_UNLIMITED) as [Eu|_]; [unfold MESSAGE_SIZE_UNLIMITED in Eu; lia|].
      cbn [negb andb] in Emax. by apply Z.ltb_ge in Emax. }
    assert (Hno : negb ie && (e' + 3 <? Z.of_nat (recv_buffer_size_ (conn il) + its_iteration_gap il)) = false).
    { destruct ie; [done|]. apply Z.ltb_ge. lia. }
    rewrite Hno, E. by eexists.
  - rewrite (proj2 (Z.ltb_ge _ _)) by lia. rewrite tag_at_ok, bind_Ok by lia. rewrite bool_decide_true by done. cbn [negb andb].
    rewrite (proj2 (Z.ltb_lt _ _)) by lia.
    destruct (dispatch_safe (j + 4) (Z.to_nat e') l) as (l' & -> & (Hg & Hbu & Hs & Hmi) & Hbo); [done|lia|lia|]. rewrite bind_Ok.
    eexists. split; [done|]. destruct (shrink_same cfg (conn l')) as (Eb & Es & Em & Est & Ebo & _).
    split; [|cbn; rewrite Hs, Hg; lia]. constructor; cbn; [unfold inside; cbn; rewrite Eb, Hbu, Hs, Hg; lia|by rewrite Eb, Hbu|done|by rewrite Ebo, Hbo].
Qed.

Lemma loop_safe fuel : ∀ l, safe l → (0 < recv_buffer_size_ (conn l) < fuel)%nat →
  ∃ res l', receive_loop k cfg env self fuel l = Ok (Some (res, l')) ∧ match res with Some e => stopped e l' | None => True end.
Proof.
  induction fuel as [|fuel IH]; intros l Hl Hs; [lia|]. cbn [receive_loop]. destruct (iteration_safe l Hl) as (s & -> & H); [lia|]. rewrite bind_Ok.
  destruct s as [l'|e l'|l']; [|by eexists _, _|by eexists _, _]. destruct H as [Hl' Hlt]. destruct (decide _) as [Hp|Hz].
  - destruct (IH l' Hl') as (res & l2 & -> & H); [lia|]. by eexists _, _.
  - eexists _, _. split; [done|]. pose proof Hl' as [Hin Hf Hm _]. pose proof Hf as (Hf1 & _). unfold inside in Hin.
    constructor; [lia|done|lia|]. intros _ _ _. sizes.
Qed.

(** The pending read of at most [n] bytes fits behind the buffered ones. *)
Definition ready (n : nat) (st : t) : Prop :=
  (recv_buffer_size_ st + n ≤ length (recv_buffer_ st))%nat ∧ fits (recv_buffer_ st) ∧ missing_capacity_ st = 0.

Context (Hlarge : ∀ n, alloc env n = true → Z.of_nat n ≤ 2 ^ 62).

Lemma finish_safe e l : stopped e l → ∃ oc l', finish cfg env e l = (oc, l')
  ∧ match oc with receiving n => ready n (conn l') ∧ (limited → (0 < n)%nat) | _ => True end.
Proof.
  intros [Hs Hf Hm Hroom]. pose proof Hf as (Hf1 & Hf2 & Hf3). unfold finish. destruct (is_stopped_ (conn l)); cbn [orb]; [by eexists _, _|].
  destruct e; [by eexists _, _|]. specialize (Hroom eq_refl). unfold start. rewrite decide_False by lia.
  destruct (Z.eqb_spec (missing_capacity_ (conn l)) 0) as [E0|E0]; cbn [negb].
  - destruct (negb _ && _ && _) eqn:Esh; (eexists _, _; split; [done|]).
    + apply andb_true_iff in Esh as [_ Esh]. apply bool_decide_eq_true in Esh. split; [|intros _; sizes]. unfold ready, fits. fields. rewrite Esh, resized_length.
      split_and!; [sizes|sizes|sizes|by apply resized_ok|done].
    + split; [|intros Hl; specialize (Hroom Hl E0); lia]. unfold ready. fields. split; [lia|]. done.
  - destruct (_ <? _); [by eexists _, _|]. destruct (decide _) as [Hg|Hg].
    + destruct (alloc env _) eqn:Ea; [|by eexists _, _]. apply Hlarge in Ea. eexists _, _. split; [done|]. split; [|intros _; lia].
      unfold ready. fields. rewrite resized_length. split; [lia|]. split; [apply fits_resize; [done|lia|lia]|done].
    + eexists _, _. split; [done|]. split; [|intros _; lia]. unfold ready. fields. split; [lia|done].
Qed.
End arbitrary.

(** ** Properties *)

Definition fresh (cfg : configuration) (env : environment) (s : server) : t := conn (start cfg env (mk_loop 0 [] (create cfg) s)).2.

Lemma fresh_state cfg env s : start cfg env (mk_loop 0 [] (create cfg) s) = (receiving recv_buffer_size_initial_, mk_loop 0 [] (fresh cfg env s) s)
  ∧ bound_client_ (fresh cfg env s) = VSOMEIP_CLIENT_UNSET
  ∧ assigned_client_ (fresh cfg env s) = is_routing_endpoint_ cfg && negb (is_security_enabled cfg).
Proof.
  unfold fresh, start. cbn [conn create]. rewrite decide_False by (cbn; lia). cbn [missing_capacity_ create]. rewrite Z.eqb_refl. cbn [negb].
  destruct (negb _ && _ && _); by cbn.
Qed.

Lemma commands_bytes cfg cs : Forall (command_ok cfg) cs → bytes_ok (stream_of cs).
Proof.
  induction 1 as [|c cs (Hb & _) _ IH]; [by constructor|]. rewrite stream_cons. unfold send_queued.
  repeat apply Forall_app_2; [by_eval|done|by_eval|done].
Qed.

Lemma fresh_waiting cfg env s cs : waiting recv_buffer_size_initial_ (fresh cfg env s) [] cs (stream_of cs).
Proof.
  destruct (fresh_state cfg env s) as (E & _). unfold fresh in *. rewrite E. revert E. unfold start. cbn [conn create].
  rewrite decide_False by (cbn; lia). cbn [missing_capacity_ create]. rewrite Z.eqb_refl. cbn [negb].
  assert (Hf : fits (replicate recv_buffer_size_initial_ 0)) by (unfold fits; cbn; split_and!; [sizes|lia|by_eval]).
  destruct (negb _ && _ && _); intros _; constructor; cbn [fst snd conn]; try done; try (cbn; sizes); by left.
Qed.

Lemma nothing_begun cfg part cs : Forall (command_ok cfg) cs → begins part cs → part = stream_of cs → cs = [].
Proof.
  intros Hc Hb ->. destruct cs as [|c cs]; [done|]. destruct Hb as [E|(c' & cs' & E & Hl)].
  - apply (f_equal length) in E. rewrite stream_cons, length_app, framed_length in E. cbn in E. lia.
  - injection E as <- <-. rewrite stream_cons, length_app in Hl. lia.
Qed.

(** (C20) Commands over a local socket.  Cut a stream of commands, each between its
    tags, into reads of any sizes: the connection refines the machine [accept],
    which sees one command at a time and no buffers.  The commands are handled once each and
    in order; the beginning of the next one waits in the buffer, at least one byte
    is asked for, and enough reads handle everything.  There are two ends: a
    command that [accept] refuses stops the connection, and the connection is
    closed as garbage when exactly the first three bytes of a start tag are there
    after a read that completed no command. *)
Theorem local_stream_refines (k : kind) (cfg : configuration) (env : environment) (self : nat) (s : server) (cs : list bytes) (ks : list nat)
    (Hhost : host env = le) (Hrouting : routing_host env = true) (Halloc : ∀ n, Z.of_nat n ≤ 2 ^ 33 → alloc env n = true)
    (Hcommands : Forall (command_ok cfg) cs) :
  ∃ cs1 cs2 b o o' v rest oc st' s',
    cs = cs1 ++ cs2
  ∧ accept_all k cfg env self cs1 (mk_view VSOMEIP_CLIENT_UNSET (is_routing_endpoint_ cfg && negb (is_security_enabled cfg)) s) = (b, o, v)
  ∧ run k cfg env self ks recv_buffer_size_initial_ (stream_of cs) (fresh cfg env s) s = Ok (Some (o ++ o', rest, oc, st', s'))
  ∧ match oc with
    | receiving n =>
        b = true ∧ o' = [] ∧ v = mk_view (bound_client_ st') (assigned_client_ st') s' ∧ (0 < n)%nat
        ∧ (∃ part, part ++ rest = stream_of cs2 ∧ begins part cs2 ∧ take (recv_buffer_size_ st') (recv_buffer_ st') = part)
        ∧ ((length (stream_of cs) ≤ length ks)%nat → cs2 = [])
    | closing => b = true ∧ take 3 its_start_tag ++ rest = stream_of cs2
    | idle => b = false ∧ o' = [] ∧ v = mk_view (bound_client_ st') (assigned_client_ st') s'
    end.
Proof.
  destruct (fresh_state cfg env s) as (_ & Hb & Ha).
  destruct (local_run_stream k cfg env self Hhost Hrouting Halloc ks recv_buffer_size_initial_ (stream_of cs) (fresh cfg env s) s [] cs)
    as (cs1 & cs2 & b & o & o' & v & rest & oc & st' & s' & -> & Ea & E & Hend & Ho' & Hrest);
    [apply fresh_waiting|done|by eapply commands_bytes|].
  rewrite Hb, Ha in Ea. exists cs1, cs2, b, o, o', v, rest, oc, st', s'. split; [done|]. split; [done|]. split; [done|].
  destruct oc as [n| |]; [|done|by destruct Hend].
  destruct Hend as (-> & (part & Hw) & ->). pose proof Hw as [Hn _ Hs Hfr Hd Hbg _ _ _]. split; [done|]. split; [done|]. split; [done|]. split; [done|].
  split; [exists part; by rewrite Hs|]. intros Hl. rewrite (Hrest Hl), app_nil_r in Hd. apply Forall_app in Hcommands as [_ Hc2].
  by apply (nothing_begun cfg part cs2).
Qed.

(** ** The assignment of an identifier from end to end *)

Definition assign_request (name : bytes) (client : Z) : bytes :=
  header_bytes le (command.mk id_e.ASSIGN_CLIENT_ID 0 client (Z.of_nat (length name))) ++ name.

Lemma assign_request_serialized name client : Z.of_nat (length name) < 256 →
  assign_client_command.serialize le (assign_client_command.mk (command.set_client client (command.create id_e.ASSIGN_CLIENT_ID)) name) []
  = Ok (ERROR_OK, assign_request name client, assign_client_command.mk (command.mk id_e.ASSIGN_CLIENT_ID 0 client (Z.of_nat (length name))) name).
Proof.
  intros Hl. unfold assign_client_command.serialize, COMMAND_HEADER_SIZE. cbn [assign_client_command.name_ assign_client_command.head].
  rewrite (ProtocolFacts.start_ok le (length name) _ _ _ name); [done|done|unfold MAX_COMMAND_SIZE; lia|].
  intros d r Hr. rewrite put_bytes_at by lia. by rewrite drop_ge by lia.
Qed.

Lemma assign_request_length name client : length (assign_request name client) = (9 + length name)%nat.
Proof. unfold assign_request. by rewrite length_app, command_bytes_length. Qed.

Lemma assign_request_ok cfg name client : bytes_ok name → is_u16 client → Z.of_nat (length name) < 256 →
  max_message_size_ cfg = MESSAGE_SIZE_UNLIMITED ∨ 256 ≤ max_message_size_ cfg → command_ok cfg (assign_request name client).
Proof.
  intros Hb Hc Hl Hmax. unfold command_ok. rewrite framed_length, assign_request_length. change COMMAND_HEADER_SIZE with 9%nat. 
  replace (9 + length name - 9)%nat with (length name) by lia.
  assert (Hd : assign_request name client = [0; 0; 0] ++ le_bytes 2 client ++ le_bytes 4 (Z.of_nat (length name)) ++ name).
  { unfold assign_request, header_bytes. rewrite <- !app_assoc. done. }
  split_and!; [|lia|lia| |destruct Hmax; [by left|right; lia]|].
  - rewrite Hd. repeat apply Forall_app_2; [by_eval|apply le_bytes_ok|apply le_bytes_ok|done].
  - rewrite Hd. change (take 4 (drop COMMAND_POSITION_SIZE _)) with (le_bytes 4 (Z.of_nat (length name))). rewrite le_val_bytes. apply Z.mod_small. lia.
  - intros i Hi E. rewrite Hd in E. cbn [le_bytes app] in E.
    assert (Hs1 : Z.of_nat (length name) / 256 = 0) by (apply Z.div_small; lia).
    do 5 (destruct i as [|i]; [cbn [drop firstn take] in E; rewrite ?Hs1 in E; discriminate|]). lia.
Qed.

Lemma assign_request_fields name client : is_u16 client → (0 < length name)%nat →
  client_of (assign_request name client) = client ∧ name_of (assign_request name client) = take (length name - 1) name
  ∧ assign_request name client !! 0%nat = Some id_e.ASSIGN_CLIENT_ID.
Proof.
  intros Hc Hl. unfold client_of, name_of. rewrite assign_request_length. change COMMAND_HEADER_SIZE with 9%nat.
  replace (9 + length name - 9 - 1)%nat with (length name - 1)%nat by lia. split; [|split; [|done]].
  - change (take 2 (drop COMMAND_POSITION_CLIENT (assign_request name client))) with (le_bytes 2 client). rewrite le_val_bytes. by apply Z.mod_small.
  - unfold assign_request. by rewrite drop_app_length' by (by rewrite command_bytes_length).
Qed.

Lemma ack_received client : is_u16 client → client_receive_cbk VSOMEIP_LOCAL_CLIENT_ENDPOINT_RECV_BUFFER_SIZE (send_queued (ack client)) = Ok (Some (ack client))
  ∧ ∃ h, assign_client_ack_command.deserialize le (one_field.mk (command.create id_e.ASSIGN_CLIENT_ACK_ID) 0) (ack client) = Ok (ERROR_OK, one_field.mk h client).
Proof.
  intros Hc. split; [reflexivity|]. eexists.
  apply (one_field_roundtrip le 2 (one_field.mk (command.create id_e.ASSIGN_CLIENT_ACK_ID) client) (one_field.mk (command.create id_e.ASSIGN_CLIENT_ACK_ID) 0) []);
    [by_eval|done|unfold ProtocolFacts.fits, MAX_COMMAND_SIZE; lia|done].
Qed.

(** An application gets its identifier.  The request that a client serializes is
    read by the routing manager in pieces of any size; the identifier that the
    table of identifiers yields for the name, less its last character, is
    registered for the connection and written back, and the client reads exactly
    this identifier from the acknowledgement.  Only a first read of three bytes ends the
    connection instead. *)
Theorem local_client_assigned (k : kind) (cfg : configuration) (env : environment) (self : nat) (s : server)
    (name : bytes) (client id : Z) (d : gmap bytes client_ids.data_t) (ks : list nat)
    (Hhost : host env = le) (Hrouting : routing_host env = true) (Halloc : ∀ n, Z.of_nat n ≤ 2 ^ 33 → alloc env n = true)
    (Hendpoint : is_routing_endpoint_ cfg = true) (Hmax : max_message_size_ cfg = MESSAGE_SIZE_UNLIMITED ∨ 256 ≤ max_message_size_ cfg)
    (Hname : bytes_ok name) (Hlength : (0 < length name < 256)%nat) (Hclient : is_u16 client)
    (Hrequest : client_ids.request_client_id (identifiers cfg) (take (length name - 1) name) client (data__ s) = (id, d))
    (Hnew : connections_ s !! id = None)
    (Hpolicy : k = uds → is_security_enabled cfg = true → check_credentials env id = true)
    (Hreads : (length name + 17 ≤ length ks)%nat) :
  ∃ c h out rest oc st' s',
    assign_client_command.serialize le (assign_client_command.mk (command.set_client client (command.create id_e.ASSIGN_CLIENT_ID)) name) []
      = Ok (ERROR_OK, c, h)
  ∧ run k cfg env self ks recv_buffer_size_initial_ (send_queued c) (fresh cfg env s) s = Ok (Some (out, rest, oc, st', s'))
  ∧ ((oc = closing ∧ rest = drop 3 (send_queued c))
     ∨ ∃ n frame a ha, oc = receiving n ∧ rest = []
       ∧ out = [add_known_client id; written self frame]
       ∧ bound_client_ st' = id ∧ assigned_client_ st' = true ∧ s' = mk_server (<[id := self]> (connections_ s)) d
       ∧ client_receive_cbk VSOMEIP_LOCAL_CLIENT_ENDPOINT_RECV_BUFFER_SIZE frame = Ok (Some a)
       ∧ assign_client_ack_command.deserialize le (one_field.mk (command.create id_e.ASSIGN_CLIENT_ACK_ID) 0) a = Ok (ERROR_OK, one_field.mk ha id)).
Proof.
  set (c := assign_request name client). pose proof (assign_request_serialized name client ltac:(lia)) as Eser.
  pose proof (assign_request_ok cfg name client Hname Hclient ltac:(lia) Hmax) as Hc.
  destruct (assign_request_fields name client Hclient ltac:(lia)) as (Ecl & Ena & E0). fold c in Eser, Hc, Ecl, Ena, E0.
  assert (Hw : is_u16 id).
  { pose proof (request_width (identifiers cfg) (take (length name - 1) name) client (data__ s) Hclient) as H. by rewrite Hrequest in H. }
  set (v0 := mk_view VSOMEIP_CLIENT_UNSET (is_routing_endpoint_ cfg && negb (is_security_enabled cfg)) s).
  assert (Eacc : accept k cfg env self c v0 = (true, [add_known_client id; written self (send_queued (ack id))],
                   mk_view id true (mk_server (<[id := self]> (connections_ s)) d))).
  { unfold accept. rewrite Hendpoint, E0, bool_decide_true by done. cbn [andb]. unfold accept_assign. cbn [v_server v0].
    rewrite Ecl, Ena, Hrequest. cbn [connections_]. rewrite Hnew.
    destruct k; [done|]. destruct (is_security_enabled cfg) eqn:Es; [|done]. by rewrite Hpolicy. }
  destruct (fresh_state cfg env s) as (_ & Hb & Ha).
  destruct (local_run_stream k cfg env self Hhost Hrouting Halloc ks recv_buffer_size_initial_ (send_queued c ++ []) (fresh cfg env s) s [] [c])
    as (cs1 & cs2 & b & o & o' & v & rest & oc & st' & s' & Ecs & Ea & E & Hend & Ho' & Hrest);
    [apply fresh_waiting|by constructor|apply (commands_bytes cfg [c]); by constructor|].
  rewrite app_nil_r in E, Hrest. rewrite Hb, Ha in Ea. fold v0 in Ea.
  exists c, (assign_client_command.mk (command.mk id_e.ASSIGN_CLIENT_ID 0 client (Z.of_nat (length name))) name), (o ++ o'), rest, oc, st', s'.
  split; [done|]. split; [done|]. destruct cs1 as [|c1 cs1].
  - cbn [accept_all app] in Ea, Ecs. subst cs2. injection Ea as <- <- <-. destruct oc as [n| |]; [exfalso| |by destruct Hend].
    + destruct Hend as (_ & (part & Hw2) & _). pose proof Hw2 as [_ _ _ _ Hd Hbg _ _ _].
      rewrite Hrest, app_nil_r in Hd by (rewrite framed_length; unfold c; rewrite assign_request_length; lia).
      assert ([c] = []) by (by apply (nothing_begun cfg part [c]); [constructor|..]). done.
    + left. split; [done|]. destruct Hend as (_ & Hd). rewrite <- (app_nil_r (send_queued c)). change (send_queued c ++ []) with (stream_of [c]).
      by rewrite <- Hd.
  - injection Ecs as -> Ecs. symmetry in Ecs. apply app_eq_nil in Ecs as [-> ->]. cbn [accept_all] in Ea. rewrite Eacc in Ea. injection Ea as <- <- <-.
    destruct (ack_received id Hw) as (Hrecv & ha & Hde). destruct oc as [n| |]; [right| |by destruct Hend].
    + destruct Hend as (_ & (part & Hw2) & Ev). pose proof Hw2 as [_ _ _ _ Hd Hbg _ _ _]. apply app_eq_nil in Hd as [_ ->]. subst o'.
      injection Ev as Ev1 Ev2 Ev3. eexists n, _, _, ha. by split_and!.
    + destruct Hend as (_ & Hd). apply (f_equal length) in Hd. cbn in Hd. lia.
Qed.

(** Arbitrary bytes on a local socket.  On an endpoint that does not assign
    identifiers, a read of any bytes is handled without touching memory outside
    the buffer and the receive loop ends; the next read, if there is one, fits
    behind the buffered bytes, and asks for at least one byte if the size of a
    command is limited. *)
Theorem local_receive_safe (k : kind) (cfg : configuration) (env : environment) (self n : nat) (st : t) (s : server) (chunk : bytes)
    (Hendpoint : is_routing_endpoint_ cfg = false) (Hbound : k = uds ∨ bound_client_ st ≠ VSOMEIP_CLIENT_UNSET)
    (Hlarge : ∀ n, alloc env n = true → Z.of_nat n ≤ 2 ^ 62) (Hrouting : routing_host env = true)
    (Hready : ready n st) (Hchunk : (0 < length chunk ≤ n)%nat) (Hbytes : bytes_ok chunk) :
  ∃ oc l', feed k cfg env self chunk st s = Ok (Some (oc, l'))
  ∧ match oc with
    | receiving n' => ready n' (conn l') ∧ (max_message_size_ cfg + 17 < 2 ^ 32 → (0 < n')%nat)
    | _ => True
    end.
Proof.
  destruct Hready as (Hroom & (Hf1 & Hf2 & Hf3) & Hm). unfold feed. rewrite wr_ok, bind_Ok by lia.
  set (buf := take _ _ ++ _). assert (Hlb : length buf = length (recv_buffer_ st)) by (subst buf; len).
  unfold receive_cbk. rewrite Hrouting. cbn [negb]. rewrite decide_True by lia. unfold on_data. cbn [conn with_buffer recv_buffer_size_].
  destruct (_ <? _); [by eexists _, _|]. set (l0 := on_conn _ _).
  assert (Hsafe : safe k l0).
  { constructor; [unfold inside; cbn; lia| |done|done]. change (fits buf). unfold fits. rewrite Hlb. split_and!; [done|done|].
    repeat apply Forall_app_2; auto using Forall_take, Forall_drop. }
  destruct (loop_safe k cfg env self Hendpoint (S (recv_buffer_size_ st + length chunk)) l0 Hsafe) as (res & l' & -> & H); [cbn; lia|].
  rewrite bind_Ok. destruct res as [e|]; [|by eexists _, _].
  destruct (finish_safe cfg env Hlarge e l' H) as (oc & l2 & -> & Hoc). by eexists _, _.
Qed.

(** ** Examples *)

Definition example_local (routing : bool) (max : Z) : configuration :=
  mk_configuration max 5 routing false (client_ids.mk_configuration [0x76] 0xFF00 0x12 (λ _, false)).
Definition example_host : environment := mk_environment le (λ n, Z.of_nat n <=? 2 ^ 33) true true (λ _, true).
Definition example_server : server := mk_server ∅ {[ [0x76] := client_ids.create ]}.
(** A ping of the client [0x1205]. *)
Definition example_ping : bytes := [0x14; 0; 0; 0x05; 0x12; 0; 0; 0; 0].

Lemma example_alloc n : Z.of_nat n ≤ 2 ^ 33 → alloc example_host n = true.
Proof. intros H. by apply Z.leb_le. Qed.

Lemma example_ping_ok : command_ok (example_local false MESSAGE_SIZE_UNLIMITED) example_ping.
Proof.
  unfold command_ok. split; [by_eval|]. split; [cbn; sizes|]. split; [cbn; lia|]. split; [done|]. split; [by left|].
  intros i Hi. do 5 (destruct i as [|i]; [done|]). lia.
Qed.

Lemma local_stream_refines_witness :
  ∃ cs1 cs2 out rest oc st' s', [example_ping; example_ping] = cs1 ++ cs2
  ∧ run uds (example_local false MESSAGE_SIZE_UNLIMITED) example_host 1 [6%nat; 20%nat; 40%nat] 21
      (stream_of [example_ping; example_ping]) (fresh (example_local false MESSAGE_SIZE_UNLIMITED) example_host example_server) example_server
    = Ok (Some (out, rest, oc, st', s')).
Proof.
  destruct (local_stream_refines uds (example_local false MESSAGE_SIZE_UNLIMITED) example_host 1 example_server [example_ping; example_ping] [6%nat; 20%nat; 40%nat])
    as (cs1 & cs2 & b & o & o' & v & rest & oc & st' & s' & E1 & _ & E2 & _).
  - reflexivity.
  - reflexivity.
  - exact example_alloc.
  - do 2 (constructor; [apply example_ping_ok|]). constructor.
  - exists cs1, cs2, (o ++ o'), rest, oc, st', s'. split; [exact E1|exact E2].
Defined.

Lemma local_client_assigned_witness :
  ∃ c h out rest oc st' s',
    assign_client_command.serialize le (assign_client_command.mk (command.set_client VSOMEIP_CLIENT_UNSET (command.create id_e.ASSIGN_CLIENT_ID)) [0x61; 0x62]) []
      = Ok (ERROR_OK, c, h)
  ∧ run tcp (example_local true MESSAGE_SIZE_UNLIMITED) example_host 7 (replicate 19 4%nat) 21 (send_queued c)
      (fresh (example_local true MESSAGE_SIZE_UNLIMITED) example_host example_server) example_server = Ok (Some (out, rest, oc, st', s')).
Proof.
  destruct (local_client_assigned tcp (example_local true MESSAGE_SIZE_UNLIMITED) example_host 7 example_server [0x61; 0x62] VSOMEIP_CLIENT_UNSET 0x1201
    {[ [0x76] := client_ids.mk 0x1201 {[ 0x1201 := [0x61] ]} ]} (replicate 19 4%nat))
    as (c & h & out & rest & oc & st' & s' & E1 & E2 & _).
  - reflexivity.
  - reflexivity.
  - exact example_alloc.
  - reflexivity.
  - left. reflexivity.
  - by_eval.
  - cbn. lia.
  - by_eval.
  - vm_compute. reflexivity.
  - reflexivity.
  - discriminate.
  - cbn. lia.
  - exists c, h, out, rest, oc, st', s'. split; [exact E1|exact E2].
Defined.

Lemma fresh_ready cfg env s : ready recv_buffer_size_initial_ (fresh cfg env s).
Proof. destruct (fresh_waiting cfg env s []) as [_ Hr _ _ _ _ Hf Hm _]. by unfold ready. Qed.

Lemma local_receive_safe_witness :
  ∃ oc l', feed uds (example_local false 1000) example_host 1 [0x67; 0x37; 0xFF; 0xFF] (fresh (example_local false 1000) example_host example_server) example_server
    = Ok (Some (oc, l'))
  ∧ match oc with receiving n' => ready n' (conn l') ∧ (1000 + 17 < 2 ^ 32 → (0 < n')%nat) | _ => True end.
Proof.
  apply (local_receive_safe uds (example_local false 1000) example_host 1 21 (fresh (example_local false 1000) example_host example_server) example_server).
  - reflexivity.
  - left. reflexivity.
  - intros n H. apply Z.leb_le in H. lia.
  - reflexivity.
  - apply fresh_ready.
  - cbn. lia.
  - by_eval.
Defined.

(** A start tag that arrives in pieces: after a first read of three bytes the
    connection is closed, with two or four it goes on. *)
Example three_bytes_are_garbage :
  let read n := match feed tcp (example_local false 1000) example_host 1 (take n (send_queued example_ping))
                      (fresh (example_local false 1000) example_host example_server) example_server with
                | Ok (Some (oc, _)) => Some oc | _ => None end in
  read 2%nat = Some (receiving 15) ∧ read 3%nat = Some closing ∧ read 4%nat = Some (receiving 13).
Proof. vm_compute. split; [reflexivity|]. split; reflexivity. Qed.

(** A command whose size wraps around the missing capacity: the next read asks for
    nothing and so ends at once, again and again. *)
Example read_of_nothing :
  match feed uds (example_local false MESSAGE_SIZE_UNLIMITED) example_host 1
          ([0; 0; 0; 0; 0] ++ its_start_tag ++ [0; 0; 0; 0; 0; 0xFF; 0xFF; 0xFF; 0xFF; 0; 0; 0])
          (fresh (example_local false MESSAGE_SIZE_UNLIMITED) example_host example_server) example_server with
  | Ok (Some (receiving n, _)) => n = 0%nat
  | _ => False
  end.
Proof. vm_compute. reflexivity. Qed.

(** A command that is too large: the connection is neither closed nor read again. *)
Example large_command_is_idle :
  match feed uds (example_local false 100) example_host 1 (its_start_tag ++ [0x14; 0; 0; 5; 0x12; 101; 0; 0; 0])
          (fresh (example_local false 100) example_host example_server) example_server with
  | Ok (Some (idle, l)) => is_stopped_ (conn l) = false
  | _ => False
  end.
Proof. vm_compute. reflexivity. Qed.

(** An empty command at the end of the buffer, from a client that is not known
    yet: the identifier of the client is read behind the buffer. *)
Example unbound_client_overread :
  feed tcp (example_local false 1000) example_host 1 (replicate 13 0 ++ its_start_tag ++ its_end_tag)
    (fresh (example_local false 1000) example_host example_server) example_server = Ub oob_read.
Proof. vm_compute. reflexivity. Qed.

(** A request for an identifier of size one without a name ends the routing
    manager. *)
Example assign_without_name :
  feed uds (example_local true 1000) example_host 1 (its_start_tag ++ [0; 0; 0; 0xFF; 0xFF; 1; 0; 0; 0] ++ its_end_tag)
    (fresh (example_local true 1000) example_host example_server) example_server = Ub oob_read.
Proof. vm_compute. reflexivity. Qed.

(** Names that differ in their last character: the second application is given the
    identifier of the first one. *)
Example names_confused :
  let first := client_ids.request_client_id (identifiers (example_local true 1000)) (name_of (assign_request [0x61; 0x31] 0x1234)) 0x1234 (data__ example_server) in
  let second := client_ids.request_client_id (identifiers (example_local true 1000)) (name_of (assign_request [0x61; 0x32] 0x1234)) 0x1234 first.2 in
  first.1 = 0x1234 ∧ second.1 = 0x1234.
Proof. vm_compute. split; reflexivity. Qed.
