(* ===== verification/ClientEndpoint.v ===== *)
(** * Sending of client endpoints ([endpoints/src/client_endpoint_impl.cpp],
    [endpoints/include/buffer.hpp])

    A client endpoint collects messages in trains (nPDUs): a message waits at most
    its retention time for others, a train carries at most one message of each
    method, and trains whose departure is fixed wait in a map ordered by time.  A
    timer ([dispatch_timer_]) hands the next train to the queue of buffers, of which
    one at a time is written to the socket.

    Times are integers of nanoseconds; a handler reads the clock once ([now]).  The
    sums of times are taken not to overflow 64 bits.  Trains are values: the code
    shares a train only until it puts a new one in its place, and the buffer of a
    train that departed is replaced before the train is used again.  Outputs are
    the calls into the socket, the timers of the connection and the endpoint host,
    in order.  What depends on the protocol ([get_configured_times_from_endpoint],
    the configuration of the segmentation, the number of reconnects) is in the
    configuration.  What is dispatched to the strand of the endpoint happens at the
    end of the handler. *)

From stdpp Require Import base list gmap.
From Stdlib Require Import ZArith Lia.
From S2P Require Import Prelude BitHelper Message Tp TcpStream.

Definition QUEUE_SIZE_UNLIMITED : Z := 0xFFFFFFFF.
Definition MAX_RECONNECTS_UNLIMITED : Z := 0xFFFFFFFF.
Definition VSOMEIP_DEFAULT_CONNECT_TIMEOUT : Z := 100.
Definition VSOMEIP_MAX_CONNECT_TIMEOUT : Z := 1600.
Definition DEFAULT_NANOSECONDS_MAX : Z := 2 ^ 63 - 1.
Definition six_hours : Z := 6 * 3600 * 1000000000.

Module client_endpoint.

Record train : Type := mk_train {
  buffer_ : bytes;
  passengers_ : gset (Z * Z);
  minimal_debounce_time_ : Z;
  minimal_max_retention_time_ : Z;
  departure_ : Z
}.

(** The constructor; [reset] leaves the same train. *)
Definition new_train (now : Z) : train := mk_train [] ∅ DEFAULT_NANOSECONDS_MAX DEFAULT_NANOSECONDS_MAX (now + six_hours).
Definition reset (now : Z) (tr : train) : train := new_train now.

Definition with_departure (d : Z) (tr : train) : train :=
  mk_train (buffer_ tr) (passengers_ tr) (minimal_debounce_time_ tr) (minimal_max_retention_time_ tr) d.

Inductive cei_state_e : Set := CLOSED | CONNECTING | CONNECTED | ESTABLISHED.

Record configuration : Type := mk_configuration {
  max_message_size_ : Z;
  queue_limit_ : Z;
  (** debouncing and retention of a service and a method *)
  get_configured_times : Z → Z → Z * Z;
  (** segment length and separation time, where messages are segmented *)
  get_tp_configuration : Z → Z → option (nat * Z);
  get_max_allowed_reconnects : Z
}.

Record t : Type := mk {
  train_ : train;
  dispatched_trains_ : list (Z * (train * list train));
  dispatch_timer_ : option Z;
  last_departure_ : option Z;
  queue_ : list (bytes * Z);
  queue_size_ : Z;
  is_sending_ : bool;
  sending_blocked_ : bool;
  was_not_connected_ : bool;
  state_ : cei_state_e;
  reconnect_counter_ : Z;
  connect_timeout_ : Z
}.

Definition create (now : Z) : t :=
  mk (new_train now) [] None None [] 0 false false false CLOSED 0 VSOMEIP_DEFAULT_CONNECT_TIMEOUT.

Inductive output : Type :=
| send_queued (entry : bytes * Z)
| connect
| start_connect_timer (timeout : Z)
| max_allowed_reconnects_reached
| shutdown_and_close_socket (recreate : bool)
| on_connect
| on_disconnect
| receive.

Definition with_train x st := mk x (dispatched_trains_ st) (dispatch_timer_ st) (last_departure_ st) (queue_ st) (queue_size_ st) (is_sending_ st) (sending_blocked_ st) (was_not_connected_ st) (state_ st) (reconnect_counter_ st) (connect_timeout_ st).
Definition with_dispatched x st := mk (train_ st) x (dispatch_timer_ st) (last_departure_ st) (queue_ st) (queue_size_ st) (is_sending_ st) (sending_blocked_ st) (was_not_connected_ st) (state_ st) (reconnect_counter_ st) (connect_timeout_ st).
Definition with_timer x st := mk (train_ st) (dispatched_trains_ st) x (last_departure_ st) (queue_ st) (queue_size_ st) (is_sending_ st) (sending_blocked_ st) (was_not_connected_ st) (state_ st) (reconnect_counter_ st) (connect_timeout_ st).
Definition with_last x st := mk (train_ st) (dispatched_trains_ st) (dispatch_timer_ st) x (queue_ st) (queue_size_ st) (is_sending_ st) (sending_blocked_ st) (was_not_connected_ st) (state_ st) (reconnect_counter_ st) (connect_timeout_ st).
Definition with_queue q n st := mk (train_ st) (dispatched_trains_ st) (dispatch_timer_ st) (last_departure_ st) q n (is_sending_ st) (sending_blocked_ st) (was_not_connected_ st) (state_ st) (reconnect_counter_ st) (connect_timeout_ st).
Definition with_sending x st := mk (train_ st) (dispatched_trains_ st) (dispatch_timer_ st) (last_departure_ st) (queue_ st) (queue_size_ st) x (sending_blocked_ st) (was_not_connected_ st) (state_ st) (reconnect_counter_ st) (connect_timeout_ st).
Definition with_blocked x st := mk (train_ st) (dispatched_trains_ st) (dispatch_timer_ st) (last_departure_ st) (queue_ st) (queue_size_ st) (is_sending_ st) x (was_not_connected_ st) (state_ st) (reconnect_counter_ st) (connect_timeout_ st).
Definition with_not_connected x st := mk (train_ st) (dispatched_trains_ st) (dispatch_timer_ st) (last_departure_ st) (queue_ st) (queue_size_ st) (is_sending_ st) (sending_blocked_ st) x (state_ st) (reconnect_counter_ st) (connect_timeout_ st).
Definition with_state x st := mk (train_ st) (dispatched_trains_ st) (dispatch_timer_ st) (last_departure_ st) (queue_ st) (queue_size_ st) (is_sending_ st) (sending_blocked_ st) (was_not_connected_ st) x (reconnect_counter_ st) (connect_timeout_ st).
Definition with_reconnect n c st := mk (train_ st) (dispatched_trains_ st) (dispatch_timer_ st) (last_departure_ st) (queue_ st) (queue_size_ st) (is_sending_ st) (sending_blocked_ st) (was_not_connected_ st) (state_ st) n c.

(** ** The ordered map of trains *)

(** [dispatched_trains_[d].push_back(tr)]; an entry is erased with its last train,
    so that it always has a first one. *)
Fixpoint push_train (d : Z) (tr : train) (m : list (Z * (train * list train))) : list (Z * (train * list train)) :=
  match m with
  | [] => [(d, (tr, []))]
  | (d', (tr', trs)) :: m' =>
      if d <? d' then (d, (tr, [])) :: m
      else if d =? d' then (d', (tr', trs ++ [tr])) :: m'
      else (d', (tr', trs)) :: push_train d tr m'
  end.

(** The first entry without its first train. *)
Definition pop_front (d : Z) (trs : list train) (m : list (Z * (train * list train))) : list (Z * (train * list train)) :=
  match trs with [] => m | tr :: trs => (d, (tr, trs)) :: m end.

Section sending.
Context (host : endianess_e) (cfg : configuration).

(** ** The queue *)

Definition get_front (st : t) : option (bytes * Z) := head (queue_ st).

(** The next buffer is written if no other one is. *)
Definition kick (st : t) : list output * t :=
  if negb (is_sending_ st) then
    match get_front st with
    | Some e => ([send_queued e], with_sending true st)
    | None => ([], st)
    end
  else ([], st).

Definition enqueue (b : bytes) (separation : Z) (st : t) : t :=
  with_queue (queue_ st ++ [(b, separation)]) (u64 (queue_size_ st + Z.of_nat (length b))) st.

Definition queue_train (tr : train) (st : t) : list output * t := kick (enqueue (buffer_ tr) 0 st).

(** ** Trains *)

Definition schedule_train (st : t) : t :=
  let tr := train_ st in
  let tr := match last_departure_ st with
            | Some last => if departure_ tr <? last + minimal_debounce_time_ tr then with_departure (last + minimal_debounce_time_ tr) tr else tr
            | None => tr
            end in
  with_dispatched (push_train (departure_ tr) tr (dispatched_trains_ st)) (with_train tr st).

(** The next departure, that of the current train or of the first dispatched one. *)
Definition next_departure (st : t) : Z :=
  match dispatched_trains_ st with
  | (d, (tr, _)) :: _ => if d <? departure_ (train_ st) then departure_ tr else departure_ (train_ st)
  | _ => departure_ (train_ st)
  end.

Definition start_dispatch_timer (now : Z) (st : t) : t :=
  with_timer (Some (if now <? next_departure st then next_departure st else now)) st.
Definition cancel_dispatch_timer (st : t) : t := with_timer None st.

(** [flush]: what the timer does. *)
Definition flush (now : Z) (st : t) : bool * list output * t :=
  let '(is_current_train, its_train, st) :=
    match dispatched_trains_ st with
    | (d, (tr, trs)) :: m =>
        if d <=? departure_ (train_ st) then (false, tr, with_dispatched (pop_front d trs m) st) else (true, train_ st, st)
    | [] => (true, train_ st, st)
    end in
  let '(has_queued, o, st) :=
    match buffer_ its_train with
    | [] => (false, [], st)
    | _ =>
        let '(o, st) := queue_train its_train st in
        (true, o, if (is_current_train : bool) then with_train (reset now its_train) st else st)
    end in
  let st := if negb is_current_train || negb (bool_decide (dispatched_trains_ st = [])) then start_dispatch_timer now st else st in
  (has_queued, o, st).

(** The callback of the timer, which has expired. *)
Definition flush_cbk (now : Z) (st : t) : list output * t := let '(_, o, st) := flush now (with_timer None st) in (o, st).

(** ** Messages *)

Definition check_message_size (size : Z) : bool :=
  negb (negb (max_message_size_ cfg =? MESSAGE_SIZE_UNLIMITED) && (max_message_size_ cfg <? size)).

(** A message that is refused is reported with its session, which is read when at
    least eleven bytes are there. *)
Definition check_queue_limit (data : bytes) (st : t) : result bool :=
  let size := Z.of_nat (length data) in
  if negb (queue_limit_ cfg =? QUEUE_SIZE_UNLIMITED)
     && ((queue_limit_ cfg <? u64 (queue_size_ st + size)) || (u64 (queue_size_ st + size) <? size))
  then if 11 <=? size then _ ← rd data VSOMEIP_SESSION_POS_MIN 2; Ok false else Ok false
  else Ok true.

Definition read_identifier (data : bytes) : result (Z * Z) :=
  s ← rd data VSOMEIP_SERVICE_POS_MIN 2;
  m ← rd data VSOMEIP_METHOD_POS_MIN 2;
  Ok (bithelper.read_uint16_be host s, bithelper.read_uint16_be host m).

Definition update_times (debouncing retention : Z) (tr : train) : train :=
  mk_train (buffer_ tr) (passengers_ tr)
    (if debouncing <? minimal_debounce_time_ tr then debouncing else minimal_debounce_time_ tr)
    (if retention <? minimal_max_retention_time_ tr then retention else minimal_max_retention_time_ tr)
    (departure_ tr).

(** The train departs and a new one takes its place. *)
Definition depart (now retention : Z) (st : t) : t :=
  with_train (with_departure (now + retention) (new_train now)) (schedule_train st).

(** The loop of the segmentation does not end for segments of length 0: [None]. *)
Definition send_segments (now : Z) (segments : list bytes) (separation : Z) (st : t) : result (list output * t) :=
  match segments with
  | [] => Ok ([], st)
  | s0 :: _ =>
      '(its_service, its_method) ← read_identifier s0;
      let '(its_debouncing, its_retention) := get_configured_times cfg its_service its_method in
      let st := with_train (update_times its_debouncing its_retention (train_ st)) st in
      let st := if decide (passengers_ (train_ st) = ∅) then st else depart now its_retention st in
      Ok (kick (foldl (λ st s, enqueue s separation st) st segments))
  end.

Definition segment_message (now : Z) (data : bytes) (st : t) : option (result (bool * list output * t)) :=
  match read_identifier data with
  | Ok (its_service, its_method) =>
      match get_tp_configuration cfg its_service its_method with
      | Some (its_max_segment_length, its_separation_time) =>
          match tp.tp_split_message (length data) data its_max_segment_length with
          | None => None
          | Some r => Some (segments ← r; '(o, st) ← send_segments now segments its_separation_time st; Ok (true, o, st))
          end
      | None => Some (Ok (false, [], st))
      end
  | Exn e => Some (Exn e)
  | Abort => Some Abort
  | Ub u => Some (Ub u)
  end.

(** Steps 4 to 7: may the message board the current train? *)
Definition must_depart (now : Z) (size debouncing retention : Z) (id : Z * Z) (tr : train) : bool :=
  bool_decide (id ∈ passengers_ tr)
  || (max_message_size_ cfg <? Z.of_nat (length (buffer_ tr)) + size)
  || (minimal_max_retention_time_ tr <? debouncing)
  || (departure_ tr <? now + debouncing)
  || (retention <? minimal_debounce_time_ tr).

Definition board (data : bytes) (id : Z * Z) (debouncing retention : Z) (tr : train) : train :=
  update_times debouncing retention
    (mk_train (buffer_ tr ++ data) (passengers_ tr ∪ {[id]}) (minimal_debounce_time_ tr) (minimal_max_retention_time_ tr) (departure_ tr)).

Definition send_one (now : Z) (data : bytes) (st : t) : result t :=
  let st := cancel_dispatch_timer st in
  '(its_service, its_method) ← read_identifier data;
  let '(its_debouncing, its_retention) := get_configured_times cfg its_service its_method in
  let its_identifier := (its_service, its_method) in
  let tr := train_ st in
  let st :=
    if decide (passengers_ tr = ∅) then with_train (with_departure (now + its_retention) tr) st
    else if must_depart now (Z.of_nat (length data)) its_debouncing its_retention its_identifier tr then depart now its_retention st
    else if now + its_retention <? departure_ tr then with_train (with_departure (now + its_retention) tr) st
    else st in
  Ok (start_dispatch_timer now (with_train (board data its_identifier its_debouncing its_retention (train_ st)) st)).

(** [send]; [None] when the segmentation does not end. *)
Definition send (now : Z) (data : bytes) (st : t) : option (result (bool * list output * t)) :=
  if sending_blocked_ st then Some (Ok (false, [], st))
  else
    match check_queue_limit data st with
    | Ok true =>
        if check_message_size (Z.of_nat (length data)) then Some (st ← send_one now data st; Ok (true, [], st))
        else segment_message now data st
    | Ok false => Some (Ok (false, [], st))
    | Exn e => Some (Exn e)
    | Abort => Some Abort
    | Ub u => Some (Ub u)
    end.

(** ** The socket *)

Inductive error : Set :=
| none | broken_pipe | not_connected | bad_descriptor | no_permission | not_socket | operation_aborted
| destination_address_required | already_connected | other.

Definition is_established_or_connected (st : t) : bool :=
  match state_ st with ESTABLISHED | CONNECTED => true | _ => false end.

(** A write that failed. *)
Definition not_sent (st : t) : t := with_sending false (with_not_connected true st).

Definition close_and_connect (st : t) : list output * t :=
  ([shutdown_and_close_socket true; connect], not_sent (with_state CLOSED st)).

Definition send_cbk (now : Z) (e : error) (st : t) : list output * t :=
  match e with
  | none =>
      match queue_ st with
      | [] => ([], st)
      | (b, _) :: q =>
          let st := with_last (Some now) (with_queue q (u64 (queue_size_ st - Z.of_nat (length b))) st) in
          match q with
          | [] => ([], with_sending false st)
          | entry :: _ => ([send_queued entry], st)
          end
      end
  | broken_pipe =>
      if negb (is_established_or_connected st) then ([], not_sent st)
      else close_and_connect (if sending_blocked_ st then with_queue [] 0 st else st)
  | not_connected | bad_descriptor | not_socket =>
      if negb (is_established_or_connected st) then ([], not_sent st) else close_and_connect st
  | no_permission =>
      if negb (is_established_or_connected st) then ([], not_sent st) else close_and_connect (with_queue [] 0 st)
  | operation_aborted =>
      if negb (is_established_or_connected st) then ([], not_sent st)
      else ([shutdown_and_close_socket false], not_sent (with_state CLOSED (with_blocked true st)))
  | destination_address_required | already_connected | other => ([], not_sent st)
  end.

(** The timeout doubles up to its maximum, after thirty attempts. *)
Definition back_off (st : t) : t :=
  if (connect_timeout_ st <? VSOMEIP_MAX_CONNECT_TIMEOUT) && (30 <? reconnect_counter_ st)
  then with_reconnect (reconnect_counter_ st) (u32 (Z.shiftl (connect_timeout_ st) 1)) st else st.

(** [connect_cbk]; the counter is incremented only where the first test fails. *)
Definition connect_cbk (e : error) (endpoint_host : bool) (st : t) : list output * t :=
  if sending_blocked_ st || match e with operation_aborted => true | _ => false end
  then ([shutdown_and_close_socket false], with_state CLOSED st)
  else if negb endpoint_host then ([], st)
  else match e with
       | none | already_connected =>
           let st := with_reconnect 0 VSOMEIP_DEFAULT_CONNECT_TIMEOUT st in
           let '(o, st) :=
             if was_not_connected_ st then
               let st := with_not_connected false st in
               match get_front st with
               | Some entry => ([send_queued entry], with_sending true st)
               | None => ([], st)
               end
             else ([], st) in
           (o ++ match state_ st with ESTABLISHED => [] | _ => [on_connect] end ++ [receive], st)
       | _ =>
           let st := with_state CLOSED st in
           let '(o, st) :=
             if get_max_allowed_reconnects cfg =? MAX_RECONNECTS_UNLIMITED
             then ([start_connect_timer (connect_timeout_ st)], st)
             else
               let st := with_reconnect (u32 (reconnect_counter_ st + 1)) (connect_timeout_ st) st in
               (if reconnect_counter_ st <=? get_max_allowed_reconnects cfg
                then [start_connect_timer (connect_timeout_ st)] else [max_allowed_reconnects_reached], st) in
           ([shutdown_and_close_socket true; on_disconnect] ++ o, back_off st)
       end.

(** The timers of the connection: after a failed connect, while connecting, and
    when a connect ends, where [cancelled] is whether the timer was still running. *)
Definition wait_connect_cbk (e : error) (st : t) : list output :=
  match e with none => if sending_blocked_ st then [] else [connect] | _ => [] end.
Definition wait_connecting_cbk (e : error) (endpoint_host : bool) (st : t) : list output * t :=
  match e with none => if sending_blocked_ st then ([], st) else connect_cbk other endpoint_host st | _ => ([], st) end.
Definition cancel_and_connect_cbk (cancelled : bool) (e : error) (endpoint_host : bool) (st : t) : list output * t :=
  if cancelled then connect_cbk e endpoint_host st else ([], st).

Definition set_established (established socket_open : bool) (st : t) : t :=
  if established then
    match state_ st with
    | CONNECTING => st
    | _ => with_state (if socket_open then ESTABLISHED else CLOSED) st
    end
  else with_state CLOSED st.

Definition set_connected (connected socket_open : bool) (st : t) : t :=
  with_state (if connected && socket_open then CONNECTED else CLOSED) st.

Definition stop (st : t) : list output * t :=
  ([shutdown_and_close_socket false],
   with_state CLOSED (with_reconnect (reconnect_counter_ st) VSOMEIP_DEFAULT_CONNECT_TIMEOUT (with_queue [] 0 (with_blocked true st)))).
End sending.
End client_endpoint.
