(* ===== verification/ClientEndpointFacts.v ===== *)
(** * Sending of client endpoints: what is sent, and when

    No message is lost, duplicated or torn apart on its way through the trains and
    the queue; trains depart when the timer says so. *)

From stdpp Require Import base list gmap sorting.
From Stdlib Require Import ZArith Lia.
From S2P Require Import Prelude BitHelper Message Tp TcpStream ClientEndpoint.

Import client_endpoint.

(** ** The endpoint in its environment

    [accepted] are the messages (or the segments of a message) that [send] took,
    [sent] the buffers whose write was confirmed, [writes] all buffers that were
    given to the socket; [clock] is the time of the last handler.  The timer fires when
    it is due; a handler that was posted before the timer was cancelled still runs
    ([step_late]). *)

Record sys : Type := mk_sys { ep : t; clock : Z; accepted : list bytes; sent : list bytes; writes : list bytes }.

Definition written (o : list output) : list bytes := omap (λ x, match x with send_queued e => Some e.1 | _ => None end) o.

Section system.
Context (host : endianess_e) (cfg : configuration).

(** What is sent for a message: itself, or its segments. *)
Definition units (data : bytes) : list bytes :=
  if check_message_size cfg (Z.of_nat (length data)) then [data]
  else match read_identifier host data with
       | Ok (s, m) =>
           match get_tp_configuration cfg s m with
           | Some (l, _) => match tp.tp_split_message (length data) data l with Some (Ok segs) => segs | _ => [] end
           | None => []
           end
       | _ => []
       end.

(** Errors after which the queue is kept. *)
Definition keeps_queue (e : error) (st : t) : Prop :=
  match e with none | no_permission => False | broken_pipe => sending_blocked_ st = false | _ => True end.

Inductive step (faults : bool) : sys → sys → Prop :=
| step_send now data b o st s : clock s ≤ now → send host cfg now data (ep s) = Some (Ok (b, o, st)) →
    step faults s (mk_sys st now (accepted s ++ if b then units data else []) (sent s) (writes s ++ written o))
| step_timer now tm o st s : clock s ≤ now → dispatch_timer_ (ep s) = Some tm → tm ≤ now → flush_cbk now (ep s) = (o, st) →
    step faults s (mk_sys st now (accepted s) (sent s) (writes s ++ written o))
| step_late now b o st s : clock s ≤ now → flush now (ep s) = (b, o, st) →
    step faults s (mk_sys st now (accepted s) (sent s) (writes s ++ written o))
| step_sent now entry q o st s : clock s ≤ now → is_sending_ (ep s) = true → queue_ (ep s) = entry :: q → send_cbk now none (ep s) = (o, st) →
    step faults s (mk_sys st now (accepted s) (sent s ++ [entry.1]) (writes s ++ written o))
| step_failed now e o st s : clock s ≤ now → faults = true → keeps_queue e (ep s) → send_cbk now e (ep s) = (o, st) →
    step faults s (mk_sys st now (accepted s) (sent s) (writes s ++ written o))
| step_connect e h o st s : faults = true → connect_cbk cfg e h (ep s) = (o, st) →
    step faults s (mk_sys st (clock s) (accepted s) (sent s) (writes s ++ written o))
| step_connecting e h o st s : faults = true → wait_connecting_cbk cfg e h (ep s) = (o, st) →
    step faults s (mk_sys st (clock s) (accepted s) (sent s) (writes s ++ written o))
| step_cancelled b e h o st s : faults = true → cancel_and_connect_cbk cfg b e h (ep s) = (o, st) →
    step faults s (mk_sys st (clock s) (accepted s) (sent s) (writes s ++ written o))
| step_established b1 b2 s : step faults s (mk_sys (set_established b1 b2 (ep s)) (clock s) (accepted s) (sent s) (writes s))
| step_connected b1 b2 s : step faults s (mk_sys (set_connected b1 b2 (ep s)) (clock s) (accepted s) (sent s) (writes s)).

Definition initial (now : Z) : sys := mk_sys (create now) now [] [] [].

(** ** Groups of messages *)

Definition identifier (data : bytes) : option (Z * Z) := match read_identifier host data with Ok i => Some i | _ => None end.

Definition waiting_trains (m : list (Z * (train * list train))) : list train := mjoin ((λ e, e.2.1 :: e.2.2) <$> m).

Definition flat (g : list bytes) : bytes := mjoin g.
Definition ids (g : list bytes) : list (option (Z * Z)) := identifier <$> g.

(** The messages that share a buffer: in the order in which they were accepted,
    of different methods, and together not too large. *)
Definition group_ok (accepted g : list bytes) : Prop :=
  g `sublist_of` accepted ∧ ((length g ≤ 1)%nat ∨ NoDup (ids g) ∧ Z.of_nat (length (flat g)) ≤ max_message_size_ cfg).

(** The buffers other than that of the current train. *)
Definition buffers (st : t) (sent : list bytes) : list bytes :=
  sent ++ (queue_ st).*1 ++ (buffer_ <$> waiting_trains (dispatched_trains_ st)).

Record conserved (st : t) (acc sent : list bytes) (gs : list (list bytes)) (cur : list bytes) : Prop := {
  con_buffers : buffers st sent ≡ₚ flat <$> gs;
  con_current : buffer_ (train_ st) = flat cur;
  con_accepted : (mjoin gs : list bytes) ++ cur ≡ₚ acc;
  con_groups : Forall (group_ok acc) gs;
  con_current_ok : group_ok acc cur;
  con_passengers : ∀ i, i ∈ passengers_ (train_ st) ↔ Some i ∈ ids cur;
  con_identified : Forall (λ d, is_Some (identifier d)) cur;
  con_waiting : Forall (λ tr, buffer_ tr ≠ []) (waiting_trains (dispatched_trains_ st))
}.

Lemma push_trains d tr m : waiting_trains (push_train d tr m) ≡ₚ waiting_trains m ++ [tr].
Proof.
  induction m as [|[d' [tr' trs]] m IH]; [done|]. cbn [push_train]. unfold waiting_trains in *. cbn. destruct (d <? d'); [|destruct (d =? d')]; cbn.
  - apply (Permutation_cons_append (tr' :: trs ++ mjoin ((λ e, e.2.1 :: e.2.2) <$> m))).
  - constructor. rewrite <- !app_assoc. f_equiv. apply Permutation_app_comm.
  - constructor. rewrite <- app_assoc. f_equiv. done.
Qed.

Lemma pop_trains d tr trs m : waiting_trains ((d, (tr, trs)) :: m) = tr :: waiting_trains (pop_front d trs m).
Proof. by destruct trs. Qed.

Lemma group_mono acc more g : group_ok acc g → group_ok (acc ++ more) g.
Proof. intros [Hs Hg]. split; [by apply sublist_inserts_r|done]. Qed.

Lemma identifier_long d : is_Some (identifier d) → d ≠ [].
Proof. intros [i Hi] ->. done. Qed.

Lemma current_empty st acc sent gs cur : conserved st acc sent gs cur → passengers_ (train_ st) = ∅ ↔ cur = [].
Proof.
  intros [_ _ _ _ _ Hp Hi _]. split.
  - intros E. destruct cur as [|d cur]; [done|]. apply Forall_cons in Hi as [[i Hi] _].
    assert (i ∈ passengers_ (train_ st)) as Hin by (apply Hp; cbn; rewrite Hi; by left). rewrite E in Hin. by apply elem_of_empty in Hin.
  - intros ->. apply leibniz_equiv. intros i. rewrite Hp. split; [by intros ?%elem_of_nil|by intros ?%elem_of_empty].
Qed.

Lemma buffer_empty st acc sent gs cur : conserved st acc sent gs cur → buffer_ (train_ st) = [] ↔ cur = [].
Proof.
  intros [_ Hb _ _ _ _ Hi _]. split; [|by intros ->]. intros E. destruct cur as [|d cur]; [done|]. apply Forall_cons in Hi as [Hi _].
  rewrite Hb in E. apply app_eq_nil in E as [-> _]. by apply identifier_long in Hi.
Qed.

(** The train departs: its messages become a group. *)
Lemma depart_conserved now retention st acc sent gs cur : conserved st acc sent gs cur → cur ≠ [] →
  conserved (depart now retention st) acc sent (gs ++ [cur]) [].
Proof.
  intros H Hne. pose proof H as [Hb Hc Ha Hg Hok Hp Hi Hw]. unfold depart, schedule_train. set (tr := match last_departure_ st with Some _ => _ | None => _ end).
  assert (Htr : buffer_ tr = flat cur) by (rewrite <- Hc; subst tr; destruct (last_departure_ st); [destruct (_ <? _)|]; done).
  constructor; cbn [with_train with_dispatched dispatched_trains_ queue_ train_ with_departure buffer_ passengers_ new_train].
  - unfold buffers in *. cbn [with_train with_dispatched dispatched_trains_ queue_]. rewrite push_trains, fmap_app, fmap_app, <- Hb. cbn. rewrite Htr, !app_assoc. done.
  - done.
  - rewrite join_app. cbn. by rewrite !app_nil_r.
  - apply Forall_app_2; [done|]. by constructor.
  - split; [apply sublist_nil_l|left; cbn; lia].
  - intros i. split; [by intros ?%elem_of_empty|by intros ?%elem_of_nil].
  - done.
  - rewrite push_trains. apply Forall_app_2; [done|]. constructor; [|done]. rewrite Htr, <- Hc. intros E. by apply (buffer_empty _ _ _ _ _ H) in E.
Qed.

(** A message boards the train. *)
Lemma board_conserved st acc sent gs cur data i deb ret : conserved st acc sent gs cur → identifier data = Some i →
  cur = [] ∨ ((i ∉ passengers_ (train_ st)) ∧ Z.of_nat (length (buffer_ (train_ st))) + Z.of_nat (length data) ≤ max_message_size_ cfg) →
  conserved (with_train (board data i deb ret (train_ st)) st) (acc ++ [data]) sent gs (cur ++ [data]).
Proof.
  intros [Hb Hc Ha Hg Hok Hp Hi Hw] Hid Hfit. constructor; cbn.
  - exact Hb.
  - rewrite Hc. unfold flat. rewrite join_app. cbn. by rewrite app_nil_r.
  - by rewrite app_assoc, Ha.
  - eapply Forall_impl; [exact Hg|]. intros g. apply group_mono.
  - destruct Hok as [Hs Hok]. split; [by apply sublist_app|]. destruct Hfit as [->|[Hnew Hsize]]; [by left|]. right.
    rewrite Hc in Hsize. unfold ids, flat. rewrite fmap_app, join_app. split.
    + apply NoDup_app. split_and!; [| |apply NoDup_singleton].
      * destruct Hok as [Hl|[Hn _]]; [|done]. destruct cur as [|d [|]]; [constructor|apply NoDup_singleton|cbn in Hl; lia].
      * intros x Hx ->%list_elem_of_singleton. rewrite Hid in Hx. by apply Hp in Hx.
    + rewrite length_app. cbn. rewrite app_nil_r. unfold flat in Hsize. lia.
  - intros j. unfold ids. rewrite fmap_app. cbn. rewrite elem_of_union, elem_of_app, Hp, elem_of_singleton, list_elem_of_singleton, Hid. split; intros [?|?]; [by left|right; congruence|by left|right; congruence].
  - apply Forall_app_2; [done|]. constructor; [by eexists|done].
  - exact Hw.
Qed.

(** The queue, the trains and the current train's load determine the buffers. *)
Lemma conserved_same st st' acc sent gs cur : queue_ st' = queue_ st → dispatched_trains_ st' = dispatched_trains_ st →
  buffer_ (train_ st') = buffer_ (train_ st) → passengers_ (train_ st') = passengers_ (train_ st) →
  conserved st acc sent gs cur → conserved st' acc sent gs cur.
Proof.
  intros E1 E2 E3 E4 [Hb Hc Ha Hg Hok Hp Hi Hw]. constructor; [by unfold buffers; rewrite E1, E2|by rewrite E3|done|done|done|by rewrite E4|done|by rewrite E2].
Qed.

Lemma kick_same st : let st' := (kick st).2 in
  queue_ st' = queue_ st ∧ dispatched_trains_ st' = dispatched_trains_ st ∧ train_ st' = train_ st ∧ dispatch_timer_ st' = dispatch_timer_ st
  ∧ last_departure_ st' = last_departure_ st.
Proof. cbv zeta. unfold kick. destruct (negb _); [destruct (get_front st)|]; done. Qed.

(** A buffer joins the queue. *)
Lemma enqueue_conserved b sep g st acc more sent gs cur : conserved st acc sent gs cur → flat g = b → g `sublist_of` more →
  group_ok (acc ++ more) g → g = more → conserved (enqueue b sep st) (acc ++ more) sent (gs ++ [g]) cur.
Proof.
  intros [Hb Hc Ha Hg Hok Hp Hi Hw] <- Hs Hgg ->. constructor; cbn; [|done| | |by apply group_mono|done|done|done].
  - unfold buffers in *. cbn. rewrite !fmap_app, <- Hb. cbn. rewrite <- !app_assoc. do 2 f_equiv. apply Permutation_app_comm.
  - rewrite join_app. cbn. rewrite app_nil_r, <- app_assoc, (Permutation_app_comm more), app_assoc. by f_equiv.
  - apply Forall_app_2; [|by constructor]. eapply Forall_impl; [exact Hg|]. intros. by apply group_mono.
Qed.

Lemma segments_conserved sep segs : ∀ st acc sent gs cur, conserved st acc sent gs cur →
  ∃ gs', conserved (foldl (λ st s, enqueue s sep st) st segs) (acc ++ segs) sent gs' cur.
Proof.
  induction segs as [|x segs IH]; intros st acc sent gs cur H; [exists gs; by rewrite app_nil_r|]. cbn [foldl].
  assert (Hx : conserved (enqueue x sep st) (acc ++ [x]) sent (gs ++ [[x]]) cur).
  { apply enqueue_conserved; [done|unfold flat; cbn; by rewrite app_nil_r|done| |done].
    split; [by apply sublist_inserts_l|left; cbn; lia]. }
  destruct (IH _ _ _ _ _ Hx) as [gs' H']. exists gs'. by rewrite <- app_assoc in H'.
Qed.

Lemma send_one_conserved now data st st' acc sent gs cur : conserved st acc sent gs cur → send_one host cfg now data st = Ok st' →
  ∃ gs' cur', conserved st' (acc ++ [data]) sent gs' cur'.
Proof.
  intros H E. unfold send_one in E. destruct (read_identifier host data) as [[s m]| | |] eqn:Er; try done. rewrite bind_Ok in E.
  assert (Hid : identifier data = Some (s, m)) by (unfold identifier; by rewrite Er).
  destruct (get_configured_times cfg s m) as [deb ret]. injection E as <-.
  pose proof (current_empty _ _ _ _ _ H) as He. cbn [cancel_dispatch_timer with_timer train_].
  assert (Hs : ∀ tm x st0, conserved st0 acc sent gs cur → buffer_ x = buffer_ (train_ st0) → passengers_ x = passengers_ (train_ st0) →
    conserved (with_train x (with_timer tm st0)) acc sent gs cur) by (intros tm x st0 H0 Eb Ep; apply (conserved_same st0); [done|done|exact Eb|exact Ep|exact H0]).
  destruct (decide (passengers_ (train_ st) = ∅)) as [E0|E0].
  - exists gs, (cur ++ [data]). eapply (conserved_same (with_train (board data (s, m) deb ret (with_departure (now + ret) (train_ st))) (with_timer None st))); try done.
    apply (board_conserved (with_train (with_departure (now + ret) (train_ st)) (with_timer None st))); [by apply Hs|done|left; by apply He].
  - destruct (must_depart _ _ _ _ _ _ _) eqn:Ed.
    + exists (gs ++ [cur]), ([] ++ [data]). eapply (conserved_same (with_train (board data (s, m) deb ret (train_ (depart now ret (with_timer None st)))) (depart now ret (with_timer None st)))); try done.
      apply board_conserved; [|done|by left]. apply depart_conserved; [by apply (conserved_same st)|]. intros Hc. by apply E0, He.
    + apply orb_false_iff in Ed as [Ed _]. apply orb_false_iff in Ed as [Ed _]. apply orb_false_iff in Ed as [Ed _]. apply orb_false_iff in Ed as [Ed1 Ed2].
      apply bool_decide_eq_false in Ed1. apply Z.ltb_ge in Ed2. exists gs, (cur ++ [data]).
      destruct (_ <? _).
      * eapply (conserved_same (with_train (board data (s, m) deb ret (with_departure (now + ret) (train_ st))) (with_timer None st))); try done.
        apply (board_conserved (with_train (with_departure (now + ret) (train_ st)) (with_timer None st))); [by apply Hs|done|by right].
      * eapply (conserved_same (with_train (board data (s, m) deb ret (train_ st)) (with_timer None st))); try done.
        apply (board_conserved (with_timer None st)); [by apply (conserved_same st)|done|by right].
Qed.

(** The timer does not matter. *)
Ltac by_timer := match goal with |- conserved (if ?b then _ else _) _ _ _ _ => destruct b end.

(** The next train is taken from the map ... *)
Lemma flush_dispatched d tr trs m st acc sent gs cur : conserved st acc sent gs cur → dispatched_trains_ st = (d, (tr, trs)) :: m →
  buffer_ tr ≠ [] ∧ conserved (queue_train tr (with_dispatched (pop_front d trs m) st)).2 acc sent gs cur.
Proof.
  intros [Hb Hc Ha Hg Hok Hp Hi Hw] Ed. rewrite Ed, pop_trains in Hw. apply Forall_cons in Hw as [Hne Hw]. split; [done|].
  unfold queue_train. pose proof (kick_same (enqueue (buffer_ tr) 0 (with_dispatched (pop_front d trs m) st))) as (E1 & E2 & E3 & _).
  apply (conserved_same (enqueue (buffer_ tr) 0 (with_dispatched (pop_front d trs m) st))); [done|done|by rewrite E3|by rewrite E3|].
  constructor; cbn; try done. rewrite <- Hb. unfold buffers. rewrite Ed, pop_trains. cbn. rewrite fmap_app. cbn. rewrite <- app_assoc. done.
Qed.

(** ... or the current one departs. *)
Lemma flush_current now st acc sent gs cur : conserved st acc sent gs cur → cur ≠ [] →
  conserved (with_train (reset now (train_ st)) (queue_train (train_ st) st).2) acc sent (gs ++ [cur]) [].
Proof.
  intros H Hne. pose proof H as [Hb Hc Ha Hg Hok Hp Hi Hw]. unfold queue_train.
  pose proof (kick_same (enqueue (buffer_ (train_ st)) 0 st)) as (E1 & E2 & _).
  constructor; cbn [with_train train_ reset new_train buffer_ passengers_]; [| |by rewrite join_app; cbn; rewrite !app_nil_r| | | | |].
  - unfold buffers in *. cbn [with_train queue_ dispatched_trains_]. rewrite E1, E2. cbn. rewrite !fmap_app, <- Hb. cbn. rewrite Hc, <- !app_assoc.
    do 2 f_equiv. apply Permutation_app_comm.
  - done.
  - apply Forall_app_2; [done|by constructor].
  - split; [apply sublist_nil_l|left; cbn; lia].
  - intros i. split; [by intros ?%elem_of_empty|by intros ?%elem_of_nil].
  - done.
  - cbn [with_train dispatched_trains_]. by rewrite E2.
Qed.

Lemma flush_conserved now st b o st' acc sent gs cur : conserved st acc sent gs cur → flush now st = (b, o, st') →
  ∃ gs' cur', conserved st' acc sent gs' cur'.
Proof.
  intros H E. unfold flush in E.
  assert (Hcur : ∀ b o st', (let '(has_queued, o, st1) := match buffer_ (train_ st) with
      | [] => (false, [], st)
      | _ => let '(o, st1) := queue_train (train_ st) st in (true, o, with_train (reset now (train_ st)) st1) end in
      let st1 := if negb true || negb (bool_decide (dispatched_trains_ st1 = [])) then start_dispatch_timer now st1 else st1 in
      (has_queued, o, st1)) = (b, o, st') → ∃ gs' cur', conserved st' acc sent gs' cur').
  { clear E. intros b0 o0 st0 E. destruct (buffer_ (train_ st)) as [|x l] eqn:Eb.
    - injection E as <- <- <-. exists gs, cur. by_timer; by apply (conserved_same st).
    - pose proof (flush_current now st acc sent gs cur H) as Hf. destruct (queue_train (train_ st) st) as [o1 st1]. cbn [snd] in Hf. injection E as <- <- <-.
      exists (gs ++ [cur]), []. assert (Hne : cur ≠ []) by (intros ->; rewrite (con_current _ _ _ _ _ H) in Eb; done). specialize (Hf Hne).
      by_timer; by apply (conserved_same (with_train (reset now (train_ st)) st1)). }
  destruct (dispatched_trains_ st) as [|[d [tr trs]] m] eqn:Ed; [by apply (Hcur b o)|]. destruct (d <=? departure_ (train_ st)); [|by apply (Hcur b o)].
  destruct (flush_dispatched d tr trs m st acc sent gs cur H Ed) as [Hne Hf]. destruct (buffer_ tr) as [|x l]; [done|].
  destruct (queue_train tr _) as [o1 st1]. cbn [snd] in Hf. injection E as <- <- <-. exists gs, cur. cbn [negb orb]. by apply (conserved_same st1).
Qed.

Lemma send_conserved now data st b o st' acc sent gs cur : conserved st acc sent gs cur → send host cfg now data st = Some (Ok (b, o, st')) →
  ∃ gs' cur', conserved st' (acc ++ if b then units data else []) sent gs' cur'.
Proof.
  intros H E. unfold send in E. unfold units. destruct (sending_blocked_ st).
  { injection E as <- <- <-. exists gs, cur. by rewrite app_nil_r. }
  destruct (check_queue_limit cfg data st) as [[]| | |]; try done.
  2: { injection E as <- <- <-. exists gs, cur. by rewrite app_nil_r. }
  destruct (check_message_size cfg _).
  - destruct (send_one host cfg now data st) as [st1| | |] eqn:Es; try done. injection E as <- <- <-. by eapply send_one_conserved.
  - unfold segment_message in E. destruct (read_identifier host data) as [[s m]| | |]; try done.
    destruct (get_tp_configuration cfg s m) as [[l sep]|]; [|injection E as <- <- <-; exists gs, cur; by rewrite app_nil_r].
    destruct (tp.tp_split_message _ _ _) as [[segs| | |]|]; try done. injection E as E. cbn [mbind result_bind] in E. unfold send_segments in E.
    destruct segs as [|s0 segs]; [injection E as <- <- <-; exists gs, cur; by rewrite app_nil_r|].
    destruct (read_identifier host s0) as [[s' m']| | |]; try done. cbn [mbind result_bind] in E. destruct (get_configured_times cfg s' m') as [deb ret].
    cbn [mbind result_bind] in E. set (st1 := with_train (update_times deb ret (train_ st)) st) in E.
    assert (H1 : conserved st1 acc sent gs cur) by (by apply (conserved_same st)).
    assert (H2 : ∃ gs' cur', conserved (if decide (passengers_ (train_ st1) = ∅) then st1 else depart now ret st1) acc sent gs' cur').
    { destruct (decide _) as [|Hne]; [by exists gs, cur|]. eexists _, _. apply depart_conserved; [exact H1|]. intros Hc. by apply Hne, (current_empty _ _ _ _ _ H1). }
    destruct H2 as (gs2 & cur2 & H2). destruct (segments_conserved sep (s0 :: segs) _ _ _ _ _ H2) as [gs3 H3].
    set (st2 := foldl _ _ _) in *. pose proof (kick_same st2) as (E1 & E2 & E3 & _). destruct (kick st2) as [o2 st3]. injection E as <- <- <-. cbn [snd] in *.
    exists gs3, cur2. apply (conserved_same st2); [done|done|by rewrite E3|by rewrite E3|done].
Qed.

(** ** Every step *)

(** What the handlers of the socket leave alone. *)
Definition same_trains (st st' : t) : Prop :=
  train_ st' = train_ st ∧ dispatched_trains_ st' = dispatched_trains_ st ∧ dispatch_timer_ st' = dispatch_timer_ st.

Lemma failed_same now e st : keeps_queue e st →
  let st' := (send_cbk now e st).2 in same_trains st st' ∧ queue_ st' = queue_ st ∧ last_departure_ st' = last_departure_ st.
Proof.
  intros Hk. cbv zeta. destruct e; cbn in Hk; try done; cbn [send_cbk]; destruct (negb (is_established_or_connected st)); try done.
  unfold close_and_connect. by rewrite Hk.
Qed.

Lemma connect_same e h st :
  let st' := (connect_cbk cfg e h st).2 in same_trains st st' ∧ queue_ st' = queue_ st ∧ last_departure_ st' = last_departure_ st.
Proof.
  cbv zeta. unfold connect_cbk, same_trains, back_off. destruct (sending_blocked_ st || _); [done|]. destruct h; [|done]. cbn [negb].
  destruct e; try done;
    try (destruct (was_not_connected_ _); [destruct (get_front _)|]; done);
    destruct (get_max_allowed_reconnects cfg =? MAX_RECONNECTS_UNLIMITED); cbn [snd]; destruct (_ && _); done.
Qed.

Lemma connecting_same e h b st :
  (let st' := (wait_connecting_cbk cfg e h st).2 in same_trains st st' ∧ queue_ st' = queue_ st ∧ last_departure_ st' = last_departure_ st)
  ∧ let st' := (cancel_and_connect_cbk cfg b e h st).2 in same_trains st st' ∧ queue_ st' = queue_ st ∧ last_departure_ st' = last_departure_ st.
Proof.
  unfold wait_connecting_cbk, cancel_and_connect_cbk. split; [|destruct b; [apply connect_same|done]].
  destruct e; try done. destruct (sending_blocked_ st); [done|apply connect_same].
Qed.

Lemma state_same b1 b2 st : (let st' := set_established b1 b2 st in same_trains st st' ∧ queue_ st' = queue_ st ∧ last_departure_ st' = last_departure_ st ∧ is_sending_ st' = is_sending_ st)
  ∧ let st' := set_connected b1 b2 st in same_trains st st' ∧ queue_ st' = queue_ st ∧ last_departure_ st' = last_departure_ st ∧ is_sending_ st' = is_sending_ st.
Proof. unfold set_established. destruct b1; [destruct (state_ st)|]; done. Qed.

Lemma sent_same now st e q : queue_ st = e :: q →
  let st' := (send_cbk now none st).2 in same_trains st st' ∧ queue_ st' = q ∧ last_departure_ st' = Some now.
Proof. intros E. cbn. rewrite E. destruct e as [b sep]. by destruct q. Qed.

Lemma conserved_trains st st' acc sent gs cur : same_trains st st' → queue_ st' = queue_ st → conserved st acc sent gs cur → conserved st' acc sent gs cur.
Proof. intros (E1 & E2 & _) E3. apply conserved_same; [done|done|by rewrite E1|by rewrite E1]. Qed.

Lemma conserved_step faults s s' : step faults s s' → (∃ gs cur, conserved (ep s) (accepted s) (sent s) gs cur) →
  ∃ gs cur, conserved (ep s') (accepted s') (sent s') gs cur.
Proof.
  intros Hstep (gs & cur & H). destruct Hstep as [now data b o st s _ E|now tm o st s _ _ _ E|now b o st s _ E|now e q o st s _ _ Eq E|now e o st s _ _ Hk E|e h o st s _ E|e h o st s _ E|b e h o st s _ E|b1 b2 s|b1 b2 s];
    cbn [ep accepted sent].
  - by eapply send_conserved.
  - unfold flush_cbk in E. destruct (flush now (with_timer None (ep s))) as [[b o'] st'] eqn:Ef. injection E as <- <-.
    eapply flush_conserved; [|exact Ef]. by apply (conserved_same (ep s)).
  - by eapply flush_conserved.
  - pose proof (sent_same now _ _ _ Eq) as (Hs & Hq & _). rewrite E in Hs, Hq. cbn [snd] in *. exists gs, cur. destruct H as [Hb Hc Ha Hg Hok Hp Hi Hw].
    destruct Hs as (E1 & E2 & _). constructor; [|by rewrite E1|done|done|done|by rewrite E1|done|by rewrite E2].
    rewrite <- Hb. unfold buffers. rewrite E2, Hq, Eq. cbn. by rewrite <- app_assoc.
  - pose proof (failed_same now e (ep s) Hk) as (Hs & Hq & _). rewrite E in Hs, Hq. exists gs, cur. by apply (conserved_trains (ep s)).
  - pose proof (connect_same e h (ep s)) as (Hs & Hq & _). rewrite E in Hs, Hq. exists gs, cur. by apply (conserved_trains (ep s)).
  - destruct (connecting_same e h true (ep s)) as [(Hs & Hq & _) _]. rewrite E in Hs, Hq. exists gs, cur. by apply (conserved_trains (ep s)).
  - destruct (connecting_same e h b (ep s)) as [_ (Hs & Hq & _)]. rewrite E in Hs, Hq. exists gs, cur. by apply (conserved_trains (ep s)).
  - destruct (state_same b1 b2 (ep s)) as [(Hs & Hq & _) _]. exists gs, cur. by apply (conserved_trains (ep s)).
  - destruct (state_same b1 b2 (ep s)) as [_ (Hs & Hq & _)]. exists gs, cur. by apply (conserved_trains (ep s)).
Qed.

Lemma conserved_initial now : conserved (create now) [] [] [] [].
Proof.
  constructor; try done; [split; [done|left; cbn; lia]|]. intros i. split; [by intros ?%elem_of_empty|by intros ?%elem_of_nil].
Qed.

Lemma conserved_reachable faults now s : rtc (step faults) (initial now) s → ∃ gs cur, conserved (ep s) (accepted s) (sent s) gs cur.
Proof.
  intros H. remember (initial now) as s0 eqn:E0. assert (H0 : ∃ gs cur, conserved (ep s0) (accepted s0) (sent s0) gs cur).
  { subst s0. exists [], []. apply conserved_initial. }
  clear E0. induction H as [s|s1 s2 s3 Hs _ IH]; [done|]. apply IH. by eapply conserved_step.
Qed.

(** ** One write at a time *)

(** The outstanding write is that of the front of the queue. *)
Definition fronted (st : t) (sent writes : list bytes) : Prop :=
  if is_sending_ st then queue_ st ≠ [] ∧ writes = sent ++ take 1 (queue_ st).*1 else writes = sent.

Definition in_order (st : t) (sent writes : list bytes) : Prop :=
  fronted st sent writes ∧ (is_sending_ st = false → queue_ st = []).

Lemma enqueue_fronted b sep st sent w : fronted st sent w → fronted (enqueue b sep st) sent w.
Proof.
  unfold fronted. cbn. destruct (is_sending_ st); [|done]. intros [Hq ->]. destruct (queue_ st); [done|]. by split.
Qed.

Lemma kick_in_order st sent w : fronted st sent w → in_order (kick st).2 sent (w ++ written (kick st).1).
Proof.
  unfold fronted, in_order, kick, get_front. destruct (is_sending_ st) eqn:Es; cbn [negb].
  - intros [Hq ->]. cbn. unfold fronted. rewrite Es, app_nil_r. done.
  - intros ->. destruct (queue_ st) as [|e q] eqn:Eq; cbn; unfold fronted; cbn; [by rewrite Es, app_nil_r|]. rewrite Eq. done.
Qed.

Lemma in_order_same st st' sent w : queue_ st' = queue_ st → is_sending_ st' = is_sending_ st → in_order st sent w → in_order st' sent w.
Proof. intros E1 E2. unfold in_order, fronted. by rewrite E1, E2. Qed.

Lemma flush_in_order now st sent w b o st' : in_order st sent w → flush now st = (b, o, st') → in_order st' sent (w ++ written o).
Proof.
  intros [H H0] E. unfold flush in E.
  assert (Hq : ∀ tr st1, is_sending_ st1 = is_sending_ st → queue_ st1 = queue_ st →
    in_order (queue_train tr st1).2 sent (w ++ written (queue_train tr st1).1)).
  { intros tr st1 E1 E2. unfold queue_train. apply kick_in_order, enqueue_fronted. unfold fronted. by rewrite E1, E2. }
  assert (Hcase : ∀ (cur : bool) tr st1, is_sending_ st1 = is_sending_ st → queue_ st1 = queue_ st →
    (let '(has_queued, o, st2) := match buffer_ tr with
      | [] => (false, [], st1)
      | _ => let '(o, st2) := queue_train tr st1 in (true, o, if cur then with_train (reset now tr) st2 else st2) end in
      let st2 := if negb cur || negb (bool_decide (dispatched_trains_ st2 = [])) then start_dispatch_timer now st2 else st2 in
      (has_queued, o, st2)) = (b, o, st') → in_order st' sent (w ++ written o)).
  { clear E. intros cur tr st1 E1 E2 E. destruct (buffer_ tr).
    - injection E as <- <- <-. rewrite app_nil_r. match goal with |- in_order (if ?x then _ else _) _ _ => destruct x end; by apply (in_order_same st).
    - specialize (Hq tr st1 E1 E2). destruct (queue_train tr st1) as [o1 st2]. injection E as <- <- <-. cbn [fst snd] in Hq.
      match goal with |- in_order (if ?x then _ else _) _ _ => destruct x end; destruct cur; by apply (in_order_same st2). }
  destruct (dispatched_trains_ st) as [|[d [tr trs]] m]; [by apply (Hcase true (train_ st) st)|].
  destruct (d <=? departure_ (train_ st)); [by apply (Hcase false tr (with_dispatched (pop_front d trs m) st))|by apply (Hcase true (train_ st) st)].
Qed.

Lemma send_in_order now data st sent w b o st' : in_order st sent w → send host cfg now data st = Some (Ok (b, o, st')) → in_order st' sent (w ++ written o).
Proof.
  intros H E. unfold send in E. destruct (sending_blocked_ st); [injection E as <- <- <-; by rewrite app_nil_r|].
  destruct (check_queue_limit cfg data st) as [[]| | |]; try done; [|injection E as <- <- <-; by rewrite app_nil_r].
  destruct (check_message_size cfg _).
  - destruct (send_one host cfg now data st) as [st1| | |] eqn:Es; try done. injection E as <- <- <-. rewrite app_nil_r. unfold send_one in Es.
    destruct (read_identifier host data) as [[s m]| | |]; try done. rewrite bind_Ok in Es. destruct (get_configured_times cfg s m) as [deb ret]. injection Es as <-.
    apply (in_order_same st); [| |done]; cbn [start_dispatch_timer with_timer with_train queue_ is_sending_];
      (destruct (decide _); [done|]; destruct (must_depart _ _ _ _ _ _ _); [done|]; by destruct (_ <? _)).
  - unfold segment_message in E. destruct (read_identifier host data) as [[s m]| | |]; try done.
    destruct (get_tp_configuration cfg s m) as [[l sep]|]; [|injection E as <- <- <-; by rewrite app_nil_r].
    destruct (tp.tp_split_message _ _ _) as [[segs| | |]|]; try done. injection E as E. cbn [mbind result_bind] in E. unfold send_segments in E.
    destruct segs as [|s0 segs]; [injection E as <- <- <-; by rewrite app_nil_r|].
    destruct (read_identifier host s0) as [[s' m']| | |]; try done. cbn [mbind result_bind] in E. destruct (get_configured_times cfg s' m') as [deb ret].
    cbn [mbind result_bind] in E. set (st1 := with_train (update_times deb ret (train_ st)) st) in E.
    set (st2 := if decide (passengers_ (train_ st1) = ∅) then st1 else depart now ret st1) in E.
    assert (H2 : fronted st2 sent w) by (subst st2; destruct (decide _); apply H).
    assert (H3 : ∀ l st3, fronted st3 sent w → fronted (foldl (λ st s, enqueue s sep st) st3 l) sent w).
    { intros xs. induction xs as [|x xs IH]; intros st3 Hf; [done|]. cbn. by apply IH, enqueue_fronted. }
    pose proof (kick_in_order _ _ _ (H3 (s0 :: segs) st2 H2)) as Hk. destruct (kick _) as [o2 st3]. by injection E as <- <- <-.
Qed.

Lemma in_order_step s s' : step false s s' → in_order (ep s) (sent s) (writes s) → in_order (ep s') (sent s') (writes s').
Proof.
  intros Hstep H. destruct Hstep as [now data b o st s _ E|now tm o st s _ _ _ E|now b o st s _ E|now e q o st s _ Es Eq E|now e o st s _ [=]|e h o st s [=]|e h o st s [=]|b e h o st s [=]|b1 b2 s|b1 b2 s];
    cbn [ep sent writes].
  - by eapply send_in_order.
  - unfold flush_cbk in E. destruct (flush now (with_timer None (ep s))) as [[b o'] st'] eqn:Ef. injection E as <- <-.
    eapply flush_in_order; [|exact Ef]. by apply (in_order_same (ep s)).
  - by eapply flush_in_order.
  - destruct H as [H _]. unfold fronted in H. rewrite Es, Eq in H. destruct H as [_ Hw]. cbn in Hw. cbn in E. rewrite Eq in E. destruct e as [b sep]. unfold in_order, fronted.
    destruct q as [|e2 q]; injection E as <- <-; cbn; [by rewrite app_nil_r|]. rewrite Es. cbn. rewrite Hw. done.
  - destruct (state_same b1 b2 (ep s)) as [(_ & Hq & _ & Hs) _]. by apply (in_order_same (ep s)).
  - destruct (state_same b1 b2 (ep s)) as [_ (_ & Hq & _ & Hs)]. by apply (in_order_same (ep s)).
Qed.

Lemma in_order_reachable now s : rtc (step false) (initial now) s → in_order (ep s) (sent s) (writes s).
Proof.
  intros H. remember (initial now) as s0 eqn:E0. assert (H0 : in_order (ep s0) (sent s0) (writes s0)) by (by subst s0).
  clear E0. induction H as [s|s1 s2 s3 Hs _ IH]; [done|]. apply IH. by eapply in_order_step.
Qed.

(** ** The timer

    Without segmentation, and with debouncing and retention times of at most
    [bound], the timer is armed whenever something waits, and no later than the
    departure of every train that waits. *)

Section timer.
Context (bound : Z) (Hbound : 0 ≤ bound ≤ six_hours).
Context (Htimes : ∀ s m, (get_configured_times cfg s m).1 ≤ bound ∧ (get_configured_times cfg s m).2 ≤ bound).
Context (Htp : ∀ s m, get_tp_configuration cfg s m = None).

(** The map is ordered, holds trains under their departures, and these are near. *)
Record mapped (st : t) (clock : Z) : Prop := {
  mp_sorted : StronglySorted Z.lt (dispatched_trains_ st).*1;
  mp_departures : Forall (λ e, Forall (λ tr, departure_ tr = e.1) (e.2.1 :: e.2.2)) (dispatched_trains_ st);
  mp_bound : Forall (λ d, d ≤ clock + bound) (dispatched_trains_ st).*1;
  mp_last : ∀ l, last_departure_ st = Some l → l ≤ clock
}.

(** An empty train never departs before one that waits. *)
Record scheduled (st : t) (clock : Z) : Prop := {
  sc_mapped : mapped st clock;
  sc_current : passengers_ (train_ st) ≠ ∅ → departure_ (train_ st) ≤ clock + bound ∧ minimal_debounce_time_ (train_ st) ≤ bound;
  sc_empty : passengers_ (train_ st) = ∅ → Forall (λ d, d ≤ departure_ (train_ st)) (dispatched_trains_ st).*1
}.

Record timely (st : t) (clock : Z) : Prop := {
  tl_scheduled : scheduled st clock;
  tl_timer : passengers_ (train_ st) ≠ ∅ ∨ dispatched_trains_ st ≠ [] →
    ∃ tm, dispatch_timer_ st = Some tm ∧ tm ≤ Z.max clock (next_departure st)
}.

Lemma push_keys d tr m (P : Z → Prop) : P d → Forall P m.*1 → Forall P (push_train d tr m).*1.
Proof.
  intros Hd. induction m as [|[d' [tr' trs]] m IH]; cbn; [by repeat constructor|]. intros [H1 H2]%Forall_cons.
  destruct (d <? d'); [|destruct (d =? d')]; cbn; repeat (constructor; [done|]); auto.
Qed.

Lemma push_sorted d tr m : StronglySorted Z.lt m.*1 → StronglySorted Z.lt (push_train d tr m).*1.
Proof.
  induction m as [|[d' [tr' trs]] m IH]; cbn; [by repeat constructor|]. intros [H1 H2]%StronglySorted_inv.
  destruct (Z.ltb_spec d d'); [|destruct (Z.eqb_spec d d')]; cbn.
  - constructor; [by constructor|]. constructor; [done|]. eapply Forall_impl; [exact H2|]. intros. lia.
  - by constructor.
  - constructor; [by apply IH|]. apply push_keys; [lia|done].
Qed.

Lemma push_departures d tr m : departure_ tr = d → Forall (λ e, Forall (λ tr, departure_ tr = e.1) (e.2.1 :: e.2.2)) m →
  Forall (λ e, Forall (λ tr, departure_ tr = e.1) (e.2.1 :: e.2.2)) (push_train d tr m).
Proof.
  intros Hd. induction m as [|[d' [tr' trs]] m IH]; cbn [push_train]; [by repeat constructor|]. intros [H1 H2]%Forall_cons. cbn [fst snd] in H1.
  destruct (Z.ltb_spec d d'); [|destruct (Z.eqb_spec d d') as [->|]].
  - constructor; [by repeat constructor|]. by constructor.
  - constructor; [|done]. cbn [fst snd]. apply (Forall_app_2 _ (tr' :: trs) [tr] H1). by constructor.
  - constructor; [done|]. by apply IH.
Qed.

Lemma pop_keys d trs m (P : Z → Prop) : P d → Forall P m.*1 → Forall P (pop_front d trs m).*1.
Proof. intros Hd Hm. destruct trs; [done|]. by constructor. Qed.
Lemma pop_mapped d tr trs m st clock : mapped st clock → dispatched_trains_ st = (d, (tr, trs)) :: m →
  mapped (with_dispatched (pop_front d trs m) st) clock ∧ departure_ tr = d ∧ d ≤ clock + bound.
Proof.
  intros [Hs Hd Hb Hl] E. rewrite E in Hs, Hd, Hb. cbn in Hs, Hb. apply StronglySorted_inv in Hs as [Hs1 Hs2]. apply Forall_cons in Hd as [Hd1 Hd2].
  apply Forall_cons in Hb as [Hb1 Hb2]. cbn [fst snd] in Hd1. split_and!; [|by apply Forall_cons in Hd1 as [-> _]|done].
  constructor; cbn [with_dispatched dispatched_trains_ last_departure_]; [| |by apply pop_keys|done].
  - destruct trs; [done|]. by constructor.
  - destruct trs; [done|]. constructor; [|done]. by apply Forall_cons in Hd1 as [_ ?].
Qed.

Lemma mapped_mono st st' clock now : dispatched_trains_ st' = dispatched_trains_ st → (∀ l, last_departure_ st' = Some l → l ≤ now) → clock ≤ now →
  mapped st clock → mapped st' now.
Proof. intros E1 E2 Hc [Hs Hd Hb Hl]. constructor; rewrite ?E1; try done. eapply Forall_impl; [exact Hb|]. intros. cbn in *. lia. Qed.

Lemma timely_mono st st' clock now : same_trains st st' → (∀ l, last_departure_ st' = Some l → l ≤ now) → clock ≤ now →
  timely st clock → timely st' now.
Proof.
  intros (E1 & E2 & E3) El Hc [[Hm Ht He] Htm]. constructor; [constructor; [by eapply mapped_mono| |]|]; unfold next_departure in *; rewrite ?E1, ?E2, ?E3; [|done|].
  - intros Hp. specialize (Ht Hp). lia.
  - intros Hw. destruct (Htm Hw) as (tm & -> & Hle). exists tm. split; [done|]. lia.
Qed.

(** The train that departs is due within the bound. *)
Lemma depart_mapped now retention st clock : mapped st clock → clock ≤ now →
  departure_ (train_ st) ≤ clock + bound ∧ minimal_debounce_time_ (train_ st) ≤ bound → mapped (depart now retention st) now.
Proof.
  intros [Hs Hd Hb Hl] Hc [Hdep Hdeb]. unfold depart, schedule_train. set (tr := match last_departure_ st with Some _ => _ | None => _ end).
  assert (Htr : departure_ tr ≤ clock + bound).
  { subst tr. destruct (last_departure_ st) as [l|]; [|done]. specialize (Hl l eq_refl). destruct (_ <? _); cbn; lia. }
  constructor; cbn [with_train with_dispatched dispatched_trains_ last_departure_].
  - by apply push_sorted.
  - by apply push_departures.
  - apply push_keys; [lia|]. eapply Forall_impl; [exact Hb|]. intros. cbn in *. lia.
  - intros l E. specialize (Hl l E). lia.
Qed.

Lemma start_timely now st : mapped st now →
  (passengers_ (train_ st) ≠ ∅ → departure_ (train_ st) ≤ now + bound ∧ minimal_debounce_time_ (train_ st) ≤ bound) →
  (passengers_ (train_ st) = ∅ → Forall (λ d, d ≤ departure_ (train_ st)) (dispatched_trains_ st).*1) → timely (start_dispatch_timer now st) now.
Proof.
  intros Hm Hc He. constructor; [constructor; [|exact Hc|exact He]|].
  - apply (mapped_mono st _ now); [done|apply (mp_last _ _ Hm)|lia|done].
  - intros _. unfold start_dispatch_timer. eexists. split; [done|]. change (next_departure (with_timer _ st)) with (next_departure st).
    destruct (Z.ltb_spec now (next_departure st)); lia.
Qed.

(** A train that a message has boarded, with the timer started. *)
Lemma board_timely now data i deb ret st : mapped st now → departure_ (train_ st) ≤ now + bound → deb ≤ bound →
  timely (start_dispatch_timer now (with_train (board data i deb ret (train_ st)) st)) now.
Proof.
  intros Hm Hd Hdeb. set (st' := with_train _ st).
  assert (Hne : passengers_ (train_ st') ≠ ∅) by (apply (non_empty_inhabited_L i), elem_of_union_r; by apply elem_of_singleton).
  apply start_timely; [|intros _; split; [exact Hd|]|intros E; by destruct Hne].
  - apply (mapped_mono st _ now); [done|apply (mp_last _ _ Hm)|lia|done].
  - cbn. destruct (Z.ltb_spec deb (minimal_debounce_time_ (train_ st))); lia.
Qed.

Lemma send_timely now data st clock b o st' : timely st clock → clock ≤ now → send host cfg now data st = Some (Ok (b, o, st')) → timely st' now.
Proof.
  intros H Hc E. pose proof H as [[Hm Ht He] Htm]. unfold send in E.
  assert (Hsame : timely st now) by (apply (timely_mono st st clock); [done| |done|done]; intros l El; apply (mp_last _ _ Hm) in El; lia).
  destruct (sending_blocked_ st); [by injection E as <- <- <-|]. destruct (check_queue_limit cfg data st) as [[]| | |]; try done; [|by injection E as <- <- <-].
  destruct (check_message_size cfg _).
  - destruct (send_one host cfg now data st) as [st1| | |] eqn:Es; try done. injection E as <- <- <-. unfold send_one in Es.
    destruct (read_identifier host data) as [[s m]| | |]; try done. rewrite bind_Ok in Es. destruct (Htimes s m) as [Hdeb Hret].
    destruct (get_configured_times cfg s m) as [deb ret]. cbn [fst snd] in *. injection Es as <-. cbn [cancel_dispatch_timer with_timer train_].
    assert (Hm' : ∀ st1, dispatched_trains_ st1 = dispatched_trains_ st → last_departure_ st1 = last_departure_ st → mapped st1 now).
    { intros st1 E1 E2. apply (mapped_mono st st1 clock); [done| |done|done]. intros l El. rewrite E2 in El. apply (mp_last _ _ Hm) in El. lia. }
    destruct (decide _) as [Hp|Hp]; [apply board_timely; [by apply Hm'|cbn; lia|done]|]. specialize (Ht Hp). destruct (must_depart _ _ _ _ _ _ _).
    + apply board_timely; [|cbn; lia|done]. apply (depart_mapped now ret (with_timer None st) clock); [|done|done].
      apply (mapped_mono st _ clock); [done|apply (mp_last _ _ Hm)|lia|done].
    + destruct (_ <? _); (apply board_timely; [by apply Hm'|cbn; lia|done]).
  - unfold segment_message in E. destruct (read_identifier host data) as [[s m]| | |]; try done. rewrite Htp in E. by injection E as <- <- <-.
Qed.

(** ** The timer empties the trains *)

(** The load that waits. *)
Definition outstanding (st : t) : list train :=
  waiting_trains (dispatched_trains_ st) ++ if decide (passengers_ (train_ st) = ∅) then [] else [train_ st].

(** Trains that are empty have no load. *)
Definition loaded (st : t) : Prop :=
  (passengers_ (train_ st) = ∅ ↔ buffer_ (train_ st) = []) ∧ Forall (λ tr, buffer_ tr ≠ []) (waiting_trains (dispatched_trains_ st)).

Lemma conserved_loaded st acc sent gs cur : conserved st acc sent gs cur → loaded st.
Proof.
  intros H. split; [|apply (con_waiting _ _ _ _ _ H)]. rewrite (current_empty _ _ _ _ _ H), (buffer_empty _ _ _ _ _ H). done.
Qed.

Lemma next_departure_le st clock T : scheduled st clock → outstanding st ≠ [] → Forall (λ tr, departure_ tr ≤ T) (outstanding st) → next_departure st ≤ T.
Proof.
  intros [Hm _ _] Hne Ha. unfold next_departure, outstanding in *. destruct (dispatched_trains_ st) as [|[d [tr trs]] m] eqn:Ed.
  - cbn in Ha, Hne. destruct (decide _); [done|]. by apply Forall_cons in Ha as [? _].
  - apply Forall_cons in Ha as [Hle _]. cbn in Hle. pose proof (pop_mapped _ _ _ _ _ _ Hm Ed) as (_ & E & _). destruct (Z.ltb_spec d (departure_ (train_ st))); lia.
Qed.

(** The timer is armed, and due when the waiting trains are. *)
Lemma timer_due st clock T : timely st clock → clock ≤ T → outstanding st ≠ [] → Forall (λ tr, departure_ tr ≤ T) (outstanding st) →
  ∃ tm, dispatch_timer_ st = Some tm ∧ tm ≤ T.
Proof.
  intros H Hc Hne Ha. pose proof (next_departure_le _ _ _ (tl_scheduled _ _ H) Hne Ha). destruct (tl_timer _ _ H) as (tm & E & Hle); [|exists tm; split; [done|lia]].
  unfold outstanding in Hne. destruct (decide _); [right|by left]. intros E. by rewrite E in Hne.
Qed.

Lemma outstanding_due st clock : scheduled st clock → Forall (λ tr, departure_ tr ≤ clock + bound) (outstanding st).
Proof.
  intros [[_ Hd Hb _] Hcur _]. unfold outstanding. apply Forall_app_2; [|destruct (decide _); [done|]; constructor; [by apply Hcur|done]].
  induction (dispatched_trains_ st) as [|[d [tr trs]] m IH]; [done|]. apply Forall_cons in Hd as [Hd1 Hd2]. cbn in Hb. apply Forall_cons in Hb as [Hb1 Hb2].
  apply (Forall_app_2 _ (tr :: trs)); [|by apply IH]. eapply Forall_impl; [exact Hd1|]. intros x. cbn. lia.
Qed.

Lemma queue_train_same tr st : let st' := (queue_train tr st).2 in
  queue_ st' = queue_ st ++ [(buffer_ tr, 0)] ∧ dispatched_trains_ st' = dispatched_trains_ st ∧ train_ st' = train_ st ∧ last_departure_ st' = last_departure_ st.
Proof. destruct (kick_same (enqueue (buffer_ tr) 0 st)) as (E1 & E2 & E3 & _ & E5). done. Qed.

Lemma first_departure d tr trs m st clock : mapped st clock → dispatched_trains_ st = (d, (tr, trs)) :: m →
  Forall (λ x, d ≤ departure_ x) (waiting_trains (dispatched_trains_ st)).
Proof.
  intros [Hs Hd _ _]. intros E. rewrite E in *. cbn in Hs. apply StronglySorted_inv in Hs as [_ Hs]. apply Forall_cons in Hd as [Hd1 Hd2]. clear E.
  apply (Forall_app_2 _ (tr :: trs)); [eapply Forall_impl; [exact Hd1|]; intros x; cbn; lia|]. clear Hd1.
  induction m as [|[d' [tr' trs']] m IH]; [done|]. apply Forall_cons in Hd2 as [Hd1 Hd2]. cbn in Hs. apply Forall_cons in Hs as [Hs1 Hs2].
  apply (Forall_app_2 _ (tr' :: trs')); [|by apply IH]. eapply Forall_impl; [exact Hd1|]. intros x. cbn. lia.
Qed.

Lemma flush_first now d tr trs m st clock : scheduled st clock → clock ≤ now → dispatched_trains_ st = (d, (tr, trs)) :: m → d ≤ departure_ (train_ st) →
  let st1 := (queue_train tr (with_dispatched (pop_front d trs m) st)).2 in
  timely (start_dispatch_timer now st1) now ∧ outstanding st ≡ₚ tr :: outstanding (start_dispatch_timer now st1)
  ∧ Forall (λ x, departure_ tr ≤ departure_ x) (outstanding st).
Proof.
  intros [Hm Hc He] Hn Ed Hle. destruct (queue_train_same tr (with_dispatched (pop_front d trs m) st)) as (_ & E2 & E3 & E4). cbv zeta.
  set (st1 := (queue_train _ _).2) in *. destruct (pop_mapped _ _ _ _ _ _ Hm Ed) as (Hm1 & -> & _). split_and!.
  - apply start_timely; rewrite ?E2, ?E3.
    + apply (mapped_mono (with_dispatched (pop_front d trs m) st) _ clock); [done| |done|done]. rewrite E4. intros l El. apply (mp_last _ _ Hm) in El. lia.
    + intros Hp. specialize (Hc Hp). cbn. lia.
    + intros Hp. specialize (He Hp). rewrite Ed in He. apply Forall_cons in He as [He1 He2]. by apply pop_keys.
  - unfold outstanding. cbn [start_dispatch_timer with_timer dispatched_trains_ train_]. rewrite E2, E3, Ed, pop_trains. done.
  - apply Forall_app_2; [by apply (first_departure d tr trs m st clock)|]. destruct (decide _); by repeat constructor.
Qed.

Lemma flush_last now st clock : scheduled st clock → clock ≤ now → passengers_ (train_ st) ≠ ∅ →
  match dispatched_trains_ st with (d, _) :: _ => departure_ (train_ st) < d | [] => True end →
  let st1 := with_train (reset now (train_ st)) (queue_train (train_ st) st).2 in
  timely (if negb true || negb (bool_decide (dispatched_trains_ st1 = [])) then start_dispatch_timer now st1 else st1) now
  ∧ outstanding st ≡ₚ train_ st :: outstanding st1 ∧ Forall (λ x, departure_ (train_ st) ≤ departure_ x) (outstanding st).
Proof.
  intros [Hm Hc He] Hn Hp Hfirst. destruct (queue_train_same (train_ st) st) as (_ & E2 & E3 & E4). cbv zeta. cbn [negb orb].
  set (st1 := with_train _ _) in *. assert (Ed : dispatched_trains_ st1 = dispatched_trains_ st) by done.
  assert (Hm1 : mapped st1 now) by (apply (mapped_mono st _ clock); [done| |done|done]; intros l El; cbn in El; rewrite E4 in El; apply (mp_last _ _ Hm) in El; lia).
  assert (He1 : Forall (λ d, d ≤ departure_ (train_ st1)) (dispatched_trains_ st1).*1).
  { rewrite Ed. eapply Forall_impl; [apply (mp_bound _ _ Hm)|]. intros x Hx. cbn in *. lia. }
  split_and!.
  - destruct (bool_decide _) eqn:Eb; cbn [negb]; [apply bool_decide_eq_true in Eb|by apply start_timely].
    constructor; [done|]. intros [Hx|Hx]; [by destruct Hx|done].
  - unfold outstanding. rewrite Ed. rewrite (decide_False (P := passengers_ (train_ st) = ∅)), decide_True by done. rewrite app_nil_r. symmetry. apply Permutation_cons_append.
  - unfold outstanding. rewrite decide_False by done. apply Forall_app_2; [|by repeat constructor]. destruct (dispatched_trains_ st) as [|[d [tr trs]] m] eqn:E; [done|].
    rewrite <- E. eapply Forall_impl; [by apply (first_departure d tr trs m st clock)|]. intros x. cbn. lia.
Qed.

(** What it is that one expiry of the timer does: the train that is due first joins
    the queue and the others still wait. *)
Definition departs (now : Z) (st st' : t) : Prop :=
  timely st' now ∧ ∃ tr, queue_ st' = queue_ st ++ [(buffer_ tr, 0)] ∧ outstanding st ≡ₚ tr :: outstanding st'
    ∧ Forall (λ x, departure_ tr ≤ departure_ x) (outstanding st).

Lemma flush_departs now st clock b o st' : scheduled st clock → clock ≤ now → loaded st → outstanding st ≠ [] → flush now st = (b, o, st') →
  b = true ∧ departs now st st'.
Proof.
  intros H Hn [Hl1 Hl2] Hne E. unfold flush in E.
  assert (Hcur : passengers_ (train_ st) ≠ ∅ → match dispatched_trains_ st with (d, _) :: _ => departure_ (train_ st) < d | [] => True end →
      (let '(has_queued, o, st1) := match buffer_ (train_ st) with
      | [] => (false, [], st)
      | _ => let '(o, st1) := queue_train (train_ st) st in (true, o, with_train (reset now (train_ st)) st1) end in
      let st1 := if negb true || negb (bool_decide (dispatched_trains_ st1 = [])) then start_dispatch_timer now st1 else st1 in
      (has_queued, o, st1)) = (b, o, st') → b = true ∧ departs now st st').
  { clear E. intros Hp Hf E. destruct (flush_last now st clock H Hn Hp Hf) as (Ht & Ho & Hd). destruct (queue_train_same (train_ st) st) as (Eq & _).
    destruct (buffer_ (train_ st)) as [|x l] eqn:Eb; [by destruct Hp; apply Hl1|]. destruct (queue_train (train_ st) st) as [o1 st1]. cbn [snd] in *. rewrite <- Eb in Eq.
    injection E as <- <- <-. split; [done|]. split; [done|]. exists (train_ st). match goal with |- context [if ?x then _ else _] => destruct x end; done. }
  destruct (dispatched_trains_ st) as [|[d [tr trs]] m] eqn:Ed.
  { apply Hcur; [|done|exact E]. unfold outstanding in Hne. rewrite Ed in Hne. by destruct (decide _). }
  destruct (Z.leb_spec d (departure_ (train_ st))) as [Hle|Hlt]; [clear Hcur|apply Hcur; [|done|exact E]].
  - destruct (flush_first now d tr trs m st clock H Hn Ed Hle) as (Ht & Ho & Hd). destruct (queue_train_same tr (with_dispatched (pop_front d trs m) st)) as (Eq & _).
    rewrite pop_trains in Hl2. apply Forall_cons in Hl2 as [Hb _]. destruct (buffer_ tr) as [|x l] eqn:Eb; [done|].
    destruct (queue_train tr _) as [o1 st1]. cbn [snd] in *. injection E as <- <- <-. split; [done|]. split; [done|]. exists tr. by rewrite Eb.
  - intros Hp. pose proof (sc_empty _ _ H Hp) as He. rewrite Ed in He. apply Forall_cons in He as [He _]. cbn in He. lia.
Qed.

(** The timer expires, as often as it is due. *)
Fixpoint run_timer (now : Z) (n : nat) (st : t) : t :=
  match n with
  | O => st
  | S n => match dispatch_timer_ st with Some tm => if tm <=? now then run_timer now n (flush_cbk now st).2 else st | None => st end
  end.

Lemma timer_departs now st clock acc sent gs cur : timely st clock → clock ≤ now → conserved st acc sent gs cur → outstanding st ≠ [] →
  departs now st (flush_cbk now st).2 ∧ ∃ gs' cur', conserved (flush_cbk now st).2 acc sent gs' cur'.
Proof.
  intros H Hn Hc Hne. unfold flush_cbk. destruct (flush now (with_timer None st)) as [[b o] st'] eqn:E. cbn [snd].
  assert (Hc' : conserved (with_timer None st) acc sent gs cur) by (by apply (conserved_same st)). split; [|by eapply flush_conserved].
  destruct H as [[Hm Hcur He] _]. eapply (flush_departs now (with_timer None st) clock); [|done|by eapply conserved_loaded|exact Hne|exact E].
  constructor; [|exact Hcur|exact He]. apply (mapped_mono st _ clock); [done|apply (mp_last _ _ Hm)|lia|done].
Qed.

Lemma run_timer_departs now n : ∀ st clock acc sent gs cur, timely st clock → clock ≤ now → conserved st acc sent gs cur →
  length (outstanding st) = n → Forall (λ tr, departure_ tr ≤ now) (outstanding st) →
  let st' := run_timer now n st in
  outstanding st' = [] ∧ ∃ trs, trs ≡ₚ outstanding st ∧ StronglySorted (λ a b, departure_ a ≤ departure_ b) trs
    ∧ queue_ st' = queue_ st ++ ((λ tr, (buffer_ tr, 0)) <$> trs).
Proof.
  induction n as [|n IH]; intros st clock acc sent gs cur H Hn Hc Hlen Hdue; cbn [run_timer].
  { apply nil_length_inv in Hlen. rewrite Hlen. split; [done|]. exists []. split_and!; [done|constructor|by rewrite app_nil_r]. }
  assert (Hne : outstanding st ≠ []) by (intros E; by rewrite E in Hlen).
  destruct (timer_due _ _ _ H Hn Hne Hdue) as (tm & -> & ->%Z.leb_le).
  destruct (timer_departs now st clock _ _ _ _ H Hn Hc Hne) as [(Ht & tr & Eq & Ho & Hmin) (gs' & cur' & Hc')].
  set (st1 := (flush_cbk now st).2) in *. rewrite Ho in Hlen, Hdue, Hmin. apply Forall_cons in Hdue as [_ Hdue]. apply Forall_cons in Hmin as [_ Hmin].
  destruct (IH st1 now acc sent gs' cur' Ht) as (H1 & trs & Hp & Hs & Hq); [lia|done|cbn in Hlen; lia|done|]. split; [done|]. exists (tr :: trs). split_and!.
  - by rewrite Hp, Ho.
  - constructor; [done|]. by rewrite Hp.
  - rewrite Hq, Eq. cbn. by rewrite <- app_assoc.
Qed.

(** With nothing waiting the timer changes nothing. *)
Lemma flush_idle now st clock b o st' : scheduled st clock → clock ≤ now → loaded st → outstanding st = [] → flush now st = (b, o, st') → timely st' now.
Proof.
  intros [Hm Hcur He] Hn [Hl1 _] Hno E. unfold outstanding in Hno. apply app_eq_nil in Hno as [Hw Hp]. destruct (decide _) as [Hp'|]; [|done].
  assert (Ed : dispatched_trains_ st = []) by (by destruct (dispatched_trains_ st) as [|[? [? ?]] ?]). unfold flush in E. rewrite Ed in E.
  apply Hl1 in Hp' as Hb. rewrite Hb in E. rewrite Ed in E. injection E as <- <- <-.
  constructor; [constructor; [|done|done]|by rewrite Ed; intros [?|?]]. apply (mapped_mono st _ clock); [done| |done|done]. intros l El. apply (mp_last _ _ Hm) in El. lia.
Qed.

Lemma timely_step faults s s' : step faults s s' → (∃ gs cur, conserved (ep s) (accepted s) (sent s) gs cur) →
  timely (ep s) (clock s) → timely (ep s') (clock s').
Proof.
  intros Hstep (gs & cur & Hc) H. pose proof (mp_last _ _ (sc_mapped _ _ (tl_scheduled _ _ H))) as Hl.
  destruct Hstep as [now data b o st s Hn E|now tm o st s Hn _ _ E|now b o st s Hn E|now e q o st s Hn _ Eq E|now e o st s Hn _ Hk E|e h o st s _ E|e h o st s _ E|b e h o st s _ E|b1 b2 s|b1 b2 s]; cbn [ep clock] in *.
  - by eapply send_timely.
  - destruct (decide (outstanding (ep s) = [])) as [Hno|Hne].
    + unfold flush_cbk in E. destruct (flush now (with_timer None (ep s))) as [[b o'] st'] eqn:Ef. injection E as <- <-.
      eapply (flush_idle now (with_timer None (ep s)) (clock s)); [|done|by eapply (conserved_loaded _ _ _ _ _ (conserved_same (ep s) _ _ _ _ _ eq_refl eq_refl eq_refl eq_refl Hc))|exact Hno|exact Ef].
      destruct H as [[Hm Hcur He] _]. constructor; [|exact Hcur|exact He]. apply (mapped_mono (ep s) _ (clock s)); [done|done|lia|done].
    + destruct (timer_departs now (ep s) (clock s) _ _ _ _ H Hn Hc Hne) as [[Ht _] _]. by rewrite E in Ht.
  - destruct (decide (outstanding (ep s) = [])) as [Hno|Hne].
    + eapply (flush_idle now (ep s) (clock s)); [apply (tl_scheduled _ _ H)|done|by eapply conserved_loaded|exact Hno|exact E].
    + destruct (flush_departs now (ep s) (clock s) b o st (tl_scheduled _ _ H) Hn) as (_ & Ht & _); [by eapply conserved_loaded|done|done|done].
  - pose proof (sent_same now _ _ _ Eq) as (Hs & _ & El). rewrite E in Hs, El. apply (timely_mono (ep s) _ (clock s)); [done| |done|done]. cbn in *. rewrite El. intros l [= <-]. lia.
  - pose proof (failed_same now e (ep s) Hk) as (Hs & _ & El). rewrite E in Hs, El. apply (timely_mono (ep s) _ (clock s)); [done| |done|done]. cbn in *. rewrite El. intros l ?%Hl. lia.
  - pose proof (connect_same e h (ep s)) as (Hs & _ & El). rewrite E in Hs, El. apply (timely_mono (ep s) _ (clock s)); [done| |lia|done]. cbn in *. by rewrite El.
  - destruct (connecting_same e h true (ep s)) as [(Hs & _ & El) _]. rewrite E in Hs, El. apply (timely_mono (ep s) _ (clock s)); [done| |lia|done]. cbn in *. by rewrite El.
  - destruct (connecting_same e h b (ep s)) as [_ (Hs & _ & El)]. rewrite E in Hs, El. apply (timely_mono (ep s) _ (clock s)); [done| |lia|done]. cbn in *. by rewrite El.
  - destruct (state_same b1 b2 (ep s)) as [(Hs & _ & El & _) _]. apply (timely_mono (ep s) _ (clock s)); [done| |lia|done]. by rewrite El.
  - destruct (state_same b1 b2 (ep s)) as [_ (Hs & _ & El & _)]. apply (timely_mono (ep s) _ (clock s)); [done| |lia|done]. by rewrite El.
Qed.

Lemma timely_reachable faults now s : rtc (step faults) (initial now) s → timely (ep s) (clock s).
Proof.
  revert s. apply rtc_ind_r; [|intros s2 s3 Hr Hs IH].
  - constructor; [constructor; [constructor|..]|]; cbn; try done; [constructor|]. by intros [?|?].
  - eapply timely_step; [done|by eapply conserved_reachable|done].
Qed.
End timer.
End system.

(** ** The theorems *)


(** As long as no write fails, the buffers are written one at a time and in the
    order of the queue: what was written is what was confirmed and, while a write is
    going on, the front of the queue; a write is going on whenever the queue is not
    empty. *)
Theorem npdu_writes_in_order (host : endianess_e) (cfg : configuration) (now : Z) (s : sys)
  (Hreach : rtc (step host cfg false) (initial now) s) :
  writes s = sent s ++ take 1 (queue_ (ep s)).*1 ∧ is_sending_ (ep s) = bool_decide (queue_ (ep s) ≠ []).
Proof.
  destruct (in_order_reachable _ _ _ _ Hreach) as [Hf He]. unfold fronted in Hf. destruct (is_sending_ (ep s)).
  - destruct Hf as [Hq Hw]. split; [done|]. by rewrite bool_decide_eq_true_2.
  - rewrite He by done. split; [by rewrite app_nil_r|done].
Qed.

(** (C22) Every train departs in time.  Without segmentation and with debouncing and
    retention times of at most [bound], the trains that wait in a state that the
    endpoint reaches are all due within [bound]; and when the timer is served at a
    time at which they are due, it expires once for each of them and puts them into
    the queue, in the order of their departures, until none waits. *)
Theorem npdu_departs (host : endianess_e) (cfg : configuration) (faults : bool) (bound now T : Z) (s : sys)
  (Hbound : 0 ≤ bound ≤ six_hours) (Htimes : ∀ s m, (get_configured_times cfg s m).1 ≤ bound ∧ (get_configured_times cfg s m).2 ≤ bound)
  (Htp : ∀ s m, get_tp_configuration cfg s m = None) (Hreach : rtc (step host cfg faults) (initial now) s)
  (Hnow : clock s ≤ T) (Hdue : Forall (λ tr, departure_ tr ≤ T) (outstanding (ep s))) :
  Forall (λ tr, departure_ tr ≤ clock s + bound) (outstanding (ep s))
  ∧ let st := run_timer T (length (outstanding (ep s))) (ep s) in
    outstanding st = [] ∧ ∃ trs, trs ≡ₚ outstanding (ep s) ∧ StronglySorted (λ a b, departure_ a ≤ departure_ b) trs
      ∧ queue_ st = queue_ (ep s) ++ ((λ tr, (buffer_ tr, 0)) <$> trs).
Proof.
  pose proof (timely_reachable host cfg bound Hbound Htimes Htp faults now s Hreach) as Ht. split; [apply outstanding_due, Ht|].
  destruct (conserved_reachable _ _ _ _ _ Hreach) as (gs & cur & Hc). by eapply run_timer_departs.
Qed.

(** ** Examples *)

Definition ms (n : Z) : Z := n * 1000000.
Definition request (m : Z) : bytes := [0x12; 0x34; 0; m; 0; 0; 0; 8; 0; 1; 0; 1; 1; 1; 0; 0].

(** The default times of requests: 2 ms of debouncing and 5 ms of retention. *)
Definition example_configuration : configuration :=
  mk_configuration 1416 QUEUE_SIZE_UNLIMITED (λ _ _, (ms 2, ms 5)) (λ _ _, None) MAX_RECONNECTS_UNLIMITED.

Definition after_send (now : Z) (data : bytes) (s : sys) : sys :=
  match send le example_configuration now data (ep s) with
  | Some (Ok (b, o, st)) => mk_sys st now (accepted s ++ if b then units le example_configuration data else []) (sent s) (writes s ++ written o)
  | _ => s
  end.
Definition after_timer (now : Z) (s : sys) : sys :=
  let '(o, st) := flush_cbk now (ep s) in mk_sys st now (accepted s) (sent s) (writes s ++ written o).
Definition after_sent (now : Z) (s : sys) : sys :=
  let '(o, st) := send_cbk now none (ep s) in mk_sys st now (accepted s) (sent s ++ take 1 (queue_ (ep s)).*1) (writes s ++ written o).

(** Methods 1 and 2 share a train; the second message of method 1 makes it depart
    and takes the next one. *)
Definition example_sends : sys := after_send 100000 (request 1) (after_send 0 (request 2) (after_send 0 (request 1) (initial 0))).
Definition example_departed : sys := after_timer 5100000 (after_sent 5000000 (after_timer 5000000 example_sends)).

Lemma example_sends_reachable faults : rtc (step le example_configuration faults) (initial 0) example_sends.
Proof.
  eapply rtc_l; [apply (step_send _ _ _ 0 (request 1)); [done|vm_compute; reflexivity]|].
  eapply rtc_l; [apply (step_send _ _ _ 0 (request 2)); [done|vm_compute; reflexivity]|].
  eapply rtc_l; [apply (step_send _ _ _ 100000 (request 1)); [done|vm_compute; reflexivity]|].
  match goal with |- rtc _ ?x ?y => replace y with x by (vm_compute; reflexivity) end. constructor.
Qed.

Lemma example_departed_reachable faults : rtc (step le example_configuration faults) (initial 0) example_departed.
Proof.
  etrans; [apply example_sends_reachable|].
  eapply rtc_l; [eapply (step_timer _ _ _ 5000000); [vm_compute; congruence|vm_compute; reflexivity|done|vm_compute; reflexivity]|].
  eapply rtc_l; [eapply (step_sent _ _ _ 5000000); [done|done|reflexivity|vm_compute; reflexivity]|].
  eapply rtc_l; [eapply (step_timer _ _ _ 5100000); [vm_compute; congruence|reflexivity|done|vm_compute; reflexivity]|].
  match goal with |- rtc _ ?x ?y => replace y with x by (vm_compute; reflexivity) end. constructor.
Qed.


Lemma npdu_writes_in_order_witness : writes example_departed = [request 1 ++ request 2; request 1] ∧
  writes example_departed = sent example_departed ++ take 1 (queue_ (ep example_departed)).*1 ∧ is_sending_ (ep example_departed) = bool_decide (queue_ (ep example_departed) ≠ []).
Proof.
  split; [vm_compute; reflexivity|]. apply (npdu_writes_in_order le example_configuration 0). apply example_departed_reachable.
Defined.

Lemma npdu_departs_witness : length (outstanding (ep example_sends)) = 2%nat ∧
  let st := run_timer (ms 6) 2 (ep example_sends) in
  outstanding st = [] ∧ ∃ trs, trs ≡ₚ outstanding (ep example_sends) ∧ StronglySorted (λ a b, departure_ a ≤ departure_ b) trs
    ∧ queue_ st = queue_ (ep example_sends) ++ ((λ tr, (buffer_ tr, 0)) <$> trs).
Proof.
  split; [vm_compute; reflexivity|].
  refine (proj2 (npdu_departs le example_configuration true (ms 5) 0 (ms 6) example_sends _ _ _ (example_sends_reachable true) _ _)).
  - vm_compute. split; congruence.
  - intros s m. vm_compute. split; congruence.
  - done.
  - vm_compute. congruence.
  - assert (E : departure_ <$> outstanding (ep example_sends) = [ms 5; 5100000]) by (vm_compute; reflexivity).
    apply (Forall_fmap departure_ (λ d, d ≤ ms 6)). rewrite E. repeat constructor; vm_compute; congruence.
Defined.

(** The debouncing time is not the least time between two messages of a method: with
    one of 2 ms, method 1 is sent twice within 0.1 ms.  The departure of a train is
    fixed before the last departure is known. *)
Example debouncing_not_kept :
  written (flush_cbk 5000000 (ep example_sends)).1 = [request 1 ++ request 2]
  ∧ dispatch_timer_ (ep (after_sent 5000000 (after_timer 5000000 example_sends))) = Some 5100000
  ∧ written (flush_cbk 5100000 (ep (after_sent 5000000 (after_timer 5000000 example_sends)))).1 = [request 1].
Proof. split_and!; vm_compute; reflexivity. Qed.

(** With an empty train that departs before those that wait, the timer expires again
    and again at once and nothing departs. *)
Lemma empty_train_blocks now d tr trs m st : buffer_ (train_ st) = [] → dispatched_trains_ st = (d, (tr, trs)) :: m → departure_ (train_ st) < d →
  departure_ (train_ st) ≤ now → flush_cbk now st = ([], with_timer (Some now) st).
Proof.
  intros Eb Ed Hlt Hle. unfold flush_cbk, flush. cbn [with_timer dispatched_trains_ train_]. rewrite Ed.
  destruct (Z.leb_spec d (departure_ (train_ st))); [lia|]. rewrite Eb. cbn [with_timer dispatched_trains_ negb orb]. rewrite Ed, bool_decide_eq_false_2 by done. cbn [negb].
  unfold start_dispatch_timer, next_departure. cbn [with_timer dispatched_trains_ train_]. rewrite Ed.
  destruct (Z.ltb_spec d (departure_ (train_ st))); [lia|]. destruct (Z.ltb_spec now (departure_ (train_ st))); [lia|]. done.
Qed.

(** A segmented message leaves such a train behind where its debouncing time exceeds
    its retention time: the message of method 1 stays. *)
Definition segmenting_configuration : configuration :=
  mk_configuration 1416 QUEUE_SIZE_UNLIMITED (λ _ _, (ms 10, ms 5)) (λ _ m, if m =? 2 then Some (1392%nat, 0) else None) MAX_RECONNECTS_UNLIMITED.

Definition big_request : bytes := [0x12; 0x34; 0; 2; 0; 0; 5; 0x98; 0; 1; 0; 1; 1; 1; 0; 0] ++ repeat 0 1424.

Definition sent_by (r : option (result (bool * list output * t))) (st : t) : t := match r with Some (Ok (_, _, st)) => st | _ => st end.

Definition blocked_endpoint : t :=
  let st := create 0 in
  let st := sent_by (send le segmenting_configuration 0 (request 1) st) st in
  let st := (send_cbk (ms 5) none (flush_cbk (ms 5) st).2).2 in
  let st := sent_by (send le segmenting_configuration (ms 6) (request 1) st) st in
  sent_by (send le segmenting_configuration (ms 6) big_request st) st.

Example segments_block_train : dispatch_timer_ blocked_endpoint = Some (ms 11) ∧ buffer_ <$> outstanding blocked_endpoint = [request 1]
  ∧ ∀ now, ms 11 ≤ now → flush_cbk now blocked_endpoint = ([], with_timer (Some now) blocked_endpoint).
Proof.
  split; [vm_compute; reflexivity|]. split; [vm_compute; reflexivity|]. intros now Hnow.
  eapply (empty_train_blocks now (ms 15)); [vm_compute; reflexivity|vm_compute; reflexivity|vm_compute; reflexivity|].
  replace (departure_ (train_ blocked_endpoint)) with (ms 11) by (vm_compute; reflexivity). done.
Qed.

(** Where the number of reconnects is not limited the timeout never grows: the
    attempts are not counted. *)
Lemma failed_connect_uncounted cfg st : get_max_allowed_reconnects cfg = MAX_RECONNECTS_UNLIMITED → reconnect_counter_ st = 0 →
  reconnect_counter_ (connect_cbk cfg other true st).2 = 0 ∧ connect_timeout_ (connect_cbk cfg other true st).2 = connect_timeout_ st.
Proof.
  intros Hc Hr. unfold connect_cbk. destruct (sending_blocked_ st); [done|]. rewrite Hc. cbn. unfold back_off. cbn. rewrite Hr. by rewrite andb_false_r.
Qed.

Lemma reconnects_never_back_off cfg n st : get_max_allowed_reconnects cfg = MAX_RECONNECTS_UNLIMITED → reconnect_counter_ st = 0 →
  let st' := Nat.iter n (λ st, (connect_cbk cfg other true st).2) st in reconnect_counter_ st' = 0 ∧ connect_timeout_ st' = connect_timeout_ st.
Proof.
  intros Hc Hr. induction n as [|n [IH1 IH2]]; [done|]. cbn [Nat.iter]. destruct (failed_connect_uncounted cfg _ Hc IH1) as [E1 E2]. split; [exact E1|exact (eq_trans E2 IH2)].
Qed.

(** A message of eleven bytes that exceeds the limit of the queue is read one byte
    past its end. *)
Example queue_limit_reads_past_end :
  check_queue_limit (mk_configuration 1416 10 (λ _ _, (0, 0)) (λ _ _, None) 0) (repeat 0 11) (create 0) = Ub oob_read.
Proof. reflexivity. Qed.
