(* ===== verification/SdPhases.v ===== *)
(** * The phases of the service discovery ([service_discovery/src/service_discovery_impl.cpp],
    [routing/src/serviceinfo.cpp], [service_discovery/src/request.cpp])

    Offers are collected for the initial wait phase, repeated in the repetition
    phase with growing delays and then sent cyclically in the main phase; requests
    are searched for with FindService entries in the same way.

    Services and requests are shared objects: the routing manager and the phases
    point to the same [serviceinfo], and two pointers are compared.  They live in
    stores and pointers are locations.  A repetition timer is the key of its map and
    lives as long as a wait is bound to it; the pending waits, with the arguments
    that are bound to the handler, are kept apart from the map.  Times are
    nanoseconds of the steady clock, delays milliseconds.

    [send] hands the entries of a call to the messages, stamps and sends them; how
    entries are packed and stamped is modelled in [Sd] and [SdSession].  Here an
    output is the list of the entries of one call.  The table of offered services
    ([host_->get_offered_services]) belongs to the routing manager and is an
    argument.  [is_someip] is part of the configuration. *)

From stdpp Require Import base list gmap sorting.
From Stdlib Require Import ZArith Lia.
From S2P Require Import Prelude Maps Protocol.

Module phases.

Definition loc : Set := nat.

Record serviceinfo : Type := mk_info {
  service_ : Z;
  instance_ : Z;
  major_ : Z;
  minor_ : Z;
  ttl_ : Z;  (* milliseconds *)
  reliable_ : option Z;  (* the local port of the endpoint *)
  unreliable_ : option Z;
  is_in_mainphase_ : bool;
  accepting_remote_subscription_ : bool;
  accepting_remote_subscription_from_ : gset Z
}.

Definition create_info (service instance major minor ttl : Z) : serviceinfo :=
  mk_info service instance major minor (ttl * 1000) None None false false ∅.
Definition get_ttl (i : serviceinfo) : Z := u32 (Z.quot (ttl_ i) 1000).
Definition set_ttl (ttl : Z) (i : serviceinfo) : serviceinfo :=
  mk_info (service_ i) (instance_ i) (major_ i) (minor_ i) (ttl * 1000) (reliable_ i) (unreliable_ i) (is_in_mainphase_ i) (accepting_remote_subscription_ i) (accepting_remote_subscription_from_ i).
Definition get_endpoint (reliable : bool) (i : serviceinfo) : option Z := if reliable then reliable_ i else unreliable_ i.
Definition set_endpoint (e : option Z) (reliable : bool) (i : serviceinfo) : serviceinfo :=
  mk_info (service_ i) (instance_ i) (major_ i) (minor_ i) (ttl_ i) (if reliable then e else reliable_ i) (if reliable then unreliable_ i else e)
    (is_in_mainphase_ i) (accepting_remote_subscription_ i) (accepting_remote_subscription_from_ i).
Definition set_is_in_mainphase (b : bool) (i : serviceinfo) : serviceinfo :=
  mk_info (service_ i) (instance_ i) (major_ i) (minor_ i) (ttl_ i) (reliable_ i) (unreliable_ i) b (accepting_remote_subscription_ i) (accepting_remote_subscription_from_ i).
Definition set_accepting_remote_subscriptions (b : bool) (i : serviceinfo) : serviceinfo :=
  mk_info (service_ i) (instance_ i) (major_ i) (minor_ i) (ttl_ i) (reliable_ i) (unreliable_ i) (is_in_mainphase_ i) b
    (if b then accepting_remote_subscription_from_ i else ∅).
Definition add_remote_ip (ip : Z) (i : serviceinfo) : serviceinfo :=
  mk_info (service_ i) (instance_ i) (major_ i) (minor_ i) (ttl_ i) (reliable_ i) (unreliable_ i) (is_in_mainphase_ i) (accepting_remote_subscription_ i)
    (accepting_remote_subscription_from_ i ∪ {[ip]}).

Record request : Type := mk_request { req_major : Z; req_minor : Z; req_ttl : Z; sent_counter_ : Z }.
Definition create_request (major minor ttl : Z) : request := mk_request major minor ttl 0.
Definition set_sent_counter (n : Z) (r : request) : request := mk_request (req_major r) (req_minor r) (req_ttl r) n.

(** Maps of services and instances, and of requests. *)
Abbreviation services_t := (gmap Z (gmap Z loc)).

(** Iteration over a map of maps. *)
Definition each {A} (m : gmap Z (gmap Z A)) : list (Z * Z * A) :=
  mjoin ((λ x, (λ y, (x.1, y.1, y.2)) <$> sorted x.2) <$> sorted m).

Definition find {A} (s i : Z) (m : gmap Z (gmap Z A)) : option A := m !! s ≫= λ x, x !! i.
(** [m[s][i] = a] *)
Definition put {A} (s i : Z) (a : A) (m : gmap Z (gmap Z A)) : gmap Z (gmap Z A) := <[s := <[i := a]> (default ∅ (m !! s))]> m.
(** Erases the instance, and the service with its last instance. *)
Definition erase {A} (s i : Z) (m : gmap Z (gmap Z A)) : gmap Z (gmap Z A) :=
  match m !! s with
  | Some x => if decide (delete i x = ∅) then delete s m else <[s := delete i x]> m
  | None => m
  end.

(** A pending wait of a repetition timer: the arguments of its handler and the time. *)
Record wait : Type := mk_wait { repetition : Z; last_delay : Z; expiry : Z }.

Record t : Type := mk {
  infos : gmap loc serviceinfo;
  requests : gmap loc request;
  requested_ : services_t;
  collected_offers_ : services_t;
  repetition_phase_timers_ : gmap nat services_t;
  repetition_waits : gmap nat wait;
  find_repetition_phase_timers_ : gmap nat services_t;
  find_waits : gmap nat wait;
  next_timer : nat;
  main_phase_timer_ : Z;
  main_phase_waits : bool;
  offer_debounce_timer_ : option Z;
  find_debounce_timer_ : option Z;
  remaining_find_initial_debounce_reps_ : Z;
  is_suspended_ : bool;
  is_diagnosis_ : bool
}.

Definition with_infos x st := mk x (requests st) (requested_ st) (collected_offers_ st) (repetition_phase_timers_ st) (repetition_waits st) (find_repetition_phase_timers_ st) (find_waits st) (next_timer st) (main_phase_timer_ st) (main_phase_waits st) (offer_debounce_timer_ st) (find_debounce_timer_ st) (remaining_find_initial_debounce_reps_ st) (is_suspended_ st) (is_diagnosis_ st).
Definition with_requests x y st := mk (infos st) x y (collected_offers_ st) (repetition_phase_timers_ st) (repetition_waits st) (find_repetition_phase_timers_ st) (find_waits st) (next_timer st) (main_phase_timer_ st) (main_phase_waits st) (offer_debounce_timer_ st) (find_debounce_timer_ st) (remaining_find_initial_debounce_reps_ st) (is_suspended_ st) (is_diagnosis_ st).
Definition with_collected x st := mk (infos st) (requests st) (requested_ st) x (repetition_phase_timers_ st) (repetition_waits st) (find_repetition_phase_timers_ st) (find_waits st) (next_timer st) (main_phase_timer_ st) (main_phase_waits st) (offer_debounce_timer_ st) (find_debounce_timer_ st) (remaining_find_initial_debounce_reps_ st) (is_suspended_ st) (is_diagnosis_ st).
Definition with_repetition x y n st := mk (infos st) (requests st) (requested_ st) (collected_offers_ st) x y (find_repetition_phase_timers_ st) (find_waits st) n (main_phase_timer_ st) (main_phase_waits st) (offer_debounce_timer_ st) (find_debounce_timer_ st) (remaining_find_initial_debounce_reps_ st) (is_suspended_ st) (is_diagnosis_ st).
Definition with_find_repetition x y n st := mk (infos st) (requests st) (requested_ st) (collected_offers_ st) (repetition_phase_timers_ st) (repetition_waits st) x y n (main_phase_timer_ st) (main_phase_waits st) (offer_debounce_timer_ st) (find_debounce_timer_ st) (remaining_find_initial_debounce_reps_ st) (is_suspended_ st) (is_diagnosis_ st).
Definition with_main x b st := mk (infos st) (requests st) (requested_ st) (collected_offers_ st) (repetition_phase_timers_ st) (repetition_waits st) (find_repetition_phase_timers_ st) (find_waits st) (next_timer st) x b (offer_debounce_timer_ st) (find_debounce_timer_ st) (remaining_find_initial_debounce_reps_ st) (is_suspended_ st) (is_diagnosis_ st).
Definition with_offer_debounce x st := mk (infos st) (requests st) (requested_ st) (collected_offers_ st) (repetition_phase_timers_ st) (repetition_waits st) (find_repetition_phase_timers_ st) (find_waits st) (next_timer st) (main_phase_timer_ st) (main_phase_waits st) x (find_debounce_timer_ st) (remaining_find_initial_debounce_reps_ st) (is_suspended_ st) (is_diagnosis_ st).
Definition with_find_debounce x n st := mk (infos st) (requests st) (requested_ st) (collected_offers_ st) (repetition_phase_timers_ st) (repetition_waits st) (find_repetition_phase_timers_ st) (find_waits st) (next_timer st) (main_phase_timer_ st) (main_phase_waits st) (offer_debounce_timer_ st) x n (is_suspended_ st) (is_diagnosis_ st).
Definition with_modes s d st := mk (infos st) (requests st) (requested_ st) (collected_offers_ st) (repetition_phase_timers_ st) (repetition_waits st) (find_repetition_phase_timers_ st) (find_waits st) (next_timer st) (main_phase_timer_ st) (main_phase_waits st) (offer_debounce_timer_ st) (find_debounce_timer_ st) (remaining_find_initial_debounce_reps_ st) s d.

(** Entries of the messages that are sent; the ports stand for the endpoint options. *)
Inductive sd_entry : Type :=
| offer_entry (service instance major minor ttl : Z) (reliable unreliable : option Z)
| find_entry (service instance major minor ttl : Z).

Inductive output : Type :=
| send_multicast (entries : list sd_entry)
| send_unicast (entries : list sd_entry).

Record configuration : Type := mk_configuration {
  initial_delay_ : Z;
  offer_debounce_time_ : Z;
  find_debounce_time_ : Z;
  find_initial_debounce_time_ : Z;
  repetitions_base_delay_ : Z;
  repetitions_max_ : Z;
  cyclic_offer_delay_ : Z;
  sd_ttl : Z;
  is_someip : Z → Z → bool
}.

Definition ms (n : Z) : Z := n * 1000000.

Section handlers.
Context (cfg : configuration).

(** [send]: messages without entries are not sent, and reported. *)
Definition send (entries : list sd_entry) : bool * list output :=
  match entries with [] => (false, []) | _ => (true, [send_multicast entries]) end.

(** ** Offers *)

Definition has_endpoint (i : serviceinfo) : bool :=
  match get_endpoint false i, get_endpoint true i with None, None => false | _, _ => true end.

Definition insert_offer_service (i : serviceinfo) : sd_entry :=
  offer_entry (service_ i) (instance_ i) (major_ i) (minor_ i) (if 0 <? get_ttl i then sd_ttl cfg else get_ttl i) (get_endpoint true i) (get_endpoint false i).

Definition insert_offer_entries (services : services_t) (ignore_phase : bool) (st : t) : list sd_entry :=
  omap (λ '(s, i, l),
    if negb (is_suspended_ st) && (negb (is_diagnosis_ st) || (is_diagnosis_ st && negb (is_someip cfg s i))) then
      match infos st !! l with
      | Some x => if (ignore_phase || is_in_mainphase_ x) && has_endpoint x then Some (insert_offer_service x) else None
      | None => None
      end
    else None) (each services).

Definition offer_service (l : loc) (st : t) : t :=
  match infos st !! l with
  | Some x =>
      match find (service_ x) (instance_ x) (collected_offers_ st) with
      | Some _ => st
      | None => with_collected (put (service_ x) (instance_ x) l (collected_offers_ st)) st
      end
  | None => st
  end.

Definition start_offer_debounce_timer (now : Z) (first_start : bool) (st : t) : t :=
  with_offer_debounce (Some (now + ms (if first_start then initial_delay_ cfg else offer_debounce_time_ cfg))) st.
Definition stop_offer_debounce_timer (st : t) : t := with_offer_debounce None st.

(** In diagnosis mode: an iterator for every instance that does not use SOME/IP,
    and each of them is inserted and erased; an iterator that was erased before
    is used again. *)
Definition non_someip_services (m : services_t) : list Z :=
  omap (λ '(s, i, _), if is_someip cfg s i then None else Some s) (each m).

Fixpoint move_services (l : list Z) (moved collected : services_t) : result (services_t * services_t) :=
  match l with
  | [] => Ok (moved, collected)
  | s :: l =>
      match collected !! s with
      | Some x => move_services l (match moved !! s with Some _ => moved | None => <[s := x]> moved end) (delete s collected)
      | None => Ub null_deref
      end
  end.

Definition take_collected (st : t) : result (services_t * services_t) :=
  if is_diagnosis_ st then move_services (non_someip_services (collected_offers_ st)) ∅ (collected_offers_ st)
  else Ok (collected_offers_ st, ∅).

Definition on_offer_debounce_timer_expired (now : Z) (st : t) : result (list output * t) :=
  if decide (collected_offers_ st = ∅) then Ok ([], start_offer_debounce_timer now false st)
  else
    '(repetition_phase_offers, collected) ← take_collected st;
    let st := with_collected collected st in
    let o := (send (insert_offer_entries repetition_phase_offers true st)).2 in
    let '(its_delay, its_repetitions) :=
      if negb (repetitions_max_ cfg =? 0) then (repetitions_base_delay_ cfg, 1) else (cyclic_offer_delay_ cfg, 0) in
    let its_timer := next_timer st in
    let st := with_repetition (<[its_timer := repetition_phase_offers]> (repetition_phase_timers_ st))
                (<[its_timer := mk_wait its_repetitions (u32 its_delay) (now + ms its_delay)]> (repetition_waits st)) (S its_timer) st in
    Ok (o, start_offer_debounce_timer now false st).

Definition set_mainphase_all (services : services_t) (m : gmap loc serviceinfo) : gmap loc serviceinfo :=
  foldl (λ m '(_, _, l), alter (set_is_in_mainphase true) l m) m (each services).

Definition move_offers_into_main_phase (timer : nat) (st : t) : t :=
  match repetition_phase_timers_ st !! timer with
  | Some services =>
      with_repetition (delete timer (repetition_phase_timers_ st)) (repetition_waits st) (next_timer st)
        (with_infos (set_mainphase_all services (infos st)) st)
  | None => st
  end.

Definition last_offer_shorter_half_offer_delay_ago (now : Z) (st : t) : bool :=
  let remaining := Z.quot (main_phase_timer_ st - now) 1000000 in
  let remaining := if remaining <? 0 then cyclic_offer_delay_ cfg else remaining in
  Z.quot (cyclic_offer_delay_ cfg) 2 <? remaining.

Definition on_repetition_phase_timer_expired (now : Z) (timer : nat) (rep last : Z) (st : t) : list output * t :=
  if rep =? 0 then ([], move_offers_into_main_phase timer st)
  else
    match repetition_phase_timers_ st !! timer with
    | Some services =>
        let '(new_delay, rep', move_to_main) :=
          if rep <=? repetitions_max_ cfg then (u32 (last * 2), u8 (rep + 1), false)
          else if last_offer_shorter_half_offer_delay_ago now st then (0, 0, true)
          else (cyclic_offer_delay_ cfg, 0, false) in
        let o := (send (insert_offer_entries services true st)).2 in
        if (move_to_main : bool) then (o, move_offers_into_main_phase timer st)
        else (o, with_repetition (repetition_phase_timers_ st) (<[timer := mk_wait rep' (u32 new_delay) (now + ms new_delay)]> (repetition_waits st)) (next_timer st) st)
    | None => ([], st)
    end.

(** The wait of a repetition timer is over. *)
Definition repetition_timer (now : Z) (timer : nat) (st : t) : list output * t :=
  match repetition_waits st !! timer with
  | Some w =>
      on_repetition_phase_timer_expired now timer (repetition w) (last_delay w)
        (with_repetition (repetition_phase_timers_ st) (delete timer (repetition_waits st)) (next_timer st) st)
  | None => ([], st)
  end.

(** *** Stopping an offer *)

Definition holds (l : loc) (x : serviceinfo) (m : services_t) : bool := bool_decide (find (service_ x) (instance_ x) m = Some l).

Definition send_stop_offer (x : serviceinfo) : bool * list output :=
  if has_endpoint x then send [insert_offer_service x] else (false, []).

Definition stop_offer_service (l : loc) (send_ : bool) (st : t) : bool * list output * t :=
  match infos st !! l with
  | Some x0 =>
      let x := set_accepting_remote_subscriptions false (set_ttl 0 x0) in
      let st := with_infos (<[l := x]> (infos st)) st in
      let st := if holds l x (collected_offers_ st) then with_collected (erase (service_ x) (instance_ x) (collected_offers_ st)) st else st in
      let stop_offer_required := existsb (λ e, holds l x e.2) (map_to_list (repetition_phase_timers_ st)) in
      let timers := omap (λ m, let m := if holds l x m then erase (service_ x) (instance_ x) m else m in if decide (m = ∅) then None else Some m)
                      (repetition_phase_timers_ st) in
      let st := with_repetition timers (repetition_waits st) (next_timer st) st in
      if negb send_ then (is_in_mainphase_ x || stop_offer_required, [], st)
      else if is_in_mainphase_ x || stop_offer_required then (send_stop_offer x, st)
      else (false, [], st)
  | None => (false, [], st)
  end.

Definition send_collected_stop_offers (l : list loc) (st : t) : bool * list output :=
  send (omap (λ l, match infos st !! l with Some x => if has_endpoint x then Some (insert_offer_service x) else None | None => None end) l).

(** *** The main phase *)

Definition start_main_phase_timer (now : Z) (st : t) : t := with_main (now + ms (cyclic_offer_delay_ cfg)) true st.
Definition stop_main_phase_timer (st : t) : t := with_main (main_phase_timer_ st) false st.

Definition on_main_phase_timer_expired (now : Z) (offered : services_t) (st : t) : list output * t :=
  ((send (insert_offer_entries offered false st)).2, start_main_phase_timer now st).

(** *** Answers to FindService *)

Definition send_uni_or_multicast_offerservice (now : Z) (x : serviceinfo) (unicast_flag : bool) (st : t) : list output :=
  if unicast_flag then
    if last_offer_shorter_half_offer_delay_ago now st then [send_unicast [insert_offer_service x]]
    else (send [insert_offer_service x]).2
  else [].

Definition answer_find (now major minor : Z) (unicast_flag : bool) (l : loc) (st : t) : list output :=
  match infos st !! l with
  | Some x =>
      if ((major =? ANY_MAJOR) || (major =? major_ x)) && ((minor =? 0xFFFFFFFF) || (minor <=? minor_ x)) && has_endpoint x
      then send_uni_or_multicast_offerservice now x unicast_flag st else []
  | None => []
  end.

Definition process_findservice_serviceentry (now service instance major minor : Z) (unicast_flag : bool) (offered : services_t) (st : t) : list output :=
  if negb (instance =? ANY_INSTANCE) then
    match find service instance offered with Some l => answer_find now major minor unicast_flag l st | None => [] end
  else mjoin ((λ x, answer_find now major minor unicast_flag x.2 st) <$> sorted (default ∅ (offered !! service))).

(** Offers that were sent, to everybody or to one address: from then on
    subscriptions are accepted. *)
Definition check_sent_offers (entries : list sd_entry) (remote : option Z) (offered : services_t) (st : t) : t :=
  foldl (λ st e, match e with
    | offer_entry s i _ _ ttl _ _ =>
        if 0 <? ttl then
          match find s i offered with
          | Some l => with_infos (alter (λ x, match remote with
              | None => set_accepting_remote_subscriptions true x
              | Some a => if accepting_remote_subscription_ x then x else add_remote_ip a x
              end) l (infos st)) st
          | None => st
          end
        else st
    | find_entry _ _ _ _ _ => st
    end) st entries.

(** ** Requests *)

Definition request_service (l : loc) (service instance major minor ttl : Z) (st : t) : t :=
  match find service instance (requested_ st) with
  | Some _ => st
  | None => with_requests (<[l := create_request major minor ttl]> (requests st)) (put service instance l (requested_ st)) st
  end.

Definition release_service (service instance : Z) (st : t) : t :=
  match requested_ st !! service with
  | Some x => with_requests (requests st) (<[service := delete instance x]> (requested_ st)) st
  | None => st
  end.

Definition update_request (service instance : Z) (st : t) : t :=
  match find service instance (requested_ st) with
  | Some l => with_requests (alter (set_sent_counter (u8 (repetitions_max_ cfg + 1))) l (requests st)) (requested_ st) st
  | None => st
  end.

Definition insert_find_entry (acc : list sd_entry * t) (e : Z * Z * loc) : list sd_entry * t :=
  let '(entries, st) := acc in
  let '(s, i, l) := e in
  match find s i (requested_ st), requests st !! l with
  | Some _, Some r =>
      if negb (sent_counter_ r =? repetitions_max_ cfg + 1) then
        (entries ++ [find_entry s i (req_major r) (req_minor r) (req_ttl r)],
         with_requests (<[l := set_sent_counter (u8 (sent_counter_ r + 1)) r]> (requests st)) (requested_ st) st)
      else (entries, st)
  | _, _ => (entries, st)
  end.

Definition insert_find_entries (finds : services_t) (st : t) : list sd_entry * t := foldl insert_find_entry ([], st) (each finds).

Definition start_find_debounce_timer (now : Z) (first_start : bool) (st : t) : t :=
  if first_start then with_find_debounce (Some (now + ms (initial_delay_ cfg))) (remaining_find_initial_debounce_reps_ st) st
  else if 0 <? remaining_find_initial_debounce_reps_ st then
    with_find_debounce (Some (now + ms (find_initial_debounce_time_ cfg))) (remaining_find_initial_debounce_reps_ st - 1) st
  else with_find_debounce (Some (now + ms (find_debounce_time_ cfg))) (remaining_find_initial_debounce_reps_ st) st.
Definition stop_find_debounce_timer (st : t) : t := with_find_debounce None (remaining_find_initial_debounce_reps_ st) st.

(** The requests that were not sent yet. *)
Definition unsent (st : t) : services_t :=
  omap (λ m, let m := filter (λ x, sent_counter_ <$> requests st !! x.2 = Some 0) m in
             if decide (m = ∅) then None else Some m) (requested_ st).

Definition on_find_debounce_timer_expired (now : Z) (st : t) : list output * t :=
  let repetition_phase_finds := unsent st in
  if decide (repetition_phase_finds = ∅) then ([], start_find_debounce_timer now false st)
  else
    let '(entries, st) := insert_find_entries repetition_phase_finds st in
    let o := (send entries).2 in
    let its_timer := next_timer st in
    let st := with_find_repetition (<[its_timer := repetition_phase_finds]> (find_repetition_phase_timers_ st))
                (<[its_timer := mk_wait 1 (u32 (repetitions_base_delay_ cfg)) (now + ms (repetitions_base_delay_ cfg))]> (find_waits st)) (S its_timer) st in
    (o, start_find_debounce_timer now false st).

Definition on_find_repetition_phase_timer_expired (now : Z) (timer : nat) (rep last : Z) (st : t) : list output * t :=
  match find_repetition_phase_timers_ st !! timer with
  | Some finds =>
      if rep <=? repetitions_max_ cfg then
        let '(entries, st) := insert_find_entries finds st in
        let new_delay := u32 (last * 2) in
        ((send entries).2,
         with_find_repetition (find_repetition_phase_timers_ st) (<[timer := mk_wait (u8 (rep + 1)) new_delay (now + ms new_delay)]> (find_waits st)) (next_timer st) st)
      else ([], with_find_repetition (delete timer (find_repetition_phase_timers_ st)) (find_waits st) (next_timer st) st)
  | None => ([], st)
  end.

Definition find_timer (now : Z) (timer : nat) (st : t) : list output * t :=
  match find_waits st !! timer with
  | Some w =>
      on_find_repetition_phase_timer_expired now timer (repetition w) (last_delay w)
        (with_find_repetition (find_repetition_phase_timers_ st) (delete timer (find_waits st)) (next_timer st) st)
  | None => ([], st)
  end.

(** ** Starting and stopping *)

(** [endpoint] tells whether the endpoint of the service discovery exists or could
    be created.  After a suspension all requests are sent again. *)
Definition start (now : Z) (endpoint : bool) (st : t) : t :=
  if endpoint then
    let st := if is_suspended_ st
              then with_requests (foldl (λ m '(_, _, l), alter (set_sent_counter 0) l m) (requests st) (each (requested_ st))) (requested_ st) st else st in
    let st := with_modes false (is_diagnosis_ st) st in
    start_find_debounce_timer now true (start_offer_debounce_timer now true (start_main_phase_timer now st))
  else st.

Definition stop (st : t) : t :=
  stop_main_phase_timer (stop_offer_debounce_timer (stop_find_debounce_timer (with_modes true (is_diagnosis_ st) st))).

Definition set_diagnosis_mode (b : bool) (st : t) : t := with_modes (is_suspended_ st) b st.
End handlers.

Definition create (reps : Z) : t := mk ∅ ∅ ∅ ∅ ∅ ∅ ∅ ∅ 0 0 false None None reps false false.
End phases.
