(* ===== verification/SdPhasesFacts.v ===== *)
(** * The phases of the service discovery: what listeners believe, and when

    Who listens to the service discovery believes only in services that are offered,
    and forgets those that are withdrawn; offers and searches are repeated with
    growing delays and a bounded number of times. *)

From stdpp Require Import base list gmap sorting.
From Stdlib Require Import ZArith Lia.
From S2P Require Import Prelude Maps Protocol SdPhases.

Import phases.

(** ** Maps of maps *)

Lemma elem_of_each {A} (m : gmap Z (gmap Z A)) s i a : (s, i, a) ∈ each m ↔ find s i m = Some a.
Proof.
  unfold each, find. rewrite list_elem_of_join. split.
  - intros (l & Hin & Hl). apply list_elem_of_fmap in Hl as ([s' x] & -> & Hx). apply list_elem_of_fmap in Hin as ([i' b] & [= -> -> ->] & Hb).
    apply elem_of_sorted in Hx, Hb. cbn in *. by rewrite Hx.
  - intros (x & Hx & Ha)%bind_Some. exists ((λ y, (s, y.1, y.2)) <$> sorted x). split.
    + apply list_elem_of_fmap. exists (i, a). split; [done|]. by apply elem_of_sorted.
    + apply list_elem_of_fmap. exists (s, x). split; [done|]. by apply elem_of_sorted.
Qed.

Lemma find_after_put {A} (m : gmap Z (gmap Z A)) s i a : find s i (put s i a m) = Some a.
Proof. unfold find, put. rewrite lookup_insert_eq. cbn. by rewrite lookup_insert_eq. Qed.

Lemma find_put_ne {A} (m : gmap Z (gmap Z A)) s i a s' i' : (s', i') ≠ (s, i) → find s' i' (put s i a m) = find s' i' m.
Proof.
  intros Hne. unfold find, put. destruct (decide (s' = s)) as [->|]; [|by rewrite lookup_insert_ne].
  rewrite lookup_insert_eq. cbn. rewrite lookup_insert_ne by congruence. destruct (m !! s); [done|]. cbn. by rewrite lookup_empty.
Qed.

Lemma find_put_inv {A} (m : gmap Z (gmap Z A)) s i a s' i' b : find s' i' (put s i a m) = Some b → (s', i') = (s, i) ∧ b = a ∨ find s' i' m = Some b.
Proof. destruct (decide ((s', i') = (s, i))) as [[= -> ->]|]; [rewrite find_after_put; intros [= ->]; by left|rewrite find_put_ne by done; by right]. Qed.

Lemma find_after_erase {A} (m : gmap Z (gmap Z A)) s i s' i' : find s' i' (erase s i m) = if decide ((s', i') = (s, i)) then None else find s' i' m.
Proof.
  unfold find, erase. destruct (m !! s) as [x|] eqn:E.
  - destruct (decide (s' = s)) as [->|Hs].
    + destruct (decide (delete i x = ∅)) as [Hd|Hd].
      * rewrite lookup_delete_eq. cbn. destruct (decide _) as [|Hne]; [done|]. rewrite E. cbn. rewrite <- (lookup_delete_ne x i i') by congruence. by rewrite Hd, lookup_empty.
      * rewrite lookup_insert_eq. cbn. destruct (decide _) as [[= ->]|Hne]; [by rewrite lookup_delete_eq|]. rewrite E. cbn. by rewrite lookup_delete_ne by congruence.
    + rewrite (decide_False (P := (s', i') = (s, i))) by congruence. destruct (decide (delete i x = ∅)); [by rewrite lookup_delete_ne|by rewrite lookup_insert_ne].
  - destruct (decide _) as [[= -> ->]|]; [by rewrite E|done].
Qed.

Lemma find_empty {A} s i : find s i (∅ : gmap Z (gmap Z A)) = None.
Proof. unfold find. by rewrite lookup_empty. Qed.

(** ** Listeners

    A listener hears every entry; an entry with a time to live makes it believe in
    the service, one without makes it forget. *)

Definition key : Type := Z * Z.

Definition hear (V : gset key) (e : sd_entry) : gset key :=
  match e with
  | offer_entry s i _ _ ttl _ _ => if 0 <? ttl then V ∪ {[(s, i)]} else V ∖ {[(s, i)]}
  | find_entry _ _ _ _ _ => V
  end.

Definition entries (o : list output) : list sd_entry := mjoin ((λ x, match x with send_multicast es | send_unicast es => es end) <$> o).
Definition hear_all (V : gset key) (o : list output) : gset key := foldl hear V (entries o).

Definition offers (k : key) (e : sd_entry) : Prop :=
  match e with offer_entry s i _ _ ttl _ _ => k = (s, i) ∧ 0 < ttl | find_entry _ _ _ _ _ => False end.

Lemma heard es : ∀ V k, k ∈ foldl hear V es → k ∈ V ∨ ∃ e, e ∈ es ∧ offers k e.
Proof.
  induction es as [|e es IH]; intros V k Hk; [by left|]. cbn in Hk. apply IH in Hk as [Hk|(e' & He & Ho)]; [|right; exists e'; split; [by right|done]].
  destruct e as [s i ma mi ttl r u|]; cbn in Hk; [|by left]. destruct (Z.ltb_spec 0 ttl).
  - apply elem_of_union in Hk as [Hk| ->%elem_of_singleton]; [by left|]. right. eexists. split; [by left|]. done.
  - apply elem_of_difference in Hk as [Hk _]. by left.
Qed.

Lemma foldl_hear_mono es : ∀ V W : gset key, (∀ k, k ∈ V → k ∈ W) → ∀ k, k ∈ foldl hear V es → k ∈ foldl hear W es.
Proof.
  induction es as [|e es IH]; intros V W HVW k Hk; [by apply HVW|]. cbn [foldl] in *. eapply IH; [|exact Hk].
  intros j. destruct e as [s i ma mi ttl r u|]; cbn [hear]; [|apply HVW]. destruct (0 <? ttl).
  - rewrite !elem_of_union. intros [Hj|Hj]; [left; by apply HVW|by right].
  - rewrite !elem_of_difference. intros [Hj Hn]. split; [by apply HVW|done].
Qed.

Lemma entries_send es : entries (send es).2 = es.
Proof. destruct es; cbn; [done|]. by rewrite app_nil_r. Qed.

(** ** The system *)

(** [early] is a ghost: the services of which a listener last heard in an answer to
    FindService that was given in their initial wait phase. *)
Record sys : Type := mk_sys { sd : t; offered : services_t; view : gset key; early : gset key }.

Definition named (e : sd_entry) : list key := match e with offer_entry s i _ _ _ _ _ => [(s, i)] | find_entry _ _ _ _ _ => [] end.

(** What is said of a service supersedes the answers. *)
Definition superseded (E : gset key) (o : list output) : gset key := E ∖ list_to_set (mjoin (named <$> entries o)).

Definition DEFAULT_TTL : Z := 0xFFFFFF.

(** Stops several offers and collects those that have to be announced. *)
Fixpoint stop_offers (cfg : configuration) (ls : list loc) (st : t) : list loc * t :=
  match ls with
  | [] => ([], st)
  | l :: ls =>
      let '(b, _, st) := stop_offer_service cfg l false st in
      let '(ls', st) := stop_offers cfg ls st in
      (if b then l :: ls' else ls', st)
  end.

Section system.
Context (cfg : configuration).

(** In the repetition phase, or in this or the main phase. *)
Definition repeated (st : t) (s i : Z) (l : loc) : Prop := ∃ n (m : services_t), repetition_phase_timers_ st !! n = Some m ∧ find s i m = Some l.
Definition announced (st : t) (s i : Z) (l : loc) : Prop :=
  (∃ x, infos st !! l = Some x ∧ is_in_mainphase_ x = true) ∨ repeated st s i l.

(** Past the initial wait phase: what [stop_offer_service] tests. *)
Definition past_initial (l : loc) (x : serviceinfo) (st : t) : bool :=
  is_in_mainphase_ x || existsb (λ e, holds l x e.2) (map_to_list (repetition_phase_timers_ st)).

(** The services among the answers that are in the initial wait phase. *)
Definition in_initial_wait (st : t) (off : services_t) (k : key) : bool :=
  match find k.1 k.2 off with
  | Some l => match infos st !! l with Some x => negb (past_initial l x st) | None => false end
  | None => false
  end.
Definition waiting (st : t) (off : services_t) (o : list output) : gset key :=
  list_to_set (base.filter (λ k, in_initial_wait st off k = true) (mjoin (named <$> entries o))).

(** The routing manager keeps one [serviceinfo] for each service it offers, sets its
    endpoints, withdraws it before it drops it, and may offer it again; the timers
    of the phases expire in any order; FindService can arrive at any time, also in
    the initial wait phase of a service. *)
Inductive step : sys → sys → Prop :=
| step_new l x g : infos (sd g) !! l = None → find (service_ x) (instance_ x) (offered g) = None → 0 < get_ttl x → is_in_mainphase_ x = false →
    step g (mk_sys (offer_service l (with_infos (<[l := x]> (infos (sd g))) (sd g))) (put (service_ x) (instance_ x) l (offered g)) (view g) (early g))
| step_again l x (reset : bool) g : infos (sd g) !! l = Some x → find (service_ x) (instance_ x) (offered g) = Some l → (reset = true → get_ttl x = 0) →
    let x' := set_ttl DEFAULT_TTL (if reset then set_is_in_mainphase false x else x) in
    step g (mk_sys (offer_service l (with_infos (<[l := x']> (infos (sd g))) (sd g))) (offered g) (view g) (early g))
| step_endpoint l x port reliable g : infos (sd g) !! l = Some x →
    step g (mk_sys (with_infos (<[l := set_endpoint (Some port) reliable x]> (infos (sd g))) (sd g)) (offered g) (view g) (early g))
| step_stop l x b o st g : infos (sd g) !! l = Some x → find (service_ x) (instance_ x) (offered g) = Some l →
    stop_offer_service cfg l true (sd g) = (b, o, st) → step g (mk_sys st (offered g) (hear_all (view g) o) (superseded (early g) o))
| step_stop_all ls ls' st g : Forall (λ l, ∃ x, infos (sd g) !! l = Some x ∧ find (service_ x) (instance_ x) (offered g) = Some l) ls →
    stop_offers cfg ls (sd g) = (ls', st) → step g (mk_sys st (offered g) (hear_all (view g) (send_collected_stop_offers cfg ls' st).2)
              (superseded (early g) (send_collected_stop_offers cfg ls' st).2))
| step_remove l x g : infos (sd g) !! l = Some x → find (service_ x) (instance_ x) (offered g) = Some l → get_ttl x = 0 →
    step g (mk_sys (sd g) (erase (service_ x) (instance_ x) (offered g)) (view g) (early g))
| step_debounce now o st g : on_offer_debounce_timer_expired cfg now (sd g) = Ok (o, st) → step g (mk_sys st (offered g) (hear_all (view g) o) (superseded (early g) o))
| step_repetition now n o st g : repetition_timer cfg now n (sd g) = (o, st) → step g (mk_sys st (offered g) (hear_all (view g) o) (superseded (early g) o))
| step_main now o st g : on_main_phase_timer_expired cfg now (offered g) (sd g) = (o, st) → step g (mk_sys st (offered g) (hear_all (view g) o) (superseded (early g) o))
| step_find now s i major minor u g :
    let o := process_findservice_serviceentry cfg now s i major minor u (offered g) (sd g) in
    step g (mk_sys (sd g) (offered g) (hear_all (view g) o) (superseded (early g) o ∪ waiting (sd g) (offered g) o))
| step_sent es remote g : step g (mk_sys (check_sent_offers es remote (offered g) (sd g)) (offered g) (view g) (early g))
| step_start now e g : step g (mk_sys (start cfg now e (sd g)) (offered g) (view g) (early g))
| step_suspend g : step g (mk_sys (stop (sd g)) (offered g) (view g) (early g))
| step_diagnosis b g : step g (mk_sys (set_diagnosis_mode b (sd g)) (offered g) (view g) (early g))
| step_find_debounce now o st g : on_find_debounce_timer_expired cfg now (sd g) = (o, st) → step g (mk_sys st (offered g) (hear_all (view g) o) (superseded (early g) o))
| step_find_timer now n o st g : find_timer cfg now n (sd g) = (o, st) → step g (mk_sys st (offered g) (hear_all (view g) o) (superseded (early g) o)).

Definition initial (reps : Z) : sys := mk_sys (create reps) ∅ ∅ ∅.

(** ** The invariant *)

Definition alive (st : t) (l : loc) : Prop := ∃ x, infos st !! l = Some x ∧ 0 < get_ttl x.

Definition backed (st : t) (s i : Z) (l : loc) : Prop :=
  ∃ x, infos st !! l = Some x ∧ 0 < get_ttl x ∧ has_endpoint x = true ∧ (is_in_mainphase_ x = true ∨ repeated st s i l).

Record sound (st : t) (offered : services_t) (view : gset key) : Prop := {
  so_offered : ∀ s i l, find s i offered = Some l → ∃ x, infos st !! l = Some x ∧ service_ x = s ∧ instance_ x = i;
  so_collected : ∀ s i l, find s i (collected_offers_ st) = Some l → find s i offered = Some l ∧ alive st l;
  so_repeated : ∀ s i l, repeated st s i l → find s i offered = Some l ∧ alive st l;
  so_fresh : ∀ n m, repetition_phase_timers_ st !! n = Some m → (n < next_timer st)%nat;
  so_view : ∀ s i, (s, i) ∈ view → ∃ l, find s i offered = Some l ∧ backed st s i l
}.

(** Later infos: the same services, and nothing that a listener relies on is lost. *)
Definition improves (m m' : gmap loc serviceinfo) : Prop := ∀ l x, m !! l = Some x → ∃ x', m' !! l = Some x' ∧ service_ x' = service_ x ∧ instance_ x' = instance_ x
  ∧ (0 < get_ttl x → 0 < get_ttl x') ∧ (has_endpoint x = true → has_endpoint x' = true) ∧ (0 < get_ttl x → is_in_mainphase_ x = true → is_in_mainphase_ x' = true).

Lemma improves_refl m : improves m m.
Proof. intros l x E. exists x. tauto. Qed.

Lemma improves_trans m1 m2 m3 : improves m1 m2 → improves m2 m3 → improves m1 m3.
Proof.
  intros H1 H2 l x E. destruct (H1 l x E) as (y & Ey & A1 & A2 & A3 & A4 & A5). destruct (H2 l y Ey) as (z & Ez & B1 & B2 & B3 & B4 & B5).
  exists z. split_and!; [done|congruence|congruence|auto|auto|auto].
Qed.

Lemma improves_alter m l f : (∀ x, m !! l = Some x → service_ (f x) = service_ x ∧ instance_ (f x) = instance_ x ∧ (0 < get_ttl x → 0 < get_ttl (f x))
  ∧ (has_endpoint x = true → has_endpoint (f x) = true) ∧ (0 < get_ttl x → is_in_mainphase_ x = true → is_in_mainphase_ (f x) = true)) → improves m (alter f l m).
Proof.
  intros H l' x E. destruct (decide (l' = l)) as [->|Hne].
  - exists (f x). rewrite lookup_alter_eq, E. split; [done|]. by apply H.
  - exists x. rewrite lookup_alter_ne by done. tauto.
Qed.

Lemma improves_insert m l x x' : m !! l = Some x → (service_ x' = service_ x ∧ instance_ x' = instance_ x ∧ (0 < get_ttl x → 0 < get_ttl x')
  ∧ (has_endpoint x = true → has_endpoint x' = true) ∧ (0 < get_ttl x → is_in_mainphase_ x = true → is_in_mainphase_ x' = true)) → improves m (<[l := x']> m).
Proof.
  intros E H. replace (<[l := x']> m) with (alter (λ _, x') l m); [apply improves_alter; intros y Ey; congruence|].
  apply map_eq. intros l'. destruct (decide (l' = l)) as [->|]; [by rewrite lookup_alter_eq, E, lookup_insert_eq|by rewrite lookup_alter_ne, lookup_insert_ne].
Qed.

Lemma improves_new m l x : m !! l = None → improves m (<[l := x]> m).
Proof. intros E l' y Ey. exists y. rewrite lookup_insert_ne by congruence. tauto. Qed.

Lemma alive_improves st st' l : improves (infos st) (infos st') → alive st l → alive st' l.
Proof. intros H (x & E & Ht). destruct (H l x E) as (x' & E' & _ & _ & Ht' & _). exists x'. auto. Qed.

Lemma sound_mono st st' off V : sound st off V → improves (infos st) (infos st') →
  (∀ s i l, find s i (collected_offers_ st') = Some l → find s i (collected_offers_ st) = Some l ∨ find s i off = Some l ∧ alive st' l) →
  (∀ s i l, repeated st' s i l → repeated st s i l ∨ find s i (collected_offers_ st) = Some l) →
  (∀ s i l, repeated st s i l → announced st' s i l) →
  (∀ n m, repetition_phase_timers_ st' !! n = Some m → (n < next_timer st')%nat) → sound st' off V.
Proof.
  intros [Ho Hc Hr _ Hv] Hi Hcol Hrep Hann Hfresh. constructor.
  - intros s i l E. destruct (Ho s i l E) as (x & Ex & <- & <-). destruct (Hi l x Ex) as (x' & Ex' & E1 & E2 & _). by exists x'.
  - intros s i l E. destruct (Hcol s i l E) as [E'|]; [|done]. destruct (Hc s i l E') as [Hf Ha]. split; [done|by eapply alive_improves].
  - intros s i l E. destruct (Hrep s i l E) as [E'|E'].
    + destruct (Hr s i l E') as [Hf Ha]. split; [done|by eapply alive_improves].
    + destruct (Hc s i l E') as [Hf Ha]. split; [done|by eapply alive_improves].
  - done.
  - intros s i Hk. destruct (Hv s i Hk) as (l & Hf & x & Ex & Ht & He & Hm). exists l. split; [done|]. destruct (Hi l x Ex) as (x' & Ex' & _ & _ & A3 & A4 & A5).
    exists x'. split_and!; [done|by apply A3|by apply A4|]. destruct Hm as [Hm|Hm]; [left; by apply A5|].
    destruct (Hann s i l Hm) as [(y & Ey & Hy)|]; [left; congruence|by right].
Qed.

(** Only the services and the phases of the offers matter. *)
Lemma sound_same st st' off V : sound st off V → improves (infos st) (infos st') → collected_offers_ st' = collected_offers_ st →
  repetition_phase_timers_ st' = repetition_phase_timers_ st → (next_timer st ≤ next_timer st')%nat → sound st' off V.
Proof.
  intros H Hi E1 E2 E3. apply (sound_mono st); [done|done| | | |].
  - intros s i l. rewrite E1. by left.
  - unfold repeated. rewrite E2. by left.
  - intros s i l Hr. right. unfold repeated in *. by rewrite E2.
  - intros n m. rewrite E2. intros Hn. apply (so_fresh _ _ _ H) in Hn. lia.
Qed.

Lemma sound_heard st off V es : sound st off V → (∀ s i e, e ∈ es → offers (s, i) e → ∃ l, find s i off = Some l ∧ backed st s i l) →
  sound st off (foldl hear V es).
Proof.
  intros [Ho Hc Hr Hf Hv] He. constructor; try done. intros s i Hk. apply heard in Hk as [Hk|(e & Hin & Hoff)]; [by apply Hv|by eapply He].
Qed.

Lemma offered_ttl x s i : offers (s, i) (insert_offer_service cfg x) → service_ x = s ∧ instance_ x = i ∧ 0 < get_ttl x.
Proof. unfold insert_offer_service. cbn. intros [[= -> ->] Ht]. split_and!; [done|done|]. destruct (Z.ltb_spec 0 (get_ttl x)); [done|lia]. Qed.

(** What is announced is a service with a time to live and an endpoint. *)
Lemma inserted services ignore st s i e : e ∈ insert_offer_entries cfg services ignore st → offers (s, i) e →
  ∃ s' i' l x, find s' i' services = Some l ∧ infos st !! l = Some x ∧ service_ x = s ∧ instance_ x = i ∧ 0 < get_ttl x ∧ has_endpoint x = true
    ∧ (ignore = true ∨ is_in_mainphase_ x = true).
Proof.
  unfold insert_offer_entries. rewrite list_elem_of_omap. intros ([[s' i'] l] & Hin%elem_of_each & He) Hoff.
  destruct (negb (is_suspended_ st) && _); [|done]. destruct (infos st !! l) as [x|] eqn:Ex; [|done].
  destruct ((ignore || is_in_mainphase_ x) && has_endpoint x) eqn:Ec; [|done]. injection He as <-. apply andb_true_iff in Ec as [Ec1 Ec2]. apply orb_true_iff in Ec1.
  apply offered_ttl in Hoff as (E1 & E2 & E3). by exists s', i', l, x.
Qed.

(** ** Offering *)

Lemma offer_sound l x st off V : sound st off V → infos st !! l = Some x → find (service_ x) (instance_ x) off = Some l → 0 < get_ttl x →
  sound (offer_service l st) off V.
Proof.
  intros H Ex Hf Ht. unfold offer_service. rewrite Ex. destruct (find _ _ (collected_offers_ st)); [done|].
  apply (sound_mono st); [done|apply improves_refl| | | |].
  - intros s i l' [[[= -> ->] ->]|]%find_put_inv; [right; split; [done|by exists x]|by left].
  - by left.
  - by right.
  - apply (so_fresh _ _ _ H).
Qed.

(** ** Withdrawing *)

Definition withdrawn (x : serviceinfo) : serviceinfo := set_accepting_remote_subscriptions false (set_ttl 0 x).

(** What a stopped offer leaves in the phases. *)
Definition unphased (l : loc) (x : serviceinfo) (m : services_t) : services_t := if holds l x m then erase (service_ x) (instance_ x) m else m.

Definition stopped (l : loc) (x : serviceinfo) (st : t) : t :=
  with_repetition (omap (λ m, if decide (unphased l x m = ∅) then None else Some (unphased l x m)) (repetition_phase_timers_ st)) (repetition_waits st) (next_timer st)
    (with_collected (unphased l x (collected_offers_ st)) (with_infos (<[l := withdrawn x]> (infos st)) st)).

Lemma stop_eq l x b st : infos st !! l = Some x → stop_offer_service cfg l b st =
  (if b then if past_initial l x st then send_stop_offer cfg (withdrawn x) else (false, []) else (past_initial l x st, []), stopped l x st).
Proof.
  intros E. unfold stop_offer_service, stopped, past_initial, unphased. rewrite E. change (set_accepting_remote_subscriptions false (set_ttl 0 x)) with (withdrawn x).
  unfold holds. cbn [withdrawn set_accepting_remote_subscriptions set_ttl service_ instance_ is_in_mainphase_ with_infos collected_offers_].
  destruct (bool_decide (find _ _ (collected_offers_ st) = Some l)); destruct b; cbn [negb]; try done;
    cbn [with_collected with_infos repetition_phase_timers_]; by destruct (is_in_mainphase_ x || _).
Qed.

Lemma past_initial_spec l x st : past_initial l x st = true ↔ is_in_mainphase_ x = true ∨ repeated st (service_ x) (instance_ x) l.
Proof.
  unfold past_initial, repeated. rewrite orb_true_iff. f_equiv. rewrite existsb_exists. split.
  - intros ([n m] & Hin%list_elem_of_In%elem_of_map_to_list & Hh%bool_decide_eq_true). by exists n, m.
  - intros (n & m & Hn & Hf). exists (n, m). split; [by apply list_elem_of_In, elem_of_map_to_list|by apply bool_decide_eq_true].
Qed.

Lemma find_unphased l x m s i : find (service_ x) (instance_ x) m = None ∨ find (service_ x) (instance_ x) m = Some l →
  find s i (unphased l x m) = if decide ((s, i) = (service_ x, instance_ x)) then None else find s i m.
Proof.
  intros H. unfold unphased, holds. destruct (bool_decide _) eqn:E; [by rewrite find_after_erase|]. apply bool_decide_eq_false in E. destruct H as [H|H]; [|done].
  destruct (decide _) as [[= -> ->]|]; done.
Qed.

Lemma stopped_repeated l x st s i l' : (∀ l', repeated st (service_ x) (instance_ x) l' → l' = l) →
  repeated (stopped l x st) s i l' ↔ (s, i) ≠ (service_ x, instance_ x) ∧ repeated st s i l'.
Proof.
  intros Hu. assert (Hm : ∀ n (m : services_t), repetition_phase_timers_ st !! n = Some m → find (service_ x) (instance_ x) m = None ∨ find (service_ x) (instance_ x) m = Some l).
  { intros n m Hn. destruct (find (service_ x) (instance_ x) m) as [l0|] eqn:E; [|by left]. right. f_equal. apply Hu. by exists n, m. }
  unfold repeated, stopped. cbn [with_repetition repetition_phase_timers_]. split.
  - intros (n & m' & Hn & Hf). rewrite lookup_omap in Hn. destruct (repetition_phase_timers_ st !! n) as [m|] eqn:En; [|done]. cbn in Hn.
    destruct (decide _); [done|]. injection Hn as <-. rewrite find_unphased in Hf by (by eapply Hm). destruct (decide _) as [|Hne]; [done|]. split; [done|]. by exists n, m.
  - intros (Hne & n & m & Hn & Hf). exists n, (unphased l x m). rewrite lookup_omap, Hn. cbn. rewrite find_unphased by (by eapply Hm).
    rewrite (decide_False (P := (s, i) = _)) by done. split; [|done]. destruct (decide _) as [E|]; [|done]. exfalso.
    assert (Hf' : find s i (unphased l x m) = Some l') by (rewrite find_unphased by (by eapply Hm); by rewrite decide_False). rewrite E in Hf'. discriminate (eq_trans (eq_sym (find_empty s i)) Hf').
Qed.

Lemma stopped_sound l x st off V : sound st off V → infos st !! l = Some x → find (service_ x) (instance_ x) off = Some l →
  sound (stopped l x st) off (if past_initial l x st && has_endpoint x then V ∖ {[(service_ x, instance_ x)]} else V).
Proof.
  intros [Ho Hc Hr Hfr Hv] Ex Hf.
  assert (Hother : ∀ s i l', find s i off = Some l' → (s, i) ≠ (service_ x, instance_ x) → infos (stopped l x st) !! l' = infos st !! l').
  { intros s i l' Hl' Hne. cbn. apply lookup_insert_ne. intros <-. destruct (Ho s i l Hl') as (y & Ey & <- & <-). congruence. }
  assert (Hur : ∀ l', repeated st (service_ x) (instance_ x) l' → l' = l) by (intros l' H; apply Hr in H as [H _]; congruence).
  assert (Huc : find (service_ x) (instance_ x) (collected_offers_ st) = None ∨ find (service_ x) (instance_ x) (collected_offers_ st) = Some l).
  { destruct (find (service_ x) (instance_ x) (collected_offers_ st)) as [l'|] eqn:E; [|by left]. apply Hc in E as [E _]. right. congruence. }
  assert (Halive : ∀ s i l', find s i off = Some l' → (s, i) ≠ (service_ x, instance_ x) → alive st l' → alive (stopped l x st) l').
  { intros s i l' Hl' Hne (y & Ey & Hy). exists y. by rewrite (Hother s i l'). }
  constructor.
  - intros s i l' Hl'. destruct (decide ((s, i) = (service_ x, instance_ x))) as [[= -> ->]|Hne]; [|rewrite (Hother s i l') by done; by apply Ho].
    exists (withdrawn x). assert (l' = l) as -> by congruence. cbn. by rewrite lookup_insert_eq.
  - intros s i l' E. cbn in E. rewrite find_unphased in E by done. destruct (decide _) as [|Hne]; [done|]. destruct (Hc s i l' E) as [Hl' Ha]. split; [done|by eapply Halive].
  - intros s i l' [Hne E]%stopped_repeated; [|done]. destruct (Hr s i l' E) as [Hl' Ha]. split; [done|by eapply Halive].
  - intros n m'. cbn. rewrite lookup_omap. destruct (repetition_phase_timers_ st !! n) as [m|] eqn:En; [|done]. intros _. by apply Hfr in En.
  - intros s i Hk. destruct (decide ((s, i) = (service_ x, instance_ x))) as [[= -> ->]|Hne].
    + exfalso. assert (HV : (service_ x, instance_ x) ∈ V) by (destruct (_ && _); [apply elem_of_difference in Hk; tauto|done]).
      destruct (Hv _ _ HV) as (l' & Hl' & y & Ey & _ & He & Hm). assert (l' = l) as -> by congruence. assert (y = x) as -> by congruence.
      apply past_initial_spec in Hm. rewrite Hm, He in Hk. apply elem_of_difference in Hk as [_ Hk]. apply Hk. by apply elem_of_singleton.
    + assert (HV : (s, i) ∈ V) by (destruct (_ && _); [apply elem_of_difference in Hk; tauto|done]).
      destruct (Hv _ _ HV) as (l' & Hl' & y & Ey & Ht & He & Hm). exists l'. split; [done|]. exists y. rewrite (Hother s i l') by done. split_and!; [done|done|done|].
      destruct Hm as [|Hm]; [by left|right]. by apply stopped_repeated.
Qed.

Definition entry_key (e : sd_entry) : key := match e with offer_entry s i _ _ _ _ _ | find_entry s i _ _ _ => (s, i) end.
Definition stops (e : sd_entry) : Prop := match e with offer_entry _ _ _ _ ttl _ _ => ttl = 0 | find_entry _ _ _ _ _ => False end.

Lemma forgotten es : ∀ V k, Forall stops es → k ∈ foldl hear V es → k ∈ V ∧ (k ∉ entry_key <$> es).
Proof.
  induction es as [|e es IH]; intros V k Hes Hk; [split; [done|by intros ?%elem_of_nil]|]. apply Forall_cons in Hes as [He Hes]. apply IH in Hk as [Hk Hn]; [|done].
  destruct e as [s i ma mi ttl r u|]; [|done]. cbn in He. subst ttl. cbn in Hk. apply elem_of_difference in Hk as [Hk Hne]. split; [done|].
  intros [->|]%elem_of_cons; [|done]. apply Hne. by apply elem_of_singleton.
Qed.

Lemma sound_sub st off V W : sound st off V → (∀ k, k ∈ W → k ∈ V) → sound st off W.
Proof. intros [Ho Hc Hr Hf Hv] Hs. constructor; try done. intros s i Hk. by apply Hv, Hs. Qed.

Lemma stop_entry x : get_ttl x = 0 → stops (insert_offer_service cfg x) ∧ entry_key (insert_offer_service cfg x) = (service_ x, instance_ x).
Proof. intros E. unfold insert_offer_service. rewrite E. done. Qed.

Lemma stop_sound l x b o st' st off V : sound st off V → infos st !! l = Some x → find (service_ x) (instance_ x) off = Some l →
  stop_offer_service cfg l true st = (b, o, st') → sound st' off (hear_all V o).
Proof.
  intros H Ex Hf E. rewrite (stop_eq _ x) in E by done. pose proof (stopped_sound l x st off V H Ex Hf) as Hs. unfold send_stop_offer in E.
  change (has_endpoint (withdrawn x)) with (has_endpoint x) in E.
  destruct (past_initial l x st); [|by injection E as <- <- <-]. destruct (has_endpoint x); [|by injection E as <- <- <-].
  cbn [send] in E. injection E as <- <- <-. cbn [andb] in Hs. eapply sound_sub; [exact Hs|]. intros k Hk.
  apply (forgotten [insert_offer_service cfg (withdrawn x)]) in Hk as [Hk Hn]; [|by repeat constructor].
  apply elem_of_difference. split; [done|]. intros ->%elem_of_singleton. apply Hn. by left.
Qed.

(** Later infos are of the same services, with the same endpoints, and stay withdrawn. *)
Definition kept (m m' : gmap loc serviceinfo) : Prop := ∀ l x, m !! l = Some x → ∃ x', m' !! l = Some x' ∧ service_ x' = service_ x ∧ instance_ x' = instance_ x
  ∧ has_endpoint x' = has_endpoint x ∧ (get_ttl x = 0 → get_ttl x' = 0).

Lemma stopped_kept l x st : infos st !! l = Some x → kept (infos st) (infos (stopped l x st)).
Proof.
  intros E l' y Ey. cbn. destruct (decide (l' = l)) as [->|]; [|exists y; rewrite lookup_insert_ne by done; tauto].
  exists (withdrawn x). rewrite lookup_insert_eq. assert (y = x) as -> by congruence. done.
Qed.

Lemma kept_trans m1 m2 m3 : kept m1 m2 → kept m2 m3 → kept m1 m3.
Proof.
  intros K1 K2 l' y Ey. destruct (K1 l' y Ey) as (z & Ez & A1 & A2 & A3 & A4). destruct (K2 l' z Ez) as (w & Ew & B1 & B2 & B3 & B4).
  exists w. split_and!; [done|congruence|congruence|congruence|auto].
Qed.

Lemma stop_offers_sound ls : ∀ st st' ls' off V, sound st off V →
  Forall (λ l, ∃ x, infos st !! l = Some x ∧ find (service_ x) (instance_ x) off = Some l) ls → stop_offers cfg ls st = (ls', st') →
  kept (infos st) (infos st') ∧ Forall (λ l, ∃ x, infos st' !! l = Some x ∧ get_ttl x = 0) ls'
  ∧ sound st' off (V ∖ list_to_set (omap (λ l, infos st' !! l ≫= λ x, if has_endpoint x then Some (service_ x, instance_ x) else None) ls')).
Proof.
  induction ls as [|l ls IH]; intros st st' ls' off V H Hls E.
  { injection E as <- <-. split_and!; [intros l x Ex; by exists x|done|]. cbn. eapply sound_sub; [exact H|]. intros k Hk. by apply elem_of_difference in Hk as [Hk _]. }
  apply Forall_cons in Hls as [(x & Ex & Hf) Hls]. cbn [stop_offers] in E. rewrite (stop_eq l x false st Ex) in E. cbn [fst snd] in E.
  pose proof (stopped_sound l x st off V H Ex Hf) as H1. pose proof (stopped_kept l x st Ex) as K1.
  destruct (stop_offers cfg ls (stopped l x st)) as [ls'' st''] eqn:E2. injection E as <- <-.
  assert (Hls1 : Forall (λ l', ∃ y, infos (stopped l x st) !! l' = Some y ∧ find (service_ y) (instance_ y) off = Some l') ls).
  { eapply Forall_impl; [exact Hls|]. intros l' (y & Ey & Hy). destruct (K1 l' y Ey) as (z & Ez & E3 & E4 & _). exists z. by rewrite E3, E4. }
  destruct (IH _ _ _ _ _ H1 Hls1 E2) as (K2 & Hz & H2).
  assert (K : kept (infos st) (infos st'')) by (by eapply kept_trans).
  destruct (K2 l (withdrawn x)) as (w & Ew & B1 & B2 & B3 & B4); [cbn; by rewrite lookup_insert_eq|].
  split; [done|]. destruct (past_initial l x st); [|split; [done|exact H2]]. split; [constructor; [exists w; auto|done]|].
  cbn [omap list_omap]. rewrite Ew. cbn [mbind option_bind]. rewrite B1, B2, B3. change (has_endpoint (withdrawn x)) with (has_endpoint x).
  eapply sound_sub; [exact H2|]. intros k [Hk Hn]%elem_of_difference. cbn [andb]. destruct (has_endpoint x).
  - rewrite list_to_set_cons in Hn. apply not_elem_of_union in Hn as [Hn1 Hn2]. apply elem_of_difference. split; [|done]. by apply elem_of_difference.
  - by apply elem_of_difference.
Qed.

Lemma stop_offers_withdrawn ls : ∀ ls' st st', Forall (λ l, is_Some (infos st !! l)) ls → stop_offers cfg ls st = (ls', st') →
  kept (infos st) (infos st') ∧ ∀ l, l ∈ ls → ∃ z, infos st' !! l = Some z ∧ get_ttl z = 0.
Proof.
  induction ls as [|l ls IH]; intros ls' st st' Hls E; [injection E as <- <-; split; [intros l x Ex; by exists x|by intros l ?%elem_of_nil]|].
  apply Forall_cons in Hls as [[x Ex] Hls]. cbn [stop_offers] in E. rewrite (stop_eq l x false st Ex) in E. cbn [fst snd] in E. pose proof (stopped_kept l x st Ex) as K1.
  destruct (stop_offers cfg ls (stopped l x st)) as [ls'' st''] eqn:E2. injection E as <- <-. destruct (IH ls'' (stopped l x st) st'') as [K2 H2]; [|done|].
  { eapply Forall_impl; [exact Hls|]. intros l' [y Ey]. destruct (K1 l' y Ey) as (z & Ez & _). by exists z. }
  split; [by eapply kept_trans|]. intros l' [->|Hin]%elem_of_cons; [|by apply H2].
  destruct (K2 l (withdrawn x)) as (w & Ew & _ & _ & _ & B4); [cbn; by rewrite lookup_insert_eq|]. exists w. auto.
Qed.

Lemma stop_all_sound ls ls' st st' off V : sound st off V →
  Forall (λ l, ∃ x, infos st !! l = Some x ∧ find (service_ x) (instance_ x) off = Some l) ls → stop_offers cfg ls st = (ls', st') →
  sound st' off (hear_all V (send_collected_stop_offers cfg ls' st').2).
Proof.
  intros H Hls E. destruct (stop_offers_sound ls _ _ _ _ _ H Hls E) as (_ & Hz & Hs). unfold hear_all, send_collected_stop_offers. rewrite entries_send.
  set (es := omap _ ls'). assert (Hes : Forall stops es ∧ ∀ l x, l ∈ ls' → infos st' !! l = Some x → has_endpoint x = true → (service_ x, instance_ x) ∈ entry_key <$> es).
  { subst es. clear E Hs Hls. induction ls' as [|l ls' IH]; [split; [constructor|by intros l x ?%elem_of_nil]|]. apply Forall_cons in Hz as [(x & Ex & Ht) Hz]. destruct (IH Hz) as [IH1 IH2].
    cbn [omap list_omap]. rewrite Ex. destruct (stop_entry x Ht) as [S1 S2]. split.
    - destruct (has_endpoint x); [by constructor|done].
    - intros l' y [->|Hin]%elem_of_cons Ey Hy; [assert (y = x) as -> by congruence; rewrite Hy; left|].
      destruct (has_endpoint x); [right|]; by apply (IH2 l'). }
  destruct Hes as [He1 He2]. eapply sound_sub; [exact Hs|]. intros k Hk. apply forgotten in Hk as [Hk Hn]; [|done]. apply elem_of_difference. split; [done|].
  rewrite elem_of_list_to_set, list_elem_of_omap. intros (l & Hl & Hkl). destruct (infos st' !! l) as [x|] eqn:Ex; [|done]. cbn in Hkl.
  destruct (has_endpoint x) eqn:Hx; [|done]. injection Hkl as <-. apply Hn. by eapply He2.
Qed.

(** ** Announcing *)

(** What is moved out of the collected offers was collected. *)
Lemma moved ls : ∀ m c m' c', move_services ls m c = Ok (m', c') → ∀ s i l,
  (find s i m' = Some l → find s i m = Some l ∨ find s i c = Some l) ∧ (find s i c' = Some l → find s i c = Some l).
Proof.
  induction ls as [|k ls IH]; intros m c m' c' E s i l; cbn in E; [injection E as <- <-; tauto|]. destruct (c !! k) as [x|] eqn:Ek; [|done].
  destruct (IH _ _ _ _ E s i l) as [H1 H2]. assert (Hd : find s i (delete k c) = Some l → find s i c = Some l).
  { unfold find. destruct (decide (s = k)) as [->|]; [by rewrite lookup_delete_eq|by rewrite lookup_delete_ne]. }
  split; [|auto]. intros Hm. destruct (H1 Hm) as [Hm'|Hm']; [|auto]. destruct (m !! k); [by left|]. unfold find in *.
  destruct (decide (s = k)) as [->|]; [rewrite lookup_insert_eq in Hm'; rewrite Ek; by right|rewrite lookup_insert_ne in Hm' by done; by left].
Qed.

Lemma collected_taken st m c : take_collected cfg st = Ok (m, c) → ∀ s i l,
  (find s i m = Some l → find s i (collected_offers_ st) = Some l) ∧ (find s i c = Some l → find s i (collected_offers_ st) = Some l).
Proof.
  unfold take_collected. destruct (is_diagnosis_ st).
  - intros E s i l. destruct (moved _ _ _ _ _ E s i l) as [H1 H2]. split; [|done]. intros Hm. destruct (H1 Hm) as [Hf|]; [|done]. discriminate (eq_trans (eq_sym (find_empty s i)) Hf).
  - intros [= <- <-] s i l. split; [done|]. intros Hf. discriminate (eq_trans (eq_sym (find_empty s i)) Hf).
Qed.

Lemma debounce_sound now o st' st off V : sound st off V → on_offer_debounce_timer_expired cfg now st = Ok (o, st') → sound st' off (hear_all V o).
Proof.
  intros H E. unfold on_offer_debounce_timer_expired in E. destruct (decide _) as [|Hne].
  { injection E as <- <-. apply (sound_same st); [done|apply improves_refl|done|done|done]. }
  destruct (take_collected cfg st) as [[m c]| | |] eqn:Et; try done. pose proof (collected_taken _ _ _ Et) as Ht. cbn [mbind result_bind] in E.
  destruct (if negb (repetitions_max_ cfg =? 0) then _ else _) as [d r]. injection E as <- <-.
  set (st1 := start_offer_debounce_timer _ _ _ _). unfold hear_all. rewrite entries_send.
  assert (Hrep : ∀ s i l, find s i m = Some l → repeated st1 s i l) by (intros s i l Hf; exists (next_timer st), m; cbn; by rewrite lookup_insert_eq).
  assert (H1 : sound st1 off V).
  { apply (sound_mono st); [done|apply improves_refl| | | |].
    - intros s i l Hf. left. exact (proj2 (Ht s i l) Hf).
    - intros s i l (n & m' & Hn & Hf). cbn in Hn. destruct (decide (n = next_timer st)) as [->|].
      + rewrite lookup_insert_eq in Hn. injection Hn as <-. right. exact (proj1 (Ht s i l) Hf).
      + rewrite lookup_insert_ne in Hn by done. left. by exists n, m'.
    - intros s i l (n & m' & Hn & Hf). right. exists n, m'. cbn. apply (so_fresh _ _ _ H) in Hn as Hlt. rewrite lookup_insert_ne by lia. done.
    - intros n m'. cbn. destruct (decide (n = next_timer st)) as [->|]; [lia|]. rewrite lookup_insert_ne by done. intros Hn%(so_fresh _ _ _ H). lia. }
  apply sound_heard; [done|]. intros s i e He Ho. apply (inserted _ _ _ _ _ _ He) in Ho as (s' & i' & l & x & Hf & Ex & <- & <- & Hx & Hep & _).
  destruct (so_repeated _ _ _ H1 _ _ _ (Hrep _ _ _ Hf)) as [Hoff _]. destruct (so_offered _ _ _ H1 _ _ _ Hoff) as (y & Ey & E1 & E2). assert (y = x) as -> by (cbn in *; congruence).
  subst s' i'. exists l. split; [done|]. exists x. split_and!; [done|done|done|]. right. by apply Hrep.
Qed.

(** The services of a repetition timer enter the main phase. *)
Lemma set_mainphase_all_improves services m : improves m (set_mainphase_all services m).
Proof.
  unfold set_mainphase_all. generalize (each services) as es. intros es. revert m.
  induction es as [|[[s0 i0] l0] es IH]; intros m; [apply improves_refl|]. cbn [foldl]. eapply improves_trans; [|apply IH]. by apply improves_alter.
Qed.

Lemma set_mainphase_all_spec services m s i l x : find s i services = Some l → m !! l = Some x →
  ∃ x', set_mainphase_all services m !! l = Some x' ∧ is_in_mainphase_ x' = true.
Proof.
  rewrite <- elem_of_each. unfold set_mainphase_all. generalize (each services) as es. intros es Hin.
  assert (H : is_in_mainphase_ x = true ∨ (s, i, l) ∈ es) by (by right). clear Hin. revert m x H. induction es as [|[[s0 i0] l0] es IH]; intros m x H Ex; cbn [foldl].
  { destruct H as [H|H%elem_of_nil]; [by exists x|done]. }
  destruct (decide (l = l0)) as [->|Hne].
  - apply (IH _ (set_is_in_mainphase true x)); [by left|]. by rewrite lookup_alter_eq, Ex.
  - apply (IH _ x); [|by rewrite lookup_alter_ne]. destruct H as [|[[= -> -> ->]|]%elem_of_cons]; [by left|done|by right].
Qed.

Lemma move_main_sound timer st off V : sound st off V → sound (move_offers_into_main_phase timer st) off V.
Proof.
  intros H. unfold move_offers_into_main_phase. destruct (repetition_phase_timers_ st !! timer) as [services|] eqn:Et; [|done].
  apply (sound_mono st); [done|apply set_mainphase_all_improves|by left| | |].
  - intros s i l (n & m & Hn & Hf). cbn in Hn. left. exists n, m. apply lookup_delete_Some in Hn as [_ Hn]. done.
  - intros s i l (n & m & Hn & Hf). destruct (decide (n = timer)) as [->|].
    + left. assert (m = services) as -> by congruence. destruct (so_repeated _ _ _ H s i l) as [_ (x & Ex & _)]; [by exists timer, services|].
      destruct (set_mainphase_all_spec services (infos st) s i l x Hf Ex) as (x' & Ex' & Hm). by exists x'.
    + right. exists n, m. cbn. rewrite lookup_delete_ne by done. done.
  - intros n m. cbn. intros [_ Hn]%lookup_delete_Some. by apply (so_fresh _ _ _ H) in Hn.
Qed.

(** The entries of a repetition timer. *)
Lemma repetition_heard timer services st off V : sound st off V → repetition_phase_timers_ st !! timer = Some services →
  sound st off (foldl hear V (insert_offer_entries cfg services true st)).
Proof.
  intros H Et. apply sound_heard; [done|]. intros s i e He Ho. apply (inserted _ _ _ _ _ _ He) in Ho as (s' & i' & l & x & Hf & Ex & <- & <- & Hx & Hep & _).
  assert (Hr : repeated st s' i' l) by (by exists timer, services). destruct (so_repeated _ _ _ H _ _ _ Hr) as [Hoff _].
  destruct (so_offered _ _ _ H _ _ _ Hoff) as (y & Ey & E1 & E2). assert (y = x) as -> by congruence. subst s' i'. exists l. split; [done|]. exists x. tauto.
Qed.

Lemma repetition_sound now n o st' st off V : sound st off V → repetition_timer cfg now n st = (o, st') → sound st' off (hear_all V o).
Proof.
  intros H E. unfold repetition_timer in E. destruct (repetition_waits st !! n) as [w|]; [|by injection E as <- <-].
  set (st1 := with_repetition _ _ _ st) in E. assert (H1 : ∀ W, sound st off W → sound st1 off W) by (intros W HW; apply (sound_same st); [done|apply improves_refl|done|done|done]).
  unfold on_repetition_phase_timer_expired in E. destruct (repetition w =? 0); [injection E as <- <-; by apply move_main_sound, H1|].
  destruct (repetition_phase_timers_ st1 !! n) as [services|] eqn:Et; [|injection E as <- <-; by apply H1].
  pose proof (repetition_heard n services st1 off V (H1 V H) Et) as H2.
  destruct (repetition w <=? repetitions_max_ cfg); [|destruct (last_offer_shorter_half_offer_delay_ago cfg now st1)]; injection E as <- <-; unfold hear_all; rewrite entries_send.
  - apply (sound_same st1); [done|apply improves_refl|done|done|done].
  - by apply move_main_sound.
  - apply (sound_same st1); [done|apply improves_refl|done|done|done].
Qed.

Lemma main_sound now o st' st off V : sound st off V → on_main_phase_timer_expired cfg now off st = (o, st') → sound st' off (hear_all V o).
Proof.
  intros H [= <- <-]. apply (sound_same st); [|apply improves_refl|done|done|done]. unfold hear_all. rewrite entries_send. apply sound_heard; [done|].
  intros s i e He Ho. apply (inserted _ _ _ _ _ _ He) in Ho as (s' & i' & l & x & Hf & Ex & <- & <- & Hx & Hep & [|Hm]); [done|].
  destruct (so_offered _ _ _ H _ _ _ Hf) as (y & Ey & E1 & E2). assert (y = x) as -> by congruence. subst s' i'. exists l. split; [done|]. exists x. tauto.
Qed.

(** ** Answering *)

Lemma answered now major minor u l st e : e ∈ entries (answer_find cfg now major minor u l st) → ∃ x, infos st !! l = Some x ∧ e = insert_offer_service cfg x ∧ has_endpoint x = true.
Proof.
  unfold answer_find. destruct (infos st !! l) as [x|]; [|by intros ?%elem_of_nil]. destruct (_ && has_endpoint x) eqn:Eh; [|by intros ?%elem_of_nil].
  apply andb_true_iff in Eh as [_ Eh]. unfold send_uni_or_multicast_offerservice. destruct u; [|by intros ?%elem_of_nil].
  destruct (last_offer_shorter_half_offer_delay_ago cfg now st); cbn; intros ->%list_elem_of_singleton; by exists x.
Qed.

Lemma process_find_entries now s i major minor u off st e : e ∈ entries (process_findservice_serviceentry cfg now s i major minor u off st) →
  ∃ i' l x, find s i' off = Some l ∧ infos st !! l = Some x ∧ e = insert_offer_service cfg x ∧ has_endpoint x = true.
Proof.
  unfold process_findservice_serviceentry. destruct (negb (i =? ANY_INSTANCE)).
  - destruct (find s i off) as [l|] eqn:Ef; [|by intros ?%elem_of_nil]. intros (x & Hx)%answered. by exists i, l, x.
  - unfold entries. intros Hin. apply list_elem_of_join in Hin as (es & He & Hes). apply list_elem_of_fmap in Hes as (o & -> & Ho).
    apply list_elem_of_join in Ho as (os & Ho & Hos). apply list_elem_of_fmap in Hos as ([i' l] & -> & Hl). apply elem_of_sorted in Hl. cbn in Ho.
    destruct (answered now major minor u l st e) as (x & Hx).
    { unfold entries. apply list_elem_of_join. eexists. split; [exact He|]. apply list_elem_of_fmap. by exists o. }
    exists i', l, x. split; [|done]. revert Hl. unfold find. destruct (off !! s) as [m|]; cbn; [done|]. by rewrite lookup_empty.
Qed.

Lemma elem_of_waiting st off o k : k ∈ waiting st off o ↔ in_initial_wait st off k = true ∧ ∃ e, e ∈ entries o ∧ k ∈ named e.
Proof.
  unfold waiting. rewrite elem_of_list_to_set, list_elem_of_filter, list_elem_of_join. f_equiv. split.
  - intros (l & Hk & (e & -> & He)%list_elem_of_fmap). by exists e.
  - intros (e & He & Hk). exists (named e). split; [done|]. apply list_elem_of_fmap. by exists e.
Qed.

Lemma find_sound now s i major minor u st off V : sound st off V →
  let o := process_findservice_serviceentry cfg now s i major minor u off st in
  sound st off (hear_all V o ∖ waiting st off o).
Proof.
  intros H o. destruct (H) as [Ho Hc Hr Hf Hv]. constructor; try done. intros s' i' [Hk Hw]%elem_of_difference.
  apply heard in Hk as [Hk|(e & Hin & Hoff)]; [by apply Hv|].
  destruct (process_find_entries _ _ _ _ _ _ _ _ _ Hin) as (i1 & l & x & Hl & Ex & -> & Hep).
  destruct (Ho _ _ _ Hl) as (y & Ey & Es & Ei). assert (y = x) as -> by congruence.
  pose proof (offered_ttl _ _ _ Hoff) as (E1 & E2 & E3). subst. exists l. split; [done|]. exists x. split_and!; try done.
  apply past_initial_spec. destruct (past_initial l x st) eqn:Ep; [done|]. exfalso. apply Hw, elem_of_waiting. split.
  - unfold in_initial_wait. cbn [fst snd]. rewrite Hl, Ex, Ep. done.
  - eexists. split; [exact Hin|]. cbn. by left.
Qed.

Lemma sent_sound es remote off st V : sound st off V → sound (check_sent_offers es remote off st) off V.
Proof.
  intros H. unfold check_sent_offers. revert st H. induction es as [|e es IH]; intros st H; [done|]. cbn [foldl]. apply IH. destruct e as [s i ma mi ttl r u|]; [|done].
  destruct (0 <? ttl); [|done]. destruct (find s i off) as [l|]; [|done]. apply (sound_same st); [done| |done|done|done]. apply improves_alter. intros x _.
  destruct remote; [destruct (accepting_remote_subscription_ x)|]; done.
Qed.

(** ** Searching leaves the offers alone *)

Definition same_offers (st st' : t) : Prop := infos st' = infos st ∧ collected_offers_ st' = collected_offers_ st
  ∧ repetition_phase_timers_ st' = repetition_phase_timers_ st ∧ (next_timer st ≤ next_timer st')%nat.

Lemma same_offers_sound st st' off V : same_offers st st' → sound st off V → sound st' off V.
Proof. intros (E1 & E2 & E3 & E4) H. apply (sound_same st); [done|rewrite E1; apply improves_refl|done|done|done]. Qed.

Definition is_find (e : sd_entry) : Prop := match e with find_entry _ _ _ _ _ => True | _ => False end.

(** Inserting searches changes the counters of the requests only. *)
Definition same_but_counters (st st' : t) : Prop := same_offers st st' ∧ find_repetition_phase_timers_ st' = find_repetition_phase_timers_ st
  ∧ find_waits st' = find_waits st ∧ requested_ st' = requested_ st ∧ next_timer st' = next_timer st.

Lemma same_but_counters_trans st1 st2 st3 : same_but_counters st1 st2 → same_but_counters st2 st3 → same_but_counters st1 st3.
Proof.
  intros ((A1 & A2 & A3 & A4) & A5 & A6 & A7 & A8) ((B1 & B2 & B3 & B4) & B5 & B6 & B7 & B8). unfold same_but_counters, same_offers.
  rewrite B1, B2, B3, B5, B6, B7, B8. split_and!; try done; lia.
Qed.

Lemma insert_find_entry_same e acc : Forall is_find acc.1 → let r := insert_find_entry cfg acc e in same_but_counters acc.2 r.2 ∧ Forall is_find r.1.
Proof.
  destruct acc as [ents st], e as [[s i] l]. intros H. cbn in H. cbn. destruct (find s i (requested_ st)); [|done]. destruct (requests st !! l); [|done]. destruct (negb _); [|done].
  split; [done|]. apply Forall_app_2; [done|by constructor].
Qed.

Lemma find_entries_spec finds st : let r := insert_find_entries cfg finds st in same_but_counters st r.2 ∧ Forall is_find r.1.
Proof.
  unfold insert_find_entries. assert (H : ∀ es acc, Forall is_find acc.1 → same_but_counters acc.2 (foldl (insert_find_entry cfg) acc es).2 ∧ Forall is_find (foldl (insert_find_entry cfg) acc es).1).
  { intros es. induction es as [|e es IH]; intros acc Hacc; [done|]. cbn [foldl]. destruct (insert_find_entry_same e acc Hacc) as [S1 S2].
    destruct (IH _ S2) as [I1 I2]. split; [by eapply same_but_counters_trans|done]. }
  by apply (H (each finds) ([], st)).
Qed.

Lemma finds_heard V es : Forall is_find es → foldl hear V es = V.
Proof. induction es as [|e es IH]; [done|]. intros [He Hes]%Forall_cons. destruct e; [done|]. by apply IH. Qed.

Lemma find_debounce_sound now o st' st off V : sound st off V → on_find_debounce_timer_expired cfg now st = (o, st') → sound st' off (hear_all V o).
Proof.
  intros H E. unfold on_find_debounce_timer_expired in E.
  assert (Hd : ∀ st1, same_offers st1 (start_find_debounce_timer cfg now false st1)) by (intros st1; unfold start_find_debounce_timer; by destruct (0 <? _)).
  destruct (decide _); [injection E as <- <-; apply (same_offers_sound st); [apply Hd|done]|]. pose proof (find_entries_spec (unsent st) st) as Hf.
  destruct (insert_find_entries cfg (unsent st) st) as [es st1]. cbn [fst snd] in Hf. destruct Hf as [(S1 & _ & _ & _ & S2) S3]. injection E as <- <-.
  unfold hear_all. rewrite entries_send, finds_heard by done. apply (same_offers_sound st1); [|by eapply same_offers_sound].
  destruct (0 <? _); (split_and!; [done|done|done|cbn; lia]).
Qed.

Lemma find_timer_sound now n o st' st off V : sound st off V → find_timer cfg now n st = (o, st') → sound st' off (hear_all V o).
Proof.
  intros H E. unfold find_timer in E. destruct (find_waits st !! n) as [w|]; [|by injection E as <- <-]. set (st1 := with_find_repetition _ _ _ st) in E.
  assert (H1 : sound st1 off V) by (by apply (same_offers_sound st)). unfold on_find_repetition_phase_timer_expired in E.
  destruct (find_repetition_phase_timers_ st1 !! n) as [finds|]; [|by injection E as <- <-].
  destruct (repetition w <=? repetitions_max_ cfg); [|injection E as <- <-; by apply (same_offers_sound st1)]. pose proof (find_entries_spec finds st1) as Hf.
  destruct (insert_find_entries cfg finds st1) as [es st2]. cbn [fst snd] in Hf. destruct Hf as [(S1 & _ & _ & _ & S2) S3]. injection E as <- <-.
  unfold hear_all. rewrite entries_send, finds_heard by done. eapply (same_offers_sound st2); [done|]. by eapply same_offers_sound.
Qed.

(** ** Every step *)

Lemma new_sound l x st off V : sound st off V → infos st !! l = None → find (service_ x) (instance_ x) off = None → 0 < get_ttl x →
  sound (offer_service l (with_infos (<[l := x]> (infos st)) st)) (put (service_ x) (instance_ x) l off) V.
Proof.
  intros H El Hf Ht. apply (offer_sound l x); [|cbn; by rewrite lookup_insert_eq|by rewrite find_after_put|done].
  assert (Hoff : ∀ s i l', find s i off = Some l' → find s i (put (service_ x) (instance_ x) l off) = Some l').
  { intros s i l' Hl'. rewrite find_put_ne; [done|]. intros [= -> ->]. congruence. }
  assert (H1 : sound (with_infos (<[l := x]> (infos st)) st) off V) by (apply (sound_same st); [done|by apply improves_new|done|done|done]).
  destruct H1 as [Ho Hc Hr Hfr Hv]. constructor; [| | |done|].
  - intros s i l' [[[= -> ->] ->]|Hl']%find_put_inv; [|by apply Ho]. exists x. cbn. by rewrite lookup_insert_eq.
  - intros s i l' E. destruct (Hc s i l' E). auto.
  - intros s i l' E. destruct (Hr s i l' E). auto.
  - intros s i Hk. destruct (Hv s i Hk) as (l' & Hl' & Hb). exists l'. auto.
Qed.

Lemma remove_sound l x st off V : sound st off V → infos st !! l = Some x → find (service_ x) (instance_ x) off = Some l → get_ttl x = 0 →
  sound st (erase (service_ x) (instance_ x) off) V.
Proof.
  intros [Ho Hc Hr Hfr Hv] Ex Hf Ht.
  assert (Hk : ∀ s i l', find s i off = Some l' → alive st l' → find s i (erase (service_ x) (instance_ x) off) = Some l').
  { intros s i l' Hl' (y & Ey & Hy). rewrite find_after_erase. destruct (decide _) as [[= -> ->]|]; [|done]. assert (l' = l) as -> by congruence. assert (y = x) as -> by congruence. lia. }
  constructor; [| | |done|].
  - intros s i l'. rewrite find_after_erase. destruct (decide _); [done|]. apply Ho.
  - intros s i l' E. destruct (Hc s i l' E). auto.
  - intros s i l' E. destruct (Hr s i l' E). auto.
  - intros s i Hs. destruct (Hv s i Hs) as (l' & Hl' & Hb). exists l'. split; [|done]. apply Hk; [done|]. destruct Hb as (y & Ey & Hy & _). by exists y.
Qed.

Lemma again_sound l x (reset : bool) st off V : sound st off V → infos st !! l = Some x → find (service_ x) (instance_ x) off = Some l → (reset = true → get_ttl x = 0) →
  let x' := set_ttl DEFAULT_TTL (if reset then set_is_in_mainphase false x else x) in
  sound (offer_service l (with_infos (<[l := x']> (infos st)) st)) off V.
Proof.
  intros H Ex Hf Hreset x'. assert (Ht : 0 < get_ttl x') by done.
  apply (offer_sound l x'); [|cbn; by rewrite lookup_insert_eq|by destruct reset|done].
  apply (sound_same st); [done| |done|done|done]. apply (improves_insert _ _ x); [done|]. subst x'. destruct reset; [|done]. specialize (Hreset eq_refl). split_and!; try done; cbn; intros; lia.
Qed.

Lemma set_endpoint_has port reliable x : has_endpoint (set_endpoint (Some port) reliable x) = true.
Proof. unfold has_endpoint. destruct reliable; cbn; [by destruct (unreliable_ x)|done]. Qed.

(** What a listener believes for other reasons than an early answer. *)
Lemma hear_superseded es : ∀ V E k, k ∈ foldl hear V es → (k ∉ E ∖ list_to_set (mjoin (named <$> es))) → k ∈ foldl hear (V ∖ E) es.
Proof.
  induction es as [|e es IH]; intros V E k Hk Hn; cbn [foldl fmap list_fmap mjoin list_join] in *.
  { apply elem_of_difference. split; [done|]. intros HE. apply Hn. apply elem_of_difference. split; [done|]. by intros ?%elem_of_list_to_set%elem_of_nil. }
  destruct e as [s i ma mi ttl r u|s i ma mi ttl]; cbn [named app] in Hn; [|apply (IH V E k Hk Hn)].
  apply (IH _ (E ∖ {[(s, i)]}) k) in Hk.
  - eapply (foldl_hear_mono es); [|exact Hk]. intros j [Hj Hne]%elem_of_difference. cbn [hear] in *. destruct (0 <? ttl).
    + apply elem_of_union in Hj as [Hj|Hj]; [|apply elem_of_union; by right]. destruct (decide (j = (s, i))) as [->|Hd]; [apply elem_of_union; right; by apply elem_of_singleton|].
      apply elem_of_union. left. apply elem_of_difference. split; [done|]. intros HE. apply Hne, elem_of_difference. split; [done|]. by intros ?%elem_of_singleton.
    + apply elem_of_difference in Hj as [Hj Hd]. apply elem_of_difference. split; [|done]. apply elem_of_difference. split; [done|]. intros HE. apply Hne, elem_of_difference. by split.
  - intros [HE Hl]%elem_of_difference. apply elem_of_difference in HE as [HE Hs]. apply Hn, elem_of_difference. split; [done|].
    rewrite list_to_set_cons. intros [Hd|Hd]%elem_of_union; done.
Qed.

Definition sound_sys (g : sys) : Prop := sound (sd g) (offered g) (view g ∖ early g).

Lemma sound_superseded st off V E o : sound st off (hear_all (V ∖ E) o) → sound st off (hear_all V o ∖ superseded E o).
Proof. intros H. eapply sound_sub; [exact H|]. intros k [Hk Hn]%elem_of_difference. by apply hear_superseded. Qed.

Lemma sound_step g g' : step g g' → sound_sys g → sound_sys g'.
Proof.
  intros Hstep H. unfold sound_sys in *. destruct Hstep; cbn [sd offered view early].
  - by apply new_sound.
  - by apply again_sound.
  - apply (sound_same (sd g)); [done| |done|done|done]. eapply improves_insert; [done|]. split_and!; try done. intros _. apply set_endpoint_has.
  - apply sound_superseded. by eapply stop_sound.
  - apply sound_superseded. by eapply stop_all_sound.
  - by eapply remove_sound.
  - apply sound_superseded. by eapply debounce_sound.
  - apply sound_superseded. by eapply repetition_sound.
  - apply sound_superseded. by eapply main_sound.
  - eapply sound_sub; [apply (find_sound now s i major minor u); exact H|]. fold o.
    intros k [Hk [Hs Hw]%not_elem_of_union]%elem_of_difference. apply elem_of_difference. split; [by apply hear_superseded|done].
  - by apply sent_sound.
  - apply (same_offers_sound (sd g)); [|done]. unfold start. destruct e; [|done]. by destruct (is_suspended_ (sd g)).
  - by apply (same_offers_sound (sd g)).
  - by apply (same_offers_sound (sd g)).
  - apply sound_superseded. by eapply find_debounce_sound.
  - apply sound_superseded. by eapply find_timer_sound.
Qed.

Lemma sound_reachable reps g : rtc step (initial reps) g → sound_sys g.
Proof.
  revert g. apply rtc_ind_r; [|intros g1 g2 _ Hs IH; by eapply sound_step].
  constructor; cbn; try done. intros s i l (n & m & Hn & _). cbn in Hn. by rewrite lookup_empty in Hn.
Qed.

(** ** The repetition phase *)

(** The timer expires [k] times, each time when it is due. *)
Fixpoint repetitions (k : nat) (timer : nat) (st : t) : list (Z * list output) * t :=
  match k with
  | O => ([], st)
  | S k =>
      match repetition_waits st !! timer with
      | Some w =>
          let '(o, st) := repetition_timer cfg (expiry w) timer st in
          let '(os, st) := repetitions k timer st in
          ((expiry w, o) :: os, st)
      | None => ([], st)
      end
  end.

(** The state before the [r]th repetition of what was first sent at [t0] from [st0]. *)
Record repeating (timer : nat) (services : services_t) (st0 : t) (t0 r : Z) (st : t) : Prop := {
  rp_services : repetition_phase_timers_ st !! timer = Some services;
  rp_wait : repetition_waits st !! timer = Some (mk_wait r (repetitions_base_delay_ cfg * 2 ^ (r - 1)) (t0 + ms (repetitions_base_delay_ cfg * (2 ^ r - 1))));
  rp_infos : infos st = infos st0;
  rp_suspended : is_suspended_ st = is_suspended_ st0;
  rp_diagnosis : is_diagnosis_ st = is_diagnosis_ st0
}.

Section schedule.
Context (timer : nat) (services : services_t) (st0 : t) (t0 : Z).
Context (Hmax : 1 ≤ repetitions_max_ cfg ≤ 254) (Hbase : 0 ≤ repetitions_base_delay_ cfg) (Hwidth : repetitions_base_delay_ cfg * 2 ^ repetitions_max_ cfg < 2 ^ 32).

Lemma repeating_entries r st : repeating timer services st0 t0 r st → insert_offer_entries cfg services true st = insert_offer_entries cfg services true st0.
Proof. intros [_ _ E1 E2 E3]. unfold insert_offer_entries. by rewrite E1, E2, E3. Qed.

(** What is common to all expiries. *)
Lemma repeating_expires r st : repeating timer services st0 t0 r st → 1 ≤ r →
  let now := t0 + ms (repetitions_base_delay_ cfg * (2 ^ r - 1)) in
  let st1 := with_repetition (repetition_phase_timers_ st) (delete timer (repetition_waits st)) (next_timer st) st in
  repetition_timer cfg now timer st =
    let '(new_delay, rep', move_to_main) :=
      if r <=? repetitions_max_ cfg then (u32 (repetitions_base_delay_ cfg * 2 ^ (r - 1) * 2), u8 (r + 1), false)
      else if last_offer_shorter_half_offer_delay_ago cfg now st then (0, 0, true) else (cyclic_offer_delay_ cfg, 0, false) in
    let o := (send (insert_offer_entries cfg services true st0)).2 in
    if (move_to_main : bool) then (o, move_offers_into_main_phase timer st1)
    else (o, with_repetition (repetition_phase_timers_ st) (<[timer := mk_wait rep' (u32 new_delay) (now + ms new_delay)]> (repetition_waits st)) (next_timer st) st).
Proof.
  intros H Hr. cbv zeta. unfold repetition_timer. rewrite (rp_wait _ _ _ _ _ _ H). unfold on_repetition_phase_timer_expired. cbn [repetition last_delay].
  destruct (Z.eqb_spec r 0); [lia|]. cbn [with_repetition repetition_phase_timers_]. rewrite (rp_services _ _ _ _ _ _ H).
  change (insert_offer_entries cfg services true (with_repetition _ _ _ st)) with (insert_offer_entries cfg services true st). rewrite (repeating_entries r st H).
  change (last_offer_shorter_half_offer_delay_ago cfg _ (with_repetition _ _ _ st)) with (last_offer_shorter_half_offer_delay_ago cfg (t0 + ms (repetitions_base_delay_ cfg * (2 ^ r - 1))) st).
  destruct (r <=? repetitions_max_ cfg); [|destruct (last_offer_shorter_half_offer_delay_ago cfg _ st); [done|]];
    cbn [with_repetition repetition_waits next_timer]; by rewrite insert_delete_eq.
Qed.

Lemma repeating_next r st : repeating timer services st0 t0 r st → 1 ≤ r ≤ repetitions_max_ cfg →
  ∃ st', repetition_timer cfg (t0 + ms (repetitions_base_delay_ cfg * (2 ^ r - 1))) timer st = ((send (insert_offer_entries cfg services true st0)).2, st')
    ∧ repeating timer services st0 t0 (r + 1) st'.
Proof.
  intros H Hr. rewrite (repeating_expires r st H) by lia. destruct (Z.leb_spec r (repetitions_max_ cfg)); [|lia]. cbv zeta. eexists. split; [done|].
  assert (Hp : 2 ^ r ≤ 2 ^ repetitions_max_ cfg) by (apply Z.pow_le_mono_r; lia). assert (Hd : repetitions_base_delay_ cfg * 2 ^ (r - 1) * 2 = repetitions_base_delay_ cfg * 2 ^ r).
  { replace r with (Z.succ (r - 1)) at 2 by lia. rewrite Z.pow_succ_r by lia. lia. }
  assert (Hw : 0 ≤ repetitions_base_delay_ cfg * 2 ^ r < 2 ^ 32) by nia.
  assert (Hu : u32 (repetitions_base_delay_ cfg * 2 ^ r) = repetitions_base_delay_ cfg * 2 ^ r) by (apply wrap_small; split; lia).
  assert (Hu8 : u8 (r + 1) = r + 1) by (apply wrap_small; split; lia). rewrite Hd, !Hu, Hu8. destruct H as [H1 H2 H3 H4 H5]. constructor; [done| |done|done|done].
  cbn [with_repetition repetition_waits]. rewrite lookup_insert_eq. replace (r + 1 - 1) with r by lia. do 2 f_equal.
  rewrite Z.pow_add_r by lia. unfold ms. lia.
Qed.

(** After the last repetition the services enter the main phase, at once or with
    the next expiry. *)
Definition finished (st : t) : Prop := repetition_phase_timers_ st !! timer = None ∧ infos st = set_mainphase_all services (infos st0).

Lemma repeating_last st : repeating timer services st0 t0 (repetitions_max_ cfg + 1) st →
  ∃ st', repetition_timer cfg (t0 + ms (repetitions_base_delay_ cfg * (2 ^ (repetitions_max_ cfg + 1) - 1))) timer st = ((send (insert_offer_entries cfg services true st0)).2, st')
    ∧ finished (repetitions 1 timer st').2.
Proof.
  intros H. rewrite (repeating_expires _ st H) by lia. destruct (Z.leb_spec (repetitions_max_ cfg + 1) (repetitions_max_ cfg)); [lia|]. cbv zeta.
  destruct H as [H1 H2 H3 H4 H5]. destruct (last_offer_shorter_half_offer_delay_ago _ _ _); (eexists; split; [done|]).
  - unfold move_offers_into_main_phase. cbn [with_repetition repetition_phase_timers_]. rewrite H1. cbn. rewrite lookup_delete_eq. split; cbn; [apply lookup_delete_eq|by rewrite H3].
  - cbn [repetitions with_repetition repetition_waits]. rewrite lookup_insert_eq. unfold repetition_timer. cbn [with_repetition repetition_waits]. rewrite lookup_insert_eq.
    unfold on_repetition_phase_timer_expired. cbn [repetition Z.eqb]. unfold move_offers_into_main_phase. cbn [with_repetition repetition_phase_timers_]. rewrite H1. cbn.
    split; [apply lookup_delete_eq|by rewrite H3].
Qed.

Lemma repeats j : ∀ r st, repeating timer services st0 t0 r st → 1 ≤ r → r + Z.of_nat j = repetitions_max_ cfg + 1 →
  ∃ st', repetitions (S j) timer st =
      ((λ k, (t0 + ms (repetitions_base_delay_ cfg * (2 ^ k - 1)), (send (insert_offer_entries cfg services true st0)).2)) <$> seqZ r (Z.of_nat (S j)), st')
    ∧ finished (repetitions 1 timer st').2.
Proof.
  induction j as [|j IH]; intros r st H Hr Hj; cbn [repetitions]; rewrite (rp_wait _ _ _ _ _ _ H); cbn [expiry].
  - assert (r = repetitions_max_ cfg + 1) as -> by lia. destruct (repeating_last st H) as (st' & E & Hf). rewrite E. exists st'. split; [|done].
    by rewrite seqZ_cons by lia.
  - destruct (repeating_next r st H) as (st' & E & H'); [lia|]. rewrite E. destruct (IH (r + 1) st' H') as (st'' & E' & Hf); [lia|lia|]. cbn [repetitions] in E'.
    rewrite E'. exists st''. split; [|done]. rewrite (seqZ_cons r) by lia. cbn [fmap list_fmap]. replace (Z.succ r) with (r + 1) by lia. replace (Z.pred (Z.of_nat (S (S j)))) with (Z.of_nat (S j)) by lia. done.
Qed.
End schedule.
End system.

(** ** The theorems *)


(** (C6) The schedule of an offer.  When the initial wait phase ends at [t0], the
    collected services are offered at once and then [repetitions_max_ + 1] times
    more, after the base delay, twice, four times ... the base delay; then they are
    in the main phase, at the latest with the next expiry of the timer. *)
Theorem sd_offer_schedule (cfg : configuration) (t0 : Z) (st : t) (Hmax : 1 ≤ repetitions_max_ cfg ≤ 254) (Hbase : 0 ≤ repetitions_base_delay_ cfg)
  (Hwidth : repetitions_base_delay_ cfg * 2 ^ repetitions_max_ cfg < 2 ^ 32) (Hcollected : collected_offers_ st ≠ ∅) (Hdiag : is_diagnosis_ st = false) :
  let o := (send (insert_offer_entries cfg (collected_offers_ st) true st)).2 in
  ∃ st1 st2, on_offer_debounce_timer_expired cfg t0 st = Ok (o, st1)
    ∧ repetitions cfg (Z.to_nat (repetitions_max_ cfg + 1)) (next_timer st) st1 =
        ((λ k, (t0 + ms (repetitions_base_delay_ cfg * (2 ^ k - 1)), o)) <$> seqZ 1 (repetitions_max_ cfg + 1), st2)
    ∧ let st3 := (repetitions cfg 1 (next_timer st) st2).2 in
      repetition_phase_timers_ st3 !! next_timer st = None
      ∧ ∀ s i l x, find s i (collected_offers_ st) = Some l → infos st !! l = Some x → ∃ x', infos st3 !! l = Some x' ∧ is_in_mainphase_ x' = true.
Proof.
  cbv zeta. set (o := (send _).2). unfold on_offer_debounce_timer_expired, take_collected. rewrite decide_False by done. rewrite Hdiag. cbn [mbind result_bind].
  destruct (Z.eqb_spec (repetitions_max_ cfg) 0); [lia|]. cbn [negb]. set (st1 := start_offer_debounce_timer _ _ _ _).
  assert (Hb : repetitions_base_delay_ cfg < 2 ^ 32) by (assert (1 ≤ 2 ^ repetitions_max_ cfg) by (apply (Z.pow_le_mono_r 2 0); lia); nia).
  assert (H1 : repeating cfg (next_timer st) (collected_offers_ st) st t0 1 st1).
  { constructor; [cbn; by rewrite lookup_insert_eq| |done|done|done]. cbn -[u32 Z.pow]. rewrite lookup_insert_eq. rewrite wrap_small by (split; lia). do 2 f_equal; [|unfold ms]; lia. }
  destruct (repeats cfg (next_timer st) (collected_offers_ st) st t0 Hmax Hbase Hwidth (Z.to_nat (repetitions_max_ cfg)) 1 st1 H1) as (st2 & E & Hf1 & Hf2); [lia|lia|].
  exists st1, st2. split; [done|]. replace (Z.to_nat (repetitions_max_ cfg + 1)) with (S (Z.to_nat (repetitions_max_ cfg))) by lia. rewrite E.
  replace (Z.of_nat (S (Z.to_nat (repetitions_max_ cfg)))) with (repetitions_max_ cfg + 1) by lia. split; [done|]. split; [done|].
  intros s i l x Hf Ex. rewrite Hf2. by eapply set_mainphase_all_spec.
Qed.

(** ** Examples *)

Definition example_configuration : configuration := mk_configuration 10 500 500 200 30 3 1000 3600 (λ _ _, true).
Definition example_info (instance : Z) : serviceinfo := set_endpoint (Some 30509) false (create_info 0x1111 instance 1 0 DEFAULT_TTL).

Definition example_offered : sys :=
  mk_sys (offer_service 0%nat (with_infos {[0%nat := example_info 1]} (create 0))) {[0x1111 := {[1 := 0%nat]}]} ∅ ∅.
Definition example_announced : sys :=
  match on_offer_debounce_timer_expired example_configuration (ms 10) (sd example_offered) with
  | Ok (o, st) => mk_sys st (offered example_offered) (hear_all ∅ o) (superseded ∅ o)
  | _ => example_offered
  end.

Lemma example_announced_reachable : rtc (step example_configuration) (initial 0) example_announced.
Proof.
  apply rtc_l with example_offered; [apply (step_new _ 0%nat (example_info 1) (initial 0)); [done|done|vm_compute; reflexivity|done]|].
  apply rtc_once, (step_debounce _ (ms 10) [send_multicast [insert_offer_service example_configuration (example_info 1)]] (sd example_announced) example_offered). vm_compute. reflexivity.
Qed.


Lemma sd_offer_schedule_witness :
  let o := [send_multicast [insert_offer_service example_configuration (example_info 1)]] in
  ∃ st1 st2, on_offer_debounce_timer_expired example_configuration (ms 10) (sd example_offered) = Ok (o, st1)
    ∧ repetitions example_configuration 4 0 st1 = ([(ms 40, o); (ms 100, o); (ms 220, o); (ms 460, o)], st2).
Proof.
  destruct (sd_offer_schedule example_configuration (ms 10) (sd example_offered)) as (st1 & st2 & E1 & E2 & _);
    [vm_compute; split; congruence|vm_compute; congruence|vm_compute; congruence|vm_compute; discriminate|reflexivity|].
  exists st1, st2. split; [exact E1|exact E2].
Defined.

(** Searches are repeated [repetitions_max_] times, offers once more. *)
Fixpoint find_repetitions (cfg : configuration) (k : nat) (timer : nat) (st : t) : list (Z * list output) * t :=
  match k with
  | O => ([], st)
  | S k =>
      match find_waits st !! timer with
      | Some w =>
          let '(o, st) := find_timer cfg (expiry w) timer st in
          let '(os, st) := find_repetitions cfg k timer st in
          ((expiry w, o) :: os, st)
      | None => ([], st)
      end
  end.

Example finds_and_offers_differ :
  let finds := on_find_debounce_timer_expired example_configuration (ms 10) (request_service 0%nat 0x2222 1 1 0 3600 (create 0)) in
  let o := [send_multicast [find_entry 0x2222 1 1 0 3600]] in
  finds.1 = o ∧ (find_repetitions example_configuration 10 0 finds.2).1 = [(ms 40, o); (ms 100, o); (ms 220, o); (ms 460, [])].
Proof. split; vm_compute; reflexivity. Qed.

(** A FindService that arrives in the initial wait phase is answered, but the service
    can still be withdrawn without a word: the listener believes in it. *)
Example withdrawn_in_silence :
  let st := sd example_offered in
  let o := process_findservice_serviceentry example_configuration 0 0x1111 1 1 0 true (offered example_offered) st in
  let '(b, o', st') := stop_offer_service example_configuration 0%nat true st in
  o = [send_multicast [insert_offer_service example_configuration (example_info 1)]] ∧ o' = [] ∧ bool_decide ((0x1111, 1) ∈ hear_all (hear_all ∅ o) o') = true.
Proof. vm_compute. split_and!; reflexivity. Qed.

(** In diagnosis mode a service with two instances that do not use SOME/IP is erased
    twice through the same iterator. *)
Example erased_twice :
  let cfg := mk_configuration 10 500 500 200 30 3 1000 3600 (λ _ _, false) in
  let st := with_infos {[0%nat := example_info 1; 1%nat := example_info 2]} (create 0) in
  on_offer_debounce_timer_expired cfg 0 (set_diagnosis_mode true (offer_service 1%nat (offer_service 0%nat st))) = Ub null_deref.
Proof. vm_compute. reflexivity. Qed.

(** With the largest number of repetitions the counter wraps around and the search
    never ends. *)
Lemma search_never_ends cfg now timer rep last st : repetitions_max_ cfg = 255 → 0 ≤ rep ≤ 255 → is_Some (find_repetition_phase_timers_ st !! timer) →
  let st' := (on_find_repetition_phase_timer_expired cfg now timer rep last st).2 in
  is_Some (find_repetition_phase_timers_ st' !! timer) ∧ ∃ w, find_waits st' !! timer = Some w ∧ 0 ≤ repetition w ≤ 255.
Proof.
  intros Hmax Hr [finds Hf]. cbv zeta. unfold on_find_repetition_phase_timer_expired. rewrite Hf, Hmax. destruct (Z.leb_spec rep 255); [|lia].
  destruct (find_entries_spec cfg finds st) as [(_ & E & _) _]. destruct (insert_find_entries cfg finds st) as [es st1]. cbn [snd] in *. cbn. rewrite E. split; [by exists finds|].
  eexists. rewrite lookup_insert_eq. split; [done|]. cbn [repetition]. pose proof (wrap_range 8 (rep + 1)) as [? ?]; [lia|]. lia.
Qed.
