(* ===== verification/Dispatcher.v ===== *)
(** * The dispatchers of an application ([runtime/src/application_impl.cpp])

    The handlers of an application are called by threads: the main dispatcher and,
    when handlers take too long, further dispatchers.  Handlers wait in [handlers_];
    those that have to wait for an availability handler of their service wait in
    [availability_handlers_].

    The threads synchronize with two mutexes, a condition variable and atomics.  A
    step of a thread is what it does between two points at which others may
    interfere: the program counter [pc] says where a thread is, [lock_] who holds
    [handlers_mutex_].  [dispatcher_mutex_] is held for single evaluations and
    updates only, which are parts of one step.  A thread that waits for the
    condition variable has been notified or not ([main_waiting], [disp_waiting]).
    [pending_notify] counts handlers that were queued by [on_availability], which
    notifies in a critical section of its own, [creating] the expired timers of
    [invoke_handler] that are about to create a dispatcher.

    Handlers are shared objects that are compared by address: [handler_id]. *)

From stdpp Require Import base list gmap.
From Stdlib Require Import ZArith Lia.
From S2P Require Import Prelude.

Module application.

Inductive handler_type_e : Set := MESSAGE | AVAILABILITY | STATE | SUBSCRIPTION | OFFERED_SERVICES_INFO | WATCHDOG | UNKNOWN.

#[export] Instance handler_type_eq_dec : EqDecision handler_type_e.
Proof. solve_decision. Defined.

Record sync_handler : Type := mk_handler { handler_id : nat; handler_type_ : handler_type_e; service_id_ : Z; instance_id_ : Z }.

#[export] Instance sync_handler_eq_dec : EqDecision sync_handler.
Proof. solve_decision. Defined.

Definition its_si_pair (h : sync_handler) : Z * Z := (service_id_ h, instance_id_ h).

Abbreviation thread_id := nat.
Definition main_dispatcher : thread_id := 0%nat.

(** Where a thread is. *)
Inductive pc : Type :=
| starting
| main_top
| main_checking
| main_waiting (notified : bool)
| inner
| entering (h : sync_handler)
| calling (h : sync_handler)
| leaving (h : sync_handler)
| returned (h : sync_handler)
| disp_top
| disp_checking
| disp_waiting (notified : bool)
| disp_woken
| disp_exit
| done_.

Record t : Type := mk {
  handlers_ : list sync_handler;
  availability_handlers_ : gmap (Z * Z) (list sync_handler);
  is_dispatching_ : bool;
  elapse_unactive_dispatchers_ : bool;
  dispatchers_ : gset thread_id;
  running_dispatchers_ : gset thread_id;
  elapsed_dispatchers_ : gset thread_id;
  lock_ : option thread_id;
  pcs : gmap thread_id pc;
  pending_notify : nat;
  creating : nat
}.

Definition with_handlers x y st := mk x y (is_dispatching_ st) (elapse_unactive_dispatchers_ st) (dispatchers_ st) (running_dispatchers_ st) (elapsed_dispatchers_ st) (lock_ st) (pcs st) (pending_notify st) (creating st).
Definition with_dispatching x st := mk (handlers_ st) (availability_handlers_ st) x (elapse_unactive_dispatchers_ st) (dispatchers_ st) (running_dispatchers_ st) (elapsed_dispatchers_ st) (lock_ st) (pcs st) (pending_notify st) (creating st).
Definition with_elapse x st := mk (handlers_ st) (availability_handlers_ st) (is_dispatching_ st) x (dispatchers_ st) (running_dispatchers_ st) (elapsed_dispatchers_ st) (lock_ st) (pcs st) (pending_notify st) (creating st).
Definition with_dispatchers d r e st := mk (handlers_ st) (availability_handlers_ st) (is_dispatching_ st) (elapse_unactive_dispatchers_ st) d r e (lock_ st) (pcs st) (pending_notify st) (creating st).
Definition with_pcs l x st := mk (handlers_ st) (availability_handlers_ st) (is_dispatching_ st) (elapse_unactive_dispatchers_ st) (dispatchers_ st) (running_dispatchers_ st) (elapsed_dispatchers_ st) l x (pending_notify st) (creating st).
Definition with_pending n c st := mk (handlers_ st) (availability_handlers_ st) (is_dispatching_ st) (elapse_unactive_dispatchers_ st) (dispatchers_ st) (running_dispatchers_ st) (elapsed_dispatchers_ st) (lock_ st) (pcs st) n c.

(** The thread goes on at [p]: it keeps, takes or gives back the mutex. *)
Definition goto (id : thread_id) (p : pc) (st : t) : t := with_pcs (lock_ st) (<[id := p]> (pcs st)) st.
Definition acquire (id : thread_id) (p : pc) (st : t) : t := with_pcs (Some id) (<[id := p]> (pcs st)) st.
Definition release (id : thread_id) (p : pc) (st : t) : t := with_pcs None (<[id := p]> (pcs st)) st.

(** ** Notification *)

Definition notified (p : pc) : pc := match p with main_waiting _ => main_waiting true | disp_waiting _ => disp_waiting true | p => p end.
Definition asleep (p : pc) : bool := match p with main_waiting false | disp_waiting false => true | _ => false end.

Definition notify_all (st : t) : t := with_pcs (lock_ st) (notified <$> pcs st) st.
(** [notify_one] wakes one of the threads that wait. *)
Definition notify_thread (id : thread_id) (st : t) : t := with_pcs (lock_ st) (alter notified id (pcs st)) st.

(** ** Dispatchers *)

Definition idle (st : t) (id : thread_id) : bool :=
  bool_decide (id ∉ running_dispatchers_ st) && bool_decide (id ∉ elapsed_dispatchers_ st).

Definition has_active_dispatcher (st : t) : bool :=
  if is_dispatching_ st then existsb (idle st) (elements (dispatchers_ st)) else false.

Definition is_active_dispatcher (id : thread_id) (st : t) : bool :=
  if is_dispatching_ st then negb (existsb (λ d, bool_decide (d ≠ id) && idle st d) (elements (dispatchers_ st))) else false.

(** Threads that elapsed are joined, which blocks until they are done ([None]); each
    of them has to be known. *)
Definition remove_elapsed_dispatchers (st : t) : option (result t) :=
  if is_dispatching_ st then
    if decide (elapsed_dispatchers_ st ⊆ dispatchers_ st) then
      if forallb (λ id, match pcs st !! id with Some done_ | None => true | _ => false end) (elements (elapsed_dispatchers_ st)) then
        Some (Ok (with_pcs (lock_ st) (filter (λ x, x.1 ∉ elapsed_dispatchers_ st) (pcs st))
                   (with_dispatchers (dispatchers_ st ∖ elapsed_dispatchers_ st) (running_dispatchers_ st) ∅ st)))
      else None
    else Some (Ub null_deref)
  else Some (Ok st).

(** ** Handlers *)

(** One handler of the queue: it is called now, or waits for an availability handler
    of its service. *)
Definition check_handler (h : sync_handler) (av : gmap (Z * Z) (list sync_handler)) : bool * gmap (Z * Z) (list sync_handler) :=
  match handler_type_ h with
  | AVAILABILITY =>
      match av !! its_si_pair h with
      | Some (f :: l) =>
          if decide (f ≠ h) then (false, <[its_si_pair h := (f :: l) ++ [h]]> av)
          else (true, <[its_si_pair h := (f :: l) ++ [h]]> av)
      | Some [] | None => (true, <[its_si_pair h := [h]]> av)
      end
  | MESSAGE =>
      match av !! its_si_pair h with
      | Some (f :: g :: l) => (false, <[its_si_pair h := (f :: g :: l) ++ [h]]> av)
      | _ => (true, av)
      end
  | _ => (true, av)
  end.

Fixpoint next_handler (hs : list sync_handler) (av : gmap (Z * Z) (list sync_handler))
  : option sync_handler * list sync_handler * gmap (Z * Z) (list sync_handler) :=
  match hs with
  | [] => (None, [], av)
  | h :: hs =>
      let '(now, av) := check_handler h av in
      if now then (Some h, hs, av) else next_handler hs av
  end.

Definition get_next_handler (st : t) : option sync_handler * t :=
  let '(h, hs, av) := next_handler (handlers_ st) (availability_handlers_ st) in (h, with_handlers hs av st).

(** What waited for the handler is queued in front. *)
Definition reschedule_availability_handler (h : sync_handler) (st : t) : t :=
  match handler_type_ h with
  | AVAILABILITY =>
      match availability_handlers_ st !! its_si_pair h with
      | Some (f :: l) =>
          if decide (f = h) then with_handlers (l ++ handlers_ st) (delete (its_si_pair h) (availability_handlers_ st)) st else st
      | _ => st
      end
  | _ => st
  end.

(** ** The steps of a thread

    [main_dispatch], [dispatch] and [invoke_handler].  A step returns the handler
    that it takes from the queue; [None] where the thread has to wait. *)

Definition step_result : Type := option (result (t * option sync_handler)).
Definition go (st : t) : step_result := Some (Ok (st, None)).
Definition locked (st : t) (r : t) : step_result := match lock_ st with None => go r | Some _ => None end.

(** [main_dispatch]: the loop, and the wait for the condition. *)
Definition main_loop (id : thread_id) (st : t) : step_result :=
  if is_dispatching_ st then
    if bool_decide (handlers_ st = []) || negb (is_active_dispatcher id st)
    then go (goto id main_checking (notify_all (with_elapse true st)))
    else go (goto id inner st)
  else go (release id done_ st).

Definition main_check (id : thread_id) (st : t) : step_result :=
  if negb (is_dispatching_ st) || (negb (bool_decide (handlers_ st = [])) && is_active_dispatcher id st)
  then go (goto id main_top (with_elapse false st))
  else go (release id (main_waiting false) st).

(** [dispatch]: likewise, for the other dispatchers. *)
Definition disp_loop (id : thread_id) (st : t) : step_result :=
  if is_active_dispatcher id st then
    if is_dispatching_ st && bool_decide (handlers_ st = []) then go (goto id disp_checking st) else go (goto id inner st)
  else go (goto id disp_exit st).

Definition disp_check (id : thread_id) (st : t) : step_result :=
  if negb (is_dispatching_ st) || negb (bool_decide (handlers_ st = [])) || elapse_unactive_dispatchers_ st
  then go (goto id disp_woken st) else go (release id (disp_waiting false) st).

Definition elapse (id : thread_id) (st : t) : t := with_dispatchers (dispatchers_ st) (running_dispatchers_ st) (elapsed_dispatchers_ st ∪ {[id]}) st.

Definition disp_wake (id : thread_id) (st : t) : step_result :=
  if bool_decide (handlers_ st = []) && negb (is_active_dispatcher id st)
  then go (release id done_ (if is_dispatching_ st then elapse id st else st))
  else go (goto id disp_top st).

Definition disp_end (id : thread_id) (st : t) : step_result :=
  go (release id done_ (notify_all (if is_dispatching_ st then elapse id st else st))).

(** The loop over the handlers, common to both. *)
Definition handle (id : thread_id) (st : t) : step_result :=
  let top := if decide (id = main_dispatcher) then main_top else disp_top in
  if is_dispatching_ st && is_active_dispatcher id st then
    match get_next_handler st with
    | (Some h, st) => Some (Ok (release id (entering h) st, Some h))
    | (None, st) => go (goto id top st)
    end
  else go (goto id top st).

(** [invoke_handler]: the thread is marked as running, calls the handler, and is
    unmarked. *)
Definition enter (id : thread_id) (h : sync_handler) (st : t) : step_result :=
  if is_dispatching_ st
  then go (goto id (calling h) (with_dispatchers (dispatchers_ st) (running_dispatchers_ st ∪ {[id]}) (elapsed_dispatchers_ st) st))
  else go (goto id (leaving h) st).

Definition leave (id : thread_id) (h : sync_handler) (st : t) : step_result :=
  go (goto id (returned h)
    (if is_dispatching_ st then with_dispatchers (dispatchers_ st) (running_dispatchers_ st ∖ {[id]}) (elapsed_dispatchers_ st) st else st)).

(** After a handler the mutex is taken again. *)
Definition finish (id : thread_id) (h : sync_handler) (st : t) : step_result :=
  if is_dispatching_ st then
    match lock_ st with
    | Some _ => None
    | None =>
        match remove_elapsed_dispatchers (reschedule_availability_handler h (acquire id inner st)) with
        | Some (Ok st) => go st
        | Some (Ub u) => Some (Ub u)
        | _ => None
        end
    end
  else go (goto id done_ st).

Definition thread_step (id : thread_id) (st : t) : step_result :=
  match pcs st !! id with
  | Some starting => locked st (acquire id (if decide (id = main_dispatcher) then main_top else disp_top) st)
  | Some main_top => main_loop id st
  | Some main_checking => main_check id st
  | Some (main_waiting true) => locked st (acquire id main_checking st)
  | Some inner => handle id st
  | Some (entering h) => enter id h st
  | Some (leaving h) => leave id h st
  | Some (returned h) => finish id h st
  | Some disp_top => disp_loop id st
  | Some disp_checking => disp_check id st
  | Some (disp_waiting true) => locked st (acquire id disp_checking st)
  | Some disp_woken => disp_wake id st
  | Some disp_exit => disp_end id st
  | Some (main_waiting false) | Some (disp_waiting false) | Some (calling _) | Some done_ | None => None
  end.

(** ** What others do *)

(** The timer of [invoke_handler] has expired and finds no dispatcher that could
    take over: it creates one. *)
Definition create_dispatcher (max_dispatchers_ : nat) (id : thread_id) (st : t) : t :=
  if is_dispatching_ st && bool_decide (size (dispatchers_ st) < max_dispatchers_)%nat
  then with_pcs (lock_ st) (<[id := starting]> (pcs st)) (with_dispatchers (dispatchers_ st ∪ {[id]}) (running_dispatchers_ st) (elapsed_dispatchers_ st) st)
  else st.

Definition push_handlers (hs : list sync_handler) (st : t) : t := with_handlers (handlers_ st ++ hs) (availability_handlers_ st) st.

(** [start]: the main dispatcher is created. *)
Definition start : t := mk [] ∅ true false {[main_dispatcher]} ∅ ∅ None {[main_dispatcher := starting]} 0 0.

(** [shutdown], its first part. *)
Definition stop_dispatching (st : t) : t := notify_all (with_dispatching false st).
End application.
