(* ===== verification/DispatcherFacts.v ===== *)
(** * The dispatchers of an application: order, exclusion and progress

    Handlers of a service are taken in the order in which they were queued, and at most
    one dispatcher at a time is busy with availability handlers of a service. *)

From stdpp Require Import base list gmap.
From Stdlib Require Import ZArith Lia.
From S2P Require Import Prelude Dispatcher.

Import application.

(** ** The system

    [queued] are the handlers that were queued, [taken] those that a dispatcher took
    from the queue, both in order.  The timer of a call may expire at any time: it is
    cancelled when the handler returns, but its callback may be on its way. *)

Record sys : Type := mk_sys { app : t; queued : list sync_handler; taken : list sync_handler }.

(** [notify_one]: one of the threads that sleep, if there is one. *)
Definition wakes (w : option thread_id) (st : t) : Prop :=
  match w with
  | Some id => ∃ p, pcs st !! id = Some p ∧ asleep p = true
  | None => ∀ id p, pcs st !! id = Some p → asleep p = false
  end.
Definition notify_one (w : option thread_id) (st : t) : t := match w with Some id => notify_thread id st | None => st end.

Inductive step (max_dispatchers_ : nat) : sys → sys → Prop :=
| step_thread id st o g : thread_step id (app g) = Some (Ok (st, o)) →
    step max_dispatchers_ g (mk_sys st (queued g) (taken g ++ option_list o))
| step_return id h g : pcs (app g) !! id = Some (calling h) → step max_dispatchers_ g (mk_sys (goto id (leaving h) (app g)) (queued g) (taken g))
| step_push hs w g : lock_ (app g) = None → NoDup (queued g ++ hs) → wakes w (app g) →
    step max_dispatchers_ g (mk_sys (notify_one w (push_handlers hs (app g))) (queued g ++ hs) (taken g))
| step_push_later hs g : lock_ (app g) = None → NoDup (queued g ++ hs) →
    step max_dispatchers_ g (mk_sys (with_pending (S (pending_notify (app g))) (creating (app g)) (push_handlers hs (app g))) (queued g ++ hs) (taken g))
| step_notify w n g : lock_ (app g) = None → pending_notify (app g) = S n → wakes w (app g) →
    step max_dispatchers_ g (mk_sys (notify_one w (with_pending n (creating (app g)) (app g))) (queued g) (taken g))
| step_spurious id p g : pcs (app g) !! id = Some p → asleep p = true → step max_dispatchers_ g (mk_sys (notify_thread id (app g)) (queued g) (taken g))
| step_timer g : lock_ (app g) = None → has_active_dispatcher (app g) = true →
    step max_dispatchers_ g (mk_sys (notify_all (app g)) (queued g) (taken g))
| step_timer_alone g : has_active_dispatcher (app g) = false →
    step max_dispatchers_ g (mk_sys (with_pending (pending_notify (app g)) (S (creating (app g))) (app g)) (queued g) (taken g))
| step_create id n g : creating (app g) = S n → pcs (app g) !! id = None →
    step max_dispatchers_ g (mk_sys (create_dispatcher max_dispatchers_ id (with_pending (pending_notify (app g)) n (app g))) (queued g) (taken g))
| step_stop g : lock_ (app g) = None → step max_dispatchers_ g (mk_sys (stop_dispatching (app g)) (queued g) (taken g)).

Definition initial : sys := mk_sys start [] [].

(** ** Handlers that depend on each other *)

(** Availability and message handlers of the same service instance; all others. *)
Definition group (h : sync_handler) : option (Z * Z) :=
  match handler_type_ h with AVAILABILITY | MESSAGE => Some (its_si_pair h) | _ => None end.

Definition ofg (c : option (Z * Z)) (l : list sync_handler) : list sync_handler := filter (λ h, group h = c) l.

(** Those that wait for an availability handler, which is the first of the list. *)
Definition waiting (c : option (Z * Z)) (av : gmap (Z * Z) (list sync_handler)) : list sync_handler :=
  match c with Some si => tail (default [] (av !! si)) | None => [] end.

Definition processed (p : pc) : option sync_handler :=
  match p with entering h | calling h | leaving h | returned h => Some h | _ => None end.

Record fronts (av : gmap (Z * Z) (list sync_handler)) (taken : list sync_handler) : Prop := {
  fr_front : ∀ si l, av !! si = Some l → ∃ f r, l = f :: r ∧ f ∈ taken ∧ handler_type_ f = AVAILABILITY ∧ its_si_pair f = si;
  fr_rest : ∀ si l, av !! si = Some l → Forall (λ h, group h = Some si) (tail l)
}.

Lemma ofg_app c l1 l2 : ofg c (l1 ++ l2) = ofg c l1 ++ ofg c l2.
Proof. apply filter_app. Qed.

Lemma waiting_insert c si l av : waiting c (<[si := l]> av) = if decide (c = Some si) then tail l else waiting c av.
Proof.
  destruct c as [si'|]; cbn; [|done]. destruct (decide (si' = si)) as [->|Hne]; [rewrite lookup_insert_eq, decide_True by done; done|].
  rewrite lookup_insert_ne by done. by rewrite decide_False by congruence.
Qed.

(** A handler that waits is appended to those that wait for the same. *)
Lemma queue_behind f r h av taken si : fronts av taken → av !! si = Some (f :: r) → group h = Some si →
  fronts (<[si := (f :: r) ++ [h]]> av) taken ∧ ∀ c, waiting c (<[si := (f :: r) ++ [h]]> av) = waiting c av ++ ofg c [h].
Proof.
  intros [Hf Hr] E Hg. split.
  - constructor; intros si' l; (destruct (decide (si' = si)) as [->|]; [rewrite lookup_insert_eq; intros [= <-]|rewrite lookup_insert_ne by done; auto]).
    + destruct (Hf si _ E) as (f' & r' & [= <- <-] & Hin & Ht & Hsi). by exists f, (r ++ [h]).
    + specialize (Hr si _ E). cbn in *. apply Forall_app_2; [done|by constructor].
  - intros c. rewrite waiting_insert. unfold ofg. rewrite filter_cons. destruct (decide (c = Some si)) as [->|Hne].
    + rewrite decide_True by done. cbn. by rewrite E.
    + rewrite decide_False by congruence. by rewrite app_nil_r.
Qed.

Lemma fronts_taken av taken more : fronts av taken → fronts av (taken ++ more).
Proof.
  intros [Hf Hr]. constructor; [|done]. intros si l E. destruct (Hf si l E) as (f & r & -> & Hin & H). exists f, r. split; [done|]. split; [|done].
  apply elem_of_app. by left.
Qed.

(** The handler that a list waits for stays. *)
Definition keeps (av av' : gmap (Z * Z) (list sync_handler)) : Prop := ∀ si f r, av !! si = Some (f :: r) → ∃ r', av' !! si = Some (f :: r').

Lemma av_keeps_refl av : keeps av av.
Proof. intros si f r E. by exists r. Qed.

Lemma av_keeps_trans av1 av2 av3 : keeps av1 av2 → keeps av2 av3 → keeps av1 av3.
Proof. intros H1 H2 si f r E. destruct (H1 _ _ _ E) as [r' E']. by apply (H2 _ _ _ E'). Qed.

Lemma keeps_behind (av : gmap (Z * Z) (list sync_handler)) f r h si : av !! si = Some (f :: r) → keeps av (<[si := (f :: r) ++ [h]]> av).
Proof.
  intros E si' f' r' E'. destruct (decide (si' = si)) as [->|]; [|exists r'; by rewrite lookup_insert_ne]. rewrite lookup_insert_eq. rewrite E in E'.
  injection E' as <- <-. by exists (r ++ [h]).
Qed.

Lemma check_waits h av taken av' : fronts av taken → (h ∉ taken) → check_handler h av = (false, av') →
  fronts av' taken ∧ keeps av av' ∧ ∀ c, waiting c av' = waiting c av ++ ofg c [h].
Proof.
  intros Hfr Hnew E. unfold check_handler in E. destruct (handler_type_ h) eqn:Et; try done.
  - assert (Hg : group h = Some (its_si_pair h)) by (unfold group; by rewrite Et). destruct (av !! its_si_pair h) as [[|f [|g l]]|] eqn:Ea; try done. injection E as <-.
    destruct (queue_behind f (g :: l) h av taken _ Hfr Ea Hg) as [H1 H2]. split_and!; [done|exact (keeps_behind av f (g :: l) h _ Ea)|done].
  - assert (Hg : group h = Some (its_si_pair h)) by (unfold group; by rewrite Et). destruct (av !! its_si_pair h) as [[|f l]|] eqn:Ea; try done.
    destruct (decide (f ≠ h)); [|done]. injection E as <-.
    destruct (queue_behind f l h av taken _ Hfr Ea Hg) as [H1 H2]. split_and!; [done|exact (keeps_behind av f l h _ Ea)|done].
Qed.

Lemma check_called h av taken av' : fronts av taken → (h ∉ taken) → check_handler h av = (true, av') →
  fronts av' (taken ++ [h]) ∧ keeps av av' ∧ (∀ c, waiting c av' = waiting c av) ∧ waiting (group h) av = []
  ∧ (handler_type_ h = AVAILABILITY → av !! its_si_pair h = None ∧ av' !! its_si_pair h = Some [h]).
Proof.
  intros Hfr Hnew E. assert (Hfr' := fronts_taken _ _ [h] Hfr). unfold check_handler in E. unfold group. destruct (handler_type_ h) eqn:Et.
  3-7: injection E as <-; split_and!; [done|apply av_keeps_refl|done|done|done].
  - assert (av' = av ∧ (av !! its_si_pair h = None ∨ ∃ f, av !! its_si_pair h = Some [f])) as [-> Ha].
    { destruct (av !! its_si_pair h) as [[|f [|g l]]|] eqn:Ea; try done; injection E as <-; [|split; [done|right; by exists f]|by split; [|left]].
      destruct (fr_front _ _ Hfr _ _ Ea) as (? & ? & ? & _). done. }
    split_and!; [done|apply av_keeps_refl|done| |done]. cbn. destruct Ha as [->|[f ->]]; done.
  - assert (av !! its_si_pair h = None ∧ av' = <[its_si_pair h := [h]]> av) as [Ha ->].
    { destruct (av !! its_si_pair h) as [[|f l]|] eqn:Ea.
      - destruct (fr_front _ _ Hfr _ _ Ea) as (? & ? & ? & _). done.
      - destruct (decide (f ≠ h)) as [|Hn]; [done|]. destruct (fr_front _ _ Hfr _ _ Ea) as (? & ? & [= <- <-] & Hin & _). destruct Hn. by intros ->.
      - by injection E as <-. }
    split_and!; [| | |cbn; by rewrite Ha|intros _; split; [done|apply lookup_insert_eq]].
    + destruct Hfr' as [Hf Hr]. constructor; intros si l; (destruct (decide (si = its_si_pair h)) as [->|]; [rewrite lookup_insert_eq; intros [= <-]|rewrite lookup_insert_ne by done; auto]); [|done].
      exists h, []. split_and!; [done|apply elem_of_app; right; by left|done|done].
    + intros si f r Hs. exists r. rewrite lookup_insert_ne; [done|congruence].
    + intros c. rewrite waiting_insert. destruct (decide _) as [->|]; [|done]. cbn. by rewrite Ha.
Qed.

Lemma next_spec hs : ∀ av taken o hs' av', fronts av taken → Forall (λ h, h ∉ taken) hs → next_handler hs av = (o, hs', av') →
  fronts av' (taken ++ option_list o) ∧ keeps av av' ∧ (∀ c, waiting c av ++ ofg c hs = ofg c (option_list o) ++ waiting c av' ++ ofg c hs')
  ∧ (∀ h, o = Some h → h ∈ hs ∧ (handler_type_ h = AVAILABILITY → av !! its_si_pair h = None ∧ av' !! its_si_pair h = Some [h]))
  ∧ (o = None → hs' = []).
Proof.
  induction hs as [|h hs IH]; intros av taken o hs' av' Hfr Hnew E; cbn in E.
  { injection E as <- <- <-. split_and!; [by apply fronts_taken|apply av_keeps_refl|done|done|done]. }
  apply Forall_cons in Hnew as [Hh Hnew]. destruct (check_handler h av) as [[] av1] eqn:Ec.
  - injection E as <- <- <-. destruct (check_called _ _ _ _ Hfr Hh Ec) as (H1 & H2 & H3 & H4 & H5). split_and!; [done|done| |intros h' [= <-]; split; [by left|done]|done].
    intros c. rewrite H3. change (h :: hs) with ([h] ++ hs). rewrite ofg_app, !app_assoc. f_equal. change (option_list (Some h)) with [h].
    unfold ofg. rewrite filter_cons, filter_nil. destruct (decide _) as [<-|]; [by rewrite H4|by rewrite app_nil_r].
  - destruct (check_waits _ _ _ _ Hfr Hh Ec) as (H1 & H2 & H3). destruct (IH _ _ _ _ _ H1 Hnew E) as (I1 & I2 & I3 & I4 & I5).
    split_and!; [done|by eapply av_keeps_trans| | |done].
    + intros c. rewrite <- I3, H3. change (h :: hs) with ([h] ++ hs). by rewrite ofg_app, app_assoc.
    + intros h' Ho. destruct (I4 h' Ho) as [Hin Ha]. split; [by right|]. intros Ht. destruct (Ha Ht) as [Hn Hs]. split; [|done].
      destruct (av !! its_si_pair h') as [l|] eqn:El; [|done]. destruct (fr_front _ _ Hfr _ _ El) as (f & r & -> & _). destruct (H2 _ _ _ El) as [r' E']. congruence.
Qed.

(** ** Order and exclusion *)

Record ordered (st : t) (queued taken : list sync_handler) : Prop := {
  or_nodup : NoDup queued;
  or_order : ∀ c, ofg c queued = ofg c taken ++ waiting c (availability_handlers_ st) ++ ofg c (handlers_ st);
  or_fronts : fronts (availability_handlers_ st) taken;
  or_processed : ∀ id p h, pcs st !! id = Some p → processed p = Some h → h ∈ taken ∧ (handler_type_ h = AVAILABILITY → ∃ r, availability_handlers_ st !! its_si_pair h = Some (h :: r));
  or_unique : ∀ id1 id2 p1 p2 h, pcs st !! id1 = Some p1 → pcs st !! id2 = Some p2 → processed p1 = Some h → processed p2 = Some h → id1 = id2
}.

Lemma ordered_queue st queued taken h : ordered st queued taken → h ∈ handlers_ st → (h ∉ taken).
Proof.
  intros [Hn Ho _ _ _] Hh Ht. assert (Hn' : NoDup (ofg (group h) queued)) by (by apply NoDup_filter). rewrite Ho in Hn'. apply NoDup_app in Hn' as (_ & Hd & _).
  apply (Hd h); [by apply list_elem_of_filter|]. apply elem_of_app. right. by apply list_elem_of_filter.
Qed.

(** No thread has more to process than before. *)
Definition smaller (m m' : gmap thread_id pc) : Prop :=
  ∀ id p' h, m' !! id = Some p' → processed p' = Some h → ∃ p, m !! id = Some p ∧ processed p = Some h.

Lemma smaller_refl m : smaller m m.
Proof. intros id p h E Hp. by exists p. Qed.

Lemma smaller_insert m m' id p' : smaller m m' → (processed p' = None ∨ ∃ p, m !! id = Some p ∧ processed p = processed p') → smaller m (<[id := p']> m').
Proof.
  intros Hs Hp id' p'' h E Hh. destruct (decide (id' = id)) as [->|]; [|rewrite lookup_insert_ne in E by done; by eapply Hs].
  rewrite lookup_insert_eq in E. injection E as <-. destruct Hp as [Hp|(p & E & Hp)]; [congruence|]. exists p. split; [done|congruence].
Qed.

Lemma smaller_map m m' : smaller m m' → smaller m (notified <$> m').
Proof.
  intros Hs id p h E Hp. rewrite lookup_fmap in E. destruct (m' !! id) as [p0|] eqn:E0; [|done]. injection E as <-. eapply Hs; [exact E0|]. by destruct p0.
Qed.

Lemma smaller_filter (P : thread_id * pc → Prop) `{∀ x, Decision (P x)} m m' : smaller m m' → smaller m (filter P m').
Proof. intros Hs id p h E Hp. apply map_lookup_filter_Some in E as [E _]. by eapply Hs. Qed.

Lemma ordered_smaller st st' queued taken : ordered st queued taken → handlers_ st' = handlers_ st → availability_handlers_ st' = availability_handlers_ st →
  smaller (pcs st) (pcs st') → ordered st' queued taken.
Proof.
  intros [H1 H2 H3 H4 H5] E1 E2 Hs. constructor; rewrite ?E1, ?E2; try done.
  - intros id p h E Hp. destruct (Hs id p h E Hp) as (p0 & E0 & Hp0). by eapply H4.
  - intros id1 id2 p1 p2 h E1' E2' Hp1 Hp2. destruct (Hs _ _ _ E1' Hp1) as (q1 & F1 & G1), (Hs _ _ _ E2' Hp2) as (q2 & F2 & G2). by eapply H5.
Qed.

Create HintDb dispatch.
#[export] Hint Resolve smaller_refl smaller_insert smaller_map smaller_filter : dispatch.

(** A handler is taken from the queue. *)
Lemma ordered_take id st h st' queued taken : ordered st queued taken → pcs st !! id = Some inner → get_next_handler st = (Some h, st') →
  ordered (release id (entering h) st') queued (taken ++ [h]).
Proof.
  intros H Hid E. pose proof H as [H1 H2 H3 H4 H5]. unfold get_next_handler in E. destruct (next_handler (handlers_ st) (availability_handlers_ st)) as [[o hs] av] eqn:En. injection E as -> <-.
  assert (Hnew : Forall (λ h, h ∉ taken) (handlers_ st)) by (apply Forall_forall; intros x Hx; by eapply ordered_queue).
  destruct (next_spec _ _ _ _ _ _ H3 Hnew En) as (N1 & N2 & N3 & N4 & _). destruct (N4 h eq_refl) as [Hin Hav]. rewrite Forall_forall in Hnew. specialize (Hnew h Hin). cbn in N1, N3.
  constructor; cbn; [done| |done| |].
  - intros c. rewrite H2, (N3 c), ofg_app, <- app_assoc. done.
  - intros id' p h' E' Hp. destruct (decide (id' = id)) as [->|].
    + rewrite lookup_insert_eq in E'. injection E' as <-. injection Hp as <-. split; [apply elem_of_app; right; by left|]. intros Ht. exists []. by apply Hav.
    + rewrite lookup_insert_ne in E' by done. destruct (H4 _ _ _ E' Hp) as [Ht Ha]. split; [apply elem_of_app; by left|]. intros Htype. destruct (Ha Htype) as [r Hr]. by eapply N2.
  - intros id1 id2 p1 p2 h' E1 E2 Hp1 Hp2.
    assert (Hcase : ∀ i p, <[id := entering h]> (pcs st) !! i = Some p → processed p = Some h' → i = id ∧ h' = h ∨ pcs st !! i = Some p ∧ h' ∈ taken).
    { intros i p Ei Hi. destruct (decide (i = id)) as [->|]; [rewrite lookup_insert_eq in Ei; injection Ei as <-; injection Hi as <-; by left|].
      rewrite lookup_insert_ne in Ei by done. right. split; [done|]. by eapply H4. }
    destruct (Hcase _ _ E1 Hp1) as [[-> ->]|[F1 G1]], (Hcase _ _ E2 Hp2) as [[-> E]|[F2 G2]]; [done|done|congruence|by eapply H5].
Qed.

(** All that was queued waits. *)
Lemma ordered_none st st' queued taken : ordered st queued taken → get_next_handler st = (None, st') → ordered st' queued taken.
Proof.
  intros H E. pose proof H as [H1 H2 H3 H4 H5]. unfold get_next_handler in E. destruct (next_handler (handlers_ st) (availability_handlers_ st)) as [[o hs] av] eqn:En. injection E as -> <-.
  assert (Hnew : Forall (λ h, h ∉ taken) (handlers_ st)) by (apply Forall_forall; intros x Hx; by eapply ordered_queue).
  destruct (next_spec _ _ _ _ _ _ H3 Hnew En) as (N1 & N2 & N3 & _ & _). rewrite app_nil_r in N1. constructor; cbn [with_handlers availability_handlers_ handlers_ pcs]; [done| |done| |done].
  - intros c. by rewrite H2, (N3 c).
  - intros id p h E Hp. destruct (H4 id p h E Hp) as [Hin Ha]. split; [done|]. intros Ht. destruct (Ha Ht) as [r Hr]. by eapply N2.
Qed.

(** A list that is given up is what waited. *)
Lemma waiting_delete c si f r av : av !! si = Some (f :: r) → Forall (λ h, group h = Some si) r → waiting c av = waiting c (delete si av) ++ ofg c r.
Proof.
  intros E Hg. destruct (decide (c = Some si)) as [->|Hne].
  - cbn [waiting]. rewrite E, lookup_delete_eq. cbn. unfold ofg. clear E. induction Hg as [|x l Hx _ IH]; [done|]. rewrite filter_cons, decide_True by done. by f_equal.
  - assert (ofg c r = []) as ->; [|rewrite app_nil_r; destruct c as [si'|]; cbn [waiting]; [by rewrite lookup_delete_ne by congruence|done]].
    unfold ofg. clear E. induction Hg as [|x l Hx _ IH]; [done|]. rewrite filter_cons, decide_False by congruence. exact IH.
Qed.

(** What waited for an availability handler is queued again. *)
Lemma ordered_reschedule id h st queued taken : ordered st queued taken → pcs st !! id = Some (returned h) →
  ordered (reschedule_availability_handler h (acquire id inner st)) queued taken.
Proof.
  intros H Hid. assert (H0 : ordered (acquire id inner st) queued taken) by (eapply ordered_smaller; [exact H|done|done|]; cbn; eauto with dispatch).
  unfold reschedule_availability_handler. destruct (handler_type_ h) eqn:Et; try done. cbn [acquire with_pcs availability_handlers_ handlers_].
  destruct (or_processed _ _ _ H id (returned h) h Hid eq_refl) as [_ Ha]. destruct (Ha Et) as [r Hr]. rewrite Hr. rewrite decide_True by done.
  destruct H0 as [H1 H2 [H3 H3'] H4 H5]. cbn [acquire with_pcs availability_handlers_ handlers_ pcs] in H2, H3, H3', H4, H5.
  constructor; cbn [with_handlers availability_handlers_ handlers_ pcs]; [done| | | |done].
  - intros c. rewrite H2, ofg_app. f_equal. assert (Hg := H3' _ _ Hr). cbn [tail] in Hg. rewrite app_assoc. f_equal. by apply (waiting_delete c _ h).
  - constructor; intros si l E; apply lookup_delete_Some in E as [_ E]; auto.
  - intros id' p h' E Hp. destruct (H4 id' p h' E Hp) as [Hin Hav]. split; [done|]. intros Ht. destruct (Hav Ht) as [r' Hr']. exists r'.
    rewrite lookup_delete_ne; [done|]. intros Heq. rewrite <- Heq, Hr in Hr'. injection Hr' as <- <-.
    destruct (decide (id' = id)) as [->|Hne]; [cbn in E; rewrite lookup_insert_eq in E; by injection E as <-|]. cbn in E. rewrite lookup_insert_ne in E by done.
    destruct Hne. by eapply (or_unique _ _ _ H id' id).
Qed.

(** *** The steps keep it *)

Lemma remove_elapsed_frame st st' : remove_elapsed_dispatchers st = Some (Ok st') →
  handlers_ st' = handlers_ st ∧ availability_handlers_ st' = availability_handlers_ st ∧ smaller (pcs st) (pcs st').
Proof.
  unfold remove_elapsed_dispatchers. destruct (is_dispatching_ st); [|intros [= <-]; eauto with dispatch]. destruct (decide _); [|done].
  destruct (forallb _ _); [|done]. intros [= <-]. cbn. eauto with dispatch.
Qed.

Lemma step_ordered id st st' o queued taken : ordered st queued taken → thread_step id st = Some (Ok (st', o)) →
  ordered st' queued (taken ++ option_list o).
Proof.
  intros H E. unfold thread_step in E. destruct (pcs st !! id) as [p|] eqn:Hid; [|done].
  assert (Hsame : ∀ st', handlers_ st' = handlers_ st → availability_handlers_ st' = availability_handlers_ st → smaller (pcs st) (pcs st') →
    ordered st' queued (taken ++ [])) by (intros; rewrite app_nil_r; by eapply ordered_smaller).
  destruct p as [| | |[]| |h|h|h|h| | |[]| | |]; try done; unfold locked, main_loop, main_check, handle, enter, leave, disp_loop, disp_check, disp_wake, disp_end, go in E;
    repeat case_match; simplify_eq; try done.
  all: try (apply Hsame; [done|done|]; cbn; repeat first [apply smaller_refl | apply smaller_map | apply smaller_insert; [|first [by left | right; eexists; split; [exact Hid|done]]]]).
  - by eapply ordered_take.
  - rewrite app_nil_r. eapply ordered_smaller; [by eapply ordered_none|done|done|]. cbn. apply smaller_insert; [apply smaller_refl|by left].
  - rewrite app_nil_r. eapply ordered_smaller; [by eapply ordered_none|done|done|]. cbn. apply smaller_insert; [apply smaller_refl|by left].
  - unfold finish, go in E. repeat case_match; simplify_eq; [|].
    + rewrite app_nil_r. pose proof (ordered_reschedule _ _ _ _ _ H Hid) as Hr. destruct (remove_elapsed_frame _ _ H2) as (? & ? & ?). by eapply ordered_smaller.
    + apply Hsame; [done|done|]. cbn. apply smaller_insert; [apply smaller_refl|by left].
Qed.

Lemma ordered_push hs st queued taken : ordered st queued taken → NoDup (queued ++ hs) → ordered (push_handlers hs st) (queued ++ hs) taken.
Proof.
  intros [H1 H2 H3 H4 H5] Hn. constructor; try done. intros c. cbn [push_handlers with_handlers availability_handlers_ handlers_]. by rewrite !ofg_app, H2, !app_assoc.
Qed.

Lemma smaller_notify m m' id : smaller m m' → smaller m (alter notified id m').
Proof.
  intros Hs id' p h E Hp. destruct (decide (id' = id)) as [->|]; [|rewrite lookup_alter_ne in E by done; by eapply Hs].
  rewrite lookup_alter_eq in E. destruct (m' !! id) as [p0|] eqn:E0; [|done]. injection E as <-. eapply Hs; [exact E0|]. by destruct p0.
Qed.

Lemma notify_one_frame w st : handlers_ (notify_one w st) = handlers_ st ∧ availability_handlers_ (notify_one w st) = availability_handlers_ st ∧ smaller (pcs st) (pcs (notify_one w st)).
Proof. destruct w; cbn; split_and!; auto using smaller_refl, smaller_notify. Qed.

Lemma ordered_notify w st queued taken : ordered st queued taken → ordered (notify_one w st) queued taken.
Proof. intros H. destruct (notify_one_frame w st) as (? & ? & ?). by eapply ordered_smaller. Qed.

Lemma ordered_step max_dispatchers_ g g' : step max_dispatchers_ g g' → ordered (app g) (queued g) (taken g) → ordered (app g') (queued g') (taken g').
Proof.
  intros S H. destruct S; cbn.
  - by eapply step_ordered.
  - eapply ordered_smaller; [exact H|done|done|]. cbn. apply smaller_insert; [apply smaller_refl|]. right. eauto.
  - by apply ordered_notify, ordered_push.
  - eapply ordered_smaller; [by apply ordered_push|done|done|apply smaller_refl].
  - apply ordered_notify. eapply ordered_smaller; [exact H|done|done|apply smaller_refl].
  - apply (ordered_notify (Some id)), H.
  - eapply ordered_smaller; [exact H|done|done|]. apply smaller_map, smaller_refl.
  - eapply ordered_smaller; [exact H|done|done|apply smaller_refl].
  - unfold create_dispatcher. cbn. destruct (_ && _); (eapply ordered_smaller; [exact H|done|done|]); [|apply smaller_refl].
    cbn. apply smaller_insert; [apply smaller_refl|by left].
  - eapply ordered_smaller; [exact H|done|done|]. apply smaller_map, smaller_refl.
Qed.

Lemma ordered_reachable max_dispatchers_ g : rtc (step max_dispatchers_) initial g → ordered (app g) (queued g) (taken g).
Proof.
  revert g. apply rtc_ind_r; [|intros g g' _ S H; by eapply ordered_step]. constructor; cbn; try done.
  - constructor.
  - by intros [c|].
  - intros id p h E Hp. apply lookup_singleton_Some in E as [_ <-]. done.
  - intros id1 id2 p1 p2 h E1 _ Hp. apply lookup_singleton_Some in E1 as [_ <-]. done.
Qed.

(** ** Runs

    Steps as actions, to run examples. *)

Inductive action : Type :=
| run (id : thread_id)
| ret (id : thread_id)
| push (hs : list sync_handler)
| expire (id : thread_id)
| create (id : thread_id).

Definition sleeper (st : t) : option thread_id := fst <$> head (filter (λ x, asleep x.2 = true) (map_to_list (pcs st))).

Definition act (max_dispatchers_ : nat) (a : action) (g : sys) : option sys :=
  match a with
  | run id => match thread_step id (app g) with Some (Ok (st, o)) => Some (mk_sys st (queued g) (taken g ++ option_list o)) | _ => None end
  | ret id => match pcs (app g) !! id with Some (calling h) => Some (mk_sys (goto id (leaving h) (app g)) (queued g) (taken g)) | _ => None end
  | push hs =>
      match lock_ (app g) with
      | Some _ => None
      | None => if decide (NoDup (queued g ++ hs)) then Some (mk_sys (notify_one (sleeper (app g)) (push_handlers hs (app g))) (queued g ++ hs) (taken g)) else None
      end
  | expire id =>
      match pcs (app g) !! id with
      | Some (calling _) => if has_active_dispatcher (app g) then None
          else Some (mk_sys (with_pending (pending_notify (app g)) (S (creating (app g))) (app g)) (queued g) (taken g))
      | _ => None
      end
  | create id =>
      match creating (app g), pcs (app g) !! id with
      | S n, None => Some (mk_sys (create_dispatcher max_dispatchers_ id (with_pending (pending_notify (app g)) n (app g))) (queued g) (taken g))
      | _, _ => None
      end
  end.

Fixpoint acts (max_dispatchers_ : nat) (l : list action) (g : sys) : option sys :=
  match l with [] => Some g | a :: l => match act max_dispatchers_ a g with Some g => acts max_dispatchers_ l g | None => None end end.

Lemma sleeper_wakes st : wakes (sleeper st) st.
Proof.
  unfold sleeper. destruct (filter _ (map_to_list (pcs st))) as [|[id p] l] eqn:E; cbn.
  - intros id p Hp. apply not_true_is_false. intros Ha. assert (Hin : (id, p) ∈ filter (λ x, asleep x.2 = true) (map_to_list (pcs st))) by (apply list_elem_of_filter; split; [done|by apply elem_of_map_to_list]).
    rewrite E in Hin. by apply not_elem_of_nil in Hin.
  - assert (Hin : (id, p) ∈ filter (λ x, asleep x.2 = true) (map_to_list (pcs st))) by (rewrite E; by left). apply list_elem_of_filter in Hin as [Ha Hin]. apply elem_of_map_to_list in Hin. by exists p.
Qed.

Lemma act_step max_dispatchers_ a g g' : act max_dispatchers_ a g = Some g' → step max_dispatchers_ g g'.
Proof.
  destruct a; cbn; intros E; repeat case_match; simplify_eq; [by econstructor|by econstructor| |by eapply step_timer_alone|by econstructor].
  apply step_push; [done|done|apply sleeper_wakes].
Qed.

Lemma acts_reach max_dispatchers_ l : ∀ g g', acts max_dispatchers_ l g = Some g' → rtc (step max_dispatchers_) g g'.
Proof.
  induction l as [|a l IH]; intros g g' E; cbn in E; [by injection E as <-|]. destruct (act max_dispatchers_ a g) as [g1|] eqn:Ea; [|done].
  eapply rtc_l; [by eapply act_step|by apply IH].
Qed.

(** An example: the main dispatcher starts, three handlers of a service are queued, and
    it takes the first, an availability handler. *)
Definition handler1 : sync_handler := mk_handler 1 AVAILABILITY 1 1.
Definition handler2 : sync_handler := mk_handler 2 AVAILABILITY 1 1.
Definition handler3 : sync_handler := mk_handler 3 MESSAGE 1 1.
Definition example_run : list action := [run 0; run 0; run 0; push [handler1; handler2; handler3]; run 0; run 0; run 0; run 0; run 0].
Definition example_state : sys := Eval vm_compute in default initial (acts 2 example_run initial).

Lemma example_reachable : rtc (step 2) initial example_state.
Proof. apply (acts_reach _ example_run). vm_compute. reflexivity. Qed.

(** ** Claims *)

(** (C8) Handlers of a service instance (its availability and message handlers), and
    likewise all other handlers, are taken from the queue in the order in which they
    were queued, each once, and none is lost: what was queued is what was taken, what
    waits for an availability handler and what is queued, in this order. *)
Theorem dispatch_in_order max_dispatchers_ g c (Hr : rtc (step max_dispatchers_) initial g) :
  NoDup (queued g) ∧ ofg c (queued g) = ofg c (taken g) ++ waiting c (availability_handlers_ (app g)) ++ ofg c (handlers_ (app g)).
Proof. pose proof (ordered_reachable _ _ Hr) as H. split; [apply (or_nodup _ _ _ H)|apply (or_order _ _ _ H)]. Qed.

(** At most one dispatcher is busy with availability handlers of a service instance at
    a time, and with a given handler. *)
Theorem availability_exclusive max_dispatchers_ g id1 id2 p1 p2 h1 h2 (Hr : rtc (step max_dispatchers_) initial g)
  (E1 : pcs (app g) !! id1 = Some p1) (E2 : pcs (app g) !! id2 = Some p2) (P1 : processed p1 = Some h1) (P2 : processed p2 = Some h2)
  (Hsame : h1 = h2 ∨ handler_type_ h1 = AVAILABILITY ∧ handler_type_ h2 = AVAILABILITY ∧ its_si_pair h1 = its_si_pair h2) : id1 = id2.
Proof.
  pose proof (ordered_reachable _ _ Hr) as H. assert (h1 = h2) as ->; [|by eapply (or_unique _ _ _ H)].
  destruct Hsame as [|(T1 & T2 & Hs)]; [done|]. destruct (or_processed _ _ _ H _ _ _ E1 P1) as [_ A1], (or_processed _ _ _ H _ _ _ E2 P2) as [_ A2].
  destruct (A1 T1) as [r1 R1], (A2 T2) as [r2 R2]. rewrite Hs in R1. congruence.
Qed.

Lemma dispatch_in_order_witness : NoDup (queued example_state) ∧ ofg (Some (1, 1)) (queued example_state)
  = ofg (Some (1, 1)) (taken example_state) ++ waiting (Some (1, 1)) (availability_handlers_ (app example_state)) ++ ofg (Some (1, 1)) (handlers_ (app example_state)).
Proof. apply (dispatch_in_order 2), example_reachable. Defined.

Lemma availability_exclusive_witness : main_dispatcher = 0%nat.
Proof. apply (availability_exclusive 2 example_state main_dispatcher 0%nat (calling handler1) (calling handler1) handler1 handler1); [apply example_reachable|reflexivity|reflexivity|reflexivity|reflexivity|by left]. Defined.
