(* ===== verification/DispatcherLive.v ===== *)
(** * The dispatchers of an application: where threads are and who sleeps

    The invariants behind progress: the places of the threads agree with the state
    that they share, and at most one of them sleeps. *)

From stdpp Require Import base list gmap.
From Stdlib Require Import ZArith Lia.
From S2P Require Import Prelude Dispatcher DispatcherFacts.

Import application.

(** ** Where threads are

    [at_ P m id]: thread [id] is at a place where [P]. *)

Definition at_ (P : pc → bool) (m : gmap thread_id pc) (id : thread_id) : bool := match m !! id with Some p => P p | None => false end.

Definition holding (p : pc) : bool := match p with main_top | main_checking | inner | disp_top | disp_checking | disp_woken | disp_exit => true | _ => false end.
Definition busy (p : pc) : bool := match p with calling _ | leaving _ => true | _ => false end.
Definition is_done (p : pc) : bool := match p with done_ => true | _ => false end.
Definition idle_pc (p : pc) : bool := negb (busy p) && negb (is_done p).
Definition main_pc (p : pc) : bool := match p with disp_top | disp_checking | disp_waiting _ | disp_woken | disp_exit | done_ => false | _ => true end.
Definition disp_pc (p : pc) : bool := match p with main_top | main_checking | main_waiting _ => false | _ => true end.
Definition main_sleepy (p : pc) : bool := match p with main_checking | main_waiting _ => true | _ => false end.
Definition main_asleep (p : pc) : bool := match p with main_waiting false => true | _ => false end.
Definition disp_sleepy (p : pc) : bool := match p with disp_checking | disp_waiting _ => true | _ => false end.
Definition disp_asleep (p : pc) : bool := match p with disp_waiting false => true | _ => false end.
Definition not_done (p : pc) : bool := negb (is_done p).
Definition kind (id : thread_id) (p : pc) : bool := if decide (id = main_dispatcher) then main_pc p else disp_pc p.

Lemma at_insert P m id p id' : at_ P (<[id := p]> m) id' = if decide (id' = id) then P p else at_ P m id'.
Proof. unfold at_. destruct (decide (id' = id)) as [->|]; [by rewrite lookup_insert_eq|by rewrite lookup_insert_ne]. Qed.

Lemma at_fmap P f m id : at_ P (f <$> m) id = at_ (P ∘ f) m id.
Proof. unfold at_. rewrite lookup_fmap. by destruct (m !! id). Qed.

Lemma at_ext P Q m id : (∀ p, P p = Q p) → at_ P m id = at_ Q m id.
Proof. intros H. unfold at_. destruct (m !! id); [apply H|done]. Qed.

Lemma at_imp P Q m id : (∀ p, P p = true → Q p = true) → at_ P m id = true → at_ Q m id = true.
Proof. intros H. unfold at_. destruct (m !! id); [apply H|done]. Qed.

Lemma at_Some P m id p : m !! id = Some p → at_ P m id = P p.
Proof. unfold at_. by intros ->. Qed.

Lemma at_alter P f m id id' : at_ P (alter f id m) id' = if decide (id' = id) then at_ (P ∘ f) m id else at_ P m id'.
Proof.
  unfold at_. destruct (decide (id' = id)) as [->|]; [rewrite lookup_alter_eq; by destruct (m !! id)|by rewrite lookup_alter_ne].
Qed.

Lemma at_filter (P : pc → bool) (X : gset thread_id) m id : (∀ id, (id ∈ X) ↔ at_ is_done m id = true) →
  at_ P (filter (λ x, x.1 ∉ X) m) id = at_ (λ p, P p && negb (is_done p)) m id.
Proof.
  intros HX. unfold at_ in *. specialize (HX id). destruct (m !! id) as [p|] eqn:E.
  - destruct (decide (id ∈ X)) as [Hin|Hni].
    + rewrite map_lookup_filter_None_2 by (right; intros p' _ Hn; by apply Hn). apply HX in Hin. rewrite Hin. by rewrite andb_false_r.
    + rewrite (map_lookup_filter_Some_2 _ _ _ p) by done. destruct (is_done p); [destruct Hni; by apply HX|by rewrite andb_true_r].
  - rewrite map_lookup_filter_None_2; [done|by left].
Qed.

(** The places of the threads agree with the state they share. *)
Record sane (st : t) : Prop := {
  sn_main : main_dispatcher ∈ dispatchers_ st;
  sn_dom : dispatchers_ st = dom (pcs st);
  sn_kind : ∀ id p, pcs st !! id = Some p → kind id p = true;
  sn_lock : ∀ id, lock_ st = Some id ↔ at_ holding (pcs st) id = true;
  sn_running : ∀ id, id ∈ running_dispatchers_ st ↔ at_ busy (pcs st) id = true;
  sn_elapsed : ∀ id, id ∈ elapsed_dispatchers_ st ↔ at_ is_done (pcs st) id = true
}.

Lemma idle_at st id : sane st → id ∈ dispatchers_ st → idle st id = at_ idle_pc (pcs st) id.
Proof.
  intros [_ Hd _ _ Hr He] Hin. rewrite Hd in Hin. apply elem_of_dom in Hin as [p Hp]. unfold idle, idle_pc. specialize (Hr id). specialize (He id).
  unfold at_ in *. rewrite Hp in *. f_equal; apply eq_true_iff_eq; rewrite bool_decide_eq_true, negb_true_iff, <- not_true_iff_false; tauto.
Qed.

Lemma idle_known st id : sane st → at_ idle_pc (pcs st) id = true → id ∈ dispatchers_ st.
Proof. intros H. rewrite (sn_dom _ H), elem_of_dom. unfold at_. destruct (pcs st !! id); [by eexists|done]. Qed.

Lemma active_spec st id : sane st → is_dispatching_ st = true → is_active_dispatcher id st = true ↔ ∀ d, d ≠ id → at_ idle_pc (pcs st) d = false.
Proof.
  intros H Hd. unfold is_active_dispatcher. rewrite Hd, negb_true_iff, <- not_true_iff_false, existsb_exists. split.
  - intros Hn d Hne. apply not_true_is_false. intros Hi. apply Hn. exists d. assert (Hk := idle_known _ _ H Hi). split; [by apply list_elem_of_In, elem_of_elements|].
    rewrite bool_decide_true, idle_at by done. done.
  - intros Hall (d & Hin & Hi). apply list_elem_of_In, elem_of_elements in Hin. apply andb_true_iff in Hi as [Hne Hi]. apply bool_decide_eq_true in Hne.
    rewrite idle_at in Hi by done. rewrite Hall in Hi; done.
Qed.

Lemma inactive_spec st id : sane st → is_dispatching_ st = true → is_active_dispatcher id st = false → ∃ d, d ≠ id ∧ at_ idle_pc (pcs st) d = true.
Proof.
  intros H Hd. unfold is_active_dispatcher. rewrite Hd, negb_false_iff, existsb_exists. intros (d & Hin & Hi). apply list_elem_of_In, elem_of_elements in Hin.
  apply andb_true_iff in Hi as [Hne Hi]. apply bool_decide_eq_true in Hne. rewrite idle_at in Hi by done. by exists d.
Qed.

Lemma has_active_spec st : sane st → is_dispatching_ st = true → has_active_dispatcher st = true ↔ ∃ d, at_ idle_pc (pcs st) d = true.
Proof.
  intros H Hd. unfold has_active_dispatcher. rewrite Hd, existsb_exists. split.
  - intros (d & Hin & Hi). apply list_elem_of_In, elem_of_elements in Hin. exists d. by rewrite <- idle_at.
  - intros (d & Hi). assert (Hk := idle_known _ _ H Hi). exists d. split; [by apply list_elem_of_In, elem_of_elements|]. by rewrite idle_at.
Qed.

(** ** The steps keep it *)

Lemma sane_set st id p p' l r e : sane st → pcs st !! id = Some p → kind id p' = true →
  (∀ i, l = Some i ↔ (if decide (i = id) then holding p' = true else lock_ st = Some i)) →
  (∀ i, i ∈ r ↔ (if decide (i = id) then busy p' = true else i ∈ running_dispatchers_ st)) →
  (∀ i, i ∈ e ↔ (if decide (i = id) then is_done p' = true else i ∈ elapsed_dispatchers_ st)) →
  sane (with_pcs l (<[id := p']> (pcs st)) (with_dispatchers (dispatchers_ st) r e st)).
Proof.
  intros [H1 H2 H3 H4 H5 H6] Hp Hk Hl Hr He. constructor; cbn [with_pcs with_dispatchers dispatchers_ pcs lock_ running_dispatchers_ elapsed_dispatchers_]; [done| | | | |].
  - rewrite dom_insert_lookup_L; [done|by eexists].
  - intros i q. destruct (decide (i = id)) as [->|]; [rewrite lookup_insert_eq; by intros [= <-]|rewrite lookup_insert_ne by done; apply H3].
  - intros i. rewrite at_insert, Hl. destruct (decide (i = id)); [done|apply H4].
  - intros i. rewrite at_insert, Hr. destruct (decide (i = id)); [done|apply H5].
  - intros i. rewrite at_insert, He. destruct (decide (i = id)); [done|apply H6].
Qed.

Lemma sane_move st id p p' l : sane st → pcs st !! id = Some p → kind id p' = true → busy p' = busy p → is_done p = false → is_done p' = false →
  (∀ i, l = Some i ↔ (if decide (i = id) then holding p' = true else lock_ st = Some i)) → sane (with_pcs l (<[id := p']> (pcs st)) st).
Proof.
  intros H Hp Hk Hb Hd Hd' Hl. apply (sane_set st id p p' l (running_dispatchers_ st) (elapsed_dispatchers_ st)); try done; intros i; destruct (decide (i = id)) as [->|]; try done.
  - by rewrite (sn_running _ H), (at_Some _ _ _ _ Hp), Hb.
  - by rewrite (sn_elapsed _ H), (at_Some _ _ _ _ Hp), Hd, Hd'.
Qed.

Lemma sane_holds st id p : sane st → pcs st !! id = Some p → holding p = true → lock_ st = Some id.
Proof. intros H Hp Hh. apply (sn_lock _ H). by rewrite (at_Some _ _ _ _ Hp). Qed.

Lemma sane_goto st id p p' : sane st → pcs st !! id = Some p → kind id p' = true → busy p' = busy p → is_done p = false → is_done p' = false → holding p' = holding p →
  sane (goto id p' st).
Proof.
  intros H Hp Hk Hb Hd Hd' Hh. apply (sane_move st id p); try done. intros i. destruct (decide (i = id)) as [->|]; [|done].
  rewrite (sn_lock _ H), (at_Some _ _ _ _ Hp). by rewrite Hh.
Qed.

Lemma sane_acquire st id p p' : sane st → pcs st !! id = Some p → kind id p' = true → busy p' = busy p → is_done p = false → is_done p' = false → holding p' = true → lock_ st = None →
  sane (acquire id p' st).
Proof.
  intros H Hp Hk Hb Hd Hd' Hh Hl. apply (sane_move st id p); try done. intros i. destruct (decide (i = id)) as [->|]; [done|]. rewrite Hl. split; congruence.
Qed.

Lemma sane_release st id p p' : sane st → pcs st !! id = Some p → kind id p' = true → busy p' = busy p → is_done p = false → is_done p' = false → holding p = true → holding p' = false →
  sane (release id p' st).
Proof.
  intros H Hp Hk Hb Hd Hd' Hh Hh'. assert (Hl := sane_holds _ _ _ H Hp Hh). apply (sane_move st id p); try done. intros i. destruct (decide (i = id)) as [->|]; [by rewrite Hh'|].
  rewrite Hl. split; congruence.
Qed.

Lemma kind_notified id p : kind id (notified p) = kind id p.
Proof. unfold kind. by destruct p, (decide _). Qed.

Lemma sane_notify_all st : sane st → sane (notify_all st).
Proof.
  intros [H1 H2 H3 H4 H5 H6]. constructor; cbn [notify_all with_pcs dispatchers_ pcs lock_ running_dispatchers_ elapsed_dispatchers_]; [done|by rewrite dom_fmap_L| | | |].
  - intros i q E. rewrite lookup_fmap in E. destruct (pcs st !! i) as [p|] eqn:Ep; [|done]. injection E as <-. rewrite kind_notified. by apply H3.
  - intros i. rewrite at_fmap, H4. by rewrite (at_ext (holding ∘ notified) holding) by (by intros []).
  - intros i. rewrite at_fmap, H5. by rewrite (at_ext (busy ∘ notified) busy) by (by intros []).
  - intros i. rewrite at_fmap, H6. by rewrite (at_ext (is_done ∘ notified) is_done) by (by intros []).
Qed.

Lemma at_alter_same P f m id i : (∀ p, P (f p) = P p) → at_ P (alter f id m) i = at_ P m i.
Proof. intros H. rewrite at_alter. destruct (decide (i = id)) as [->|]; [|done]. by apply at_ext. Qed.

Lemma sane_notify_thread id st : sane st → sane (notify_thread id st).
Proof.
  intros [H1 H2 H3 H4 H5 H6]. constructor; cbn [notify_thread with_pcs dispatchers_ pcs lock_ running_dispatchers_ elapsed_dispatchers_]; [done|by rewrite dom_alter_L| | | |].
  - intros i q E. destruct (decide (i = id)) as [->|]; [rewrite lookup_alter_eq in E|rewrite lookup_alter_ne in E by done; by apply H3].
    destruct (pcs st !! id) as [p|] eqn:Ep; [|done]. injection E as <-. rewrite kind_notified. by apply H3.
  - intros i. rewrite at_alter_same by (by intros []). apply H4.
  - intros i. rewrite at_alter_same by (by intros []). apply H5.
  - intros i. rewrite at_alter_same by (by intros []). apply H6.
Qed.

Lemma sane_notify_one w st : sane st → sane (notify_one w st).
Proof. destruct w; [apply sane_notify_thread|done]. Qed.

Lemma sane_elapse st id p : sane st → pcs st !! id = Some p → id ≠ main_dispatcher → holding p = true → sane (release id done_ (elapse id st)).
Proof.
  intros H Hp Hne Hh. assert (Hl := sane_holds _ _ _ H Hp Hh). apply (sane_set st id p done_); try done; [unfold kind; by rewrite decide_False| | |]; intros i.
  - destruct (decide (i = id)) as [->|]; [done|]. rewrite Hl. split; congruence.
  - destruct (decide (i = id)) as [->|]; [|done]. rewrite (sn_running _ H), (at_Some _ _ _ _ Hp). by destruct p.
  - rewrite elem_of_union, elem_of_singleton. destruct (decide (i = id)) as [->|]; cbn; tauto.
Qed.

Lemma sane_enter st id h : sane st → pcs st !! id = Some (entering h) → sane (goto id (calling h) (with_dispatchers (dispatchers_ st) (running_dispatchers_ st ∪ {[id]}) (elapsed_dispatchers_ st) st)).
Proof.
  intros H Hp. apply (sane_set st id (entering h) (calling h)); try done; [by apply (sn_kind _ H _ _ Hp)| | |]; intros i.
  - destruct (decide (i = id)) as [->|]; [|done]. by rewrite (sn_lock _ H), (at_Some _ _ _ _ Hp).
  - rewrite elem_of_union, elem_of_singleton. destruct (decide (i = id)) as [->|]; cbn; tauto.
  - destruct (decide (i = id)) as [->|]; [|done]. by rewrite (sn_elapsed _ H), (at_Some _ _ _ _ Hp).
Qed.

Lemma sane_leave st id h : sane st → pcs st !! id = Some (leaving h) → sane (goto id (returned h) (with_dispatchers (dispatchers_ st) (running_dispatchers_ st ∖ {[id]}) (elapsed_dispatchers_ st) st)).
Proof.
  intros H Hp. apply (sane_set st id (leaving h) (returned h)); try done; [by apply (sn_kind _ H _ _ Hp)| | |]; intros i.
  - destruct (decide (i = id)) as [->|]; [|done]. by rewrite (sn_lock _ H), (at_Some _ _ _ _ Hp).
  - rewrite elem_of_difference, elem_of_singleton. destruct (decide (i = id)) as [->|]; cbn; intuition congruence.
  - destruct (decide (i = id)) as [->|]; [|done]. by rewrite (sn_elapsed _ H), (at_Some _ _ _ _ Hp).
Qed.

(** Joining never blocks, and the threads joined are known. *)
Lemma remove_elapsed_sane st : sane st → is_dispatching_ st = true → ∃ st', remove_elapsed_dispatchers st = Some (Ok st') ∧ sane st'
  ∧ (∀ P i, at_ P (pcs st') i = at_ (λ p, P p && negb (is_done p)) (pcs st) i)
  ∧ handlers_ st' = handlers_ st ∧ is_dispatching_ st' = true ∧ elapse_unactive_dispatchers_ st' = elapse_unactive_dispatchers_ st ∧ lock_ st' = lock_ st ∧ pending_notify st' = pending_notify st.
Proof.
  intros H Hdis. pose proof H as [H1 H2 H3 H4 H5 H6]. unfold remove_elapsed_dispatchers. rewrite Hdis.
  rewrite decide_True by (intros i Hi; apply H6 in Hi; rewrite H2, elem_of_dom; unfold at_ in Hi; destruct (pcs st !! i); [by eexists|done]).
  assert (forallb _ _ = true) as ->.
  { apply forallb_forall. intros i Hi. apply list_elem_of_In, elem_of_elements, H6 in Hi. unfold at_ in Hi. destruct (pcs st !! i) as [[]|]; done. }
  eexists. split; [done|]. assert (Hat : ∀ P i, at_ P (filter (λ x, x.1 ∉ elapsed_dispatchers_ st) (pcs st)) i = at_ (λ p, P p && negb (is_done p)) (pcs st) i) by (intros; by apply at_filter).
  split_and!; try done. constructor; cbn [with_pcs with_dispatchers dispatchers_ pcs lock_ running_dispatchers_ elapsed_dispatchers_].
  - apply elem_of_difference. split; [done|]. rewrite H6. unfold at_. destruct (pcs st !! main_dispatcher) as [p|] eqn:E; [|done]. specialize (H3 _ _ E). unfold kind in H3. by destruct p.
  - apply set_eq. intros i. rewrite elem_of_difference, H2, !elem_of_dom. split.
    + intros [[p Hp] Hn]. exists p. by apply map_lookup_filter_Some_2.
    + intros [p Hp]. apply map_lookup_filter_Some in Hp as [Hp Hn]. split; [by exists p|done].
  - intros i p Hp. apply map_lookup_filter_Some in Hp as [Hp _]. by apply H3.
  - intros i. rewrite Hat, H4. by rewrite (at_ext (λ p, holding p && negb (is_done p)) holding) by (by intros []).
  - intros i. rewrite Hat, H5. by rewrite (at_ext (λ p, busy p && negb (is_done p)) busy) by (by intros []).
  - intros i. rewrite Hat, (at_ext _ (λ _, false)) by (by intros []). unfold at_. split; [done|by destruct (pcs st !! i)].
Qed.

(** ** Who sleeps

    While the main dispatcher waits, no other dispatcher does; of the others, one may
    wait; none sleeps while handlers are queued, unless a notification is due; and the
    main dispatcher sleeps only if another one is there that handles what is queued. *)

Record live (st : t) : Prop := {
  lv_sane : sane st;
  lv_quiet : at_ main_sleepy (pcs st) main_dispatcher = true → elapse_unactive_dispatchers_ st = true ∧ ∀ i, at_ disp_asleep (pcs st) i = false;
  lv_one : ∀ i j, at_ disp_sleepy (pcs st) i = true → at_ disp_sleepy (pcs st) j = true → i = j;
  lv_sleep : lock_ st = None → handlers_ st ≠ [] → pending_notify st = 0%nat → ∀ i, at_ disp_asleep (pcs st) i = false;
  lv_someone : at_ main_asleep (pcs st) main_dispatcher = true → handlers_ st ≠ [] → pending_notify st = 0%nat →
    ∃ i, i ≠ main_dispatcher ∧ at_ not_done (pcs st) i = true
}.

(** One thread moves on, to where it is not asleep; threads that are done may go. *)
Lemma live_move id p p' st st' : live st → pcs st !! id = Some p → sane st' →
  (∀ P, at_ P (pcs st') id = P p') → (∀ P i, i ≠ id → at_ P (pcs st') i = true → at_ P (pcs st) i = true) →
  (main_sleepy p' = true → main_sleepy p = true) → (disp_sleepy p' = true → disp_sleepy p = true) → asleep p' = false → is_done p' = false →
  (elapse_unactive_dispatchers_ st' = elapse_unactive_dispatchers_ st ∨ id = main_dispatcher ∧ main_sleepy p' = false) →
  (lock_ st' = None → lock_ st = None ∧ handlers_ st' = handlers_ st ∧ pending_notify st' = pending_notify st) → live st'.
Proof.
  intros [H1 H2 H3 H4 H5] Hp Hs Hid Hot Hm Hd Ha Hn He Hl. assert (Hda : disp_asleep p' = false) by (by destruct p' as [| | |[]| | | | | | | |[]| | |]).
  assert (Hma : main_asleep p' = false) by (by destruct p' as [| | |[]| | | | | | | |[]| | |]).
  assert (Hold : ∀ P i, (P p' = true → P p = true) → at_ P (pcs st') i = true → at_ P (pcs st) i = true).
  { intros P i HP. destruct (decide (i = id)) as [->|]; [rewrite Hid, (at_Some _ _ _ _ Hp); done|by apply Hot]. }
  assert (Hasl : (∀ i, at_ disp_asleep (pcs st) i = false) → ∀ i, at_ disp_asleep (pcs st') i = false).
  { intros Hall i. destruct (at_ disp_asleep (pcs st') i) eqn:E; [|done]. rewrite <- (Hall i). symmetry. apply Hold; [congruence|done]. }
  constructor; [done| | | |].
  - intros Hms. destruct He as [->|[-> Hf]]; [|rewrite Hid in Hms; congruence]. destruct H2 as [? ?]; [by apply Hold|]. split; auto.
  - intros i j Hi Hj. apply H3; by apply Hold.
  - intros L. destruct (Hl L) as (L' & -> & ->). auto.
  - intros Hmm _ _. exists id. rewrite Hid. unfold not_done. rewrite Hn. split; [|done]. intros ->. rewrite Hid in Hmm. congruence.
Qed.

Lemma live_goto id p p' st : live st → pcs st !! id = Some p → sane (goto id p' st) →
  (main_sleepy p' = true → main_sleepy p = true) → (disp_sleepy p' = true → disp_sleepy p = true) → asleep p' = false → is_done p' = false → live (goto id p' st).
Proof.
  intros H Hp Hs Hm Hd Ha Hn. apply (live_move id p p' st); try done; [intros P; cbn; by rewrite at_insert, decide_True| |by left].
  intros P i Hne. cbn. by rewrite at_insert, decide_False.
Qed.

Lemma live_acquire id p p' st : live st → pcs st !! id = Some p → sane (acquire id p' st) →
  (main_sleepy p' = true → main_sleepy p = true) → (disp_sleepy p' = true → disp_sleepy p = true) → asleep p' = false → is_done p' = false → live (acquire id p' st).
Proof.
  intros H Hp Hs Hm Hd Ha Hn. apply (live_move id p p' st); try done; [intros P; cbn; by rewrite at_insert, decide_True| |by left].
  intros P i Hne. cbn. by rewrite at_insert, decide_False.
Qed.

(** Threads are notified, or more is queued. *)
Lemma live_wake st st' : live st → sane st' → lock_ st' = lock_ st → elapse_unactive_dispatchers_ st' = elapse_unactive_dispatchers_ st →
  (∀ P i, (∀ p, P (notified p) = true → P p = true) → at_ P (pcs st') i = true → at_ P (pcs st) i = true) →
  (∀ i, at_ not_done (pcs st) i = true → at_ not_done (pcs st') i = true) →
  ((∀ i, at_ asleep (pcs st') i = false) ∨ (pending_notify st' = 0%nat → handlers_ st' = handlers_ st ∧ pending_notify st = 0%nat)) → live st'.
Proof.
  intros [H1 H2 H3 H4 H5] Hs Hl He Hat Hn Hc.
  assert (Hasl : (∀ i, at_ disp_asleep (pcs st) i = false) → ∀ i, at_ disp_asleep (pcs st') i = false).
  { intros Hall i. destruct (at_ disp_asleep (pcs st') i) eqn:E; [|done]. rewrite <- (Hall i). symmetry. apply Hat; [by intros []|done]. }
  constructor; [done| | | |].
  - intros Hms. rewrite He. destruct H2 as [? ?]; [apply Hat; [by intros []|done]|]. split; auto.
  - intros i j Hi Hj. apply H3; (apply Hat; [by intros []|done]).
  - intros L Hh Hp. destruct Hc as [Hc|Hc].
    + intros i. specialize (Hc i). unfold at_ in *. destruct (pcs st' !! i) as [p|]; [by destruct p as [| | |[]| | | | | | | |[]| | |]|done].
    + destruct (Hc Hp) as [Hc1 Hc2]. rewrite Hc1 in Hh. rewrite Hl in L. auto.
  - intros Hma Hh Hp. destruct Hc as [Hc|Hc].
    + specialize (Hc main_dispatcher). unfold at_ in *. destruct (pcs st' !! main_dispatcher) as [p|]; [by destruct p as [| | |[]| | | | | | | |[]| | |]|done].
    + destruct (Hc Hp) as [Hc1 Hc2]. rewrite Hc1 in Hh. destruct H5 as (i & Hne & Hi); [apply Hat; [by intros []|done]|done|done|]. exists i. split; [done|auto].
Qed.

Lemma kind_main p : kind main_dispatcher p = main_pc p.
Proof. unfold kind. by rewrite decide_True. Qed.

Lemma kind_disp id p : id ≠ main_dispatcher → kind id p = disp_pc p.
Proof. intros. unfold kind. by rewrite decide_False. Qed.

Lemma at_notified_false P m i : (∀ p, P (notified p) = false) → at_ P (notified <$> m) i = false.
Proof. intros H. rewrite at_fmap. unfold at_. destruct (m !! i); [apply H|done]. Qed.

Lemma at_notified_same P m i : (∀ p, P (notified p) = P p) → at_ P (notified <$> m) i = at_ P m i.
Proof. intros H. rewrite at_fmap. by apply at_ext. Qed.

Lemma live_main_quiet st : live st → pcs st !! main_dispatcher = Some main_top → live (goto main_dispatcher main_checking (notify_all (with_elapse true st))).
Proof.
  intros [H1 H2 H3 H4 H5] Hp. assert (Hl := sane_holds _ _ _ H1 Hp eq_refl).
  assert (Hs : sane (notify_all (with_elapse true st))) by (by apply (sane_notify_all (with_elapse true st)); destruct H1; constructor).
  constructor; cbn [goto notify_all with_pcs with_elapse pcs elapse_unactive_dispatchers_ lock_ handlers_].
  - apply (sane_goto _ _ main_top); try done. cbn. by rewrite lookup_fmap, Hp.
  - intros _. split; [done|]. intros i. rewrite at_insert. destruct (decide _); [done|]. apply at_notified_false. by intros [].
  - intros i j. rewrite !at_insert. destruct (decide (i = _)); [done|]. destruct (decide (j = _)); [done|]. rewrite !at_notified_same by (by intros []). apply H3.
  - congruence.
  - by rewrite at_insert, decide_True.
Qed.

Lemma live_main_wait st : live st → is_dispatching_ st = true → pcs st !! main_dispatcher = Some main_checking → (handlers_ st = [] ∨ is_active_dispatcher main_dispatcher st = false) →
  live (release main_dispatcher (main_waiting false) st).
Proof.
  intros [H1 H2 H3 H4 H5] Hd Hp Hc. destruct H2 as [He Hq]; [by rewrite (at_Some _ _ _ _ Hp)|].
  assert (Hq' : ∀ i, at_ disp_asleep (<[main_dispatcher := main_waiting false]> (pcs st)) i = false) by (intros i; rewrite at_insert; by destruct (decide _)).
  constructor; cbn [release with_pcs pcs elapse_unactive_dispatchers_ lock_ handlers_].
  - by apply (sane_release _ _ main_checking).
  - done.
  - intros i j. rewrite !at_insert. destruct (decide (i = _)); [done|]. destruct (decide (j = _)); [done|]. apply H3.
  - done.
  - intros _ Hh _. destruct Hc as [?|Hc]; [done|]. destruct (inactive_spec _ _ H1 Hd Hc) as (d & Hne & Hi).
    exists d. rewrite at_insert, decide_False by done. split; [done|]. revert Hi. apply at_imp. by intros [].
Qed.

(** A dispatcher that is active is the only one that is not busy. *)
Lemma active_others P st id i : sane st → is_dispatching_ st = true → is_active_dispatcher id st = true → (∀ p, P p = true → idle_pc p = true) → i ≠ id → at_ P (pcs st) i = false.
Proof.
  intros H Hd Ha HP Hne. apply not_true_is_false. intros Hi. apply (at_imp _ _ _ _ HP) in Hi. rewrite (active_spec _ _ H Hd) in Ha. rewrite Ha in Hi; done.
Qed.

Lemma live_take st id h hs av : live st → is_dispatching_ st = true → pcs st !! id = Some inner → is_active_dispatcher id st = true →
  live (release id (entering h) (with_handlers hs av st)).
Proof.
  intros [H1 H2 H3 H4 H5] Hd Hp Ha.
  assert (Hno : ∀ P i, (∀ p, P p = true → idle_pc p = true) → P (entering h) = false → at_ P (<[id := entering h]> (pcs st)) i = false).
  { intros P i HP HE. rewrite at_insert. destruct (decide (i = id)) as [->|]; [done|]. by eapply active_others. }
  constructor; cbn [release with_handlers with_pcs pcs elapse_unactive_dispatchers_ lock_ handlers_].
  - assert (Hs : sane (with_handlers hs av st)) by (by destruct H1; constructor). apply (sane_release _ _ inner); try done. unfold kind. by destruct (decide _).
  - rewrite Hno by (done || by intros []). done.
  - intros i j. rewrite Hno by (done || by intros []). done.
  - intros _ _ _ i. apply Hno; [by intros []|done].
  - rewrite Hno by (done || by intros []). done.
Qed.

Lemma live_disp_checking st id : live st → is_dispatching_ st = true → pcs st !! id = Some disp_top → is_active_dispatcher id st = true → live (goto id disp_checking st).
Proof.
  intros [H1 H2 H3 H4 H5] Hd Hp Ha. assert (Hl := sane_holds _ _ _ H1 Hp eq_refl). assert (Hk := sn_kind _ H1 _ _ Hp).
  constructor; cbn [goto with_pcs pcs elapse_unactive_dispatchers_ lock_ handlers_].
  - by apply (sane_goto _ _ disp_top).
  - rewrite at_insert. destruct (decide (main_dispatcher = id)); [done|]. rewrite (active_others main_sleepy st id) by (done || by intros []). done.
  - intros i j. rewrite !at_insert. destruct (decide (i = id)) as [->|], (decide (j = id)) as [->|]; try done; rewrite ?(active_others disp_sleepy st id) by (done || by intros []); done.
  - congruence.
  - rewrite at_insert. destruct (decide (main_dispatcher = id)); [done|]. rewrite (active_others main_asleep st id) by (done || by intros []). done.
Qed.

Lemma live_disp_wait st id : live st → pcs st !! id = Some disp_checking → handlers_ st = [] → elapse_unactive_dispatchers_ st = false → live (release id (disp_waiting false) st).
Proof.
  intros [H1 H2 H3 H4 H5] Hp Hh He. assert (Hk := sn_kind _ H1 _ _ Hp). constructor; cbn [release with_pcs pcs elapse_unactive_dispatchers_ lock_ handlers_]; try done.
  - by apply (sane_release _ _ disp_checking).
  - rewrite at_insert. destruct (decide (main_dispatcher = id)); [done|]. intros Hm. destruct (H2 Hm). congruence.
  - assert (Hsame : ∀ i, at_ disp_sleepy (<[id := disp_waiting false]> (pcs st)) i = at_ disp_sleepy (pcs st) i); [|intros i j; rewrite !Hsame; apply H3].
    intros i. rewrite at_insert. destruct (decide (i = id)) as [->|]; [by rewrite (at_Some _ _ _ _ Hp)|done].
Qed.

Lemma live_disp_done st id p : live st → pcs st !! id = Some p → id ≠ main_dispatcher → holding p = true → handlers_ st = [] → live (release id done_ (elapse id st)).
Proof.
  intros [H1 H2 H3 H4 H5] Hp Hne Hh He. assert (Hs := sane_elapse _ _ _ H1 Hp Hne Hh). constructor; cbn [release elapse with_dispatchers with_pcs pcs elapse_unactive_dispatchers_ lock_ handlers_]; try done.
  - rewrite at_insert, decide_False by done. intros Hm. destruct (H2 Hm) as [? Hq]. split; [done|]. intros i. rewrite at_insert. by destruct (decide (i = id)).
  - intros i j. rewrite !at_insert. destruct (decide (i = id)); [done|]. destruct (decide (j = id)); [done|]. apply H3.
Qed.

Lemma live_disp_exit st id : live st → pcs st !! id = Some disp_exit → id ≠ main_dispatcher → live (release id done_ (notify_all (elapse id st))).
Proof.
  intros [H1 H2 H3 H4 H5] Hp Hne. assert (Hp' : pcs (notify_all st) !! id = Some disp_exit) by (cbn; by rewrite lookup_fmap, Hp).
  assert (Hs := sane_elapse _ _ _ (sane_notify_all _ H1) Hp' Hne eq_refl).
  assert (Hno : ∀ P i, (∀ p, P (notified p) = false) → P done_ = false → at_ P (<[id := done_]> (notified <$> pcs st)) i = false).
  { intros P i HP HE. rewrite at_insert. destruct (decide (i = id)) as [->|]; [done|]. by apply at_notified_false. }
  constructor; cbn [release elapse notify_all with_dispatchers with_pcs pcs elapse_unactive_dispatchers_ lock_ handlers_].
  - exact Hs.
  - rewrite at_insert, decide_False, at_notified_same by (done || by intros []). intros Hm. destruct (H2 Hm) as [? Hq]. split; [done|]. intros i. apply Hno; [by intros []|done].
  - intros i j. rewrite !at_insert. destruct (decide (i = id)); [done|]. destruct (decide (j = id)); [done|]. rewrite !at_notified_same by (by intros []). apply H3.
  - intros _ _ _ i. apply Hno; [by intros []|done].
  - rewrite Hno by (done || by intros []). done.
Qed.

Lemma live_finish st id h st' : live st → is_dispatching_ st = true → pcs st !! id = Some (returned h) → lock_ st = None →
  remove_elapsed_dispatchers (reschedule_availability_handler h (acquire id inner st)) = Some (Ok st') → live st'.
Proof.
  intros H Hd Hp Hl E. assert (H1 := lv_sane _ H). set (st1 := reschedule_availability_handler h (acquire id inner st)) in *.
  assert (Hs : sane st1 ∧ pcs st1 = <[id := inner]> (pcs st) ∧ is_dispatching_ st1 = true ∧ elapse_unactive_dispatchers_ st1 = elapse_unactive_dispatchers_ st ∧ lock_ st1 = Some id).
  { assert (Ha : sane (acquire id inner st)) by (apply (sane_acquire _ _ (returned h)); try done; unfold kind; by destruct (decide _)).
    unfold st1, reschedule_availability_handler. repeat case_match; split_and!; try done; by destruct Ha; constructor. }
  destruct Hs as (Hs & Hpc & Hd1 & He & Hl1). destruct (remove_elapsed_sane st1 Hs Hd1) as (st2 & E2 & Hs2 & Hat & _ & _ & He2 & Hl2 & _). rewrite E in E2. injection E2 as <-.
  apply (live_move id (returned h) inner st); try done.
  - intros P. rewrite Hat, Hpc, at_insert, decide_True by done. by rewrite andb_true_r.
  - intros P i Hne. rewrite Hat, Hpc, at_insert, decide_False by done. apply at_imp. intros p. by intros [? _]%andb_true_iff.
  - left. congruence.
  - congruence.
Qed.

Lemma get_next_frame st o st' : get_next_handler st = (o, st') → ∃ hs av, st' = with_handlers hs av st.
Proof. unfold get_next_handler. destruct (next_handler _ _) as [[? hs] av]. intros [= _ <-]. by exists hs, av. Qed.

Lemma top_kind id : kind id (if decide (id = main_dispatcher) then main_top else disp_top) = true.
Proof. unfold kind. by destruct (decide _). Qed.

Lemma live_top id st p : live st → is_dispatching_ st = true → pcs st !! id = Some p → p = starting ∨ p = inner → 
  (∀ l, (p = starting → l = Some id ∧ lock_ st = None) → (p = inner → l = lock_ st) → 
  ∀ hs av, live (with_pcs l (<[id := if decide (id = main_dispatcher) then main_top else disp_top]> (pcs st)) (with_handlers hs av st))).
Proof.
  intros H Hd Hp Hc l L1 L2 hs av. assert (H1 := lv_sane _ H). assert (Hs : sane (with_handlers hs av st)) by (by destruct H1; constructor). assert (Hk := top_kind id).
  set (p' := if decide (id = main_dispatcher) then main_top else disp_top) in *. assert (Hpp : p' = main_top ∨ p' = disp_top) by (unfold p'; destruct (decide _); tauto).
  assert (Hl : l = Some id). { destruct Hc as [-> | ->]; [by apply L1|]. rewrite L2 by done. by apply (sane_holds _ _ _ H1 Hp). }
  apply (live_move id p p' st); try done.
  - destruct Hc as [-> | ->].
    + destruct (L1 eq_refl) as [-> Hn]. apply (sane_acquire (with_handlers hs av st) id starting); try done; by destruct Hpp as [-> | ->].
    + rewrite (L2 eq_refl). apply (sane_goto (with_handlers hs av st) id inner); try done; by destruct Hpp as [-> | ->].
  - intros P. cbn. by rewrite at_insert, decide_True.
  - intros P i Hne. cbn. by rewrite at_insert, decide_False.
  - by destruct Hpp as [-> | ->].
  - by destruct Hpp as [-> | ->].
  - by destruct Hpp as [-> | ->].
  - by destruct Hpp as [-> | ->].
  - by left.
  - cbn. congruence.
Qed.

Lemma main_step_live st st' o p : live st → is_dispatching_ st = true → pcs st !! main_dispatcher = Some p → p = main_top ∨ p = main_checking →
  thread_step main_dispatcher st = Some (Ok (st', o)) → live st'.
Proof.
  intros H Hd Hp Hc E. unfold thread_step in E. rewrite Hp in E. destruct Hc as [-> | ->].
  - unfold main_loop, go in E. rewrite Hd in E. destruct (_ || _); injection E as <- <-; [by apply live_main_quiet|].
    apply (live_goto _ main_top); try done. by apply (sane_goto _ _ main_top); [apply lv_sane|..].
  - unfold main_check, go in E. rewrite Hd in E. cbn [negb orb] in E. destruct (_ && _) eqn:Ea; injection E as <- <-.
    + assert (Hs : sane (with_elapse false st)) by (by destruct (lv_sane _ H); constructor).
      apply (live_move main_dispatcher main_checking main_top st); try done; [by apply (sane_goto _ _ main_checking)|intros P; cbn; by rewrite at_insert, decide_True| |by right].
      intros P i Hne. cbn. by rewrite at_insert, decide_False.
    + apply live_main_wait; try done. apply andb_false_iff in Ea as [Ea|Ea]; [left|by right]. apply negb_false_iff, bool_decide_eq_true in Ea. done.
Qed.

Lemma disp_step_live st st' o id p : live st → is_dispatching_ st = true → pcs st !! id = Some p → id ≠ main_dispatcher → disp_sleepy p = true ∨ p = disp_top ∨ p = disp_woken ∨ p = disp_exit →
  thread_step id st = Some (Ok (st', o)) → live st'.
Proof.
  intros H Hd Hp Hne Hc E. assert (H1 := lv_sane _ H). unfold thread_step in E. rewrite Hp in E.
  assert (Hgo : ∀ p', disp_pc p' = true → busy p' = busy p → is_done p = false → is_done p' = false → holding p' = holding p → disp_sleepy p' = false → live (goto id p' st)).
  { intros p' K ? ? ? ? Hs. apply (live_goto _ p); try done; [apply (sane_goto _ _ p); try done; by rewrite kind_disp|by destruct p'|congruence|by destruct p']. }
  destruct p as [| | | | | | | | | | |[]| | |]; try (by destruct Hc as [?|[?|[?|?]]]); try done.
  - unfold disp_loop, go in E. rewrite Hd in E. destruct (is_active_dispatcher id st) eqn:Ea; [|injection E as <- <-; by apply Hgo].
    destruct (_ && _); injection E as <- <-; [by apply live_disp_checking|by apply Hgo].
  - unfold disp_check, go in E. rewrite Hd in E. destruct (_ || _) eqn:Eo; injection E as <- <-; [by apply Hgo|]. apply orb_false_iff in Eo as [Eo Ee]. cbn in Eo.
    apply negb_false_iff, bool_decide_eq_true in Eo. by apply live_disp_wait.
  - unfold locked, go in E. destruct (lock_ st) eqn:Hl; [done|]. injection E as <- <-. apply (live_acquire _ (disp_waiting true)); try done.
    apply (sane_acquire _ _ (disp_waiting true)); try done. by rewrite kind_disp.
  - unfold disp_wake, go in E. rewrite Hd in E. destruct (_ && _) eqn:Ea; injection E as <- <-; [|by apply Hgo]. apply andb_true_iff in Ea as [Ea _]. apply bool_decide_eq_true in Ea.
    by apply (live_disp_done _ _ disp_woken).
  - unfold disp_end, go in E. rewrite Hd in E. injection E as <- <-. by apply live_disp_exit.
Qed.

Lemma thread_step_live id st st' o : live st → is_dispatching_ st = true → thread_step id st = Some (Ok (st', o)) → live st'.
Proof.
  intros H Hd E. assert (H1 := lv_sane _ H). pose proof E as E0. unfold thread_step in E. destruct (pcs st !! id) as [p|] eqn:Hp; [|done]. assert (Hk := sn_kind _ H1 _ _ Hp).
  assert (Hm : disp_pc p = false → id = main_dispatcher) by (unfold kind in Hk; destruct (decide (id = main_dispatcher)); [done|congruence]).
  assert (Hdi : main_pc p = false → id ≠ main_dispatcher) by (intros ? ->; rewrite kind_main in Hk; congruence).
  destruct p as [| | |[]| |h|h|h|h| | |[]| | |]; try done.
  - unfold locked, go in E. destruct (lock_ st) eqn:Hl; [done|]. injection E as <- <-. by apply (live_top id st starting) with (hs := handlers_ st) (av := availability_handlers_ st); [..|left|tauto|].
  - rewrite (Hm eq_refl) in *. eapply main_step_live; [exact H|done|exact Hp|by left|exact E0].
  - rewrite (Hm eq_refl) in *. eapply main_step_live; [exact H|done|exact Hp|by right|exact E0].
  - unfold locked, go in E. destruct (lock_ st) eqn:Hl; [done|]. injection E as <- <-. apply (live_acquire _ (main_waiting true)); try done. by apply (sane_acquire _ _ (main_waiting true)).
  - unfold handle, go in E. rewrite Hd in E. cbn [andb] in E. destruct (is_active_dispatcher id st) eqn:Ea.
    + destruct (get_next_handler st) as [[h|] st1] eqn:En; destruct (get_next_frame _ _ _ En) as (hs & av & ->); injection E as <- <-; [by apply live_take|].
      by apply (live_top id st inner) with (l := lock_ st); [..|right| |].
    + injection E as <- <-. by apply (live_top id st inner) with (l := lock_ st) (hs := handlers_ st) (av := availability_handlers_ st); [..|right| |].
  - unfold enter, go in E. rewrite Hd in E. injection E as <- <-. apply (live_move id (entering h) (calling h) st); try done; [by apply sane_enter|intros P; cbn; by rewrite at_insert, decide_True| |by left].
    intros P i Hne. cbn. by rewrite at_insert, decide_False.
  - unfold leave, go in E. rewrite Hd in E. injection E as <- <-. apply (live_move id (leaving h) (returned h) st); try done; [by apply sane_leave|intros P; cbn; by rewrite at_insert, decide_True| |by left].
    intros P i Hne. cbn. by rewrite at_insert, decide_False.
  - unfold finish, go in E. rewrite Hd in E. destruct (lock_ st) eqn:Hl; [done|]. destruct (remove_elapsed_dispatchers _) as [[st1| | |]|] eqn:Er; try done. injection E as <- <-. by eapply live_finish.
  - eapply disp_step_live; [exact H|done|exact Hp|by apply Hdi|tauto|exact E0].
  - eapply disp_step_live; [exact H|done|exact Hp|by apply Hdi|by left|exact E0].
  - eapply disp_step_live; [exact H|done|exact Hp|by apply Hdi|by left|exact E0].
  - eapply disp_step_live; [exact H|done|exact Hp|by apply Hdi|tauto|exact E0].
  - eapply disp_step_live; [exact H|done|exact Hp|by apply Hdi|tauto|exact E0].
Qed.

Lemma thread_step_dispatching id st st' o : thread_step id st = Some (Ok (st', o)) → is_dispatching_ st' = is_dispatching_ st.
Proof.
  intros E. unfold thread_step in E. destruct (pcs st !! id) as [p|] eqn:Hid; [|done].
  destruct p as [| | |[]| |h|h|h|h| | |[]| | |]; try done; unfold locked, main_loop, main_check, handle, enter, leave, disp_loop, disp_check, disp_wake, disp_end, finish, go in E;
    repeat case_match; simplify_eq; try done; try (match goal with G : get_next_handler _ = _ |- _ => destruct (get_next_frame _ _ _ G) as (? & ? & ->) end; done).
  unfold remove_elapsed_dispatchers, reschedule_availability_handler in *. repeat case_match; simplify_eq; done.
Qed.

Lemma asleep_at m i : at_ asleep m i = at_ main_asleep m i || at_ disp_asleep m i.
Proof. unfold at_. destruct (m !! i) as [p|]; [by destruct p as [| | |[]| | | | | | | |[]| | |]|done]. Qed.

(** At most one thread sleeps: whoever notifies one, notifies all. *)
Lemma asleep_unique st i j : live st → at_ asleep (pcs st) i = true → at_ asleep (pcs st) j = true → i = j.
Proof.
  intros [H1 H2 H3 _ _]. assert (Hm : ∀ i, at_ main_asleep (pcs st) i = true → i = main_dispatcher).
  { intros k Hk. unfold at_ in Hk. destruct (pcs st !! k) as [p|] eqn:E; [|done]. assert (Hkind := sn_kind _ H1 _ _ E). unfold kind in Hkind. destruct (decide _); [done|by destruct p]. }
  assert (Hq : ∀ i j, at_ main_asleep (pcs st) i = true → at_ disp_asleep (pcs st) j = false).
  { intros k l Hk. destruct H2 as [_ Hq]; [|apply Hq]. rewrite <- (Hm _ Hk). revert Hk. apply at_imp. by intros []. }
  rewrite !asleep_at, !orb_true_iff. intros [Hi|Hi] [Hj|Hj].
  - by rewrite (Hm _ Hi), (Hm _ Hj).
  - rewrite (Hq i j) in Hj; done.
  - rewrite (Hq j i) in Hi; done.
  - apply H3; [revert Hi|revert Hj]; apply at_imp; by intros [].
Qed.

Lemma notify_one_awake w st i : live st → wakes w st → at_ asleep (pcs (notify_one w st)) i = false.
Proof.
  intros H Hw. destruct w as [id|]; cbn in *.
  - destruct Hw as (p & Hp & Ha). rewrite at_alter. destruct (decide (i = id)) as [->|Hne].
    + unfold at_. destruct (pcs st !! id) as [q|]; [by destruct q as [| | |[]| | | | | | | |[]| | |]|done].
    + apply not_true_is_false. intros Hi. destruct Hne. eapply asleep_unique; [exact H|exact Hi|by rewrite (at_Some _ _ _ _ Hp)].
  - unfold at_. destruct (pcs st !! i) eqn:E; [by apply (Hw i)|done].
Qed.

Lemma notify_one_at w st P i : (∀ p, P (notified p) = true → P p = true) → at_ P (pcs (notify_one w st)) i = true → at_ P (pcs st) i = true.
Proof.
  intros HP. destruct w as [id|]; [|done]. cbn. rewrite at_alter. destruct (decide (i = id)) as [->|]; [|done]. apply at_imp, HP.
Qed.

Lemma notify_one_not_done w st i : at_ not_done (pcs st) i = true → at_ not_done (pcs (notify_one w st)) i = true.
Proof. intros H. destruct w as [id|]; [|done]. cbn. by rewrite at_alter_same by (by intros []). Qed.

(** A notification, after whatever was queued. *)
Lemma live_notify w hs av n st : live st → wakes w st → live (notify_one w (with_pending n (creating st) (with_handlers hs av st))).
Proof.
  intros H Hw. assert (Hs : sane (with_pending n (creating st) (with_handlers hs av st))) by (by destruct (lv_sane _ H); constructor).
  apply (live_wake st); try done.
  - by apply sane_notify_one.
  - by destruct w.
  - by destruct w.
  - intros P i HP. apply (notify_one_at w (with_pending n (creating st) (with_handlers hs av st))), HP.
  - apply (notify_one_not_done w (with_pending n (creating st) (with_handlers hs av st))).
  - left. intros i. destruct w as [j|]; [exact (notify_one_awake (Some j) st i H Hw)|exact (notify_one_awake None st i H Hw)].
Qed.

Lemma live_spurious id st : live st → live (notify_thread id st).
Proof.
  intros H. apply (live_wake st); try done; [by apply sane_notify_thread, lv_sane| |apply (notify_one_not_done (Some id))|by right].
  intros P i HP. by apply (notify_one_at (Some id)).
Qed.

Lemma live_notify_all st : live st → live (notify_all st).
Proof.
  intros H. apply (live_wake st); try done; [by apply sane_notify_all, lv_sane| | |by right]; cbn.
  - intros P i HP. rewrite at_fmap. by apply at_imp.
  - intros i. by rewrite at_notified_same by (by intros []).
Qed.

Lemma live_pending n hs av st : live st → live (with_pending (S n) (creating st) (with_handlers hs av st)).
Proof.
  intros H. assert (Hs : sane (with_pending (S n) (creating st) (with_handlers hs av st))) by (by destruct (lv_sane _ H); constructor).
  apply (live_wake st); try done. by right.
Qed.

Lemma live_creating c st : live st → live (with_pending (pending_notify st) c st).
Proof. intros [[] ? ? ? ?]. constructor; [constructor|..]; assumption. Qed.

Lemma live_create max_dispatchers_ id c st : live st → pcs st !! id = None → live (create_dispatcher max_dispatchers_ id (with_pending (pending_notify st) c st)).
Proof.
  intros H Hid. pose proof (lv_sane _ H) as [H1 H2 H3 H4 H5 H6]. unfold create_dispatcher. cbn [with_pending is_dispatching_ dispatchers_]. 
  assert (Hat : ∀ P i, P starting = false → at_ P (<[id := starting]> (pcs st)) i = at_ P (pcs st) i).
  { intros P i HP. rewrite at_insert. destruct (decide (i = id)) as [->|]; [|done]. unfold at_. by rewrite Hid, HP. }
  destruct (_ && _); [|by apply live_creating].
  constructor; cbn [with_pcs with_dispatchers with_pending pcs elapse_unactive_dispatchers_ lock_ handlers_ pending_notify].
  - constructor; cbn [with_pcs with_dispatchers with_pending dispatchers_ pcs lock_ running_dispatchers_ elapsed_dispatchers_].
    + apply elem_of_union. by left.
    + rewrite dom_insert_L, H2. apply union_comm_L.
    + intros i p. destruct (decide (i = id)) as [->|]; [rewrite lookup_insert_eq; intros [= <-]; unfold kind; by destruct (decide _)|rewrite lookup_insert_ne by done; apply H3].
    + intros i. by rewrite Hat.
    + intros i. by rewrite Hat.
    + intros i. by rewrite Hat.
  - rewrite Hat by done. intros Hm. destruct (lv_quiet _ H Hm) as [? Hq]. split; [done|]. intros i. by rewrite Hat.
  - intros i j. rewrite !Hat by done. apply (lv_one _ H).
  - intros Hl Hh Hp i. rewrite Hat by done. by apply (lv_sleep _ H).
  - rewrite Hat by done. intros Hm Hh Hp. destruct (lv_someone _ H Hm Hh Hp) as (i & Hne & Hi). exists i. split; [done|]. rewrite at_insert. by destruct (decide _).
Qed.

Lemma step_dispatching max_dispatchers_ g g' : step max_dispatchers_ g g' → is_dispatching_ (app g') = true → is_dispatching_ (app g) = true.
Proof.
  intros S Hd. destruct S; cbn in *; try done; [by rewrite <- (thread_step_dispatching _ _ _ _ H)|by destruct w|by destruct w|].
  unfold create_dispatcher in Hd. cbn in Hd. by destruct (_ && _).
Qed.

Lemma live_step max_dispatchers_ g g' : step max_dispatchers_ g g' → (is_dispatching_ (app g) = true → live (app g)) → is_dispatching_ (app g') = true → live (app g').
Proof.
  intros S HI Hd. specialize (HI (step_dispatching _ _ _ S Hd)). destruct S; cbn [app] in *.
  - eapply thread_step_live; [exact HI| |exact H]. by rewrite <- (thread_step_dispatching _ _ _ _ H).
  - apply (live_goto _ (calling h)); try done. apply (sane_goto _ _ (calling h)); try done; [by apply lv_sane|]. exact (sn_kind _ (lv_sane _ HI) _ _ H).
  - by apply (live_notify w (handlers_ (app g) ++ hs) (availability_handlers_ (app g)) (pending_notify (app g))).
  - by apply (live_pending (pending_notify (app g)) (handlers_ (app g) ++ hs) (availability_handlers_ (app g))).
  - by apply (live_notify w (handlers_ (app g)) (availability_handlers_ (app g)) n).
  - by apply live_spurious.
  - by apply live_notify_all.
  - by apply live_creating.
  - by apply live_create.
  - done.
Qed.

Lemma live_reachable max_dispatchers_ g : rtc (step max_dispatchers_) initial g → is_dispatching_ (app g) = true → live (app g).
Proof.
  revert g. apply (rtc_ind_r (λ g, is_dispatching_ (app g) = true → live (app g))); [|intros g g' _ S H; by eapply live_step]. intros _.
  assert (Hat : ∀ P i, P starting = false → at_ P {[main_dispatcher := starting]} i = false).
  { intros P i HP. unfold at_. destruct (decide (i = main_dispatcher)) as [->|]; [by rewrite lookup_singleton_eq|by rewrite lookup_singleton_ne]. }
  constructor; cbn [initial app start pcs elapse_unactive_dispatchers_ lock_ handlers_ pending_notify].
  - constructor; cbn [initial app start dispatchers_ pcs lock_ running_dispatchers_ elapsed_dispatchers_]; try done.
    + intros i p Hp. apply lookup_singleton_Some in Hp as [<- <-]. done.
    + intros i. by rewrite Hat.
    + intros i. by rewrite Hat, elem_of_empty.
    + intros i. by rewrite Hat, elem_of_empty.
  - by rewrite Hat.
  - intros i j. by rewrite Hat.
  - done.
  - done.
Qed.
