(* ===== verification/DispatcherProgress.v ===== *)
(** * The dispatchers of an application: progress

    Dispatching goes on while handlers are queued: between two handlers that are taken
    the dispatchers make finitely many steps, and they stop only where no handler is
    queued or some of them are in handlers.  When a handler takes too long, the timer
    of its call lets another dispatcher go on, or creates one. *)

From stdpp Require Import base list gmap.
From Stdlib Require Import ZArith Lia Wellfounded Relation_Operators.
From S2P Require Import Prelude Dispatcher DispatcherFacts DispatcherLive.

Import application.

(** ** Some thread can go on *)

Definition can_step (st : t) (id : thread_id) : Prop := ∃ st' o, thread_step id st = Some (Ok (st', o)).

Lemma holder_steps st id : sane st → lock_ st = Some id → can_step st id.
Proof.
  intros H Hl. apply (sn_lock _ H) in Hl. unfold at_ in Hl. destruct (pcs st !! id) as [p|] eqn:Hp; [|done]. unfold can_step, thread_step. rewrite Hp.
  destruct p; try done; unfold main_loop, main_check, handle, disp_loop, disp_check, disp_wake, disp_end, go; repeat case_match; eauto.
Qed.

Lemma finish_steps st id h : sane st → is_dispatching_ st = true → lock_ st = None → pcs st !! id = Some (returned h) → can_step st id.
Proof.
  intros H Hd Hl Hp. unfold can_step, thread_step. rewrite Hp. unfold finish. rewrite Hd, Hl.
  destruct (remove_elapsed_sane (reschedule_availability_handler h (acquire id inner st))) as (st' & -> & _); [| |by do 2 eexists].
  - assert (Ha : sane (acquire id inner st)) by (apply (sane_acquire _ _ (returned h)); try done; unfold kind; by destruct (decide _)).
    unfold reschedule_availability_handler. repeat case_match; try done; by destruct Ha; constructor.
  - unfold reschedule_availability_handler. by repeat case_match.
Qed.

Lemma awake_steps st id p : sane st → is_dispatching_ st = true → lock_ st = None → pcs st !! id = Some p → asleep p = false → is_done p = false → (∀ h, p ≠ calling h) → can_step st id.
Proof.
  intros H Hd Hl Hp Ha Hn Hc. assert (Hh : holding p = false) by (apply not_true_is_false; intros Hh; rewrite (sane_holds _ _ _ H Hp Hh) in Hl; done).
  destruct p as [| | |[]| |h|h|h|h| | |[]| | |]; try done; try (by destruct (Hc h)); try (by eapply finish_steps); unfold can_step, thread_step; rewrite Hp;
    unfold locked, enter, leave, go; rewrite ?Hl, ?Hd; eauto.
Qed.

Lemma calling_dec p : (∃ h, p = calling h) ∨ ∀ h, p ≠ calling h.
Proof. destruct p; try (right; congruence). left. by eexists. Qed.

(** Of the threads that are neither busy nor done, one can go on: it may have to be
    woken. *)
Lemma idle_steps st id : sane st → is_dispatching_ st = true → at_ idle_pc (pcs st) id = true → ∃ i, can_step (notify_all st) i.
Proof.
  intros H Hd Hi. assert (Hs := sane_notify_all _ H). destruct (lock_ st) as [i|] eqn:Hl; [exists i; by apply holder_steps|]. exists id. unfold at_ in Hi. destruct (pcs st !! id) as [p|] eqn:Hp; [|done].
  apply (awake_steps _ _ (notified p)); try done; [cbn; by rewrite lookup_fmap, Hp|by destruct p|by destruct p|by destruct p].
Qed.

Lemma stuck_calling st : live st → is_dispatching_ st = true → handlers_ st ≠ [] → pending_notify st = 0%nat → (∀ id, ¬ can_step st id) → ∃ id h, pcs st !! id = Some (calling h).
Proof.
  intros H Hd Hh Hp Hs. assert (H1 := lv_sane _ H). destruct (lock_ st) as [i|] eqn:Hl; [by destruct (Hs i); apply holder_steps|].
  assert (Hcase : ∀ id p, pcs st !! id = Some p → asleep p = true ∨ is_done p = true ∨ ∃ h, p = calling h).
  { intros id p Hid. destruct (asleep p) eqn:Ea; [by left|]. destruct (is_done p) eqn:En; [right; by left|]. right. right.
    destruct (calling_dec p) as [|Hc]; [done|]. destruct (Hs id). by apply (awake_steps st id p). }
  assert (is_Some (pcs st !! main_dispatcher)) as [p Hm] by (apply elem_of_dom; rewrite <- (sn_dom _ H1); apply (sn_main _ H1)).
  assert (Hk := sn_kind _ H1 _ _ Hm). rewrite kind_main in Hk. destruct (Hcase _ _ Hm) as [Ha|[Hn|[h ->]]]; [|by destruct p|by exists main_dispatcher, h].
  destruct (lv_someone _ H) as (i & Hne & Hi); [rewrite (at_Some _ _ _ _ Hm); by destruct p|done|done|]. unfold at_ in Hi. destruct (pcs st !! i) as [q|] eqn:Hq; [|done].
  assert (Hkq := sn_kind _ H1 _ _ Hq). rewrite kind_disp in Hkq by done. destruct (Hcase _ _ Hq) as [Hqa|[Hqn|[h ->]]]; [|by destruct q|by exists i, h].
  assert (Hz := lv_sleep _ H Hl Hh Hp i). rewrite (at_Some _ _ _ _ Hq) in Hz. by destruct q as [| | |[]| | | | | | | |[]| | |].
Qed.

(** ** A measure

    Lexicographically: what the threads have to do outside of the loops, the threads
    that are not done, the handlers that are queued, and the way of each thread through
    its loop, which depends on whether it is active and whether handlers are queued. *)

Definition sumw (f : thread_id → pc → nat) (m : gmap thread_id pc) : nat := map_fold (λ i p n, (f i p + n)%nat) 0%nat m.

Lemma sumw_new f m id p : m !! id = None → sumw f (<[id := p]> m) = (f id p + sumw f m)%nat.
Proof. intros H. unfold sumw. apply (map_fold_insert_L (λ i p n, (f i p + n)%nat)); [intros; lia|done]. Qed.

Lemma sumw_insert f m id p p' : m !! id = Some p → (sumw f (<[id := p']> m) + f id p = sumw f m + f id p')%nat.
Proof.
  intros H. rewrite <- (insert_delete_id m id p H) at 2. rewrite <- insert_delete_eq, !sumw_new by apply lookup_delete_eq. lia.
Qed.

Lemma sumw_fmap f g m k : (∀ i p, f i (g p) ≤ f i p + k)%nat → (sumw f (g <$> m) ≤ sumw f m + k * size m)%nat.
Proof.
  intros H. induction m as [|i p m Hi IH] using map_ind; [rewrite fmap_empty; unfold sumw; rewrite map_fold_empty; lia|]. rewrite fmap_insert, !sumw_new, map_size_insert_None by (rewrite ?lookup_fmap, ?Hi; done).
  specialize (H i p). lia.
Qed.

Lemma sumw_fmap_same (f : thread_id → pc → nat) g m : (∀ i p, f i (g p) = f i p) → sumw f (g <$> m) = sumw f m.
Proof.
  intros H. induction m as [|i p m Hi IH] using map_ind; [rewrite fmap_empty; unfold sumw; rewrite map_fold_empty; lia|]. rewrite fmap_insert, !sumw_new by (rewrite ?lookup_fmap, ?Hi; done). by rewrite H, IH.
Qed.

Lemma sumw_ext f g m : (∀ i p, f i p = g i p) → sumw f m = sumw g m.
Proof. intros H. induction m as [|i p m Hi IH] using map_ind; [done|]. by rewrite !sumw_new, H, IH by done. Qed.

Lemma sumw_filter f (P : thread_id * pc → Prop) `{∀ x, Decision (P x)} m : (sumw f (filter P m) ≤ sumw f m)%nat.
Proof.
  induction m as [|i p m Hi IH] using map_ind; [rewrite map_filter_empty; lia|]. rewrite sumw_new by done.
  destruct (decide (P (i, p))) as [Hp|Hp].
  - rewrite map_filter_insert_True by done. rewrite sumw_new; [lia|]. apply map_lookup_filter_None. by left.
  - rewrite map_filter_insert_False by done. rewrite delete_id by done. lia.
Qed.

Definition wa (_ : thread_id) (p : pc) : nat := match p with entering _ => 3 | leaving _ => 2 | returned _ | starting => 1 | _ => 0 end.
Definition wb (_ : thread_id) (p : pc) : nat := if is_done p then 0 else 1.

(** [k] is more than the notification of all threads can add. *)
Definition wd (k : nat) (active : thread_id → bool) (queued : bool) (id : thread_id) (p : pc) : nat :=
  match p with
  | main_waiting true => 3
  | main_checking => 2
  | main_top => if active id && queued then 1 else 4 + k
  | disp_waiting true => 12
  | disp_checking => 11
  | disp_woken => if active id && negb queued then 15 else 10
  | disp_top => if active id then if queued then 9 else 13 else 8
  | disp_exit => 7
  | inner => if decide (id = main_dispatcher) then if active id && queued then 0 else 5 + k else if active id then if queued then 8 else 14 else 9
  | _ => 0
  end.

Definition is_queued (st : t) : bool := negb (bool_decide (handlers_ st = [])).
Definition way (st : t) : nat := sumw (wd (12 * size (pcs st)) (λ id, is_active_dispatcher id st) (is_queued st)) (pcs st).

Definition measure (st : t) : nat * (nat * (nat * nat)) := (sumw wa (pcs st), (sumw wb (pcs st), (length (handlers_ st), way st))).

Definition less : relation (nat * (nat * (nat * nat))) := slexprod _ _ lt (slexprod _ _ lt (slexprod _ _ lt lt)).

Lemma less_wf : well_founded less.
Proof. repeat apply wf_slexprod; apply lt_wf. Qed.

Lemma less_intro st st' : (sumw wa (pcs st') < sumw wa (pcs st)
  ∨ sumw wa (pcs st') = sumw wa (pcs st) ∧ (sumw wb (pcs st') < sumw wb (pcs st)
  ∨ sumw wb (pcs st') = sumw wb (pcs st) ∧ (length (handlers_ st') < length (handlers_ st)
  ∨ length (handlers_ st') = length (handlers_ st) ∧ way st' < way st)))%nat → less (measure st') (measure st).
Proof.
  unfold measure, less. intros [H|[-> [H|[-> [H|[-> H]]]]]]; [by left|right; by left|right; right; by left|do 3 right; exact H].
Qed.

(** Other dispatchers are told to elapse only while the main dispatcher waits. *)
Definition eager (st : t) : Prop := elapse_unactive_dispatchers_ st = true → at_ main_sleepy (pcs st) main_dispatcher = true.

Lemma eager_move st st' id p p' : eager st → pcs st !! id = Some p → elapse_unactive_dispatchers_ st' = elapse_unactive_dispatchers_ st →
  (main_sleepy p = true → main_sleepy p' = true) → (∀ i, at_ main_sleepy (pcs st') i = if decide (i = id) then main_sleepy p' else at_ main_sleepy (pcs st) i) → eager st'.
Proof.
  intros H Hp He Hs Hat E. rewrite He in E. specialize (H E). rewrite Hat. destruct (decide _) as [<-|]; [|done]. apply Hs. by rewrite <- H, (at_Some _ _ _ _ Hp).
Qed.

Lemma sleepy_insert m id p i : at_ main_sleepy (<[id := p]> m) i = if decide (i = id) then main_sleepy p else at_ main_sleepy m i.
Proof. apply at_insert. Qed.

Lemma sleepy_insert_notified m id p i : at_ main_sleepy (<[id := p]> (notified <$> m)) i = if decide (i = id) then main_sleepy p else at_ main_sleepy m i.
Proof. rewrite at_insert. destruct (decide _); [done|]. apply at_notified_same. by intros []. Qed.

Lemma eager_finish st id h st' : sane st → is_dispatching_ st = true → lock_ st = None → eager st → pcs st !! id = Some (returned h) →
  remove_elapsed_dispatchers (reschedule_availability_handler h (acquire id inner st)) = Some (Ok st') → eager st'.
Proof.
  intros H Hd Hl Hea Hp E. set (st1 := reschedule_availability_handler h (acquire id inner st)) in *.
  assert (Hs : sane st1 ∧ pcs st1 = <[id := inner]> (pcs st) ∧ is_dispatching_ st1 = true ∧ elapse_unactive_dispatchers_ st1 = elapse_unactive_dispatchers_ st).
  { assert (Ha : sane (acquire id inner st)) by (apply (sane_acquire _ _ (returned h)); try done; unfold kind; by destruct (decide _)).
    unfold st1, reschedule_availability_handler. repeat case_match; split_and!; try done; by destruct Ha; constructor. }
  destruct Hs as (Hs & Hpc & Hd1 & He). destruct (remove_elapsed_sane st1 Hs Hd1) as (st2 & E2 & _ & Hat & _ & _ & He2 & _). rewrite E in E2. injection E2 as <-.
  apply (eager_move st _ id (returned h) inner); try done; [congruence|]. intros i. rewrite Hat, (at_ext _ main_sleepy), Hpc by (by intros []). apply at_insert.
Qed.

Lemma eager_step id st st' o : sane st → is_dispatching_ st = true → eager st → thread_step id st = Some (Ok (st', o)) → eager st'.
Proof.
  intros H Hd He E. unfold thread_step in E. destruct (pcs st !! id) as [p|] eqn:Hp; [|done]. assert (Hk := sn_kind _ H _ _ Hp).
  assert (Hm : disp_pc p = false → id = main_dispatcher) by (unfold kind in Hk; destruct (decide (id = main_dispatcher)); [done|congruence]).
  destruct p as [| | |[]| |h|h|h|h| | |[]| | |]; try done; unfold locked, main_loop, main_check, handle, enter, leave, disp_loop, disp_check, disp_wake, disp_end, finish, go in E;
    rewrite ?Hd in E; repeat case_match; simplify_eq; try done;
    try (match goal with G : get_next_handler _ = _ |- _ => destruct (get_next_frame _ _ _ G) as (? & ? & ->) end);
    try (eapply (eager_move st _ _ _ _ He Hp); [done| |intros ?; cbn [pcs goto acquire release elapse with_handlers with_pcs with_elapse with_dispatchers notify_all]; first [apply sleepy_insert|apply sleepy_insert_notified]]; done).
  - rewrite (Hm eq_refl). intros _. cbn. by rewrite at_insert, decide_True.
  - by eapply eager_finish.
Qed.

Lemma eager_reachable max_dispatchers_ g : rtc (step max_dispatchers_) initial g → is_dispatching_ (app g) = true → live (app g) ∧ eager (app g).
Proof.
  intros Hr Hd. split; [by eapply live_reachable|]. revert g Hr Hd. apply (rtc_ind_r (λ g, is_dispatching_ (app g) = true → eager (app g))); [done|].
  intros g g' Hr S IH Hd'. assert (Hd : is_dispatching_ (app g) = true) by (by eapply step_dispatching). specialize (IH Hd).
  assert (H := lv_sane _ (live_reachable _ _ Hr Hd)). destruct S; cbn [app] in *; try done.
  - by eapply eager_step.
  - apply (eager_move (app g) _ id (calling h) (leaving h)); try done. intros i. apply at_insert.
  - intros E. destruct w; [cbn; rewrite at_alter_same by (by intros [])|]; by apply IH.
  - intros E. destruct w; [cbn; rewrite at_alter_same by (by intros [])|]; by apply IH.
  - intros E. cbn. rewrite at_alter_same by (by intros []). by apply IH.
  - intros E. cbn. rewrite at_notified_same by (by intros []). by apply IH.
  - intros E. unfold create_dispatcher in *. destruct (_ && _); [|by apply IH]. cbn. rewrite at_insert. destruct (decide _) as [<-|]; [|by apply IH].
    exfalso. specialize (IH E). unfold at_ in IH. rewrite H1 in IH. done.
Qed.

(** ** Every step that takes no handler lowers the measure *)

Lemma less_outside st st' id p p' : pcs st !! id = Some p → pcs st' = <[id := p']> (pcs st) → (wa id p' < wa id p)%nat → less (measure st') (measure st).
Proof. intros Hp Hpc Hw. apply less_intro. left. rewrite Hpc. pose proof (sumw_insert wa _ _ _ p' Hp). lia. Qed.

Lemma less_done st st' m id p : pcs st' = <[id := done_]> m → m !! id = Some p → sumw wa m = sumw wa (pcs st) → sumw wb m = sumw wb (pcs st) →
  wa id p = 0%nat → is_done p = false → less (measure st') (measure st).
Proof.
  intros Hpc Hp Ea Eb Ha Hd. apply less_intro. right. rewrite Hpc. pose proof (sumw_insert wa _ _ _ done_ Hp). pose proof (sumw_insert wb _ _ _ done_ Hp).
  unfold wb in *. rewrite Hd in *. cbn in *. split; [lia|]. left. lia.
Qed.

Lemma active_same st st' id : is_dispatching_ st' = is_dispatching_ st → dispatchers_ st' = dispatchers_ st → running_dispatchers_ st' = running_dispatchers_ st → elapsed_dispatchers_ st' = elapsed_dispatchers_ st →
  is_active_dispatcher id st' = is_active_dispatcher id st.
Proof. intros E1 E2 E3 E4. unfold is_active_dispatcher, idle. by rewrite E1, E2, E3, E4. Qed.

(** A thread goes on in its loop. *)
Lemma less_way st st' id p p' : pcs st !! id = Some p → pcs st' = <[id := p']> (pcs st) → handlers_ st' = handlers_ st →
  is_dispatching_ st' = is_dispatching_ st → dispatchers_ st' = dispatchers_ st → running_dispatchers_ st' = running_dispatchers_ st → elapsed_dispatchers_ st' = elapsed_dispatchers_ st →
  wa id p' = wa id p → wb id p' = wb id p →
  (wd (12 * size (pcs st)) (λ i, is_active_dispatcher i st) (is_queued st) id p' < wd (12 * size (pcs st)) (λ i, is_active_dispatcher i st) (is_queued st) id p)%nat →
  less (measure st') (measure st).
Proof.
  intros Hp Hpc Hh E1 E2 E3 E4 Ha Hb Hw. apply less_intro. right. rewrite Hpc, Hh. split; [pose proof (sumw_insert wa _ _ _ p' Hp); lia|].
  right. split; [pose proof (sumw_insert wb _ _ _ p' Hp); lia|]. right. split; [done|]. unfold way, is_queued. rewrite Hpc, Hh, map_size_insert_Some by (by eexists).
  rewrite (sumw_ext _ (wd (12 * size (pcs st)) (λ i, is_active_dispatcher i st) (is_queued st))).
  - pose proof (sumw_insert (wd (12 * size (pcs st)) (λ i, is_active_dispatcher i st) (is_queued st)) _ _ _ p' Hp). unfold is_queued in *. lia.
  - intros i q. unfold wd, is_queued. by rewrite (active_same _ _ i E1 E2 E3 E4).
Qed.

(** The main dispatcher is about to wait and wakes the others. *)
Lemma less_notify st : pcs st !! main_dispatcher = Some main_top → is_active_dispatcher main_dispatcher st && is_queued st = false →
  less (measure (goto main_dispatcher main_checking (notify_all (with_elapse true st)))) (measure st).
Proof.
  intros Hp Hc. set (w := wd (12 * size (pcs st)) (λ i, is_active_dispatcher i st) (is_queued st)).
  assert (Hp' : (notified <$> pcs st) !! main_dispatcher = Some main_top) by (by rewrite lookup_fmap, Hp).
  pose proof (sumw_insert wa _ _ _ main_checking Hp') as Ia. pose proof (sumw_insert wb _ _ _ main_checking Hp') as Ib. pose proof (sumw_insert w _ _ _ main_checking Hp') as Iw.
  rewrite (sumw_fmap_same wa) in Ia by (by intros ? []). rewrite (sumw_fmap_same wb) in Ib by (by intros ? []).
  assert (Iz : (sumw w (notified <$> pcs st) ≤ sumw w (pcs st) + 12 * size (pcs st))%nat) by (apply sumw_fmap; intros i [| | |[]| | | | | | | |[]| | |]; cbn; lia).
  cbn in Ia, Ib. unfold w in Iw at 2 4. cbn [wd] in Iw. rewrite Hc in Iw.
  apply less_intro. cbn [pcs handlers_ goto notify_all with_pcs with_elapse]. right. split; [lia|]. right. split; [lia|]. right. split; [done|].
  unfold way. cbn [pcs handlers_ goto notify_all with_pcs with_elapse]. rewrite map_size_insert_Some by (by eexists). rewrite map_size_fmap. fold w. change (sumw w (<[main_dispatcher:=main_checking]> (notified <$> pcs st)) < sumw w (pcs st))%nat. lia.
Qed.

Lemma next_none hs : ∀ av hs' av', next_handler hs av = (None, hs', av') → hs' = [].
Proof. induction hs as [|h hs IH]; intros av hs' av' E; cbn in E; [congruence|]. destruct (check_handler h av) as [[] av1]; [done|by eapply IH]. Qed.

Lemma remove_elapsed_wa st st' : remove_elapsed_dispatchers st = Some (Ok st') → (sumw wa (pcs st') ≤ sumw wa (pcs st))%nat.
Proof.
  unfold remove_elapsed_dispatchers. destruct (is_dispatching_ st); [|by intros [= <-]]. destruct (decide _); [|done]. destruct (forallb _ _); [|done]. intros [= <-]. apply sumw_filter.
Qed.

Lemma less_finish st id h st' : pcs st !! id = Some (returned h) → remove_elapsed_dispatchers (reschedule_availability_handler h (acquire id inner st)) = Some (Ok st') → less (measure st') (measure st).
Proof.
  intros Hp E. apply remove_elapsed_wa in E. apply less_intro. left. pose proof (sumw_insert wa _ _ _ inner Hp) as Hi. cbn in Hi.
  assert (pcs (reschedule_availability_handler h (acquire id inner st)) = <[id := inner]> (pcs st)) as Hpc by (unfold reschedule_availability_handler; by repeat case_match).
  rewrite Hpc in E. lia.
Qed.

Lemma less_handle st id st' : is_dispatching_ st = true → pcs st !! id = Some inner → handle id st = Some (Ok (st', None)) → less (measure st') (measure st).
Proof.
  intros Hd Hp E. unfold handle, go in E. rewrite Hd in E. cbn [andb] in E. set (top := if decide (id = main_dispatcher) then main_top else disp_top) in *.
  assert (Ha : wa id top = wa id inner) by (unfold top; by destruct (decide _)). assert (Hb : wb id top = wb id inner) by (unfold top; by destruct (decide _)).
  destruct (is_active_dispatcher id st) eqn:Eac.
  - unfold get_next_handler in E. destruct (next_handler _ _) as [[[h|] hs] av] eqn:En; [done|]. injection E as <-. apply next_none in En as ->.
    destruct (handlers_ st) as [|x l] eqn:Eh.
    + eapply (less_way st _ id inner top); try done. unfold wd, is_queued, top. rewrite Eac, Eh. cbn. destruct (decide _); lia.
    + apply less_intro. cbn [goto with_handlers with_pcs pcs handlers_]. pose proof (sumw_insert wa _ _ _ top Hp). pose proof (sumw_insert wb _ _ _ top Hp). right. split; [lia|]. right. split; [lia|]. left.
      rewrite Eh. cbn. lia.
  - injection E as <-. eapply (less_way st _ id inner top); try done. unfold wd, top. rewrite Eac. cbn. destruct (decide _); lia.
Qed.

Lemma less_main st id st' p : is_dispatching_ st = true → pcs st !! id = Some p → id = main_dispatcher → p = main_top ∨ p = main_checking → thread_step id st = Some (Ok (st', None)) →
  less (measure st') (measure st).
Proof.
  intros Hd Hp -> Hc E. unfold thread_step in E. rewrite Hp in E. destruct Hc as [-> | ->].
  - unfold main_loop, go in E. rewrite Hd in E. destruct (_ || _) eqn:Eo; injection E as <-.
    + apply less_notify; [done|]. unfold is_queued. destruct (bool_decide _); cbn in Eo; [by rewrite andb_false_r|]. apply negb_true_iff in Eo. by rewrite Eo.
    + apply orb_false_iff in Eo as [Eq Ea]. apply negb_false_iff in Ea. eapply (less_way st _ _ main_top inner); try done. unfold wd, is_queued. rewrite Eq, Ea, decide_True by done. cbn. lia.
  - unfold main_check, go in E. rewrite Hd in E. cbn [negb orb] in E. destruct (_ && _) eqn:Eo; injection E as <-; eapply (less_way st _ _ main_checking); try done; [|cbn; lia].
    apply andb_true_iff in Eo as [Eq Ea]. unfold wd, is_queued. rewrite Eq, Ea. cbn. lia.
Qed.

Lemma less_disp st id st' p : live st → eager st → is_dispatching_ st = true → pcs st !! id = Some p → p = disp_top ∨ p = disp_checking ∨ p = disp_woken ∨ p = disp_exit → thread_step id st = Some (Ok (st', None)) →
  less (measure st') (measure st).
Proof.
  intros H He Hd Hp Hc E. assert (H1 := lv_sane _ H). assert (Hne : id ≠ main_dispatcher) by (intros ->; assert (Hk := sn_kind _ H1 _ _ Hp); rewrite kind_main in Hk; by destruct Hc as [-> |[-> |[-> | ->]]]).
  unfold thread_step in E. rewrite Hp in E. destruct Hc as [-> |[-> |[-> | ->]]].
  - unfold disp_loop, go in E. rewrite Hd in E. destruct (is_active_dispatcher id st) eqn:Ea; [destruct (_ && _) eqn:Eh|]; injection E as <-; eapply (less_way st _ _ disp_top); try done; unfold wd, is_queued; rewrite Ea.
    + cbn in Eh. rewrite Eh. cbn. lia.
    + cbn in Eh. rewrite Eh, decide_False by done. cbn. lia.
    + lia.
  - unfold disp_check, go in E. rewrite Hd in E. destruct (_ || _) eqn:Eo; injection E as <-; eapply (less_way st _ _ disp_checking); try done; [|cbn; lia].
    unfold wd, is_queued. destruct (is_active_dispatcher id st) eqn:Ea; [|cbn; lia]. destruct (bool_decide (handlers_ st = [])) eqn:Eh; [|cbn; lia]. cbn in Eo. specialize (He Eo).
    exfalso. rewrite (active_others main_sleepy st id main_dispatcher H1 Hd Ea) in He; [done|by intros []|done].
  - unfold disp_wake, go in E. rewrite Hd in E. destruct (_ && _) eqn:Eo; injection E as <-; [by apply (less_done st _ (pcs st) id disp_woken)|].
    eapply (less_way st _ _ disp_woken); try done. unfold wd, is_queued. destruct (is_active_dispatcher id st); destruct (bool_decide (handlers_ st = [])); cbn in *; try done; lia.
  - unfold disp_end, go in E. rewrite Hd in E. injection E as <-. apply (less_done st _ (notified <$> pcs st) id disp_exit); try done; [by rewrite lookup_fmap, Hp|apply sumw_fmap_same; by intros ? []|apply sumw_fmap_same; by intros ? []].
Qed.

Lemma quiet_less st id st' : live st → eager st → is_dispatching_ st = true → thread_step id st = Some (Ok (st', None)) → less (measure st') (measure st).
Proof.
  intros H He Hd E. assert (H1 := lv_sane _ H). pose proof E as E0. unfold thread_step in E. destruct (pcs st !! id) as [p|] eqn:Hp; [|done]. assert (Hk := sn_kind _ H1 _ _ Hp).
  assert (Hm : disp_pc p = false → id = main_dispatcher) by (unfold kind in Hk; destruct (decide (id = main_dispatcher)); [done|congruence]).
  destruct p as [| | |[]| |h|h|h|h| | |[]| | |]; try done;
    first [eapply less_main; [exact Hd|exact Hp|by apply Hm|tauto|exact E0] | eapply less_disp; [exact H|exact He|exact Hd|exact Hp|tauto|exact E0] | by eapply less_handle | idtac];
    unfold locked, enter, leave, go in E; rewrite ?Hd in E; try (destruct (lock_ st) eqn:Hl; [done|]).
  - injection E as <-. eapply (less_outside st _ id starting); [done|done|]. destruct (decide _); cbn; lia.
  - injection E as <-. eapply (less_way st _ id (main_waiting true)); try done. cbn. lia.
  - injection E as <-. eapply (less_outside st _ id (entering h)); [done|done|]. cbn. lia.
  - injection E as <-. eapply (less_outside st _ id (leaving h)); [done|done|]. cbn. lia.
  - unfold finish, go in E. rewrite Hd in E. destruct (lock_ st) eqn:Hl; [done|]. destruct (remove_elapsed_dispatchers _) as [[st1| | |]|] eqn:Er; try done. injection E as <-. by eapply less_finish.
  - injection E as <-. eapply (less_way st _ id (disp_waiting true)); try done. cbn. lia.
Qed.

(** A step of a dispatcher that takes no handler. *)
Definition quiet (st st' : t) : Prop := ∃ id, thread_step id st = Some (Ok (st', None)).

Lemma thread_step_pending id st st' o : thread_step id st = Some (Ok (st', o)) → pending_notify st' = pending_notify st.
Proof.
  intros E. unfold thread_step in E. destruct (pcs st !! id) as [p|] eqn:Hid; [|done].
  destruct p as [| | |[]| |h|h|h|h| | |[]| | |]; try done; unfold locked, main_loop, main_check, handle, enter, leave, disp_loop, disp_check, disp_wake, disp_end, finish, go in E;
    repeat case_match; simplify_eq; try done; try (match goal with G : get_next_handler _ = _ |- _ => destruct (get_next_frame _ _ _ G) as (? & ? & ->) end; done).
  unfold remove_elapsed_dispatchers, reschedule_availability_handler in *. repeat case_match; simplify_eq; done.
Qed.

Definition going (st : t) : Prop := live st ∧ eager st ∧ is_dispatching_ st = true ∧ pending_notify st = 0%nat.

Lemma quiet_going st st' : going st → quiet st st' → going st'.
Proof.
  intros (H & He & Hd & Hp) [id E]. split_and!; [by eapply thread_step_live|by eapply eager_step; [apply lv_sane| | |]|by rewrite (thread_step_dispatching _ _ _ _ E)|by rewrite (thread_step_pending _ _ _ _ E)].
Qed.

Lemma quiet_rtc_going st st' : going st → rtc quiet st st' → going st'.
Proof. intros H Hq. induction Hq as [|x y z Q _ IH]; [done|]. apply IH. by eapply quiet_going. Qed.

Lemma quiet_acc st : going st → Acc (flip quiet) st.
Proof.
  remember (measure st) as m eqn:Em. revert st Em. induction m as [m IH] using (well_founded_ind less_wf). intros st -> H. constructor. intros st' Q. pose proof Q as [id E].
  assert (H' := quiet_going _ _ H Q). destruct H as (H & He & Hd & _). eapply IH; [|reflexivity|exact H']. by eapply quiet_less.
Qed.

(** ** Claims *)

(** (C7) While the application dispatches and notifications are delivered, the dispatchers
    never deadlock and never loop: they make finitely many steps without taking a
    handler from the queue, whatever the order of their steps, and where none of them
    can go on, no handler is queued or some dispatcher is in a handler. *)
Theorem dispatch_progress max_dispatchers_ g (Hr : rtc (step max_dispatchers_) initial g) (Hd : is_dispatching_ (app g) = true) (Hp : pending_notify (app g) = 0%nat) :
  Acc (flip quiet) (app g) ∧
  ∀ st, rtc quiet (app g) st → (∀ id, ¬ can_step st id) → handlers_ st = [] ∨ ∃ id h, pcs st !! id = Some (calling h).
Proof.
  destruct (eager_reachable _ _ Hr Hd) as [Hl He]. assert (Hg : going (app g)) by done. split; [by apply quiet_acc|]. intros st Hq Hn.
  destruct (quiet_rtc_going _ _ Hg Hq) as (H & _ & Hd' & Hp').
  destruct (decide (handlers_ st = [])); [by left|right]. by apply stuck_calling.
Qed.

(** When the call of a handler takes longer than allowed, its timer unblocks the
    queue: if a dispatcher is there that could take over, some dispatcher can go on
    once all are notified; otherwise, if another dispatcher is allowed, it is created
    and can go on or waits for one that can. *)
Theorem timer_unblocks max_dispatchers_ g id h id' (Hr : rtc (step max_dispatchers_) initial g) (Hd : is_dispatching_ (app g) = true)
  (Hc : pcs (app g) !! id = Some (calling h)) (Hnew : pcs (app g) !! id' = None) :
  if has_active_dispatcher (app g) then ∃ i, can_step (notify_all (app g)) i
  else (size (dispatchers_ (app g)) < max_dispatchers_)%nat → ∃ i, can_step (create_dispatcher max_dispatchers_ id' (app g)) i.
Proof.
  assert (H := live_reachable _ _ Hr Hd). assert (H1 := lv_sane _ H). destruct (has_active_dispatcher (app g)) eqn:Ea.
  - apply (has_active_spec _ H1 Hd) in Ea as [d Hi]. by eapply idle_steps.
  - intros Hmax. assert (H2 : live (create_dispatcher max_dispatchers_ id' (app g))) by (by destruct (app g); apply (live_create max_dispatchers_ id' _ _ H)).
    unfold create_dispatcher in *. rewrite Hd, bool_decide_true in * by done. cbn [andb] in *. destruct (lock_ (app g)) as [i|] eqn:Hl; [exists i; apply holder_steps; [by apply lv_sane|done]|].
    exists id'. apply (awake_steps _ _ starting); try done; [by apply lv_sane|cbn; apply lookup_insert_eq].
Qed.

Lemma dispatch_progress_witness : Acc (flip quiet) (app example_state) ∧
  ∀ st, rtc quiet (app example_state) st → (∀ id, ¬ can_step st id) → handlers_ st = [] ∨ ∃ id h, pcs st !! id = Some (calling h).
Proof. apply (dispatch_progress 2); [apply example_reachable|reflexivity|reflexivity]. Defined.

Lemma timer_unblocks_witness : ∃ i, can_step (create_dispatcher 2 1 (app example_state)) i.
Proof. apply (timer_unblocks 2 example_state main_dispatcher handler1 1%nat); [apply example_reachable|reflexivity|reflexivity|reflexivity|vm_compute; lia]. Defined.

(** *** A wakeup that is missing *)

(** Another dispatcher takes a handler while the main dispatcher returns from one. *)
Definition handler4 : sync_handler := mk_handler 4 STATE 0 0.
Definition sleepy_run : list action := [push [handler4]; expire 0; create 1; run 1; run 1; run 1; ret 0; run 0; run 0; run 0; run 0; run 0; run 1].
Definition sleepy_state : sys := Eval vm_compute in default initial (acts 2 sleepy_run example_state).

(** A dispatcher that has taken a handler is marked as running only in
    [invoke_handler], which notifies nobody.  In between, the main dispatcher takes it
    for one that is about to handle what is queued, and goes to sleep.  Then it is the
    only one that could go on, handlers are queued, and nothing happens until the timer
    expires or the handler of the other dispatcher returns. *)
Lemma lost_wakeup : rtc (step 2) initial sleepy_state ∧ handlers_ (app sleepy_state) = [handler2; handler3]
  ∧ pcs (app sleepy_state) !! main_dispatcher = Some (main_waiting false) ∧ is_active_dispatcher main_dispatcher (app sleepy_state) = true ∧ ∀ id, ¬ can_step (app sleepy_state) id.
Proof.
  split_and!; [|reflexivity|reflexivity|vm_compute; reflexivity|].
  - etrans; [apply example_reachable|]. apply (acts_reach _ sleepy_run). vm_compute. reflexivity.
  - intros id (st & o & E). assert (Hp : pcs (app sleepy_state) = {[0%nat := main_waiting false; 1%nat := calling handler4]}) by (vm_compute; reflexivity).
    unfold thread_step in E. rewrite Hp in E. destruct (decide (id = 0%nat)) as [->|]; [done|]. destruct (decide (id = 1%nat)) as [->|]; [done|].
    rewrite lookup_insert_ne, lookup_singleton_ne in E by done. done.
Qed.
