(* ===== verification/Application.v ===== *)
(** * Handlers and subscriptions of an application ([runtime/src/application_impl.cpp])

    What an application knows about the services it uses: which are available, which
    handlers it registered for availability, messages and states of subscriptions, and
    what it subscribed to.  Handlers are functions of the user, named by numbers; a
    handler that is to be called is queued for the dispatchers ([queue]) and one of them
    is notified ([notify]).  What the routing manager answers is an argument, calls of
    it are outputs. *)

From stdpp Require Import base list gmap sorting.
From Stdlib Require Import ZArith Lia.
From S2P Require Import Prelude Maps Dispatcher.

Open Scope Z_scope.

Module application_impl.

Definition ANY_SERVICE : Z := 0xFFFF.
Definition ANY_INSTANCE : Z := 0xFFFF.
Definition ANY_EVENTGROUP : Z := 0xFFFF.
Definition ANY_METHOD : Z := 0xFFFF.
Definition ANY_EVENT : Z := 0xFFFF.
Definition ANY_MAJOR : Z := 0xFF.
Definition ANY_MINOR : Z := 0xFFFFFFFF.
Definition DEFAULT_MAJOR : Z := 0x00.
Definition DEFAULT_MINOR : Z := 0x00000000.
Definition MT_NOTIFICATION : Z := 0x02.

Inductive availability_state_e : Set := AS_UNAVAILABLE | AS_OFFERED | AS_AVAILABLE | AS_UNKNOWN.
Inductive subscription_state_e : Set := SUBSCRIPTION_ACKNOWLEDGED | SUBSCRIPTION_NOT_ACKNOWLEDGED | IS_SUBSCRIBING.
Inductive handler_registration_type_e : Set := HRT_REPLACE | HRT_PREPEND | HRT_APPEND | HRT_UNKNOWN.

#[export] Instance availability_state_eq_dec : EqDecision availability_state_e.
Proof. solve_decision. Defined.
#[export] Instance subscription_state_eq_dec : EqDecision subscription_state_e.
Proof. solve_decision. Defined.

Abbreviation handler := nat.

(** ** State *)

Abbreviation availability_state_t := (gmap Z (gmap Z (gmap Z (gmap Z availability_state_e)))).
Abbreviation available_instance_t := (gmap Z (gmap Z (Z * availability_state_e))).
Abbreviation availability_major_minor_t := (gmap Z (gmap Z (handler * availability_state_t))).
Abbreviation available_t := (gmap Z (gmap Z (gmap Z Z))).

Record t : Type := mk {
  available_ : gmap Z available_instance_t;
  availability_ : gmap Z (gmap Z availability_major_minor_t);
  members_ : gmap Z (list handler);
  subscription_ : gmap Z (gmap Z (gmap Z (option handler * option handler)));
  subscriptions_ : gmap Z (gmap Z (gmap Z (gmap Z bool)));
  subscription_status_handlers_ : gmap Z (gmap Z (gmap Z (gmap Z (handler * bool))));
  subscriptions_state_ : gmap Z (gmap Z (gmap Z (gmap Z subscription_state_e)));
  handler_ : option handler;
  offered_services_handler_ : option handler
}.

Definition create : t := mk ∅ ∅ ∅ ∅ ∅ ∅ ∅ None None.

Definition with_available x st := mk x (availability_ st) (members_ st) (subscription_ st) (subscriptions_ st) (subscription_status_handlers_ st) (subscriptions_state_ st) (handler_ st) (offered_services_handler_ st).
Definition with_availability x st := mk (available_ st) x (members_ st) (subscription_ st) (subscriptions_ st) (subscription_status_handlers_ st) (subscriptions_state_ st) (handler_ st) (offered_services_handler_ st).
Definition with_members x st := mk (available_ st) (availability_ st) x (subscription_ st) (subscriptions_ st) (subscription_status_handlers_ st) (subscriptions_state_ st) (handler_ st) (offered_services_handler_ st).
Definition with_subscription x st := mk (available_ st) (availability_ st) (members_ st) x (subscriptions_ st) (subscription_status_handlers_ st) (subscriptions_state_ st) (handler_ st) (offered_services_handler_ st).
Definition with_subscriptions x st := mk (available_ st) (availability_ st) (members_ st) (subscription_ st) x (subscription_status_handlers_ st) (subscriptions_state_ st) (handler_ st) (offered_services_handler_ st).
Definition with_status_handlers x st := mk (available_ st) (availability_ st) (members_ st) (subscription_ st) (subscriptions_ st) x (subscriptions_state_ st) (handler_ st) (offered_services_handler_ st).
Definition with_state x st := mk (available_ st) (availability_ st) (members_ st) (subscription_ st) (subscriptions_ st) (subscription_status_handlers_ st) x (handler_ st) (offered_services_handler_ st).
Definition with_handler x y st := mk (available_ st) (availability_ st) (members_ st) (subscription_ st) (subscriptions_ st) (subscription_status_handlers_ st) (subscriptions_state_ st) x y.

(** ** Outputs *)

Record message : Type := mk_message { get_service : Z; get_instance : Z; get_method : Z; get_message_type : Z; get_payload : bytes; is_initial : bool }.

(** What a queued handler calls. *)
Inductive call : Type :=
| availability_call (h : handler) (s i : Z) (state : availability_state_e)
| message_call (h : handler) (m : message)
| status_call (h : handler) (s i eg ev error : Z)
| state_call (h : handler) (state : Z)
| services_call (h : handler) (services : list (Z * Z)).

Inductive output : Type :=
| queue (c : call)
| notify
| accepted (b : bool)
| ask (h : handler) (client : Z) (subscribed : bool)
| ask_async (h : handler) (client : Z) (subscribed : bool)
| routing_subscribe (s i eg major ev : Z)
| routing_unsubscribe (s i eg ev : Z)
| routing_request_service (s i major minor : Z)
| routing_release_service (s i : Z).

(** The entry of the dispatchers for a call. *)
Definition sync (id : nat) (c : call) : application.sync_handler :=
  match c with
  | availability_call _ s i _ => application.mk_handler id application.AVAILABILITY s i
  | message_call _ m => application.mk_handler id application.MESSAGE (get_service m) (get_instance m)
  | status_call _ s i _ _ _ => application.mk_handler id application.SUBSCRIPTION s i
  | state_call _ _ => application.mk_handler id application.STATE ANY_SERVICE ANY_INSTANCE
  | services_call _ _ => application.mk_handler id application.OFFERED_SERVICES_INFO ANY_SERVICE ANY_INSTANCE
  end.

(** ** Available services *)

Definition minor_matches (minor found : Z) : bool := (minor <=? found) || (minor =? ANY_MINOR) || (minor =? DEFAULT_MINOR).

Definition check_major_minor (major minor : Z) (versions : gmap Z (Z * availability_state_e)) : availability_state_e :=
  match versions !! major with
  | Some (found, state) => if minor_matches minor found then state else AS_UNKNOWN
  | None =>
      if (major =? DEFAULT_MAJOR) || (major =? ANY_MAJOR) then
        match List.find (λ x, minor_matches minor x.2.1) (sorted versions) with Some x => x.2.2 | None => AS_UNKNOWN end
      else AS_UNKNOWN
  end.

(** The loops end with the first state that is known. *)
Fixpoint first_known {A} (f : A → availability_state_e) (l : list A) : availability_state_e :=
  match l with
  | [] => AS_UNKNOWN
  | x :: l => match f x with AS_UNKNOWN => first_known f l | state => state end
  end.

Definition check_instances (i major minor : Z) (instances : available_instance_t) : availability_state_e :=
  match instances !! i with
  | Some versions => check_major_minor major minor versions
  | None => if i =? ANY_INSTANCE then first_known (λ x, check_major_minor major minor x.2) (sorted instances) else AS_UNKNOWN
  end.

Definition is_available_unlocked (s i major minor : Z) (st : t) : availability_state_e :=
  match available_ st !! s with
  | Some instances => check_instances i major minor instances
  | None => if s =? ANY_SERVICE then first_known (λ x, check_instances i major minor x.2) (sorted (available_ st)) else AS_UNKNOWN
  end.

Definition is_available (s i major minor : Z) (st : t) : bool := bool_decide (is_available_unlocked s i major minor st = AS_AVAILABLE).

(** [m[k]] as a statement: the key is there afterwards. *)
Definition touch {A} `{Empty A} (k : Z) (m : gmap Z A) : gmap Z A := <[k := default ∅ (m !! k)]> m.

(** [are_available_unlocked], in its four passes over the services found. *)
Definition find_services (s : Z) (st : t) (av : available_t) : available_t :=
  if s =? ANY_SERVICE then foldr (λ x av, touch x.1 av) av (sorted (available_ st))
  else if has s (available_ st) then touch s av else av.

Definition find_instances (i : Z) (st : t) (av : available_t) : available_t :=
  map_imap (λ s x, Some (match available_ st !! s with
    | Some found => if i =? ANY_INSTANCE then foldr (λ y x, touch y.1 x) x (sorted found) else if has i found then touch i x else x
    | None => x
    end)) av.

Definition find_majors (major : Z) (st : t) (av : available_t) : available_t :=
  map_imap (λ s x, Some (match available_ st !! s with
    | Some found =>
        foldl (λ x y,
          if (major =? ANY_MAJOR) || (major =? DEFAULT_MAJOR)
          then foldl (λ x z, set2 y.1 z.1 (default 0 (sub y.1 x !! z.1)) x) x (sorted y.2)
          else if has major y.2 then set2 y.1 major (default 0 (sub y.1 x !! major)) x else x) x (sorted found)
    | None => x
    end)) av.

Definition usable (minor : Z) (v : Z * availability_state_e) : bool := minor_matches minor v.1 && bool_decide (v.2 = AS_AVAILABLE).

Definition find_minors (minor : Z) (st : t) (av : available_t) : available_t :=
  map_imap (λ s x,
    match available_ st !! s with
    | Some found =>
        let '(x, found_minor) :=
          foldl (λ acc y, foldl (λ '(x, b) z, if usable minor z.2 then (set2 y.1 z.1 z.2.1 x, true) else (x, b)) acc (sorted y.2)) (x, false) (sorted found) in
        if found_minor then Some x else None
    | None => None
    end) av.

Definition are_available_unlocked (s i major minor : Z) (st : t) (av : available_t) : availability_state_e * available_t :=
  let av := find_minors minor st (find_majors major st (find_instances i st (find_services s st av))) in
  if decide (av = ∅) then (AS_UNAVAILABLE, set3 s i major minor av) else (AS_AVAILABLE, av).

(** ** Availability handlers *)

Definition get_availability_state (states : availability_state_t) (s i major minor : Z) : availability_state_e := default AS_UNKNOWN (get4 s i major minor states).
Definition set_availability_state (states : availability_state_t) (s i major minor : Z) (state : availability_state_e) : availability_state_t := set4 s i major minor state states.

Definition register_availability_handler_unlocked (s i : Z) (h : handler) (major minor : Z) (st : t) : t * list output :=
  let its_state := is_available_unlocked s i major minor st in
  let st' := with_availability (set4 s i major minor (h, set_availability_state ∅ s i major minor its_state) (availability_ st)) st in
  let calls :=
    if negb (s =? ANY_SERVICE) && negb (i =? ANY_INSTANCE) then [availability_call h s i its_state]
    else mjoin ((λ x, (λ y, availability_call h x.1 y.1 AS_AVAILABLE) <$> sorted x.2) <$> sorted (are_available_unlocked s i major minor st ∅).2) in
  (st', (queue <$> calls) ++ [notify]).

(** The handler of exactly this service, or of any version of it, is told once. *)
Definition invoke_availability_handler (s i major minor : Z) (st : t) : t * list output :=
  match get2 s i (availability_ st) with
  | None => (st, [])
  | Some majors =>
      match (if has major majors then Some major else if has ANY_MAJOR majors then Some ANY_MAJOR else None) with
      | None => (st, [])
      | Some ma =>
          let minors := sub ma majors in
          match (if has minor minors then Some minor else if has ANY_MINOR minors then Some ANY_MINOR else None) with
          | None => (st, [])
          | Some mi =>
              match minors !! mi with
              | None => (st, [])
              | Some (h, states) =>
                  let its_state := is_available_unlocked s i major minor st in
                  if decide (its_state = AS_UNKNOWN) then (st, [])
                  else if decide (get_availability_state states s i major minor = its_state) then (st, [])
                  else (with_availability (set4 s i ma mi (h, set_availability_state states s i major minor its_state) (availability_ st)) st,
                        [queue (availability_call h s i its_state); notify])
              end
          end
      end
  end.

Definition unregister_availability_handler (s i major minor : Z) (st : t) : t :=
  match get4 s i major minor (availability_ st) with
  | Some _ => with_availability (erase4 s i major minor (availability_ st)) st
  | None => st
  end.

(** [for (std::int32_t mi = static_cast<std::int32_t>(_minor); mi >= 0; mi--)] *)
Definition minors_down (minor : Z) : list Z := if minor <? 2 ^ 31 then reverse (seqZ 0 (minor + 1)) else [].

Definition tell (s i major minor : Z) (state : availability_state_e) (mi : Z) (acc : gmap Z (handler * availability_state_t) * list handler)
  : gmap Z (handler * availability_state_t) * list handler :=
  let '(minors, hs) := acc in
  match minors !! mi with
  | Some (h, states) =>
      if decide (get_availability_state states s i major minor = state) then (minors, hs)
      else (<[mi := (h, set_availability_state states s i major minor state)]> minors, hs ++ [h])
  | None => (minors, hs)
  end.

Definition tell_major (s i major minor : Z) (state : availability_state_e) (ma : Z) (acc : availability_major_minor_t * list handler) : availability_major_minor_t * list handler :=
  let '(majors, hs) := acc in
  match majors !! ma with
  | Some minors =>
      let '(minors, hs) := foldl (λ acc mi, tell s i major minor state mi acc) (minors, hs) (minors_down minor ++ [ANY_MINOR]) in (<[ma := minors]> majors, hs)
  | None => (majors, hs)
  end.

Definition find_matching_handler (s i major minor : Z) (state : availability_state_e) (acc : availability_major_minor_t * list handler) :=
  tell_major s i major minor state ANY_MAJOR (tell_major s i major minor state major acc).

(** The handlers registered for a service and an instance, each of them or any. *)
Definition tell_at (s i major minor : Z) (state : availability_state_e) (acc : gmap Z (gmap Z availability_major_minor_t) * list handler) (k : Z * Z) :=
  let '(m, hs) := acc in
  match m !! k.1 with
  | Some instances =>
      match instances !! k.2 with
      | Some majors => let '(majors, hs) := find_matching_handler s i major minor state (majors, hs) in (<[k.1 := <[k.2 := majors]> instances]> m, hs)
      | None => (m, hs)
      end
  | None => (m, hs)
  end.

Definition remember (s i major minor : Z) (state : availability_state_e) (av : gmap Z available_instance_t) : gmap Z available_instance_t :=
  match state with
  | AS_UNAVAILABLE =>
      match av !! s with
      | Some instances =>
          match instances !! i ≫= λ versions, versions !! major with
          | Some (found, _) => if minor =? found then <[s := delete i instances]> av else av
          | None => av
          end
      | None => av
      end
  | _ => set3 s i major (minor, state) av
  end.

(** Nothing of an unavailable service has been received or acknowledged. *)
Definition forget_events (s i : Z) (st : t) : t :=
  let clear {A} (v : A) (m : gmap Z (gmap Z (gmap Z (gmap Z A)))) := alter (alter (fmap (fmap (const v))) i) s m in
  with_state (clear SUBSCRIPTION_NOT_ACKNOWLEDGED (subscriptions_state_ st)) (with_subscriptions (clear false (subscriptions_ st)) st).

Definition on_availability (s i : Z) (state : availability_state_e) (major minor : Z) (st : t) : t * list output :=
  if decide (state = is_available_unlocked s i major minor st) then (st, [])
  else
    let '(m, its_handlers) := foldl (tell_at s i major minor state) (availability_ st, []) [(s, i); (s, ANY_INSTANCE); (ANY_SERVICE, i); (ANY_SERVICE, ANY_INSTANCE)] in
    let st := with_availability m (with_available (remember s i major minor state (available_ st)) st) in
    let st := match state with AS_UNAVAILABLE => forget_events s i st | _ => st end in
    (st, ((λ h, queue (availability_call h s i state)) <$> its_handlers) ++ (if decide (its_handlers = []) then [] else [notify])).

(** ** Message handlers *)

Definition to_members_key (s i m : Z) : Z := Z.lor (Z.lor s (Z.shiftl i 16)) (Z.shiftl m 32).

Definition queries (s i m : Z) : list Z :=
  [to_members_key s i m; to_members_key s i ANY_METHOD; to_members_key s ANY_INSTANCE m; to_members_key s ANY_INSTANCE ANY_METHOD;
   to_members_key ANY_SERVICE i m; to_members_key ANY_SERVICE i ANY_METHOD; to_members_key ANY_SERVICE ANY_INSTANCE m; to_members_key ANY_SERVICE ANY_INSTANCE ANY_METHOD].

Fixpoint first_member (l : list Z) (m : gmap Z (list handler)) : list handler :=
  match l with
  | [] => []
  | q :: l => match m !! q with Some hs => hs | None => first_member l m end
  end.

Definition find_handlers (s i m : Z) (st : t) : list handler := first_member (queries s i m) (members_ st).

Definition register_message_handler_ext (s i m : Z) (h : handler) (type : handler_registration_type_e) (st : t) : t :=
  let key := to_members_key s i m in
  let hs := default [] (members_ st !! key) in
  match type with
  | HRT_REPLACE => with_members (<[key := [h]]> (members_ st)) st
  | HRT_APPEND => with_members (<[key := hs ++ [h]]> (members_ st)) st
  | HRT_PREPEND => with_members (<[key := h :: hs]> (members_ st)) st
  | HRT_UNKNOWN => st
  end.

Definition register_message_handler (s i m : Z) (h : handler) (st : t) : t := register_message_handler_ext s i m h HRT_REPLACE st.
Definition unregister_message_handler (s i m : Z) (st : t) : t := with_members (delete (to_members_key s i m) (members_ st)) st.

(** ** Subscriptions *)

(** What the routing manager knows of an event. *)
Record event_info : Type := mk_event { eventgroups : gset Z; is_field : bool; is_set : bool; payload : bytes }.

(** The first eventgroup of the event that is subscribed with any event. *)
Definition subscribed_group (groups : gmap Z bool) (e : event_info) : option Z := List.find (λ eg, has eg groups) (merge_sort Z.le (elements (eventgroups e))).

(** Whether a notification is wanted; that it has been received is remembered. *)
Definition check_for_active_subscription (find_event : Z → Z → Z → option event_info) (s i ev : Z) (st : t) : bool * t :=
  match get2 s i (subscriptions_ st) with
  | None => (false, st)
  | Some events =>
      match events !! ev with
      | Some groups =>
          if decide (groups = ∅) then (false, st)
          else (true, with_subscriptions (alter (alter (alter (fmap (const true)) ev) i) s (subscriptions_ st)) st)
      | None =>
          match events !! ANY_EVENT, find_event s i ev with
          | Some groups, Some e =>
              match subscribed_group groups e with
              | Some eg => (true, with_subscriptions (set4 s i ANY_EVENT eg true (subscriptions_ st)) st)
              | None => (false, st)
              end
          | _, _ => (false, st)
          end
      end
  end.

Definition on_message (find_event : Z → Z → Z → option event_info) (m : message) (st : t) : t * list output :=
  let '(active, st) :=
    if get_message_type m =? MT_NOTIFICATION then check_for_active_subscription find_event (get_service m) (get_instance m) (get_method m) st else (true, st) in
  if active then
    match find_handlers (get_service m) (get_instance m) (get_method m) st with
    | [] => (st, [])
    | hs => (st, ((λ h, queue (message_call h m)) <$> hs) ++ [notify])
    end
  else (st, []).

(** States of subscriptions are told to the handlers of the service, instance,
    eventgroup and event, each of them or any; errors only to those that ask for it. *)
Definition status_event (error ev : Z) (events : gmap Z (handler * bool)) : list handler :=
  match events !! ev with Some (h, selective) => if (error =? 0) || selective then [h] else [] | None => [] end.
Definition status_group (error eg ev : Z) (groups : gmap Z (gmap Z (handler * bool))) : list handler :=
  match groups !! eg with Some events => status_event error ev events ++ status_event error ANY_EVENT events | None => [] end.
Definition status_instance (error i eg ev : Z) (instances : gmap Z (gmap Z (gmap Z (handler * bool)))) : list handler :=
  match instances !! i with Some groups => status_group error eg ev groups ++ status_group error ANY_EVENTGROUP ev groups | None => [] end.
Definition status_service (error s i eg ev : Z) (services : gmap Z (gmap Z (gmap Z (gmap Z (handler * bool))))) : list handler :=
  match services !! s with Some instances => status_instance error i eg ev instances ++ status_instance error ANY_INSTANCE eg ev instances | None => [] end.

Definition deliver_subscription_state (s i eg ev error : Z) (st : t) : list output :=
  let hs := status_service error s i eg ev (subscription_status_handlers_ st) ++ status_service error ANY_SERVICE i eg ev (subscription_status_handlers_ st) in
  ((λ h, queue (status_call h s i eg ev error)) <$> hs) ++ (if decide (hs = []) then [] else [notify]).

Definition register_subscription_status_handler (s i eg ev : Z) (h : option handler) (selective : bool) (st : t) : t :=
  match h with
  | Some h => with_status_handlers (set4 s i eg ev (h, selective) (subscription_status_handlers_ st)) st
  | None => st
  end.

Definition unregister_subscription_status_handler (s i eg ev : Z) (st : t) : t :=
  match get3 s i eg (subscription_status_handlers_ st) with
  | Some _ => with_status_handlers (erase4 s i eg ev (subscription_status_handlers_ st)) st
  | None => st
  end.

(** [find(k)], or else the key for any. *)
Definition either {A} (k any : Z) (m : gmap Z A) : option Z := if has k m then Some k else if has any m then Some any else None.

Definition on_subscription_status (s i eg ev error : Z) (st : t) : t * list output :=
  let state := if error =? 0 then SUBSCRIPTION_ACKNOWLEDGED else SUBSCRIPTION_NOT_ACKNOWLEDGED in
  let m := subscriptions_state_ st in
  let found :=
    s' ← either s ANY_SERVICE m;
    i' ← either i ANY_INSTANCE (sub s' m);
    eg' ← either eg ANY_EVENTGROUP (sub i' (sub s' m));
    Some (s', i', eg') in
  match found with
  | None => (st, [])
  | Some (s', i', eg') =>
      let events := sub eg' (sub i' (sub s' m)) in
      let m1 := match either ev ANY_EVENT events with Some ev' => set4 s' i' eg' ev' state m | None => m end in
      let m2 := if has ANY_EVENT events then set4 s' i' eg' ANY_EVENT state m1 else m1 in
      match either ev ANY_EVENT events with
      | Some _ => (with_state m2 st, deliver_subscription_state s i eg ev error st)
      | None => (st, [])
      end
  end.

(** The cached values are sent back if initial values have been received before. *)
Definition check_send_back_cached_event (s i ev eg : Z) (st : t) : bool * bool * t :=
  match get4 s i ev eg (subscriptions_ st) with
  | Some received => (received && negb (ev =? ANY_EVENT), received && (ev =? ANY_EVENT), st)
  | None => (false, false, with_subscriptions (set4 s i ev eg false (subscriptions_ st)) st)
  end.

(** The answer says whether to subscribe at the routing manager. *)
Definition check_subscription_state (s i eg ev : Z) (st : t) : bool * t * list output :=
  match get4 s i eg ev (subscriptions_state_ st) with
  | Some SUBSCRIPTION_ACKNOWLEDGED => (false, st, deliver_subscription_state s i eg ev 0 st)
  | Some IS_SUBSCRIBING => (false, st, [])
  | _ => (true, with_state (set4 s i eg ev IS_SUBSCRIBING (subscriptions_state_ st)) st, [])
  end.

Definition cached (s i ev : Z) (e : event_info) : option message :=
  if is_field e && is_set e then Some (mk_message s i ev MT_NOTIFICATION (payload e) true) else None.

Definition send_back_cached_event (find_event : Z → Z → Z → option event_info) (s i ev : Z) (st : t) : t * list output :=
  match find_event s i ev ≫= cached s i ev with Some m => on_message find_event m st | None => (st, []) end.

(** [find_events] names the events of an eventgroup, in the order of the routing
    manager. *)
Definition send_back_cached_eventgroup (find_event : Z → Z → Z → option event_info) (events : list (Z * event_info)) (s i : Z) (st : t) : t * list output :=
  foldl (λ '(st, out) x, match cached s i x.1 x.2 with
    | Some m => let '(st, out') := on_message find_event m st in (st, out ++ out')
    | None => (st, out)
    end) (st, []) events.

Definition subscribe (find_event : Z → Z → Z → option event_info) (find_events : Z → Z → Z → list (Z * event_info)) (s i eg major ev : Z) (st : t) : t * list output :=
  let '(send_back_cached, send_back_cached_group, st) := check_send_back_cached_event s i ev eg st in
  let '(st, out1) :=
    if send_back_cached then send_back_cached_event find_event s i ev st
    else if send_back_cached_group then send_back_cached_eventgroup find_event (find_events s i eg) s i st
    else (st, []) in
  let '(should_subscribe, st, out2) := check_subscription_state s i eg ev st in
  (st, out1 ++ out2 ++ (if should_subscribe then [routing_subscribe s i eg major ev] else [])).

Definition remove_subscription (s i eg ev : Z) (st : t) : t :=
  let state :=
    match subscriptions_state_ st !! s with
    | None => subscriptions_state_ st
    | Some instances =>
        let instances :=
          match instances !! i with
          | None => instances
          | Some groups =>
              let groups :=
                if ev =? ANY_EVENT then delete eg groups
                else match groups !! eg with Some events => prune eg (delete ev events) groups | None => groups end in
              prune i groups instances
          end in
        prune s instances (subscriptions_state_ st)
    end in
  let st := with_state state st in
  match get4 s i ev eg (subscriptions_ st) with
  | Some _ => with_subscriptions (erase4 s i ev eg (subscriptions_ st)) st
  | None => st
  end.

(** [unsubscribe], from one event or from all of an eventgroup. *)
Definition unsubscribe (s i eg ev : Z) (st : t) : t * list output := (remove_subscription s i eg ev st, [routing_unsubscribe s i eg ev]).

Definition request_service (s i major minor : Z) (st : t) : t * list output :=
  let '(st, out) := invoke_availability_handler s i major minor st in (st, out ++ [routing_request_service s i major minor]).

Definition release_service (s i : Z) (st : t) : t * list output :=
  let m := subscriptions_state_ st in
  (with_state (match m !! s with Some instances => prune s (delete i instances) m | None => m end) st, [routing_release_service s i]).

(** ** Subscribers of offered services, states *)

Definition register_subscription_handler (s i eg : Z) (h : handler) (st : t) : t := with_subscription (set3 s i eg (Some h, None) (subscription_ st)) st.
Definition register_async_subscription_handler (s i eg : Z) (h : handler) (st : t) : t := with_subscription (set3 s i eg (None, Some h) (subscription_ st)) st.
Definition unregister_subscription_handler (s i eg : Z) (st : t) : t := with_subscription (alter (alter (delete eg) i) s (subscription_ st)) st.

(** The answer of a handler becomes that of the application; without a handler
    everybody is accepted. *)
Definition on_subscription (s i eg client : Z) (subscribed : bool) (st : t) : list output :=
  match get3 s i eg (subscription_ st) with
  | Some (Some h, _) => [ask h client subscribed]
  | Some (None, Some h) => [ask_async h client subscribed]
  | Some (None, None) => []
  | None => [accepted true]
  end.

Definition register_state_handler (h : handler) (st : t) : t := with_handler (Some h) (offered_services_handler_ st) st.
Definition unregister_state_handler (st : t) : t := with_handler None (offered_services_handler_ st) st.
Definition on_state (state : Z) (st : t) : list output := match handler_ st with Some h => [queue (state_call h state); notify] | None => [] end.
Definition on_offered_services_info (services : list (Z * Z)) (st : t) : list output :=
  match offered_services_handler_ st with Some h => [queue (services_call h services); notify] | None => [] end.
End application_impl.
