(* ===== verification/ApplicationFacts.v ===== *)
(** * Handlers of an application: what they are told about services

    Runs of an application, and that availability handlers are
    told exactly the changes of the services they are meant for. *)

From stdpp Require Import base list gmap sorting.
From Stdlib Require Import ZArith Lia.
From S2P Require Import Prelude Maps Application.

Import application_impl.
Open Scope Z_scope.

(** ** Telling handlers

    [on_availability] visits places of the table of handlers; at each of them a handler
    is told unless it has been told already. *)

Abbreviation place := (Z * Z * Z * Z)%type.
Definition at_place {A} (k : place) (m : gmap Z (gmap Z (gmap Z (gmap Z A)))) : option A := let '(a, b, c, d) := k in get4 a b c d m.

Definition tell_place (s i major minor : Z) (state : availability_state_e) (acc : gmap Z (gmap Z availability_major_minor_t) * list handler) (k : place) :=
  let '(m, hs) := acc in let '(a, b, c, d) := k in
  match get4 a b c d m with
  | Some (h, states) =>
      if decide (get_availability_state states s i major minor = state) then (m, hs)
      else (set4 a b c d (h, set_availability_state states s i major minor state) m, hs ++ [h])
  | None => (m, hs)
  end.

Definition versions (major minor : Z) : list (Z * Z) := ((major,.) <$> minors_down minor ++ [ANY_MINOR]) ++ ((ANY_MAJOR,.) <$> minors_down minor ++ [ANY_MINOR]).
Definition keys (s i : Z) : list (Z * Z) := [(s, i); (s, ANY_INSTANCE); (ANY_SERVICE, i); (ANY_SERVICE, ANY_INSTANCE)].
Definition places (s i major minor : Z) : list place := mjoin ((λ k : Z * Z, (λ v : Z * Z, (k.1, k.2, v.1, v.2)) <$> versions major minor) <$> keys s i).

Section places.
Context (s i major minor : Z) (state : availability_state_e).

(** In a table whose path to the place is there, a visit changes the last map. *)
Lemma tell_minor a b c d (minors : gmap Z (handler * availability_state_t)) majors instances m hs :
  tell_place s i major minor state (<[a := <[b := <[c := minors]> majors]> instances]> m, hs) (a, b, c, d)
  = let '(minors', hs') := tell s i major minor state d (minors, hs) in (<[a := <[b := <[c := minors']> majors]> instances]> m, hs').
Proof.
  unfold tell_place, tell, get4, set4, set3, set2, sub. rewrite lookup_insert_eq. cbn. rewrite lookup_insert_eq. cbn. rewrite lookup_insert_eq. cbn.
  destruct (minors !! d) as [[h states]|]; [|done]. destruct (decide _); [done|]. by rewrite !insert_insert_eq.
Qed.

Lemma tell_minors a b c ds : ∀ (minors : gmap Z (handler * availability_state_t)) majors instances m hs,
  foldl (tell_place s i major minor state) (<[a := <[b := <[c := minors]> majors]> instances]> m, hs) ((λ d, (a, b, c, d)) <$> ds)
  = let '(minors', hs') := foldl (λ acc mi, tell s i major minor state mi acc) (minors, hs) ds in (<[a := <[b := <[c := minors']> majors]> instances]> m, hs').
Proof.
  induction ds as [|d ds IH]; intros minors majors instances m hs; [done|]. cbn [fmap list_fmap foldl]. rewrite tell_minor. destruct (tell s i major minor state d (minors, hs)) as [minors' hs'].
  by rewrite IH.
Qed.

Lemma tell_nothing m hs l : Forall (λ k, at_place k m = None) l → foldl (tell_place s i major minor state) (m, hs) l = (m, hs).
Proof.
  induction 1 as [|[[[a b] c] d] l Hk _ IH]; [done|]. cbn [foldl]. unfold at_place in Hk. unfold tell_place at 2. rewrite Hk. exact IH.
Qed.

Lemma tell_majors a b c majors instances m hs :
  foldl (tell_place s i major minor state) (<[a := <[b := majors]> instances]> m, hs) ((λ d, (a, b, c, d)) <$> minors_down minor ++ [ANY_MINOR])
  = let '(majors', hs') := tell_major s i major minor state c (majors, hs) in (<[a := <[b := majors']> instances]> m, hs').
Proof.
  unfold tell_major. destruct (majors !! c) as [minors|] eqn:E.
  - rewrite <- (insert_id majors c minors E) at 1. rewrite tell_minors. by destruct (foldl _ _ _).
  - apply tell_nothing, Forall_fmap, Forall_true. intros d. unfold at_place, get4. cbn. rewrite lookup_insert_eq. cbn. rewrite lookup_insert_eq. cbn. by rewrite E.
Qed.

Lemma tell_key acc k : foldl (tell_place s i major minor state) acc ((λ v : Z * Z, (k.1, k.2, v.1, v.2)) <$> versions major minor) = tell_at s i major minor state acc k.
Proof.
  destruct acc as [m hs], k as [a b]. unfold tell_at. cbn [fst snd]. destruct (m !! a) as [instances|] eqn:Ea; [destruct (instances !! b) as [majors|] eqn:Eb|].
  - unfold versions. rewrite fmap_app, <- !list_fmap_compose, foldl_app. unfold compose. cbn [fst snd].
    rewrite <- (insert_id m a instances Ea) at 1. rewrite <- (insert_id instances b majors Eb) at 1. rewrite tell_majors. unfold find_matching_handler.
    destruct (tell_major s i major minor state major (majors, hs)) as [majors1 hs1]. rewrite tell_majors. by destruct (tell_major _ _ _ _ _ _ _).
  - apply tell_nothing, Forall_fmap, Forall_true. intros v. cbn. unfold get4. rewrite Ea. cbn. by rewrite Eb.
  - apply tell_nothing, Forall_fmap, Forall_true. intros v. cbn. unfold get4. by rewrite Ea.
Qed.

Lemma tell_places acc : foldl (tell_at s i major minor state) acc (keys s i) = foldl (tell_place s i major minor state) acc (places s i major minor).
Proof.
  unfold places. generalize (keys s i). intros l. revert acc. induction l as [|k l IH]; intros acc; [done|]. cbn [foldl fmap list_fmap mjoin list_join]. rewrite foldl_app, tell_key. apply IH.
Qed.
End places.

(** *** A handler that is registered at one place *)

Definition only (h : handler) (k : place) (m : gmap Z (gmap Z availability_major_minor_t)) : Prop := ∀ k' e, at_place k' m = Some e → e.1 = h → k' = k.

Definition now_told (s i major minor : Z) (state : availability_state_e) (states : availability_state_t) : availability_state_t :=
  if decide (get_availability_state states s i major minor = state) then states else set_availability_state states s i major minor state.

Lemma told_state s i major minor state states : get_availability_state (now_told s i major minor state states) s i major minor = state.
Proof. unfold now_told. destruct (decide _); [done|]. unfold get_availability_state, set_availability_state. by rewrite get4_set4, decide_True. Qed.

Lemma told_other s i major minor state states s' i' major' minor' : (s', i') ≠ (s, i) →
  get_availability_state (now_told s i major minor state states) s' i' major' minor' = get_availability_state states s' i' major' minor'.
Proof. intros H. unfold now_told. destruct (decide _); [done|]. unfold get_availability_state, set_availability_state. by rewrite get4_set4, decide_False by (intros (-> & -> & _); done). Qed.

Lemma at_set a b c d k (v : handler * availability_state_t) m : at_place k (set4 a b c d v m) = if decide (k = (a, b, c, d)) then Some v else at_place k m.
Proof.
  destruct k as [[[a' b'] c'] d']. cbn. rewrite get4_set4. destruct (decide (a' = a ∧ _)) as [Y|N], (decide ((a', b', c', d') = (a, b, c, d))) as [E|E]; try done.
  - destruct E. by destruct Y as (-> & -> & -> & ->).
  - destruct N. by injection E as -> -> -> ->.
Qed.

Lemma tell_place_spec s i major minor state h k m hs states k' m' hs' : only h k m → at_place k m = Some (h, states) →
  tell_place s i major minor state (m, hs) k' = (m', hs') →
  only h k m' ∧ at_place k m' = Some (h, if decide (k' = k) then now_told s i major minor state states else states)
  ∧ filter (.= h) hs' = filter (.= h) hs ++ (if decide (k' = k ∧ get_availability_state states s i major minor ≠ state) then [h] else []).
Proof.
  intros Ho Hk E. destruct k' as [[[a b] c] d]. unfold tell_place in E. change (get4 a b c d m) with (at_place (a, b, c, d) m) in E. destruct (at_place (a, b, c, d) m) as [[h' states']|] eqn:Eg.
  2: { injection E as <- <-. assert ((a, b, c, d) ≠ k) by congruence. rewrite !decide_False by tauto. by rewrite app_nil_r. }
  destruct (decide ((a, b, c, d) = k)) as [<-|Hne].
  - rewrite Hk in Eg. injection Eg as <- <-. unfold now_told. destruct (decide (get_availability_state states s i major minor = state)) as [Hs|Hs]; injection E as <- <-.
    + rewrite decide_False by tauto. by rewrite app_nil_r.
    + rewrite decide_True by tauto. split_and!.
      * intros k e Ee He. rewrite at_set in Ee. destruct (decide _); [done|by eapply Ho].
      * rewrite at_set. by rewrite decide_True.
      * rewrite filter_app, filter_cons, decide_True by done. done.
  - rewrite (decide_False (P := (a, b, c, d) = k ∧ _)) by tauto. rewrite app_nil_r. assert (Hh : h' ≠ h) by (intros ->; apply Hne; by eapply Ho).
    destruct (decide _); injection E as <- <-; [done|]. split_and!.
    + intros k' e Ee He. rewrite at_set in Ee. destruct (decide _); [injection Ee as <-; done|by eapply Ho].
    + rewrite at_set, decide_False by done. done.
    + rewrite filter_app, filter_cons, decide_False by done. by rewrite filter_nil, app_nil_r.
Qed.

Lemma tell_fold_spec s i major minor state h k ks : ∀ m hs states m' hs', only h k m → at_place k m = Some (h, states) →
  foldl (tell_place s i major minor state) (m, hs) ks = (m', hs') →
  only h k m' ∧ at_place k m' = Some (h, if decide (k ∈ ks) then now_told s i major minor state states else states)
  ∧ filter (.= h) hs' = filter (.= h) hs ++ (if decide (k ∈ ks ∧ get_availability_state states s i major minor ≠ state) then [h] else []).
Proof.
  induction ks as [|k' ks IH]; intros m hs states m' hs' Ho Hk E; cbn [foldl] in E.
  { injection E as <- <-. rewrite !decide_False by (rewrite elem_of_nil; tauto). by rewrite app_nil_r. }
  destruct (tell_place s i major minor state (m, hs) k') as [m1 hs1] eqn:E1. destruct (tell_place_spec _ _ _ _ _ _ _ _ _ _ _ _ _ Ho Hk E1) as (Ho1 & Hk1 & Hf1).
  destruct (IH _ _ _ _ _ Ho1 Hk1 E) as (Ho2 & Hk2 & Hf2). split; [done|]. rewrite Hk2, Hf2, Hf1. clear E E1 IH Hk2 Hf2 Hf1 Hk1. destruct (decide (k' = k)) as [->|Hne].
  - rewrite (decide_True (P := k ∈ k :: ks)) by left. split.
    + f_equal. f_equal. destruct (decide (k ∈ ks)); [|done]. unfold now_told at 1. by rewrite decide_True by apply told_state.
    + rewrite (decide_False (P := k ∈ ks ∧ _)) by (rewrite told_state; tauto). rewrite app_nil_r. f_equal.
      destruct (decide (k = k ∧ _)), (decide (k ∈ k :: ks ∧ _)) as [[]|Hn]; try done; [destruct Hn; split; [left|tauto]|tauto].
  - rewrite (decide_False (P := k' = k ∧ _)) by tauto. rewrite app_nil_r. assert (Hin : k ∈ k' :: ks ↔ k ∈ ks) by (rewrite elem_of_cons; intuition congruence).
    destruct (decide (k ∈ ks)), (decide (k ∈ k' :: ks)); try tauto; (split; [done|]); f_equal; destruct (decide (k ∈ ks ∧ _)), (decide (k ∈ k' :: ks ∧ _)); tauto.
Qed.

(** ** Runs of the application *)

Inductive op : Type :=
| op_register (s i : Z) (h : handler) (major minor : Z)
| op_unregister (s i major minor : Z)
| op_available (s i : Z) (state : availability_state_e) (major minor : Z)
| op_request (s i major minor : Z)
| op_release (s i : Z)
| op_message (m : message)
| op_register_message (s i m : Z) (h : handler) (type : handler_registration_type_e)
| op_unregister_message (s i m : Z)
| op_subscribe (s i eg major ev : Z)
| op_unsubscribe (s i eg ev : Z)
| op_status (s i eg ev error : Z)
| op_register_status (s i eg ev : Z) (h : option handler) (selective : bool)
| op_unregister_status (s i eg ev : Z).

Section runs.
Context (find_event : Z → Z → Z → option event_info) (find_events : Z → Z → Z → list (Z * event_info)).

Definition apply_op (o : op) (st : t) : t * list output :=
  match o with
  | op_register s i h major minor => register_availability_handler_unlocked s i h major minor st
  | op_unregister s i major minor => (unregister_availability_handler s i major minor st, [])
  | op_available s i state major minor => on_availability s i state major minor st
  | op_request s i major minor => request_service s i major minor st
  | op_release s i => release_service s i st
  | op_message m => on_message find_event m st
  | op_register_message s i m h type => (register_message_handler_ext s i m h type st, [])
  | op_unregister_message s i m => (unregister_message_handler s i m st, [])
  | op_subscribe s i eg major ev => subscribe find_event find_events s i eg major ev st
  | op_unsubscribe s i eg ev => unsubscribe s i eg ev st
  | op_status s i eg ev error => on_subscription_status s i eg ev error st
  | op_register_status s i eg ev h selective => (register_subscription_status_handler s i eg ev h selective st, [])
  | op_unregister_status s i eg ev => (unregister_subscription_status_handler s i eg ev st, [])
  end.

Fixpoint run (ops : list op) (st : t) : t * list output :=
  match ops with
  | [] => (st, [])
  | o :: ops => let '(st, out1) := apply_op o st in let '(st, out2) := run ops st in (st, out1 ++ out2)
  end.
End runs.

(** What a handler is told about a service instance. *)
Definition told (h : handler) (s i : Z) (out : list output) : list availability_state_e :=
  omap (λ o, match o with
    | queue (availability_call h' s' i' state) => if decide (h' = h ∧ s' = s ∧ i' = i) then Some state else None
    | _ => None
    end) out.

Arguments told : simpl never.

(** The changes in a sequence of states. *)
Fixpoint changes (c : availability_state_e) (l : list availability_state_e) : list availability_state_e :=
  match l with
  | [] => []
  | x :: l => if decide (x = c) then changes c l else x :: changes x l
  end.

Definition reports (s i : Z) (ops : list op) : list availability_state_e :=
  omap (λ o, match o with op_available s' i' state _ _ => if decide (s' = s ∧ i' = i) then Some state else None | _ => None end) ops.

Lemma told_app h s i l1 l2 : told h s i (l1 ++ l2) = told h s i l1 ++ told h s i l2.
Proof. apply omap_app. Qed.

Lemma told_reports h s i s' i' state hs : told h s i ((λ h', queue (availability_call h' s' i' state)) <$> hs) = if decide (s' = s ∧ i' = i) then const state <$> filter (.= h) hs else [].
Proof.
  induction hs as [|h' hs IH]; [by destruct (decide _)|]. unfold told in *. cbn [fmap list_fmap omap list_omap]. rewrite IH. destruct (decide (s' = s ∧ i' = i)) as [[-> ->]|Hn].
  - rewrite filter_cons. destruct (decide (h' = h)) as [->|]; [by rewrite decide_True by done|by rewrite decide_False by tauto].
  - rewrite decide_False by tauto. done.
Qed.

(** *** Operations that do not concern availability *)

Definition aside (h : handler) (s i : Z) (st : t) (r : t * list output) : Prop :=
  available_ r.1 = available_ st ∧ availability_ r.1 = availability_ st ∧ told h s i r.2 = [].

Lemma told_deliver h s i s' i' eg ev error st : told h s i (deliver_subscription_state s' i' eg ev error st) = [].
Proof.
  unfold deliver_subscription_state. rewrite told_app. generalize (status_service error s' i' eg ev (subscription_status_handlers_ st) ++ status_service error ANY_SERVICE i' eg ev (subscription_status_handlers_ st)).
  intros l. assert (told h s i ((λ h, queue (status_call h s' i' eg ev error)) <$> l) = []) as -> by (induction l; done). by destruct (decide _).
Qed.

Lemma message_aside find_event h s i m st : aside h s i st (on_message find_event m st).
Proof.
  assert (Hc : ∀ s i ev, available_ (check_for_active_subscription find_event s i ev st).2 = available_ st ∧ availability_ (check_for_active_subscription find_event s i ev st).2 = availability_ st).
  { intros. unfold check_for_active_subscription. repeat case_match; done. }
  unfold on_message. destruct (if get_message_type m =? MT_NOTIFICATION then _ else _) as [active st1] eqn:E.
  assert (available_ st1 = available_ st ∧ availability_ st1 = availability_ st) as [E1 E2].
  { destruct (get_message_type m =? MT_NOTIFICATION); [|by injection E as _ <-]. specialize (Hc (get_service m) (get_instance m) (get_method m)). by rewrite E in Hc. }
  destruct active; [|done]. destruct (find_handlers _ _ _ _) as [|x l]; [done|]. split_and!; [done|done|]. cbn [snd]. rewrite told_app.
  generalize (x :: l). intros l'. by induction l'.
Qed.

Lemma cached_group_aside find_event h s i s' i' events : ∀ st out, told h s i out = [] →
  aside h s i st (foldl (λ '(st, out) x, match cached s' i' x.1 x.2 with
    | Some m => let '(st, out') := on_message find_event m st in (st, out ++ out')
    | None => (st, out)
    end) (st, out) events).
Proof.
  induction events as [|x events IH]; intros st out Ho; [done|]. cbn [foldl]. destruct (cached s' i' x.1 x.2) as [m|]; [|by apply IH].
  destruct (message_aside find_event h s i m st) as (H1 & H2 & H3). destruct (on_message find_event m st) as [st1 out1]. cbn in H1, H2, H3.
  unfold aside. rewrite <- H1, <- H2. apply IH. by rewrite told_app, Ho, H3.
Qed.

Lemma subscribe_aside find_event find_events h s i s' i' eg major ev st : aside h s i st (subscribe find_event find_events s' i' eg major ev st).
Proof.
  unfold subscribe. destruct (check_send_back_cached_event s' i' ev eg st) as [[b1 b2] st1] eqn:E1.
  assert (available_ st1 = available_ st ∧ availability_ st1 = availability_ st) as [A1 A2] by (unfold check_send_back_cached_event in E1; case_match; by injection E1 as _ _ <-).
  destruct (if b1 then _ else _) as [st2 out1] eqn:E2. assert (aside h s i st1 (st2, out1)) as (B1 & B2 & B3).
  { rewrite <- E2. destruct b1; [|destruct b2; [by apply cached_group_aside|done]]. unfold send_back_cached_event. destruct (_ ≫= _); [apply message_aside|done]. }
  destruct (check_subscription_state s' i' eg ev st2) as [[b st3] out2] eqn:E3. cbn in B1, B2, B3.
  assert (available_ st3 = available_ st2 ∧ availability_ st3 = availability_ st2 ∧ told h s i out2 = []) as (C1 & C2 & C3).
  { unfold check_subscription_state in E3. repeat case_match; injection E3 as _ <- <-; rewrite ?told_deliver; done. }
  split_and!; cbn; [congruence|congruence|]. rewrite !told_app, B3, C3. by destruct b.
Qed.

Definition unrelated (o : op) : Prop := match o with op_register _ _ _ _ _ | op_unregister _ _ _ _ | op_available _ _ _ _ _ | op_request _ _ _ _ => False | _ => True end.

Lemma unrelated_aside find_event find_events h s i o st : unrelated o → aside h s i st (apply_op find_event find_events o st).
Proof.
  intros Ho. destruct o; try done; cbn [apply_op].
  - apply message_aside.
  - by destruct type.
  - apply subscribe_aside.
  - unfold unsubscribe, remove_subscription. by destruct (get4 _ _ _ _ _).
  - unfold on_subscription_status. repeat case_match; try done; (split_and!; [done|done|apply told_deliver]).
  - by destruct h0.
  - unfold unregister_subscription_status_handler. by case_match.
Qed.

(** ** A handler and a service instance

    The handler is registered at one place, which is visited for the version of the
    instance; [c] is the state of which it knows. *)

Section watching.
Context (find_event : Z → Z → Z → option event_info) (find_events : Z → Z → Z → list (Z * event_info)).
Context (k : place) (h : handler) (s i major minor : Z).
Context (Hs : s ≠ ANY_SERVICE) (Hi : i ≠ ANY_INSTANCE) (Hk : k ∈ places s i major minor).

Record watching (c : availability_state_e) (st : t) : Prop := {
  w_entry : ∃ states, at_place k (availability_ st) = Some (h, states)
    ∧ (get_availability_state states s i major minor = c ∨ get_availability_state states s i major minor = AS_UNKNOWN ∧ c ≠ AS_UNAVAILABLE);
  w_only : only h k (availability_ st);
  w_available : (get2 s i (available_ st) = None ∧ (c = AS_UNKNOWN ∨ c = AS_UNAVAILABLE))
    ∨ (get2 s i (available_ st) = Some {[major := (minor, c)]} ∧ c ≠ AS_UNKNOWN ∧ c ≠ AS_UNAVAILABLE)
}.

Lemma available_get2 s' i' ma mi st : s' ≠ ANY_SERVICE → i' ≠ ANY_INSTANCE →
  is_available_unlocked s' i' ma mi st = match get2 s' i' (available_ st) with Some v => check_major_minor ma mi v | None => AS_UNKNOWN end.
Proof.
  intros Hs' Hi'. unfold is_available_unlocked, check_instances, get2. destruct (available_ st !! s') as [x|]; cbn; [|destruct (Z.eqb_spec s' ANY_SERVICE); done].
  destruct (x !! i') as [v|]; [done|]. destruct (Z.eqb_spec i' ANY_INSTANCE); done.
Qed.

Lemma minor_matches_refl mi : minor_matches mi mi = true.
Proof. unfold minor_matches. by rewrite Z.leb_refl. Qed.

Lemma check_one ma mi c : check_major_minor ma mi {[major := (minor, c)]} = c ∨ check_major_minor ma mi {[major := (minor, c)]} = AS_UNKNOWN.
Proof.
  unfold check_major_minor. destruct (_ !! ma) as [[f x]|] eqn:E.
  - apply lookup_singleton_Some in E as [_ E]. injection E as <- <-. destruct (minor_matches _ _); tauto.
  - destruct (_ || _); [|by right]. unfold sorted. rewrite map_to_list_singleton. cbn. destruct (minor_matches _ _); tauto.
Qed.

Lemma watching_current c st : watching c st → is_available_unlocked s i major minor st = match get2 s i (available_ st) with Some _ => c | None => AS_UNKNOWN end.
Proof.
  intros [_ _ [[E _]|(E & _)]]; rewrite available_get2, E by done; [done|]. unfold check_major_minor. by rewrite lookup_singleton_eq, minor_matches_refl.
Qed.

Lemma watching_aside c st r : watching c st → aside h s i st r → watching c r.1 ∧ told h s i r.2 = [].
Proof. intros [H1 H2 H3] (E1 & E2 & E3). split; [|done]. constructor; by rewrite ?E1, ?E2. Qed.

Lemma get2_remember s' i' ma mi state av : (s', i') ≠ (s, i) → get2 s i (remember s' i' ma mi state av) = get2 s i av.
Proof.
  intros Hne. assert (Hset : get2 s i (set3 s' i' ma (mi, state) av) = get2 s i av).
  { unfold get2, set3, set2, sub. destruct (decide (s = s')) as [->|]; [rewrite lookup_insert_eq; cbn|by rewrite lookup_insert_ne].
    rewrite lookup_insert_ne by congruence. by destruct (av !! s'). }
  unfold remember. destruct state; try done. destruct (av !! s') as [x|] eqn:E; [|done]. destruct (x !! i' ≫= _) as [[f y]|]; [|done]. destruct (mi =? f); [|done].
  unfold get2. destruct (decide (s = s')) as [->|]; [rewrite lookup_insert_eq, E; cbn; by rewrite lookup_delete_ne by congruence|by rewrite lookup_insert_ne].
Qed.

Lemma forget_aside s' i' st : available_ (forget_events s' i' st) = available_ st ∧ availability_ (forget_events s' i' st) = availability_ st.
Proof. done. Qed.

Lemma told_end l : told h s i (if decide (l = @nil handler) then [] else [notify]) = [].
Proof. by destruct (decide _). Qed.

(** [on_availability] in terms of the places it visits. *)
Lemma on_availability_places s' i' ma mi state st : state ≠ is_available_unlocked s' i' ma mi st →
  ∃ st' hs m, on_availability s' i' state ma mi st = (st', ((λ h, queue (availability_call h s' i' state)) <$> hs) ++ (if decide (hs = []) then [] else [notify]))
    ∧ foldl (tell_place s' i' ma mi state) (availability_ st, []) (places s' i' ma mi) = (m, hs)
    ∧ availability_ st' = m ∧ available_ st' = remember s' i' ma mi state (available_ st).
Proof.
  intros Hc. unfold on_availability. rewrite decide_False by done. change [(s', i'); (s', ANY_INSTANCE); (ANY_SERVICE, i'); (ANY_SERVICE, ANY_INSTANCE)] with (keys s' i'). rewrite tell_places.
  destruct (foldl _ _ _) as [m hs]. eexists _, hs, m. split; [reflexivity|]. by destruct state.
Qed.

Lemma watching_other c st s' i' ma mi state : watching c st → (s', i') ≠ (s, i) →
  watching c (on_availability s' i' state ma mi st).1 ∧ told h s i (on_availability s' i' state ma mi st).2 = [].
Proof.
  intros [(states & H1 & Hv) H2 H3] Hne. destruct (decide (state = is_available_unlocked s' i' ma mi st)) as [E|E].
  { unfold on_availability. rewrite decide_True by done. split; [|done]. constructor; eauto. }
  destruct (on_availability_places s' i' ma mi state st E) as (st' & hs & m & -> & Hf & <- & Ha). destruct (tell_fold_spec _ _ _ _ _ _ _ _ _ _ _ _ _ H2 H1 Hf) as (Ho & Hp & Hfi).
  cbn [fst snd]. split; [constructor|].
  - eexists. split; [exact Hp|]. by destruct (decide (k ∈ _)); rewrite ?told_other by done.
  - done.
  - by rewrite Ha, get2_remember.
  - rewrite told_app, told_end, told_reports, decide_False by (intros [-> ->]; done). done.
Qed.

Lemma get2_reported state av : (get2 s i av = None ∨ ∃ c, get2 s i av = Some {[major := (minor, c)]}) → state ≠ AS_UNKNOWN →
  get2 s i (remember s i major minor state av) = match state with AS_UNAVAILABLE => None | _ => Some {[major := (minor, state)]} end.
Proof.
  intros Hav Hu. assert (Hset : state ≠ AS_UNAVAILABLE → get2 s i (set3 s i major (minor, state) av) = Some {[major := (minor, state)]}).
  { intros _. unfold get2, set3, set2, sub. rewrite lookup_insert_eq. cbn. rewrite lookup_insert_eq. f_equal. unfold get2 in Hav. destruct (av !! s) as [x|]; cbn in *; [|done].
    destruct Hav as [-> | [c ->]]; cbn; [done|]. by rewrite insert_singleton_eq. }
  unfold remember. destruct state; try (by apply Hset); try done. unfold get2 in *. destruct (av !! s) as [x|] eqn:E; cbn in *; [|by rewrite E].
  destruct Hav as [Hx|[c Hx]]; rewrite Hx; cbn; [by rewrite E|]. rewrite lookup_singleton_eq, Z.eqb_refl, lookup_insert_eq. cbn. apply lookup_delete_eq.
Qed.

Lemma watching_report c st state : watching c st → state ≠ AS_UNKNOWN →
  watching state (on_availability s i state major minor st).1 ∧ told h s i (on_availability s i state major minor st).2 = if decide (state = c) then [] else [state].
Proof.
  intros H Hu. assert (Hcur := watching_current _ _ H). destruct H as [(states & H1 & Hv) H2 H3]. destruct (decide (state = is_available_unlocked s i major minor st)) as [E|E].
  { unfold on_availability. rewrite decide_True by done. cbn. rewrite Hcur in E. destruct H3 as [[G _]|(G & G1 & G2)]; rewrite G in E; [done|]. subst c. rewrite decide_True by done. split; [|done].
    constructor; eauto. }
  destruct (on_availability_places s i major minor state st E) as (st' & hs & m & -> & Hf & <- & Ha). destruct (tell_fold_spec _ _ _ _ _ _ _ _ _ _ _ _ _ H2 H1 Hf) as (Ho & Hp & Hfi).
  rewrite decide_True in Hp by done. cbn [fst snd]. rewrite Hcur in E. split; [constructor|].
  - eexists. split; [exact Hp|]. left. apply told_state.
  - done.
  - rewrite Ha, get2_reported; [|destruct H3 as [[G _]|(G & _)]; eauto|done]. destruct state; [left|right|right|]; try done; (split; [done|]); try done. by right.
  - rewrite told_app, told_end, app_nil_r, told_reports, decide_True, Hfi by done. cbn [filter list_filter app].
    assert (Hiff : get_availability_state states s i major minor ≠ state ↔ state ≠ c).
    { destruct H3 as [[G Hc]|(G & Hc1 & Hc2)]; rewrite G in E; destruct Hv as [-> |[-> Hc']]; intuition congruence. }
    destruct (decide (k ∈ _ ∧ _)), (decide (state = c)); try done; tauto.
Qed.

Lemma watching_availability c st m : watching c st → only h k m → at_place k m = at_place k (availability_ st) → watching c (with_availability m st).
Proof. intros [H1 H2 H3] Ho Hp. constructor; cbn; [by rewrite Hp|done|done]. Qed.

Lemma only_set a b c d e m : only h k m → (a, b, c, d) = k ∨ e.1 ≠ h → only h k (set4 a b c d e m).
Proof. intros Ho Hc k' e' E He. rewrite at_set in E. destruct (decide _) as [-> |]; [injection E as <-; by destruct Hc|by eapply Ho]. Qed.

Lemma told_queue hs l : Forall (λ c, match c with availability_call h' _ _ _ => h' ≠ h | _ => True end) l → told h s i ((queue <$> l) ++ hs) = told h s i hs.
Proof.
  induction 1 as [|c l Hc _ IH]; [done|]. unfold told in *. cbn [fmap list_fmap app omap list_omap]. destruct c; try done. rewrite decide_False by tauto. done.
Qed.

Lemma watching_register c st s' i' h' ma mi : watching c st → (s', i', ma, mi) ≠ k → h' ≠ h →
  watching c (register_availability_handler_unlocked s' i' h' ma mi st).1 ∧ told h s i (register_availability_handler_unlocked s' i' h' ma mi st).2 = [].
Proof.
  intros H Hne Hh. unfold register_availability_handler_unlocked. cbn [fst snd]. split.
  - apply watching_availability; [done|apply only_set; [apply H|by right]|]. by rewrite at_set, decide_False by congruence.
  - rewrite told_queue; [done|]. destruct (_ && _); [by repeat constructor|]. apply Forall_forall. intros x Hx. apply list_elem_of_join in Hx as (l & Hx & Hl).
    apply list_elem_of_fmap in Hl as (y & -> & _). by apply list_elem_of_fmap in Hx as (z & -> & _).
Qed.

Lemma watching_unregister c st s' i' ma mi : watching c st → (s', i', ma, mi) ≠ k → watching c (unregister_availability_handler s' i' ma mi st).
Proof.
  intros H Hne. unfold unregister_availability_handler. destruct (get4 _ _ _ _ _); [|done].
  assert (Hat : ∀ k', at_place k' (erase4 s' i' ma mi (availability_ st)) = if decide (k' = (s', i', ma, mi)) then None else at_place k' (availability_ st)).
  { intros [[[a b] c'] d]. cbn. rewrite get4_erase4. destruct (decide (a = s' ∧ _)) as [Y|N], (decide ((a, b, c', d) = _)) as [E|E]; try done.
    - destruct E. by destruct Y as (-> & -> & -> & ->).
    - destruct N. by injection E as -> -> -> ->. }
  apply watching_availability; [done| |by rewrite Hat, decide_False by congruence]. intros k' e E He. rewrite Hat in E. destruct (decide _); [done|]. by eapply (w_only _ _ H).
Qed.

(** The handler that a request finds, and where. *)
Lemma invoke_spec s' i' ma mi st : invoke_availability_handler s' i' ma mi st = (st, []) ∨
  ∃ c d h' states, get4 s' i' c d (availability_ st) = Some (h', states) ∧ is_available_unlocked s' i' ma mi st ≠ AS_UNKNOWN ∧ 
    invoke_availability_handler s' i' ma mi st = (with_availability (set4 s' i' c d (h', set_availability_state states s' i' ma mi (is_available_unlocked s' i' ma mi st)) (availability_ st)) st,
      [queue (availability_call h' s' i' (is_available_unlocked s' i' ma mi st)); notify]).
Proof.
  unfold invoke_availability_handler. destruct (get2 s' i' (availability_ st)) as [majors|] eqn:E; [|by left]. destruct (if has ma majors then _ else _) as [c|] eqn:Ec; [|by left].
  destruct (if has mi _ then _ else _) as [d|] eqn:Ed; [|by left]. destruct (sub c majors !! d) as [[h' states]|] eqn:Em; [|by left].
  destruct (decide (is_available_unlocked s' i' ma mi st = AS_UNKNOWN)); [by left|]. destruct (decide (get_availability_state _ _ _ _ _ = _)); [by left|]. right. exists c, d, h', states. split_and!; [|done|done].
  unfold get4. unfold get2 in E. destruct (availability_ st !! s') as [x|]; [|done]. cbn in *. rewrite E. cbn. unfold sub in Em. by destruct (majors !! c).
Qed.

Lemma watching_request c st s' i' ma mi : watching c st → watching c (request_service s' i' ma mi st).1
  ∧ (told h s i (request_service s' i' ma mi st).2 = [] ∨ (s', i') = (s, i) ∧ told h s i (request_service s' i' ma mi st).2 = [c]).
Proof.
  intros H. unfold request_service. destruct (invoke_spec s' i' ma mi st) as [-> |(x & y & h' & states' & Hg & Hn & ->)]; [split; [done|by left]|]. cbn [fst snd].
  change (get4 s' i' x y (availability_ st)) with (at_place (s', i', x, y) (availability_ st)) in Hg.
  assert (Hcur : (s', i') = (s, i) → is_available_unlocked s' i' ma mi st = c).
  { intros [= -> ->]. rewrite available_get2 in * by done. destruct (w_available _ _ H) as [[E _]|(E & _)]; rewrite E in *; [done|]. by destruct (check_one ma mi c). }
  set (its := is_available_unlocked s' i' ma mi st) in *. destruct (decide ((s', i', x, y) = k)) as [Ek|Hne].
  - destruct (w_entry _ _ H) as (states & He & Hv). rewrite Ek, He in Hg. injection Hg as <- <-. split.
    + destruct H as [H1 H2 H3]. constructor; cbn; [|apply only_set; [done|by left]|done]. eexists. split; [rewrite at_set, decide_True by done; done|].
      unfold get_availability_state, set_availability_state. rewrite get4_set4. destruct (decide _) as [(<- & <- & _)|]; [left; by apply Hcur|exact Hv].
    + unfold told. cbn [app omap list_omap]. destruct (decide (h = h ∧ s' = s ∧ i' = i)) as [(_ & -> & ->)|]; [right; rewrite Hcur by done; done|by left].
  - assert (Hh : h' ≠ h) by (intros ->; apply Hne; by eapply (w_only _ _ H)). split.
    + apply watching_availability; [done|apply only_set; [apply H|by right]|]. by rewrite at_set, decide_False by congruence.
    + left. unfold told. cbn [app omap list_omap]. by rewrite decide_False by tauto.
Qed.

(** *** Runs *)

(** Nothing else is registered at the place or with the handler, and the routing
    manager reports one version of the instance. *)
Definition regular (o : op) : Prop :=
  match o with
  | op_register s' i' h' ma mi => (s', i', ma, mi) ≠ k ∧ h' ≠ h
  | op_unregister s' i' ma mi => (s', i', ma, mi) ≠ k
  | op_available s' i' state ma mi => (s', i') = (s, i) → ma = major ∧ mi = minor ∧ state ≠ AS_UNKNOWN
  | _ => True
  end.
Definition no_request (o : op) : Prop := match o with op_request s' i' _ _ => (s', i') ≠ (s, i) | _ => True end.

Lemma watching_step c st o : watching c st → regular o →
  let c' := List.last (reports s i [o]) c in
  watching c' (apply_op find_event find_events o st).1
  ∧ (told h s i (apply_op find_event find_events o st).2 = changes c (reports s i [o]) ∨ ¬ no_request o ∧ told h s i (apply_op find_event find_events o st).2 = [c]).
Proof.
  intros H Hr. assert (Hg : unrelated o → watching c (apply_op find_event find_events o st).1 ∧ told h s i (apply_op find_event find_events o st).2 = [])
    by (intros Ho; apply (watching_aside c st); [done|by apply unrelated_aside]).
  destruct o; cbn [reports omap list_omap List.last changes]; try (destruct (Hg I); split; [assumption|left; assumption]); cbn [apply_op].
  - destruct Hr as [Hne Hh]. destruct (watching_register c st s0 i0 h0 major0 minor0 H Hne Hh). split; [done|by left].
  - split; [by apply watching_unregister|by left].
  - destruct (decide (s0 = s ∧ i0 = i)) as [[-> ->]|Hne].
    + destruct (Hr eq_refl) as (-> & -> & Hu). cbn [List.last changes]. destruct (watching_report c st state H Hu) as [Hw ->]. split; [done|]. left. by destruct (decide _).
    + cbn [List.last changes]. destruct (watching_other c st s0 i0 major0 minor0 state H) as [Hw Ht]; [intros [= -> ->]; tauto|]. split; [done|by left].
  - destruct (watching_request c st s0 i0 major0 minor0 H) as [Hw [Ht|[E Ht]]]; (split; [done|]); [by left|right]. split; [cbn; tauto|done].
Qed.
End watching.
Lemma changes_app c l1 l2 : changes c (l1 ++ l2) = changes c l1 ++ changes (List.last l1 c) l2.
Proof.
  revert c. induction l1 as [|x l1 IH]; intros c; [done|]. cbn [app changes]. assert (E : List.last (x :: l1) c = List.last l1 x) by (clear; revert x; induction l1 as [|y l1 IH]; intros x; [done|]; cbn in *; by destruct l1).
  rewrite E, !IH. destruct (decide (x = c)) as [->|]; done.
Qed.

Lemma changes_twice c l : changes c (changes c l) = changes c l ∧ List.last (changes c l) c = List.last l c.
Proof.
  assert (E : ∀ (l : list availability_state_e) x c, List.last (x :: l) c = List.last l x) by (clear; intros l; induction l as [|y l IH]; intros x c; [done|]; cbn in *; by destruct l).
  revert c. induction l as [|x l IH]; intros c; [done|]. cbn [changes]. rewrite E. destruct (decide (x = c)) as [->|Hne]; [apply IH|]. cbn [changes]. rewrite decide_False by done. rewrite E.
  destruct (IH x) as [-> ->]. done.
Qed.

Lemma watching_run find_event find_events k h s i major minor : s ≠ ANY_SERVICE → i ≠ ANY_INSTANCE → k ∈ places s i major minor →
  ∀ ops c st, watching k h s i major minor c st → Forall (regular k h s i major minor) ops →
  changes c (told h s i (run find_event find_events ops st).2) = changes c (reports s i ops)
  ∧ (Forall (no_request s i) ops → told h s i (run find_event find_events ops st).2 = changes c (reports s i ops)).
Proof.
  intros Hs Hi Hk ops. induction ops as [|o ops IH]; intros c st Hw Hr; [done|]. apply Forall_cons in Hr as [Ho Hr].
  destruct (watching_step find_event find_events k h s i major minor Hs Hi Hk c st o Hw Ho) as [Hw' Ht]. change (reports s i (o :: ops)) with (omap (λ o, match o with op_available s' i' state _ _ => if decide (s' = s ∧ i' = i) then Some state else None | _ => None end) ([o] ++ ops)).
  rewrite omap_app. fold (reports s i [o]) (reports s i ops). cbn [run]. destruct (apply_op find_event find_events o st) as [st1 out1]. cbn [fst snd] in *. destruct (IH _ _ Hw' Hr) as [IH1 IH2].
  destruct (run find_event find_events ops st1) as [st2 out2]. cbn [snd] in *. rewrite told_app, changes_app. destruct Ht as [-> |[Hn ->]].
  - destruct (changes_twice c (reports s i [o])) as [E1 E2]. rewrite changes_app, E1, E2, IH1. split; [done|]. intros Hq. apply Forall_cons in Hq as [_ Hq]. by rewrite IH2.
  - assert (reports s i [o] = []) as E by (destruct o; try done; by destruct Hn). rewrite E in *. cbn [app List.last changes] in *. rewrite decide_True by done. split; [done|].
    intros Hq. by apply Forall_cons in Hq as [Hq _].
Qed.

Lemma elem_minors_down minor mi : 0 ≤ mi ≤ minor → minor < 2 ^ 31 → mi ∈ minors_down minor.
Proof. intros H Hm. unfold minors_down. destruct (Z.ltb_spec minor (2 ^ 31)); [|lia]. apply elem_of_reverse, elem_of_seqZ. lia. Qed.

Lemma elem_places s i major minor s' i' ma mi : (s' = s ∨ s' = ANY_SERVICE) → (i' = i ∨ i' = ANY_INSTANCE) → (ma = major ∨ ma = ANY_MAJOR) →
  (0 ≤ mi ≤ minor ∧ minor < 2 ^ 31 ∨ mi = ANY_MINOR) → (s', i', ma, mi) ∈ places s i major minor.
Proof.
  intros Hs Hi Hma Hmi. unfold places. apply list_elem_of_join. exists ((λ v : Z * Z, (s', i', v.1, v.2)) <$> versions major minor). split.
  - apply list_elem_of_fmap. exists (ma, mi). split; [done|]. unfold versions. apply elem_of_app.
    assert (Hin : mi ∈ minors_down minor ++ [ANY_MINOR]) by (apply elem_of_app; destruct Hmi as [[? ?]| ->]; [left; by apply elem_minors_down|right; by left]).
    destruct Hma as [-> | ->]; [left|right]; apply list_elem_of_fmap; by exists mi.
  - apply list_elem_of_fmap. exists (s', i'). split; [done|]. unfold keys. rewrite !elem_of_cons. destruct Hs as [-> | ->], Hi as [-> | ->]; tauto.
Qed.

(** Which handlers are meant for a version of a service instance. *)
Definition meant (s i major minor : Z) (k : place) : Prop :=
  let '(s', i', ma, mi) := k in (s' = s ∨ s' = ANY_SERVICE) ∧ (i' = i ∨ i' = ANY_INSTANCE) ∧ (ma = major ∨ ma = ANY_MAJOR) ∧ (0 ≤ mi ≤ minor ∧ minor < 2 ^ 31 ∨ mi = ANY_MINOR).

(** At most one version of the instance is known. *)
Definition one_version (s i major minor : Z) (st : t) : Prop :=
  get2 s i (available_ st) = None ∨ ∃ c, get2 s i (available_ st) = Some {[major := (minor, c)]} ∧ (c = AS_OFFERED ∨ c = AS_AVAILABLE).

Lemma watching_start k h s i major minor st : s ≠ ANY_SERVICE → i ≠ ANY_INSTANCE → one_version s i major minor st → (∀ k' e, at_place k' (availability_ st) = Some e → e.1 ≠ h) →
  let '(s', i', ma, mi) := k in watching k h s i major minor (is_available_unlocked s i major minor st) (register_availability_handler_unlocked s' i' h ma mi st).1.
Proof.
  intros Hs Hi Hv Hh. destruct k as [[[s' i'] ma] mi] eqn:Ek. unfold register_availability_handler_unlocked. cbn [fst]. set (c := is_available_unlocked s i major minor st).
  assert (Hc : (get2 s i (available_ st) = None ∧ c = AS_UNKNOWN) ∨ (get2 s i (available_ st) = Some {[major := (minor, c)]} ∧ (c = AS_OFFERED ∨ c = AS_AVAILABLE))).
  { unfold c. rewrite available_get2 by done. destruct Hv as [E|(x & E & Hx)]; rewrite E; [by left|right]. unfold check_major_minor. rewrite lookup_singleton_eq, minor_matches_refl. done. }
  constructor; cbn [with_availability availability_ available_].
  - eexists. split; [rewrite at_set, decide_True by done; reflexivity|]. unfold get_availability_state, set_availability_state. rewrite get4_set4.
    destruct (decide _) as [(<- & <- & <- & <-)|]; [by left|right]. split; [done|]. destruct Hc as [[_ ->]|[_ [-> | ->]]]; done.
  - intros k' e E He. rewrite at_set in E. destruct (decide _); [done|]. by destruct (Hh _ _ E).
  - destruct Hc as [[E Hc]|(E & Hc)]; [left; tauto|right]. split; [done|]. destruct Hc as [-> | ->]; done.
Qed.

(** ** Claims *)


Definition availability_example : list op :=
  [op_available 1 2 AS_OFFERED 1 3; op_register 1 2 8 1 0; op_available 1 2 AS_AVAILABLE 1 3; op_available 7 2 AS_AVAILABLE 1 3;
   op_available 1 2 AS_AVAILABLE 1 3; op_available 1 2 AS_UNAVAILABLE 1 3; op_available 1 2 AS_UNAVAILABLE 1 3; op_available 1 2 AS_AVAILABLE 1 3].


(** ** Deviations *)

Definition offered (s i major minor : Z) (st : t) : t := (on_availability s i AS_AVAILABLE major minor st).1.

(** [are_available] loses the instance and the major version: its third and fourth pass
    go through all instances of a service.  An instance that is not there is reported as
    available together with another one that is, and a handler registered for an
    instance of any service is told that another instance is available. *)
Lemma other_instance_reported : let st := offered 1 2 4 0 create in
  are_available_unlocked 1 9 6 ANY_MINOR st ∅ = (AS_AVAILABLE, {[1 := {[2 := {[4 := 0]}]}]})
  ∧ is_available_unlocked 1 9 6 ANY_MINOR st = AS_UNKNOWN
  ∧ (register_availability_handler_unlocked ANY_SERVICE 9 5 ANY_MAJOR ANY_MINOR st).2 = [queue (availability_call 5 1 2 AS_AVAILABLE); notify].
Proof. vm_compute. split_and!; reflexivity. Qed.

(** A handler registered for the default major version is told that the service is
    available, but not that it becomes unavailable. *)
Lemma default_major_not_told : let r := register_availability_handler_unlocked 1 2 5 DEFAULT_MAJOR ANY_MINOR (offered 1 2 4 0 create) in
  r.2 = [queue (availability_call 5 1 2 AS_AVAILABLE); notify] ∧ (on_availability 1 2 AS_UNAVAILABLE 4 0 r.1).2 = [].
Proof. vm_compute. split; reflexivity. Qed.

(** One major version that becomes unavailable takes the others with it. *)
Lemma other_major_lost : let st := offered 1 2 5 0 (offered 1 2 4 0 create) in
  is_available 1 2 5 0 st = true ∧ is_available 1 2 5 0 (on_availability 1 2 AS_UNAVAILABLE 4 0 st).1 = false.
Proof. vm_compute. split; reflexivity. Qed.

(** The loop over the minor versions uses a signed number: for minor versions from 2^31
    on, handlers registered for smaller ones are not told. *)
Lemma large_minor_not_told : let st := (register_availability_handler_unlocked 1 2 5 ANY_MAJOR 0 create).1 in
  told 5 1 2 (on_availability 1 2 AS_AVAILABLE 4 7 st).2 = [AS_AVAILABLE] ∧ told 5 1 2 (on_availability 1 2 AS_AVAILABLE 4 (2 ^ 31) st).2 = [].
Proof. vm_compute. split; reflexivity. Qed.
