(* ===== verification/ApplicationSubscriptions.v ===== *)
(** * Subscriptions of an application: what is requested and delivered

    A subscription is requested once; notifications are delivered exactly when there is
    a subscription, to the handlers registered most specifically. *)

From stdpp Require Import base list gmap sorting.
From Stdlib Require Import ZArith Lia.
From S2P Require Import Prelude Maps Application ApplicationFacts.

Import application_impl.
Open Scope Z_scope.

(** ** Subscriptions are requested once *)

Section requests.
Context (find_event : Z → Z → Z → option event_info) (find_events : Z → Z → Z → list (Z * event_info)).
Context (s i eg ev : Z).

(** The subscription is requested or acknowledged. *)
Definition requested (st : t) : Prop :=
  match get4 s i eg ev (subscriptions_state_ st) with Some IS_SUBSCRIBING | Some SUBSCRIPTION_ACKNOWLEDGED => True | _ => False end.

#[export] Instance requested_dec st : Decision (requested st).
Proof. unfold requested. destruct (get4 _ _ _ _ _) as [[]|]; apply _. Defined.

(** The requests of this subscription, with the major version asked for. *)
Definition requests (out : list output) : list Z :=
  omap (λ o, match o with routing_subscribe s' i' eg' major ev' => if decide (s' = s ∧ i' = i ∧ eg' = eg ∧ ev' = ev) then Some major else None | _ => None end) out.

(** The subscription is rejected or ended, or the service goes away. *)
Definition ends (o : op) : Prop :=
  match o with
  | op_status s' i' eg' ev' error => error ≠ 0 ∧ (s = s' ∨ s = ANY_SERVICE) ∧ (i = i' ∨ i = ANY_INSTANCE) ∧ (eg = eg' ∨ eg = ANY_EVENTGROUP) ∧ (ev = ev' ∨ ev = ANY_EVENT)
  | op_unsubscribe s' i' eg' ev' => s' = s ∧ i' = i ∧ eg' = eg ∧ (ev' = ev ∨ ev' = ANY_EVENT)
  | op_release s' i' => s' = s ∧ i' = i
  | op_available s' i' state _ _ => s' = s ∧ i' = i ∧ state = AS_UNAVAILABLE
  | _ => False
  end.

Lemma requests_app l1 l2 : requests (l1 ++ l2) = requests l1 ++ requests l2.
Proof. apply omap_app. Qed.

Lemma requests_queue {A} (f : A → call) l : requests ((λ x, queue (f x)) <$> l) = [].
Proof. by induction l. Qed.

(** Nothing changes for the subscription and nothing is requested. *)
Definition idle (st : t) (r : t * list output) : Prop := get4 s i eg ev (subscriptions_state_ r.1) = get4 s i eg ev (subscriptions_state_ st) ∧ requests r.2 = [].

Lemma requests_deliver s' i' eg' ev' error st : requests (deliver_subscription_state s' i' eg' ev' error st) = [].
Proof. unfold deliver_subscription_state. rewrite requests_app, (requests_queue (λ h, status_call h s' i' eg' ev' error)). by destruct (decide _). Qed.

Lemma message_idle m st : subscriptions_state_ (on_message find_event m st).1 = subscriptions_state_ st ∧ requests (on_message find_event m st).2 = [].
Proof.
  unfold on_message. destruct (if get_message_type m =? MT_NOTIFICATION then _ else _) as [active st1] eqn:E.
  assert (subscriptions_state_ st1 = subscriptions_state_ st) as E1.
  { destruct (get_message_type m =? MT_NOTIFICATION); [|by injection E as _ <-]. unfold check_for_active_subscription in E. repeat case_match; by injection E as _ <-. }
  destruct active; [|done]. destruct (find_handlers _ _ _ _) as [|x l]; [done|]. split; [done|]. cbn [snd]. by rewrite requests_app, (requests_queue (λ h, message_call h m)).
Qed.

Lemma cached_idle s' i' events : ∀ st out, requests out = [] →
  let r := foldl (λ '(st, out) x, match cached s' i' x.1 x.2 with
    | Some m => let '(st, out') := on_message find_event m st in (st, out ++ out')
    | None => (st, out)
    end) (st, out) events in subscriptions_state_ r.1 = subscriptions_state_ st ∧ requests r.2 = [].
Proof.
  induction events as [|x events IH]; intros st out Ho; [done|]. cbn [foldl]. destruct (cached s' i' x.1 x.2) as [m|]; [|by apply IH].
  destruct (message_idle m st) as [H1 H2]. destruct (on_message find_event m st) as [st1 out1]. cbn [fst snd] in *. rewrite <- H1. apply IH. by rewrite requests_app, Ho, H2.
Qed.

(** The part of [subscribe] in front of the state of the subscription. *)
Lemma subscribe_front s' i' eg' major ev' st : ∃ st2 out1, subscriptions_state_ st2 = subscriptions_state_ st ∧ requests out1 = [] ∧
  subscribe find_event find_events s' i' eg' major ev' st
  = let '(b, st3, out2) := check_subscription_state s' i' eg' ev' st2 in (st3, out1 ++ out2 ++ (if b : bool then [routing_subscribe s' i' eg' major ev'] else [])).
Proof.
  unfold subscribe. destruct (check_send_back_cached_event s' i' ev' eg' st) as [[b1 b2] st1] eqn:E1.
  assert (subscriptions_state_ st1 = subscriptions_state_ st) as <- by (unfold check_send_back_cached_event in E1; case_match; by injection E1 as _ _ <-).
  destruct (if b1 then _ else _) as [st2 out1] eqn:E2. exists st2, out1. split_and!; [| |done].
  all: destruct b1; [unfold send_back_cached_event in E2; destruct (_ ≫= _) as [m|]; [pose proof (message_idle m st1) as [? ?]; by rewrite E2 in *|by injection E2 as <- <-]|].
  all: destruct b2; [unfold send_back_cached_eventgroup in E2; pose proof (cached_idle s' i' (find_events s' i' eg') st1 [] eq_refl) as [? ?]; by rewrite E2 in *|by injection E2 as <- <-].
Qed.

Lemma subscribe_requests s' i' eg' major ev' st : 
  (requested st → requested (subscribe find_event find_events s' i' eg' major ev' st).1 ∧ requests (subscribe find_event find_events s' i' eg' major ev' st).2 = [])
  ∧ ((s', i', eg', ev') = (s, i, eg, ev) → requested (subscribe find_event find_events s' i' eg' major ev' st).1
     ∧ requests (subscribe find_event find_events s' i' eg' major ev' st).2 = if decide (requested st) then [] else [major]).
Proof.
  destruct (subscribe_front s' i' eg' major ev' st) as (st2 & out1 & E2 & Ho & ->). unfold check_subscription_state. rewrite E2.
  destruct (decide (s' = s ∧ i' = i ∧ eg' = eg ∧ ev' = ev)) as [(-> & -> & -> & ->)|Hne].
  - assert (Hset : requested (with_state (set4 s i eg ev IS_SUBSCRIBING (subscriptions_state_ st)) st2)) by (unfold requested; cbn; by rewrite get4_set4, decide_True).
    assert (Hr : requested st2 ↔ requested st) by (unfold requested; by rewrite E2).
    pose proof (requests_deliver s i eg ev 0 st2) as Hd. assert (Hone : requests [routing_subscribe s i eg major ev] = [major]) by (unfold requests; cbn; by rewrite decide_True).
    destruct (decide (requested st)) as [Hq|Hq]; unfold requested in Hq; destruct (get4 s i eg ev (subscriptions_state_ st)) as [[]|] eqn:Eg; try done; cbn [fst snd];
      rewrite !requests_app, Ho, ?Hd, ?Hone; (split; [intros Hq'|intros _]); try done; try (split; [apply Hr; unfold requested; by rewrite Eg|done]);
      unfold requested in Hq'; by rewrite Eg in Hq'.
  - assert (Hone : requests [routing_subscribe s' i' eg' major ev'] = []) by (unfold requests; cbn; by rewrite decide_False). split; [intros Hq|intros [= -> -> -> ->]; tauto].
    assert (Hr : requested st2) by (unfold requested in *; by rewrite E2).
    assert (Hset : requested (with_state (set4 s' i' eg' ev' IS_SUBSCRIBING (subscriptions_state_ st)) st2)) by (unfold requested in *; cbn; rewrite get4_set4, decide_False by (intros (-> & -> & -> & ->); tauto); done).
    destruct (get4 s' i' eg' ev' (subscriptions_state_ st)) as [[]|]; cbn [fst snd]; rewrite !requests_app, ?requests_deliver, Ho; by rewrite ?Hone.
Qed.

Lemma get4_alter2 {A} (f : gmap Z (gmap Z A) → gmap Z (gmap Z A)) s' i' (m : gmap Z (gmap Z (gmap Z (gmap Z A)))) : ¬ (s' = s ∧ i' = i) → get4 s i eg ev (alter (alter f i') s' m) = get4 s i eg ev m.
Proof.
  intros Hne. unfold get4. destruct (decide (s = s')) as [->|]; [|by rewrite lookup_alter_ne]. rewrite lookup_alter_eq. destruct (m !! s') as [x|]; [|done]. cbn.
  by rewrite lookup_alter_ne by (intros ->; tauto).
Qed.

Lemma available_requests s' i' state major minor st : ¬ (s' = s ∧ i' = i ∧ state = AS_UNAVAILABLE) → idle st (on_availability s' i' state major minor st).
Proof.
  intros Hne. unfold on_availability. destruct (decide _); [done|]. destruct (foldl _ _ _) as [m hs]. split; cbn [fst snd].
  - destruct state; try done. unfold forget_events. cbn [with_state with_subscriptions subscriptions_state_ with_available with_availability]. apply get4_alter2. tauto.
  - rewrite requests_app, (requests_queue (λ h, availability_call h s' i' state)). by destruct (decide _).
Qed.

Lemma get4_prune1 {A} `{EqDecision A} s' (x : gmap Z (gmap Z (gmap Z A))) m : (s' = s → get3 i eg ev x = get4 s i eg ev m) → get4 s i eg ev (prune s' x m) = get4 s i eg ev m.
Proof.
  intros H. unfold get4 at 1. rewrite lookup_prune. destruct (decide (s = s')) as [->|]; [|done]. rewrite <- H by done. destruct (decide (x = ∅)) as [->|]; [|done]. done.
Qed.

Lemma release_requests s' i' st : ¬ (s' = s ∧ i' = i) → idle st (release_service s' i' st).
Proof.
  intros Hne. split; [|done]. cbn [release_service fst with_state subscriptions_state_]. destruct (subscriptions_state_ st !! s') as [x|] eqn:E; [|done]. apply get4_prune1.
  intros ->. unfold get4, get3. rewrite E. cbn. by rewrite lookup_delete_ne by (intros ->; tauto).
Qed.

Lemma remove_requests s' i' eg' ev' st : ¬ (s' = s ∧ i' = i ∧ eg' = eg ∧ (ev' = ev ∨ ev' = ANY_EVENT)) → idle st (unsubscribe s' i' eg' ev' st).
Proof.
  intros Hne. split; [|done]. cbn [unsubscribe fst]. unfold remove_subscription.
  set (state := match subscriptions_state_ st !! s' with None => _ | Some _ => _ end). assert (Hst : get4 s i eg ev state = get4 s i eg ev (subscriptions_state_ st)); [|by destruct (get4 s' i' ev' eg' _)].
  unfold state. destruct (subscriptions_state_ st !! s') as [x|] eqn:E; [|done]. apply get4_prune1. intros ->. unfold get4. rewrite E. cbn [mbind option_bind].
  destruct (x !! i') as [y|] eqn:Ey; [|done]. unfold get3. rewrite lookup_prune. destruct (decide (i = i')) as [->|]; [|done]. rewrite Ey. cbn [mbind option_bind].
  set (y' := if ev' =? ANY_EVENT then _ else _). assert (Hy : (y' !! eg ≫= λ z, z !! ev) = (y !! eg ≫= λ z, z !! ev)); [|by destruct (decide (y' = ∅)) as [Hz|]; [rewrite Hz, lookup_empty in Hy|]].
  unfold y'. destruct (Z.eqb_spec ev' ANY_EVENT) as [->|Hev]; [by rewrite lookup_delete_ne by (intros ->; tauto)|]. destruct (y !! eg') as [z|] eqn:Ez; [|done]. rewrite lookup_prune.
  destruct (decide (eg = eg')) as [->|]; [|done]. rewrite Ez. cbn [mbind option_bind]. assert (Hz : delete ev' z !! ev = z !! ev) by (rewrite lookup_delete_ne; [done|intros ->; tauto]).
  destruct (decide (delete ev' z = ∅)) as [Hd|]; [by rewrite Hd, lookup_empty in Hz|done].
Qed.

Lemma either_cases {A} a any (m : gmap Z A) x : either a any m = Some x → x = a ∨ x = any.
Proof. unfold either. destruct (has a m), (has any m); intros [= <-]; tauto. Qed.

Lemma status_requests s' i' eg' ev' error st : requested st → ¬ ends (op_status s' i' eg' ev' error) →
  requested (on_subscription_status s' i' eg' ev' error st).1 ∧ requests (on_subscription_status s' i' eg' ev' error st).2 = [].
Proof.
  intros Hq Hne. unfold on_subscription_status. destruct (either s' ANY_SERVICE _) as [s1|] eqn:E1; [|done]. cbn [mbind option_bind]. destruct (either i' ANY_INSTANCE _) as [i1|] eqn:E2; [|done]. cbn [mbind option_bind].
  destruct (either eg' ANY_EVENTGROUP _) as [eg1|] eqn:E3; [|done]. cbn [mbind option_bind]. destruct (either ev' ANY_EVENT _) as [ev1|] eqn:E4; [|done]. cbn [fst snd]. split; [|apply requests_deliver].
  set (state := if error =? 0 then _ else _). assert (Hset : ∀ m e, e = ev' ∨ e = ANY_EVENT → match get4 s i eg ev m with Some IS_SUBSCRIBING | Some SUBSCRIPTION_ACKNOWLEDGED => True | _ => False end →
    match get4 s i eg ev (set4 s1 i1 eg1 e state m) with Some IS_SUBSCRIBING | Some SUBSCRIPTION_ACKNOWLEDGED => True | _ => False end).
  { intros m e He Hm. rewrite get4_set4. destruct (decide _) as [(Hs1 & Hi1 & Hg1 & Hv1)|]; [|done]. unfold state. destruct (Z.eqb_spec error 0); [done|]. destruct Hne.
    cbn. rewrite Hs1, Hi1, Hg1, Hv1. split_and!; [done|by apply (either_cases _ _ _ _ E1)|by apply (either_cases _ _ _ _ E2)|by apply (either_cases _ _ _ _ E3)|done]. }
  unfold requested. cbn [with_state subscriptions_state_]. destruct (has ANY_EVENT _); [apply Hset; [by right|]|]; (apply Hset; [by apply (either_cases _ _ _ _ E4)|exact Hq]).
Qed.

Lemma requested_step o st : requested st → ¬ ends o → requested (apply_op find_event find_events o st).1 ∧ requests (apply_op find_event find_events o st).2 = [].
Proof.
  intros Hq Hne. assert (Hidle : idle st (apply_op find_event find_events o st) → requested (apply_op find_event find_events o st).1 ∧ requests (apply_op find_event find_events o st).2 = []).
  { intros [H1 H2]. split; [|done]. unfold requested in *. by rewrite H1. }
  destruct o; cbn [apply_op] in *; try (by apply status_requests); try (by apply subscribe_requests); apply Hidle.
  - split; [done|]. unfold register_availability_handler_unlocked. cbn [snd]. rewrite requests_app, (requests_queue id). done.
  - split; [|done]. unfold unregister_availability_handler. by case_match.
  - apply available_requests. cbn in Hne. tauto.
  - unfold request_service. destruct (invoke_spec s0 i0 major minor st) as [-> |(x & y & h' & states' & _ & _ & ->)]; done.
  - by apply release_requests.
  - destruct (message_idle m st) as [H1 H2]. split; [by rewrite H1|done].
  - by destruct type.
  - done.
  - by apply remove_requests.
  - by destruct h.
  - unfold unregister_subscription_status_handler. by case_match.
Qed.

Lemma requested_run ops : ∀ st, requested st → Forall (λ o, ¬ ends o) ops → requests (run find_event find_events ops st).2 = [].
Proof.
  induction ops as [|o ops IH]; intros st Hq Hf; [done|]. apply Forall_cons in Hf as [Ho Hf]. cbn [run]. destruct (requested_step o st Hq Ho) as [Hq' Hr].
  destruct (apply_op find_event find_events o st) as [st1 out1]. cbn [fst snd] in *. specialize (IH st1 Hq' Hf). destruct (run find_event find_events ops st1) as [st2 out2]. cbn [snd] in *.
  by rewrite requests_app, Hr, IH.
Qed.
End requests.

(** A subscription is requested from the routing manager once: when it is made and
    neither requested nor acknowledged already, and not again until it is rejected or
    ended, the service is released, or the service becomes unavailable, however often
    the application subscribes and whatever else it does. *)
Theorem subscription_requested_once find_event find_events s i eg ev major st ops (Hops : Forall (λ o, ¬ ends s i eg ev o) ops) :
  requests s i eg ev (run find_event find_events (op_subscribe s i eg major ev :: ops) st).2 = if decide (requested s i eg ev st) then [] else [major].
Proof.
  cbn [run apply_op]. destruct (subscribe_requests find_event find_events s i eg ev s i eg major ev st) as [_ H]. destruct (H eq_refl) as [Hq Hr]. clear H.
  destruct (subscribe find_event find_events s i eg major ev st) as [st1 out1]. cbn [fst snd] in *. pose proof (requested_run find_event find_events s i eg ev ops st1 Hq Hops) as Hn.
  destruct (run find_event find_events ops st1) as [st2 out2]. cbn [snd] in *. by rewrite requests_app, Hr, Hn, app_nil_r.
Qed.

Lemma subscription_requested_once_witness :
  requests 1 2 3 4 (run (λ _ _ _, None) (λ _ _ _, []) (op_subscribe 1 2 3 0 4 :: [op_subscribe 1 2 3 0 4; op_status 1 2 3 4 0; op_subscribe 1 2 3 0 4; op_status 1 2 3 9 7]) create).2 = [0].
Proof.
  apply (subscription_requested_once (λ _ _ _, None) (λ _ _ _, []) 1 2 3 4 0 create [op_subscribe 1 2 3 0 4; op_status 1 2 3 4 0; op_subscribe 1 2 3 0 4; op_status 1 2 3 9 7]).
  repeat constructor; cbn; try tauto; intros H; decompose [and or] H; discriminate.
Defined.

(** ** Notifications and message handlers

    The abstract state of an application: what it subscribed to, as service, instance,
    event and eventgroup, and the handlers registered for messages. *)

Record spec : Type := mk_spec { subs : gset (Z * Z * Z * Z); regs : gmap (Z * Z * Z) (list handler) }.

Definition spec_op (o : op) (x : spec) : spec :=
  match o with
  | op_subscribe s i eg _ ev => mk_spec (subs x ∪ {[(s, i, ev, eg)]}) (regs x)
  | op_unsubscribe s i eg ev => mk_spec (subs x ∖ {[(s, i, ev, eg)]}) (regs x)
  | op_register_message s i m h type =>
      let hs := default [] (regs x !! (s, i, m)) in
      match type with
      | HRT_REPLACE => mk_spec (subs x) (<[(s, i, m) := [h]]> (regs x))
      | HRT_APPEND => mk_spec (subs x) (<[(s, i, m) := hs ++ [h]]> (regs x))
      | HRT_PREPEND => mk_spec (subs x) (<[(s, i, m) := h :: hs]> (regs x))
      | HRT_UNKNOWN => x
      end
  | op_unregister_message s i m => mk_spec (subs x) (delete (s, i, m) (regs x))
  | _ => x
  end.

(** An event is wanted if it is subscribed itself, or with all events of one of its
    eventgroups. *)
Definition wanted (find_event : Z → Z → Z → option event_info) (s i ev : Z) (x : spec) : Prop :=
  (∃ eg, (s, i, ev, eg) ∈ subs x) ∨ ∃ e eg, find_event s i ev = Some e ∧ eg ∈ eventgroups e ∧ (s, i, ANY_EVENT, eg) ∈ subs x.

(** The handlers of the first of these that is registered. *)
Definition patterns (s i m : Z) : list (Z * Z * Z) :=
  [(s, i, m); (s, i, ANY_METHOD); (s, ANY_INSTANCE, m); (s, ANY_INSTANCE, ANY_METHOD); (ANY_SERVICE, i, m); (ANY_SERVICE, i, ANY_METHOD); (ANY_SERVICE, ANY_INSTANCE, m); (ANY_SERVICE, ANY_INSTANCE, ANY_METHOD)].
Definition chosen (s i m : Z) (x : spec) : list handler := default [] (head (omap (λ p, regs x !! p) (patterns s i m))).

Definition ids_fit (o : op) : Prop :=
  match o with op_register_message s i m _ _ | op_unregister_message s i m => is_u16 s ∧ is_u16 i ∧ is_u16 m | _ => True end.

(** *** Keys of message handlers *)

Lemma members_key_parts s i m : is_u16 s → is_u16 i → is_u16 m → to_members_key s i m = s + i * 2 ^ 16 + m * 2 ^ 32.
Proof.
  intros Hs Hi Hm. unfold to_members_key. rewrite (Z.lor_comm s), lor_shiftl_add by done. unfold in_width in *. rewrite Z.lor_comm, lor_shiftl_add; [lia|done|]. unfold in_width. lia.
Qed.

Lemma members_key_inj s i m s' i' m' : is_u16 s → is_u16 i → is_u16 m → is_u16 s' → is_u16 i' → is_u16 m' → to_members_key s i m = to_members_key s' i' m' → (s, i, m) = (s', i', m').
Proof. intros ? ? ? ? ? ?. rewrite !members_key_parts by done. unfold in_width in *. intros E. assert (s = s' ∧ i = i' ∧ m = m') as (-> & -> & ->) by lia. done. Qed.

(** *** Shapes of the tables of subscriptions *)

Lemma get3_get2 {A} a b c (m : gmap Z (gmap Z (gmap Z A))) : get3 a b c m = get2 a b m ≫= λ x, x !! c.
Proof. unfold get3, get2. by destruct (m !! a). Qed.

Lemma get4_get3 {A} a b c d (m : gmap Z (gmap Z (gmap Z (gmap Z A)))) : get4 a b c d m = get3 a b c m ≫= λ x, x !! d.
Proof. unfold get4, get3. destruct (m !! a) as [x|]; [|done]. cbn. by destruct (x !! b). Qed.

Lemma set4_set3 {A} a b c d (v : A) m : set4 a b c d v m = set3 a b c (<[d := v]> (default ∅ (get3 a b c m))) m.
Proof. unfold set4, set3, set2, sub, get3. f_equal. f_equal. f_equal. destruct (m !! a) as [x|]; [|done]. cbn. by destruct (x !! b). Qed.

Lemma get2_prune {A} `{EqDecision A} a a' b' (x : gmap Z A) (m : gmap Z (gmap Z A)) : get2 a' b' (prune a x m) = if decide (a' = a) then x !! b' else get2 a' b' m.
Proof. unfold get2. rewrite lookup_prune. destruct (decide (a' = a)); [|done]. destruct (decide (x = ∅)) as [->|]; [by rewrite lookup_empty|done]. Qed.

Lemma get3_prune {A} `{EqDecision A} a a' b' c' (x : gmap Z (gmap Z A)) (m : gmap Z (gmap Z (gmap Z A))) : get3 a' b' c' (prune a x m) = if decide (a' = a) then get2 b' c' x else get3 a' b' c' m.
Proof. unfold get3. rewrite lookup_prune. destruct (decide (a' = a)); [|done]. destruct (decide (x = ∅)) as [->|]; [done|done]. Qed.

Lemma get3_erase4 {A} `{EqDecision A} a b c d a' b' c' (m : gmap Z (gmap Z (gmap Z (gmap Z A)))) z : get3 a b c m = Some z →
  get3 a' b' c' (erase4 a b c d m) = if decide (a' = a ∧ b' = b ∧ c' = c) then (if decide (delete d z = ∅) then None else Some (delete d z)) else get3 a' b' c' m.
Proof.
  intros E. unfold get3 in E. unfold erase4, erase3, erase2. destruct (m !! a) as [x|] eqn:Ea; [|done]. cbn in E. destruct (x !! b) as [y|] eqn:Eb; [|done]. cbn in E. rewrite E.
  rewrite get3_prune. destruct (decide (a' = a)) as [->|]; [|by rewrite decide_False by tauto]. rewrite get2_prune. destruct (decide (b' = b)) as [->|].
  - rewrite lookup_prune. destruct (decide (c' = c)) as [->|]; [by rewrite (decide_True (P := a = a ∧ b = b ∧ c = c))|]. rewrite decide_False by tauto. unfold get3. rewrite Ea. cbn. by rewrite Eb.
  - rewrite decide_False by tauto. unfold get3, get2. by rewrite Ea.
Qed.

Definition shape {A} (a b c : Z) (m : gmap Z (gmap Z (gmap Z (gmap Z A)))) : option (gset Z) := dom <$> get3 a b c m.

Lemma shape_set4 {A} a b c d (v : A) m a' b' c' : shape a' b' c' (set4 a b c d v m) = if decide (a' = a ∧ b' = b ∧ c' = c) then Some ({[d]} ∪ default ∅ (shape a b c m)) else shape a' b' c' m.
Proof.
  unfold shape. rewrite set4_set3, get3_set3. destruct (decide _); [|done]. cbn. f_equal. rewrite dom_insert_L. by destruct (get3 a b c m).
Qed.

Lemma shape_alter {A} (f : gmap Z A → gmap Z A) a b c (m : gmap Z (gmap Z (gmap Z (gmap Z A)))) a' b' c' : (∀ x, dom (f x) = dom x) → shape a' b' c' (alter (alter (alter f c) b) a m) = shape a' b' c' m.
Proof.
  intros Hf. unfold shape, get3. destruct (decide (a' = a)) as [->|]; [|by rewrite lookup_alter_ne]. rewrite lookup_alter_eq. destruct (m !! a) as [x|]; [|done]. cbn.
  destruct (decide (b' = b)) as [->|]; [|by rewrite lookup_alter_ne]. rewrite lookup_alter_eq. destruct (x !! b) as [y|]; [|done]. cbn.
  destruct (decide (c' = c)) as [->|]; [|by rewrite lookup_alter_ne]. rewrite lookup_alter_eq. destruct (y !! c); [|done]. cbn. by rewrite Hf.
Qed.

Lemma shape_clear {A} (v : A) a b (m : gmap Z (gmap Z (gmap Z (gmap Z A)))) a' b' c' : shape a' b' c' (alter (alter (fmap (fmap (const v))) b) a m) = shape a' b' c' m.
Proof.
  unfold shape, get3. destruct (decide (a' = a)) as [->|]; [|by rewrite lookup_alter_ne]. rewrite lookup_alter_eq. destruct (m !! a) as [x|]; [|done]. cbn.
  destruct (decide (b' = b)) as [->|]; [|by rewrite lookup_alter_ne]. rewrite lookup_alter_eq. destruct (x !! b) as [y|]; [|done]. cbn. rewrite lookup_fmap. destruct (y !! c'); [|done]. cbn. by rewrite dom_fmap_L.
Qed.

(** *** Refinement *)

Record refines (st : t) (x : spec) : Prop := {
  rf_shape : ∀ s i ev, shape s i ev (subscriptions_ st) ≠ Some ∅;
  rf_subs : ∀ s i ev eg, (s, i, ev, eg) ∈ subs x ↔ eg ∈ default ∅ (shape s i ev (subscriptions_ st));
  rf_regs : ∀ s i m, is_u16 s → is_u16 i → is_u16 m → members_ st !! to_members_key s i m = regs x !! (s, i, m)
}.

Definition same_shape (st st' : t) : Prop := (∀ s i ev, shape s i ev (subscriptions_ st') = shape s i ev (subscriptions_ st)) ∧ members_ st' = members_ st.

Lemma refines_same st st' x : refines st x → same_shape st st' → refines st' x.
Proof. intros [H1 H2 H3] [E1 E2]. constructor; intros; rewrite ?E1, ?E2; auto. Qed.

Lemma active_shape find_event s i ev st : same_shape st (check_for_active_subscription find_event s i ev st).2.
Proof.
  unfold check_for_active_subscription. destruct (get2 s i (subscriptions_ st)) as [events|] eqn:E; [|done]. destruct (events !! ev) as [groups|] eqn:Ee.
  - destruct (decide _); [done|]. split; [|done]. intros s' i' ev'. cbn [snd with_subscriptions subscriptions_]. apply shape_alter. intros y. apply dom_fmap_L.
  - destruct (events !! ANY_EVENT) as [groups|] eqn:Ea; [|done]. destruct (find_event s i ev) as [e|]; [|done]. destruct (subscribed_group groups e) as [eg|] eqn:Eg; [|done].
    split; [|done]. intros s' i' ev'. cbn [snd with_subscriptions subscriptions_]. rewrite shape_set4. destruct (decide _) as [(-> & -> & ->)|]; [|done].
    unfold shape. rewrite get3_get2, E. cbn. rewrite Ea. cbn. f_equal. apply find_some in Eg as [_ Eg]. apply bool_decide_eq_true in Eg. apply (subseteq_union_1_L {[eg]}), singleton_subseteq_l. by apply elem_of_dom.
Qed.

Lemma message_shape find_event m st : same_shape st (on_message find_event m st).1.
Proof.
  unfold on_message. destruct (if get_message_type m =? MT_NOTIFICATION then _ else _) as [active st1] eqn:E.
  assert (same_shape st st1) by (destruct (get_message_type m =? MT_NOTIFICATION); [|by injection E as _ <-]; change st1 with (active, st1).2; rewrite <- E; apply active_shape).
  destruct active; [|done]. by destruct (find_handlers _ _ _ _).
Qed.

Lemma same_shape_trans st1 st2 st3 : same_shape st1 st2 → same_shape st2 st3 → same_shape st1 st3.
Proof. intros [H1 H2] [H3 H4]. split; [intros; by rewrite H3|congruence]. Qed.

Lemma cached_shape find_event s i events : ∀ st out,
  same_shape st (foldl (λ '(st, out) x, match cached s i x.1 x.2 with
    | Some m => let '(st, out') := on_message find_event m st in (st, out ++ out')
    | None => (st, out)
    end) (st, out) events).1.
Proof.
  induction events as [|x events IH]; intros st out; [done|]. cbn [foldl]. destruct (cached s i x.1 x.2) as [m|]; [|apply IH].
  pose proof (message_shape find_event m st) as Hm. destruct (on_message find_event m st) as [st1 out1]. eapply same_shape_trans; [exact Hm|apply IH].
Qed.

Lemma refines_subscribe find_event find_events s i eg major ev st x : refines st x → refines (subscribe find_event find_events s i eg major ev st).1 (spec_op (op_subscribe s i eg major ev) x).
Proof.
  intros H. unfold subscribe. destruct (check_send_back_cached_event s i ev eg st) as [[b1 b2] st1] eqn:E1.
  assert (H1 : refines st1 (spec_op (op_subscribe s i eg major ev) x)).
  { destruct H as [R1 R2 R3]. unfold check_send_back_cached_event in E1. destruct (get4 s i ev eg (subscriptions_ st)) as [b|] eqn:Eg; injection E1 as _ _ <-.
    - constructor; [done| |done]. intros s' i' ev' eg'. cbn. rewrite elem_of_union, elem_of_singleton, R2. split; [|tauto]. intros [?|[= -> -> -> ->]]; [done|].
      rewrite get4_get3 in Eg. unfold shape. destruct (get3 s i ev (subscriptions_ st)) as [y|]; [|done]. cbn in *. apply elem_of_dom. by rewrite Eg.
    - constructor; [| |done]; cbn [with_subscriptions subscriptions_]; intros s' i' ev'.
      + rewrite shape_set4. destruct (decide _); [|done]. intros [= Hz]. assert (Hin : eg ∈ ({[eg]} ∪ default ∅ (shape s i ev (subscriptions_ st)))) by (apply elem_of_union; left; by apply elem_of_singleton).
        rewrite Hz in Hin. by apply elem_of_empty in Hin.
      + intros eg'. cbn [spec_op subs]. rewrite elem_of_union, elem_of_singleton, R2, shape_set4. destruct (decide _) as [(-> & -> & ->)|Hn]; cbn [default from_option id].
        * rewrite elem_of_union, elem_of_singleton. split; [intros [?|[= ->]]; tauto|intros [-> |?]; tauto].
        * split; [intros [?|[= -> -> -> ->]]; tauto|tauto]. }
  destruct (if b1 then _ else _) as [st2 out1] eqn:E2. assert (S2 : same_shape st1 st2).
  { change st2 with (st2, out1).1. rewrite <- E2. destruct b1; [unfold send_back_cached_event; destruct (_ ≫= _); [apply message_shape|done]|]. destruct b2; [apply cached_shape|done]. }
  destruct (check_subscription_state s i eg ev st2) as [[b st3] out2] eqn:E3. cbn [fst]. eapply refines_same; [exact H1|]. eapply same_shape_trans; [exact S2|].
  unfold check_subscription_state in E3. repeat case_match; by injection E3 as _ <- _.
Qed.

Lemma refines_unsubscribe s i eg ev st x : refines st x → refines (unsubscribe s i eg ev st).1 (spec_op (op_unsubscribe s i eg ev) x).
Proof.
  intros [R1 R2 R3]. cbn [unsubscribe fst]. unfold remove_subscription. set (state := match subscriptions_state_ st !! s with None => _ | Some _ => _ end). cbn [with_state subscriptions_]. clearbody state.
  rewrite get4_get3. destruct (get3 s i ev (subscriptions_ st)) as [z|] eqn:Ez; [destruct (z !! eg) as [b|] eqn:Eg|]; cbn [mbind option_bind]; rewrite ?Eg.
  2, 3: constructor; [done| |done]; intros s' i' ev' eg'; cbn [spec_op subs with_state subscriptions_]; rewrite elem_of_difference, elem_of_singleton, R2; (split; [tauto|]); intros Hin; split; [done|];
    intros [= -> -> -> ->]; unfold shape in Hin; rewrite Ez in Hin; cbn in Hin; first [by apply elem_of_empty in Hin|apply elem_of_dom in Hin as [? ?]; congruence].
  assert (Hsh : ∀ s' i' ev', shape s' i' ev' (erase4 s i ev eg (subscriptions_ st)) = if decide (s' = s ∧ i' = i ∧ ev' = ev) then (if decide (delete eg z = ∅) then None else Some (dom z ∖ {[eg]})) else shape s' i' ev' (subscriptions_ st)).
  { intros. unfold shape. rewrite (get3_erase4 _ _ _ _ _ _ _ _ z Ez). destruct (decide (s' = s ∧ _)); [|done]. destruct (decide (delete eg z = ∅)); [done|]. cbn. by rewrite dom_delete_L. }
  constructor; cbn [spec_op subs with_state with_subscriptions subscriptions_]; [| |done]; intros s' i' ev'; rewrite ?Hsh.
  - destruct (decide (s' = s ∧ _)); [|done]. destruct (decide (delete eg z = ∅)) as [|Hd]; [done|]. intros [= Hz]. apply Hd. rewrite <- dom_delete_L in Hz. by apply dom_empty_inv_L.
  - intros eg'. rewrite elem_of_difference, elem_of_singleton, R2. destruct (decide (s' = s ∧ _)) as [(-> & -> & ->)|Hn]; [|split; [tauto|]; intros ?; split; [done|]; intros [= -> -> -> ->]; tauto].
    unfold shape. rewrite Ez. cbn [fmap option_fmap option_map default from_option id]. destruct (decide (delete eg z = ∅)) as [Hd|Hd]; cbn [default from_option id].
    + assert (Hz : dom z ∖ {[eg]} = ∅) by (rewrite <- dom_delete_L, Hd; apply dom_empty_L). rewrite <- Hz, elem_of_difference, elem_of_singleton. split; [intros [? Hn]; split; [done|]; intros ->; by apply Hn|]. intros [? Hn]. split; [done|]. intros [= ->]. done.
    + rewrite elem_of_difference, elem_of_singleton. split; [intros [? Hn]; split; [done|]; intros ->; by apply Hn|]. intros [? Hn]. split; [done|]. intros [= ->]. done.
Qed.

Lemma refines_members st x s i m v v' : refines st x → is_u16 s → is_u16 i → is_u16 m → v' = v →
  refines (with_members (partial_alter (λ _, v) (to_members_key s i m) (members_ st)) st) (mk_spec (subs x) (partial_alter (λ _, v') (s, i, m) (regs x))).
Proof.
  intros [R1 R2 R3] Hs Hi Hm ->. constructor; [done|done|]. cbn. intros s' i' m' Hs' Hi' Hm'. destruct (decide ((s', i', m') = (s, i, m))) as [E|E].
  - injection E as -> -> ->. by rewrite !lookup_partial_alter_eq.
  - rewrite !lookup_partial_alter_ne; [by apply R3|congruence|]. intros Ek. destruct E. symmetry. by apply members_key_inj.
Qed.

Lemma refines_step find_event find_events o st x : refines st x → ids_fit o → refines (apply_op find_event find_events o st).1 (spec_op o x).
Proof.
  intros H Hf. assert (Hsame : ∀ st', same_shape st st' → refines st' x) by (intros; by eapply refines_same).
  destruct o; cbn [apply_op fst]; try (by apply refines_subscribe); try (by apply refines_unsubscribe).
  - by apply Hsame.
  - apply Hsame. unfold unregister_availability_handler. by case_match.
  - apply Hsame. unfold on_availability. destruct (decide _); [done|]. destruct (foldl _ _ _) as [m hs]. destruct state; try done. split; [|done]. intros s' i' ev'. apply shape_clear.
  - apply Hsame. unfold request_service. destruct (invoke_spec s i major minor st) as [-> |(y & z & h' & states' & _ & _ & ->)]; done.
  - by apply Hsame.
  - apply Hsame, message_shape.
  - destruct Hf as (Hs & Hi & Hm). pose proof (rf_regs _ _ H s i m Hs Hi Hm) as Hr. unfold register_message_handler_ext. cbn [spec_op].
    destruct type; [apply refines_members; try done|apply refines_members; try done|apply refines_members; try done|done]; by rewrite Hr.
  - destruct Hf as (Hs & Hi & Hm). by apply (refines_members st x s i m None None).
  - apply Hsame. unfold on_subscription_status. by repeat case_match.
  - apply Hsame. by destruct h.
  - apply Hsame. unfold unregister_subscription_status_handler. by case_match.
Qed.

Definition spec_run (ops : list op) (x : spec) : spec := foldl (λ x o, spec_op o x) x ops.

Lemma refines_run find_event find_events ops : ∀ st x, refines st x → Forall ids_fit ops → refines (run find_event find_events ops st).1 (spec_run ops x).
Proof.
  induction ops as [|o ops IH]; intros st x H Hf; [done|]. apply Forall_cons in Hf as [Ho Hf]. cbn [run spec_run foldl]. pose proof (refines_step find_event find_events o st x H Ho) as H'.
  destruct (apply_op find_event find_events o st) as [st1 out1]. specialize (IH st1 _ H' Hf). by destruct (run find_event find_events ops st1).
Qed.

(** *** What the checks of the code mean *)

Lemma wanted_spec find_event s i ev st x : refines st x → (check_for_active_subscription find_event s i ev st).1 = true ↔ wanted find_event s i ev x.
Proof.
  intros [R1 R2 _]. unfold wanted. assert (Hsub : ∀ ev eg, (s, i, ev, eg) ∈ subs x ↔ is_Some (get3 s i ev (subscriptions_ st) ≫= λ z, z !! eg)).
  { intros ev' eg'. rewrite R2. unfold shape. destruct (get3 s i ev' (subscriptions_ st)) as [z|]; cbn; [apply elem_of_dom|]. split; [intros Hz; by apply elem_of_empty in Hz|by intros [? ?]]. }
  setoid_rewrite Hsub. pose proof (R1 s i ev) as Hne. unfold shape in Hne. setoid_rewrite get3_get2. rewrite get3_get2 in Hne. unfold check_for_active_subscription.
  destruct (get2 s i (subscriptions_ st)) as [events|]; cbn [mbind option_bind] in *; [|split; [done|]; intros [[eg [? ?]]|(e & eg & _ & _ & [? ?])]; done].
  destruct (events !! ev) as [groups|] eqn:Eev; cbn [mbind option_bind] in *.
  - assert (groups ≠ ∅) as Hg by (intros ->; apply Hne; cbn; by rewrite dom_empty_L). rewrite decide_False by done. split; [|done]. intros _. left.
    destruct (map_choose groups Hg) as (eg & v & Hv). exists eg. by rewrite Hv.
  - destruct (events !! ANY_EVENT) as [groups|] eqn:Ea; cbn [mbind option_bind]; [|split; [done|]; intros [[eg [? ?]]|(e & eg & _ & _ & [? ?])]; done].
    destruct (find_event s i ev) as [e|]; [|split; [done|]; intros [[eg [? ?]]|(e & eg & ? & _)]; done]. unfold subscribed_group. destruct (List.find _ _) as [eg|] eqn:Ef.
    + split; [|done]. intros _. right. apply find_some in Ef as [Hin Hh]. apply bool_decide_eq_true in Hh. apply list_elem_of_In in Hin. rewrite merge_sort_Permutation, elem_of_elements in Hin. by exists e, eg.
    + split; [done|]. intros [[eg [? ?]]|(e' & eg & [= <-] & Hin & Hg)]; [done|]. exfalso. assert (Hx := find_none _ _ Ef eg). unfold has in Hx. rewrite bool_decide_true in Hx by done. specialize (Hx ltac:(apply list_elem_of_In; by rewrite merge_sort_Permutation, elem_of_elements)). done.
Qed.

Lemma chosen_spec s i m st x : refines st x → is_u16 s → is_u16 i → is_u16 m → find_handlers s i m st = chosen s i m x.
Proof.
  intros H Hs Hi Hm. assert (is_u16 0xFFFF) as Ha by done. pose proof (rf_regs _ _ H) as Hr. unfold find_handlers, queries, chosen, patterns. cbn [first_member omap list_omap].
  rewrite !Hr by done. repeat (destruct (regs x !! _) as [?|]; [done|]). done.
Qed.

(** What becomes of a message: a notification that is not wanted is dropped; every
    other message is queued for each of the handlers registered most specifically. *)
Definition delivery (find_event : Z → Z → Z → option event_info) (m : message) (x : spec) (out : list output) : Prop :=
  let hs := chosen (get_service m) (get_instance m) (get_method m) x in
  let deliver := ((λ h, queue (message_call h m)) <$> hs) ++ (if decide (hs = []) then [] else [notify]) in
  (get_message_type m = MT_NOTIFICATION → ¬ wanted find_event (get_service m) (get_instance m) (get_method m) x → out = [])
  ∧ (get_message_type m ≠ MT_NOTIFICATION ∨ wanted find_event (get_service m) (get_instance m) (get_method m) x → out = deliver).

(** *** Claim *)

(** (C10) After any run of an application, a message is handled as its abstract state says:
    notifications are delivered exactly when the event is subscribed, itself or with
    all events of one of its eventgroups; a message goes to the handlers registered for
    its service, instance and method, or the most specific registration with
    wildcards, in the order of their registration. *)
Theorem messages_delivered find_event find_events ops m (Hops : Forall ids_fit ops) (Hs : is_u16 (get_service m)) (Hi : is_u16 (get_instance m)) (Hm : is_u16 (get_method m)) :
  delivery find_event m (spec_run ops (mk_spec ∅ ∅)) (on_message find_event m (run find_event find_events ops create).1).2.
Proof.
  assert (H0 : refines create (mk_spec ∅ ∅)) by (constructor; [done|done|intros; cbn; by rewrite !lookup_empty]). pose proof (refines_run find_event find_events ops _ _ H0 Hops) as H.
  set (x := spec_run ops _) in *. set (st := (run find_event find_events ops create).1) in *. clearbody x st. unfold delivery, on_message. destruct (Z.eqb_spec (get_message_type m) MT_NOTIFICATION) as [Ht|Ht].
  - pose proof (wanted_spec find_event (get_service m) (get_instance m) (get_method m) st x H) as Ha. pose proof (active_shape find_event (get_service m) (get_instance m) (get_method m) st) as Hsh.
    destruct (check_for_active_subscription _ _ _ _ _) as [[] st1]; cbn [fst snd] in *; (split; [intros _ Hn|intros Hw]); try done; try tauto; try (destruct Hw as [?|Hw]; [done|]; by apply Ha in Hw).
    rewrite <- (chosen_spec _ _ _ st1) by (try done; by eapply refines_same). by destruct (find_handlers _ _ _ _).
  - split; [done|]. intros _. rewrite <- (chosen_spec _ _ _ st) by done. by destruct (find_handlers _ _ _ _).
Qed.

Lemma messages_delivered_witness :
  delivery (λ _ _ _, Some (mk_event {[7]} true true [])) (mk_message 1 2 0x8001 MT_NOTIFICATION [] false)
    (spec_run [op_register_message 1 2 ANY_METHOD 5 HRT_REPLACE; op_subscribe 1 2 7 0 ANY_EVENT] (mk_spec ∅ ∅))
    [queue (message_call 5 (mk_message 1 2 0x8001 MT_NOTIFICATION [] false)); notify].
Proof.
  refine (messages_delivered (λ _ _ _, Some (mk_event {[7]} true true [])) (λ _ _ _, []) [op_register_message 1 2 ANY_METHOD 5 HRT_REPLACE; op_subscribe 1 2 7 0 ANY_EVENT]
    (mk_message 1 2 0x8001 MT_NOTIFICATION [] false) _ _ _ _); [repeat constructor; done|done|done|done].
Defined.

(** ** A deviation *)

(** A handler for any event of an eventgroup is called twice about a subscription to
    any event, since the event and the wildcard are the same key. *)
Lemma any_event_told_twice : let st := register_subscription_status_handler 1 2 3 ANY_EVENT (Some 5%nat) false create in
  let st := (on_subscription_status 1 2 3 ANY_EVENT 0 (subscribe (λ _ _ _, None) (λ _ _ _, []) 1 2 3 0 ANY_EVENT st).1).1 in
  (subscribe (λ _ _ _, None) (λ _ _ _, []) 1 2 3 0 ANY_EVENT st).2 = [queue (status_call 5 1 2 3 ANY_EVENT 0); queue (status_call 5 1 2 3 ANY_EVENT 0); notify].
Proof. vm_compute. reflexivity. Qed.
