(* ===== verification/Pings.v ===== *)
(** * Pings of local applications ([routing/src/routing_manager_stub.cpp])

    The stub pings an application when another one wants to take over its service
    ([send_ping]), waits for the answer ([remove_from_pinged_clients]) and reports an
    application that does not answer ([on_ping_timer_expired]).  One timer serves all
    pings.  Times are nanoseconds of the steady clock, timeouts milliseconds, as the
    code has them.

    The timer of [boost::asio] is modelled with its handlers: [expires_after] and
    [cancel] abort a wait that has not expired yet, an aborted handler returns at once;
    a wait that has expired is a handler in the queue of the [io_context] ([expired])
    that no cancellation reaches.  The operations of the stub are atomic. *)

From stdpp Require Import base list gmap sorting.
From Stdlib Require Import ZArith Lia.
From S2P Require Import Prelude Maps.

Open Scope Z_scope.

Module pings.

Record t : Type := mk { pinged_clients_ : gmap Z Z; pinged_clients_timer_ : option Z; expired : nat }.

Definition create : t := mk ∅ None 0.

Inductive output : Set := ping (client : Z) | client_error (client : Z).

(** [std::chrono::milliseconds] and the conversion of a difference of time points. *)
Definition millisecond : Z := 1000000.
Definition duration_cast (d : Z) : Z := Z.quot d millisecond.

Section stub.
Context (configured_watchdog_timeout_ : Z).

(** The loop over [pinged_clients_] that chooses when the timer expires next. *)
Definition next_timeout (now : Z) (pinged : gmap Z Z) : Z :=
  foldl (λ next tp, let its_clients_timeout := duration_cast (now - tp.2) in if next >? its_clients_timeout then its_clients_timeout else next)
    configured_watchdog_timeout_ (sorted pinged).

Definition expires_after (now d : Z) (st : t) : t := mk (pinged_clients_ st) (Some (now + d * millisecond)) (expired st).
Definition cancel (st : t) : t := mk (pinged_clients_ st) None (expired st).

(** [send_ping]: whether the application has an endpoint and whether the endpoint takes
    the command is up to the endpoints. *)
Definition send_ping (found sent : bool) (now client : Z) (st : t) : bool * t * list output :=
  if found then
    if has client (pinged_clients_ st) then (true, st, [])
    else
      let st := cancel st in
      let next := next_timeout now (pinged_clients_ st) in
      let st := mk (<[client := now]> (pinged_clients_ st)) (pinged_clients_timer_ st) (expired st) in
      (sent, expires_after now next st, [ping client])
  else (false, st, []).

Definition timed_out (now : Z) (tp : Z * Z) : bool := configured_watchdog_timeout_ * millisecond <=? now - tp.2.

Definition on_ping_timer_expired (now : Z) (st : t) : t * list output :=
  let timed_out_clients := foldl (λ l tp, if timed_out now tp then tp.1 :: l else l) [] (sorted (pinged_clients_ st)) in
  let remaining := foldl (λ m tp, if timed_out now tp then delete tp.1 m else m) (pinged_clients_ st) (sorted (pinged_clients_ st)) in
  let st := mk remaining (pinged_clients_timer_ st) (expired st) in
  let next := next_timeout now remaining in
  (if decide (remaining = ∅) then st else expires_after now next st, client_error <$> timed_out_clients).

Definition remove_from_pinged_clients (now client : Z) (st : t) : t :=
  if decide (pinged_clients_ st = ∅) then st
  else
    let st := cancel st in
    let st := mk (delete client (pinged_clients_ st)) (pinged_clients_timer_ st) (expired st) in
    if decide (pinged_clients_ st = ∅) then st else expires_after now (next_timeout now (pinged_clients_ st)) st.

(** ** Runs

    Time passes, the timer expires, its handler is run, applications are pinged and
    answer. *)

Inductive op : Set :=
| op_elapse (d : Z)
| op_expire
| op_handle
| op_ping (found sent : bool) (client : Z)
| op_pong (client : Z).

Inductive event : Set := ev_ping (client : Z) | ev_pong (client : Z) | ev_error (client : Z).

Definition event_of (o : output) : event := match o with ping c => ev_ping c | client_error c => ev_error c end.

Definition enabled (now : Z) (st : t) (o : op) : bool :=
  match o with
  | op_elapse d => 0 <=? d
  | op_expire => match pinged_clients_timer_ st with Some d => d <=? now | None => false end
  | op_handle => negb (expired st =? 0)%nat
  | _ => true
  end.

Definition apply_op (o : op) (now : Z) (st : t) : Z * t * list event :=
  match o with
  | op_elapse d => (now + d, st, [])
  | op_expire => (now, mk (pinged_clients_ st) None (S (expired st)), [])
  | op_handle =>
      let '(st, out) := on_ping_timer_expired now (mk (pinged_clients_ st) (pinged_clients_timer_ st) (pred (expired st))) in
      (now, st, event_of <$> out)
  | op_ping found sent c => let '(_, st, out) := send_ping found sent now c st in (now, st, event_of <$> out)
  | op_pong c => (now, remove_from_pinged_clients now c st, [ev_pong c])
  end.

(** A run with the trace of its events and their times, the latest event last. *)
Inductive runs : Z → t → list (Z * event) → Prop :=
| runs_start now : runs now create []
| runs_step now st tr o : runs now st tr → enabled now st o = true →
    let r := apply_op o now st in runs r.1.1 r.1.2 (tr ++ ((now,.) <$> r.2)).

(** The run of a list of operations. *)
Fixpoint run (ops : list op) (now : Z) (st : t) (tr : list (Z * event)) : option (Z * t * list (Z * event)) :=
  match ops with
  | [] => Some (now, st, tr)
  | o :: ops => if enabled now st o then let r := apply_op o now st in run ops r.1.1 r.1.2 (tr ++ ((now,.) <$> r.2)) else None
  end.

End stub.

End pings.
