(* ===== verification/PingsFacts.v ===== *)
(** * Pings: who is reported, and when

    An application is reported only if it did not answer for the configured time
    ([ping_error_justified]), and it is reported within twice that time while no other
    ping or answer comes in between ([ping_reported]).  With other pings it may be late
    or never reported. *)

From stdpp Require Import base list gmap sorting.
From Stdlib Require Import ZArith Lia.
From S2P Require Import Prelude Maps Pings.

Import pings.
Open Scope Z_scope.

Section facts.
Context (T : Z).

(** ** The loops *)

Definition sooner (now next : Z) (tp : Z * Z) : Z := if next >? duration_cast (now - tp.2) then duration_cast (now - tp.2) else next.

Lemma sooner_min now next tp : sooner now next tp = Z.min next (duration_cast (now - tp.2)).
Proof. unfold sooner. destruct (Z.gtb_spec next (duration_cast (now - tp.2))); lia. Qed.

Lemma sooner_fold now l : ∀ next, let r := foldl (sooner now) next l in
  r ≤ next ∧ Forall (λ tp, r ≤ duration_cast (now - tp.2)) l ∧ (r = next ∨ ∃ tp, tp ∈ l ∧ r = duration_cast (now - tp.2)).
Proof.
  induction l as [|tp l IH]; intros next r; [subst r; cbn; split_and!; [lia|constructor|by left]|].
  destruct (IH (sooner now next tp)) as (H1 & H2 & H3). change (foldl (sooner now) (sooner now next tp) l) with r in H1, H2, H3. clearbody r. rewrite sooner_min in *.
  split_and!; [lia|constructor; [lia|done]|]. destruct H3 as [E|(x & Hx & E)]; [|right; exists x; split; [by right|done]].
  destruct (Z.min_spec next (duration_cast (now - tp.2))) as [[? Em]|[? Em]]; rewrite Em in E; [by left|right; exists tp; split; [by left|done]].
Qed.

Lemma next_timeout_spec now m : next_timeout T now m ≤ T
  ∧ (∀ c tp, m !! c = Some tp → next_timeout T now m ≤ duration_cast (now - tp))
  ∧ (next_timeout T now m = T ∨ ∃ c tp, m !! c = Some tp ∧ next_timeout T now m = duration_cast (now - tp)).
Proof.
  destruct (sooner_fold now (sorted m) T) as (H1 & H2 & H3). split; [done|]. rewrite Forall_forall in H2. split.
  - intros c tp Hc. apply (H2 (c, tp)). by apply elem_of_sorted.
  - destruct H3 as [|([c tp] & Hc & E)]; [by left|right]. exists c, tp. split; [by apply elem_of_sorted|done].
Qed.

(** What is taken out of the table when the timer expires, and what is left. *)
Lemma timed_out_fold now l : ∀ acc, foldl (λ l tp, if timed_out T now tp then tp.1 :: l else l) acc l = reverse (filter (timed_out T now) l).*1 ++ acc.
Proof.
  induction l as [|tp l IH]; intros acc; [done|]. cbn [foldl]. rewrite IH, filter_cons. destruct (decide (timed_out T now tp)) as [E|E].
  - rewrite (Is_true_eq_true _ E), fmap_cons, reverse_cons. by rewrite <- app_assoc.
  - by rewrite (Is_true_false_1 _ E).
Qed.

Definition drop_late (now : Z) (m : gmap Z Z) (tp : Z * Z) : gmap Z Z := if timed_out T now tp then delete tp.1 m else m.

Lemma remaining_other now l : ∀ m c, (∀ tp, (c, tp) ∈ l → ¬ timed_out T now (c, tp)) → foldl (drop_late now) m l !! c = m !! c.
Proof.
  induction l as [|[k v] l IH]; intros m c Hc; [done|]. cbn [foldl]. rewrite IH by (intros; apply Hc; by right). unfold drop_late.
  destruct (timed_out T now (k, v)) eqn:E; [|done]. cbn. apply lookup_delete_ne. intros ->. apply (Hc v); [by left|by rewrite E].
Qed.

Lemma remaining_late now l : ∀ m c tp, (c, tp) ∈ l → timed_out T now (c, tp) → foldl (drop_late now) m l !! c = None.
Proof.
  assert (Hkeep : ∀ l m c, m !! c = None → foldl (drop_late now) m l !! c = None).
  { clear l. induction l as [|[k v] l IH]; intros m c Hc; [done|]. apply IH. unfold drop_late. destruct (timed_out _ _ _); [|done]. by apply lookup_delete_None; right. }
  induction l as [|[k v] l IH]; intros m c tp Hin Ht; [by apply not_elem_of_nil in Hin|]. apply elem_of_cons in Hin as [[= -> ->]|Hin]; [|by apply (IH _ _ tp)].
  cbn [foldl]. apply Hkeep. unfold drop_late. rewrite (Is_true_eq_true _ Ht). apply lookup_delete_eq.
Qed.

Definition left_over (now : Z) (m : gmap Z Z) : gmap Z Z := foldl (drop_late now) m (sorted m).

Lemma left_over_lookup now m c : left_over now m !! c = match m !! c with Some tp => if timed_out T now (c, tp) then None else Some tp | None => None end.
Proof.
  unfold left_over. destruct (m !! c) as [tp|] eqn:E.
  - destruct (timed_out T now (c, tp)) eqn:Et; [apply (remaining_late _ _ _ _ tp); [by apply elem_of_sorted|by rewrite Et]|].
    rewrite remaining_other; [done|]. intros tp' Hin%elem_of_sorted. replace tp' with tp by congruence. rewrite Et. intros [].
  - rewrite remaining_other; [done|]. intros tp' Hin%elem_of_sorted. congruence.
Qed.

Lemma left_over_sub now m c tp : left_over now m !! c = Some tp → m !! c = Some tp.
Proof. rewrite left_over_lookup. destruct (m !! c) as [tp'|]; [|done]. by destruct (timed_out T now (c, tp')). Qed.

Definition reported (now : Z) (m : gmap Z Z) : list Z := reverse (filter (timed_out T now) (sorted m)).*1.

Lemma elem_of_reported now m c : c ∈ reported now m ↔ ∃ tp, m !! c = Some tp ∧ timed_out T now (c, tp).
Proof.
  unfold reported. rewrite elem_of_reverse, list_elem_of_fmap. split.
  - intros ([k tp] & -> & Hin). apply list_elem_of_filter in Hin as [Ht Hin%elem_of_sorted]. by exists tp.
  - intros (tp & Hc & Ht). exists (c, tp). split; [done|]. apply list_elem_of_filter. split; [done|by apply elem_of_sorted].
Qed.

Lemma reported_NoDup now m : NoDup (reported now m).
Proof.
  unfold reported. rewrite reverse_Permutation. apply NoDup_fmap_fst.
  - intros x y1 y2 [_ H1%elem_of_sorted]%list_elem_of_filter [_ H2%elem_of_sorted]%list_elem_of_filter. congruence.
  - apply NoDup_filter. unfold sorted. rewrite merge_sort_Permutation. apply NoDup_map_to_list.
Qed.

Lemma on_ping_timer_expired_spec now st : on_ping_timer_expired T now st =
  (let m := left_over now (pinged_clients_ st) in
   if decide (m = ∅) then mk m (pinged_clients_timer_ st) (expired st) else mk m (Some (now + next_timeout T now m * millisecond)) (expired st),
   client_error <$> reported now (pinged_clients_ st)).
Proof. unfold on_ping_timer_expired. rewrite timed_out_fold, app_nil_r. done. Qed.

(** ** Reports are justified

    The table holds the pings that are the last event of their application. *)

Definition about (c : Z) (e : Z * event) : Prop := match e.2 with ev_ping c' | ev_pong c' | ev_error c' => c' = c end.
#[local] Instance about_dec c e : Decision (about c e).
Proof. unfold about. destruct e.2; apply _. Defined.

Definition last_about (c : Z) (tr : list (Z * event)) : option (Z * event) := last (filter (about c) tr).

Lemma last_about_snoc c tr e : last_about c (tr ++ [e]) = if decide (about c e) then Some e else last_about c tr.
Proof. unfold last_about. rewrite filter_app, filter_cons, filter_nil. destruct (decide _); [apply last_snoc|by rewrite app_nil_r]. Qed.

Lemma last_about_errors c now l : ∀ tr, last_about c (tr ++ ((now,.) <$> (event_of <$> (client_error <$> l)))) = if decide (c ∈ l) then Some (now, ev_error c) else last_about c tr.
Proof.
  induction l as [|c' l IH]; intros tr; cbn; [by rewrite app_nil_r|]. rewrite cons_middle, app_assoc, IH, last_about_snoc. unfold about. cbn.
  destruct (decide (c ∈ l)), (decide (c ∈ c' :: l)) as [Hin|Hin]; try done; rewrite elem_of_cons in Hin; [tauto| |].
  - destruct Hin as [->|]; [by rewrite decide_True|done].
  - rewrite decide_False; [done|]. intros ->. tauto.
Qed.

Definition justified (tr : list (Z * event)) : Prop :=
  ∀ tr1 tr2 now c, tr = tr1 ++ (now, ev_error c) :: tr2 → ∃ tp, last_about c tr1 = Some (tp, ev_ping c) ∧ T * millisecond ≤ now - tp.

Lemma justified_snoc tr e : justified tr → (∀ now c, e = (now, ev_error c) → ∃ tp, last_about c tr = Some (tp, ev_ping c) ∧ T * millisecond ≤ now - tp) → justified (tr ++ [e]).
Proof.
  intros Hj He tr1 tr2 now c E. destruct tr2 as [|e' tr2 _] using rev_ind; [apply app_inj_tail in E as [-> ->]; by apply He|].
  rewrite app_comm_cons, app_assoc in E. apply app_inj_tail in E as [-> _]. by apply (Hj _ tr2).
Qed.

Lemma justified_errors now l : ∀ tr, justified tr → NoDup l → (∀ c, c ∈ l → ∃ tp, last_about c tr = Some (tp, ev_ping c) ∧ T * millisecond ≤ now - tp) →
  justified (tr ++ ((now,.) <$> (event_of <$> (client_error <$> l)))).
Proof.
  induction l as [|c l IH]; intros tr Hj Hn Hl; cbn; [by rewrite app_nil_r|]. apply NoDup_cons in Hn as [Hc Hn]. rewrite cons_middle, app_assoc. apply IH; [|done|].
  - apply justified_snoc; [done|]. intros ? ? [= -> ->]. apply Hl. by left.
  - intros c' Hin. rewrite last_about_snoc, decide_False; [apply Hl; by right|]. unfold about. cbn. by intros ->.
Qed.

Definition table_last (st : t) (tr : list (Z * event)) : Prop := ∀ c tp, pinged_clients_ st !! c = Some tp ↔ last_about c tr = Some (tp, ev_ping c).

Lemma runs_justified now st tr : runs T now st tr → table_last st tr ∧ justified tr.
Proof.
  induction 1 as [now|now st tr o H [Ht Hj] Ho r]; [split; [intros c tp; cbn; by rewrite lookup_empty|intros [] ? ? ? [=]]|]. subst r. destruct o as [d| | |found sent c|c]; cbn -[on_ping_timer_expired send_ping remove_from_pinged_clients].
  - by rewrite app_nil_r.
  - by rewrite app_nil_r.
  - rewrite on_ping_timer_expired_spec. cbn. split.
    + intros c tp. rewrite last_about_errors. match goal with |- pinged_clients_ ?x !! _ = _ ↔ _ => replace (pinged_clients_ x) with (left_over now (pinged_clients_ st)) by (by destruct (decide _)) end.
      rewrite left_over_lookup. destruct (decide (c ∈ _)) as [(tp' & E & Hto)%elem_of_reported|Hno].
      * rewrite E, (Is_true_eq_true _ Hto). split; [done|intros [=]].
      * rewrite <- (Ht c tp). destruct (pinged_clients_ st !! c) as [tp'|] eqn:E; [|done]. destruct (timed_out T now (c, tp')) eqn:Eto; [|done]. destruct Hno. apply elem_of_reported. exists tp'. by rewrite Eto.
    + apply justified_errors; [done|apply reported_NoDup|]. intros c (tp & E & Hto)%elem_of_reported. exists tp. split; [by apply Ht|]. by apply Z.leb_le, Is_true_eq_true.
  - unfold send_ping. destruct found; [|cbn; by rewrite app_nil_r]. unfold has. case_bool_decide as Hc; [cbn; by rewrite app_nil_r|]. cbn. split.
    + intros c' tp. rewrite last_about_snoc. unfold about. cbn. destruct (decide (c = c')) as [<-|Hne]; [rewrite lookup_insert_eq; split; congruence|]. rewrite lookup_insert_ne by done. apply Ht.
    + by apply justified_snoc.
  - split; [|by apply justified_snoc]. intros c' tp. rewrite last_about_snoc. unfold about. cbn. unfold remove_from_pinged_clients.
    match goal with |- pinged_clients_ ?x !! _ = _ ↔ _ => assert (pinged_clients_ x = delete c (pinged_clients_ st)) as -> end.
    { destruct (decide (pinged_clients_ st = ∅)) as [->|]; [by rewrite delete_empty|]. by destruct (decide _). }
    destruct (decide (c = c')) as [<-|Hne]; [rewrite lookup_delete_eq; split; [done|intros [=]]|]. rewrite lookup_delete_ne by done. apply Ht.
Qed.

(** ** Pings are watched *)

Definition watched (now : Z) (st : t) : Prop :=
  (∀ c tp, pinged_clients_ st !! c = Some tp → tp ≤ now)
  ∧ (∀ d, pinged_clients_timer_ st = Some d → d ≤ now + T * millisecond)
  ∧ (pinged_clients_ st = ∅ ∨ is_Some (pinged_clients_timer_ st) ∨ expired st ≠ 0%nat).

Lemma watched_armed now m m' e : (∀ c tp, m !! c = Some tp → tp ≤ now) → watched now (mk m (Some (now + next_timeout T now m' * millisecond)) e).
Proof.
  intros Hm. split_and!; cbn; [done| |right; by left; eexists]. intros d [= <-]. destruct (next_timeout_spec now m') as (H & _). unfold millisecond. lia.
Qed.

Lemma watched_none now timer e : (∀ d, timer = Some d → d ≤ now + T * millisecond) → watched now (mk ∅ timer e).
Proof. intros Hd. split_and!; cbn; [by intros ??; rewrite lookup_empty|done|by left]. Qed.

Lemma watched_runs now st tr : runs T now st tr → watched now st.
Proof.
  induction 1 as [now|now st tr o H Hw Ho r]; [by apply watched_none|].
  pose proof Hw as (Hp & Hd & Ha). subst r. destruct o as [d| | |found sent c|c]; cbn -[on_ping_timer_expired send_ping remove_from_pinged_clients] in *.
  - apply Z.leb_le in Ho. split_and!; [|intros ? ?%Hd; lia|done]. intros ? ? ?%Hp. lia.
  - split_and!; [done|done|by right; right].
  - rewrite on_ping_timer_expired_spec. cbn. destruct (decide _) as [E|E]; cbn; [rewrite E; by apply watched_none|]. apply watched_armed.
    intros c tp ?%left_over_sub. by apply (Hp c).
  - unfold send_ping. destruct found; [|done]. destruct (has c _); [done|]. apply watched_armed.
    intros c' tp. cbn. destruct (decide (c' = c)) as [->|]; [rewrite lookup_insert_eq; intros [= ->]; lia|rewrite lookup_insert_ne by done; apply Hp].
  - unfold remove_from_pinged_clients. destruct (decide _); [done|]. cbn. destruct (decide _) as [E|E]; cbn; [rewrite E; by apply watched_none|]. apply watched_armed.
    cbn. intros c' tp [_ ?]%lookup_delete_Some. by eapply Hp.
Qed.

Lemma run_runs ops : ∀ now st tr now' st' tr', runs T now st tr → run T ops now st tr = Some (now', st', tr') → runs T now' st' tr'.
Proof.
  induction ops as [|o ops IH]; intros now st tr now' st' tr' H E; cbn in E; [by injection E as <- <- <-|]. destruct (enabled now st o) eqn:Eo; [|done].
  eapply IH; [|exact E]. by apply runs_step.
Qed.

(** ** Reports come

    Nothing but the timer happens: it expires on time and its handler runs at once. *)

Fixpoint watch (n : nat) (st : t) : list (Z * event) :=
  match n, pinged_clients_timer_ st with
  | S n, Some d =>
      let '(_, st, _) := apply_op T op_expire d st in
      let '(_, st, evs) := apply_op T op_handle d st in
      ((d,.) <$> evs) ++ watch n st
  | _, _ => []
  end.

Lemma watch_S n st d : pinged_clients_timer_ st = Some d → watch (S n) st =
  ((d,.) <$> (event_of <$> (client_error <$> reported d (pinged_clients_ st)))) ++
  (let m := left_over d (pinged_clients_ st) in
   if decide (m = ∅) then [] else watch n (mk m (Some (d + next_timeout T d m * millisecond)) (expired st))).
Proof.
  intros E. cbn -[on_ping_timer_expired]. rewrite E, on_ping_timer_expired_spec. cbn. f_equal. destruct (decide _); [by destruct n|done].
Qed.

Lemma duration_cast_spec x : 0 ≤ x → duration_cast x * millisecond ≤ x ∧ ∀ k, k * millisecond ≤ x → k ≤ duration_cast x.
Proof.
  intros Hx. unfold duration_cast. rewrite Z.quot_div_nonneg by (done || lia). unfold millisecond. split; [pose proof (Z.mul_div_le x 1000000); lia|].
  intros k Hk. apply Z.div_le_lower_bound; lia.
Qed.

Lemma watch_reports n : ∀ st d k c tp, 0 < T → pinged_clients_timer_ st = Some d → 1 ≤ k → T ≤ k + Z.of_nat n →
  (∀ c tp, pinged_clients_ st !! c = Some tp → tp + k * millisecond ≤ d) → pinged_clients_ st !! c = Some tp →
  ∃ r, (r, ev_error c) ∈ watch (S n) st ∧ tp + T * millisecond ≤ r ∧ (r = d ∨ r < tp + 2 * T * millisecond).
Proof.
  induction n as [|n IH]; intros st d k c tp HT Hd Hk Hn Hold Hc; rewrite (watch_S _ _ d) by done; (destruct (timed_out T d (c, tp)) eqn:E;
    [exists d; split_and!; [apply elem_of_app; left; apply list_elem_of_fmap; eexists; split; [done|]; apply list_elem_of_fmap; exists (client_error c); split; [done|]; apply list_elem_of_fmap_2, elem_of_reported; exists tp; by rewrite E|by unfold timed_out in E; cbn in E; lia|by left]|]).
  { apply Hold in Hc. unfold timed_out, millisecond in *. cbn in E. lia. }
  set (m := left_over d (pinged_clients_ st)). assert (Hm : m !! c = Some tp) by (subst m; by rewrite left_over_lookup, Hc, E).
  assert (Hsub : ∀ c tp, m !! c = Some tp → tp + k * millisecond ≤ d).
  { intros c' tp' Hc'. apply (Hold c'). subst m. by eapply left_over_sub. }
  cbn zeta. rewrite decide_False by (intros E'; by rewrite E' in Hm). destruct (next_timeout_spec d m) as (_ & Hle & Hnext).
  assert (H1 : 1 ≤ next_timeout T d m).
  { destruct Hnext as [->|(c' & tp' & Hc' & ->)]; [lia|]. apply Hsub in Hc'. apply duration_cast_spec; unfold millisecond in *; lia. }
  assert (H2 : d + next_timeout T d m * millisecond < tp + 2 * T * millisecond).
  { specialize (Hle _ _ Hm). apply Hsub in Hm. unfold timed_out in E. cbn in E. pose proof (proj1 (duration_cast_spec (d - tp) ltac:(unfold millisecond in *; lia))). unfold millisecond in *. lia. }
  destruct (IH (mk m (Some (d + next_timeout T d m * millisecond)) (expired st)) (d + next_timeout T d m * millisecond) (k + 1) c tp) as (r & Hr & Hlate & Hsoon); [done|done|lia|lia| |done|].
  - cbn. intros c' tp' Hc'%Hsub. unfold millisecond in *. lia.
  - exists r. split_and!; [by apply elem_of_app; right|done|right]. destruct Hsoon; lia.
Qed.

End facts.

(** (C16) An application is reported only if it was pinged, and neither answered nor was
    reported since, for at least the configured time. *)
Theorem ping_error_justified T now st tr1 tr2 t c (Hruns : runs T now st (tr1 ++ (t, ev_error c) :: tr2)) :
  ∃ tp, last_about c tr1 = Some (tp, ev_ping c) ∧ T * millisecond ≤ t - tp.
Proof. by apply runs_justified in Hruns as [_ Hj]; apply (Hj _ tr2). Qed.

(** (C15) In every run, while a ping is unanswered the timer is armed, to expire within the
    configured time, or its handler is about to run; when from then on only the timer
    acts, and it does not expire within the millisecond of a ping, every unanswered ping
    is reported: not before the configured time, and if not by this expiry of the timer
    then before twice the configured time has passed since the ping. *)
Theorem ping_reported T now st tr (HT : 0 < T) (Hruns : runs T now st tr) :
  (pinged_clients_ st ≠ ∅ → expired st ≠ 0%nat ∨ ∃ d, pinged_clients_timer_ st = Some d ∧ d ≤ now + T * millisecond)
  ∧ ∀ d c tp, pinged_clients_timer_ st = Some d → (∀ c tp, pinged_clients_ st !! c = Some tp → tp + millisecond ≤ d) → pinged_clients_ st !! c = Some tp →
      ∃ r, (r, ev_error c) ∈ watch T (Z.to_nat T) st ∧ tp + T * millisecond ≤ r ∧ (r = d ∨ r < tp + 2 * T * millisecond).
Proof.
  apply watched_runs in Hruns as (_ & Hd & Ha). split.
  - intros Hne. destruct Ha as [|[[d E]|]]; [done| |by left]. right. exists d. auto.
  - intros d c tp E Hold Hc. replace (Z.to_nat T) with (S (pred (Z.to_nat T))) by lia.
    apply (watch_reports T _ st d 1 c tp); [done|done|lia|lia| |done]. intros c' tp' ?%Hold. unfold millisecond in *. lia.
Qed.

Lemma ping_error_justified_witness : ∃ tp, last_about 7 [(0, ev_ping 7)] = Some (tp, ev_ping 7) ∧ 5000 * millisecond ≤ 5000 * millisecond - tp.
Proof.
  assert (R : ∃ now st, runs 5000 now st ([(0, ev_ping 7)] ++ (5000 * millisecond, ev_error 7) :: [])).
  { do 2 eexists. apply (run_runs 5000 [op_ping true true 7; op_elapse (5000 * millisecond); op_expire; op_handle] 0 create []); [constructor|vm_compute; reflexivity]. }
  destruct R as (now & st & R). apply (ping_error_justified 5000 now st _ _ _ _ R).
Defined.

(** Two applications pinged one second apart. *)
Definition two_pings : list op := [op_ping true true 1; op_elapse (1000 * millisecond); op_ping true true 2].

Definition two_pinged : t := mk {[1 := 0; 2 := 1000 * millisecond]} (Some (2000 * millisecond)) 0.

Lemma two_pings_run : runs 5000 (1000 * millisecond) two_pinged [(0, ev_ping 1); (1000 * millisecond, ev_ping 2)].
Proof. apply (run_runs 5000 two_pings 0 create []); [constructor|vm_compute; reflexivity]. Qed.

Lemma ping_reported_witness : ∃ r, (r, ev_error 2) ∈ watch 5000 (Z.to_nat 5000) two_pinged
  ∧ 1000 * millisecond + 5000 * millisecond ≤ r ∧ (r = 2000 * millisecond ∨ r < 1000 * millisecond + 2 * 5000 * millisecond).
Proof.
  apply (proj2 (ping_reported 5000 _ _ _ eq_refl two_pings_run)); [reflexivity| |reflexivity].
  intros c tp Hc. unfold two_pinged in Hc. cbn in Hc. apply lookup_insert_Some in Hc as [[_ <-]|[_ [_ <-]%lookup_singleton_Some]]; unfold millisecond; lia.
Defined.

(** ** Late and lost reports

    The timer is set to the time that has passed since a ping instead of the time that is
    left, so that the second application is reported after eight seconds. *)
Lemma ping_late : watch 5000 4 two_pinged = [(5000 * millisecond, ev_error 1); (9000 * millisecond, ev_error 2)].
Proof. vm_compute. reflexivity. Qed.

(** Another application that is pinged and answers now and then keeps the timer from
    ever expiring: the application that does not answer is never reported. *)
Definition other_answers (d : Z) : list op := [op_elapse d; op_ping true true 2; op_pong 2].
Definition unanswered (now : Z) : t := mk {[1 := 0]} (Some (now + 5000 * millisecond)) 0.

Lemma unanswered_next now : 5000 * millisecond ≤ now → next_timeout 5000 now {[1 := 0]} = 5000.
Proof.
  intros H. unfold next_timeout, sorted. rewrite map_to_list_singleton. cbn. destruct (duration_cast_spec (now - 0)) as [_ Hk]; [unfold millisecond in *; lia|].
  specialize (Hk 5000 ltac:(lia)). destruct (Z.gtb_spec 5000 (duration_cast (now - 0))); lia.
Qed.

Lemma unanswered_round now tr : 5000 * millisecond ≤ now →
  run 5000 (other_answers (4999 * millisecond)) now (unanswered now) tr
  = Some (now + 4999 * millisecond, unanswered (now + 4999 * millisecond), tr ++ [(now + 4999 * millisecond, ev_ping 2); (now + 4999 * millisecond, ev_pong 2)]).
Proof.
  intros Hn. assert (E : delete 2 (<[2 := now + 4999 * millisecond]> {[1 := 0]}) = ({[1 := 0]} : gmap Z Z)) by (rewrite delete_insert_eq; by apply delete_id).
  assert (Hp : ∃ timer, send_ping 5000 true true (now + 4999 * millisecond) 2 (unanswered now) = (true, mk (<[2 := now + 4999 * millisecond]> {[1 := 0]}) timer 0, [ping 2])) by (eexists; reflexivity).
  destruct Hp as [timer Hp]. assert (Hr : remove_from_pinged_clients 5000 (now + 4999 * millisecond) 2 (mk (<[2 := now + 4999 * millisecond]> {[1 := 0]}) timer 0) = unanswered (now + 4999 * millisecond)).
  { unfold remove_from_pinged_clients, cancel, expires_after. cbn [pinged_clients_ pinged_clients_timer_ expired]. rewrite decide_False by apply insert_non_empty.
    rewrite E, decide_False by apply insert_non_empty. by rewrite unanswered_next by (unfold millisecond in *; lia). }
  unfold other_answers. cbn [run enabled apply_op fst snd]. change (0 <=? 4999 * millisecond) with true. cbn [fst snd]. rewrite Hp. cbn [fst snd fmap list_fmap event_of]. rewrite Hr, app_nil_r, <- app_assoc. done.
Qed.

Lemma ping_starved n : ∃ tr, runs 5000 (12998 * millisecond + Z.of_nat n * (4999 * millisecond)) (unanswered (12998 * millisecond + Z.of_nat n * (4999 * millisecond))) tr
  ∧ Forall (λ e, e.2 ≠ ev_error 1) tr.
Proof.
  induction n as [|n (tr & Hr & Htr)].
  - eexists. split; [apply (run_runs 5000 ([op_ping true true 1] ++ other_answers (4000 * millisecond) ++ other_answers (3999 * millisecond) ++ other_answers (4999 * millisecond)) 0 create []); [constructor|vm_compute; reflexivity]|].
    repeat constructor; done.
  - set (now := 12998 * millisecond + Z.of_nat n * (4999 * millisecond)) in *.
    replace (12998 * millisecond + Z.of_nat (S n) * (4999 * millisecond)) with (now + 4999 * millisecond) by lia.
    eexists. split; [eapply run_runs; [exact Hr|apply unanswered_round; unfold millisecond in *; lia]|]. apply Forall_app_2; [done|]. repeat constructor; done.
Qed.
