(* ===== verification/Registry.v ===== *)
(** * The registry of local applications ([routing/src/routing_manager_stub.cpp])

    The stub of the routing manager keeps which applications are registered and what
    they offer ([routing_info_]), what they requested ([service_requests_]) and which of
    them know each other ([connection_matrix_]), and informs them of services and
    clients with routing information commands.  Registrations are queued and processed
    by a pool of threads.

    What the stub asks the routing manager (its host), the endpoints and the
    configuration is a record of queries, an argument of the operations; what it sends
    and calls are outputs.  An operation holds [routing_info_mutex_], or the mutex of
    the queue, and is atomic.  The side of the applications
    ([routing/src/routing_manager_client.cpp]) is how an application keeps its
    [local_services_] from the entries it receives. *)

From stdpp Require Import base list gmap sorting.
From Stdlib Require Import ZArith Lia.
From S2P Require Import Prelude Maps Protocol.

Open Scope Z_scope.

Definition VSOMEIP_ROUTING_CLIENT : Z := 0.
Definition ANY_INSTANCE : Z := 0xFFFF.
Definition ANY_MAJOR : Z := 0xFF.
Definition DEFAULT_MAJOR : Z := 0x00.
Definition DEFAULT_MINOR : Z := 0x00000000.
Definition ILLEGAL_PORT : Z := 0xFFFF.
Definition VSOMEIP_SEC_PORT_UNUSED : Z := 0.
Definition VSOMEIP_DEFAULT_REGISTER_THREAD_COUNT : nat := 2.

Inductive registration_type_e : Set := REGISTER | DEREGISTER | DEREGISTER_ON_ERROR.
#[export] Instance registration_type_eq_dec : EqDecision registration_type_e.
Proof. solve_decision. Defined.

Record vsomeip_sec_client_t : Type := mk_sec { user : Z; group : Z; host_address : Z; port : Z }.

(** [utility::compare] *)
Definition compare (l r : vsomeip_sec_client_t) : bool :=
  if port l =? port r then
    if port l =? VSOMEIP_SEC_PORT_UNUSED then (user l =? user r) && (group l =? group r)
    else (host_address l =? host_address r) && (port l =? port r)
  else false.

(** Versions of services, and services with their version and application. *)
Abbreviation versions_t := (gmap Z (gmap Z (Z * Z))).
Abbreviation services_t := (gmap Z (gmap Z (Z * Z * Z))).

Module routing_manager_stub.
Section stub.
Context {addr : Type} `{IpAddress addr}.

Import routing_info_entry_type_e.
Abbreviation entry := (routing_info_entry.t addr).

(** What the stub asks its host ([routing_manager_stub_host]), the endpoints and the
    configuration. *)
Record host : Type := mk_host {
  get_client : Z;
  find_local : Z → bool;
  get_guest : Z → option (addr * Z);
  find_local_client : Z → Z → Z;
  find_local_clients : Z → Z → list Z;
  get_requested_services : Z → list service;
  is_available : Z → Z → Z → bool;
  is_security_enabled : bool;
  get_client_to_sec_client_mapping : Z → option vsomeip_sec_client_t;
  get_reliable_port : Z → Z → Z;
  get_unreliable_port : Z → Z → Z
}.

Inductive output : Type :=
| routing_info (target : Z) (entries : list entry)
| config_command (client target : Z)
| security_credentials (target : Z) (credentials : list (Z * Z))
| offered_services (client : Z) (services : list service)
| call_unavailable (s i major minor : Z)
| call_stop_offer_service (client s i major minor : Z)
| call_remove_local (client : Z)
| call_disconnect_from (client : Z)
| call_release_client_id (client : Z)
| call_create_local_receiver
| call_send_policies (client : Z)
| call_handle_client_error (client : Z)
| send_ping (target : Z).

Record t : Type := mk {
  routing_info_ : gmap Z (Z * versions_t);
  service_requests_ : gmap Z versions_t;
  connection_matrix_ : gmap Z (gset Z)
}.

Definition create : t := mk ∅ ∅ ∅.

Definition with_routing_info x st := mk x (service_requests_ st) (connection_matrix_ st).
Definition with_service_requests x st := mk (routing_info_ st) x (connection_matrix_ st).
Definition with_connection_matrix x st := mk (routing_info_ st) (service_requests_ st) x.

(** [start]: the host is an application, too. *)
Definition start (h : host) (st : t) : t :=
  with_routing_info (<[get_client h := (0, (default (0, ∅) (routing_info_ st !! get_client h)).2)]> (routing_info_ st)) st.

(** ** Connections *)

Definition is_connected (source sink : Z) (st : t) : bool :=
  match connection_matrix_ st !! source with Some sinks => bool_decide (sink ∈ sinks) | None => false end.
Definition add_connection (source sink : Z) (st : t) : t :=
  with_connection_matrix (<[source := {[sink]} ∪ default ∅ (connection_matrix_ st !! source)]> (connection_matrix_ st)) st.
Definition remove_connection (source sink : Z) (st : t) : t :=
  match connection_matrix_ st !! source with
  | Some sinks => with_connection_matrix (<[source := sinks ∖ {[sink]}]> (connection_matrix_ st)) st
  | None => st
  end.
Definition remove_source (source : Z) (st : t) : t := with_connection_matrix (delete source (connection_matrix_ st)) st.

(** ** Commands *)

Definition send_client_routing_info (h : host) (target : Z) (entries : list entry) : list output :=
  if find_local h target then [routing_info target entries] else [].
Definition send_client_config_command (h : host) (client target : Z) : list output :=
  if find_local h target then [config_command client target] else [].
Definition send_client_credentials (h : host) (target : Z) (credentials : list (Z * Z)) : list output :=
  if find_local h target then [security_credentials target credentials] else [].

Definition entry_of (type client : Z) (services : list service) : entry := routing_info_entry.mk type client unspecified 0 services.
(** The entry with the address and the port of a guest. *)
Definition with_guest (h : host) (guest : Z) (e : entry) : entry :=
  match get_guest h guest with
  | Some (a, p) => routing_info_entry.mk (routing_info_entry.type_ e) (routing_info_entry.client_ e) a p (routing_info_entry.services_ e)
  | None => e
  end.

Definition is_application (h : host) (c : Z) : bool := negb (c =? VSOMEIP_ROUTING_CLIENT) && negb (c =? get_client h).

(** ** Requests and offers *)

(** [find(_service)], then the instance or any instance. *)
Definition requests (s i : Z) (r : versions_t) : bool :=
  match r !! s with Some instances => has i instances || has ANY_INSTANCE instances | None => false end.

Definition inform_requester (h : host) (hoster s i major minor type : Z) (inform_service : bool) (acc : t * list output) (c : Z * versions_t) : t * list output :=
  if requests s i c.2 then
    let acc :=
      if inform_service && is_application h hoster then
        (add_connection hoster c.1 acc.1,
         acc.2 ++ send_client_routing_info h hoster [with_guest h c.1 (entry_of RIE_ADD_CLIENT c.1 [])] ++ send_client_config_command h c.1 hoster)
      else acc in
    if is_application h c.1 then
      let its_entry := entry_of type hoster [] in
      let its_entry := if (type =? RIE_ADD_CLIENT) || (type =? RIE_ADD_SERVICE_INSTANCE) then with_guest h hoster its_entry else its_entry in
      let its_entry := routing_info_entry.mk (routing_info_entry.type_ its_entry) (routing_info_entry.client_ its_entry)
                         (routing_info_entry.address_ its_entry) (routing_info_entry.port_ its_entry) [mk_service s i major minor] in
      (add_connection c.1 hoster acc.1, acc.2 ++ send_client_routing_info h c.1 [its_entry])
    else acc
  else acc.

Definition inform_requesters (h : host) (hoster s i major minor type : Z) (inform_service : bool) (st : t) : t * list output :=
  foldl (inform_requester h hoster s i major minor type inform_service) (st, []) (sorted (service_requests_ st)).

Definition credentials_insert : Z * Z → list (Z * Z) → list (Z * Z) := oinsert pair_lt.

Definition distribute_credentials (h : host) (hoster s i : Z) (st : t) : list output :=
  let its_requesting_clients := (filter (λ c : Z * versions_t, requests s i c.2 = true) (sorted (service_requests_ st))).*1 in
  match get_client_to_sec_client_mapping h hoster with
  | Some its_sec_client =>
      mjoin ((λ c, match get_client_to_sec_client_mapping h c with
                   | Some its_requester => if compare its_sec_client its_requester then [] else send_client_credentials h c [(user its_sec_client, group its_sec_client)]
                   | None => []
                   end) <$> its_requesting_clients)
  | None => []
  end.

(** [routing_info_[_client].second[_service][_instance] = std::make_pair(_major, _minor)] *)
Definition add_offer (c s i major minor : Z) (ri : gmap Z (Z * versions_t)) : gmap Z (Z * versions_t) :=
  let x := default (0, ∅) (ri !! c) in <[c := (x.1, set2 s i (major, minor) x.2)]> ri.

Definition on_offer_service (h : host) (c s i major minor : Z) (st : t) : t * list output :=
  let receiver := if c =? get_client h then [call_create_local_receiver] else [] in
  let st := with_routing_info (add_offer c s i major minor (routing_info_ st)) st in
  let credentials := if is_security_enabled h then distribute_credentials h c s i st else [] in
  let '(st, out) := inform_requesters h c s i major minor RIE_ADD_SERVICE_INSTANCE true st in
  (st, receiver ++ credentials ++ out).

Definition on_stop_offer_service (h : host) (c s i major minor : Z) (st : t) : t * list output :=
  match routing_info_ st !! c with
  | Some (missing, services) =>
      match get2 s i services with
      | Some found_version =>
          if ((major =? found_version.1) && (minor =? found_version.2)) || ((major =? DEFAULT_MAJOR) && (minor =? DEFAULT_MINOR)) then
            inform_requesters h c s i major minor RIE_DELETE_SERVICE_INSTANCE false
              (with_routing_info (<[c := (missing, erase2 s i services)]> (routing_info_ st)) st)
          else (st, [])
      | None => (st, [])
      end
  | None => (st, [])
  end.

Definition contained_in_routing_info (c s i major minor : Z) (st : t) : bool :=
  match routing_info_ st !! c with
  | Some (_, services) => match get2 s i services with Some v => (v.1 =? major) && (v.2 =? minor) | None => false end
  | None => false
  end.

Definition is_registered (c : Z) (st : t) : bool := has c (routing_info_ st).

(** [handle_credentials] *)
Definition handle_credentials (h : host) (c : Z) (its_requests : list service) : list output :=
  if decide (its_requests = []) then []
  else
    match get_client_to_sec_client_mapping h c with
    | Some its_requester =>
        let its_offering_clients := set_of_list (mjoin ((λ r, find_local_clients h (service_ r) (instance_ r)) <$> its_requests)) in
        let its_credentials :=
          foldl (λ l x, match get_client_to_sec_client_mapping h x with
                        | Some its_sec_client =>
                            if (port its_sec_client =? VSOMEIP_SEC_PORT_UNUSED) && negb (compare its_sec_client its_requester)
                            then credentials_insert (user its_sec_client, group its_sec_client) l else l
                        | None => l
                        end) [] its_offering_clients in
        if decide (its_credentials = []) then [] else send_client_credentials h c its_credentials
    | None => []
    end.

(** In [handle_requests], the offering application [c] learns of the requesting one; an
    application that requests its own service learns it with the other entries. *)
Definition acquaint (h : host) (client c : Z) (acc : t * list output * list entry) : t * list output * list entry :=
  let '(st, out, its_entries) := acc in
  if is_application h c then
    let st := add_connection c client st in
    let its_entry := with_guest h client (entry_of RIE_ADD_CLIENT client []) in
    if client =? c then (st, out, its_entries ++ [its_entry])
    else (st, out ++ send_client_routing_info h c [its_entry] ++ send_client_config_command h client c, its_entries)
  else acc.

Definition offered_by (h : host) (client c s i : Z) (version : Z * Z) (acc : t * list output * list entry) : t * list output * list entry :=
  let '(st, out, its_entries) := acc in
  (add_connection client c st, out, its_entries ++ [with_guest h c (entry_of RIE_ADD_SERVICE_INSTANCE c [mk_service s i version.1 version.2])]).

Definition handle_any_instance (h : host) (client s : Z) (acc : t * list output * list entry) (c : Z) : t * list output * list entry :=
  let acc := acquaint h client c acc in
  if is_application h client then
    match routing_info_ acc.1.1 !! c with
    | Some (_, services) =>
        match services !! s with
        | Some instances => foldl (λ acc i, offered_by h client c s i.1 i.2 acc) acc (sorted instances)
        | None => acc
        end
    | None => acc
    end
  else acc.

Definition handle_instance (h : host) (client s i : Z) (acc : t * list output * list entry) : t * list output * list entry :=
  let c := find_local_client h s i in
  match routing_info_ acc.1.1 !! c with
  | Some (_, services) =>
      match get2 s i services with
      | Some version =>
          let acc := acquaint h client c acc in
          if is_application h client then offered_by h client c s i version acc else acc
      | None => acc
      end
  | None => acc
  end.

(** [service_requests_[_client][request.service_][request.instance_] = ...] *)
Definition add_request (client : Z) (r : service) (st : t) : t :=
  with_service_requests (<[client := set2 (service_ r) (instance_ r) (major_ r, minor_ r) (default ∅ (service_requests_ st !! client))]> (service_requests_ st)) st.

Definition handle_request (h : host) (client : Z) (acc : t * list output * list entry) (r : service) : t * list output * list entry :=
  let '(st, out, its_entries) := acc in
  let acc := (add_request client r st, out, its_entries) in
  if instance_ r =? ANY_INSTANCE
  then foldl (handle_any_instance h client (service_ r)) acc (set_insert VSOMEIP_ROUTING_CLIENT (find_local_clients h (service_ r) (instance_ r)))
  else handle_instance h client (service_ r) (instance_ r) acc.

(** [handle_requests]: the requests are a [std::set]. *)
Definition handle_requests (h : host) (client : Z) (its_requests : list service) (st : t) : t * list output :=
  let '(st, out, its_entries) := foldl (handle_request h client) (st, [], []) its_requests in
  (st, if decide (its_entries = []) then out else out ++ send_client_routing_info h client its_entries).

(** [on_offered_service_request] *)
Inductive offer_type_e : Set := OT_LOCAL | OT_REMOTE | OT_ALL.

Definition is_wanted (h : host) (type : offer_type_e) (s i : Z) : bool :=
  let has_port := negb (get_reliable_port h s i =? ILLEGAL_PORT) || negb (get_unreliable_port h s i =? ILLEGAL_PORT) in
  match type with OT_ALL => true | OT_LOCAL => negb has_port | OT_REMOTE => has_port end.

Definition on_offered_service_request (h : host) (client : Z) (type : offer_type_e) (st : t) : list output :=
  let services :=
    mjoin ((λ c : Z * (Z * versions_t),
      if c.1 =? VSOMEIP_ROUTING_CLIENT then []
      else mjoin ((λ s : Z * gmap Z (Z * Z), (λ i : Z * (Z * Z), mk_service s.1 i.1 i.2.1 i.2.2) <$> filter (λ i : Z * (Z * Z), is_wanted h type s.1 i.1 = true) (sorted s.2))
                  <$> sorted c.2.2)) <$> sorted (routing_info_ st)) in
  if find_local h client then [offered_services client services] else [].

(** ** Registration *)

Definition remove_client_connections (h : host) (c : Z) (st : t) : t * list output :=
  let '(st, out) :=
    match connection_matrix_ st !! c with
    | Some sinks =>
        (remove_source c st,
         mjoin ((λ x, if negb (x =? c) && is_application h x then send_client_routing_info h x [entry_of RIE_DELETE_CLIENT c []] else []) <$> set_of_list (elements sinks)))
    | None => (st, [])
    end in
  let st := foldl (λ st x, remove_connection x.1 c st) st (sorted (connection_matrix_ st)) in
  let st := with_service_requests (delete c (service_requests_ st)) st in
  (st, out ++ [call_remove_local c; call_disconnect_from c]).

(** [connected] says whether the endpoint of the application was found and connected in
    time; the policies that concern the application are sent by [call_send_policies]. *)
Definition on_register_application (h : host) (connected : bool) (c : Z) (st : t) : t * list output * bool :=
  let st := with_routing_info (<[c := (0, (default (0, ∅) (routing_info_ st !! c)).2)]> (routing_info_ st)) st in
  if connected then (st, [call_send_policies c], true)
  else let '(st, out) := remove_client_connections h c st in (st, call_send_policies c :: out, false).

Definition on_deregister_application (c : Z) (st : t) : t * list output :=
  match routing_info_ st !! c with
  | Some (_, services) =>
      (with_routing_info (delete c (routing_info_ st)) st,
       mjoin ((λ s : Z * gmap Z (Z * Z),
         mjoin ((λ i : Z * (Z * Z), [call_unavailable s.1 i.1 i.2.1 i.2.2; call_stop_offer_service c s.1 i.1 i.2.1 i.2.2]) <$> sorted s.2)) <$> sorted services))
  | None => (st, [])
  end.

Definition on_register_application_ack (h : host) (c : Z) : list output :=
  mjoin ((λ r,
    let service_provider_client := find_local_client h (service_ r) (instance_ r) in
    if is_application h service_provider_client then
      let type := if is_available h (service_ r) (instance_ r) (major_ r) then RIE_ADD_SERVICE_INSTANCE else RIE_DELETE_SERVICE_INSTANCE in
      send_client_routing_info h c [with_guest h service_provider_client (entry_of type service_provider_client [r])]
    else []) <$> get_requested_services h c).

(** One type of the loop of [registration_func]; the result says whether the loop goes on. *)
Definition registration_step (h : host) (connected : bool) (c : Z) (type : registration_type_e) (st : t) : t * list output * bool :=
  let '(st, out) := on_deregister_application c st in
  let '(st, out, continue_registration) :=
    if decide (type = REGISTER) then let '(st, out', b) := on_register_application h connected c st in (st, out ++ out', b) else (st, out, true) in
  if continue_registration then
    let '(st, out) :=
      if decide (type = DEREGISTER_ON_ERROR) then (st, out)
      else
        let st := add_connection c c st in
        if decide (type = REGISTER) then (st, out ++ [call_send_policies c] ++ send_client_routing_info h c [with_guest h c (entry_of RIE_ADD_CLIENT c [])])
        else (st, out ++ send_client_routing_info h c [entry_of RIE_DELETE_CLIENT c []]) in
    if decide (type = REGISTER) then (st, out, true)
    else let '(st, out') := remove_client_connections h c st in (st, out ++ out' ++ [call_release_client_id c], true)
  else (st, out, false).

Fixpoint registration_func (h : host) (connected : list bool) (c : Z) (types : list registration_type_e) (st : t) : t * list output :=
  match types with
  | [] => (st, [])
  | type :: types =>
      let '(st, out, b) := registration_step h (hd false connected) c type st in
      if b then let '(st, out') := registration_func h (tl connected) c types st in (st, out ++ out') else (st, out)
  end.

(** ** Watchdog *)

(** [broadcast] of a ping command. *)
Definition broadcast_ping (h : host) (st : t) : list output :=
  send_ping <$> filter (λ c, is_application h c = true ∧ find_local h c = true) (sorted (routing_info_ st)).*1.

(** [check_watchdog] and, half a timeout later, its callback. *)
Definition check_watchdog (h : host) (st : t) : t * list output :=
  let st := with_routing_info ((λ x : Z * versions_t, (wrap 8 (x.1 + 1), x.2)) <$> routing_info_ st) st in
  (st, broadcast_ping h st).

Definition watchdog_callback (h : host) (get_allowed_missing_pongs : Z) (st : t) : list output :=
  (λ x : Z * (Z * versions_t), call_handle_client_error x.1)
  <$> filter (λ x : Z * (Z * versions_t), 0 < x.1 ∧ x.1 ≠ get_client h ∧ get_allowed_missing_pongs < x.2.1) (sorted (routing_info_ st)).

(** The part of [on_pong] on the registry. *)
Definition on_pong (c : Z) (st : t) : t :=
  match routing_info_ st !! c with Some x => with_routing_info (<[c := (0, x.2)]> (routing_info_ st)) st | None => st end.

End stub.
End routing_manager_stub.

(** ** The queue of registrations *)

Module registrations.

Record t : Type := mk { pending_client_registrations_queue_ : list (Z * list registration_type_e); clients_in_progress_ : gset Z }.

Definition create : t := mk [] ∅.

(** The insertion of [update_registration]. *)
Fixpoint enqueue (c : Z) (type : registration_type_e) (q : list (Z * list registration_type_e)) : list (Z * list registration_type_e) :=
  match q with
  | [] => [(c, [type])]
  | (c', types) :: q =>
      if c' =? c then (c', if decide (last types = Some type) then types else types ++ [type]) :: q
      else (c', types) :: enqueue c type q
  end.

Definition update_registration (c : Z) (type : registration_type_e) (st : t) : t := mk (enqueue c type (pending_client_registrations_queue_ st)) (clients_in_progress_ st).

Definition new_client_to_process (st : t) : bool * t :=
  match pending_client_registrations_queue_ st with
  | [] => (false, st)
  | (c, types) :: q =>
      if bool_decide (c ∈ clients_in_progress_ st) then
        if (length (pending_client_registrations_queue_ st) =? 1)%nat then (false, st)
        else (true, mk (q ++ [(c, types)]) (clients_in_progress_ st))
      else (true, st)
  end.

(** [client_registration_func]: the predicate of the condition variable and what a
    thread takes when it holds, and the end of the processing. *)
Definition take (st : t) : option (Z * list registration_type_e) * t :=
  let '(b, st) := new_client_to_process st in
  if b then
    match pending_client_registrations_queue_ st with
    | [] => (None, st)
    | x :: q => (Some x, mk q ({[x.1]} ∪ clients_in_progress_ st))
    end
  else (None, st).

Definition finish (c : Z) (st : t) : t := mk (pending_client_registrations_queue_ st) (clients_in_progress_ st ∖ {[c]}).

End registrations.

(** ** The side of the applications *)

Module routing_manager_client.
Section client.
Context {addr : Type} `{IpAddress addr}.

Import routing_info_entry_type_e.

(** The services of [remove_local] in [routing_manager_base.cpp]. *)
Definition remove_local_services (c : Z) (ls : services_t) : services_t :=
  let its_services := mjoin ((λ s : Z * gmap Z (Z * Z * Z), (λ i : Z * (Z * Z * Z), (s.1, i.1)) <$> filter (λ i : Z * (Z * Z * Z), i.2.2 = c) (sorted s.2)) <$> sorted ls) in
  foldl (λ ls si, erase2 si.1 si.2 ls) ls its_services.

(** What an entry does to [local_services_] of the application [own]; the credentials of
    the application are good. *)
Definition on_routing_info_entry (own : Z) (e : routing_info_entry.t addr) (ls : services_t) : services_t :=
  let its_client := routing_info_entry.client_ e in
  let type := routing_info_entry.type_ e in
  if type =? RIE_DELETE_CLIENT then
    if negb (its_client =? own) && negb (its_client =? VSOMEIP_ROUTING_CLIENT) then remove_local_services its_client ls else ls
  else if type =? RIE_ADD_SERVICE_INSTANCE then
    foldl (λ ls x, set2 (service_ x) (instance_ x) (major_ x, minor_ x, its_client) ls) ls (routing_info_entry.services_ e)
  else if type =? RIE_DELETE_SERVICE_INSTANCE then
    foldl (λ ls x, erase2 (service_ x) (instance_ x) ls) ls (routing_info_entry.services_ e)
  else ls.

Definition on_routing_info (own : Z) (entries : list (routing_info_entry.t addr)) (ls : services_t) : services_t := foldl (λ ls e, on_routing_info_entry own e ls) ls entries.

End client.
End routing_manager_client.
