(* ===== verification/RegistryFacts.v ===== *)
(** * The registry: what applications know about services

    Under what the host promises, every application knows exactly the offered services
    that it requested ([requesters_view]); registrations of an application are processed
    in order and one at a time ([registration_exclusive]). *)

From stdpp Require Import base list gmap sorting.
From Stdlib Require Import ZArith Lia.
From S2P Require Import Prelude Maps Protocol ProtocolFacts Registry.

Import routing_manager_stub routing_manager_client routing_info_entry_type_e.
Open Scope Z_scope.

Section facts.
Context {addr : Type} `{IpAddress addr}.
Abbreviation entry := (routing_info_entry.t addr).
Abbreviation host := (routing_manager_stub.host (addr := addr)).
Abbreviation output := (routing_manager_stub.output (addr := addr)).

(** ** Iterations that concern one element *)

Lemma mjoin_cons {A B} (f : A → list B) x l : mjoin (f <$> x :: l) = f x ++ mjoin (f <$> l).
Proof. done. Qed.

Lemma mjoin_nothing {A B} (f : A → list B) l : (∀ x, x ∈ l → f x = []) → mjoin (f <$> l) = [].
Proof. induction l as [|x l IH]; intros Hf; [done|]. cbn. rewrite Hf by (by left). apply IH. intros y Hy. apply Hf. by right. Qed.

Lemma mjoin_only {A B} (f : A → list B) l x : NoDup l → x ∈ l → (∀ y, y ∈ l → y ≠ x → f y = []) → mjoin (f <$> l) = f x.
Proof.
  induction l as [|y l IH]; intros Hn Hx Hf; [by apply not_elem_of_nil in Hx|]. apply NoDup_cons in Hn as [Hy Hn]. cbn. apply elem_of_cons in Hx as [->|Hx].
  - rewrite mjoin_nothing; [apply app_nil_r|]. intros z Hz. apply Hf; [by right|]. by intros ->.
  - rewrite Hf by (by left || by intros ->). apply IH; [done|done|]. intros z Hz. apply Hf. by right.
Qed.

Lemma mjoin_sorted {A B} (f : Z * A → list B) (m : gmap Z A) k : (∀ x, x.1 ≠ k → f x = []) → mjoin (f <$> sorted m) = match m !! k with Some a => f (k, a) | None => [] end.
Proof.
  intros Hf. destruct (m !! k) as [a|] eqn:E.
  - apply mjoin_only; [unfold sorted; rewrite merge_sort_Permutation; apply NoDup_map_to_list|by apply elem_of_sorted|].
    intros [k' b] Hin%elem_of_sorted Hne. apply Hf. cbn. intros ->. congruence.
  - apply mjoin_nothing. intros [k' b] Hin%elem_of_sorted. apply Hf. cbn. intros ->. congruence.
Qed.

(** ** What is offered and requested *)

Definition offers (c s i : Z) (st : t) : option (Z * Z) := routing_info_ st !! c ≫= λ x, get2 s i x.2.
Definition requested (r s i : Z) (st : t) : bool := match service_requests_ st !! r with Some x => requests s i x | None => false end.

Lemma requests_get2 s i (r : versions_t) : requests s i r = true ↔ is_Some (get2 s i r) ∨ is_Some (get2 s ANY_INSTANCE r).
Proof.
  unfold requests, get2, has. destruct (r !! s) as [x|]; cbn; [|split; [done|intros [[? [=]]|[? [=]]]]]. by rewrite orb_true_iff, !bool_decide_eq_true.
Qed.

(** ** What an application receives *)

Definition is_news (e : entry) : Prop := routing_info_entry.type_ e ≠ RIE_ADD_CLIENT.
#[local] Instance is_news_dec e : Decision (is_news e).
Proof. unfold is_news. apply _. Defined.

(** The entries an application gets, less those that only name clients. *)
Definition news (r : Z) (out : list output) : list entry :=
  mjoin ((λ o, match o with routing_info target entries => if decide (target = r) then filter is_news entries else [] | _ => [] end) <$> out).

Lemma news_app r out1 out2 : news r (out1 ++ out2) = news r out1 ++ news r out2.
Proof. unfold news. by rewrite fmap_app, join_app. Qed.

Lemma news_mjoin {A} r (f : A → list output) l : news r (mjoin (f <$> l)) = mjoin ((λ x, news r (f x)) <$> l).
Proof. induction l as [|x l IH]; [done|]. by rewrite !mjoin_cons, news_app, IH. Qed.

Lemma on_routing_info_news own entries : ∀ ls, on_routing_info own entries ls = on_routing_info own (filter is_news entries) ls.
Proof.
  induction entries as [|e entries IH]; intros ls; [done|]. unfold on_routing_info in *. cbn [foldl]. rewrite filter_cons, IH. destruct (decide (is_news e)) as [Hn|Hn]; [done|].
  f_equal. unfold is_news in Hn. apply dec_stable in Hn. unfold on_routing_info_entry. by rewrite Hn.
Qed.

Lemma on_routing_info_app own (l1 l2 : list entry) ls : on_routing_info own (l1 ++ l2) ls = on_routing_info own l2 (on_routing_info own l1 ls).
Proof. apply foldl_app. Qed.

Lemma news_send h target r entries : news r (send_client_routing_info h target entries) = if decide (target = r ∧ find_local h target = true) then filter is_news entries else [].
Proof.
  unfold send_client_routing_info. destruct (find_local h target) eqn:E; cbn; [|rewrite decide_False; [done|intros [_ [=]]]].
  destruct (decide (target = r)) as [->|]; [rewrite decide_True by done|rewrite decide_False by tauto; done]. apply app_nil_r.
Qed.

Lemma news_config h client target r : news r (send_client_config_command h client target) = [].
Proof. unfold send_client_config_command. by destruct (find_local h target). Qed.

(** ** Maps of services *)

Lemma get2_remove_local c s i (ls : services_t) : get2 s i (remove_local_services c ls) = match get2 s i ls with Some v => if decide (v.2 = c) then None else Some v | None => None end.
Proof.
  unfold remove_local_services. etransitivity; [apply (get2_erase_each id)|]. rewrite list_fmap_id.
  destruct (decide _) as [(s' & i' & v & Hg & Hv & [= <- <-])%(elem_of_matching _ (λ s (i : Z * (Z * Z * Z)), (s, i.1)))|Hno]; [rewrite Hg; by rewrite decide_True|].
  destruct (get2 s i ls) as [v|] eqn:E; [|done]. rewrite decide_False; [done|]. intros Hv. apply Hno, (elem_of_matching _ (λ s (i : Z * (Z * Z * Z)), (s, i.1))). by exists s, i, v.
Qed.

(** ** Connections *)

Lemma is_connected_add a b x y (st : t) : is_connected a b (add_connection x y st) = bool_decide (a = x ∧ b = y) || is_connected a b st.
Proof.
  unfold is_connected, add_connection. cbn. destruct (decide (a = x)) as [->|Hne]; [rewrite lookup_insert_eq|rewrite lookup_insert_ne by done; rewrite bool_decide_eq_false_2 by tauto; done].
  destruct (connection_matrix_ st !! x) as [sinks|]; cbn; apply eq_bool_prop_intro; rewrite !orb_True, !bool_decide_spec || rewrite !orb_True, bool_decide_spec, bool_decide_spec; set_unfold; tauto.
Qed.

(** ** Informing requesters *)

Definition service_entry (h : host) (hoster s i major minor type : Z) : entry :=
  let e := entry_of type hoster [] in let e := if (type =? RIE_ADD_CLIENT) || (type =? RIE_ADD_SERVICE_INSTANCE) then with_guest h hoster e else e in
  routing_info_entry.mk (routing_info_entry.type_ e) (routing_info_entry.client_ e) (routing_info_entry.address_ e) (routing_info_entry.port_ e) [mk_service s i major minor].

Section inform.
Context (h : host) (hoster s i major minor type : Z) (inform_service : bool).

Definition informed (c : Z * versions_t) : list output :=
  if requests s i c.2 then
    (if inform_service && is_application h hoster then send_client_routing_info h hoster [with_guest h c.1 (entry_of RIE_ADD_CLIENT c.1 [])] ++ send_client_config_command h c.1 hoster else [])
    ++ (if is_application h c.1 then send_client_routing_info h c.1 [service_entry h hoster s i major minor type] else [])
  else [].

Definition connect (st : t) (c : Z * versions_t) : t :=
  if requests s i c.2 then
    let st := if inform_service && is_application h hoster then add_connection hoster c.1 st else st in
    if is_application h c.1 then add_connection c.1 hoster st else st
  else st.

Lemma inform_requester_eq acc c : inform_requester h hoster s i major minor type inform_service acc c = (connect acc.1 c, acc.2 ++ informed c).
Proof.
  unfold inform_requester, connect, informed. destruct acc as [st out], (requests s i c.2); [|by rewrite app_nil_r]. cbn [fst snd].
  destruct (inform_service && is_application h hoster), (is_application h c.1); cbn [fst snd]; rewrite ?app_nil_r, ?app_nil_l, ?app_assoc; done.
Qed.

Lemma inform_fold l : ∀ acc, foldl (inform_requester h hoster s i major minor type inform_service) acc l = (foldl connect acc.1 l, acc.2 ++ mjoin (informed <$> l)).
Proof.
  induction l as [|c l IH]; intros [st out]; cbn [foldl]; [by rewrite app_nil_r|]. rewrite inform_requester_eq, IH. cbn [fst snd]. by rewrite mjoin_cons, app_assoc.
Qed.

Lemma type_with_guest guest e : routing_info_entry.type_ (with_guest h guest e) = routing_info_entry.type_ e ∧ routing_info_entry.client_ (with_guest h guest e) = routing_info_entry.client_ e
  ∧ routing_info_entry.services_ (with_guest h guest e) = routing_info_entry.services_ e.
Proof. unfold with_guest. destruct (get_guest h guest) as [[a p]|]; done. Qed.

Lemma not_news guest c : filter is_news [with_guest h guest (entry_of RIE_ADD_CLIENT c [])] = [].
Proof. rewrite filter_cons, decide_False; [done|]. unfold is_news. rewrite (proj1 (type_with_guest _ _)). by intros []. Qed.

Lemma service_entry_fields : let e := service_entry h hoster s i major minor type in
  routing_info_entry.type_ e = type ∧ routing_info_entry.client_ e = hoster ∧ routing_info_entry.services_ e = [mk_service s i major minor].
Proof. unfold service_entry. destruct (_ || _); cbn; [destruct (type_with_guest hoster (entry_of type hoster [])) as (-> & -> & _)|]; done. Qed.

Lemma news_informed r c : type ≠ RIE_ADD_CLIENT → news r (informed c) = if decide (c.1 = r ∧ requests s i c.2 = true ∧ is_application h r = true ∧ find_local h r = true) then [service_entry h hoster s i major minor type] else [].
Proof.
  intros Ht. unfold informed. destruct (requests s i c.2) eqn:E; [|rewrite decide_False; [done|by intros (_ & ? & _)]]. rewrite news_app.
  assert (news r (if inform_service && is_application h hoster then send_client_routing_info h hoster [with_guest h c.1 (entry_of RIE_ADD_CLIENT c.1 [])] ++ send_client_config_command h c.1 hoster else []) = []) as ->.
  { destruct (_ && _); [|done]. rewrite news_app, news_send, news_config, not_news. by destruct (decide _). }
  destruct (is_application h c.1) eqn:Ea; [|rewrite decide_False; [done|intros (<- & _ & ? & _); congruence]]. cbn [app]. rewrite news_send.
  assert (filter is_news [service_entry h hoster s i major minor type] = [service_entry h hoster s i major minor type]) as ->.
  { rewrite filter_cons, decide_True; [done|]. unfold is_news. by rewrite (proj1 service_entry_fields). }
  destruct (decide (c.1 = r ∧ find_local h c.1 = true)) as [[<- Hl]|Hno]; [by rewrite decide_True|]. rewrite decide_False; [done|]. intros (<- & _ & _ & ?). tauto.
Qed.

Lemma news_inform st r : type ≠ RIE_ADD_CLIENT →
  news r (inform_requesters h hoster s i major minor type inform_service st).2 = if decide (requested r s i st = true ∧ is_application h r = true ∧ find_local h r = true) then [service_entry h hoster s i major minor type] else [].
Proof.
  intros Ht. unfold inform_requesters. rewrite inform_fold. cbn [snd app]. rewrite news_mjoin, (mjoin_sorted _ _ r).
  - unfold requested. destruct (service_requests_ st !! r) as [x|]; [|rewrite decide_False; [done|by intros (? & _)]]. rewrite news_informed by done. cbn.
    destruct (decide (r = r ∧ _)), (decide (requests s i x = true ∧ _)); tauto.
  - intros x Hx. rewrite news_informed, decide_False by tauto. done.
Qed.

Lemma connect_fold l : ∀ st, let st' := foldl connect st l in
  routing_info_ st' = routing_info_ st ∧ service_requests_ st' = service_requests_ st ∧ (∀ a b, is_connected a b st = true → is_connected a b st' = true)
  ∧ (∀ c, c ∈ l → requests s i c.2 = true → inform_service && is_application h hoster = true → is_connected hoster c.1 st' = true).
Proof.
  induction l as [|c l IH]; intros st; cbn [foldl]; [split_and!; [done..|]; by intros ? ?%not_elem_of_nil|]. destruct (IH (connect st c)) as (H1 & H2 & H3 & H4). rewrite H1, H2.
  assert (Hc : routing_info_ (connect st c) = routing_info_ st ∧ service_requests_ (connect st c) = service_requests_ st ∧ (∀ a b, is_connected a b st = true → is_connected a b (connect st c) = true)
    ∧ (requests s i c.2 = true → inform_service && is_application h hoster = true → is_connected hoster c.1 (connect st c) = true)).
  { unfold connect. destruct (requests s i c.2); [|done]. destruct (inform_service && _), (is_application h c.1); split_and!; try done; intros; rewrite ?is_connected_add, ?orb_true_iff, ?bool_decide_eq_true; auto. }
  destruct Hc as (K1 & K2 & K3 & K4). split_and!; [done|done|auto|]. intros c' [->|Hin]%elem_of_cons; auto.
Qed.

Lemma inform_state st : let st' := (inform_requesters h hoster s i major minor type inform_service st).1 in
  routing_info_ st' = routing_info_ st ∧ service_requests_ st' = service_requests_ st ∧ (∀ a b, is_connected a b st = true → is_connected a b st' = true)
  ∧ (∀ r, requested r s i st = true → inform_service && is_application h hoster = true → is_connected hoster r st' = true).
Proof.
  unfold inform_requesters. rewrite inform_fold. destruct (connect_fold (sorted (service_requests_ st)) st) as (H1 & H2 & H3 & H4). split_and!; [done..|].
  intros r Hr Hs. unfold requested in Hr. destruct (service_requests_ st !! r) as [x|] eqn:E; [|done]. apply (H4 (r, x)); [by apply elem_of_sorted|done|done].
Qed.

End inform.

(** ** Views

    What the applications know: an application gets the entries sent to it; what it
    knows is gone when its connection is removed. *)

Definition view (r : Z) (views : gmap Z services_t) : services_t := default ∅ (views !! r).

Definition deliver (views : gmap Z services_t) (o : output) : gmap Z services_t :=
  match o with
  | routing_info target entries => <[target := on_routing_info target entries (view target views)]> views
  | call_remove_local c => delete c views
  | _ => views
  end.

Lemma view_deliver r out : ∀ views, call_remove_local r ∉ out → view r (foldl deliver views out) = on_routing_info r (news r out) (view r views).
Proof.
  induction out as [|o out IH]; intros views Ho; [done|]. apply not_elem_of_cons in Ho as [Ho Hout]. cbn [foldl]. rewrite IH by done. change (o :: out) with ([o] ++ out). rewrite news_app.
  rewrite on_routing_info_app. f_equal.
  destruct o as [target entries| | | | | |c| | | | | |]; try done; unfold news; cbn -[on_routing_info].
  - unfold view at 1. destruct (decide (target = r)) as [->|Hne]; [rewrite lookup_insert_eq|by rewrite lookup_insert_ne by done]. cbn -[on_routing_info]. by rewrite app_nil_r, <- on_routing_info_news.
  - unfold view. rewrite lookup_delete_ne; [done|]. by intros ->.
Qed.

Definition application (me c : Z) : Prop := c ≠ VSOMEIP_ROUTING_CLIENT ∧ c ≠ me.

Lemma is_application_iff (h : host) c : is_application h c = true ↔ application (get_client h) c.
Proof. unfold is_application, application. rewrite andb_true_iff, !negb_true_iff, !Z.eqb_neq. done. Qed.

(** Every application knows the offered services it requested, and the applications that
    offer them know it. *)
Record good (me : Z) (st : t) (views : gmap Z services_t) : Prop := mk_good {
  good_unique : ∀ s i c v c' v', offers c s i st = Some v → offers c' s i st = Some v' → c = c';
  good_view : ∀ r s i v c, application me r → get2 s i (view r views) = Some (v, c) ↔ requested r s i st = true ∧ offers c s i st = Some v;
  good_connected : ∀ r s i v c, application me r → application me c → requested r s i st = true → offers c s i st = Some v → is_connected c r st = true
}.

(** The host reaches the applications that requested something. *)
Definition reaches (me : Z) (h : host) (st : t) : Prop := get_client h = me ∧ ∀ r, application me r → is_Some (service_requests_ st !! r) → find_local h r = true.

Lemma requested_reached me h st r s i : reaches me h st → application me r → requested r s i st = true → is_application h r = true ∧ find_local h r = true.
Proof.
  intros [<- Hl] Hr Hq. split; [by apply is_application_iff|]. apply Hl; [done|]. unfold requested in Hq. by destruct (service_requests_ st !! r).
Qed.

(** ** Offers *)

Lemma offers_add c s i major minor (st : t) c' s' i' :
  offers c' s' i' (with_routing_info (add_offer c s i major minor (routing_info_ st)) st) = if decide (c' = c ∧ s' = s ∧ i' = i) then Some (major, minor) else offers c' s' i' st.
Proof.
  unfold offers, add_offer. cbn. destruct (decide (c' = c)) as [->|Hne]; [rewrite lookup_insert_eq|rewrite lookup_insert_ne by done; rewrite decide_False by tauto; done]. cbn. rewrite get2_set2.
  destruct (decide (s' = s ∧ i' = i)), (decide (c = c ∧ s' = s ∧ i' = i)); try tauto. by destruct (routing_info_ st !! c).
Qed.

Lemma add_entry r h c s i major minor ls s' i' :
  get2 s' i' (on_routing_info r [service_entry h c s i major minor RIE_ADD_SERVICE_INSTANCE] ls) = if decide (s' = s ∧ i' = i) then Some (major, minor, c) else get2 s' i' ls.
Proof.
  unfold on_routing_info, on_routing_info_entry. cbn [foldl]. destruct (service_entry_fields h c s i major minor RIE_ADD_SERVICE_INSTANCE) as (-> & -> & ->). cbn -[set2 get2]. by rewrite get2_set2.
Qed.

Lemma delete_entry r h c s i major minor ls s' i' :
  get2 s' i' (on_routing_info r [service_entry h c s i major minor RIE_DELETE_SERVICE_INSTANCE] ls) = if decide (s' = s ∧ i' = i) then None else get2 s' i' ls.
Proof.
  unfold on_routing_info, on_routing_info_entry. cbn [foldl]. destruct (service_entry_fields h c s i major minor RIE_DELETE_SERVICE_INSTANCE) as (-> & -> & ->). cbn -[erase2 get2]. by rewrite get2_erase2.
Qed.

(** Outputs that remove no connection. *)
Definition keeps (out : list output) : Prop := ∀ r, call_remove_local r ∉ out.

Lemma keeps_app out1 out2 : keeps out1 → keeps out2 → keeps (out1 ++ out2).
Proof. intros H1 H2 r [?|?]%elem_of_app; [by apply (H1 r)|by apply (H2 r)]. Qed.

Lemma keeps_nil : keeps [].
Proof. intros r ?%not_elem_of_nil. done. Qed.

Lemma keeps_mjoin {A} (f : A → list output) l : (∀ x, keeps (f x)) → keeps (mjoin (f <$> l)).
Proof. intros Hf. induction l as [|x l IH]; [apply keeps_nil|]. rewrite mjoin_cons. by apply keeps_app. Qed.

Lemma keeps_one o : (∀ r, o ≠ call_remove_local r) → keeps [o].
Proof. intros Ho r <-%list_elem_of_singleton. by apply (Ho r). Qed.

Lemma keeps_send h target entries : keeps (send_client_routing_info h target entries).
Proof. unfold send_client_routing_info. destruct (find_local h target); [by apply keeps_one|apply keeps_nil]. Qed.

Lemma keeps_config h c target : keeps (send_client_config_command h c target).
Proof. unfold send_client_config_command. destruct (find_local h target); [by apply keeps_one|apply keeps_nil]. Qed.

Lemma keeps_inform h c s i major minor type inform st : keeps (inform_requesters h c s i major minor type inform st).2.
Proof.
  unfold inform_requesters. rewrite inform_fold. cbn [snd app]. apply keeps_mjoin. intros x. unfold informed. destruct (requests _ _ _); [|apply keeps_nil].
  apply keeps_app; destruct (_ && _) || destruct (is_application _ _); auto using keeps_app, keeps_send, keeps_config, keeps_nil.
Qed.

Lemma distribute_quiet h c s i st : keeps (distribute_credentials h c s i st) ∧ ∀ r, news r (distribute_credentials h c s i st) = [].
Proof.
  unfold distribute_credentials. destruct (get_client_to_sec_client_mapping h c) as [x|]; [|split; [apply keeps_nil|done]]. split.
  - apply keeps_mjoin. intros y. destruct (get_client_to_sec_client_mapping h y); [|apply keeps_nil]. destruct (compare _ _); [apply keeps_nil|]. unfold send_client_credentials. destruct (find_local h y); [by apply keeps_one|apply keeps_nil].
  - intros r. rewrite news_mjoin. apply mjoin_nothing. intros y _. destruct (get_client_to_sec_client_mapping h y); [|done]. destruct (compare _ _); [done|]. unfold send_client_credentials. by destruct (find_local h y).
Qed.

(** The outputs of an offer tell every requester. *)
Lemma offer_quiet h c s i major minor st : let out := (on_offer_service h c s i major minor st).2 in
  keeps out ∧ ∀ r, news r out = if decide (requested r s i st = true ∧ is_application h r = true ∧ find_local h r = true) then [service_entry h c s i major minor RIE_ADD_SERVICE_INSTANCE] else [].
Proof.
  unfold on_offer_service. set (st' := with_routing_info _ st). pose proof (keeps_inform h c s i major minor RIE_ADD_SERVICE_INSTANCE true st') as Hk. pose proof (λ r, news_inform h c s i major minor RIE_ADD_SERVICE_INSTANCE true st' r ltac:(done)) as Hn.
  destruct (inform_requesters _ _ _ _ _ _ _ _ _) as [st'' out]. cbn [snd] in *. destruct (distribute_quiet h c s i st') as [Hdk Hdn]. split.
  - apply keeps_app; [destruct (_ =? _); [by apply keeps_one|apply keeps_nil]|]. apply keeps_app; [|done]. destruct (is_security_enabled h); [done|apply keeps_nil].
  - intros r. rewrite !news_app, Hn. replace (news r (if c =? get_client h then _ else [])) with (@nil entry) by (by destruct (_ =? _)).
    replace (news r (if is_security_enabled h then _ else [])) with (@nil entry) by (by destruct (is_security_enabled h)). done.
Qed.

Lemma offer_good me h c s i major minor st views : good me st views → reaches me h st → (∀ c', c' ≠ c → offers c' s i st = None) →
  let r := on_offer_service h c s i major minor st in good me r.1 (foldl deliver views r.2).
Proof.
  intros [Hu Hv Hc] Hreach Hfree r. destruct (offer_quiet h c s i major minor st) as [Hk Hn]. fold r in Hk, Hn.
  destruct (inform_state h c s i major minor RIE_ADD_SERVICE_INSTANCE true (with_routing_info (add_offer c s i major minor (routing_info_ st)) st)) as (H1 & H2 & H3 & H4).
  assert (E : r.1 = (inform_requesters h c s i major minor RIE_ADD_SERVICE_INSTANCE true (with_routing_info (add_offer c s i major minor (routing_info_ st)) st)).1) by (subst r; unfold on_offer_service; by destruct (inform_requesters _ _ _ _ _ _ _ _ _)).
  assert (Hq : ∀ x s' i', requested x s' i' r.1 = requested x s' i' st) by (intros; unfold requested; by rewrite E, H2).
  assert (Ho : ∀ c' s' i', offers c' s' i' r.1 = if decide (c' = c ∧ s' = s ∧ i' = i) then Some (major, minor) else offers c' s' i' st) by (intros; rewrite <- offers_add; unfold offers; by rewrite E, H1).
  split.
  - intros s' i' c1 v1 c2 v2. rewrite !Ho. destruct (decide (c1 = c ∧ s' = s ∧ i' = i)) as [(-> & -> & ->)|], (decide (c2 = c ∧ _)) as [(-> & E1 & E2)|]; intros HE1 HE2.
    + done.
    + destruct (decide (c2 = c)) as [|Hne]; [done|]. rewrite (Hfree _ Hne) in HE2. done.
    + subst. destruct (decide (c1 = c)) as [|Hne]; [done|]. rewrite (Hfree _ Hne) in HE1. done.
    + by eapply Hu.
  - intros x s' i' v c' Hx. rewrite view_deliver by apply Hk. rewrite Hn, Hq, Ho. destruct (decide (requested x s i st = true ∧ _)) as [[Hr _]|Hno].
    + rewrite add_entry. destruct (decide (s' = s ∧ i' = i)) as [[-> ->]|Hne].
      * destruct (decide (c' = c ∧ s = s ∧ i = i)) as [(-> & _)|Hne]; [split; [by intros [= <-]|by intros [_ [= <-]]]|]. rewrite (Hfree c') by tauto. split; [intros [= _ <-]; tauto|by intros [_ [=]]].
      * rewrite decide_False by tauto. by apply Hv.
    + cbn. destruct (decide (c' = c ∧ s' = s ∧ i' = i)) as [(-> & -> & ->)|]; [|by apply Hv]. rewrite (Hv x s i v c Hx). split; [intros [Hr _]|intros [Hr _]]; destruct Hno; split; try done; by eapply requested_reached.
  - intros x s' i' v c' Hx Hc'. rewrite Hq, Ho, E. destruct (decide (c' = c ∧ s' = s ∧ i' = i)) as [(-> & -> & ->)|].
    + intros Hr _. apply H4; [exact Hr|]. destruct Hreach as [<- _]. by apply is_application_iff.
    + intros Hr Hof. apply H3. by apply (Hc x s' i' v).
Qed.

Lemma offers_erase c s i (st : t) missing services c' s' i' : routing_info_ st !! c = Some (missing, services) →
  offers c' s' i' (with_routing_info (<[c := (missing, erase2 s i services)]> (routing_info_ st)) st) = if decide (c' = c ∧ s' = s ∧ i' = i) then None else offers c' s' i' st.
Proof.
  intros E. unfold offers. cbn. destruct (decide (c' = c)) as [->|Hne]; [rewrite lookup_insert_eq, E|rewrite lookup_insert_ne by done; rewrite decide_False by tauto; done]. cbn. rewrite get2_erase2.
  destruct (decide (s' = s ∧ i' = i)), (decide (c = c ∧ s' = s ∧ i' = i)); tauto.
Qed.

Lemma stop_good me h c s i major minor st views : good me st views → reaches me h st →
  let r := on_stop_offer_service h c s i major minor st in good me r.1 (foldl deliver views r.2).
Proof.
  intros Hg Hreach r. subst r. unfold on_stop_offer_service. destruct (routing_info_ st !! c) as [[missing services]|] eqn:E; [|done]. destruct (get2 s i services) as [found|] eqn:Ef; [|done]. destruct (_ || _); [|done].
  set (st' := with_routing_info _ st). destruct (inform_state h c s i major minor RIE_DELETE_SERVICE_INSTANCE false st') as (H1 & H2 & H3 & _).
  pose proof (keeps_inform h c s i major minor RIE_DELETE_SERVICE_INSTANCE false st') as Hk. pose proof (λ r, news_inform h c s i major minor RIE_DELETE_SERVICE_INSTANCE false st' r ltac:(done)) as Hn.
  destruct (inform_requesters _ _ _ _ _ _ _ _ _) as [st'' out]. cbn [fst snd] in *. destruct Hg as [Hu Hv Hc].
  assert (Hq : ∀ x s' i', requested x s' i' st'' = requested x s' i' st) by (intros; unfold requested; by rewrite H2).
  assert (Ho : ∀ c' s' i', offers c' s' i' st'' = if decide (c' = c ∧ s' = s ∧ i' = i) then None else offers c' s' i' st) by (intros; rewrite <- (offers_erase c s i st missing services) by done; unfold offers; by rewrite H1).
  assert (Hof : offers c s i st = Some found) by (unfold offers; by rewrite E).
  split.
  - intros s' i' c1 v1 c2 v2. rewrite !Ho. destruct (decide (c1 = c ∧ _)); [done|]. destruct (decide (c2 = c ∧ _)); [done|]. apply Hu.
  - intros x s' i' v c' Hx. rewrite view_deliver by apply Hk. rewrite Hn, Hq, Ho. change (requested x s i st') with (requested x s i st). destruct (decide (requested x s i st = true ∧ _)) as [[Hr _]|Hno].
    + rewrite delete_entry. destruct (decide (s' = s ∧ i' = i)) as [[-> ->]|Hne]; [|rewrite decide_False by tauto; by apply Hv]. split; [done|].
      destruct (decide (c' = c ∧ _)) as [|Hne]; [by intros [_ [=]]|]. intros [_ Hof']. pose proof (Hu _ _ _ _ _ _ Hof Hof'). subst. tauto.
    + cbn. destruct (decide (c' = c ∧ s' = s ∧ i' = i)) as [(-> & -> & ->)|]; [|by apply Hv]. rewrite (Hv x s i v c Hx). split; [intros [Hr _]|by intros [_ [=]]]; destruct Hno; split; try done; by eapply requested_reached.
  - intros x s' i' v c' Hx Hc'. rewrite Hq, Ho. destruct (decide (c' = c ∧ _)); [done|]. intros Hr Hof'. apply H3. by apply (Hc x s' i' v).
Qed.

(** ** Requests *)

Section request.
Context (h : host) (client : Z) (views : gmap Z services_t).
Abbreviation acc_t := (t * list output * list entry)%type.

(** What the requesting application will know. *)
Definition virtual (acc : acc_t) : services_t := on_routing_info client acc.2 (view client views).

(** Answering a request adds connections and tells nobody else about services. *)
Record grows (acc acc' : acc_t) : Prop := mk_grows {
  grows_info : routing_info_ acc'.1.1 = routing_info_ acc.1.1;
  grows_requests : service_requests_ acc'.1.1 = service_requests_ acc.1.1;
  grows_connected : ∀ a b, is_connected a b acc.1.1 = true → is_connected a b acc'.1.1 = true;
  grows_news : ∀ r, news r acc'.1.2 = news r acc.1.2;
  grows_keeps : keeps acc.1.2 → keeps acc'.1.2
}.

Lemma grows_refl acc : grows acc acc.
Proof. done. Qed.

Lemma grows_trans a b c : grows a b → grows b c → grows a c.
Proof. intros [] []. split; [congruence|congruence|auto|congruence|auto]. Qed.

Lemma offers_grows acc acc' c s i : grows acc acc' → offers c s i acc'.1.1 = offers c s i acc.1.1.
Proof. intros []. unfold offers. congruence. Qed.

(** The services at [P] were looked up and are known now. *)
Definition answers (P : Z → Z → Z → Prop) (acc acc' : acc_t) : Prop :=
  grows acc acc' ∧ ∀ s i,
  (∀ c v, P c s i → offers c s i acc.1.1 = Some v → get2 s i (virtual acc') = Some (v, c) ∧ (is_application h c = true → is_connected c client acc'.1.1 = true))
  ∧ ((∀ c, P c s i → offers c s i acc.1.1 = None) → get2 s i (virtual acc') = get2 s i (virtual acc)).

Lemma answers_nothing acc acc' : grows acc acc' → virtual acc' = virtual acc → answers (λ _ _ _, False) acc acc'.
Proof. intros Hg Hv. split; [done|]. intros s i. split; [done|]. by rewrite Hv. Qed.

Lemma answers_weaken (P Q : Z → Z → Z → Prop) acc acc' : answers P acc acc' → (∀ c s i, P c s i → Q c s i) → (∀ c s i v, Q c s i → offers c s i acc.1.1 = Some v → P c s i) → answers Q acc acc'.
Proof.
  intros [Hg Ha] HPQ HQP. split; [done|]. intros s i. destruct (Ha s i) as [Ha1 Ha2]. split; [intros c v HQ Ho; eauto|]. intros Hno. apply Ha2. intros c HP. auto.
Qed.

Definition unique (acc : acc_t) : Prop := ∀ s i c v c' v', offers c s i acc.1.1 = Some v → offers c' s i acc.1.1 = Some v' → c = c'.

Lemma answers_trans (P Q : Z → Z → Z → Prop) a b c : unique a → answers P a b → answers Q b c → answers (λ x s i, P x s i ∨ Q x s i) a c.
Proof.
  intros Hu [Hg1 H1] [Hg2 H2]. split; [by eapply grows_trans|]. intros s i. destruct (H1 s i) as [H1a H1b], (H2 s i) as [H2a H2b].
  assert (Hof : ∀ x, offers x s i b.1.1 = offers x s i a.1.1) by (intros; by apply offers_grows). split.
  - intros x v HPQ Ho. destruct (decide (get2 s i (virtual c) = get2 s i (virtual b))) as [Heq|Hne].
    + destruct HPQ as [HP|HQ]; [|apply H2a; [done|by rewrite Hof]]. destruct (H1a x v HP Ho) as [Hv Hcn]. rewrite Heq. split; [done|]. intros Hx. apply (grows_connected _ _ Hg2). auto.
    + destruct HPQ as [HP|HQ]; [|apply H2a; [done|by rewrite Hof]]. destruct (H1a x v HP Ho) as [Hv Hcn]. 
      split; [|intros Hx; apply (grows_connected _ _ Hg2); auto].
      destruct (decide (get2 s i (virtual c) = Some (v, x))) as [|Hn]; [done|]. exfalso. apply Hne, H2b. intros y HQ. destruct (offers y s i b.1.1) as [w|] eqn:Ey; [|done].
      destruct (H2a y w HQ Ey) as [Hy _]. rewrite Hof in Ey. pose proof (Hu _ _ _ _ _ _ Ho Ey) as <-. congruence.
  - intros Hno. rewrite H2b by (intros x HQ; rewrite Hof; auto). apply H1b. auto.
Qed.

Lemma unique_grows acc acc' : unique acc → grows acc acc' → unique acc'.
Proof. intros Hu Hg s i c v c' v'. rewrite !(offers_grows _ _ _ _ _ Hg). apply Hu. Qed.

Lemma answers_fold {A} (J : acc_t → Prop) (P : A → Z → Z → Z → Prop) (f : acc_t → A → acc_t) l : (∀ acc acc', J acc → grows acc acc' → J acc') →
  (∀ a acc, a ∈ l → unique acc → J acc → answers (P a) acc (f acc a)) → ∀ acc, unique acc → J acc → answers (λ c s i, ∃ a, a ∈ l ∧ P a c s i) acc (foldl f acc l).
Proof.
  intros HJ. induction l as [|a l IH]; intros Hf acc Hu Hj; cbn [foldl].
  - eapply answers_weaken; [apply (answers_nothing acc acc); [done|done]|done|]. by intros ? ? ? ? (? & ?%not_elem_of_nil & _).
  - pose proof (Hf a acc ltac:(by left) Hu Hj) as Ha. eapply answers_weaken; [eapply answers_trans; [done|exact Ha|apply IH]| |].
    + intros b acc' Hb. apply Hf. by right.
    + eapply unique_grows; [done|apply Ha].
    + eapply HJ; [done|apply Ha].
    + intros c s i [HP|(b & Hb & HP)]; [exists a|exists b]; (split; [by constructor|done]).
    + intros c s i v (b & [->|Hb]%elem_of_cons & HP) _; [by left|right; by exists b].
Qed.

Lemma acquaint_spec c acc : grows acc (acquaint h client c acc) ∧ virtual (acquaint h client c acc) = virtual acc
  ∧ (is_application h c = true → is_connected c client (acquaint h client c acc).1.1 = true).
Proof.
  destruct acc as [[st out] ents]. unfold acquaint. destruct (is_application h c); [|by split_and!]. destruct (Z.eqb_spec client c) as [->|Hne]; split_and!; try done.
  - split; try done. intros a b Hab. cbn in *. rewrite is_connected_add, Hab. apply orb_true_r.
  - unfold virtual. cbn [fst snd]. rewrite on_routing_info_app, (on_routing_info_news _ [_]), not_news. done.
  - intros _. cbn. rewrite is_connected_add, bool_decide_eq_true_2 by done. done.
  - split; try done.
    + intros a b Hab. cbn in *. rewrite is_connected_add, Hab. apply orb_true_r.
    + intros r. cbn [fst snd]. rewrite !news_app, news_send, news_config, not_news. by destruct (decide _); rewrite app_nil_r.
    + intros Hk. cbn [fst snd]. apply keeps_app; [done|]. apply keeps_app; [apply keeps_send|apply keeps_config].
  - intros _. cbn. rewrite is_connected_add, bool_decide_eq_true_2 by done. done.
Qed.

Lemma offered_by_answers c s i v acc : offers c s i acc.1.1 = Some v → (is_application h c = true → is_connected c client acc.1.1 = true) →
  answers (λ c' s' i', c' = c ∧ s' = s ∧ i' = i) acc (offered_by h client c s i v acc).
Proof.
  intros Ho Hc. destruct acc as [[st out] ents], v as [major minor]. cbn in Ho, Hc. unfold offered_by. split.
  - split; try done. intros a b Hab. cbn in *. rewrite is_connected_add, Hab. apply orb_true_r.
  - intros s' i'. unfold virtual. cbn [fst snd]. rewrite on_routing_info_app. set (ls := on_routing_info client ents _).
    assert (E : ∀ s' i', get2 s' i' (on_routing_info client [with_guest h c (entry_of RIE_ADD_SERVICE_INSTANCE c [mk_service s i major minor])] ls) = if decide (s' = s ∧ i' = i) then Some (major, minor, c) else get2 s' i' ls).
    { intros. unfold on_routing_info, on_routing_info_entry. cbn [foldl]. destruct (type_with_guest h c (entry_of RIE_ADD_SERVICE_INSTANCE c [mk_service s i major minor])) as (-> & -> & ->). cbn -[set2 get2]. by rewrite get2_set2. }
    rewrite E. split.
    + intros ? v (-> & -> & ->) Ho'. rewrite decide_True by done. replace v with (major, minor) by congruence. split; [done|]. intros Ha. rewrite is_connected_add, (Hc Ha). apply orb_true_r.
    + intros Hno. rewrite decide_False; [done|]. intros [-> ->]. rewrite (Hno c) in Ho by done. done.
Qed.

Lemma handle_instance_answers s i acc : is_application h client = true → unique acc →
  answers (λ c' s' i', c' = find_local_client h s i ∧ s' = s ∧ i' = i) acc (handle_instance h client s i acc).
Proof.
  intros Ha Hu. unfold handle_instance. set (c := find_local_client h s i). destruct (offers c s i acc.1.1) as [v|] eqn:Eo.
  - pose proof Eo as ([missing services] & E & Eg)%bind_Some. rewrite E. cbn in Eg. rewrite Eg, Ha. destruct (acquaint_spec c acc) as (Hg & Hv & Hc).
    eapply answers_weaken; [eapply answers_trans; [done|apply answers_nothing; [exact Hg|exact Hv]|apply offered_by_answers; [by rewrite (offers_grows _ _ _ _ _ Hg)|done]]| |]; cbn; [tauto|auto].
  - assert (Es : ∀ acc', match routing_info_ acc.1.1 !! c with Some (_, services) => match get2 s i services with Some version => acc' version | None => acc end | None => acc end = acc).
    { intros acc'. unfold offers in Eo. destruct (routing_info_ acc.1.1 !! c) as [[missing services]|]; [|done]. cbn in Eo. by rewrite Eo. }
    rewrite Es. eapply answers_weaken; [by apply (answers_nothing acc acc)|done|]. intros ? ? ? ? (-> & -> & ->). congruence.
Qed.

Lemma handle_any_answers s c acc : is_application h client = true → unique acc → answers (λ c' s' _, c' = c ∧ s' = s) acc (handle_any_instance h client s acc c).
Proof.
  intros Ha Hu. unfold handle_any_instance. rewrite Ha. destruct (acquaint_spec c acc) as (Hg & Hv & Hc). set (acc1 := acquaint h client c acc) in *.
  assert (Hu1 : unique acc1) by (by eapply unique_grows).
  assert (H0 : (∀ i, offers c s i acc1.1.1 = None) → answers (λ c' s' _, c' = c ∧ s' = s) acc acc1).
  { intros Hno. eapply answers_weaken; [apply answers_nothing; [exact Hg|exact Hv]|done|]. intros c' s' i v (-> & ->) Ho. rewrite <- (offers_grows _ _ _ _ _ Hg), Hno in Ho. done. }
  destruct (routing_info_ acc1.1.1 !! c) as [[missing services]|] eqn:E; [|apply H0; intros i; unfold offers; by rewrite E].
  destruct (services !! s) as [instances|] eqn:Es; [|apply H0; intros i; unfold offers, get2; rewrite E; cbn; by rewrite Es].
  eapply answers_weaken; [eapply answers_trans; [done|apply answers_nothing; [exact Hg|exact Hv]|]| |].
  - apply (answers_fold (λ acc, routing_info_ acc.1.1 = routing_info_ acc1.1.1 ∧ (is_application h c = true → is_connected c client acc.1.1 = true)) (λ iv c' s' i', c' = c ∧ s' = s ∧ i' = iv.1)); [| |done|done].
    + intros a b [Hi Hcn] Hgr. split; [by rewrite (grows_info _ _ Hgr)|]. intros Hx. apply (grows_connected _ _ Hgr). auto.
    + intros [i v] acc' Hin%elem_of_sorted _ [Hi Hcn]. apply offered_by_answers; [|done]. unfold offers, get2. rewrite Hi, E. cbn. by rewrite Es.
  - intros c' s' i [[]|(iv & _ & -> & -> & ->)]. done.
  - intros c' s' i v (-> & ->) Ho. right. rewrite <- (offers_grows _ _ _ _ _ Hg) in Ho. exists (i, v). split; [|done]. apply elem_of_sorted. unfold offers, get2 in Ho. rewrite E in Ho. cbn in Ho. by rewrite Es in Ho.
Qed.

Definition covers (r : service) (s i : Z) : Prop := s = service_ r ∧ (i = instance_ r ∨ instance_ r = ANY_INSTANCE).

Lemma requested_add r c s i (st : t) : requested c s i (add_request client r st) = true ↔ requested c s i st = true ∨ (c = client ∧ covers r s i).
Proof.
  unfold requested, add_request, covers. cbn. destruct (decide (c = client)) as [->|Hne]; [rewrite lookup_insert_eq|rewrite lookup_insert_ne by done; tauto].
  rewrite requests_get2, !get2_set2. assert (E : (match service_requests_ st !! client with Some x => requests s i x | None => false end) = requests s i (default ∅ (service_requests_ st !! client))) by (by destruct (service_requests_ st !! client)).
  rewrite E, requests_get2. destruct (decide (s = service_ r ∧ i = instance_ r)) as [[-> ->]|H1]; [split; [right; auto|left; by eexists]|].
  destruct (decide (s = service_ r ∧ ANY_INSTANCE = instance_ r)) as [[-> <-]|H2]; [split; [right; auto|right; by eexists]|].
  split; [tauto|]. intros [?|(_ & -> & [->|Hi])]; [done|tauto|]. symmetry in Hi. tauto.
Qed.

(** The state in which a request is answered, for the applications. *)
Definition answered (me : Z) (acc : acc_t) : Prop := good me acc.1.1 (<[client := virtual acc]> views) ∧ keeps acc.1.2 ∧ ∀ r, news r acc.1.2 = [].

Lemma view_insert r (ls : services_t) : view r (<[client := ls]> views) = if decide (r = client) then ls else view r views.
Proof. unfold view. destruct (decide (r = client)) as [->|]; [by rewrite lookup_insert_eq|by rewrite lookup_insert_ne]. Qed.

Lemma offers_dec s i (st : t) : (∃ c v, offers c s i st = Some v) ∨ (∀ c, offers c s i st = None).
Proof.
  destruct (decide (map_Forall (λ _ x, get2 s i x.2 = None) (routing_info_ st))) as [Hall|Hex].
  - right. intros c. unfold offers. destruct (routing_info_ st !! c) as [x|] eqn:E; [|done]. by apply (Hall c).
  - left. apply map_not_Forall in Hex as (c & x & E & Hx); [|intros; apply _]. destruct (get2 s i x.2) as [v|] eqn:Ev; [|done]. exists c, v. unfold offers. by rewrite E.
Qed.

(** The view of the requesting application. *)
Lemma request_view (P : Z → Z → Z → Prop) r st acc old : (∀ s i c v c' v', offers c s i st = Some v → offers c' s i st = Some v' → c = c') →
  (∀ s i v c, get2 s i old = Some (v, c) ↔ requested client s i st = true ∧ offers c s i st = Some v) →
  (∀ s i, (∀ c v, P c s i → offers c s i st = Some v → get2 s i (virtual acc) = Some (v, c)) ∧ ((∀ c, P c s i → offers c s i st = None) → get2 s i (virtual acc) = get2 s i old)) →
  (∀ c s i, P c s i → covers r s i) → (∀ c s i v, covers r s i → offers c s i st = Some v → P c s i) →
  ∀ s i v c, get2 s i (virtual acc) = Some (v, c) ↔ (requested client s i st = true ∨ covers r s i) ∧ offers c s i st = Some v.
Proof.
  intros Hu Hv Ha HPc HcP s i v c. destruct (Ha s i) as [H1 H2]. destruct (offers_dec s i st) as [(c0 & v0 & H0)|Hnone].
  - assert (Hd : Decision (covers r s i)) by (unfold covers; apply _). destruct Hd as [Hcov|Hcov].
    + rewrite (H1 c0 v0) by eauto. split; [intros [= <- <-]; auto|]. intros [_ Hc]. pose proof (Hu _ _ _ _ _ _ Hc H0) as <-. congruence.
    + rewrite H2 by (intros c' HP; by apply HPc in HP). rewrite Hv. tauto.
  - rewrite H2 by done. rewrite Hv, Hnone. split; intros [_ [=]].
Qed.

Lemma request_answered me r P st out ents acc : get_client h = me → answered me (st, out, ents) → grows (add_request client r st, out, ents) acc →
  (is_application h client = true → answers P (add_request client r st, out, ents) acc) → (∀ c s i, P c s i → covers r s i) → (∀ c s i v, covers r s i → offers c s i st = Some v → P c s i) → answered me acc.
Proof.
  intros Hme ([Hu Hv Hc] & Hk & Hn) Hg Ha HPc HcP. cbn [fst snd] in *.
  assert (Ho : ∀ c s i, offers c s i acc.1.1 = offers c s i st) by (intros; by rewrite (offers_grows _ _ _ _ _ Hg)).
  assert (Hq : ∀ c s i, requested c s i acc.1.1 = true ↔ requested c s i st = true ∨ (c = client ∧ covers r s i)) by (intros; rewrite <- requested_add; unfold requested; by rewrite (grows_requests _ _ Hg)).
  assert (Happ : application me client → is_application h client = true) by (rewrite <- Hme; apply is_application_iff).
  split_and!; [|by apply (grows_keeps _ _ Hg)|intros x; by rewrite (grows_news _ _ Hg)]. split.
  - intros s i c v c' v'. rewrite !Ho. apply Hu.
  - intros x s i v c Hx. rewrite view_insert, Ho, Hq. destruct (decide (x = client)) as [->|Hne]; [|].
    + rewrite (request_view P r st acc (virtual (st, out, ents))); [tauto|done| | |done|done].
      * intros s' i' v' c'. rewrite <- (Hv client s' i' v' c' Hx), view_insert, decide_True by done. done.
      * intros s' i'. destruct (Ha (Happ Hx)) as [_ Hans]. destruct (Hans s' i') as [H1 H2]. split; [intros c' v' HP Hof; by apply (H1 c' v')|exact H2].
    + specialize (Hv x s i v c Hx). rewrite view_insert, decide_False in Hv by done. rewrite Hv. tauto.
  - intros x s i v c Hx Hcc. rewrite Hq, Ho. intros [Hr|[-> Hcov]] Hof; [apply (grows_connected _ _ Hg); by apply (Hc x s i v)|].
    destruct (Ha (Happ Hx)) as [_ Hans]. destruct (Hans s i) as [H1 _]. apply (H1 c v); [by eapply HcP|done|]. rewrite <- Hme in Hcc. by apply is_application_iff.
Qed.

(** The host knows who offers a service. *)
Definition finds (st : t) (r : service) : Prop := ∀ c i v, covers r (service_ r) i → offers c (service_ r) i st = Some v →
  if instance_ r =? ANY_INSTANCE then c = VSOMEIP_ROUTING_CLIENT ∨ c ∈ find_local_clients h (service_ r) ANY_INSTANCE else find_local_client h (service_ r) (instance_ r) = c.

Lemma handle_any_grows s acc c : grows acc (handle_any_instance h client s acc c).
Proof.
  destruct (is_application h client) eqn:Ha; [|unfold handle_any_instance; rewrite Ha; apply acquaint_spec].
  unfold handle_any_instance. rewrite Ha. destruct (acquaint_spec c acc) as (Hg & _). destruct (routing_info_ _ !! c) as [[? services]|]; [|done]. destruct (services !! s) as [instances|]; [|done].
  revert Hg. generalize (acquaint h client c acc). intros acc1 Hg. generalize (sorted instances). intros l. revert acc1 Hg. induction l as [|iv l IH]; intros acc1 Hg; [done|]. cbn [foldl]. apply IH. eapply grows_trans; [done|].
  destruct acc1 as [[st out] ents]. unfold offered_by. split; try done. intros a b Hab. cbn in *. rewrite is_connected_add, Hab. apply orb_true_r.
Qed.

Lemma handle_instance_grows s i acc : grows acc (handle_instance h client s i acc).
Proof.
  unfold handle_instance. destruct (routing_info_ _ !! _) as [[? services]|]; [|done]. destruct (get2 s i services) as [v|]; [|done]. destruct (acquaint_spec (find_local_client h s i) acc) as (Hg & _).
  destruct (is_application h client); [|done]. eapply grows_trans; [done|]. destruct (acquaint _ _ _ _) as [[st out] ents]. unfold offered_by. split; try done. intros a b Hab. cbn in *. rewrite is_connected_add, Hab. apply orb_true_r.
Qed.

Lemma foldl_grows {A} (f : acc_t → A → acc_t) l : (∀ acc x, grows acc (f acc x)) → ∀ acc, grows acc (foldl f acc l).
Proof. intros Hf. induction l as [|x l IH]; intros acc; [done|]. cbn [foldl]. eapply grows_trans; [apply Hf|apply IH]. Qed.

Lemma handle_request_answered me acc r : get_client h = me → answered me acc → finds acc.1.1 r →
  answered me (handle_request h client acc r) ∧ routing_info_ (handle_request h client acc r).1.1 = routing_info_ acc.1.1.
Proof.
  intros Hme Hans Hf. destruct acc as [[st out] ents]. cbn [fst snd] in Hf. unfold handle_request, finds in *. assert (Hu : unique (add_request client r st, out, ents)) by (destruct Hans as [Hgd _]; exact (good_unique _ _ _ Hgd)).
  revert Hf. destruct (Z.eqb_spec (instance_ r) ANY_INSTANCE) as [E|E]; intros Hf.
  - set (cs := set_insert _ _). assert (Hg : grows (add_request client r st, out, ents) (foldl (handle_any_instance h client (service_ r)) (add_request client r st, out, ents) cs)) by (apply foldl_grows; intros; apply handle_any_grows).
    split; [|by rewrite (grows_info _ _ Hg)]. apply (request_answered me r (λ c s i, ∃ a, a ∈ cs ∧ c = a ∧ s = service_ r) st out ents); [done|done|done| | |].
    + intros Ha. apply (answers_fold (λ _, True)); [done| |done|done]. intros a acc _ Hu' _. by apply handle_any_answers.
    + intros c s i (a & _ & _ & ->). split; [done|by right].
    + intros c s i v [-> Hi] Ho. exists c. split_and!; [|done|done]. subst cs. rewrite set_insert_elem, E. apply (Hf c i v); [by split|done].
  - pose proof (handle_instance_grows (service_ r) (instance_ r) (add_request client r st, out, ents)) as Hg. split; [|by rewrite (grows_info _ _ Hg)].
    apply (request_answered me r (λ c s i, c = find_local_client h (service_ r) (instance_ r) ∧ s = service_ r ∧ i = instance_ r) st out ents); [done|done|done| | |].
    + intros Ha. by apply handle_instance_answers.
    + intros c s i (_ & -> & ->). split; [done|by left].
    + intros c s i v [-> [->|]] Ho; [|done]. split_and!; [|done|done]. symmetry. apply (Hf c (instance_ r) v); [split; auto|done].
Qed.

Lemma handle_requests_answered me rs : get_client h = me → ∀ acc, answered me acc → Forall (finds acc.1.1) rs → answered me (foldl (handle_request h client) acc rs).
Proof.
  intros Hme. induction rs as [|r rs IH]; intros acc Ha Hf; [done|]. apply Forall_cons in Hf as [Hr Hf]. cbn [foldl]. destruct (handle_request_answered me acc r Hme Ha Hr) as [Ha' Hi]. apply IH; [done|].
  eapply Forall_impl; [exact Hf|]. intros r' Hr'. unfold finds, offers in *. by rewrite Hi.
Qed.

End request.

Lemma good_views me st views views' : (∀ r, application me r → view r views = view r views') → good me st views → good me st views'.
Proof. intros Hv [H1 H2 H3]. split; [done| |done]. intros r s i v c Hr. rewrite <- Hv by done. by apply H2. Qed.

Lemma requests_good me h client rs st views : good me st views → get_client h = me → (application me client → find_local h client = true) → Forall (finds h st) rs →
  let r := handle_requests h client rs st in good me r.1 (foldl deliver views r.2).
Proof.
  intros Hg Hme Hl Hf r. subst r. unfold handle_requests.
  assert (Hstart : answered client views me (st, [], [])).
  { split_and!; [|apply keeps_nil|done]. apply (good_views me st views); [|done]. intros r _. rewrite view_insert. by destruct (decide (r = client)) as [->|]. }
  destruct (handle_requests_answered h client views me rs Hme (st, [], []) Hstart Hf) as (Hgood & Hk & Hn). destruct (foldl _ _ _) as [[st' out] ents]. cbn [fst snd] in *. eapply good_views; [|exact Hgood].
  intros r Hr. rewrite view_insert. rewrite view_deliver by (destruct (decide (ents = [])); [apply Hk|apply keeps_app; [done|apply keeps_send]]).
  destruct (decide (ents = [])) as [->|He]; [rewrite Hn; by destruct (decide (r = client)) as [->|]|]. rewrite news_app, Hn, news_send. cbn [app].
  destruct (decide (r = client)) as [->|Hne]; [|by rewrite decide_False by (by intros [-> _])]. rewrite decide_True by (split; [done|by apply Hl]). unfold virtual. cbn [snd]. apply on_routing_info_news.
Qed.

(** ** Registration *)

Lemma set_insert_sorted x l : StronglySorted Z.lt l → StronglySorted Z.lt (set_insert x l).
Proof.
  induction 1 as [|y l Hs IH Hy]; cbn; [by repeat constructor|]. destruct (Z.ltb_spec x y) as [Hlt|Hge].
  - constructor; [by constructor|]. constructor; [done|]. eapply Forall_impl; [exact Hy|]. cbn. lia.
  - destruct (Z.eqb_spec x y); [by constructor|]. constructor; [done|]. rewrite Forall_forall in *. intros z [->|Hz]%set_insert_elem; [lia|auto].
Qed.

Lemma set_of_list_NoDup l : NoDup (set_of_list l).
Proof.
  assert (Hs : ∀ l acc, StronglySorted Z.lt acc → StronglySorted Z.lt (foldl (λ s x, set_insert x s) acc l)).
  { clear l. induction l as [|x l IH]; intros acc Hacc; [done|]. apply IH. by apply set_insert_sorted. }
  specialize (Hs l [] ltac:(constructor)). fold (set_of_list l) in Hs. induction Hs as [|x l' Hs IH Hx]; constructor; [|done]. intros Hin. rewrite Forall_forall in Hx. specialize (Hx _ Hin). lia.
Qed.

Lemma is_connected_remove a b x y (st : t) : b ≠ y → is_connected a b st = true → is_connected a b (remove_connection x y st) = true.
Proof.
  intros Hb. unfold is_connected, remove_connection. destruct (connection_matrix_ st !! x) as [sinks|] eqn:E; [|done]. cbn. destruct (decide (a = x)) as [->|Hne]; [|by rewrite lookup_insert_ne].
  rewrite lookup_insert_eq, E, !bool_decide_eq_true. intros Hin. apply elem_of_difference. split; [done|]. by rewrite elem_of_singleton.
Qed.

Lemma remove_connections_fold c l : ∀ st : t, let st' := foldl (λ st (x : Z * gset Z), remove_connection x.1 c st) st l in
  routing_info_ st' = routing_info_ st ∧ service_requests_ st' = service_requests_ st ∧ (∀ a b, b ≠ c → is_connected a b st = true → is_connected a b st' = true).
Proof.
  induction l as [|[x sinks] l IH]; intros st; [done|]. cbn [foldl]. destruct (IH (remove_connection x c st)) as (H1 & H2 & H3). cbn [fst].
  assert (K : routing_info_ (remove_connection x c st) = routing_info_ st ∧ service_requests_ (remove_connection x c st) = service_requests_ st) by (unfold remove_connection; by destruct (connection_matrix_ st !! x)).
  destruct K as [K1 K2]. rewrite H1, H2. split_and!; [done|done|]. intros a b Hb Hab. apply H3; [done|]. by apply is_connected_remove.
Qed.

Definition goodbye (c : Z) : entry := entry_of RIE_DELETE_CLIENT c [].

Lemma goodbye_news (h : host) c r (sinks : gset Z) : let out := mjoin ((λ x, if negb (x =? c) && is_application h x then send_client_routing_info h x [goodbye c] else []) <$> set_of_list (elements sinks)) in
  keeps out ∧ news r out = if decide (r ∈ sinks ∧ r ≠ c ∧ is_application h r = true ∧ find_local h r = true) then [goodbye c] else [].
Proof.
  intros out. set (f := λ x, if negb (x =? c) && is_application h x then send_client_routing_info h x [goodbye c] else []) in *. split; [apply keeps_mjoin; intros x; subst f; cbn; destruct (_ && _); [apply keeps_send|apply keeps_nil]|].
  assert (Hf : ∀ x, news r (f x) = if decide (x = r ∧ x ≠ c ∧ is_application h x = true ∧ find_local h x = true) then [goodbye c] else []).
  { intros x. subst f. cbv beta. destruct (Z.eqb_spec x c) as [->|Hne]; cbn [negb andb]; [by rewrite decide_False by tauto|]. destruct (is_application h x); [|rewrite decide_False; [done|by intros (_ & _ & ? & _)]]. rewrite news_send.
    change (filter is_news [goodbye c]) with [goodbye c]. destruct (decide (x = r ∧ find_local h x = true)), (decide (x = r ∧ x ≠ c ∧ _)); tauto. }
  subst out. rewrite news_mjoin. destruct (decide (r ∈ sinks)) as [Hin|Hin].
  - rewrite (mjoin_only _ _ r); [|apply set_of_list_NoDup|by rewrite set_of_list_elem, elem_of_elements|intros y _ Hy; rewrite Hf, decide_False by tauto; done]. rewrite Hf.
    destruct (decide (r = r ∧ _)), (decide (r ∈ sinks ∧ _)); tauto.
  - rewrite mjoin_nothing; [by rewrite decide_False by tauto|]. intros y Hy. rewrite set_of_list_elem, elem_of_elements in Hy. rewrite Hf, decide_False; [done|]. by intros [-> _].
Qed.

Lemma remove_client_spec (h : host) c (st : t) : let r := remove_client_connections h c st in
  (∀ c' s i, offers c' s i r.1 = offers c' s i st) ∧ (∀ x s i, requested x s i r.1 = true ↔ x ≠ c ∧ requested x s i st = true)
  ∧ (∀ a b, a ≠ c → b ≠ c → is_connected a b st = true → is_connected a b r.1 = true)
  ∧ ∃ out, r.2 = out ++ [call_remove_local c; call_disconnect_from c] ∧ keeps out
    ∧ ∀ x, news x out = if decide (is_connected c x st = true ∧ x ≠ c ∧ is_application h x = true ∧ find_local h x = true) then [goodbye c] else [].
Proof.
  intros r. subst r. unfold remove_client_connections.
  set (p := match connection_matrix_ st !! c with Some sinks => _ | None => _ end).
  assert (Hp : routing_info_ p.1 = routing_info_ st ∧ service_requests_ p.1 = service_requests_ st ∧ (∀ a b, a ≠ c → is_connected a b st = true → is_connected a b p.1 = true) ∧ keeps p.2
    ∧ ∀ x, news x p.2 = if decide (is_connected c x st = true ∧ x ≠ c ∧ is_application h x = true ∧ find_local h x = true) then [goodbye c] else []).
  { subst p. unfold is_connected. destruct (connection_matrix_ st !! c) as [sinks|] eqn:E; cbn [fst snd].
    - split_and!; [done|done|intros a b Ha; cbn; by rewrite lookup_delete_ne|apply (goodbye_news h c c sinks)|]. intros x. etransitivity; [apply (proj2 (goodbye_news h c x sinks))|].
      destruct (decide (x ∈ sinks ∧ _)) as [Hx|Hx], (decide (bool_decide (x ∈ sinks) = true ∧ _)) as [Hy|Hy]; rewrite bool_decide_eq_true in Hy; tauto.
    - split_and!; [done|done|done|apply keeps_nil|]. intros x. by rewrite decide_False by (by intros [[=] _]). }
  destruct p as [st1 out]. cbn [fst snd] in *. destruct Hp as (H1 & H2 & H3 & H4 & H5). destruct (remove_connections_fold c (sorted (connection_matrix_ st1)) st1) as (K1 & K2 & K3).
  set (st2 := foldl _ st1 _) in *. cbn [fst snd]. split_and!.
  - intros. unfold offers. cbn. by rewrite K1, H1.
  - intros x s i. unfold requested. cbn. rewrite K2, H2. destruct (decide (x = c)) as [->|Hne]; [rewrite lookup_delete_eq; split; [done|by intros [? _]]|rewrite lookup_delete_ne by done; tauto].
  - intros a b Ha Hb Hab. change (is_connected a b st2 = true). auto.
  - by exists out.
Qed.

Lemma goodbye_entry r c ls s i : r ≠ c → c ≠ VSOMEIP_ROUTING_CLIENT →
  get2 s i (on_routing_info r [goodbye c] ls) = match get2 s i ls with Some v => if decide (v.2 = c) then None else Some v | None => None end.
Proof.
  intros Hr Hc. rewrite <- get2_remove_local. unfold on_routing_info, on_routing_info_entry. cbn -[get2 remove_local_services Z.eqb VSOMEIP_ROUTING_CLIENT].
  change (RIE_DELETE_CLIENT =? RIE_DELETE_CLIENT) with true. cbv iota. destruct (Z.eqb_spec c r) as [->|_]; [done|]. by destruct (Z.eqb_spec c VSOMEIP_ROUTING_CLIENT).
Qed.

Lemma leave_good me h c (st st1 : t) views views1 : good me st views → application me c → reaches me h st →
  (∀ c' s i, offers c' s i st1 = if decide (c' = c) then None else offers c' s i st) → (∀ x s i, requested x s i st1 = requested x s i st) →
  (∀ a b, is_connected a b st = true → is_connected a b st1 = true) → (∀ r, r ≠ c → view r views1 = view r views) →
  let r := remove_client_connections h c st1 in good me r.1 (foldl deliver views1 r.2).
Proof.
  intros [Hu Hv Hc] Happ Hreach Ho Hq Hcn Hviews r. destruct (remove_client_spec h c st1) as (H1 & H2 & H3 & out & Hout & Hk & Hn). fold r in H1, H2, H3, Hout.
  assert (Hvc : view c (foldl deliver views1 r.2) = ∅) by (rewrite Hout, foldl_app; unfold view; cbn; by rewrite lookup_delete_eq).
  assert (Hvx : ∀ x, x ≠ c → view x (foldl deliver views1 r.2) = on_routing_info x (news x out) (view x views)).
  { intros x Hx. rewrite Hout, view_deliver, Hviews, news_app, app_nil_r; [done|done|]. intros [?|[[=]|[[=]|?%not_elem_of_nil]%elem_of_cons]%elem_of_cons]%elem_of_app; [by apply (Hk x)|done|done]. }
  split.
  - intros s i c1 v1 c2 v2. rewrite !H1, !Ho. destruct (decide (c1 = c)); [done|]. destruct (decide (c2 = c)); [done|]. apply Hu.
  - intros x s i v c' Hx. rewrite H1, Ho, H2, Hq. destruct (decide (x = c)) as [->|Hne]; [rewrite Hvc; split; [done|tauto]|]. rewrite Hvx, Hn by done.
    assert (Hold := Hv x s i). destruct (decide (is_connected c x st1 = true ∧ _)) as [_|Hno].
    + rewrite goodbye_entry by (done || apply Happ). destruct (get2 s i (view x views)) as [[w d]|] eqn:Eg; cbn [snd].
      * destruct (proj1 (Hold w d Hx) eq_refl) as [Hr Hof]. destruct (decide (d = c)) as [->|Hd].
        -- split; [done|]. destruct (decide (c' = c)); [by intros [_ [=]]|]. intros [_ Hof']. by pose proof (Hu _ _ _ _ _ _ Hof Hof').
        -- split; [intros [= <- <-]; by rewrite decide_False|]. destruct (decide (c' = c)); [by intros [_ [=]]|]. intros [_ Hof']. pose proof (Hu _ _ _ _ _ _ Hof Hof'). congruence.
      * split; [done|]. destruct (decide (c' = c)); [by intros [_ [=]]|]. intros [[_ Hr] Hof']. by pose proof (proj2 (Hold v c' Hx) (conj Hr Hof')).
    + cbn [on_routing_info foldl]. change (on_routing_info x [] (view x views)) with (view x views). rewrite (Hold v c' Hx). destruct (decide (c' = c)) as [->|]; [|tauto]. split; [|by intros [_ [=]]]. intros [Hr Hof]. destruct Hno.
      destruct (requested_reached me h st x s i Hreach Hx Hr). split_and!; [|done|done|done]. apply Hcn. by apply (Hc x s i v).
  - intros x s i v c' Hx Hc'. rewrite H1, Ho, H2, Hq. destruct (decide (c' = c)); [done|]. intros [Hne Hr] Hof. apply H3; [done|done|]. apply Hcn. by apply (Hc x s i v).
Qed.

(** Outputs that tell nobody about services. *)
Definition quiet (out : list output) : Prop := keeps out ∧ ∀ r, news r out = [].

Lemma quiet_view out views r : quiet out → view r (foldl deliver views out) = view r views.
Proof. intros [Hk Hn]. by rewrite view_deliver, Hn by apply Hk. Qed.

Lemma quiet_app out1 out2 : quiet out1 → quiet out2 → quiet (out1 ++ out2).
Proof. intros [? H1] [? H2]. split; [by apply keeps_app|]. intros r. by rewrite news_app, H1, H2. Qed.

Lemma quiet_one o : (∀ r, o ≠ call_remove_local r) → (∀ target entries, o ≠ routing_info target entries) → quiet [o].
Proof. intros H1 H2. split; [by apply keeps_one|]. intros r. destruct o as [target entries| | | | | | | | | | | |]; try done. by destruct (H2 target entries). Qed.

Lemma deregister_spec c (st : t) : let r := on_deregister_application c st in
  quiet r.2 ∧ (∀ c' s i, offers c' s i r.1 = if decide (c' = c) then None else offers c' s i st) ∧ service_requests_ r.1 = service_requests_ st ∧ connection_matrix_ r.1 = connection_matrix_ st.
Proof.
  unfold on_deregister_application. destruct (routing_info_ st !! c) as [[missing services]|] eqn:E; cbn [fst snd].
  - split_and!; [| |done|done].
    + split; [apply keeps_mjoin; intros x; apply keeps_mjoin; intros y r [[=]|[[=]|?%not_elem_of_nil]%elem_of_cons]%elem_of_cons; done|].
      intros r. rewrite news_mjoin. apply mjoin_nothing. intros x _. rewrite news_mjoin. by apply mjoin_nothing.
    + intros c' s i. unfold offers. cbn. destruct (decide (c' = c)) as [->|]; [by rewrite lookup_delete_eq|by rewrite lookup_delete_ne].
  - split_and!; [split; [apply keeps_nil|done]| |done|done]. intros c' s i. destruct (decide (c' = c)) as [->|]; [|done]. unfold offers. by rewrite E.
Qed.

Lemma register_offers c (st : t) c' s i : offers c' s i (with_routing_info (<[c := (0, (default (0, ∅) (routing_info_ st !! c)).2)]> (routing_info_ st)) st) = offers c' s i st.
Proof.
  unfold offers. cbn. destruct (decide (c' = c)) as [->|]; [rewrite lookup_insert_eq|by rewrite lookup_insert_ne]. by destruct (routing_info_ st !! c).
Qed.

Lemma good_same me (st st' : t) views views' : good me st views → (∀ c s i, offers c s i st' = offers c s i st) → (∀ x s i, requested x s i st' = requested x s i st) →
  (∀ a b, is_connected a b st = true → is_connected a b st' = true) → (∀ r, view r views' = view r views) → good me st' views'.
Proof.
  intros [H1 H2 H3] Ho Hq Hc Hv. split.
  - intros s i c v c' v'. rewrite !Ho. apply H1.
  - intros r s i v c Hr. rewrite Hv, Hq, Ho. by apply H2.
  - intros r s i v c Hr Hcc. rewrite Hq, Ho. intros. apply Hc. by apply (H3 r s i v).
Qed.

Lemma registration_good me h connected c type st views : good me st views → reaches me h st → application me c → (type = REGISTER → ∀ s i, offers c s i st = None) →
  let r := registration_step h connected c type st in good me r.1.1 (foldl deliver views r.1.2).
Proof.
  intros Hg Hreach Happ Hfresh. unfold registration_step. destruct (deregister_spec c st) as (Hquiet & Ho & Hq & Hcm). destruct (on_deregister_application c st) as [st1 out1]. cbn [fst snd] in *.
  assert (Hq' : ∀ x s i, requested x s i st1 = requested x s i st) by (intros; unfold requested; by rewrite Hq). assert (Hcm' : ∀ a b, is_connected a b st1 = is_connected a b st) by (intros; unfold is_connected; by rewrite Hcm).
  destruct (decide (type = REGISTER)) as [->|Ht].
  - unfold on_register_application. set (st2 := with_routing_info _ st1). assert (Ho2 : ∀ c' s i, offers c' s i st2 = offers c' s i st1) by (intros; apply register_offers). destruct connected; cbn [fst snd].
    + destruct (decide (REGISTER = DEREGISTER_ON_ERROR)) as [|_]; [done|]. destruct (decide (REGISTER = REGISTER)) as [_|]; [|done]. cbn [fst snd]. apply (good_same me st _ views); [done| |done| |].
      * intros c' s i. change (offers c' s i st2 = offers c' s i st). rewrite Ho2, Ho. destruct (decide (c' = c)) as [->|]; [by rewrite Hfresh|done].
      * intros a b Hab. rewrite is_connected_add. change (is_connected a b st2) with (is_connected a b st1). by rewrite Hcm', Hab, orb_true_r.
      * intros r. apply quiet_view. rewrite <- app_assoc. apply quiet_app; [done|]. apply quiet_app; [by apply quiet_one|]. apply quiet_app; [by apply quiet_one|]. split; [apply keeps_send|]. intros x. rewrite news_send, not_news. by destruct (decide _).
    + pose proof (leave_good me h c st st2 views (foldl deliver views (out1 ++ [call_send_policies c])) Hg Happ Hreach) as Hl.
      destruct (remove_client_connections h c st2) as [st3 out3]. cbn [fst snd] in *. rewrite cons_middle, app_assoc, foldl_app. apply Hl; [intros; by rewrite Ho2|done|intros a b; by rewrite <- Hcm'|].
      intros r _. apply quiet_view. apply quiet_app; [done|by apply quiet_one].
  - set (p := if decide (type = DEREGISTER_ON_ERROR) then _ else _).
    assert (Hp : (∀ c' s i, offers c' s i p.1 = offers c' s i st1) ∧ (∀ x s i, requested x s i p.1 = requested x s i st1) ∧ (∀ a b, is_connected a b st1 = true → is_connected a b p.1 = true)
      ∧ (∀ r, r ≠ c → view r (foldl deliver views p.2) = view r views)).
    { subst p. destruct (decide (type = DEREGISTER_ON_ERROR)); cbn [fst snd]; [split_and!; [done|done|done|]; intros r _; by apply quiet_view|]. split_and!; [done|done| |].
      - intros a b Hab. by rewrite is_connected_add, Hab, orb_true_r.
      - intros r Hr. destruct Hquiet as [Hk Hn]. rewrite view_deliver by (apply keeps_app; [done|apply keeps_send]). rewrite news_app, Hn, news_send. by rewrite decide_False by (intros [? _]; congruence). }
    destruct p as [st2 out2]. cbn [fst snd] in *. destruct Hp as (P1 & P2 & P3 & P4). pose proof (leave_good me h c st st2 views (foldl deliver views out2) Hg Happ Hreach) as Hl.
    destruct (remove_client_connections h c st2) as [st3 out3]. cbn [fst snd] in *. rewrite !foldl_app. cbn [foldl deliver]. apply Hl; [intros; by rewrite P1|intros; by rewrite P2|intros a b Hab; apply P3; by rewrite Hcm'|done].
Qed.

(** ** Runs *)

Inductive op : Type :=
| op_offer (h : host) (c s i major minor : Z)
| op_stop_offer (h : host) (c s i major minor : Z)
| op_request (h : host) (client : Z) (rs : list service)
| op_registration (h : host) (connected : bool) (c : Z) (type : registration_type_e)
| op_watchdog (h : host)
| op_pong (c : Z).

Definition apply_op (o : op) (st : t) : t * list output :=
  match o with
  | op_offer h c s i major minor => on_offer_service h c s i major minor st
  | op_stop_offer h c s i major minor => on_stop_offer_service h c s i major minor st
  | op_request h client rs => handle_requests h client rs st
  | op_registration h connected c type => (registration_step h connected c type st).1
  | op_watchdog h => check_watchdog h st
  | op_pong c => (on_pong c st, [])
  end.

(** What the host keeps: it reaches the applications, it offers an instance for one
    client at a time, it knows who offers a service, and an application registers when
    it offers nothing. *)
Definition allowed (me : Z) (o : op) (st : t) : Prop :=
  match o with
  | op_offer h c s i major minor => reaches me h st ∧ ∀ c', c' ≠ c → offers c' s i st = None
  | op_stop_offer h c s i major minor => reaches me h st
  | op_request h client rs => get_client h = me ∧ (application me client → find_local h client = true) ∧ Forall (finds h st) rs
  | op_registration h connected c type => reaches me h st ∧ application me c ∧ (type = REGISTER → ∀ s i, offers c s i st = None)
  | _ => True
  end.

Inductive runs (me : Z) : t → gmap Z services_t → Prop :=
| runs_start (h : host) : get_client h = me → runs me (start h create) ∅
| runs_step st views o : runs me st views → allowed me o st → let r := apply_op o st in runs me r.1 (foldl deliver views r.2).

Lemma watchdog_good me h st views : good me st views → good me (check_watchdog h st).1 (foldl deliver views (check_watchdog h st).2).
Proof.
  intros Hg. apply (good_same me st _ views); [done| |done|done|].
  - intros c s i. unfold offers. cbn. rewrite lookup_fmap. by destruct (routing_info_ st !! c).
  - intros r. apply quiet_view. unfold check_watchdog, broadcast_ping. cbn [snd]. generalize (filter (λ c, is_application h c = true ∧ find_local h c = true) (sorted (routing_info_ (with_routing_info ((λ x : Z * versions_t, (wrap 8 (x.1 + 1), x.2)) <$> routing_info_ st) st))).*1).
    intros l. induction l as [|c l IH]; [split; [apply keeps_nil|done]|]. exact (quiet_app _ _ (quiet_one (send_ping (addr := addr) c) ltac:(done) ltac:(done)) IH).
Qed.

Lemma pong_good me c st views : good me st views → good me (on_pong c st) views.
Proof.
  intros Hg. unfold on_pong. destruct (routing_info_ st !! c) as [x|] eqn:E; [|done]. apply (good_same me st _ views); [done| |done|done|done].
  intros c' s i. unfold offers. cbn. destruct (decide (c' = c)) as [->|]; [by rewrite lookup_insert_eq, E|by rewrite lookup_insert_ne].
Qed.

Lemma runs_good me st views : runs me st views → good me st views.
Proof.
  induction 1 as [h Hh|st views o Hr Hg Ho r].
  - assert (Hno : ∀ c s i, offers c s i (start h create) = None) by (intros c s i; unfold offers; cbn; destruct (decide (c = get_client h)) as [->|]; [by rewrite lookup_insert_eq|by rewrite lookup_insert_ne]).
    split; [intros ? ? ? ? ? ?; by rewrite Hno| |intros ? ? ? ? ? ? ? ?; by rewrite Hno]. intros r s i v c _. rewrite Hno. split; [done|by intros [_ [=]]].
  - subst r. destruct o as [h c s i major minor|h c s i major minor|h client rs|h connected c type|h|c]; cbn in Ho.
    + destruct Ho as [H1 H2]. by apply offer_good.
    + by apply stop_good.
    + destruct Ho as (H1 & H2 & H3). by apply requests_good.
    + destruct Ho as (H1 & H2 & H3). by apply registration_good.
    + by apply watchdog_good.
    + by apply pong_good.
Qed.

End facts.


(** ** A run: two applications, one offers, the other requests *)

Module example.

Definition me : Z := 0x100.
Definition host (offerer : Z) : routing_manager_stub.host (addr := ip.t) :=
  mk_host me (λ _, true) (λ _, None) (λ _ _, offerer) (λ _ _, [offerer]) (λ _, []) (λ _ _ _, true) false (λ _, None) (λ _ _, ILLEGAL_PORT) (λ _ _, ILLEGAL_PORT).

Definition step (o : op) (x : t * gmap Z services_t) : t * gmap Z services_t := let r := apply_op o x.1 in (r.1, foldl deliver x.2 r.2).

Definition started : t * gmap Z services_t := (start (host 0) create, ∅).
Definition registered := step (op_registration (host 0) true 2 REGISTER) (step (op_registration (host 0) true 1 REGISTER) started).
Definition wanted := step (op_request (host 0) 2 [mk_service 0x1234 1 1 0]) registered.
Definition offered := step (op_offer (host 0) 1 0x1234 1 1 0) wanted.

Lemma no_offers (x : t * gmap Z services_t) : map_Forall (λ _ y, y.2 = ∅) (routing_info_ x.1) → ∀ c s i, offers c s i x.1 = None.
Proof. intros Hx c s i. unfold offers. destruct (routing_info_ x.1 !! c) as [y|] eqn:E; [|done]. cbn. by rewrite (Hx c y E). Qed.

Lemma host_reaches st : reaches me (host 0) st.
Proof. by split. Qed.

Lemma offered_runs : runs me offered.1 offered.2.
Proof.
  assert (R1 : runs me registered.1 registered.2).
  { apply (runs_step me (step (op_registration (host 0) true 1 REGISTER) started).1 (step (op_registration (host 0) true 1 REGISTER) started).2); [apply (runs_step me started.1 started.2); [by apply runs_start|]|].
    - split; [apply host_reaches|]. split; [by split|]. intros _. apply no_offers. by_eval.
    - split; [apply host_reaches|]. split; [by split|]. intros _. apply no_offers. by_eval. }
  apply (runs_step me wanted.1 wanted.2); [apply (runs_step me registered.1 registered.2); [done|]|].
  - split; [done|]. split; [done|]. constructor; [|done]. intros c i v _. rewrite no_offers; [done|]. by_eval.
  - split; [apply host_reaches|]. intros c' _. apply no_offers. by_eval.
Qed.

End example.


(** ** Deviations *)

(** An application that registers again without having deregistered is taken off the
    registry with its services, but those who use them are not told. *)
Lemma reregistered_not_told : let x := example.step (op_registration (example.host 1) true 1 REGISTER) example.offered in
  offers 1 0x1234 1 x.1 = None ∧ get2 0x1234 1 (view 2 x.2) = Some (1, 0, 1).
Proof. vm_compute. done. Qed.

(** An application whose endpoint does not connect is left in the registry. *)
Lemma refused_stays_registered : let r := registration_step (example.host 0) false 3 REGISTER example.started.1 in is_registered 3 r.1.1 = true ∧ r.2 = false.
Proof. vm_compute. done. Qed.

(** A withdrawal that names another version is ignored here, while the routing manager
    removes the service from its table whatever the version. *)
Lemma other_version_stays : let r := on_stop_offer_service (example.host 1) 1 0x1234 1 2 0 example.offered.1 in r.2 = [] ∧ offers 1 0x1234 1 r.1 = Some (1, 0).
Proof. vm_compute. done. Qed.
