(* ===== verification/RegistryQueue.v ===== *)
(** * The queue of registrations

    Threads take clients with their registrations from the queue.  With the two threads
    of the pool no client is processed by two of them at once, registrations of a client
    are processed in order, and none is lost but repetitions ([registrations_in_order]). *)

From stdpp Require Import base list gmap sorting.
From Stdlib Require Import ZArith Lia.
From S2P Require Import Prelude Maps Protocol Registry.

Import registrations.
Open Scope Z_scope.

(** The queue, the clients that threads are processing, what was asked for and what was
    taken by threads so far. *)
Record world : Type := mk_world { queue : t; working : list Z; asked : list (Z * registration_type_e); taken : list (Z * registration_type_e) }.

Definition start : world := mk_world create [] [] [].

Inductive step (threads : nat) : world → world → Prop :=
| step_update w c type : step threads w (mk_world (update_registration c type (queue w)) (working w) (asked w ++ [(c, type)]) (taken w))
| step_take w : (length (working w) < threads)%nat →
    step threads w
      match take (queue w) with
      | (Some (c, types), q) => mk_world q (c :: working w) (asked w) (taken w ++ ((c,.) <$> types))
      | (None, q) => mk_world q (working w) (asked w) (taken w)
      end
| step_finish w l1 c l2 : working w = l1 ++ c :: l2 → step threads w (mk_world (finish c (queue w)) (l1 ++ l2) (asked w) (taken w)).

Inductive reachable (threads : nat) : world → Prop :=
| reachable_start : reachable threads start
| reachable_step w w' : reachable threads w → step threads w w' → reachable threads w'.

(** ** Registrations of one client *)

Definition of_client {A} (c : Z) (l : list (Z * A)) : list A := snd <$> filter (λ x : Z * A, x.1 = c) l.
Definition pending (c : Z) (q : list (Z * list registration_type_e)) : list registration_type_e := mjoin (of_client c q).

Lemma of_client_app {A} c (l1 l2 : list (Z * A)) : of_client c (l1 ++ l2) = of_client c l1 ++ of_client c l2.
Proof. unfold of_client. by rewrite filter_app, fmap_app. Qed.

Lemma of_client_cons {A} c (x : Z * A) l : of_client c (x :: l) = (if decide (x.1 = c) then [x.2] else []) ++ of_client c l.
Proof. unfold of_client. rewrite filter_cons. by destruct (decide _). Qed.

Lemma of_client_all {A} c c' (l : list A) : of_client c ((c',.) <$> l) = if decide (c' = c) then l else [].
Proof.
  induction l as [|x l IH]; [by destruct (decide _)|]. rewrite fmap_cons, of_client_cons, IH. cbn. by destruct (decide (c' = c)).
Qed.

Lemma of_client_none {A} c (l : list (Z * A)) : c ∉ l.*1 → of_client c l = [].
Proof.
  induction l as [|x l IH]; intros Hc; [done|]. cbn in Hc. apply not_elem_of_cons in Hc as [H1 H2]. rewrite of_client_cons, IH, decide_False by done. done.
Qed.

(** [l'] is [l] without elements that repeat what comes before. *)
Inductive condensed {A} : list A → list A → Prop :=
| condensed_nil : condensed [] []
| condensed_keep l l' x : condensed l l' → condensed (l ++ [x]) (l' ++ [x])
| condensed_drop l l' x : condensed l l' → last l' = Some x → condensed (l ++ [x]) l'.

Lemma condensed_last {A} (l l' : list A) : condensed l l' → last l' = last l.
Proof. induction 1 as [|l l' x _ _|l l' x _ IH Hx]; rewrite ?last_snoc; done. Qed.

(** ** The invariant *)

#[local] Ltac fields := cbn [queue working asked taken pending_client_registrations_queue_ clients_in_progress_ update_registration finish start create].

Record ordered (w : world) : Prop := mk_ordered {
  ord_keys : NoDup (pending_client_registrations_queue_ (queue w)).*1;
  ord_types : Forall (λ x, x.2 ≠ []) (pending_client_registrations_queue_ (queue w));
  ord_progress : ∀ c, c ∈ clients_in_progress_ (queue w) ↔ c ∈ working w;
  ord_exclusive : NoDup (working w);
  ord_log : ∀ c, condensed (of_client c (asked w)) (of_client c (taken w) ++ pending c (pending_client_registrations_queue_ (queue w)))
}.

Lemma enqueue_keys c type q : (enqueue c type q).*1 = if decide (c ∈ q.*1) then q.*1 else q.*1 ++ [c].
Proof.
  induction q as [|[c' types] q IH]; [done|]. cbn [enqueue]. destruct (Z.eqb_spec c' c) as [->|Hne]; cbn.
  - by rewrite decide_True by (by left).
  - rewrite IH. destruct (decide (c ∈ q.*1)), (decide (c ∈ c' :: q.*1)) as [H|H]; rewrite elem_of_cons in H; try done; [tauto|]. destruct H; congruence.
Qed.

Lemma enqueue_types c type q : Forall (λ x, x.2 ≠ []) q → Forall (λ x, x.2 ≠ []) (enqueue c type q).
Proof.
  induction 1 as [|[c' types] q Hx Hq IH]; cbn [enqueue]; [by constructor|]. destruct (c' =? c); [|by constructor]. constructor; [|done]. cbn in *. destruct (decide _); [done|]. by destruct types.
Qed.

Lemma enqueue_pending c type q c' : NoDup q.*1 → Forall (λ x, x.2 ≠ []) q →
  pending c' (enqueue c type q) = if decide (c' = c) then (if decide (last (pending c q) = Some type) then pending c q else pending c q ++ [type]) else pending c' q.
Proof.
  unfold pending. induction q as [|[k types] q IH]; intros Hn Hf; cbn [enqueue].
  - rewrite of_client_cons. cbn. destruct (decide (c' = c)) as [->|]; [by rewrite decide_True|by rewrite decide_False by congruence].
  - rewrite fmap_cons in Hn. apply NoDup_cons in Hn as [Hk Hn]. apply Forall_cons in Hf as [Hx Hf]. destruct (Z.eqb_spec k c) as [->|Hne].
    + rewrite !of_client_cons. cbn. destruct (decide (c' = c)) as [->|Hc']; [|rewrite !(decide_False (P := c = c')) by congruence; done]. rewrite !decide_True by done. rewrite (of_client_none c q) by done. cbn. rewrite !app_nil_r, !(decide_True (P := c = c)) by done. cbn. by rewrite !app_nil_r.
    + rewrite !of_client_cons, !join_app, IH by done. cbn [fst snd]. rewrite (decide_False (P := k = c)) by done. cbn [mjoin list_join app].
      destruct (decide (c' = c)) as [->|Hc'']; [rewrite (decide_False (P := k = c)) by done; done|]. done.
Qed.


Lemma ordered_update w c type : ordered w → ordered (mk_world (update_registration c type (queue w)) (working w) (asked w ++ [(c, type)]) (taken w)).
Proof.
  intros [Hk Ht Hp He Hl]. split; fields; [|by apply enqueue_types|done|done|].
  - rewrite enqueue_keys. destruct (decide _) as [|Hno]; [done|]. apply NoDup_app. split_and!; [done| |apply NoDup_singleton]. intros x Hx ->%list_elem_of_singleton. done.
  - intros c'. rewrite of_client_app, of_client_cons, enqueue_pending by done. change (of_client c' []) with (@nil registration_type_e). rewrite app_nil_r. cbn [fst snd]. destruct (decide (c = c')) as [<-|Hne]; [|rewrite decide_False, app_nil_r by congruence; apply Hl]. rewrite decide_True by done.
    destruct (decide _) as [Hlast|_]; [|rewrite (app_assoc (of_client c (taken w))); constructor; apply Hl]. constructor; [apply Hl|]. rewrite last_app, Hlast. done.
Qed.

Lemma ordered_finish w l1 c l2 : working w = l1 ++ c :: l2 → ordered w → ordered (mk_world (finish c (queue w)) (l1 ++ l2) (asked w) (taken w)).
Proof.
  intros Hw [Hk Ht Hp He Hl]. split; fields; [done|done| | |done].
  - intros x. rewrite elem_of_difference, elem_of_singleton, Hp, Hw, !elem_of_app, elem_of_cons. rewrite Hw in He. apply NoDup_app in He as (_ & H1 & [H2 _]%NoDup_cons). split; [tauto|].
    intros [Hx|Hx]; (split; [tauto|]); intros ->; [|done]. apply (H1 _ Hx). by left.
  - rewrite Hw in He. apply NoDup_app in He as (H1 & H2 & [_ H3]%NoDup_cons). apply NoDup_app. split_and!; [done| |done]. intros x Hx Hx'. apply (H2 x Hx). by right.
Qed.

Lemma rotate_pending c x q : NoDup (x :: q).*1 → pending c (q ++ [x]) = pending c (x :: q).
Proof.
  intros [Hx _]%NoDup_cons. unfold pending. rewrite of_client_app, !of_client_cons. cbn. destruct (decide (x.1 = c)) as [<-|]; [|by rewrite app_nil_r]. rewrite of_client_none by done. done.
Qed.

(** A thread takes a client that no other thread is processing. *)
Lemma take_spec w : ordered w → (length (working w) < VSOMEIP_DEFAULT_REGISTER_THREAD_COUNT)%nat →
  match take (queue w) with
  | (Some (c, types), q) => (c ∉ working w) ∧ (∀ x, x ∈ clients_in_progress_ q ↔ x = c ∨ x ∈ working w)
      ∧ NoDup (pending_client_registrations_queue_ q).*1 ∧ Forall (λ x, x.2 ≠ []) (pending_client_registrations_queue_ q)
      ∧ ∀ x, pending x (pending_client_registrations_queue_ (queue w)) = (if decide (c = x) then types else []) ++ pending x (pending_client_registrations_queue_ q)
  | (None, q) => q = queue w ∧ (pending_client_registrations_queue_ q = [] ∨ ∃ c types, pending_client_registrations_queue_ q = [(c, types)] ∧ c ∈ working w)
  end.
Proof.
  intros [Hk Ht Hp He Hl] Hlen. unfold take, new_client_to_process. destruct (queue w) as [[|[c types] q] progress]; cbn [pending_client_registrations_queue_ clients_in_progress_ fst snd length] in *; [auto|].
  assert (Hcons : ∀ k (ts : list registration_type_e) l x, pending x ((k, ts) :: l) = (if decide (k = x) then ts else []) ++ pending x l).
  { intros k ts l x. unfold pending. rewrite of_client_cons, join_app. cbn. destruct (decide (k = x)); cbn; by rewrite ?app_nil_r. }
  case_bool_decide as Hc; [|cbn [pending_client_registrations_queue_ clients_in_progress_ fst snd]; split_and!; [by rewrite <- Hp|intros x; rewrite elem_of_union, elem_of_singleton, Hp; done|by apply NoDup_cons in Hk as [_ ?]|by apply Forall_cons in Ht as [_ ?]|by apply Hcons]].
  destruct q as [|[c' types'] q]; cbn [length Nat.eqb app pending_client_registrations_queue_ clients_in_progress_ fst snd]; [split; [done|right; exists c, types; split; [done|by apply Hp]]|].
  assert (Hw : working w = [c]). { apply Hp in Hc. destruct (working w) as [|y [|z l]]; [by apply not_elem_of_nil in Hc|apply list_elem_of_singleton in Hc; by subst|cbn in Hlen; unfold VSOMEIP_DEFAULT_REGISTER_THREAD_COUNT in Hlen; lia]. }
  apply NoDup_cons in Hk as [H1 Hk]. pose proof Hk as [H2 H3]%NoDup_cons. apply Forall_cons in Ht as [T1 [T2 Ht]%Forall_cons]. split_and!.
  - rewrite Hw. intros ->%list_elem_of_singleton. apply H1. by left.
  - intros x. by rewrite elem_of_union, elem_of_singleton, Hp.
  - rewrite fmap_app. apply NoDup_app. split_and!; [done| |apply NoDup_singleton]. intros x Hx ->%list_elem_of_singleton. apply H1. by right.
  - apply Forall_app_2; [done|]. by repeat constructor.
  - intros x. rewrite Hcons, (rotate_pending x (c, types) q) by (constructor; [|done]; intros ?; apply H1; by right). rewrite !Hcons.
    destruct (decide (c = x)) as [<-|]; [|done]. rewrite decide_False by (intros ->; apply H1; by left). done.
Qed.

Lemma queue_ordered w : reachable VSOMEIP_DEFAULT_REGISTER_THREAD_COUNT w → ordered w.
Proof.
  induction 1 as [|w w' _ Ho Hs]; [split; fields; [constructor|constructor|intros c; by rewrite elem_of_empty, elem_of_nil|constructor|intros c; constructor]|].
  inversion Hs as [w1 c type E1 E2|w1 Hlen E1 E2|w1 l1 c l2 Hw E1 E2]; subst; [by apply ordered_update| |by apply ordered_finish].
  pose proof (take_spec w Ho Hlen) as Ht. destruct (take (queue w)) as [[[c types]|] q]; [|destruct Ht as [-> _]; by destruct Ho]. destruct Ht as (H1 & H2 & H3 & H4 & H5). destruct Ho as [Hk Ht Hp He Hl].
  split; fields; [done|done|intros x; rewrite H2, elem_of_cons; done|by constructor|]. intros x. rewrite of_client_app, of_client_all, <- app_assoc, <- H5. apply Hl.
Qed.


Definition two_asked : world := mk_world (update_registration 2 REGISTER (update_registration 1 REGISTER create)) [] [(1, REGISTER); (2, REGISTER)] [].


(** A pool of three threads would process a client twice at once: the check passes over
    one client that is being processed, not over the next. *)
Definition two_working : world := mk_world (mk [(1, [DEREGISTER]); (2, [DEREGISTER])] {[1; 2]}) [2; 1] [(1, REGISTER); (2, REGISTER); (1, DEREGISTER); (2, DEREGISTER)] [(1, REGISTER); (2, REGISTER)].

Lemma third_thread_not_exclusive : (take (queue two_working)).1 = Some (2, [DEREGISTER]).
Proof. vm_compute. reflexivity. Qed.
