(* ===== verification/Offers.v ===== *)
(** * Offers of local applications ([routing/src/routing_manager_impl.cpp])

    How the routing manager decides who offers a service instance: offers and
    withdrawals of an instance are queued and processed one after the other
    ([offer_commands_]); an offer of an instance that another application offers waits
    until that application answers a ping or is reported ([pending_offers_]).  The pings
    are those of [Pings].

    What the endpoints, the configuration and the security say is a record, an argument
    of the operations; calls of the stub, of the service discovery and of the events
    are outputs, functions posted to the [io_context] are in [posted_].  An endpoint that
    prepares to stop calls back for each service ([endpoint_stopped]).  Operations are
    atomic. *)

From stdpp Require Import base list gmap sorting.
From Stdlib Require Import ZArith Lia.
From S2P Require Import Prelude Maps Protocol Pings.

Open Scope Z_scope.

Module routing_manager_impl.

Inductive command_e : Set := OFFER_SERVICE_ID | STOP_OFFER_SERVICE_ID.

(** A command: its kind, the client and the version. *)
Record command : Set := mk_command { command_ : command_e; client_ : Z; command_major : Z; command_minor : Z }.

(** [serviceinfo]: the version, whether the service is local, and whether it has server
    endpoints. *)
Record serviceinfo : Set := mk_info { get_major : Z; get_minor : Z; is_local : bool; reliable_endpoint : bool; unreliable_endpoint : bool }.

#[export] Instance serviceinfo_eq_dec : EqDecision serviceinfo.
Proof. solve_decision. Defined.

(** The withdrawal of a service whose endpoints prepare to stop: [ready_to_stop_t] and
    what the callback holds. *)
Record stopping : Set := mk_stopping { stop_service : Z; stop_instance : Z; stop_command : command; stop_info : serviceinfo; reliable_ : bool; unreliable_ : bool; done_ : bool }.

Record t : Type := mk {
  local_services_ : gmap Z (gmap Z (Z * Z * Z));
  services_ : gmap Z (gmap Z serviceinfo);
  pending_offers_ : gmap Z (gmap Z (Z * Z * Z * Z));
  offer_commands_ : gmap (Z * Z) (list command);
  pending_sd_offers_ : gset (Z * Z);
  stopping_ : list stopping;
  posted_ : list (Z * Z * command);
  pings_ : pings.t
}.

Definition create : t := mk ∅ ∅ ∅ ∅ ∅ [] [] pings.create.

Definition with_local_services x st := mk x (services_ st) (pending_offers_ st) (offer_commands_ st) (pending_sd_offers_ st) (stopping_ st) (posted_ st) (pings_ st).
Definition with_services x st := mk (local_services_ st) x (pending_offers_ st) (offer_commands_ st) (pending_sd_offers_ st) (stopping_ st) (posted_ st) (pings_ st).
Definition with_pending_offers x st := mk (local_services_ st) (services_ st) x (offer_commands_ st) (pending_sd_offers_ st) (stopping_ st) (posted_ st) (pings_ st).
Definition with_offer_commands x st := mk (local_services_ st) (services_ st) (pending_offers_ st) x (pending_sd_offers_ st) (stopping_ st) (posted_ st) (pings_ st).
Definition with_pending_sd_offers x st := mk (local_services_ st) (services_ st) (pending_offers_ st) (offer_commands_ st) x (stopping_ st) (posted_ st) (pings_ st).
Definition with_stopping x st := mk (local_services_ st) (services_ st) (pending_offers_ st) (offer_commands_ st) (pending_sd_offers_ st) x (posted_ st) (pings_ st).
Definition with_posted x st := mk (local_services_ st) (services_ st) (pending_offers_ st) (offer_commands_ st) (pending_sd_offers_ st) (stopping_ st) x (pings_ st).
Definition with_pings x st := mk (local_services_ st) (services_ st) (pending_offers_ st) (offer_commands_ st) (pending_sd_offers_ st) (stopping_ st) (posted_ st) x.

Record env : Type := mk_env {
  get_client : Z;
  find_local : Z → bool;
  endpoint_send : Z → bool;
  is_client_allowed_to_offer : Z → Z → bool;
  server_endpoints : Z → Z → bool * bool;
  is_external_routing_ready : bool;
  discovery : bool;
  watchdog_timeout : Z;
  now : Z
}.

Inductive output : Set :=
| stub_on_offer_service (client s i major minor : Z)
| stub_on_stop_offer_service (client s i major minor : Z)
| available (s i major minor : Z)
| unavailable (s i major minor : Z)
| discovery_offer_service (s i : Z)
| discovery_stop_offer_service (s i : Z)
| subscribe_pending (s i major : Z)
| set_event_versions (s i major : Z)
| clear_events (s i : Z)
| clear_remote_subscriptions (s i : Z)
| prepare_stop (s i : Z) (reliable : bool)
| remove_instance (s : Z) (reliable : bool)
| deregister_on_error (client : Z)
| ping (client : Z).

(** ** The queue of commands *)

Definition insert_offer_command (s i : Z) (c : command) (st : t) : bool * t :=
  let found := default [] (offer_commands_ st !! (s, i)) in
  (bool_decide (found = []), with_offer_commands (<[(s, i) := found ++ [c]]> (offer_commands_ st)) st).

Definition erase_offer_command (s i : Z) (st : t) : t :=
  match offer_commands_ st !! (s, i) with
  | Some (_ :: q) =>
      let st := with_offer_commands (<[(s, i) := q]> (offer_commands_ st)) st in
      match q with c :: _ => with_posted (posted_ st ++ [(s, i, c)]) st | [] => st end
  | _ => st
  end.

(** ** Offering *)

Definition find_service (s i : Z) (st : t) : option serviceinfo := get2 s i (services_ st).

(** [routing_manager_base::offer_service] *)
Definition base_offer_service (s i major minor : Z) (st : t) : bool * t * list output :=
  match find_service s i st with
  | Some info =>
      if negb (is_local info) then (false, st, [])
      else if (get_major info =? major) && (get_minor info =? minor) then (true, st, [set_event_versions s i major])
      else (false, st, [])
  | None => (true, with_services (set2 s i (mk_info major minor true false false) (services_ st)) st, [set_event_versions s i major])
  end.

(** The end of [handle_local_offer_service]. *)
Definition accept_offer (client s i major minor : Z) (st : t) : bool * t * list output :=
  let '(ok, st, out) := base_offer_service s i major minor st in
  if ok then (true, with_local_services (set2 s i (major, minor, client) (local_services_ st)) st, out) else (false, st, out).

Definition output_of (o : pings.output) : output := match o with pings.ping c => ping c | pings.client_error c => deregister_on_error c end.

Definition handle_local_offer_service (e : env) (client s i major minor : Z) (st : t) : bool * t * list output :=
  match get2 s i (local_services_ st) with
  | Some (stored_major, stored_minor, stored_client) =>
      if (stored_major =? major) && (stored_minor =? minor) then
        if stored_client =? client then (false, st, [])
        else
          match get2 s i (pending_offers_ st) with
          | Some _ => (false, st, [])
          | None =>
              if find_local e stored_client then
                let '(sent, p, out) := pings.send_ping (watchdog_timeout e) true (endpoint_send e stored_client) (now e) stored_client (pings_ st) in
                let st := with_pings p st in
                if sent then (false, with_pending_offers (set2 s i (major, minor, client, stored_client) (pending_offers_ st)) st, output_of <$> out)
                else let '(ok, st, out') := accept_offer client s i major minor st in (ok, st, (output_of <$> out) ++ out')
              else if stored_client =? get_client e then (false, st, [])
              else accept_offer client s i major minor st
          end
      else (false, st, [])
  | None => accept_offer client s i major minor st
  end.

(** [init_service_info] of a local service: the server endpoints that were created. *)
Definition init_service_info (e : env) (s i : Z) (st : t) : t :=
  match find_service s i st with
  | Some info =>
      let '(reliable, unreliable) := server_endpoints e s i in
      with_services (set2 s i (mk_info (get_major info) (get_minor info) (is_local info) (reliable_endpoint info || reliable) (unreliable_endpoint info || unreliable)) (services_ st)) st
  | None => st
  end.

Definition process_offer (e : env) (client s i major minor : Z) (st : t) : bool * t * list output :=
  if (client =? get_client e) && negb (is_client_allowed_to_offer e s i) then (false, erase_offer_command s i st, [])
  else
    let '(ok, st, out) := handle_local_offer_service e client s i major minor st in
    if ok then
      let st := if is_external_routing_ready e then init_service_info e s i st
                else with_pending_sd_offers ({[(s, i)]} ∪ pending_sd_offers_ st) st in
      let sd := if discovery e then match find_service s i st with Some _ => [discovery_offer_service s i] | None => [] end else [] in
      (true, erase_offer_command s i st, out ++ sd ++ [subscribe_pending s i major; stub_on_offer_service client s i major minor; available s i major minor])
    else (false, erase_offer_command s i st, out).

Definition offer_service (e : env) (client s i major minor : Z) (must_queue : bool) (st : t) : bool * t * list output :=
  if must_queue then
    let '(must_process, st) := insert_offer_command s i (mk_command OFFER_SERVICE_ID client major minor) st in
    if must_process then process_offer e client s i major minor st else (false, st, [])
  else process_offer e client s i major minor st.

(** ** Withdrawing *)

Definition clear_service_info (s i : Z) (reliable : bool) (st : t) : t :=
  match find_service s i st with
  | Some info =>
      if (if reliable then unreliable_endpoint info else reliable_endpoint info)
      then with_services (set2 s i (if reliable then mk_info (get_major info) (get_minor info) (is_local info) false (unreliable_endpoint info)
                                    else mk_info (get_major info) (get_minor info) (is_local info) (reliable_endpoint info) false) (services_ st)) st
      else with_services (erase2 s i (services_ st)) st
  | None => st
  end.

(** [del_routing_info], for what concerns the services. *)
Definition del_routing_info (s i : Z) (has_reliable has_unreliable trigger_availability : bool) (st : t) : t * list output :=
  match find_service s i st with
  | Some info =>
      let told := [unavailable s i (get_major info) (get_minor info); stub_on_stop_offer_service 0 s i (get_major info) (get_minor info)] in
      let st := if has_reliable then clear_service_info s i true st else st in
      let st := if has_unreliable then clear_service_info s i false st else st in
      let st := if negb has_reliable && negb has_unreliable then clear_service_info s i false (clear_service_info s i true st) else st in
      (st, (if trigger_availability then told else []) ++ told ++ [clear_events s i])
  | None => (st, [])
  end.

Definition erase_local_service (client s i : Z) (st : t) : t :=
  match get2 s i (local_services_ st) with
  | Some (_, _, stored_client) => if stored_client =? client then with_local_services (erase2 s i (local_services_ st)) st else st
  | None => st
  end.

(** What ends a withdrawal. *)
Definition withdrawn (client s i major minor : Z) (st : t) : t * list output :=
  (erase_offer_command s i st, [stub_on_stop_offer_service client s i major minor; unavailable s i major minor]).

Definition on_stop_offer_service (client s i major minor : Z) (st : t) : t * list output :=
  let st := erase_local_service client s i st in
  match find_service s i st with
  | Some info =>
      let r := reliable_endpoint info in let u := unreliable_endpoint info in
      let prepare := (if r then [prepare_stop s i true] else []) ++ (if u then [prepare_stop s i false] else []) in
      if negb r && negb u then
        let '(st, out) := withdrawn client s i major minor st in (st, clear_events s i :: out ++ [clear_remote_subscriptions s i])
      else
        (with_stopping (stopping_ st ++ [mk_stopping s i (mk_command STOP_OFFER_SERVICE_ID client major minor) info (negb r) (negb u) false]) st,
         clear_events s i :: prepare ++ [clear_remote_subscriptions s i])
  | None => let '(st, out) := withdrawn client s i major minor st in (st, clear_events s i :: out)
  end.

(** The callback of an endpoint for the [k]th withdrawal. *)
Definition endpoint_stopped (e : env) (k : nat) (reliable : bool) (st : t) : t * list output :=
  match stopping_ st !! k with
  | Some x =>
      let s := stop_service x in let i := stop_instance x in let c := stop_command x in let info := stop_info x in
      let x := if reliable then mk_stopping s i c info (reliable_endpoint info || reliable_ x) (unreliable_ x) (done_ x) else mk_stopping s i c info (reliable_ x) (unreliable_endpoint info || unreliable_ x) (done_ x) in
      let sd := if discovery e && (get_major info =? command_major c) && (get_minor info =? command_minor c) then [discovery_stop_offer_service s i] else [] in
      let r := reliable_endpoint info in let u := unreliable_endpoint info in
      if reliable_ x && unreliable_ x && negb (done_ x) then
        let st := with_stopping (<[k := mk_stopping s i c info (reliable_ x) (unreliable_ x) true]> (stopping_ st)) st in
        let '(st, out) := del_routing_info s i r u true st in
        let '(st, out') := withdrawn (client_ c) s i (command_major c) (command_minor c) st in
        (st, sd ++ [remove_instance s reliable] ++ out ++ out')
      else
        let '(st, out) := del_routing_info s i r u false (with_stopping (<[k := x]> (stopping_ st)) st) in
        (st, sd ++ [remove_instance s reliable] ++ out)
  | None => (st, [])
  end.

Definition process_stop_offer (client s i major minor : Z) (st : t) : t * list output :=
  if match find_service s i st with Some info => is_local info | None => false end then
    on_stop_offer_service client s i major minor (with_pending_sd_offers (pending_sd_offers_ st ∖ {[(s, i)]}) st)
  else (erase_offer_command s i st, []).

Definition stop_offer_service (client s i major minor : Z) (must_queue : bool) (st : t) : t * list output :=
  if must_queue then
    let '(must_process, st) := insert_offer_command s i (mk_command STOP_OFFER_SERVICE_ID client major minor) st in
    if must_process then process_stop_offer client s i major minor st else (st, [])
  else process_stop_offer client s i major minor st.

(** A function that [erase_offer_command] posted. *)
Definition run_posted (e : env) (st : t) : t * list output :=
  match posted_ st with
  | (s, i, c) :: rest =>
      let st := with_posted rest st in
      match command_ c with
      | OFFER_SERVICE_ID => let '(_, st, out) := offer_service e (client_ c) s i (command_major c) (command_minor c) false st in (st, out)
      | STOP_OFFER_SERVICE_ID => stop_offer_service (client_ c) s i (command_major c) (command_minor c) false st
      end
  | [] => (st, [])
  end.

(** ** Answers and errors of applications *)

(** The offers that wait for an application, in the order of the tables. *)
Definition waiting_for (client : Z) (pending : gmap Z (gmap Z (Z * Z * Z * Z))) : list (Z * Z * (Z * Z * Z * Z)) :=
  mjoin ((λ x : Z * gmap Z (Z * Z * Z * Z), (λ y : Z * (Z * Z * Z * Z), (x.1, y.1, y.2)) <$> filter (λ y : Z * (Z * Z * Z * Z), y.2.2 = client) (sorted x.2)) <$> sorted pending).
Definition drop_waiting (client : Z) (pending : gmap Z (gmap Z (Z * Z * Z * Z))) : gmap Z (gmap Z (Z * Z * Z * Z)) :=
  foldl (λ m x, erase2 x.1.1 x.1.2 m) pending (waiting_for client pending).

Definition on_pong (client : Z) (st : t) : t := with_pending_offers (drop_waiting client (pending_offers_ st)) st.

(** [push_front]: the offers are made again in the reverse order. *)
Definition handle_client_error (e : env) (client : Z) (st : t) : t * list output :=
  let its_offers := reverse (waiting_for client (pending_offers_ st)) in
  let st := with_pending_offers (drop_waiting client (pending_offers_ st)) st in
  foldl (λ acc x, let '(s, i, (major, minor, offering, _)) := x in
    let '(_, st, out) := offer_service e offering s i major minor true acc.1 in (st, acc.2 ++ out)) (st, [deregister_on_error client]) its_offers.

(** [on_pong] of the stub and [on_ping_timer_expired] with the calls they make. *)
Definition stub_on_pong (e : env) (client : Z) (st : t) : t := on_pong client (with_pings (pings.remove_from_pinged_clients (watchdog_timeout e) (now e) client (pings_ st)) st).

Definition stub_on_ping_timer_expired (e : env) (st : t) : t * list output :=
  let '(p, out) := pings.on_ping_timer_expired (watchdog_timeout e) (now e) (pings_ st) in
  foldl (λ acc o, match o with pings.client_error c => let '(st, out) := handle_client_error e c acc.1 in (st, acc.2 ++ out) | _ => acc end) (with_pings p st, []) out.

End routing_manager_impl.
