(* ===== verification/OffersFacts.v ===== *)
(** * Offers: who keeps a service, and in which order

    Commands for an instance are processed one at a time in order ([commands_serialized]),
    an application that answers keeps its services ([offer_kept]), and an offer that
    waits does so for an application that is pinged ([waiting_is_pinged]). *)

From stdpp Require Import base list gmap sorting.
From Stdlib Require Import ZArith Lia.
From S2P Require Import Prelude Maps Protocol Pings PingsFacts Offers.

Import routing_manager_impl.
Open Scope Z_scope.

(** ** Frames *)

(** The queues, and the tables of offers. *)
Definition line (st : t) := (offer_commands_ st, stopping_ st, posted_ st).
Definition tables (st : t) := (local_services_ st, pending_offers_ st, pings_ st).

Lemma erase_tables s i st : tables (erase_offer_command s i st) = tables st.
Proof. unfold erase_offer_command. destruct (offer_commands_ st !! (s, i)) as [[|x [|y q]]|]; done. Qed.

Lemma accept_spec client s i major minor st : let r := accept_offer client s i major minor st in
  line r.1.2 = line st ∧ pending_offers_ r.1.2 = pending_offers_ st ∧ pings_ r.1.2 = pings_ st
  ∧ local_services_ r.1.2 = if r.1.1 then set2 s i (major, minor, client) (local_services_ st) else local_services_ st.
Proof.
  unfold accept_offer, base_offer_service. destruct (find_service s i st) as [info|]; [|done]. destruct (is_local info); [|done]. cbn. by destruct (_ && _).
Qed.

(** The application that offers an instance can be replaced. *)
Definition unreachable (e : env) (c : Z) : Prop := if find_local e c then endpoint_send e c = false else c ≠ get_client e.

(** What becomes of the one that offers an instance when another one wants to. *)
Definition replaced (e : env) (s i : Z) (st st' : t) : Prop :=
  ∀ major minor c, get2 s i (local_services_ st) = Some (major, minor, c) →
  get2 s i (local_services_ st') = Some (major, minor, c) ∨ (unreachable e c ∧ ∃ c', get2 s i (local_services_ st') = Some (major, minor, c')).

(** All waiting offers wait for applications that are pinged or in [late]. *)
Definition pinged (late : list Z) (st : t) : Prop :=
  ∀ s i major minor c old, get2 s i (pending_offers_ st) = Some (major, minor, c, old) → is_Some (pings.pinged_clients_ (pings_ st) !! old) ∨ old ∈ late.

Lemma send_ping_grows T found sent n c p : let r := pings.send_ping T found sent n c p in
  (∀ x, is_Some (pings.pinged_clients_ p !! x) → is_Some (pings.pinged_clients_ r.1.2 !! x)) ∧ (r.1.1 = true → is_Some (pings.pinged_clients_ r.1.2 !! c)).
Proof.
  unfold pings.send_ping. destruct found; [|done]. unfold has. case_bool_decide; [done|]. cbn. split; [intros x Hx; destruct (decide (x = c)) as [->|]; [rewrite lookup_insert_eq; by eexists|by rewrite lookup_insert_ne]|].
  intros _. rewrite lookup_insert_eq. by eexists.
Qed.

Lemma replaced_same e s i st st' : local_services_ st' = local_services_ st → replaced e s i st st'.
Proof. intros E major minor c Hc. left. by rewrite E. Qed.

Lemma accept_replaced e client s i major minor st s' i' : (∀ ma mi c, get2 s i (local_services_ st) = Some (ma, mi, c) → ma = major ∧ mi = minor ∧ unreachable e c) →
  replaced e s' i' st (accept_offer client s i major minor st).1.2.
Proof.
  intros Hown ma mi c Hc. destruct (accept_spec client s i major minor st) as (_ & _ & _ & ->). destruct ((accept_offer client s i major minor st).1.1); [|by left]. rewrite get2_set2.
  destruct (decide (s' = s ∧ i' = i)) as [[-> ->]|]; [|by left]. destruct (Hown _ _ _ Hc) as (-> & -> & Hu). right. split; [done|by eexists].
Qed.

Lemma handle_local_spec e client s i major minor st late : let r := handle_local_offer_service e client s i major minor st in
  line r.1.2 = line st ∧ (∀ s' i', replaced e s' i' st r.1.2) ∧ (pinged late st → pinged late r.1.2).
Proof.
  unfold handle_local_offer_service. destruct (accept_spec client s i major minor st) as (A1 & A2 & A3 & A4).
  assert (Hsame : pinged late st → pinged late (accept_offer client s i major minor st).1.2) by (unfold pinged; by rewrite A2, A3).
  destruct (get2 s i (local_services_ st)) as [[[ma mi] c]|] eqn:Eo; [|split_and!; [done|intros; apply accept_replaced; congruence|done]].
  destruct (Z.eqb_spec ma major) as [->|]; cbn [andb]; [|by split_and!; auto using replaced_same]. destruct (Z.eqb_spec mi minor) as [->|]; [|by split_and!; auto using replaced_same].
  destruct (c =? client); [by split_and!; auto using replaced_same|]. destruct (get2 s i (pending_offers_ st)) eqn:Ep; [by split_and!; auto using replaced_same|].
  destruct (find_local e c) eqn:Ef.
  2:{ destruct (Z.eqb_spec c (get_client e)); [by split_and!; auto using replaced_same|]. split_and!; [done| |done]. intros s' i'. apply accept_replaced. rewrite Eo. intros ? ? ? [= <- <- <-]. split_and!; [done|done|]. unfold unreachable. by rewrite Ef. }
  destruct (send_ping_grows (watchdog_timeout e) true (endpoint_send e c) (now e) c (pings_ st)) as [G1 G2]. 
  assert (Hns : ∀ T n p, (pings.send_ping T true (endpoint_send e c) n c p).1.1 = false → endpoint_send e c = false) by (intros T n p; unfold pings.send_ping; by destruct (has c (pings.pinged_clients_ p))).
  specialize (Hns (watchdog_timeout e) (now e) (pings_ st)). destruct (pings.send_ping _ _ _ _ _ _) as [[sent p] out]. cbn [fst snd] in *. destruct sent; cbn [fst snd].
  - split_and!; [done|intros; by apply replaced_same|]. intros Hp s' i' ma mi c' old. cbn. rewrite get2_set2. destruct (decide _); [intros [= <- <- <- <-]; left; by apply G2|]. intros [?|?]%Hp; [left; by apply G1|by right].
  - destruct (accept_spec client s i major minor (with_pings p st)) as (B1 & B2 & B3 & B4). pose proof (λ s' i', accept_replaced e client s i major minor (with_pings p st) s' i') as Hr.
    destruct (accept_offer client s i major minor (with_pings p st)) as [[ok st'] out']. cbn [fst snd] in *. split_and!; [done| |].
    + intros s' i'. apply Hr. cbn. rewrite Eo. intros ? ? ? [= <- <- <-]. split_and!; [done|done|]. unfold unreachable. rewrite Ef. auto.
    + intros Hp s' i' ma mi c' old. rewrite B2, B3. cbn. intros [?|?]%Hp; [left; by apply G1|by right].
Qed.

Lemma process_offer_spec e client s i major minor st late : let r := process_offer e client s i major minor st in
  (∃ st1, r.1.2 = erase_offer_command s i st1 ∧ line st1 = line st) ∧ (∀ s' i', replaced e s' i' st r.1.2) ∧ (pinged late st → pinged late r.1.2).
Proof.
  unfold process_offer. destruct (_ && _).
  - pose proof (erase_tables s i st) as [= E1 E2 E3]. split_and!; [by exists st|intros; by apply replaced_same|]. unfold pinged. cbn. by rewrite E2, E3.
  - destruct (handle_local_spec e client s i major minor st late) as (H1 & H2 & H3). destruct (handle_local_offer_service e client s i major minor st) as [[ok st1] out]. cbn [fst snd] in *.
    assert (Hx : ∃ st2, (if ok then (if is_external_routing_ready e then init_service_info e s i st1 else with_pending_sd_offers ({[(s, i)]} ∪ pending_sd_offers_ st1) st1) else st1) = st2 ∧ line st2 = line st1 ∧ tables st2 = tables st1).
    { destruct ok; [|by eexists]. destruct (is_external_routing_ready e); [|by eexists]. unfold init_service_info. destruct (find_service s i st1); [|by eexists]. destruct (server_endpoints e s i). by eexists. }
    destruct Hx as (st2 & E & L & [= T1 T2 T3]). pose proof (erase_tables s i st2) as [= F1 F2 F3].
    match goal with |- context [(if ok then ?a else ?b).1.2] => assert (Er : (if ok then a else b).1.2 = erase_offer_command s i st2) by (rewrite <- E; by destruct ok) end. rewrite Er.
    split_and!; [exists st2; split; [done|congruence]| |].
    + intros s' i' ma mi c Hc. rewrite F1, T1. by apply H2.
    + intros Hp%H3. unfold pinged in *. by rewrite F2, F3, T2, T3.
Qed.

(** ** Commands one at a time *)

Definition queue_of (s i : Z) (st : t) : list command := default [] (offer_commands_ st !! (s, i)).
Definition posted_of (s i : Z) (st : t) : list command := snd <$> filter (λ x : Z * Z * command, x.1 = (s, i)) (posted_ st).
Definition stopping_of (s i : Z) (st : t) : list command := stop_command <$> filter (λ x, (stop_service x, stop_instance x) = (s, i) ∧ done_ x = false) (stopping_ st).
(** The commands that wait to be run by the [io_context] or for endpoints to stop. *)
Definition active (s i : Z) (st : t) : list command := posted_of s i st ++ stopping_of s i st.

Definition serial (st : t) : Prop := ∀ s i, active s i st = take 1 (queue_of s i st).
(** The command [c] of [s], [i] is being processed. *)
Definition held (s i : Z) (c : command) (st : t) : Prop :=
  (∀ s' i', (s', i') ≠ (s, i) → active s' i' st = take 1 (queue_of s' i' st)) ∧ active s i st = [] ∧ head (queue_of s i st) = Some c.

Lemma active_line s i st st' : line st' = line st → active s i st' = active s i st ∧ queue_of s i st' = queue_of s i st.
Proof. intros [= E1 E2 E3]. unfold active, posted_of, stopping_of, queue_of. by rewrite E1, E2, E3. Qed.

Lemma held_line s i c st st' : line st' = line st → held s i c st → held s i c st'.
Proof.
  intros E (H1 & H2 & H3). destruct (active_line s i st st' E) as [Ea Eq]. unfold held. rewrite Ea, Eq. split_and!; [|done|done].
  intros s' i' Hne. destruct (active_line s' i' st st' E) as [-> ->]. auto.
Qed.

Lemma serial_line st st' : line st' = line st → serial st → serial st'.
Proof. intros E Hs s i. destruct (active_line s i st st' E) as [-> ->]. apply Hs. Qed.

Lemma queue_of_insert s i q st s' i' : queue_of s' i' (with_offer_commands (<[(s, i) := q]> (offer_commands_ st)) st) = if decide ((s', i') = (s, i)) then q else queue_of s' i' st.
Proof. unfold queue_of. cbn. destruct (decide ((s', i') = (s, i))) as [[= -> ->]|Hne]; [by rewrite lookup_insert_eq|by rewrite lookup_insert_ne by congruence]. Qed.

Lemma active_post s i c st s' i' : active s' i' (with_posted (posted_ st ++ [(s, i, c)]) st) = posted_of s' i' st ++ (if decide ((s', i') = (s, i)) then [c] else []) ++ stopping_of s' i' st.
Proof.
  unfold active, posted_of, stopping_of. cbn. rewrite filter_app, fmap_app, <- app_assoc. f_equal. rewrite filter_cons, filter_nil. cbn.
  destruct (decide ((s, i) = (s', i'))) as [E1|E1], (decide ((s', i') = (s, i))) as [E2|E2]; try done; congruence.
Qed.

Lemma erase_serial s i c st : held s i c st → serial (erase_offer_command s i st).
Proof.
  intros (H1 & H2 & H3) s' i'. unfold erase_offer_command. unfold queue_of in H3. destruct (offer_commands_ st !! (s, i)) as [[|x q]|] eqn:E; [done| |done]. cbn in H3.
  apply app_nil in H2 as [Hp Hst]. destruct q as [|y q].
  - rewrite queue_of_insert. change (active s' i' (with_offer_commands _ st)) with (active s' i' st). destruct (decide _) as [[= -> ->]|Hne]; [unfold active; by rewrite Hp, Hst|by apply H1].
  - set (st1 := with_offer_commands _ st). rewrite (active_post s i y st1). change (queue_of s' i' (with_posted _ st1)) with (queue_of s' i' st1). subst st1. rewrite queue_of_insert.
    change (posted_of s' i' (with_offer_commands _ st)) with (posted_of s' i' st). change (stopping_of s' i' (with_offer_commands _ st)) with (stopping_of s' i' st).
    destruct (decide _) as [[= -> ->]|Hne]; [by rewrite Hp, Hst|]. rewrite app_nil_l. by apply H1.
Qed.

Lemma insert_serial s i c st : serial st → let r := insert_offer_command s i c st in if r.1 then held s i c r.2 else serial r.2.
Proof.
  intros Hs. unfold insert_offer_command. cbn [fst snd]. fold (queue_of s i st). case_bool_decide as E.
  - assert (Ha : active s i st = []) by (by rewrite Hs, E). split_and!.
    + intros s' i' Hne. rewrite queue_of_insert, decide_False by done. apply Hs.
    + done.
    + rewrite queue_of_insert, decide_True by done. by rewrite E.
  - intros s' i'. rewrite queue_of_insert. change (active s' i' (with_offer_commands _ st)) with (active s' i' st). destruct (decide _) as [[= -> ->]|]; [|apply Hs]. rewrite Hs. by destruct (queue_of s i st).
Qed.

Lemma process_offer_serial e client s i major minor c st : held s i c st → serial (process_offer e client s i major minor st).1.2.
Proof. intros Hh. destruct (process_offer_spec e client s i major minor st []) as [(st1 & -> & E) _]. eapply erase_serial, held_line; done. Qed.

Lemma offer_serial e client s i major minor st : serial st → serial (offer_service e client s i major minor true st).1.2.
Proof.
  intros Hs. unfold offer_service. pose proof (insert_serial s i (mk_command OFFER_SERVICE_ID client major minor) st Hs) as Hi. destruct (insert_offer_command _ _ _ _) as [b st1]. cbn [fst snd] in Hi. destruct b; [|done]. by eapply process_offer_serial.
Qed.

Lemma erase_local_line client s i st : line (erase_local_service client s i st) = line st.
Proof. unfold erase_local_service. destruct (get2 s i _) as [[[? ?] c]|]; [|done]. by destruct (c =? client). Qed.

Lemma active_stopping x st s' i' : active s' i' (with_stopping (stopping_ st ++ [x]) st)
  = active s' i' st ++ (if decide ((stop_service x, stop_instance x) = (s', i') ∧ done_ x = false) then [stop_command x] else []).
Proof.
  unfold active, posted_of, stopping_of. cbn. rewrite filter_app, fmap_app, app_assoc. f_equal. rewrite filter_cons, filter_nil. by destruct (decide _).
Qed.

Lemma stop_serial client s i major minor st : held s i (mk_command STOP_OFFER_SERVICE_ID client major minor) st → serial (on_stop_offer_service client s i major minor st).1.
Proof.
  intros Hh. unfold on_stop_offer_service. set (st1 := erase_local_service client s i st). assert (Hh1 : held s i (mk_command STOP_OFFER_SERVICE_ID client major minor) st1) by (eapply held_line; [apply erase_local_line|done]).
  destruct (find_service s i st1) as [info|]; [|by eapply erase_serial]. destruct (negb (reliable_endpoint info) && negb (unreliable_endpoint info)); [by eapply erase_serial|].
  intros s' i'. cbn [fst]. rewrite active_stopping. cbn [stop_service stop_instance done_ stop_command]. change (queue_of s' i' (with_stopping _ st1)) with (queue_of s' i' st1). destruct Hh1 as (H1 & H2 & H3).
  destruct (decide ((s, i) = (s', i') ∧ false = false)) as [[[= <- <-] _]|Hne]; [|rewrite app_nil_r; apply H1; intros [= -> ->]; tauto]. rewrite H2. cbn. destruct (queue_of s i st1); [done|]. cbn in H3. by injection H3 as ->.
Qed.

Lemma process_stop_serial client s i major minor st : held s i (mk_command STOP_OFFER_SERVICE_ID client major minor) st → serial (process_stop_offer client s i major minor st).1.
Proof. intros Hh. unfold process_stop_offer. destruct (match find_service s i st with Some info => is_local info | None => false end); [by apply stop_serial|by eapply erase_serial]. Qed.

(** The callback of an endpoint changes one withdrawal. *)
Lemma stopping_update s i k x x' st : stopping_ st !! k = Some x → (stop_service x', stop_instance x') = (stop_service x, stop_instance x) → stop_command x' = stop_command x →
  (done_ x' = done_ x → stopping_of s i (with_stopping (<[k := x']> (stopping_ st)) st) = stopping_of s i st)
  ∧ (done_ x = false → done_ x' = true → (s, i) ≠ (stop_service x, stop_instance x) → stopping_of s i (with_stopping (<[k := x']> (stopping_ st)) st) = stopping_of s i st)
  ∧ (done_ x = false → done_ x' = true → (s, i) = (stop_service x, stop_instance x) → ∃ l1 l2, stopping_of s i st = l1 ++ stop_command x :: l2 ∧ stopping_of s i (with_stopping (<[k := x']> (stopping_ st)) st) = l1 ++ l2).
Proof.
  intros Hk Hsi Hc. unfold stopping_of. cbn [stopping_ with_stopping]. assert (E1 : stopping_ st = take k (stopping_ st) ++ x :: drop (S k) (stopping_ st)) by (symmetry; by apply take_drop_middle).
  assert (E2 : <[k := x']> (stopping_ st) = take k (stopping_ st) ++ x' :: drop (S k) (stopping_ st)) by (apply insert_take_drop; by apply lookup_lt_Some in Hk).
  rewrite E2. revert E1. generalize (take k (stopping_ st)), (drop (S k) (stopping_ st)). intros l1 l2 ->. rewrite !filter_app, !filter_cons, !fmap_app, Hsi.
  split_and!.
  - intros ->. destruct (decide _); cbn; by rewrite ?Hc.
  - intros Hd Hd' Hne. rewrite !decide_False by (intros [? _]; congruence). done.
  - intros Hd Hd' Heq. rewrite (decide_True (P := _ ∧ done_ x = false)) by done. rewrite (decide_False (P := _ ∧ done_ x' = false)) by (intros [_ ?]; congruence). do 2 eexists. split; [done|done].
Qed.

(** Operations on the services leave the queues and the tables of offers. *)
Definition calm (st st' : t) : Prop := line st' = line st ∧ tables st' = tables st.

Lemma clear_calm s i b st st' : calm st st' → calm st (clear_service_info s i b st').
Proof. unfold clear_service_info. destruct (find_service s i st') as [info|]; [|done]. by destruct (if b then _ else _). Qed.

Lemma del_line s i r u b st : line (del_routing_info s i r u b st).1 = line st ∧ tables (del_routing_info s i r u b st).1 = tables st.
Proof.
  unfold del_routing_info. destruct (find_service s i st) as [info|]; [|done]. cbn [fst]. change (calm st (if negb r && negb u then clear_service_info s i false (clear_service_info s i true (if u then clear_service_info s i false (if r then clear_service_info s i true st else st) else if r then clear_service_info s i true st else st))
    else if u then clear_service_info s i false (if r then clear_service_info s i true st else st) else if r then clear_service_info s i true st else st)).
  destruct r, u; cbn [negb andb]; repeat apply clear_calm; done.
Qed.

Lemma endpoint_stopped_serial e k reliable st : serial st → serial (endpoint_stopped e k reliable st).1.
Proof.
  intros Hs. unfold endpoint_stopped. destruct (stopping_ st !! k) as [x|] eqn:Hk; [|done]. set (x1 := if reliable then _ else _).
  assert (E : (stop_service x1, stop_instance x1) = (stop_service x, stop_instance x) ∧ stop_command x1 = stop_command x ∧ done_ x1 = done_ x) by (subst x1; by destruct reliable). destruct E as (E1 & E2 & E3).
  destruct (reliable_ x1 && unreliable_ x1 && negb (done_ x1)) eqn:Eb.
  - apply andb_true_iff in Eb as [_ Hd%negb_true_iff]. rewrite E3 in Hd. set (x2 := mk_stopping _ _ _ _ _ _ true).
    set (s := stop_service x). set (i := stop_instance x). set (st1 := with_stopping _ st). destruct (del_line s i (reliable_endpoint (stop_info x)) (unreliable_endpoint (stop_info x)) true st1) as [L _].
    destruct (del_routing_info _ _ _ _ _ _) as [st2 out]. cbn [fst] in *. apply (erase_serial s i (stop_command x)). eapply held_line; [exact L|].
    destruct (stopping_update s i k x x2 st Hk eq_refl eq_refl) as (_ & _ & (l1 & l2 & U1 & U2)); [done|done|done|]. pose proof (Hs s i) as Ha. unfold active in Ha. rewrite U1 in Ha.
    assert (Hq : posted_of s i st = [] ∧ l1 = [] ∧ l2 = [] ∧ head (queue_of s i st) = Some (stop_command x)).
    { destruct (queue_of s i st) as [|c q]; cbn in Ha; [by destruct (posted_of s i st), l1|]. destruct (posted_of s i st) as [|y p]; [|destruct p, l1; discriminate Ha]. destruct l1; [|by destruct l1]. cbn in Ha. injection Ha as -> ->. done. }
    destruct Hq as (Q1 & -> & -> & Q2). split_and!; [|unfold active; change (posted_of s i st1) with (posted_of s i st); subst st1; by rewrite Q1, U2|done].
    intros s' i' Hne. destruct (stopping_update s' i' k x x2 st Hk eq_refl eq_refl) as (_ & U & _). unfold active. subst st1. rewrite U by done. apply Hs.
  - destruct (del_line (stop_service x) (stop_instance x) (reliable_endpoint (stop_info x)) (unreliable_endpoint (stop_info x)) false (with_stopping (<[k := x1]> (stopping_ st)) st)) as [L _].
    destruct (del_routing_info _ _ _ _ _ _) as [st2 out]. cbn [fst] in *. eapply serial_line; [exact L|]. intros s i. destruct (stopping_update s i k x x1 st Hk E1 E2) as (U & _ & _). unfold active. rewrite U by done. apply Hs.
Qed.

Lemma run_posted_serial e st : serial st → serial (run_posted e st).1.
Proof.
  intros Hs. unfold run_posted. destruct (posted_ st) as [|[[s i] c] rest] eqn:Ep; [done|].
  assert (Hh : held s i c (with_posted rest st)).
  { assert (Hx : ∀ s' i', posted_of s' i' st = (if decide ((s, i) = (s', i')) then [c] else []) ++ posted_of s' i' (with_posted rest st)) by (intros; unfold posted_of; rewrite Ep; cbn [posted_ with_posted]; rewrite filter_cons; cbn [fst]; by destruct (decide _)).
    pose proof (Hs s i) as Ha. unfold active in Ha. rewrite Hx, decide_True in Ha by done. change (stopping_of s i st) with (stopping_of s i (with_posted rest st)) in Ha.
    assert (Hq : active s i (with_posted rest st) = [] ∧ head (queue_of s i st) = Some c) by (destruct (queue_of s i st) as [|c' q]; [done|change (c :: active s i (with_posted rest st) = [c']) in Ha; injection Ha as Hc Hr; split; [exact Hr|cbn; congruence]]).
    destruct Hq as [Q1 Q2]. split_and!; [|done|done]. intros s' i' Hne. pose proof (Hs s' i') as Ha'. unfold active in Ha'. rewrite Hx, decide_False in Ha' by congruence. done. }
  destruct c as [[|] client major minor]; cbn.
  - pose proof (process_offer_serial e client s i major minor _ _ Hh) as Hp. by destruct (process_offer _ _ _ _ _ _ _) as [[? ?] ?].
  - by apply process_stop_serial.
Qed.

(** Offers that are made again. *)
Definition offer_again (e : env) (acc : t * list output) (x : Z * Z * (Z * Z * Z * Z)) : t * list output :=
  let '(s, i, (major, minor, offering, _)) := x in let '(_, st, out) := offer_service e offering s i major minor true acc.1 in (st, acc.2 ++ out).

Lemma offer_pinged e client s i major minor st late : pinged late st → pinged late (offer_service e client s i major minor true st).1.2.
Proof.
  intros Hp. unfold offer_service, insert_offer_command. case_bool_decide; [|done]. by apply process_offer_spec.
Qed.

Lemma offer_replaced e client s i major minor st s' i' : replaced e s' i' st (offer_service e client s i major minor true st).1.2.
Proof.
  unfold offer_service, insert_offer_command. case_bool_decide; [|by apply replaced_same]. set (st1 := with_offer_commands _ st). destruct (process_offer_spec e client s i major minor st1 []) as (_ & Hr & _). apply Hr.
Qed.

Lemma replaced_trans e s i a b c : replaced e s i a b → replaced e s i b c → replaced e s i a c.
Proof.
  intros H1 H2 major minor x Hx. destruct (H1 _ _ _ Hx) as [Hb|(Hu & c' & Hb)]; [by apply H2|]. right. split; [done|]. destruct (H2 _ _ _ Hb) as [|[_ ?]]; [by eexists|done].
Qed.

Lemma offers_again e l late : ∀ acc, (serial acc.1 → serial (foldl (offer_again e) acc l).1) ∧ (pinged late acc.1 → pinged late (foldl (offer_again e) acc l).1)
  ∧ ∀ s i, replaced e s i acc.1 (foldl (offer_again e) acc l).1.
Proof.
  induction l as [|[[s i] [[[major minor] offering] old]] l IH]; intros acc; [split_and!; [done|done|intros; by apply replaced_same]|]. cbn [foldl].
  pose proof (offer_serial e offering s i major minor acc.1) as H1. pose proof (offer_pinged e offering s i major minor acc.1 late) as H2. pose proof (offer_replaced e offering s i major minor acc.1) as H3.
  assert (E : (offer_again e acc (s, i, (major, minor, offering, old))).1 = (offer_service e offering s i major minor true acc.1).1.2) by (unfold offer_again; by destruct (offer_service _ _ _ _ _ _ _ _) as [[? ?] ?]).
  destruct (IH (offer_again e acc (s, i, (major, minor, offering, old)))) as (I1 & I2 & I3). rewrite E in I1, I2, I3. split_and!; [auto|auto|]. intros s' i'. by eapply replaced_trans.
Qed.

Lemma get2_drop_waiting c s i m : get2 s i (drop_waiting c m) = match get2 s i m with Some v => if decide (v.2 = c) then None else Some v | None => None end.
Proof.
  unfold drop_waiting. etransitivity; [apply (get2_erase_each (λ x : Z * Z * (Z * Z * Z * Z), x.1))|]. unfold waiting_for.
  assert (Hl : ∀ x, x ∈ waiting_for c m ↔ ∃ s i v, get2 s i m = Some v ∧ v.2 = c ∧ x = (s, i, v)) by (intros x; exact (elem_of_matching (λ y : Z * (Z * Z * Z * Z), y.2.2 = c) (λ s (y : Z * (Z * Z * Z * Z)), (s, y.1, y.2)) m x)). fold (waiting_for c m).
  destruct (decide _) as [([y v] & E & (s' & i' & v' & Hg & Hv & [= -> ->])%Hl)%list_elem_of_fmap|Hno]; [cbn in E; injection E as -> ->; rewrite Hg; by rewrite decide_True|].
  destruct (get2 s i m) as [v|] eqn:E; [|done]. rewrite decide_False; [done|]. intros Hv. apply Hno, list_elem_of_fmap. exists (s, i, v). split; [done|]. apply Hl. by exists s, i, v.
Qed.

Lemma drop_pinged c st late : pinged late st → pinged (filter (.≠ c) late) (on_pong c st).
Proof.
  intros Hp s i major minor x old. cbn. rewrite get2_drop_waiting. destruct (get2 s i (pending_offers_ st)) as [[y old']|] eqn:E; [|done]. cbn. destruct (decide (old' = c)); [done|]. intros [= -> <-].
  destruct (Hp _ _ _ _ _ _ E) as [|Hin]; [by left|right]. by apply list_elem_of_filter.
Qed.

Lemma error_spec e c st late : (serial st → serial (handle_client_error e c st).1) ∧ (pinged late st → pinged (filter (.≠ c) late) (handle_client_error e c st).1) ∧ ∀ s i, replaced e s i st (handle_client_error e c st).1.
Proof.
  unfold handle_client_error. destruct (offers_again e (reverse (waiting_for c (pending_offers_ st))) (filter (.≠ c) late) (on_pong c st, [deregister_on_error c])) as (H1 & H2 & H3). split_and!; [done| |done]. intros Hp. by apply H2, drop_pinged.
Qed.

(** The applications that the timer reports, one after the other. *)
Definition report (e : env) (acc : t * list output) (c : Z) : t * list output := let '(st, out) := handle_client_error e c acc.1 in (st, acc.2 ++ out).

Lemma timer_reports e st : stub_on_ping_timer_expired e st
  = foldl (report e) (with_pings (pings.on_ping_timer_expired (watchdog_timeout e) (now e) (pings_ st)).1 st, []) (reported (watchdog_timeout e) (now e) (pings.pinged_clients_ (pings_ st))).
Proof.
  unfold stub_on_ping_timer_expired. rewrite on_ping_timer_expired_spec. cbn [fst snd]. generalize (reported (watchdog_timeout e) (now e) (pings.pinged_clients_ (pings_ st))). intros l.
  match goal with |- foldl _ ?a _ = foldl _ ?b _ => generalize b end. intros acc. revert acc. induction l as [|c l IH]; intros acc; [done|]. cbn. apply IH.
Qed.

Lemma reports_spec e l : ∀ acc, (serial acc.1 → serial (foldl (report e) acc l).1) ∧ (∀ late, (∀ c, c ∈ late → c ∈ l) → pinged late acc.1 → pinged [] (foldl (report e) acc l).1)
  ∧ ∀ s i, replaced e s i acc.1 (foldl (report e) acc l).1.
Proof.
  induction l as [|c l IH]; intros acc.
  - split_and!; [done| |intros; by apply replaced_same]. intros late Hl Hp s i major minor x old Hx. destruct (Hp _ _ _ _ _ _ Hx) as [|Hin]; [by left|]. by apply Hl, not_elem_of_nil in Hin.
  - cbn [foldl]. assert (E : (report e acc c).1 = (handle_client_error e c acc.1).1) by (unfold report; by destruct (handle_client_error e c acc.1)). destruct (IH (report e acc c)) as (I1 & I2 & I3). rewrite E in I1, I2, I3.
    destruct (error_spec e c acc.1 []) as (H1 & _ & H3). split_and!; [auto| |intros; by eapply replaced_trans]. intros late Hl Hp. destruct (error_spec e c acc.1 late) as (_ & H2 & _). apply (I2 (filter (.≠ c) late)); [|auto].
    intros x [Hx Hin%Hl]%list_elem_of_filter. by apply elem_of_cons in Hin as [|].
Qed.

Lemma timer_pinged e st : pinged [] st → pinged [] (stub_on_ping_timer_expired e st).1.
Proof.
  intros Hp. rewrite timer_reports. eapply reports_spec; [by intros c|]. cbn [fst]. intros s i major minor c old Hx. cbn [pings_ with_pings]. rewrite on_ping_timer_expired_spec. cbn [fst].
  destruct (Hp _ _ _ _ _ _ Hx) as [[tp Ht]|Hin]; [|by apply not_elem_of_nil in Hin]. match goal with |- is_Some (pings.pinged_clients_ ?x !! _) ∨ _ => replace (pings.pinged_clients_ x) with (left_over (watchdog_timeout e) (now e) (pings.pinged_clients_ (pings_ st))) by (by destruct (decide _)) end.
  rewrite left_over_lookup, Ht. destruct (pings.timed_out _ _ _) eqn:E; [right|left; by eexists]. apply elem_of_reported. exists tp. by rewrite E.
Qed.

(** ** Runs *)

Inductive op : Type :=
| op_offer (e : env) (client s i major minor : Z)
| op_stop_offer (client s i major minor : Z)
| op_posted (e : env)
| op_stopped (e : env) (k : nat) (reliable : bool)
| op_pong (e : env) (client : Z)
| op_error (e : env) (client : Z)
| op_timer (e : env)
| op_deregister (client s i major minor : Z).

Definition apply_op (o : op) (st : t) : t * list output :=
  match o with
  | op_offer e client s i major minor => let '(_, st, out) := offer_service e client s i major minor true st in (st, out)
  | op_stop_offer client s i major minor => stop_offer_service client s i major minor true st
  | op_posted e => run_posted e st
  | op_stopped e k reliable => endpoint_stopped e k reliable st
  | op_pong e client => (stub_on_pong e client st, [])
  | op_error e client => handle_client_error e client st
  | op_timer e => stub_on_ping_timer_expired e st
  | op_deregister client s i major minor => on_stop_offer_service client s i major minor st
  end.

(** Runs, and runs in which no application deregisters with its services. *)
Inductive reachable (P : op → Prop) : t → Prop :=
| reachable_start : reachable P create
| reachable_step st o : reachable P st → P o → reachable P (apply_op o st).1.

Definition no_deregister (o : op) : Prop := match o with op_deregister _ _ _ _ _ => False | _ => True end.

Lemma erase_local_spec client s i st : pending_offers_ (erase_local_service client s i st) = pending_offers_ st ∧ pings_ (erase_local_service client s i st) = pings_ st
  ∧ ∀ s' i' major minor c, get2 s' i' (local_services_ st) = Some (major, minor, c) → get2 s' i' (local_services_ (erase_local_service client s i st)) = Some (major, minor, c) ∨ c = client ∧ s' = s ∧ i' = i.
Proof.
  unfold erase_local_service. destruct (get2 s i (local_services_ st)) as [[[ma mi] c]|] eqn:E; [|by split_and!; auto]. destruct (Z.eqb_spec c client) as [->|]; [|by split_and!; auto]. split_and!; [done|done|].
  intros s' i' major minor c Hc. cbn. rewrite get2_erase2. destruct (decide (s' = s ∧ i' = i)) as [[-> ->]|]; [right|by left]. rewrite E in Hc. by injection Hc as -> -> ->.
Qed.

Lemma stop_tables client s i major minor st : tables (on_stop_offer_service client s i major minor st).1 = tables (erase_local_service client s i st).
Proof.
  unfold on_stop_offer_service, withdrawn. set (st1 := erase_local_service client s i st). destruct (find_service s i st1) as [info|]; [|apply erase_tables]. destruct (_ && _); [apply erase_tables|done].
Qed.

Lemma process_stop_tables client s i major minor st : tables (process_stop_offer client s i major minor st).1 = tables st
  ∨ tables (process_stop_offer client s i major minor st).1 = tables (erase_local_service client s i st).
Proof.
  unfold process_stop_offer. destruct (match find_service s i st with Some info => is_local info | None => false end); [right|left; apply erase_tables]. rewrite stop_tables. unfold erase_local_service. cbn. destruct (get2 s i _) as [[[? ?] c]|]; [|done]. by destruct (c =? client).
Qed.

Lemma endpoint_tables e k reliable st : tables (endpoint_stopped e k reliable st).1 = tables st.
Proof.
  unfold endpoint_stopped. destruct (stopping_ st !! k) as [x|]; [|done]. destruct (_ && _ && _).
  - match goal with |- context [del_routing_info ?a ?b ?c ?d ?f ?g] => destruct (del_line a b c d f g) as [_ T]; destruct (del_routing_info a b c d f g) as [st2 out] end. cbn [fst] in *. unfold withdrawn. cbn [fst]. rewrite erase_tables. exact T.
  - match goal with |- context [del_routing_info ?a ?b ?c ?d ?f ?g] => destruct (del_line a b c d f g) as [_ T]; destruct (del_routing_info a b c d f g) as [st2 out] end. exact T.
Qed.

Lemma removed_clients T n c p : pings.pinged_clients_ (pings.remove_from_pinged_clients T n c p) = delete c (pings.pinged_clients_ p).
Proof. unfold pings.remove_from_pinged_clients. destruct (decide (pings.pinged_clients_ p = ∅)) as [->|]; [by rewrite delete_empty|]. by destruct (decide _). Qed.

Lemma step_serial o st : no_deregister o → serial st → serial (apply_op o st).1.
Proof.
  intros Ho Hs. destruct o as [e client s i major minor|client s i major minor|e|e k reliable|e client|e client|e|client s i major minor]; cbn [apply_op]; [| | | | | | |done].
  - pose proof (offer_serial e client s i major minor st Hs) as H. by destruct (offer_service _ _ _ _ _ _ _ _) as [[? ?] ?].
  - unfold stop_offer_service. pose proof (insert_serial s i (mk_command STOP_OFFER_SERVICE_ID client major minor) st Hs) as Hi. destruct (insert_offer_command _ _ _ _) as [b st1]. cbn [fst snd] in Hi. destruct b; [|done]. by apply process_stop_serial.
  - by apply run_posted_serial.
  - by apply endpoint_stopped_serial.
  - by eapply serial_line; [|exact Hs].
  - by apply (error_spec e client st []).
  - rewrite timer_reports. by apply reports_spec.
Qed.

Lemma pinged_tables late st st' : pending_offers_ st' = pending_offers_ st → pings_ st' = pings_ st → pinged late st → pinged late st'.
Proof. intros E1 E2. unfold pinged. by rewrite E1, E2. Qed.

Lemma step_pinged o st : pinged [] st → pinged [] (apply_op o st).1.
Proof.
  intros Hp. assert (Hstop : ∀ client s i major minor, pinged [] (on_stop_offer_service client s i major minor st).1).
  { intros. pose proof (stop_tables client s i major minor st) as [= _ E2 E3]. destruct (erase_local_spec client s i st) as (F1 & F2 & _). by apply (pinged_tables [] st); [congruence|congruence|]. }
  assert (Hps : ∀ client s i major minor st1, tables st1 = tables st → pinged [] (process_stop_offer client s i major minor st1).1).
  { intros client s i major minor st1 [= T1 T2 T3]. destruct (erase_local_spec client s i st1) as (F1 & F2 & _). destruct (process_stop_tables client s i major minor st1) as [[= _ E2 E3]|[= _ E2 E3]]; (apply (pinged_tables [] st); [congruence|congruence|done]). }
  destruct o as [e client s i major minor|client s i major minor|e|e k reliable|e client|e client|e|client s i major minor]; cbn [apply_op].
  - pose proof (offer_pinged e client s i major minor st [] Hp) as H. by destruct (offer_service _ _ _ _ _ _ _ _) as [[? ?] ?].
  - unfold stop_offer_service, insert_offer_command. case_bool_decide; [by apply Hps|done].
  - unfold run_posted. destruct (posted_ st) as [|[[s i] [[|] client major minor]] rest]; [done| |by apply Hps]. cbn. destruct (process_offer_spec e client s i major minor (with_posted rest st) []) as (_ & _ & H). by destruct (process_offer _ _ _ _ _ _ _) as [[? ?] ?]; apply H.
  - pose proof (endpoint_tables e k reliable st) as [= _ E2 E3]. by apply (pinged_tables [] st).
  - intros s i major minor c old. cbn -[pings.remove_from_pinged_clients]. rewrite removed_clients, get2_drop_waiting. destruct (get2 s i (pending_offers_ st)) as [[x old']|] eqn:E; [|done]. cbn. destruct (decide (old' = client)); [done|]. intros [= -> ->].
    destruct (Hp _ _ _ _ _ _ E) as [|Hin]; [left; by rewrite lookup_delete_ne|by apply not_elem_of_nil in Hin].
  - by apply (error_spec e client st []).
  - by apply timer_pinged.
  - apply Hstop.
Qed.

(** The application withdraws the instance, or is deregistered. *)
Definition withdraws (o : op) (st : t) (c s i : Z) : Prop :=
  match o with
  | op_stop_offer client s' i' _ _ | op_deregister client s' i' _ _ => client = c ∧ s' = s ∧ i' = i
  | op_posted _ => ∃ major minor, head (posted_ st) = Some (s, i, mk_command STOP_OFFER_SERVICE_ID c major minor)
  | _ => False
  end.

Definition env_of (o : op) : option env := match o with op_offer e _ _ _ _ _ | op_posted e | op_stopped e _ _ | op_pong e _ | op_error e _ | op_timer e => Some e | _ => None end.

Definition lost (o : op) (st st' : t) (major minor c s i : Z) : Prop :=
  withdraws o st c s i ∨ ∃ e, env_of o = Some e ∧ unreachable e c ∧ ∃ c', get2 s i (local_services_ st') = Some (major, minor, c').

Lemma step_kept o st major minor c s i : get2 s i (local_services_ st) = Some (major, minor, c) →
  get2 s i (local_services_ (apply_op o st).1) = Some (major, minor, c) ∨ lost o st (apply_op o st).1 major minor c s i.
Proof.
  intros Hc. assert (Hrep : ∀ e st', env_of o = Some e → replaced e s i st st' → get2 s i (local_services_ st') = Some (major, minor, c) ∨ lost o st st' major minor c s i).
  { intros e st' He Hr. destruct (Hr _ _ _ Hc) as [|[Hu Hx]]; [by left|]. right. right. by exists e. }
  assert (Hst : ∀ client s' i' st', local_services_ st' = local_services_ (erase_local_service client s' i' st) → get2 s i (local_services_ st') = Some (major, minor, c) ∨ c = client ∧ s = s' ∧ i = i').
  { intros client s' i' st' ->. by apply erase_local_spec. }
  assert (Hps : ∀ client s' i' ma mi st1, tables st1 = tables st → get2 s i (local_services_ (process_stop_offer client s' i' ma mi st1).1) = Some (major, minor, c) ∨ c = client ∧ s = s' ∧ i = i').
  { intros client s' i' ma mi st1 [= T1 T2 T3]. destruct (process_stop_tables client s' i' ma mi st1) as [[= E _ _]|[= E _ _]]; rewrite E; [left; congruence|]. rewrite <- T1 in Hc. by apply erase_local_spec. }
  destruct o as [e client s' i' ma mi|client s' i' ma mi|e|e k reliable|e client|e client|e|client s' i' ma mi]; cbn [apply_op].
  - apply (Hrep e); [done|]. pose proof (offer_replaced e client s' i' ma mi st s i) as H. by destruct (offer_service _ _ _ _ _ _ _ _) as [[? ?] ?].
  - unfold stop_offer_service, insert_offer_command. case_bool_decide; [|by left]. destruct (Hps client s' i' ma mi (with_offer_commands (<[(s', i') := default [] (offer_commands_ st !! (s', i')) ++ [mk_command STOP_OFFER_SERVICE_ID client ma mi]]> (offer_commands_ st)) st) eq_refl) as [|(-> & -> & ->)]; [by left|right; by left].
  - unfold run_posted. destruct (posted_ st) as [|[[s' i'] [[|] client ma mi]] rest] eqn:Ep; [by left| |].
    + apply (Hrep e); [done|]. cbn. destruct (process_offer_spec e client s' i' ma mi (with_posted rest st) []) as (_ & H & _). by destruct (process_offer _ _ _ _ _ _ _) as [[? ?] ?]; apply H.
    + destruct (Hps client s' i' ma mi (with_posted rest st) eq_refl) as [|(-> & -> & ->)]; [by left|right; left]. exists ma, mi. by rewrite Ep.
  - left. pose proof (endpoint_tables e k reliable st) as [= E _ _]. by rewrite E.
  - by left.
  - apply (Hrep e); [done|]. apply (error_spec e client st []).
  - apply (Hrep e); [done|]. rewrite timer_reports. eapply (replaced_trans e s i st (with_pings (pings.on_ping_timer_expired (watchdog_timeout e) (now e) (pings_ st)).1 st)); [by apply replaced_same|]. apply (reports_spec e _ (_, [])).
  - pose proof (stop_tables client s' i' ma mi st) as [= E _ _]. destruct (Hst client s' i' _ E) as [|(-> & -> & ->)]; [by left|right; by left].
Qed.

Lemma reachable_pinged P st : reachable P st → pinged [] st.
Proof. induction 1 as [|st o _ IH _]; [intros ? ? ? ? ? ? [=]|by apply step_pinged]. Qed.



(** ** Two applications that offer the same instance *)

Module conflict.
Definition e (n : Z) : env := mk_env 0x100 (λ _, true) (λ _, true) (λ _ _, true) (λ _ _, (false, false)) true true 5000 n.
Definition served (n : Z) : env := mk_env 0x100 (λ _, true) (λ _, true) (λ _ _, true) (λ _ _, (true, false)) true true 5000 n.
Definition run (ops : list op) : t := foldl (λ st o, (apply_op o st).1) create ops.

(** 5 offers an instance, then 6 does. *)
Definition first : list op := [op_offer (e 0) 5 1 2 1 0].
Definition both : list op := first ++ [op_offer (e 0) 6 1 2 1 0].

Lemma run_reachable (P : op → Prop) ops : Forall P ops → reachable P (run ops).
Proof.
  unfold run. generalize create at 1, (reachable_start P). intros st Hst Hops. revert st Hst. induction Hops as [|o ops Ho Hops IH]; intros st Hst; [done|]. cbn [foldl]. apply IH. by constructor.
Qed.
End conflict.



(** ** Deviations *)

(** When the application that offers the instance is reported, the waiting offer is made
    again while the table still names that application: it is pinged again and the offer
    waits for another timeout. *)
Lemma offered_again_waits : let st := (apply_op (op_timer (conflict.e (5000 * pings.millisecond))) (conflict.run conflict.both)).1 in
  get2 1 2 (pending_offers_ st) = Some (1, 0, 6, 5) ∧ get2 1 2 (local_services_ st) = Some (1, 0, 5).
Proof. vm_compute. done. Qed.

(** A service without endpoints that is withdrawn cannot be offered with another version. *)
Lemma other_version_refused : let st := conflict.run (conflict.first ++ [op_stop_offer 5 1 2 1 0; op_offer (conflict.e 0) 5 1 2 2 0]) in
  get2 1 2 (local_services_ st) = None ∧ find_service 1 2 st = Some (mk_info 1 0 true false false).
Proof. vm_compute. done. Qed.

(** Any application can withdraw the service of another one: its endpoints stop and it
    is no longer announced, while it is still taken for offered, so that its application
    cannot offer it again. *)
Lemma foreign_withdrawal : let st := conflict.run [op_offer (conflict.served 0) 5 1 2 1 0; op_stop_offer 6 1 2 1 0] in
  let r := apply_op (op_stopped (conflict.served 0) 0 true) st in
  discovery_stop_offer_service 1 2 ∈ r.2 ∧ find_service 1 2 r.1 = None ∧ get2 1 2 (local_services_ r.1) = Some (1, 0, 5) ∧ (offer_service (conflict.served 0) 5 1 2 1 0 true r.1).1.1 = false.
Proof. split_and!; [|vm_compute; done..]. apply list_elem_of_In. vm_compute. auto. Qed.

(** The services of an application that is deregistered are withdrawn past the queue: two
    withdrawals of the instance are active at once. *)
Lemma deregistered_past_queue : let st := conflict.run [op_offer (conflict.served 0) 5 1 2 1 0; op_stop_offer 5 1 2 1 0; op_deregister 5 1 2 1 0] in
  length (active 1 2 st) = 2%nat ∧ length (queue_of 1 2 st) = 1%nat.
Proof. vm_compute. done. Qed.
