(* ===== verification/Tunnel.v ===== *)
(** * The SOME/IP tunnel ([examples/tunnel])

    [SomeipTunnel] bridges SOME/IP and the gateway: messages and availability
    changes of the vsomeip application are published as samples
    ([fromSomeip], [serviceStateChanged]), samples of the gateway become calls
    on the application ([incommingMsg], polled by [fromGateway] and
    [recvInternal]); [thread_step] interleaves the callbacks with the receiver
    thread, whose read of [mMessagesInProgress] no lock orders.  [main] restarts the tunnel whenever the process id the
    gateway announces changes.

    The iceoryx2 library is outside the repository: what it gives the code is
    an argument of the handlers ([env]: the sample [loan()] returns with the
    content its memory happens to have, and whether [send] succeeds; [recv]:
    the outcome of [receive()]).  [draw] is the 64 bit random generator.  Calls
    on the vsomeip application are recorded in order ([app_call]). *)

From stdpp Require Import base list gmap.
From Stdlib Require Import ZArith Lia.
From S2P Require Import Prelude BitHelper Serialization Message.

(** ** Data exchanged with the gateway ([iceoryx2_bridge.hpp]) *)

(** The enumerations have a 32 bit underlying type and live in shared memory,
    so any other value may arrive. *)
Inductive TunnelMsgType : Type :=
| OFFER_SERVICE | FIND_SERVICE | OFFER_SERVICE_ACK | FIND_SERVICE_ACK | MESSAGE | EVENT
| TunnelMsgType_other (v : Z).

Inductive EventType : Type := Field | Event | EventType_other (v : Z).

(** [(vsomeip_v3::event_type_e) typ]: the 32 bit value cut to 8 bits. *)
Definition EventType_value (t : EventType) : Z :=
  match t with Field => 0 | Event => 1 | EventType_other v => u8 v end.

Module event_type_e.
Definition ET_EVENT : Z := 0x00.
Definition ET_SELECTIVE_EVENT : Z := 0x01.
Definition ET_FIELD : Z := 0x02.
End event_type_e.

Record SomeIPEventDesc : Type := {
  event_id : Z;
  event_groups : list Z;          (* uint16_t[4] *)
  desc_len : Z;
  typ : EventType
}.

Record ServiceDescEntry : Type := {
  event_infos : list SomeIPEventDesc;   (* [10] *)
  entry_len : Z
}.

Record SomeipTunnelHeader : Type := {
  type : TunnelMsgType;
  service_id : Z;
  instance_id : Z;
  method_id : Z;
  service_metadata : ServiceDescEntry;
  is_active : bool;
  id : Z
}.

Record SomeipTunnelPayload : Type := {
  plength : Z;
  payload : bytes                 (* uint8_t[1500] *)
}.

Definition sample : Type := SomeipTunnelHeader * SomeipTunnelPayload.

(** The array sizes of the declarations. *)
Definition header_shape (h : SomeipTunnelHeader) : Prop :=
  length (event_infos (service_metadata h)) = 10%nat
  ∧ Forall (λ d, length (event_groups d) = 4%nat) (event_infos (service_metadata h)).
Definition payload_shape (p : SomeipTunnelPayload) : Prop := length (payload p) = 1500%nat.

(** ** Calls on the vsomeip application *)

Inductive app_call : Type :=
| offer_event (s i e : Z) (groups : list Z) (ty : Z)
| offer_service (s i : Z)
| request_event (s i e : Z) (groups : list Z) (ty : Z)
| subscribe (s i g : Z)
| request_service (s i : Z)
| send (m : message_impl.t)
| notify (s i m : Z) (data : bytes).

(** ** The log ([operator<<] of [iceoryx2_bridge.hpp])

    Every sample is printed.  What matters of it is what it reads: the loops
    run to the lengths the sample carries, not to the sizes of the arrays. *)

Definition log_desc (d : SomeIPEventDesc) : result unit :=
  foldM (λ i _, _ ← at_idx (event_groups d) i; Ok ()) (seq 0 (Z.to_nat (desc_len d))) ().

Definition log_entry (m : ServiceDescEntry) : result unit :=
  foldM (λ i _, d ← at_idx (event_infos m) i; log_desc d) (seq 0 (Z.to_nat (entry_len m))) ().

Definition log_header (h : SomeipTunnelHeader) : result unit := log_entry (service_metadata h).

Definition log_payload (p : SomeipTunnelPayload) : result unit :=
  foldM (λ i _, _ ← at_idx (payload p) i; Ok ()) (seq 0 (Z.to_nat (plength p))) ().

Definition log_sample (x : sample) : result unit := _ ← log_header x.1; log_payload x.2.

Module SomeipTunnel.
Section tunnel.
Context {G : Type} (draw : G → Z * G).

Record t : Type := mk {
  mShallRun : bool;
  mMessagesInProgress : gmap Z message_impl.t;
  mGen : G;
  mToGateway : list sample;       (* samples published so far *)
  mApp : list app_call            (* calls made so far *)
}.

(** What iceoryx2 answers to one handler. *)
Record env : Type := { loan : option sample; send_ok : bool }.

Definition create (g : G) : t := mk true ∅ g [] [].

Definition call (c : app_call) (s : t) : t :=
  mk (mShallRun s) (mMessagesInProgress s) (mGen s) (mToGateway s) (mApp s ++ [c]).

(** [::iox2::send(sample).expect(...)] *)
Definition publish (e : env) (x : sample) (s : t) : result t :=
  if send_ok e
  then Ok (mk (mShallRun s) (mMessagesInProgress s) (mGen s) (mToGateway s ++ [x]) (mApp s))
  else Abort.

Definition serviceStateChanged (e : env) (sv i : Z) (active : bool) (s : t) : result t :=
  match loan e with
  | None => Abort
  | Some (h, p) =>
      publish e ({| type := FIND_SERVICE_ACK; service_id := sv; instance_id := i;
                    method_id := method_id h; service_metadata := service_metadata h;
                    is_active := active; id := id h |}, p) s
  end.

Definition fromSomeip (e : env) (msg : message_impl.t) (s : t) : result t :=
  match loan e with
  | None => Abort
  | Some (h, p) =>
      let mh := message_impl.header_ msg in
      let '(r, g) := draw (mGen s) in
      let header :=
        {| type := MESSAGE; service_id := message_header_impl.service_ mh;
           instance_id := message_header_impl.instance_ mh;
           method_id := message_header_impl.method_ mh;
           service_metadata := service_metadata h; is_active := is_active h; id := r |} in
      match message_impl.payload_ msg with
      | None => Ub null_deref
      | Some pl =>
          let l := payload_impl.get_length pl in
          if negb (l <? 15000) then Abort        (* assert(l < 15000) *)
          else
            data ← rd (payload_impl.data_ pl) 0 (Z.to_nat l);
            buf ← wr (payload p) 0 data;
            let m := match mMessagesInProgress s !! r with   (* emplace *)
                     | Some _ => mMessagesInProgress s
                     | None => <[r := msg]> (mMessagesInProgress s)
                     end in
            let x := (header, {| plength := u16 l; payload := buf |}) in
            _ ← log_sample x;
            publish e x (mk (mShallRun s) m g (mToGateway s) (mApp s))
      end
  end.

(** The inner loop of both service cases: the groups of event [i].  Its bound
    is [header.service_metadata.len]. *)
Definition its_groups (h : SomeipTunnelHeader) (i : nat) : result (list Z) :=
  foldM (λ j groups,
      d ← at_idx (event_infos (service_metadata h)) i;
      g ← at_idx (event_groups d) j;
      Ok (set_insert g groups))
    (seq 0 (Z.to_nat (entry_len (service_metadata h)))) [].

Definition offer_one (h : SomeipTunnelHeader) (i : nat) (s : t) : result t :=
  groups ← its_groups h i;
  d ← at_idx (event_infos (service_metadata h)) i;
  Ok (call (offer_event (service_id h) (instance_id h) (event_id d) groups
              (EventType_value (typ d))) s).

Definition request_one (h : SomeipTunnelHeader) (i : nat) (s : t) : result t :=
  groups ← its_groups h i;
  d ← at_idx (event_infos (service_metadata h)) i;
  let s := call (request_event (service_id h) (instance_id h) (event_id d) groups
                   (EventType_value (typ d))) s in
  match groups with                             (* *its_groups.begin() *)
  | [] => Ub null_deref
  | g :: _ => Ok (call (subscribe (service_id h) (instance_id h) g) s)
  end.

(** The bytes [begin .. begin + length] of a sample's payload. *)
Definition sample_bytes (p : SomeipTunnelPayload) : result bytes :=
  rd (payload p) 0 (Z.to_nat (plength p)).

Definition incommingMsg (x : sample) (s : t) : result t :=
  let '(h, p) := x in
  let n := Z.to_nat (entry_len (service_metadata h)) in
  _ ← log_sample x;
  match type h with
  | OFFER_SERVICE =>
      s ← foldM (offer_one h) (seq 0 n) s;
      Ok (call (offer_service (service_id h) (instance_id h)) s)
  | FIND_SERVICE =>
      s ← foldM (request_one h) (seq 0 n) s;
      Ok (call (request_service (service_id h) (instance_id h)) s)
  | OFFER_SERVICE_ACK | FIND_SERVICE_ACK | MESSAGE =>
      match mMessagesInProgress s !! id h with
      | None => Exn out_of_range
      | Some request =>
          let resp := runtime_impl.create_response request in
          pl_data ← sample_bytes p;
          let resp_pl := payload_impl.set_data pl_data payload_impl.create in
          Ok (call (send (message_impl.set_payload (Some resp_pl) resp)) s)
      end
  | EVENT =>
      pl_data ← sample_bytes p;
      Ok (call (notify (service_id h) (instance_id h) (method_id h) pl_data) s)
  | TunnelMsgType_other _ => Ok s
  end.

Inductive recv : Type := recv_error | recv_none | recv_sample (x : sample).

(** Polls until the subscriber has nothing more; [q] is what successive calls
    of [receive()] return (an exhausted list: no sample). *)
Fixpoint fromGateway (q : list recv) (s : t) : result t :=
  match q with
  | [] | recv_error :: _ | recv_none :: _ => Ok s
  | recv_sample x :: q => s ← incommingMsg x s; fromGateway q s
  end.

Definition stop (s : t) : t :=
  mk false (mMessagesInProgress s) (mGen s) (mToGateway s) (mApp s).

(** [recvInternal]: one element per call of [mNode.wait] (its outcome and what
    the subscriber holds then); the flag may have been cleared meanwhile. *)
Fixpoint recvInternal (cycles : list (bool * list recv)) (s : t) : result t :=
  match cycles with
  | [] => Ok s
  | (has_value, q) :: cycles =>
      if has_value && mShallRun s then s ← fromGateway q s; recvInternal cycles s
      else Ok s
  end.

(** ** The threads

    The callbacks run on the dispatchers of the application and hold
    [mToGatewayMutex] from their first to their last access of the tunnel; the
    receiver thread holds no lock.  [incommingMsg] shares only
    [mMessagesInProgress] with the callbacks: it is read once, by answers
    (line 203), and written by [fromSomeip] (line 116).  Where both are under
    way neither access is ordered before the other, which is a data race. *)

Inductive callback : Type :=
| cb_someip (e : env) (msg : message_impl.t)
| cb_state (e : env) (sv i : Z) (active : bool).

Definition run_callback (a : callback) (s : t) : result t :=
  match a with
  | cb_someip e msg => fromSomeip e msg s
  | cb_state e sv i active => serviceStateChanged e sv i active s
  end.

(** The tunnel, the callback that holds the mutex and the sample in [incommingMsg]. *)
Record threads : Type := threads_mk {
  tunnel : t;
  locked : option callback;
  incoming : option sample
}.

Definition reads_progress (x : sample) : bool :=
  match type x.1 with
  | OFFER_SERVICE_ACK | FIND_SERVICE_ACK | MESSAGE => true
  | _ => false
  end.

Definition racy (c : threads) : bool :=
  match locked c, incoming c with
  | Some (cb_someip _ _), Some x => reads_progress x
  | _, _ => false
  end.

Inductive event : Type :=
| ev_enter (a : callback)     (* a callback asks for the mutex *)
| ev_leave                    (* the callback with the mutex runs and returns *)
| ev_receive (x : sample)     (* the receiver thread enters incommingMsg *)
| ev_handled                  (* and returns from it *)
| ev_stop.

(** A callback that finds the mutex taken waits: nothing changes. *)
Definition thread_step (ev : event) (c : threads) : result threads :=
  if racy c then Ub data_race else
  match ev, locked c, incoming c with
  | ev_enter a, None, x => Ok (threads_mk (tunnel c) (Some a) x)
  | ev_leave, Some a, x => s ← run_callback a (tunnel c); Ok (threads_mk s None x)
  | ev_receive x, a, None => Ok (threads_mk (tunnel c) a (Some x))
  | ev_handled, a, Some x => s ← incommingMsg x (tunnel c); Ok (threads_mk s a None)
  | ev_stop, a, x => Ok (threads_mk (stop (tunnel c)) a x)
  | _, _, _ => Ok c
  end.
End tunnel.
End SomeipTunnel.

(** ** The supervisor loop ([main] of [someip_tunnel.cpp]) *)

Module gateway.

(** The effects of the loop body, in order.  Tunnels are numbered in the order
    of their creation. *)
Inductive effect : Type :=
| ev_stop (k : nat)      (* tunnel->stop() *)
| ev_join (k : nat)      (* thread.join() *)
| ev_create (k : nat)    (* tunnel.reset(new SomeipTunnel) and init() *)
| ev_start (k : nat)     (* thread{tunnel->start()} *)
| ev_notify.             (* notifier.notify() *)

Record t : Type := mk {
  currentPid : Z;
  tunnel : option nat;
  created : nat;
  effects : list effect
}.

Definition create : t := mk 0 None 0 [].

(** One iteration for the event id the listener returned. *)
Definition iteration (pid : Z) (s : t) : t :=
  if currentPid s =? pid then s
  else
    let restart := match tunnel s with Some k => [ev_stop k; ev_join k] | None => [] end in
    let k := created s in
    mk pid (Some k) (S k)
       (effects s ++ restart ++ [ev_create k; ev_start k; ev_notify]).

Definition run (pids : list Z) (s : t) : t := foldl (λ s pid, iteration pid s) s pids.
End gateway.

(** ** What the log reads *)

(** The lengths a sample carries are within the arrays. *)
Definition header_fits (h : SomeipTunnelHeader) : Prop :=
  let n := Z.to_nat (entry_len (service_metadata h)) in
  (n ≤ 10)%nat
  ∧ Forall (λ d, Z.to_nat (desc_len d) ≤ 4)%nat (take n (event_infos (service_metadata h))).
#[export] Instance header_fits_dec h : Decision (header_fits h).
Proof. unfold header_fits. apply _. Defined.

Definition payload_fits (p : SomeipTunnelPayload) : Prop := (Z.to_nat (plength p) ≤ 1500)%nat.
#[export] Instance payload_fits_dec p : Decision (payload_fits p).
Proof. unfold payload_fits. apply _. Defined.

(** A loop that reads [n] elements of an array is defined if they are inside
    the array and each of them can be read. *)
Lemma read_loop {A} (f : A → result unit) (P : A → Prop) `{!∀ x, Decision (P x)} (l : list A) n :
  (∀ x, x ∈ l → f x = if decide (P x) then Ok () else Ub oob_read) →
  foldM (λ i _, x ← at_idx l i; f x) (seq 0 n) ()
  = if decide ((n ≤ length l)%nat ∧ Forall P (take n l)) then Ok () else Ub oob_read.
Proof.
  intros Hf. induction n as [|n IH].
  { rewrite decide_True by (split; [lia|constructor]). done. }
  rewrite seq_S, foldM_app, IH. cbn [Nat.add]. unfold at_idx.
  destruct (l !! n) as [x|] eqn:Hx.
  - pose proof (lookup_lt_Some _ _ _ Hx) as Hn.
    rewrite (take_S_r _ _ x) by done. case_decide as H1.
    + cbn. rewrite Hx. cbn. rewrite Hf by (by eapply list_elem_of_lookup_2).
      destruct (decide (P x)) as [Hp|Hp].
      * rewrite decide_True; [done|]. split; [lia|].
        apply Forall_app. split; [apply H1|by constructor].
      * rewrite decide_False; [done|]. intros [_ [_ H2]%Forall_app]. by inversion H2.
    + rewrite decide_False; [done|]. intros [_ [H2 _]%Forall_app]. apply H1. split; [lia|done].
  - apply lookup_ge_None_1 in Hx. rewrite (decide_False (P := (S n ≤ length l)%nat ∧ _)) by lia.
    case_decide; [|done]. cbn. rewrite lookup_ge_None_2 by done. done.
Qed.

Lemma read_all {A} (l : list A) n :
  foldM (λ i _, _ ← at_idx l i; Ok ()) (seq 0 n) ()
  = if decide (n ≤ length l)%nat then Ok () else Ub oob_read.
Proof.
  rewrite (read_loop (λ _, Ok ()) (λ _, True)) by (intros; by rewrite decide_True).
  destruct (decide (n ≤ length l)%nat).
  - rewrite decide_True; [done|]. split; [done|]. by apply Forall_true.
  - rewrite decide_False; [done|]. by intros [? _].
Qed.

Lemma log_header_spec h :
  header_shape h → log_header h = if decide (header_fits h) then Ok () else Ub oob_read.
Proof.
  intros [Hn Hg]. etransitivity;
    [apply (read_loop log_desc (λ d, Z.to_nat (desc_len d) ≤ 4)%nat)|by apply decide_ext; rewrite Hn].
  intros d Hd. rewrite Forall_forall in Hg. unfold log_desc. by rewrite read_all, Hg.
Qed.

Lemma log_payload_spec p :
  payload_shape p → log_payload p = if decide (payload_fits p) then Ok () else Ub oob_read.
Proof.
  intros Hp. etransitivity; [apply read_all|apply decide_ext].
  unfold payload_fits. by rewrite Hp.
Qed.

Lemma log_sample_spec h p :
  header_shape h → payload_shape p →
  log_sample (h, p) = if decide (header_fits h ∧ payload_fits p) then Ok () else Ub oob_read.
Proof.
  intros Hh Hp. unfold log_sample. cbn [fst snd]. rewrite log_header_spec by done.
  destruct (decide (header_fits h)); [|by rewrite decide_False by tauto].
  rewrite bind_Ok, log_payload_spec by done.
  destruct (decide (payload_fits p)); [by rewrite decide_True|by rewrite decide_False by tauto].
Qed.

(** ** Facts about the handlers *)

Section tunnel_facts.
Import SomeipTunnel.
Context {G : Type} (draw : G → Z * G).
Implicit Types (s : t (G := G)).

Lemma publish_inv e x s s' :
  publish e x s = Ok s' →
  send_ok e = true
  ∧ s' = mk (mShallRun s) (mMessagesInProgress s) (mGen s) (mToGateway s ++ [x]) (mApp s).
Proof. unfold publish. destruct (send_ok e); intros; by simplify_eq. Qed.

(** No handler changes or removes an entry of [mMessagesInProgress]. *)
Definition progress_le s s' : Prop :=
  ∀ k m, mMessagesInProgress s !! k = Some m → mMessagesInProgress s' !! k = Some m.

#[export] Instance progress_le_preorder : PreOrder progress_le.
Proof. split; repeat intro; eauto. Qed.

Lemma call_progress c s : mMessagesInProgress (call c s) = mMessagesInProgress s.
Proof. done. Qed.

Lemma foldM_progress {A} (f : A → t → result t) l s s' :
  (∀ x s s', f x s = Ok s' → mMessagesInProgress s' = mMessagesInProgress s) →
  foldM f l s = Ok s' → mMessagesInProgress s' = mMessagesInProgress s.
Proof.
  intros Hf. revert s. induction l as [|x l IH]; intros s; cbn; [by intros [= <-]|].
  intros (s1 & H1 & H2)%bind_Ok_inv. rewrite (IH _ H2). eauto.
Qed.

Lemma offer_one_progress h i s s' :
  offer_one h i s = Ok s' → mMessagesInProgress s' = mMessagesInProgress s.
Proof. unfold offer_one. intros. by res_inv. Qed.

Lemma request_one_progress h i s s' :
  request_one h i s = Ok s' → mMessagesInProgress s' = mMessagesInProgress s.
Proof. unfold request_one. intros. res_inv. case_match; by res_inv. Qed.

Lemma incommingMsg_progress x s s' :
  incommingMsg x s = Ok s' → mMessagesInProgress s' = mMessagesInProgress s.
Proof.
  destruct x as [h p]. unfold incommingMsg. intros ([] & _ & H)%bind_Ok_inv.
  destruct (type h); repeat case_match; res_inv; cbn; try done.
  - eapply foldM_progress; [|done]. apply offer_one_progress.
  - eapply foldM_progress; [|done]. apply request_one_progress.
Qed.

Lemma fromSomeip_inv e msg s s' :
  fromSomeip draw e msg s = Ok s' →
  ∃ h p pl buf, loan e = Some (h, p) ∧ message_impl.payload_ msg = Some pl
  ∧ payload_impl.get_length pl < 15000
  ∧ wr (payload p) 0 (take (Z.to_nat (payload_impl.get_length pl)) (payload_impl.data_ pl)) = Ok buf
  ∧ mMessagesInProgress s' =
      match mMessagesInProgress s !! (draw (mGen s)).1 with
      | Some _ => mMessagesInProgress s
      | None => <[(draw (mGen s)).1 := msg]> (mMessagesInProgress s)
      end
  ∧ mGen s' = (draw (mGen s)).2
  ∧ mApp s' = mApp s
  ∧ mToGateway s' = mToGateway s ++
      [({| type := MESSAGE;
           service_id := message_header_impl.service_ (message_impl.header_ msg);
           instance_id := message_header_impl.instance_ (message_impl.header_ msg);
           method_id := message_header_impl.method_ (message_impl.header_ msg);
           service_metadata := service_metadata h; is_active := is_active h;
           id := (draw (mGen s)).1 |},
        {| plength := u16 (payload_impl.get_length pl); payload := buf |})].
Proof.
  unfold fromSomeip. destruct (loan e) as [[h p]|]; [|done].
  destruct (draw (mGen s)) as [r g]. destruct (message_impl.payload_ msg) as [pl|]; [|done].
  destruct (Z.ltb_spec (payload_impl.get_length pl) 15000) as [Hl|]; cbn [negb]; [|done].
  intros H. res_inv. apply publish_inv in H as [_ ->].
  match goal with H : rd _ _ _ = Ok _ |- _ => unfold rd in H; case_decide; [|done]; injection H as <- end.
  eexists h, p, pl, _. repeat split; done.
Qed.

Lemma callback_progress a s s' : run_callback draw a s = Ok s' → progress_le s s'.
Proof.
  destruct a as [e msg|e sv i ac]; cbn; intros H k m Hk.
  - apply fromSomeip_inv in H as (_ & _ & _ & _ & _ & _ & _ & _ & -> & _).
    case_match; [done|]. rewrite lookup_insert_ne; [done|]. intros <-. congruence.
  - unfold serviceStateChanged in H. destruct (loan e) as [[]|]; [|done].
    by apply publish_inv in H as [_ ->].
Qed.

Lemma thread_step_progress ev c c' :
  thread_step draw ev c = Ok c' → progress_le (tunnel c) (tunnel c').
Proof.
  unfold thread_step. intros H. destruct (racy c); [done|].
  destruct ev, (locked c) as [cb|], (incoming c) as [x'|]; try (injection H as <-; by intros k m);
    apply bind_Ok_inv in H as (s & H & [= <-]); cbn;
    first [by eapply callback_progress|intros k m; by erewrite (incommingMsg_progress _ _ s)].
Qed.

Lemma threads_progress evs c c' :
  foldM (thread_step draw) evs c = Ok c' → progress_le (tunnel c) (tunnel c').
Proof.
  revert c. induction evs as [|ev evs IH]; intros c; cbn; [by intros [= <-]|].
  intros (c1 & H1 & H2)%bind_Ok_inv. etransitivity; [by eapply thread_step_progress|eauto].
Qed.

(** A handler runs after the request was stored, with every callback, sample
    and stop of the threads in between: the request is still there. *)
Lemma forwarded_stays e msg x evs s c :
  mMessagesInProgress s !! (draw (mGen s)).1 = None →
  foldM (thread_step draw) (ev_leave :: evs) (threads_mk s (Some (cb_someip e msg)) x) = Ok c →
  mMessagesInProgress (tunnel c) !! (draw (mGen s)).1 = Some msg.
Proof.
  intros Hf (c1 & H1 & H2)%bind_Ok_inv. apply threads_progress in H2. apply H2.
  unfold thread_step in H1. destruct (racy _); [done|]. cbn in H1.
  apply bind_Ok_inv in H1 as (s1 & H1 & [= <-]). cbn.
  apply fromSomeip_inv in H1 as (_ & _ & _ & _ & _ & _ & _ & _ & -> & _).
  rewrite Hf. apply lookup_insert_eq.
Qed.
End tunnel_facts.

Section service_facts.
Import SomeipTunnel.
Context {G : Type}.
Implicit Types (s : t (G := G)) (h : SomeipTunnelHeader).

Definition meta_len h : nat := Z.to_nat (entry_len (service_metadata h)).

Lemma its_groups_ok h i d :
  event_infos (service_metadata h) !! i = Some d → (meta_len h ≤ length (event_groups d))%nat →
  its_groups h i = Ok (set_of_list (take (meta_len h) (event_groups d))).
Proof.
  intros Hd Hl. unfold its_groups, set_of_list.
  rewrite (foldM_seq _ set_insert (event_groups d)); [done| |done].
  intros j g gs _ Hg. unfold at_idx. by rewrite Hd, bind_Ok, Hg.
Qed.

Lemma its_groups_oob h i d :
  event_infos (service_metadata h) !! i = Some d → (length (event_groups d) < meta_len h)%nat →
  its_groups h i = Ub oob_read.
Proof.
  intros Hd Hl. unfold its_groups.
  apply (foldM_seq_oob _ set_insert (event_groups d)); [|done].
  intros j gs. unfold at_idx. rewrite Hd, bind_Ok. by destruct (event_groups d !! j).
Qed.

Definition offer_call h (d : SomeIPEventDesc) : app_call :=
  offer_event (service_id h) (instance_id h) (event_id d)
    (set_of_list (take (meta_len h) (event_groups d))) (EventType_value (typ d)).

Definition request_calls h (d : SomeIPEventDesc) : list app_call :=
  let groups := set_of_list (take (meta_len h) (event_groups d)) in
  [ request_event (service_id h) (instance_id h) (event_id d) groups (EventType_value (typ d));
    subscribe (service_id h) (instance_id h) (hd 0 groups) ].

Definition calls (cs : list app_call) s : t := foldl (λ s c, call c s) s cs.

Lemma calls_spec cs s :
  calls cs s = mk (mShallRun s) (mMessagesInProgress s) (mGen s) (mToGateway s) (mApp s ++ cs).
Proof.
  unfold calls. revert s. induction cs as [|c cs IH]; intros [r m g tg ap]; cbn.
  - by rewrite app_nil_r.
  - rewrite IH. cbn. by rewrite <- app_assoc.
Qed.

Lemma shape_desc h i d :
  header_shape h → event_infos (service_metadata h) !! i = Some d → length (event_groups d) = 4%nat.
Proof. intros [_ Hg] Hd. by eapply Forall_lookup_1 in Hg. Qed.

Lemma set_of_list_nonempty l : l ≠ [] → ∃ g gs, set_of_list l = g :: gs.
Proof.
  destruct l as [|x l]; [done|]. intros _.
  destruct (set_of_list (x :: l)) as [|g gs] eqn:E; [|by eauto].
  assert (x ∈ set_of_list (x :: l)) as Hx by (apply set_of_list_elem; left).
  rewrite E in Hx. by apply not_elem_of_nil in Hx.
Qed.

Lemma offer_loop h s :
  header_shape h → (meta_len h ≤ 4)%nat →
  foldM (offer_one h) (seq 0 (meta_len h)) s
  = Ok (calls (offer_call h <$> take (meta_len h) (event_infos (service_metadata h))) s).
Proof.
  intros Hs Hn. rewrite (foldM_seq _ (λ d s, call (offer_call h d) s)
    (event_infos (service_metadata h))).
  - f_equal. unfold calls. by rewrite foldl_fmap.
  - intros i d s' _ Hd. unfold offer_one.
    rewrite (its_groups_ok h i d); [|done|by rewrite (shape_desc h i d)].
    unfold at_idx. by rewrite bind_Ok, Hd.
  - destruct Hs as [Hs _]. lia.
Qed.

Lemma request_loop h s :
  header_shape h → (meta_len h ≤ 4)%nat →
  foldM (request_one h) (seq 0 (meta_len h)) s
  = Ok (calls (take (meta_len h) (event_infos (service_metadata h)) ≫= request_calls h) s).
Proof.
  intros Hs Hn. rewrite (foldM_seq _ (λ d s, calls (request_calls h d) s)
    (event_infos (service_metadata h))).
  - f_equal. rewrite drop_0.
    generalize (take (meta_len h) (event_infos (service_metadata h))). intros l.
    revert s. induction l as [|d l IH]; intros s; [done|]. cbn [foldl]. rewrite IH.
    unfold calls. by rewrite bind_cons, foldl_app.
  - intros i d s' Hi Hd. unfold request_one.
    rewrite (its_groups_ok h i d); [|done|by rewrite (shape_desc h i d)].
    unfold at_idx. rewrite bind_Ok, Hd, bind_Ok.
    unfold request_calls. destruct (set_of_list_nonempty (take (meta_len h) (event_groups d)))
      as (g & gs & ->); [|done].
    intros E. apply (f_equal length) in E. rewrite length_take, (shape_desc h i d) in E by done.
    cbn in E. lia.
  - destruct Hs as [Hs _]. lia.
Qed.

Lemma service_loop_oob (f : nat → t → result t) h s :
  (∀ i s, its_groups h i = Ub oob_read → f i s = Ub oob_read) →
  header_shape h → (4 < meta_len h)%nat →
  foldM f (seq 0 (meta_len h)) s = Ub oob_read.
Proof.
  intros Hf Hs Hn. destruct (meta_len h) as [|n] eqn:E; [lia|]. cbn [seq foldM].
  pose proof Hs as [Hs' _].
  destruct (lookup_lt_is_Some_2 (event_infos (service_metadata h)) 0) as [d Hd]; [lia|].
  rewrite Hf; [done|]. eapply its_groups_oob; [done|]. rewrite (shape_desc h 0 d) by done. lia.
Qed.
End service_facts.

(** ** What the tunnel promises *)

(** (C1) Responses go back to the requester: once a SOME/IP request was
    forwarded under an identifier not in use, then whatever callbacks, samples
    and stops follow on the threads without a data race (which makes a run
    undefined, [thread_step]), a gateway answer with that identifier makes the
    tunnel send exactly one message, a response with the service, instance,
    method, client and session of that request and with the bytes of the sample
    as payload; only a callback that stores another request meanwhile races. *)
Theorem tunnel_response_correlates {G} (draw : G → Z * G) (s : SomeipTunnel.t)
    (e : SomeipTunnel.env) (msg : message_impl.t) (evs : list SomeipTunnel.event)
    (x : option sample) (c : SomeipTunnel.threads) (h : SomeipTunnelHeader) (p : SomeipTunnelPayload)
    (Hfresh : SomeipTunnel.mMessagesInProgress s !! (draw (SomeipTunnel.mGen s)).1 = None)
    (Hrun : foldM (SomeipTunnel.thread_step draw) (SomeipTunnel.ev_leave :: evs)
       (SomeipTunnel.threads_mk s (Some (SomeipTunnel.cb_someip e msg)) x) = Ok c)
    (Hin : SomeipTunnel.incoming c = Some (h, p))
    (Hread : SomeipTunnel.reads_progress (h, p) = true)
    (Hid : id h = (draw (SomeipTunnel.mGen s)).1)
    (Hh : header_shape h) (Hp : payload_shape p) (Hfits : header_fits h ∧ payload_fits p) :
  let r := message_impl.header_ msg in
  ∃ resp, SomeipTunnel.thread_step draw SomeipTunnel.ev_handled c
    = match SomeipTunnel.locked c with
      | Some (SomeipTunnel.cb_someip _ _) => Ub data_race
      | a => Ok (SomeipTunnel.threads_mk
               (SomeipTunnel.call (send resp) (SomeipTunnel.tunnel c)) a None)
      end
  ∧ message_impl.header_ resp = message_header_impl.mk
      (message_header_impl.service_ r) (message_header_impl.method_ r) 0
      (message_header_impl.client_ r) (message_header_impl.session_ r)
      VSOMEIP_PROTOCOL_VERSION (message_header_impl.interface_version_ r)
      message_type_e.MT_RESPONSE return_code_e.E_OK (message_header_impl.instance_ r)
  ∧ message_impl.is_reliable_ resp = message_impl.is_reliable_ msg
  ∧ payload_bytes resp = take (Z.to_nat (plength p)) (payload p).
Proof.
  intros r. pose proof (forwarded_stays _ _ _ _ _ _ _ Hfresh Hrun) as Hm. rewrite <- Hid in Hm.
  set (resp := message_impl.set_payload
    (Some (payload_impl.set_data (take (Z.to_nat (plength p)) (payload p)) payload_impl.create))
    (runtime_impl.create_response msg)).
  assert (SomeipTunnel.incommingMsg (h, p) (SomeipTunnel.tunnel c)
          = Ok (SomeipTunnel.call (send resp) (SomeipTunnel.tunnel c))) as Hcall.
  { unfold SomeipTunnel.incommingMsg. rewrite log_sample_spec, decide_True, bind_Ok by done.
    rewrite Hm. unfold SomeipTunnel.sample_bytes, payload_shape, payload_fits in *.
    unfold SomeipTunnel.reads_progress in Hread. cbn [fst] in Hread.
    rewrite rd_ok by lia. rewrite !bind_Ok, drop_0. by destruct (type h). }
  exists resp. split; [|repeat split].
  unfold SomeipTunnel.thread_step, SomeipTunnel.racy. rewrite Hin.
  destruct (SomeipTunnel.locked c) as [[]|]; rewrite ?Hread, ?Hcall; done.
Qed.

Definition example_desc (e : Z) (gs : list Z) (n : Z) : SomeIPEventDesc :=
  {| event_id := e; event_groups := gs; desc_len := n; typ := Field |}.
Definition example_entry (n : Z) : ServiceDescEntry :=
  {| event_infos := replicate 10 (example_desc 0x8001 [7; 3; 9; 3] 2); entry_len := n |}.
Definition example_header (ty : TunnelMsgType) (n i : Z) : SomeipTunnelHeader :=
  {| type := ty; service_id := 0x1234; instance_id := 1; method_id := 0x21;
     service_metadata := example_entry n; is_active := false; id := i |}.
Definition example_payload (n : Z) : SomeipTunnelPayload :=
  {| plength := n; payload := replicate 1500 0xAB |}.
Definition example_env : SomeipTunnel.env :=
  {| SomeipTunnel.loan := Some (example_header EVENT 0 0, example_payload 0);
     SomeipTunnel.send_ok := true |}.
Definition example_draw (g : Z) : Z * Z := (g, g + 1).

Definition example_waiting : SomeipTunnel.threads :=
  SomeipTunnel.threads_mk (SomeipTunnel.create 41)
    (Some (SomeipTunnel.cb_someip example_env example_message)) None.
Definition example_answer : sample := (example_header MESSAGE 0 41, example_payload 2).

(** An availability change waits for the mutex and is answered while the
    response is on its way. *)
Lemma tunnel_response_correlates_witness :
  ∃ c resp,
    foldM (SomeipTunnel.thread_step example_draw)
      [SomeipTunnel.ev_leave; SomeipTunnel.ev_receive example_answer;
       SomeipTunnel.ev_enter (SomeipTunnel.cb_state example_env 0x1234 1 true)] example_waiting = Ok c
    ∧ SomeipTunnel.thread_step example_draw SomeipTunnel.ev_handled c
      = Ok (SomeipTunnel.threads_mk (SomeipTunnel.call (send resp) (SomeipTunnel.tunnel c))
              (SomeipTunnel.locked c) None)
    ∧ payload_bytes resp = [0xAB; 0xAB].
Proof.
  eexists. edestruct (tunnel_response_correlates example_draw (SomeipTunnel.create 41))
    with (e := example_env) (msg := example_message) (x := @None sample)
         (evs := [SomeipTunnel.ev_receive example_answer;
                  SomeipTunnel.ev_enter (SomeipTunnel.cb_state example_env 0x1234 1 true)])
         (h := example_header MESSAGE 0 41) (p := example_payload 2)
    as (resp & H1 & _ & _ & H2);
    [reflexivity|vm_compute; reflexivity|reflexivity|reflexivity|reflexivity
    |split; [reflexivity|repeat constructor]|reflexivity
    |apply (bool_decide_unpack _); vm_compute; reflexivity|].
  exists resp. split; [vm_compute; reflexivity|]. split; [exact H1|exact H2].
Defined.

(** The race is there: whenever a request arrives while the receiver
    thread enters [incommingMsg] with an answer, the emplace under the mutex and
    the read without it are both next, and whatever happens is undefined. *)
Theorem messages_in_progress_race {G} (draw : G → Z * G) (s : SomeipTunnel.t) (e : SomeipTunnel.env)
    (msg : message_impl.t) (x : sample) (ev : SomeipTunnel.event)
    (Hread : SomeipTunnel.reads_progress x = true) :
  foldM (SomeipTunnel.thread_step draw)
    [SomeipTunnel.ev_enter (SomeipTunnel.cb_someip e msg); SomeipTunnel.ev_receive x; ev]
    (SomeipTunnel.threads_mk s None None) = Ub data_race.
Proof.
  cbn. unfold SomeipTunnel.thread_step at 1. unfold SomeipTunnel.racy at 1. cbn.
  by rewrite Hread.
Qed.

(** (C31) Outcome of forwarding a SOME/IP message, for every payload length:
    up to 1500 bytes the sample carries the identifiers, the length and the
    payload unchanged (the rest of the array keeps its content), provided the
    lengths the loaned sample happens to hold in its metadata are within the
    arrays, otherwise the log reads behind them; from 1501 to 14999 bytes the
    assertion passes and the copy overruns the 1500 byte array; from 15000 bytes
    the assertion ends the process. *)
Theorem fromSomeip_outcome {G} (draw : G → Z * G) (s : SomeipTunnel.t)
    (e : SomeipTunnel.env) (msg : message_impl.t) (pl : payload_impl.t)
    (h : SomeipTunnelHeader) (p : SomeipTunnelPayload)
    (Hloan : SomeipTunnel.loan e = Some (h, p)) (Hsend : SomeipTunnel.send_ok e = true)
    (Hpl : message_impl.payload_ msg = Some pl) (Hh : header_shape h) (Hp : payload_shape p)
    (Hlen : Z.of_nat (length (payload_impl.data_ pl)) < 2 ^ 32) :
  let l := length (payload_impl.data_ pl) in
  let r := message_impl.header_ msg in
  (Z.of_nat l ≤ 1500 → ∃ s', SomeipTunnel.fromSomeip draw e msg s
       = (if decide (header_fits h) then Ok s' else Ub oob_read)
     ∧ SomeipTunnel.mToGateway s' = SomeipTunnel.mToGateway s ++
        [({| type := MESSAGE; service_id := message_header_impl.service_ r;
             instance_id := message_header_impl.instance_ r;
             method_id := message_header_impl.method_ r;
             service_metadata := service_metadata h; is_active := is_active h;
             id := (draw (SomeipTunnel.mGen s)).1 |},
          {| plength := Z.of_nat l; payload := payload_impl.data_ pl ++ drop l (payload p) |})])
  ∧ (1500 < Z.of_nat l < 15000 → SomeipTunnel.fromSomeip draw e msg s = Ub oob_write)
  ∧ (15000 ≤ Z.of_nat l → SomeipTunnel.fromSomeip draw e msg s = Abort).
Proof.
  intros l r.
  assert (payload_impl.get_length pl = Z.of_nat l) as Hg
    by (unfold payload_impl.get_length; apply wrap_small; unfold in_width; lia).
  assert (rd (payload_impl.data_ pl) 0 l = Ok (payload_impl.data_ pl)) as Hrd
    by (rewrite rd_ok by lia; by rewrite drop_0, take_ge by (unfold l; lia)).
  unfold payload_shape in Hp.
  unfold SomeipTunnel.fromSomeip. rewrite Hloan, Hpl. destruct (draw (SomeipTunnel.mGen s)) as [i g].
  rewrite Hg, Nat2Z.id. repeat split; intros.
  - destruct (Z.ltb_spec (Z.of_nat l) 15000); [|lia]. cbn [negb].
    rewrite Hrd, bind_Ok, wr_ok by (fold l; lia).
    rewrite bind_Ok. cbv zeta. rewrite log_sample_spec; [|done|].
    2: { unfold payload_shape. cbn [payload]. rewrite take_0, Nat.add_0_l, !length_app, length_drop. cbn [length].
         fold l. lia. }
    unfold SomeipTunnel.publish. rewrite Hsend.
    assert (u16 (Z.of_nat l) = Z.of_nat l) as -> by (apply wrap_small; unfold in_width; lia).
    eexists. split.
    + unfold payload_fits. cbn [plength].
      destruct (decide (header_fits h)) as [Hf|Hf];
        [rewrite decide_True by (split; [exact Hf|lia])
        |rewrite decide_False by (intros [? _]; contradiction)]; reflexivity.
    + by rewrite take_0.
  - destruct (Z.ltb_spec (Z.of_nat l) 15000); [|lia]. cbn [negb].
    rewrite Hrd, bind_Ok. unfold wr. by rewrite decide_False by (fold l; lia).
  - destruct (Z.ltb_spec (Z.of_nat l) 15000); [lia|done].
Qed.

Definition big_message : message_impl.t :=
  message_impl.set_payload (Some (payload_impl.mk (replicate 1501 0) 1501)) example_message.

Lemma fromSomeip_outcome_witness :
  SomeipTunnel.fromSomeip example_draw example_env big_message (SomeipTunnel.create 41) = Ub oob_write.
Proof.
  apply (fromSomeip_outcome example_draw (SomeipTunnel.create 41) example_env big_message
    (payload_impl.mk (replicate 1501 0) 1501) (example_header EVENT 0 0) (example_payload 0));
  solve [reflexivity | split; [reflexivity|repeat constructor] | apply (bool_decide_unpack _); vm_compute; reflexivity].
Defined.

(** (C30) Offering and finding a service: with [n] = [service_metadata.len] up to
    4 and the lengths that are logged within their arrays the tunnel makes
    exactly the calls for the first [n] events, each with the set of its first
    [n] event groups (and, for a find, a subscription to the smallest of them),
    then the call for the service.  Otherwise an array is read out of bounds: by
    the log where [n] is above 10, one of the first [n] events counts more than
    4 groups or the payload more than 1500 bytes, by the group loop where [n] is
    above 4.  (The bound of the group loop is the number of events, not the
    event's own number of groups.) *)
Theorem service_sample_calls {G} (s : SomeipTunnel.t (G := G)) (h : SomeipTunnelHeader)
    (p : SomeipTunnelPayload) (Hshape : header_shape h) (Hp : payload_shape p)
    (Htype : type h = OFFER_SERVICE ∨ type h = FIND_SERVICE) :
  let n := Z.to_nat (entry_len (service_metadata h)) in
  let evs := take n (event_infos (service_metadata h)) in
  SomeipTunnel.incommingMsg (h, p) s =
    if decide (n ≤ 4 ∧ Forall (λ d, Z.to_nat (desc_len d) ≤ 4) evs
               ∧ Z.to_nat (plength p) ≤ 1500)%nat then
      Ok (calls (match type h with
                 | OFFER_SERVICE =>
                     (offer_call h <$> evs) ++ [offer_service (service_id h) (instance_id h)]
                 | _ =>
                     (evs ≫= request_calls h) ++ [request_service (service_id h) (instance_id h)]
                 end) s)
    else Ub oob_read.
Proof.
  intros n evs. unfold SomeipTunnel.incommingMsg. rewrite log_sample_spec by done.
  unfold header_fits, payload_fits. subst n evs. fold (meta_len h).
  destruct (decide (_ ∧ Z.to_nat (plength p) ≤ 1500)%nat) as [[[Hn Hf] Hl]|Hno];
    [|rewrite decide_False; [done|intros (? & ? & ?); apply Hno; split_and!; [lia|done..]]].
  rewrite bind_Ok. destruct (decide (meta_len h ≤ 4)%nat) as [H4|H4];
    [rewrite decide_True by done|rewrite decide_False by tauto]; destruct Htype as [-> | ->].
  - rewrite offer_loop by done. rewrite bind_Ok, !calls_spec. cbn. by rewrite app_assoc.
  - rewrite request_loop by done. rewrite bind_Ok, !calls_spec. cbn. by rewrite app_assoc.
  - rewrite service_loop_oob; [done| |done|lia].
    intros i s' E. unfold SomeipTunnel.offer_one. by rewrite E.
  - rewrite service_loop_oob; [done| |done|lia].
    intros i s' E. unfold SomeipTunnel.request_one. by rewrite E.
Qed.

(** One event with the two groups 7 and 3 in a service with one event: only
    group 7 is offered; in a service with five events the loop leaves the array;
    with a payload of 1501 bytes the log does. *)
Lemma service_sample_calls_witness :
  SomeipTunnel.incommingMsg (example_header OFFER_SERVICE 1 0, example_payload 0)
    (SomeipTunnel.create 41)
  = Ok (calls [offer_event 0x1234 1 0x8001 [7] event_type_e.ET_EVENT; offer_service 0x1234 1]
          (SomeipTunnel.create 41))
  ∧ SomeipTunnel.incommingMsg (example_header FIND_SERVICE 5 0, example_payload 0)
      (SomeipTunnel.create 41) = Ub oob_read
  ∧ SomeipTunnel.incommingMsg (example_header OFFER_SERVICE 1 0, example_payload 1501)
      (SomeipTunnel.create 41) = Ub oob_read.
Proof.
  split_and!.
  - rewrite (service_sample_calls (SomeipTunnel.create 41) (example_header OFFER_SERVICE 1 0));
      [reflexivity|split; [reflexivity|repeat constructor]|reflexivity|left; reflexivity].
  - rewrite (service_sample_calls (SomeipTunnel.create 41) (example_header FIND_SERVICE 5 0));
      [reflexivity|split; [reflexivity|repeat constructor]|reflexivity|right; reflexivity].
  - rewrite (service_sample_calls (SomeipTunnel.create 41) (example_header OFFER_SERVICE 1 0));
      [reflexivity|split; [reflexivity|repeat constructor]|reflexivity|left; reflexivity].
Defined.

(** An answer of the gateway whose identifier is not known, be it a
    message or an acknowledgement, leaves [incommingMsg] with
    [std::out_of_range]; nothing catches it on the way out of the receiver
    thread, whatever samples are queued behind it. *)
Theorem unknown_id_ends_receiver {G} (s : SomeipTunnel.t (G := G)) (h : SomeipTunnelHeader)
    (p : SomeipTunnelPayload) (q : list SomeipTunnel.recv)
    (cycles : list (bool * list SomeipTunnel.recv))
    (Hread : SomeipTunnel.reads_progress (h, p) = true)
    (Hh : header_shape h) (Hp : payload_shape p) (Hfits : header_fits h ∧ payload_fits p)
    (Hid : SomeipTunnel.mMessagesInProgress s !! id h = None)
    (Hrun : SomeipTunnel.mShallRun s = true) :
  SomeipTunnel.recvInternal ((true, SomeipTunnel.recv_sample (h, p) :: q) :: cycles) s
  = Exn out_of_range.
Proof.
  cbn. rewrite Hrun, Hid. cbn. rewrite log_sample_spec, decide_True by done. cbn.
  unfold SomeipTunnel.reads_progress in Hread. cbn in Hread. by destruct (type h).
Qed.

Lemma unknown_id_ends_receiver_witness :
  SomeipTunnel.recvInternal
    [(true, [SomeipTunnel.recv_sample (example_header OFFER_SERVICE_ACK 0 9, example_payload 0)])]
    (SomeipTunnel.create 41) = Exn out_of_range.
Proof.
  apply unknown_id_ends_receiver;
    [reflexivity|split; [reflexivity|repeat constructor]|reflexivity
    |apply (bool_decide_unpack _); vm_compute; reflexivity|reflexivity|reflexivity].
Defined.

(** Stopping: after [stop] the receiver thread ends at its next cycle
    without handling another sample, and while it runs it handles the samples
    of the gateway one after the other in the order they were received. *)
Theorem receiver_cycles {G} (s : SomeipTunnel.t (G := G))
    (cycles : list (bool * list SomeipTunnel.recv)) (xs : list sample) :
  SomeipTunnel.recvInternal cycles (SomeipTunnel.stop s) = Ok (SomeipTunnel.stop s)
  ∧ SomeipTunnel.fromGateway ((SomeipTunnel.recv_sample <$> xs) ++ [SomeipTunnel.recv_none]) s
    = foldM SomeipTunnel.incommingMsg xs s.
Proof.
  split.
  - destruct cycles as [|[[] q] cycles]; done.
  - revert s. induction xs as [|x xs IH]; intros s; [done|]. cbn [fmap list_fmap app].
    cbn [SomeipTunnel.fromGateway foldM].
    destruct (SomeipTunnel.incommingMsg x s); try done. apply IH.
Qed.

(** ** The supervisor *)

Section gateway_facts.
Import gateway.

(** The process ids that differ from the one before them. *)
Fixpoint changes (cur : Z) (pids : list Z) : list Z :=
  match pids with
  | [] => []
  | pid :: pids => (if cur =? pid then [] else [pid]) ++ changes pid pids
  end.

(** The effects of the (re)start with number [k]. *)
Definition restart_block (k : nat) : list effect :=
  match k with O => [] | S j => [ev_stop j; ev_join j] end
  ++ [ev_create k; ev_start k; ev_notify].

Definition last_tunnel (n : nat) : option nat := match n with O => None | S j => Some j end.

Lemma changes_cons_eq cur pid pids :
  (cur =? pid) = true → changes cur (pid :: pids) = changes cur pids.
Proof. intros H. cbn. rewrite H. by apply Z.eqb_eq in H as ->. Qed.

Lemma run_spec pids s :
  tunnel s = last_tunnel (created s) →
  let n := length (changes (currentPid s) pids) in
  run pids s = mk (default (currentPid s) (last pids)) (last_tunnel (created s + n))
    (created s + n) (effects s ++ concat (restart_block <$> seq (created s) n)).
Proof.
  revert s. induction pids as [|pid pids IH]; intros s Ht n.
  { subst n. cbn. rewrite Nat.add_0_r, app_nil_r, <- Ht. by destruct s. }
  cbn [run foldl]. change (foldl _ (iteration pid s) pids) with (run pids (iteration pid s)).
  subst n. destruct (currentPid s =? pid) eqn:E; unfold iteration; rewrite E.
  - rewrite changes_cons_eq, IH by done. f_equal. apply Z.eqb_eq in E as <-.
    destruct pids; [done|]. cbn [last]. by destruct (last (_ :: _)).
  - cbn [changes]. rewrite E, IH by done. cbn [currentPid created effects app length].
    rewrite Nat.add_succ_r. f_equal.
    + destruct pids; [done|]. rewrite last_cons_cons. cbn [default].
      destruct (last (_ :: _)) eqn:El; [done|]. by apply last_None in El.
    + cbn [seq fmap list_fmap concat]. rewrite <- !app_assoc. f_equal.
      unfold restart_block at 2. rewrite Ht. destruct (created s); by cbn.
Qed.

(** The running tunnels and the largest number that ever ran at once. *)
Definition track (st : list nat * nat) (e : effect) : list nat * nat :=
  let run := match e with
             | ev_start k => k :: st.1
             | ev_stop k => filter (λ j, j ≠ k) st.1
             | _ => st.1
             end in
  (run, (st.2 `max` length run)%nat).

Lemma track_blocks k n :
  foldl track (match k with O => [] | S j => [j] end, (1 `min` k)%nat)
    (concat (restart_block <$> seq k n))
  = (match (k + n)%nat with O => [] | S j => [j] end, (1 `min` (k + n))%nat).
Proof.
  revert k. induction n as [|n IH]; intros k; cbn [seq fmap list_fmap concat].
  - by rewrite Nat.add_0_r.
  - rewrite foldl_app. replace (k + S n)%nat with (S k + n)%nat by lia.
    rewrite <- (IH (S k)). f_equal. destruct k as [|j]; [done|].
    unfold restart_block. cbn [app foldl]. unfold track. cbn [fst snd].
    assert (filter (λ i, i ≠ j) [j] = []) as -> by (rewrite filter_cons_False by auto; done).
    done.
Qed.
End gateway_facts.

(** (C40) The supervisor restarts the tunnel exactly at the changes of the
    announced process id (starting from 0): for every sequence of events the
    n-th tunnel is created, started and announced after the (n-1)-th was stopped
    and joined, repeated ids do nothing, and never more than one tunnel runs. *)
Theorem gateway_restarts (pids : list Z) :
  let n := length (changes 0 pids) in
  gateway.run pids gateway.create
    = gateway.mk (default 0 (last pids)) (last_tunnel n) n (concat (restart_block <$> seq 0 n))
  ∧ (foldl track ([], 0%nat) (gateway.effects (gateway.run pids gateway.create))).2 = (1 `min` n)%nat.
Proof.
  cbn zeta. rewrite run_spec by done. cbn [gateway.currentPid gateway.created gateway.create
    gateway.effects Nat.add app]. split; [done|].
  by rewrite (track_blocks 0).
Qed.
